(* ===== verification/_CoqProject ===== *)
-Q . S2P
Prelude.v
GoStrings.v
GoPath.v
Sha256.v
GoTime.v
Api.v
Profile.v
Extensions.v
Lineage.v
ReviewReady.v
ClaimTrust.v
Capability.v
GraphTypes.v
GraphRetry.v
Redact.v
GraphExec.v
GraphInv.v
GraphStep.v
GraphProps.v
Template.v
Compile.v
AttemptName.v
Ledger.v
Kube.v
AttemptStore.v
ReviewClaim.v
ClaimProps.v
ClaimMachine.v
Janitor.v
LedgerFrame.v
Json.v
Carry.v
Review.v
ReviewRest.v
ReviewEval.v
ReviewProps.v
ForgeProps.v
Gate.v
Jobs.v
DispatchConfig.v
JobEnv.v
JobProps.v
Sweep.v
SweepModel.v
SweepProps.v
SweepFrame.v
Dispatch.v
WorkflowState.v
Controller.v
ControllerModel.v
ControllerProps.v
Webhook.v
Consumer.v
WebhookProps.v
TemplateHistory.v
FleetJanitor.v
Timeline.v
TimelineProps.v
Dapr.v
DaprProps.v
AgentSession.v
AgentRPC.v
AgentRPCProps.v
AgentTask.v
Plugin.v
NodeExec.v
DeployExec.v
Research.v
Pipeline.v
FileSys.v
FileLaws.v
Materialize.v
SharedStore.v
PiArgs.v
WorkerRun.v
CrdWalk.v
UiGraph.v
UiDiff.v
UiOps.v
UiWall.v
