(* ===== verification/Prelude.v ===== *)
(** * Harmostes: a verification library for the orchestration kernel

    Harmostes runs agent workflows on Kubernetes. A Workflow, completed by a
    template, is compiled to a graph of nodes (prepare, agent, gate, deploy,
    publish, ...); a worker walks the graph and records what it did in an
    Attempt, the durable ledger of one objective; a review gate sweeps the pull
    requests of a forge, arms claims on Attempts and hands out reviews; a
    dispatcher turns what the gate hands out into one Job per Attempt; a janitor
    bounds all of it. This library models the decisions of that program,
    written in Go, and proves what they promise. Paths are relative to src/.

    ** Parts of the program and their files

    Foundations, the standard library of Go as far as the source uses it:
    - [Prelude]: results, the state-passing monad [M], 64-bit integers, strings
      as byte sequences, lists updated by key, selections of keyed lists.
    - [GoTime]: durations, instants, [time.ParseDuration], rounding, RFC 3339.
      [GoStrings]: the functions of [strings], runs of bytes, lines.
      [GoPath]: UTF-8 widths and [strings.Map], [filepath.Clean] and [Join].
      [Sha256]: the hash, computed. [Json]: the values a decoder yields and the
      accessors the source applies to them. [Sha256] also holds a hexadecimal
      codec for the concrete instances.

    Data and policies:
    - [Api] (api/v1alpha1): the resources, value types and label keys, with the
      source's fields; a pointer is an [option], a map a [gmap].
    - [Profile] (agentprofile_types.go, workflow_types.go, worker/agentprofile.go):
      agent profiles and model windows. [Extensions] (api/v1alpha1/extensions.go,
      worker/extensions.go): the pins of extensions and of the harness, their
      validation, composition and manifests.
    - [ReviewReady] (reviewready.go, actions.go, gates.go, labels.go): bounds and
      durations of the review gate, release reasons, the refusal memo.
    - [ClaimTrust] (internal/claim/trust.go): [Enforce], [Promote], the glob
      matcher (module [Glob]). [Capability] (internal/capability/policy.go):
      authorization of nodes. [Redact] (worker/plugin.go, executor.go): what is
      done to plugin output before it is persisted.

    The executor:
    - [GraphTypes] (internal/graph/node.go, config.go), [GraphRetry]
      ([retryPolicyOf], [delayFor]) and [GraphExec] (executor.go,
      branch_executor.go). The state of a walk is the record [Run]; its effects
      on the world are a list, in order. [GraphInv] holds its invariants,
      [GraphStep] the effect of one visit and the
      visits of a walk ([trail]), [GraphProps] the properties.
    - [Template] (template.go, workflowtemplate_types.go) and [Compile]
      (compile.go): from a Workflow and its template to the graph the executor
      accepts and walks in order.

    The ledger and the claims:
    - [AttemptName] (internal/attempt/attempt.go): objective, identity, name.
    - [Ledger] (lifecycle.go): merges, clamps and compaction, the pure functions
      every ledger write applies.
    - [Kube]: the API server as the ledger relies on it. [KubeClient] is the
      class of its operations on a world, [RetryOnConflict] the retry loop of
      client-go; [ClientLaws] and [RetryLaws] are their documented behaviour.
      The world at the end of the file is an instance: a map of objects, a clock
      and a script of other writers.
    - [AttemptStore] (lifecycle.go): [patchAttemptStatus] and what is built on it:
      recorded runs and progress, [ResolveOrCreate], [SupersedePriorAttempts],
      [GCAttempts]. [Janitor] (lifecycle.go): [ReapStuckAttempts].
    - [ReviewClaim] (claim.go): guards, [ArmClaim], dispatch intent and edge,
      releases, the marker and the live list; [ClaimProps] its properties.
      [ClaimMachine]: the abstract machine of a claim, events on the claim
      alone, which every operation of [ReviewClaim] refines.

    The review gate:
    - [Review] (internal/review/review.go): verdict trailers, context states and
      the decoded rows of both hosts. [ReviewRest]: the REST client of both
      hosts over an HTTP transport. [ReviewEval]: [Evaluate],
      and a transport answering from a table. [ReviewProps] and [ForgeProps]
      hold the properties.
    - [Gate] (internal/gate/sweep.go): wakes, pointers, scope, notices and the
      classification of releases, with their properties.
    - [Jobs] (internal/k8s/job.go): lists of Jobs and the facts read off them, and
      [BuildJob]; the pod is assembled from parts (environment, volumes, mounts),
      one per paragraph of the Go function, in its order.
      [Sweep] (sweep.go): the sweep with its passes, in the order of the code,
      each pass a function on the accumulators the Go function keeps in its
      variables. [SweepModel] is a fleet (cluster, Jobs, forge) to run it on;
      [SweepProps] and [SweepFrame] hold the properties.

    The dispatcher and the Job of an Attempt:
    - [DispatchConfig] (internal/worker/dispatch.go): the configuration read from
      the environment and its validation; attachments. [JobEnv]: the environment
      forwarded to an Attempt and the tool budget. [JobProps]: the pod of a Job.
    - [Dispatch]: [FetchWorkflow], [composeRuntime] and [Dispatch] over the
      sweep, the claims and the Jobs, with their properties.

    The controller, what wakes it and what it wakes:
    - [WorkflowState] (internal/k8s/k8s.go): Workflow objects in the cluster and
      the status patcher. [LedgerFrame]: what ledger writes leave alone, patches
      and creations ([PatchFrame]) and deletions too.
    - [Controller] (internal/controller/trigger.go, attempt_trigger.go,
      workflow_controller.go): [isDue], [dueReason], the trigger event, the
      watch's predicate; the trigger slot, the publication, the clearing of a wake, the observed status and
      [Reconcile], over the cluster, the event bus ([EventBus]) and the ledger.
      [ControllerModel] is a world to run it in, [ControllerProps] its properties.
    - [Webhook] (internal/webhook/webhook.go): a delivery from the request to the
      merge patch; a handler returns a plan, which [run_plan] carries out.
      [WebhookProps] its properties.
    - [Consumer] (internal/worker/consumer.go): the trigger consumer's reply and
      the backoff loop over armed workflows.
    - [TemplateHistory] (template_history.go, webhook/landing.go): the recorder of
      a template's revisions and the landings that ride them, refined to a log.
    - [FleetJanitor] (internal/controller/janitor.go): the janitor's passes over
      Attempts, Jobs and runner pods, with the log of the calls they make
      ([FleetCall]: listings, reads and deletions).
    - [Timeline] (internal/timeline/timeline.go): writer and reader over the
      contract of a state store ([StateClient], [StateLaws]). [Dapr]
      (internal/dapr/client.go, sidecar.go): the sidecar's HTTP client and the
      startup guard; [DaprProps] discharges the contract. [TimelineProps] holds
      the timeline's properties.

    The agent and the processes around it:
    - [AgentSession] (internal/agent/session.go, usage.go, the environment of
      rpc.go): transcripts, budgets, tokens, what is read of pi's events,
      [FilterEnv]. [AgentRPC] (rpc.go, pijsonl/types.go): a prompt as a fold over
      the events that arrive ([pump], [Prompt]), the snapshot at the end of a
      turn, the spawn ([NewRPC]). [AgentTask] (agent.go): the fix loop [Task]
      over any session ([PiSession]), and the runs of turns and evaluations
      that it may make ([task_run]). [AgentRPCProps] holds the
      properties of a prompt.
    - [Plugin] (internal/worker/plugin.go): commands run by a [Shell], their last
      line of JSON, gates, the runner of an agent ([agent_Run]). [NodeExec]
      (internal/graph: plugin, gate, agent and Dapr executors);
      [DeployExec] (deploy_executors.go): the client of arbitrary resources, the
      KubeVela and Flux nodes, the wait for readiness.
    - [Pipeline] (worker/pipeline.go): the declarative run, prepare, agent,
      deploy. [Research] (research.go, pi_usage.go): the journal and the count of
      tool calls, [SavePiSession] and [LoadPiSession].

    Continuity between reviews:
    - [Lineage] (internal/sessionstore/sessionstore.go, agentlineage/actor.go,
      [InvokeActor] of dapr/client.go): directories and actor ids, the actor's
      handler on its state, and the client that fetches and publishes through
      it. [Carry] (sessionstore/carry.go): [ExtractCarry].

    The files of a pod and the run it starts:
    - [FileSys]: a disk as a map of paths to files, directories and links, and
      the operations of [os] and [filepath.WalkDir] the source uses; [FileLaws]
      their laws. [Materialize] (internal/materialize): extensions and the
      harness fetched, checked against their pins, unpacked and linked, as the
      init container does and as the agent's container finds them.
      [SharedStore] (internal/sessionstore): the shared directories of
      components and lineages, their links, locks and migration.
    - [PiArgs] (internal/piargs): the arguments of pi, assembled and checked.
      [WorkerRun] (cmd/harmostes-worker/main.go): a one-shot run from its
      environment to its exit code.
    - [CrdWalk] (internal/crdwalk): the walks that compare Go types and CRD
      schemas in both directions, against the paths that [encoding/json] writes
      ([Writes]), and the enumeration of a schema's leaves.

    The console (internal/ui):
    - [UiGraph] (topology.go, run_graph.go): the layout of a graph and the state
      painted on it. [UiDiff] (topology.go, yamldiff.go): two revisions on one
      layout, and the line diff. [UiOps] (auth.go, server.go, lifecycle.go,
      workflows.go, events.go and the guards of the pages): identities, what
      they may see and write, the verbs on a workflow over the API server
      ([ConsoleApi]), its creation, and the hub of live events as a step
      relation whose publishers interleave. [UiWall] (attempts.go, wall.go,
      progress.go): the words for the states of claims and rows, the groups of
      attempts, the list of runs with its tabs, the wall and its strips.

    The executor calls [Capability], [ClaimTrust], [GraphRetry] and [Redact]; the
    compiler's output is its input. The store applies [Ledger] through [Kube];
    the claims and the reaper use the store's write primitive and name their
    objects by [AttemptName]. The sweep evaluates with [ReviewEval] over
    [ReviewRest], and moves claims with [ReviewClaim]; the dispatcher calls the
    sweep, marks the intent, creates the Job of [Jobs] and marks the edge.
    A delivery of [Webhook] leaves a wake on the Workflow, [Controller] publishes
    it, [Consumer] hands it to the dispatcher; a run that ends updates its
    Attempt, which [Controller]'s predicate maps back to the Workflow.

    ** What the theorems show

    - The walk ([GraphProps], [Compile]): it ends, in at most 1000 visits of at
      most 5 executions; only authorized nodes of registered types run; a green
      walk handed on every failure and a failed one reported it; envelopes
      carry the kernel's identity and provenance; validated claims come from
      gates that ran; loop-back edges keep their budgets; a compiled workflow
      runs its stages in order.
    - Trust and policy ([ClaimTrust], [Capability]): enforcement, promotion and
      authorization do exactly what they should; the matcher decides the
      pattern's language.
    - Configuration ([Template], [ReviewReady], [GraphRetry], [Redact], [Profile],
      [Extensions]): overlays, bounds, backoff, credential stripping, model
      windows; what is composed and rendered into a Job is parsed back whole.
    - The ledger ([Ledger], [AttemptStore]): every write is one atomic, bounded
      read-modify-write of the status it replaced, whatever others write in
      between; outcomes are recorded whole and survive compaction; resolution
      is by a valid, deterministic name; supersession and collection touch only
      what their guards admit.
    - The claims ([ClaimProps], [ClaimMachine], [Janitor]): a successful arm ends
      in a live claim and has freed the others that its listing showed of the
      pull request;
      guards refuse before any write; releases, deaths and cancellations move
      exactly their own counters; every write is an event of the abstract claim
      machine; the live list is exact; the reaper touches only the stuck.
    - The gate ([ReviewProps], [ForgeProps], [Gate], [SweepProps],
      [SweepFrame]): an evaluation proceeds exactly on a labelled, unmoved, green
      head without a standing verdict; a claim past its bounds stands down;
      a walk of a conversation is complete or says it is not; a sweep starts
      only reviews it read ready, accepts no more than the free slots, creates
      no Job and deletes only those of a cancelled claim.
    - The dispatcher ([Dispatch], [JobProps], [JobEnv]): an invalid
      declaration is refused before any write; no Job exists before its intent;
      the pod of a validated declaration is well formed
      under a configuration that does not collide with itself; what crosses into an
      Attempt's environment, and which tool budget it sees.
    - The controller ([ControllerProps]): it publishes at most one event, for a
      due workflow and after winning its slot; slots are spaced whatever
      interleaves; a finished run wakes its workflow; a scheduled run settles
      it. The webhook ([WebhookProps]): a delivery changes at most a wake's
      annotations and, where a secret is in force, only when signed with it; the
      wake reaches the published event whole. The consumer ([Consumer]): the
      cadence of its backoff. The recorder ([TemplateHistory]): the history
      is the window over the log of distinct specs. The janitor
      ([FleetJanitor]): it deletes only what has ended, and all it could judge.
      The timeline ([TimelineProps]): what is emitted on a fresh keyspace is
      read back, and reading ends. The sidecar ([DaprProps]): a saved state is the state read.
    - The agent ([AgentRPCProps], [AgentTask]): a prompt reads its turn and
      no more; a warm session accounts each message once; its process never sees
      the bot's credential; a task is green only when the gate's own last answer
      was, and each fix answers the evaluation before it.
    - The nodes ([NodeExec], [DeployExec]): a plugin's result is the exit of
      its command; an agent's node is green only behind its gate; an applied
      resource is an upsert of its spec; a wait ends and its verdict was read.
      The run ([Pipeline], [Research]): how a pipeline ended says
      what ran; a stored session is the redacted one; the journal is bounded.
    - Continuity ([Lineage], [Carry]): a lineage directory cannot leave its root;
      a published session is fetched back with its generation raised; a carry is
      bounded.

    - Files ([Materialize], [SharedStore]): what is fetched is what the pin
      hashes; an archive without links writes only below a directory without
      links; what the init
      container leaves is what the agent's container loads; a link is repointed
      in one step and what lived under the old layout is kept.
    - The run ([WorkerRun], [PiArgs]): every way it ends is accounted; it works
      on the pull request it was woken for; the agent's environment lacks the
      bot's credentials. The walk ([CrdWalk]): a conforming type is passed, and
      the reverse check reports exactly what Go lacks.
    - The console ([UiGraph], [UiDiff], [UiOps], [UiWall]): every node has its own place,
      right of its predecessors; the pulse is after them unless a loop-back
      leads there; the panes of a diff
      share their layout and the line diff is a shortest one; a verb writes
      only for who may, and only what it read; what is created is its
      creator's and inert; the hub delivers once to each whom it
      concerns and who has room. The groups of the lists
      ([UiWall]) account for every attempt once, tabs hold what they count, and
      the wall shows the newest live ones within its budget.

    Concurrency is not assumed away: a run of an operation is the list of its own
    writes ([Wrote]), each between arbitrary steps of other writers, each with
    the object it replaced. Races the code does not close are theorems on the
    concrete cluster, next to the properties they limit
    ([gc_deletes_rearmed], [supersede_overwrites_validated],
    [reap_fails_validated], [armed_but_hidden], [death_reported_twice],
    [revived_edge_is_stale], [refused_arm_supersedes], [one_attempt_two_jobs],
    [queued_claims_exceed_capacity], [failed_read_resets_generation],
    [newer_wake_cleared], [repeated_wake_lost]); other
    limits are [backoff_overflow_negative], [Redact_leaks_after_at],
    [AttemptName_collides], [hold_makes_a_claim], [second_trailer_hidden],
    [one_digit_hour_wraps], [v_tag_accepted], [duplicate_delta],
    [collisions_validated], [ttl_wraps], [carry_exceeds_cap],
    [impossible_cron_always_due], [condition_generation_stale],
    [tick_has_two_identities], [swap_looks_stalled], [tag_push_branch],
    [secret_without_url_admits], [push_keeps_pointer], [empty_slice_floods],
    [landing_rides_any_delivery], [expired_batch_hides_rest],
    [orphan_gate_unread], [refused_delete_succeeds], [missing_key_204],
    [compaction_recounts], [compaction_unseen], [crash_reads_as_end],
    [lineage_without_root], [Task_without_gate], [final_gate_same_work],
    [crashed_agent_green], [long_line_hides_result], [missing_gate_is_red],
    [event_overrides_changed], [stale_ready_green], [journal_drops_all],
    [short_hash_crashes], [failed_then_skipped], [parent_entry_escapes],
    [link_chain_escapes], [renamed_extension_never_runs],
    [empty_package_never_runs], [partial_init_left], [harness_bin_outside],
    [outage_claims_legacy], [outage_stamps_store],
    [rename_failure_leaves_absent], [unlisted_directory_lost],
    [migration_overwrites], [skipped_run_keeps_its_sidecar],
    [workspace_dir_escapes], [commit_depends_on_order],
    [authenticated_url_is_rewritten], [shape_mismatch_unreported],
    [untagged_field_unreported], [empty_first_value_unlawful],
    [json_leaf_unprobed], [list_of_times_panics], [pattern_reported_twice],
    [forwarded_groups_make_admin], [dev_namespace_shared],
    [detail_page_tells_existence], [counts_stop_at_the_cap],
    [closed_claim_reads_queued], [loop_back_pulses_early] and [strip_overflows].

    ** Fuel and bounds

    The walk's fuel is one more than the code's own iteration limit
    ([MaxIterations], 1000), so the code's check is what ends it. A node's
    retries are bounded by its policy (at most 5). [parse_groups] takes the
    length of its input, of which every round consumes a byte; so do the loops
    of [GoStrings] and [GoPath] that are not structural. [glob_loop] runs on
    [glob_fuel], which [MatchGlob_decides] shows to be enough. The walks of
    pages recurse on the page bounds of the code ([maxCommentPages] and its
    like), which end them. Loops over listed objects recurse on the list. The
    loops of the consumer and of the janitor's ticker run forever: their models
    take the passes made. The timeline's walk takes fuel, which
    [timeline_walk_ends] shows to be enough at one batch past the data; the
    wait for a resource takes fuel and ends within its timeout
    ([pollReady_verdict]); the sidecar's wait ends within its timeout over the interval ([StartupGuard_ends]).
    The walk of a directory takes the length of the disk's longest path, that of
    a graph's depths more than its nodes, which [depth_from_spec] shows to be
    enough; the backtrace of a line diff takes more than the lines of both.
    The retry loop is abstract: [RetryTrace] says that it reran after conflicts only
    and answers with its last run; the instance makes four runs.

    ** Parameters

    Code that is not part of the source enters as an argument: node executors,
    the expression templates, the shell quoting and the JSON codecs; the HTTP
    transport and the JSON parser; [url.Parse]'s path; [semver.IsValid];
    Kubernetes' label validator; the time-zone database; the order in which a
    Go map is ranged over; the errors of [SetControllerReference] and of a
    label requirement, and the texts of the API server's errors; the Kubernetes
    client; the cron library; the marshalling of events; the event bus and the
    sidecar's documented API; float64 ([Float64]); the streams and exits of
    processes and clocks of the pod; gzip, base64 and tar; the package
    registry, SHA-512 and the mount points; git; the YAML parser and the texts
    of floats; the host [url.Parse] finds in an origin; the sort of [sort.Slice], a
    permutation in the order of the comparison, free on equal elements; the JSON of a node's fingerprint and of an instance's configuration; the API of unstructured
    resources. Each class of laws has an instance on which the theorems are run.

    ** What is not modelled

    Log lines, spans and metrics; the duration of the event of a denied node,
    taken as zero; error texts beyond the values they print; the
    fields of Kubernetes metadata the code does not read (owner references
    among them, but for the controller of a Job). The goroutine that reads pi's
    output is its result, without the channel between; process groups and
    signals are left out. Of the console, the identity cards, the waterfall of a run,
    the texts of ages, the rendering of HTML and the proposals to a forge are
    left out;
    of a run, the callbacks that publish turns and tools and the guard's
    self-heal. The observability of the binaries and the controller's wiring
    have no model. Recursive Go types are outside [CrdWalk]. *)

From stdpp Require Export base tactics list gmap strings sorting pretty.
From Stdlib Require Export ZArith Lia.
From Stdlib Require Export Ascii.

#[global] Open Scope Z_scope.
#[global] Set Default Goal Selector "!".

Create HintDb harmostes.

(** ** Results: a Go call that returns [(value, error)] *)

Inductive result (E A : Type) : Type :=
| Ok (a : A)
| Err (e : E).
Arguments Ok {E A} a.
Arguments Err {E A} e.

Definition is_ok {E A} (r : result E A) : bool :=
  match r with Ok _ => true | Err _ => false end.

Definition result_err {E A} (r : result E A) : option E :=
  match r with Ok _ => None | Err e => Some e end.

(** ** State-passing computations that may fail *)

Definition M (S E A : Type) : Type := S → result E A * S.

Section monad.
Context {S E : Type}.

Definition ret {A} (a : A) : M S E A := λ s, (Ok a, s).
Definition throw {A} (e : E) : M S E A := λ s, (Err e, s).
Definition bindM {A B} (m : M S E A) (k : A → M S E B) : M S E B := λ s,
  match m s with
  | (Ok a, s') => k a s'
  | (Err e, s') => (Err e, s')
  end.
(** Run [m] and hand its outcome, error or not, to [k]: Go's [x, err := m()]. *)
Definition tryM {A B} (m : M S E A) (k : result E A → M S E B) : M S E B := λ s,
  let '(r, s') := m s in k r s'.

Lemma bindM_ok_inv {A B} (m : M S E A) (k : A → M S E B) s b s' :
  bindM m k s = (Ok b, s') → ∃ a s1, m s = (Ok a, s1) ∧ k a s1 = (Ok b, s').
Proof. unfold bindM. destruct (m s) as [[a|e] s1]; naive_solver. Qed.

Lemma bindM_run {A B} (m : M S E A) (k : A → M S E B) s a s1 :
  m s = (Ok a, s1) → bindM m k s = k a s1.
Proof. unfold bindM. by intros ->. Qed.

Lemma bindM_fail {A B} (m : M S E A) (k : A → M S E B) s e s1 :
  m s = (Err e, s1) → bindM m k s = (Err e, s1).
Proof. unfold bindM. by intros ->. Qed.

Lemma tryM_run {A B} (m : M S E A) (k : result E A → M S E B) s r s1 :
  m s = (r, s1) → tryM m k s = k r s1.
Proof. unfold tryM. by intros ->. Qed.
End monad.

Declare Scope go_scope.
Delimit Scope go_scope with go.
Notation "'let!' x ':=' m 'in' k" := (bindM m (λ x, k))
  (at level 10, x name, m at level 200, k at level 200) : go_scope.
Notation "'try!' x ':=' m 'in' k" := (tryM m (λ x, k))
  (at level 10, x name, m at level 200, k at level 200) : go_scope.
#[global] Open Scope go_scope.

(** ** Machine integers

    Go's [int], [int64] and [time.Duration] are 64-bit two's complement;
    [uint64] wraps modulo 2^64. *)

Definition two64 : Z := 18446744073709551616.
Definition two63 : Z := 9223372036854775808.
Definition max_int64 : Z := 9223372036854775807.
Definition min_int64 : Z := -9223372036854775808.

Definition u64 (z : Z) : Z := z `mod` two64.
Definition i64 (z : Z) : Z := (z + two63) `mod` two64 - two63.

Lemma i64_id z : min_int64 ≤ z ≤ max_int64 → i64 z = z.
Proof.
  unfold i64, min_int64, max_int64, two63, two64. intros Hz.
  rewrite Z.mod_small; lia.
Qed.

Lemma i64_range z : min_int64 ≤ i64 z ≤ max_int64.
Proof.
  unfold i64, min_int64, max_int64, two63.
  pose proof (Z.mod_pos_bound (z + 9223372036854775808) two64 ltac:(done)) as H.
  unfold two64 in *. lia.
Qed.

Lemma u64_range z : 0 ≤ u64 z < two64.
Proof. unfold u64. by apply Z.mod_pos_bound. Qed.

(** ** Go strings are byte sequences *)

Definition slen (s : string) : Z := Z.of_nat (String.length s).

Fixpoint str_take (n : nat) (s : string) : string :=
  match n, s with
  | O, _ => ""
  | S n, String c s => String c (str_take n s)
  | S _, "" => ""
  end.

Fixpoint str_drop (n : nat) (s : string) : string :=
  match n, s with
  | O, s => s
  | S n, String _ s => str_drop n s
  | S _, "" => ""
  end.

(** [strings.HasPrefix], [strings.TrimPrefix], [strings.TrimSuffix]. *)
Fixpoint strip_prefix (p s : string) : option string :=
  match p, s with
  | "", s => Some s
  | String a p, String b s => if decide (a = b) then strip_prefix p s else None
  | String _ _, "" => None
  end.

Definition has_prefix (s p : string) : bool := bool_decide (is_Some (strip_prefix p s)).
Definition has_suffix (s p : string) : bool := has_prefix (String.rev s) (String.rev p).
Definition trim_prefix (s p : string) : string := default s (strip_prefix p s).
Definition trim_suffix (s p : string) : string :=
  match strip_prefix (String.rev p) (String.rev s) with
  | Some r => String.rev r
  | None => s
  end.

Fixpoint str_bytes (s : string) : list Ascii.ascii :=
  match s with "" => [] | String c s => c :: str_bytes s end.
Fixpoint bytes_str (l : list Ascii.ascii) : string :=
  match l with [] => "" | c :: l => String c (bytes_str l) end.

(** Position of the first byte equal to [c] ([strings.Index] of a one-byte
    string), and of the last one. *)
Fixpoint index_byte (c : Ascii.ascii) (s : string) : option nat :=
  match s with
  | "" => None
  | String b s => if decide (b = c) then Some O else S <$> index_byte c s
  end.

Definition contains_byte (s : string) (c : Ascii.ascii) : bool :=
  bool_decide (is_Some (index_byte c s)).

(** [strings.Join]. *)
Fixpoint join (sep : string) (l : list string) : string :=
  match l with
  | [] => ""
  | [s] => s
  | s :: l => s +:+ sep +:+ join sep l
  end.

Definition byte_val (c : Ascii.ascii) : Z := Z.of_N (Ascii.N_of_ascii c).

Definition is_digit (c : Ascii.ascii) : bool := (48 <=? byte_val c) && (byte_val c <=? 57).
Definition is_upper (c : Ascii.ascii) : bool := (65 <=? byte_val c) && (byte_val c <=? 90).
Definition is_lower (c : Ascii.ascii) : bool := (97 <=? byte_val c) && (byte_val c <=? 122).

(** ASCII part of [unicode.ToLower]. *)
Definition lower_byte (c : Ascii.ascii) : Ascii.ascii :=
  if is_upper c then Ascii.ascii_of_N (Ascii.N_of_ascii c + 32) else c.

Fixpoint lower_ascii (s : string) : string :=
  match s with "" => "" | String c s => String (lower_byte c) (lower_ascii s) end.

Fixpoint all_bytes (p : Ascii.ascii → bool) (s : string) : bool :=
  match s with "" => true | String c s => p c && all_bytes p s end.

Lemma app_str_cons c s t : String c s +:+ t = String c (s +:+ t).
Proof. done. Qed.

Lemma app_str_nil_l t : "" +:+ t = t.
Proof. done. Qed.

Lemma length_app_str s t : String.length (s +:+ t) = (String.length s + String.length t)%nat.
Proof. induction s as [|c s IH]; [done|]. rewrite app_str_cons. simpl. by rewrite IH. Qed.

Lemma app_str_nil_r s : s +:+ "" = s.
Proof. induction s as [|c s IH]; [done|]. rewrite app_str_cons. by f_equal. Qed.

Lemma app_str_assoc s t u : (s +:+ t) +:+ u = s +:+ (t +:+ u).
Proof. induction s as [|c s IH]; [done|]. rewrite !app_str_cons. by f_equal. Qed.

Lemma app_str_inj a x y : a +:+ x = a +:+ y → x = y.
Proof.
  induction a as [|c a IH]; [done|]. rewrite !app_str_cons. intros [= H]. by apply IH.
Qed.

Lemma slen_app s t : slen (s +:+ t) = slen s + slen t.
Proof. unfold slen. rewrite length_app_str. lia. Qed.

Lemma slen_nonneg s : 0 ≤ slen s.
Proof. unfold slen. lia. Qed.

Lemma length_str_take n s : (String.length (str_take n s) ≤ n)%nat.
Proof. revert s. induction n as [|n IH]; intros [|c s]; simpl; try lia. pose proof (IH s). lia. Qed.

Lemma str_take_id n s : (String.length s ≤ n)%nat → str_take n s = s.
Proof.
  revert s. induction n as [|n IH]; intros [|c s]; simpl; intros; try done; try lia.
  by rewrite IH by lia.
Qed.

Lemma str_take_drop n s : str_take n s +:+ str_drop n s = s.
Proof.
  revert s. induction n as [|n IH]; intros [|c s]; simpl; [done..|].
  rewrite app_str_cons. f_equal. apply IH.
Qed.

Lemma all_bytes_app p s t : all_bytes p (s +:+ t) = all_bytes p s && all_bytes p t.
Proof.
  induction s as [|c s IH]; [done|]. rewrite app_str_cons. simpl. by rewrite IH, andb_assoc.
Qed.

Lemma all_bytes_take p n s : all_bytes p s = true → all_bytes p (str_take n s) = true.
Proof.
  revert s. induction n as [|n IH]; intros [|c s]; simpl; try done.
  intros [-> ?]%andb_true_iff. by apply IH.
Qed.

Lemma strip_prefix_app p s : strip_prefix p (p +:+ s) = Some s.
Proof.
  induction p as [|c p IH]; [done|]. rewrite app_str_cons. simpl.
  rewrite decide_True by done. apply IH.
Qed.

Lemma strip_prefix_Some p s r : strip_prefix p s = Some r ↔ s = p +:+ r.
Proof.
  split; [|intros ->; apply strip_prefix_app].
  revert s. induction p as [|c p IH]; intros s; [by intros [= ->]|].
  destruct s as [|d s]; simpl; [done|].
  case_decide; [|done]. intros ?%IH. by subst.
Qed.

Lemma has_prefix_spec s p : has_prefix s p = true ↔ ∃ r, s = p +:+ r.
Proof.
  unfold has_prefix. rewrite bool_decide_eq_true. unfold is_Some.
  by setoid_rewrite strip_prefix_Some.
Qed.

Lemma lower_byte_idem c : lower_byte (lower_byte c) = lower_byte c.
Proof. destruct c as [[] [] [] [] [] [] [] []]; reflexivity. Qed.

Lemma lower_ascii_idem s : lower_ascii (lower_ascii s) = lower_ascii s.
Proof. induction s as [|c s IH]; simpl; [done|]. by rewrite lower_byte_idem, IH. Qed.

Lemma lower_ascii_app s t : lower_ascii (s +:+ t) = lower_ascii s +:+ lower_ascii t.
Proof. induction s as [|c s IH]; [done|]. rewrite app_str_cons. simpl. by rewrite IH. Qed.

Lemma str_bytes_length s : length (str_bytes s) = String.length s.
Proof. induction s; simpl; congruence. Qed.

Lemma bytes_str_bytes s : bytes_str (str_bytes s) = s.
Proof. induction s; simpl; congruence. Qed.

(** ** Lists updated by key

    Go's recurring loop "replace the first element that matches, append
    otherwise". [merge] builds the stored element from the existing one. *)

Section upsert.
Context {A : Type} (p : A → bool) (merge : A → A).

Fixpoint upsert_by (x : A) (l : list A) : list A :=
  match l with
  | [] => [x]
  | y :: l => if p y then merge y :: l else y :: upsert_by x l
  end.

Lemma upsert_by_absent x l : Forall (λ y, p y = false) l → upsert_by x l = l ++ [x].
Proof. induction 1 as [|y l Hy ? IH]; simpl; [done|]. by rewrite Hy, IH. Qed.

Lemma upsert_by_length x l :
  length (upsert_by x l) = length l ∨ length (upsert_by x l) = S (length l).
Proof. induction l as [|y l IH]; simpl; [by right|]. destruct (p y); simpl; [by left|lia]. Qed.

Lemma upsert_by_length_present x l :
  Exists (λ y, p y = true) l → length (upsert_by x l) = length l.
Proof.
  induction l as [|y l IH]; [by intros ?%Exists_nil|]. simpl.
  destruct (p y) eqn:Hy; [done|]. intros [?|?]%Exists_cons; [congruence|]. simpl. auto.
Qed.

Lemma upsert_by_in x l z :
  z ∈ upsert_by x l → z = x ∨ z ∈ l ∨ ∃ y, y ∈ l ∧ p y = true ∧ z = merge y.
Proof.
  induction l as [|y l IH]; simpl.
  - intros ?%list_elem_of_singleton; auto.
  - destruct (p y) eqn:Hy.
    + intros [->|?]%elem_of_cons; [right; right; exists y; set_solver|set_solver].
    + intros [->|Hz]%elem_of_cons; [set_solver|].
      destruct (IH Hz) as [?|[?|(w&?&?&?)]]; [by left|set_solver|].
      right; right. exists w. set_solver.
Qed.

(** Keys stay distinct: [key] must be what [p] tests and what [merge] keeps. *)
Lemma upsert_by_keys {K} (key : A → K) x l :
  (∀ y, p y = true ↔ key y = key x) →
  (∀ y, p y = true → key (merge y) = key x) →
  NoDup (key <$> l) → NoDup (key <$> upsert_by x l).
Proof.
  intros Hp Hm. induction l as [|y l IH]; simpl.
  - intros _. constructor; [set_solver|constructor].
  - intros [Hni Hnd]%NoDup_cons. destruct (p y) eqn:Hy; csimpl.
    + apply NoDup_cons. rewrite Hm by done. apply Hp in Hy. rewrite <- Hy. done.
    + apply NoDup_cons. split; [|auto].
      intros (z&Hz&Hin)%list_elem_of_fmap.
      assert (key y ≠ key x) as Hne by (rewrite <- Hp; congruence).
      destruct (upsert_by_in _ _ _ Hin) as [->|[?|(w&?&?&->)]]; [congruence| |].
      * apply Hni. rewrite Hz. by apply list_elem_of_fmap_2.
      * rewrite Hm in Hz by done. congruence.
Qed.

Lemma upsert_by_idem x l :
  (∀ y, p y = true → p (merge y) = true ∧ merge (merge y) = merge y) →
  p x = true → merge x = x →
  upsert_by x (upsert_by x l) = upsert_by x l.
Proof.
  intros Hm Hx Hmx. induction l as [|y l IH]; simpl.
  - by rewrite Hx, Hmx.
  - destruct (p y) eqn:Hy; simpl.
    + destruct (Hm y Hy) as [-> ->]. done.
    + by rewrite Hy, IH.
Qed.
End upsert.

(** ** Small shared facts *)

Lemma Forall_skipn {A} (P : A → Prop) n l : Forall P l → Forall P (drop n l).
Proof. apply Forall_drop. Qed.

(** Distinct keys stay distinct in a selection of the keyed elements. *)
Lemma filter_keys_NoDup {A K} (f g : A → K) (P : A → Prop) `{!∀ x, Decision (P x)} l ks :
  ks `sublist_of` (f <$> filter P l) → (∀ x, x ∈ l → f x = g x) → NoDup (g <$> l) → NoDup ks.
Proof.
  intros Hsub Hfg Hnd. eapply sublist_NoDup; [|exact Hsub]. clear Hsub ks.
  induction l as [|x l IH]; [constructor|]. csimpl in Hnd. apply NoDup_cons in Hnd as [Hni Hnd].
  assert (NoDup (f <$> filter P l)) as Hl by (apply IH; [set_solver|done]).
  destruct (decide (P x)); [rewrite filter_cons_True by done|by rewrite filter_cons_False].
  csimpl. apply NoDup_cons. split; [|done]. intros (y&Hy&Hin)%list_elem_of_fmap.
  apply list_elem_of_filter in Hin as [_ Hin]. apply Hni. rewrite <- Hfg by set_solver.
  rewrite Hy, Hfg by set_solver. by apply list_elem_of_fmap_2.
Qed.

(** ** Partitions of a list by a key *)

Definition with_key {A} (f : A → string) (k : string) (l : list A) : list A := filter (λ a, f a = k) l.

Lemma with_key_cons {A} (f : A → string) k a l : with_key f k (a :: l) = if decide (f a = k) then a :: with_key f k l else with_key f k l.
Proof. unfold with_key. rewrite filter_cons. by case_decide. Qed.

Lemma with_key_snoc {A} (f : A → string) k l a : with_key f k (l ++ [a]) = with_key f k l ++ (if decide (f a = k) then [a] else []).
Proof. unfold with_key. rewrite filter_app, filter_cons. by case_decide. Qed.

Lemma partition_perm {A} (f : A → string) keys l : NoDup keys → (∀ a, a ∈ l → f a ∈ keys) →
  concat ((λ k, with_key f k l) <$> keys) ≡ₚ l.
Proof.
  intros Hnd. induction l as [|a l IH]; intros Hl.
  - clear. induction keys; [done|]. by cbn.
  - transitivity (a :: concat ((λ k, with_key f k l) <$> keys)); [|apply perm_skip, IH; intros; apply Hl; by right].
    specialize (Hl a ltac:(by left)). clear IH. induction keys as [|k o IHo]; [by apply elem_of_nil in Hl|].
    apply NoDup_cons in Hnd as [Hk Hnd]. rewrite !fmap_cons. cbn [concat]. rewrite (with_key_cons f k a l). case_decide as E.
    + cbn. do 2 f_equiv. assert (∀ o' : list string, k ∉ o' → ((λ k, with_key f k (a :: l)) <$> o') = ((λ k, with_key f k l) <$> o')) as Hsame.
      { intros o' Ho'. apply list_fmap_ext. intros i x Hx%list_elem_of_lookup_2. rewrite with_key_cons. case_decide; [|done]. congruence. }
      by rewrite Hsame.
    + rewrite IHo; [|done|]. { symmetry. apply Permutation_middle. } by apply elem_of_cons in Hl as [?|?].
Qed.

Lemma concat_fmap_concat {A B C} (F : B → list C) (G : A → list B) l :
  concat ((λ a, concat (F <$> G a)) <$> l) = concat (F <$> concat (G <$> l)).
Proof. induction l as [|a l IH]; [done|]. cbn. by rewrite IH, fmap_app, concat_app. Qed.

Lemma fmap_concat {A B} (f : A → B) (ls : list (list A)) : f <$> concat ls = concat ((λ l : list A, f <$> l) <$> ls).
Proof. induction ls as [|l ls IH]; [done|]. cbn. by rewrite fmap_app, IH. Qed.

#[export] Hint Resolve slen_nonneg Forall_skipn : harmostes.

(** Split a hypothesis [m = (r, s)] on the first [match] or [if] it is stuck on. *)
Ltac split_match H :=
  match type of H with
  | context [match ?x with _ => _ end] => destruct x eqn:?
  end.

(** Turn boolean connectives of the context into propositions. *)
Ltac to_prop :=
  repeat match goal with
  | H : _ && _ = true |- _ => apply andb_true_iff in H as [? ?]
  | H : _ || _ = false |- _ => apply orb_false_iff in H as [? ?]
  | H : negb _ = true |- _ => apply negb_true_iff in H
  | H : negb _ = false |- _ => apply negb_false_iff in H
  | H : bool_decide _ = true |- _ => apply bool_decide_eq_true in H
  | H : bool_decide _ = false |- _ => apply bool_decide_eq_false in H
  end.
