(* ===== verification/GoStrings.v ===== *)
(** * Strings and numbers as Go's [strings], [strconv] and [net/url] have them

    The library functions the review engine and its gate call on texts:
    searching, splitting, trimming, decimal integers and their round trip,
    path escaping. Strings are byte sequences; the bytes of a rune outside
    ASCII are spelled out where a function looks at runes. *)

From S2P Require Import Prelude.

(** ** Searching and splitting *)

(** [strings.Contains]. *)
Fixpoint str_contains (s sub : string) : bool :=
  has_prefix s sub || match s with String _ s' => str_contains s' sub | "" => false end.

(** [strings.Split] at a one-byte separator. *)
Fixpoint split_byte (c : ascii) (s : string) : list string :=
  match s with
  | "" => [""]
  | String b s' =>
      if decide (b = c) then "" :: split_byte c s'
      else match split_byte c s' with
           | p :: ps => String b p :: ps
           | [] => [String b ""]
           end
  end.

(** The text before and after the last byte [c] ([strings.LastIndex]). *)
Fixpoint cut_last (c : ascii) (s : string) : option (string * string) :=
  match s with
  | "" => None
  | String b s' =>
      match cut_last c s' with
      | Some (x, y) => Some (String b x, y)
      | None => if decide (b = c) then Some ("", s') else None
      end
  end.

(** The text before and after the first byte [c] ([strings.Index]). *)
Fixpoint cut_first (c : ascii) (s : string) : option (string * string) :=
  match s with
  | "" => None
  | String b s' =>
      if decide (b = c) then Some ("", s')
      else match cut_first c s' with Some (x, y) => Some (String b x, y) | None => None end
  end.

(** The longest run of bytes in a class, and what follows it. *)
Fixpoint span (p : ascii → bool) (s : string) : string * string :=
  match s with
  | String c s' => if p c then let '(a, b) := span p s' in (String c a, b) else ("", s)
  | "" => ("", "")
  end.

(** ** Trimming ([strings.TrimSpace]) *)

Definition bytes_of (l : list Z) : string := bytes_str ((λ z, ascii_of_N (Z.to_N z)) <$> l).

(** The UTF-8 encodings of [unicode.IsSpace]. *)
Definition space_runes : list string :=
  bytes_of <$> [[9]; [10]; [11]; [12]; [13]; [32]; [194; 133]; [194; 160]; [225; 154; 128];
    [226; 128; 128]; [226; 128; 129]; [226; 128; 130]; [226; 128; 131]; [226; 128; 132];
    [226; 128; 133]; [226; 128; 134]; [226; 128; 135]; [226; 128; 136]; [226; 128; 137];
    [226; 128; 138]; [226; 128; 168]; [226; 128; 169]; [226; 128; 175]; [226; 129; 159];
    [227; 128; 128]].

Fixpoint strip_one (l : list string) (s : string) : option string :=
  match l with
  | [] => None
  | p :: l => match strip_prefix p s with Some r => Some r | None => strip_one l s end
  end.

Fixpoint strip_run (fuel : nat) (l : list string) (s : string) : string :=
  match fuel with
  | O => s
  | S fuel => match strip_one l s with Some r => strip_run fuel l r | None => s end
  end.

Definition TrimSpace (s : string) : string :=
  let s := strip_run (String.length s) space_runes s in
  String.rev (strip_run (String.length s) (String.rev <$> space_runes) (String.rev s)).

(** ** Lower case ([strings.ToLower]), as far as ASCII can tell: the two runes
    outside ASCII whose lower case is an ASCII letter (U+0130, U+212A) become
    it, and every other rune outside ASCII stays outside. *)
Fixpoint ToLower (s : string) : string :=
  match s with
  | "" => ""
  | String c r =>
      if decide (c = "196"%char) then
        match r with
        | String d r2 => if decide (d = "176"%char) then String "i" (ToLower r2)
                         else String c (ToLower r)
        | "" => String c ""
        end
      else if decide (c = "226"%char) then
        match r with
        | String d (String d2 r3) =>
            if decide (d = "132"%char ∧ d2 = "170"%char) then String "k" (ToLower r3)
            else String c (ToLower r)
        | _ => String c (ToLower r)
        end
      else String (lower_byte c) (ToLower r)
  end.

(** ** Decimal integers *)

Fixpoint digits_val (acc : Z) (s : string) : option Z :=
  match s with
  | "" => Some acc
  | String c s => if is_digit c then digits_val (acc * 10 + (byte_val c - 48)) s else None
  end.

(** [strconv.Atoi]: an optional sign, digits, within int64. *)
Definition Atoi (s : string) : option Z :=
  let '(neg, ds) :=
    match s with
    | String "-" r => (true, r)
    | String "+" r => (false, r)
    | _ => (false, s)
    end in
  match ds with
  | "" => None
  | _ => match digits_val 0 ds with
         | Some n => let n := if (neg : bool) then - n else n in
                     if (min_int64 <=? n) && (n <=? max_int64) then Some n else None
         | None => None
         end
  end.

(** ** Escaping a path segment ([url.PathEscape]) *)

Definition path_safe (c : ascii) : bool :=
  is_digit c || is_upper c || is_lower c
  || bool_decide (byte_val c ∈ [45; 95; 46; 126; 36; 38; 43; 61; 58; 64]).

Definition upper_hex (v : Z) : ascii :=
  default "0"%char (str_bytes "0123456789ABCDEF" !! Z.to_nat v).

Fixpoint PathEscape (s : string) : string :=
  match s with
  | "" => ""
  | String c r =>
      if path_safe c then String c (PathEscape r)
      else String "%" (String (upper_hex (Z.shiftr (byte_val c) 4))
                         (String (upper_hex (Z.land (byte_val c) 15)) (PathEscape r)))
  end.

(** ** Facts *)

Lemma has_prefix_nil s : has_prefix s "" = true.
Proof. apply has_prefix_spec. by exists s. Qed.

Lemma has_prefix_refl s r : has_prefix (s +:+ r) s = true.
Proof. apply has_prefix_spec. by exists r. Qed.

Lemma str_contains_spec s sub : str_contains s sub = true ↔ ∃ a b, s = a +:+ sub +:+ b.
Proof.
  split.
  - induction s as [|c s IH]; simpl; intros [H|H]%orb_true_iff; try done.
    + apply has_prefix_spec in H as [r ->]. by exists "", r.
    + apply has_prefix_spec in H as [r ->]. by exists "", r.
    + destruct (IH H) as (a&b&->). by exists (String c a), b.
  - intros (a&b&->). induction a as [|c a IH].
    + rewrite app_str_nil_l. destruct (sub +:+ b) eqn:E; simpl; rewrite <- E, has_prefix_refl; done.
    + rewrite app_str_cons. simpl. rewrite IH. apply orb_true_r.
Qed.

Lemma str_contains_app_l a s sub : str_contains s sub = true → str_contains (a +:+ s) sub = true.
Proof.
  rewrite !str_contains_spec. intros (x&y&->). exists (a +:+ x), y. by rewrite app_str_assoc.
Qed.

Lemma str_contains_app_r a s sub : str_contains s sub = true → str_contains (s +:+ a) sub = true.
Proof.
  rewrite !str_contains_spec. intros (x&y&->). exists x, (y +:+ a). by rewrite !app_str_assoc.
Qed.

Lemma contains_byte_app s t c : contains_byte (s +:+ t) c = contains_byte s c || contains_byte t c.
Proof.
  unfold contains_byte. induction s as [|b s IH]; [done|]. rewrite app_str_cons. simpl.
  destruct (decide (b = c)); [by rewrite bool_decide_eq_true_2 by (by eexists)|].
  rewrite !(bool_decide_ext (is_Some (S <$> _)) _ (fmap_is_Some _ _)). exact IH.
Qed.

Lemma contains_byte_cons b s c : contains_byte (String b s) c = bool_decide (b = c) || contains_byte s c.
Proof.
  unfold contains_byte. simpl. destruct (decide (b = c)).
  - rewrite (bool_decide_eq_true_2 (b = c)) by done. apply bool_decide_eq_true_2. by eexists.
  - rewrite (bool_decide_eq_false_2 (b = c)) by done. simpl.
    apply bool_decide_ext, fmap_is_Some.
Qed.

Lemma cut_last_spec c s a b :
  cut_last c s = Some (a, b) ↔ s = a +:+ String c b ∧ contains_byte b c = false.
Proof.
  split.
  - revert a b. induction s as [|d s IH]; intros a b; simpl; [done|].
    destruct (cut_last c s) as [[x y]|] eqn:Hc.
    + intros [= <- <-]. destruct (IH _ _ eq_refl) as [-> ?]. by rewrite app_str_cons.
    + destruct (decide (d = c)) as [->|]; [|done]. intros [= <- <-]. split; [done|].
      clear IH. induction s as [|e s IHs]; [done|]. simpl in Hc. rewrite contains_byte_cons.
      destruct (cut_last c s) as [[??]|] eqn:?; [done|]. destruct (decide (e = c)); [done|].
      rewrite bool_decide_eq_false_2 by done. by rewrite IHs.
  - intros [-> Hb]. induction a as [|d a IH].
    + rewrite app_str_nil_l. simpl. destruct (cut_last c b) as [[x y]|] eqn:Hc.
      * exfalso. clear -Hb Hc. revert x y Hc. induction b as [|e b IHb]; intros x y; simpl; [done|].
        rewrite contains_byte_cons in Hb. apply orb_false_iff in Hb as [He Hb].
        apply bool_decide_eq_false in He.
        destruct (cut_last c b) as [[??]|] eqn:?; [intros _; by eapply IHb|]. by rewrite decide_False.
      * by rewrite decide_True.
    + rewrite app_str_cons. simpl. by rewrite IH.
Qed.

Lemma span_app p s a b : span p s = (a, b) → s = a +:+ b ∧ all_bytes p a = true.
Proof.
  revert a b. induction s as [|c s IH]; intros a b; simpl; [by intros [= <- <-]|].
  destruct (p c) eqn:Hp; [|by intros [= <- <-]].
  destruct (span p s) as [a' b'] eqn:Hs. intros [= <- <-].
  destruct (IH _ _ eq_refl) as [-> Ha]. rewrite app_str_cons. simpl. by rewrite Hp.
Qed.

Lemma span_stop p a c b : all_bytes p a = true → p c = false →
  span p (a +:+ String c b) = (a, String c b).
Proof.
  intros Ha Hc. induction a as [|x a IH].
  - rewrite app_str_nil_l. simpl. by rewrite Hc.
  - simpl in Ha. apply andb_true_iff in Ha as [Hx Ha]. rewrite app_str_cons. simpl.
    by rewrite Hx, IH.
Qed.

(** *** [fmt]'s [%d] and [strconv.Atoi] *)

Lemma digits_val_app acc s t :
  digits_val acc (s +:+ t) = match digits_val acc s with Some n => digits_val n t | None => None end.
Proof.
  revert acc. induction s as [|c s IH]; intros acc; [done|]. rewrite app_str_cons. simpl.
  by destruct (is_digit c).
Qed.

Lemma pretty_N_char_val (x : N) : (x < 10)%N →
  is_digit (pretty_N_char x) = true ∧ byte_val (pretty_N_char x) = 48 + Z.of_N x.
Proof.
  intros Hx. assert (x ∈ [0; 1; 2; 3; 4; 5; 6; 7; 8; 9]%N) as Hin.
  { rewrite !elem_of_cons. lia. }
  repeat (apply elem_of_cons in Hin as [->|Hin]; [by vm_compute|]). by apply elem_of_nil in Hin.
Qed.

Lemma digits_val_pretty_go x s : digits_val 0 (pretty_N_go x s) = digits_val (Z.of_N x) s.
Proof.
  revert s. induction (N.lt_wf_0 x) as [x _ IH]; intros s.
  destruct (decide (0 < x)%N) as [Hx|Hx].
  - rewrite pretty_N_go_step by done. rewrite IH by (apply N.div_lt; lia). simpl.
    destruct (pretty_N_char_val (x `mod` 10)) as [-> Hv]; [by apply N.mod_lt|]. rewrite Hv.
    f_equal. pose proof (N.div_mod x 10). lia.
  - assert (x = 0%N) as -> by lia. by rewrite pretty_N_go_0.
Qed.

Lemma digits_val_pretty_N (x : N) : digits_val 0 (pretty x) = Some (Z.of_N x).
Proof.
  unfold pretty, pretty_N. destruct (decide (x = 0%N)) as [->|]; [done|].
  by rewrite digits_val_pretty_go.
Qed.

Lemma digits_val_digits acc s n : digits_val acc s = Some n → all_bytes is_digit s = true.
Proof.
  revert acc. induction s as [|c s IH]; intros acc; simpl; [done|].
  destruct (is_digit c); [|done]. apply IH.
Qed.

Lemma pretty_Z_nonneg n : 0 ≤ n → pretty n = pretty (Z.to_N n).
Proof. by destruct n. Qed.

Lemma pretty_digits n : 0 ≤ n → all_bytes is_digit (pretty n) = true ∧ pretty n ≠ "".
Proof.
  intros Hn. rewrite pretty_Z_nonneg by done. split.
  - eapply digits_val_digits, digits_val_pretty_N.
  - intros He. pose proof (digits_val_pretty_N (Z.to_N n)) as H. rewrite He in H. simpl in H.
    injection H as H. assert (n = 0) as -> by lia. done.
Qed.

Lemma Atoi_digits s n : all_bytes is_digit s = true → s ≠ "" → digits_val 0 s = Some n →
  0 ≤ n ≤ max_int64 → Atoi s = Some n.
Proof.
  intros Hd Hs Hv Hn. unfold Atoi. destruct s as [|c s]; [done|]. simpl in Hd.
  apply andb_true_iff in Hd as [Hc _].
  assert ((match c with
    | "-"%char => (true, s) | "+"%char => (false, s) | _ => (false, String c s) end)
    = (false, String c s)) as E.
  { destruct (decide (c = "-"%char)) as [->|?]; [done|].
    destruct (decide (c = "+"%char)) as [->|?]; [done|].
    destruct c as [[] [] [] [] [] [] [] []]; done. }
  cbv beta iota. rewrite E, Hv. unfold min_int64, max_int64 in *.
  rewrite (proj2 (Z.leb_le _ _)), (proj2 (Z.leb_le _ _)) by lia. done.
Qed.

Lemma Atoi_pretty n : 0 ≤ n ≤ max_int64 → Atoi (pretty n) = Some n.
Proof.
  intros Hn. destruct (pretty_digits n) as [Hd Hs]; [lia|]. apply Atoi_digits; [done..| |done].
  rewrite pretty_Z_nonneg, digits_val_pretty_N by lia. f_equal. lia.
Qed.

Lemma Atoi_range s n : Atoi s = Some n → min_int64 ≤ n ≤ max_int64.
Proof.
  unfold Atoi. intros H. repeat split_match H; simplify_eq; to_prop; lia.
Qed.

Lemma pretty_no_byte n c : 0 ≤ n → is_digit c = false → contains_byte (pretty n) c = false.
Proof.
  intros Hn Hc. destruct (pretty_digits n Hn) as [Hd _]. induction (pretty n) as [|b s IH]; [done|].
  simpl in Hd. apply andb_true_iff in Hd as [Hb Hd]. rewrite contains_byte_cons, (IH Hd).
  rewrite bool_decide_eq_false_2; [done|]. by intros ->; rewrite Hb in Hc.
Qed.

Example trim_both_ends : TrimSpace (" a/b" +:+ bytes_of [194; 160; 10]) = "a/b".
Proof. reflexivity. Qed.
Example split_three : split_byte "/" "h/o/n" = ["h"; "o"; "n"].
Proof. reflexivity. Qed.
Example atoi_signed : (Atoi "+7", Atoi "-0", Atoi "", Atoi "9223372036854775808")
  = (Some 7, Some 0, None, None).
Proof. reflexivity. Qed.
Example escape_space : PathEscape "needs review/2" = "needs%20review%2F2".
Proof. reflexivity. Qed.

Lemma cut_last_none c s : cut_last c s = None → contains_byte s c = false.
Proof.
  induction s as [|b s IH]; [done|]. cbn. destruct (cut_last c s) as [[x y]|]; [done|].
  destruct (decide (b = c)); [done|]. intros _. rewrite contains_byte_cons.
  rewrite bool_decide_eq_false_2 by done. by apply IH.
Qed.

Lemma cut_last_app c a b :
  contains_byte b c = false → cut_last c (a +:+ String c b) = Some (a, b).
Proof.
  intros Hb. induction a as [|x a IH].
  - rewrite app_str_nil_l. cbn. destruct (cut_last c b) as [[u v]|] eqn:E; [|by rewrite decide_True].
    apply cut_last_spec in E as [-> _]. rewrite contains_byte_app, contains_byte_cons in Hb.
    rewrite bool_decide_eq_true_2, orb_true_r in Hb by done. done.
  - rewrite app_str_cons. cbn [cut_last]. by rewrite IH.
Qed.

Lemma all_bytes_free p c s : all_bytes p s = true → p c = false → contains_byte s c = false.
Proof.
  intros Hs Hc. induction s as [|b s IH]; [done|]. cbn [all_bytes] in Hs.
  apply andb_true_iff in Hs as [Hb Hs]. rewrite contains_byte_cons, IH by done.
  rewrite bool_decide_eq_false_2; [done|]. congruence.
Qed.

(** Text that trims to nothing is white space. *)
Lemma strip_one_all (P : ascii → bool) l s r :
  Forall (λ p, all_bytes P p = true) l → strip_one l s = Some r → all_bytes P r = true → all_bytes P s = true.
Proof.
  induction 1 as [|p l Hp _ IH]; [done|]. cbn. destruct (strip_prefix p s) as [t|] eqn:E; [|by apply IH].
  intros [= <-] Ht. apply strip_prefix_Some in E as ->. by rewrite all_bytes_app, Hp, Ht.
Qed.

Lemma strip_run_all (P : ascii → bool) l :
  Forall (λ p, all_bytes P p = true) l →
  ∀ n s, all_bytes P (strip_run n l s) = true → all_bytes P s = true.
Proof.
  intros Hl. induction n as [|n IH]; intros s; [done|]. cbn [strip_run].
  destruct (strip_one l s) as [r|] eqn:E; [|done]. intros H. by eapply strip_one_all; [..|apply IH].
Qed.

Lemma all_bytes_rev_app P s t : all_bytes P (String.rev_app s t) = all_bytes P s && all_bytes P t.
Proof.
  revert t. induction s as [|c s IH]; intros t; [done|]. cbn. rewrite IH. cbn.
  by destruct (P c), (all_bytes P s).
Qed.

Lemma all_bytes_rev P s : all_bytes P (String.rev s) = all_bytes P s.
Proof. unfold String.rev. by rewrite all_bytes_rev_app, andb_true_r. Qed.

Definition space_byte (c : ascii) : bool := existsb (λ p, contains_byte p c) space_runes.

Lemma TrimSpace_empty s : TrimSpace s = "" → all_bytes space_byte s = true.
Proof.
  unfold TrimSpace. intros H. apply (f_equal (all_bytes space_byte)) in H. rewrite all_bytes_rev in H.
  apply strip_run_all in H; [|apply (bool_decide_unpack _); vm_compute; exact I].
  rewrite all_bytes_rev in H. by apply strip_run_all in H; [|apply (bool_decide_unpack _); vm_compute; exact I].
Qed.

(** ** [cut_first] *)

Lemma cut_first_free c s : contains_byte s c = false → cut_first c s = None.
Proof.
  induction s as [|b s IH]; [done|]. rewrite contains_byte_cons. intros [Hb Hs]%orb_false_iff.
  rewrite bool_decide_eq_false in Hb. cbn. by rewrite decide_False, IH.
Qed.
Lemma cut_first_app c s t : contains_byte s c = false → cut_first c (s +:+ String c t) = Some (s, t).
Proof.
  induction s as [|b s IH].
  - intros _. rewrite app_str_nil_l. cbn [cut_first]. by rewrite decide_True.
  - rewrite contains_byte_cons. intros [Hb Hs]%orb_false_iff. rewrite bool_decide_eq_false in Hb.
    rewrite app_str_cons. cbn [cut_first]. by rewrite decide_False, IH.
Qed.

Lemma cut_first_spec c s a b : cut_first c s = Some (a, b) ↔ s = a +:+ String c b ∧ contains_byte a c = false.
Proof.
  split.
  - revert a. induction s as [|x s IH]; [done|]. intros a. cbn [cut_first].
    destruct (decide (x = c)) as [->|Hx]; [by intros [= <- <-]|].
    destruct (cut_first c s) as [[u v]|]; [|done]. intros [= <- <-].
    destruct (IH u eq_refl) as [-> Hu]. split; [done|]. rewrite contains_byte_cons, Hu.
    by rewrite bool_decide_eq_false_2.
  - intros [-> Ha]. induction a as [|x a IH]; [rewrite app_str_nil_l; cbn [cut_first]; by rewrite decide_True|].
    rewrite contains_byte_cons in Ha. apply orb_false_iff in Ha as [Hx Ha]. rewrite bool_decide_eq_false in Hx.
    rewrite app_str_cons. cbn [cut_first]. by rewrite decide_False, IH.
Qed.
