(* ===== verification/GoPath.v ===== *)
(** * Paths, runes and SHA-256 as Go's [path/filepath], [unicode/utf8] and
      [crypto/sha256] have them

    The library functions the session store, the Job builder and the
    dispatcher call on paths and identities. Paths are those of Unix. *)

From S2P Require Import Prelude GoStrings.

(** ** Runes *)

Definition in_range (lo hi : Z) (c : ascii) : bool := (lo <=? byte_val c) && (byte_val c <=? hi).
Definition continuation : ascii → bool := in_range 128 191.

(** The number of bytes [utf8.DecodeRuneInString] consumes at [c], followed by
    [r]; [None] is an invalid encoding, of which it consumes one byte. *)
Definition rune_width (c : ascii) (r : string) : option nat :=
  let b := byte_val c in
  if b <? 128 then Some 1%nat
  else
    let second lo hi n :=
      match r with
      | String c1 r1 =>
          if in_range lo hi c1
             && (match n, r1 with
                 | 2%nat, _ => true
                 | 3%nat, String c2 _ => continuation c2
                 | 4%nat, String c2 (String c3 _) => continuation c2 && continuation c3
                 | _, _ => false
                 end)
          then Some n else None
      | "" => None
      end in
    if (194 <=? b) && (b <=? 223) then second 128 191 2%nat
    else if b =? 224 then second 160 191 3%nat
    else if b =? 237 then second 128 159 3%nat
    else if (225 <=? b) && (b <=? 239) then second 128 191 3%nat
    else if b =? 240 then second 144 191 4%nat
    else if (241 <=? b) && (b <=? 243) then second 128 191 4%nat
    else if b =? 244 then second 128 143 4%nat
    else None.

(** [strings.Map] with a mapping that sends every rune outside ASCII to
    [other]; [skip] counts the bytes of the current rune still to pass. *)
Fixpoint map_runes (f : ascii → ascii) (other : ascii) (skip : nat) (s : string) : string :=
  match s with
  | "" => ""
  | String c r =>
      match skip with
      | S k => map_runes f other k r
      | O => String (if byte_val c <? 128 then f c else other)
               (map_runes f other (pred (default 1%nat (rune_width c r))) r)
      end
  end.

(** [utf8.ValidString]. *)
Fixpoint valid_utf8_from (skip : nat) (s : string) : bool :=
  match s with
  | "" => true
  | String c r =>
      match skip with
      | S k => valid_utf8_from k r
      | O => match rune_width c r with Some n => valid_utf8_from (pred n) r | None => false end
      end
  end.
Definition valid_utf8 : string → bool := valid_utf8_from 0.

Lemma map_runes_all (p : ascii → bool) f other s :
  (∀ c, p (f c) = true) → p other = true → ∀ skip, all_bytes p (map_runes f other skip s) = true.
Proof.
  intros Hf Ho. induction s as [|c r IH]; intros [|k]; try done; [|apply IH].
  cbn [map_runes all_bytes]. rewrite IH, andb_true_r. by case_match.
Qed.

Lemma map_runes_empty f other s : map_runes f other 0 s = "" ↔ s = "".
Proof. by destruct s. Qed.

Lemma map_runes_ascii f other s :
  all_bytes (λ c, byte_val c <? 128) s = true →
  map_runes f other 0 s = bytes_str (f <$> str_bytes s).
Proof.
  induction s as [|c r IH]; [done|]. cbn [all_bytes]. intros [Hc Hr]%andb_true_iff.
  cbn [map_runes str_bytes]. unfold rune_width. rewrite Hc. cbn -[map_runes].
  by rewrite IH.
Qed.

(** ** Paths *)

Definition path_sep : ascii := "/"%char.

(** [filepath.IsAbs]. *)
Definition IsAbs (p : string) : bool := has_prefix p "/".

(** One component of [filepath.Clean], over the reversed list of those kept. *)
Definition clean_step (rooted : bool) (st : list string) (c : string) : list string :=
  if decide (c = "" ∨ c = ".") then st
  else if decide (c = "..") then
    match st with
    | [] => if rooted then [] else [".."]
    | t :: st' => if decide (t = "..") then ".." :: st else st'
    end
  else c :: st.

Definition clean_components (rooted : bool) (l : list string) : list string :=
  reverse (foldl (clean_step rooted) [] l).

Definition path_of (rooted : bool) (l : list string) : string :=
  if rooted then String path_sep (join "/" l)
  else match l with [] => "." | _ => join "/" l end.

(** [filepath.Clean]. *)
Definition Clean (p : string) : string :=
  path_of (IsAbs p) (clean_components (IsAbs p) (split_byte path_sep p)).

(** [filepath.Join] of two elements. *)
Definition Join (a b : string) : string :=
  if decide (a = "") then (if decide (b = "") then "" else Clean b)
  else if decide (b = "") then Clean a
  else Clean (a +:+ "/" +:+ b).

(** *** Components *)

Definition plain (c : string) : Prop := c ≠ "" ∧ c ≠ "." ∧ c ≠ ".." ∧ contains_byte c path_sep = false.

Lemma split_byte_app c s t :
  contains_byte s c = false → split_byte c (s +:+ String c t) = s :: split_byte c t.
Proof.
  induction s as [|b s IH]; [intros _; rewrite app_str_nil_l; cbn [split_byte]; by rewrite decide_True|].
  rewrite contains_byte_cons. intros [Hb Hs]%orb_false_iff. rewrite bool_decide_eq_false in Hb.
  rewrite app_str_cons. cbn [split_byte]. rewrite decide_False by done. by rewrite IH.
Qed.

Lemma split_byte_none c s : contains_byte s c = false → split_byte c s = [s].
Proof.
  induction s as [|b s IH]; [done|].
  rewrite contains_byte_cons. intros [Hb Hs]%orb_false_iff. rewrite bool_decide_eq_false in Hb.
  cbn [split_byte]. rewrite decide_False by done. by rewrite IH.
Qed.

Lemma split_byte_pieces c s : Forall (λ p, contains_byte p c = false) (split_byte c s).
Proof.
  induction s as [|b s IH]; cbn [split_byte]; [by repeat constructor|].
  destruct (decide (b = c)); [by constructor|].
  destruct (split_byte c s) as [|p ps].
  - repeat constructor. rewrite contains_byte_cons, bool_decide_eq_false_2 by done. done.
  - inversion_clear IH as [|?? Hp Hps]. constructor; [|done].
    by rewrite contains_byte_cons, bool_decide_eq_false_2.
Qed.

Lemma split_byte_cons_nonempty c s : split_byte c s ≠ [].
Proof. destruct s as [|b s]; cbn; [done|]. destruct (decide (b = c)); [done|]. by destruct (split_byte c s). Qed.

Lemma split_byte_join c l :
  l ≠ [] → Forall (λ p, contains_byte p c = false) l → split_byte c (join (String c "") l) = l.
Proof.
  intros Hne H. induction H as [|p l Hp Hl IH]; [done|].
  destruct l as [|q l]; [by apply split_byte_none|].
  change (join (String c "") (p :: q :: l)) with (p +:+ String c (join (String c "") (q :: l))).
  rewrite split_byte_app by done. by rewrite IH.
Qed.

(** What is on the reversed list: plain components over the leading [".."]s of
    a relative path. *)
Inductive Stack (rooted : bool) : list string → Prop :=
| stack_up n : (rooted = true → n = 0%nat) → Stack rooted (replicate n "..")
| stack_push c st : plain c → Stack rooted st → Stack rooted (c :: st).

Lemma clean_step_stack rooted st c :
  Stack rooted st → contains_byte c path_sep = false → Stack rooted (clean_step rooted st c).
Proof.
  intros Hst Hc. unfold clean_step.
  destruct (decide (c = "" ∨ c = ".")) as [|H1]; [done|].
  destruct (decide (c = "..")) as [->|H2].
  - inversion Hst as [n Hn Heq|t st' Ht Hst' Heq]; subst.
    + destruct n as [|n]; cbn.
      * destruct rooted; [by apply (stack_up _ 0)|by apply (stack_up false 1)].
      * apply (stack_up rooted (S (S n))). intros Hr. specialize (Hn Hr). lia.
    + rewrite decide_False by apply Ht. done.
  - apply stack_push; [|done]. unfold plain. naive_solver.
Qed.

Lemma clean_fold_stack rooted l st :
  Stack rooted st → Forall (λ p, contains_byte p path_sep = false) l →
  Stack rooted (foldl (clean_step rooted) st l).
Proof.
  intros Hst H. revert st Hst. induction H as [|c l Hc Hl IH]; intros st Hst; [done|].
  cbn [foldl]. by apply IH, clean_step_stack.
Qed.

Lemma clean_fold_up rooted n m :
  (rooted = true → n = 0%nat) → m = 0%nat →
  foldl (clean_step rooted) [] (replicate n "..") = replicate n "..".
Proof.
  intros Hn _. destruct rooted; [by rewrite Hn|].
  assert (∀ k, foldl (clean_step false) (replicate k "..") (replicate n "..") = replicate (n + k) "..") as H.
  { clear Hn. induction n as [|n IH]; intros k; [done|]. cbn [replicate foldl].
    replace (clean_step false (replicate k "..") "..") with (replicate (S k) "..") by by destruct k.
    rewrite IH. f_equal. lia. }
  rewrite <- (Nat.add_0_r n) at 2. apply (H 0%nat).
Qed.

Lemma clean_fold_fixed rooted st :
  Stack rooted st → foldl (clean_step rooted) [] (reverse st) = st.
Proof.
  induction 1 as [n Hn|c st Hc Hst IH].
  - rewrite reverse_replicate. by apply (clean_fold_up _ _ 0).
  - rewrite reverse_cons, foldl_app, IH. cbn. unfold clean_step.
    destruct Hc as (H1 & H2 & H3 & _).
    rewrite decide_False by naive_solver. by rewrite decide_False.
Qed.

Lemma Stack_no_slash rooted st : Stack rooted st → Forall (λ p, contains_byte p path_sep = false) st.
Proof.
  induction 1 as [n _|c st Hc _ IH]; [by apply Forall_replicate|].
  constructor; [apply Hc|done].
Qed.

Lemma clean_components_stack p :
  Stack (IsAbs p) (reverse (clean_components (IsAbs p) (split_byte path_sep p))).
Proof.
  unfold clean_components. rewrite reverse_involutive.
  apply clean_fold_stack; [|apply split_byte_pieces]. by apply (stack_up _ 0).
Qed.

Lemma IsAbs_path_of rooted l :
  Stack rooted (reverse l) → IsAbs (path_of rooted l) = rooted.
Proof.
  intros Hs. destruct rooted; [done|]. unfold path_of.
  destruct l as [|c l]; [done|].
  assert (contains_byte c path_sep = false) as Hc.
  { apply Stack_no_slash in Hs. rewrite Forall_reverse in Hs. by inversion Hs. }
  assert (c ≠ "") as Hne.
  { assert (c ∈ reverse (c :: l)) as Hin by (rewrite elem_of_reverse; by left).
    clear Hc. revert Hin. generalize (reverse (c :: l)) Hs. clear.
    induction 1 as [n _|d st Hd _ IH]; [by intros [-> _]%elem_of_replicate|].
    intros [->|?]%elem_of_cons; [apply Hd|auto]. }
  destruct c as [|b c]; [done|]. rewrite contains_byte_cons in Hc.
  apply orb_false_iff in Hc as [Hb _]. rewrite bool_decide_eq_false in Hb.
  unfold IsAbs, has_prefix. rewrite bool_decide_eq_false.
  replace (join "/" (String b c :: l)) with (String b (match l with [] => c | _ => c +:+ "/" +:+ join "/" l end))
    by by destruct l.
  cbn. rewrite decide_False by done. by intros [? ?].
Qed.

Lemma Stack_nonempty rooted st : Stack rooted st → Forall (λ p, p ≠ "") st.
Proof. induction 1 as [n _|d st Hd _ IH]; [by apply Forall_replicate|]. constructor; [apply Hd|done]. Qed.

(** The components of a path, cleaned. *)
Definition components (p : string) : list string := clean_components (IsAbs p) (split_byte path_sep p).

Lemma components_path_of rooted l :
  Stack rooted (reverse l) → components (path_of rooted l) = l.
Proof.
  intros Hs. unfold components. rewrite IsAbs_path_of by done. unfold clean_components.
  assert (Forall (λ p, contains_byte p path_sep = false) l) as Hl
    by (apply Stack_no_slash in Hs; by rewrite Forall_reverse in Hs).
  assert (foldl (clean_step rooted) [] l = reverse l) as Hf.
  { rewrite <- (reverse_involutive l) at 1. by apply clean_fold_fixed. }
  destruct (decide (l = [])) as [->|Hne]; [by destruct rooted|].
  destruct rooted; unfold path_of.
  - cbn [split_byte]. rewrite decide_True by done. rewrite (split_byte_join path_sep) by done.
    cbn [foldl]. unfold clean_step at 2. rewrite decide_True by by left.
    by rewrite Hf, reverse_involutive.
  - destruct l as [|c l]; [done|]. rewrite (split_byte_join path_sep) by done.
    by rewrite Hf, reverse_involutive.
Qed.

Lemma components_stack p : Stack (IsAbs p) (reverse (components p)).
Proof. apply clean_components_stack. Qed.

Lemma components_Clean p : components (Clean p) = components p.
Proof. apply components_path_of, components_stack. Qed.

Lemma IsAbs_Clean p : IsAbs (Clean p) = IsAbs p.
Proof. apply IsAbs_path_of, components_stack. Qed.

Lemma Clean_idem p : Clean (Clean p) = Clean p.
Proof. change (path_of (IsAbs (Clean p)) (components (Clean p)) = Clean p). by rewrite IsAbs_Clean, components_Clean. Qed.

Lemma Clean_inj p q : IsAbs p = IsAbs q → components p = components q → Clean p = Clean q.
Proof. intros Ha Hc. unfold Clean. fold (components p) (components q). by rewrite Ha, Hc. Qed.

Lemma split_byte_mid c s t : split_byte c (s +:+ String c t) = split_byte c s ++ split_byte c t.
Proof.
  induction s as [|b s IH].
  - rewrite app_str_nil_l. cbn [split_byte]. by rewrite decide_True.
  - rewrite app_str_cons. cbn [split_byte]. rewrite IH.
    destruct (decide (b = c)); [done|]. pose proof (split_byte_cons_nonempty c s).
    by destruct (split_byte c s).
Qed.

Lemma IsAbs_app s t : s ≠ "" → IsAbs (s +:+ t) = IsAbs s.
Proof.
  destruct s as [|c s]; [done|]. intros _. rewrite app_str_cons. unfold IsAbs, has_prefix.
  cbn. by destruct (decide _).
Qed.

(** A plain component goes below the directory it is joined to. *)
Lemma Join_child root c :
  root ≠ "" → plain c →
  IsAbs (Join root c) = IsAbs root ∧ components (Join root c) = components root ++ [c].
Proof.
  intros Hr Hc. unfold Join. rewrite decide_False by done. rewrite decide_False by apply Hc.
  assert (IsAbs (root +:+ "/" +:+ c) = IsAbs root) as Ha by by apply IsAbs_app.
  rewrite IsAbs_Clean, components_Clean. split; [done|].
  unfold components. rewrite Ha. change ("/" +:+ c) with (String path_sep c).
  rewrite split_byte_mid, (split_byte_none _ c) by apply Hc.
  unfold clean_components. rewrite foldl_app. cbn [foldl]. unfold clean_step at 1.
  destruct Hc as (H1 & H2 & H3 & _). rewrite decide_False by naive_solver.
  rewrite decide_False by done. by rewrite reverse_cons.
Qed.

(** *** Paths at or under a top-level directory *)

Lemma components_top c : plain c → components (String path_sep c) = [c].
Proof.
  intros Hc. change (String path_sep c) with (path_of true [c]). apply components_path_of.
  apply stack_push; [done|]. by apply (stack_up _ 0).
Qed.

Lemma Clean_abs p : IsAbs p = true → Clean p = String path_sep (join "/" (components p)).
Proof. intros Ha. unfold Clean. rewrite Ha. unfold components. by rewrite Ha. Qed.

Lemma Stack_rooted_plain st : Stack true st → Forall plain st.
Proof.
  remember true as b. induction 1 as [n Hn|c st Hc _ IH]; [rewrite Hn by done; constructor|].
  constructor; auto.
Qed.

Lemma components_plain p : IsAbs p = true → Forall plain (components p).
Proof. intros Ha. rewrite <- Forall_reverse. apply Stack_rooted_plain. rewrite <- Ha at 1. apply components_stack. Qed.

Definition at_or_under (r p : string) : bool := bool_decide (p = r) || has_prefix p (r +:+ "/").

Lemma at_or_under_top c p :
  plain c → IsAbs p = true →
  at_or_under (String path_sep c) (Clean p) = true ↔ ∃ l, components p = c :: l.
Proof.
  intros Hc Ha. unfold at_or_under. rewrite orb_true_iff, bool_decide_eq_true, has_prefix_spec.
  rewrite Clean_abs by done. pose proof (components_plain p Ha) as Hp. revert Hp.
  generalize (components p) as l. intros l Hp.
  assert (Forall (λ p, contains_byte p path_sep = false) l) as Hl
    by (eapply Forall_impl; [exact Hp|]; by intros ? (_ & _ & _ & ?)).
  assert (l ≠ [] → split_byte path_sep (join "/" l) = l) as Hs
    by (intros; by apply (split_byte_join path_sep)).
  assert (c ≠ "") as Hne by apply Hc.
  assert (contains_byte c path_sep = false) as Hns by apply Hc.
  split.
  - intros H. assert (l ≠ []) as Hn.
    { intros ->. destruct c as [|x c]; [done|]. by destruct H as [H|[r H]]. }
    specialize (Hs Hn). destruct H as [H|[r H]].
    + injection H as H. rewrite H, split_byte_none in Hs by done. by exists [].
    + rewrite app_str_cons in H. injection H as H. rewrite H, app_str_assoc in Hs.
      change ("/" +:+ r) with (String path_sep r) in Hs.
      rewrite split_byte_app in Hs by done. by eexists.
  - intros [[|d k] ->]; [by left|right]. exists (join "/" (d :: k)).
    rewrite !app_str_cons. f_equal. by rewrite app_str_assoc.
Qed.

Example Clean_dots : Clean "/workspace/../a//b/./c/" = "/a/b/c". Proof. reflexivity. Qed.
Example Clean_root : Clean "/workspace/../.." = "/". Proof. reflexivity. Qed.
Example Clean_rel : Clean "a/../../b" = "../b". Proof. reflexivity. Qed.
