(* ===== verification/Sha256.v ===== *)
(** * SHA-256 ([crypto/sha256]) and hexadecimal text

    The digest the session store and the Job builder derive identities from,
    computed as FIPS 180-4 specifies it, on 32-bit words. *)

From S2P Require Import Prelude GoStrings GoPath.

Definition w32 (z : Z) : Z := Z.land z 4294967295.
Definition add32 (a b : Z) : Z := w32 (a + b).
Definition rotr (n x : Z) : Z := Z.lor (Z.shiftr x n) (w32 (Z.shiftl x (32 - n))).
Definition xor3 (a b c : Z) : Z := Z.lxor a (Z.lxor b c).

(** The first 32 bits of the fractional parts of the cube roots of the first 64
    primes, and of the square roots of the first 8. *)
Definition sha_k : list Z :=
  [1116352408; 1899447441; 3049323471; 3921009573; 961987163; 1508970993; 2453635748; 2870763221;
   3624381080; 310598401; 607225278; 1426881987; 1925078388; 2162078206; 2614888103; 3248222580;
   3835390401; 4022224774; 264347078; 604807628; 770255983; 1249150122; 1555081692; 1996064986;
   2554220882; 2821834349; 2952996808; 3210313671; 3336571891; 3584528711; 113926993; 338241895;
   666307205; 773529912; 1294757372; 1396182291; 1695183700; 1986661051; 2177026350; 2456956037;
   2730485921; 2820302411; 3259730800; 3345764771; 3516065817; 3600352804; 4094571909; 275423344;
   430227734; 506948616; 659060556; 883997877; 958139571; 1322822218; 1537002063; 1747873779;
   1955562222; 2024104815; 2227730452; 2361852424; 2428436474; 2756734187; 3204031479; 3329325298].
Definition sha_h0 : list Z :=
  [1779033703; 3144134277; 1013904242; 2773480762; 1359893119; 2600822924; 528734635; 1541459225].

(** One of the 48 words that extend a block; the last word is at the head. *)
Definition sha_extend (w : list Z) : list Z :=
  let at_ n := default 0 (w !! n) in
  let s0 := xor3 (rotr 7 (at_ 14%nat)) (rotr 18 (at_ 14%nat)) (Z.shiftr (at_ 14%nat) 3) in
  let s1 := xor3 (rotr 17 (at_ 1%nat)) (rotr 19 (at_ 1%nat)) (Z.shiftr (at_ 1%nat) 10) in
  w32 (at_ 15%nat + s0 + at_ 6%nat + s1) :: w.

Definition sha_schedule (block : list Z) : list Z := reverse (Nat.iter 48 sha_extend (reverse block)).

Definition sha_round (st : list Z) (kw : Z * Z) : list Z :=
  match st with
  | [a; b; c; d; e; f; g; h] =>
      let s1 := xor3 (rotr 6 e) (rotr 11 e) (rotr 25 e) in
      let ch := Z.lxor (Z.land e f) (Z.land (Z.lxor e 4294967295) g) in
      let t1 := w32 (h + s1 + ch + kw.1 + kw.2) in
      let s0 := xor3 (rotr 2 a) (rotr 13 a) (rotr 22 a) in
      let maj := xor3 (Z.land a b) (Z.land a c) (Z.land b c) in
      [add32 t1 (s0 + maj); a; b; c; add32 d t1; e; f; g]
  | _ => st
  end.

Definition sha_block (h : list Z) (block : list Z) : list Z :=
  zip_with add32 h (foldl sha_round h (zip sha_k (sha_schedule block))).

(** *** Padding: a one bit, zeros, the length in bits in eight bytes *)

Definition be_bytes (n : nat) (z : Z) : list Z :=
  (λ k, Z.land (Z.shiftr z (8 * Z.of_nat k)) 255) <$> reverse (seq 0 n).

Definition sha_pad (m : list Z) : list Z :=
  let len := Z.of_nat (length m) in
  m ++ [128] ++ replicate (Z.to_nat ((55 - len) `mod` 64)) 0 ++ be_bytes 8 (8 * len).

Fixpoint words (l : list Z) : list Z :=
  match l with
  | a :: b :: c :: d :: l => Z.shiftl a 24 + Z.shiftl b 16 + Z.shiftl c 8 + d :: words l
  | _ => []
  end.

Fixpoint sha_blocks (fuel : nat) (h : list Z) (ws : list Z) : list Z :=
  match fuel, ws with
  | S fuel, _ :: _ => sha_blocks fuel (sha_block h (take 16 ws)) (drop 16 ws)
  | _, _ => h
  end.

(** [sha256.Sum256]: 32 bytes. Every block consumes 16 words. *)
Definition Sum256 (s : string) : list Z :=
  let ws := words (sha_pad (byte_val <$> str_bytes s)) in
  sha_blocks (length ws) sha_h0 ws ≫= be_bytes 4.

Lemma sha_blocks_length fuel h ws :
  length h = 8%nat → length (sha_blocks fuel h ws) = 8%nat.
Proof.
  assert (∀ l st, length st = 8%nat → length (foldl sha_round st l) = 8%nat) as Hr.
  { induction l as [|kw l IH]; intros st Hs; [done|]. cbn [foldl]. apply IH.
    do 8 (destruct st as [|? st]; [done|]). by destruct st. }
  revert h ws. induction fuel as [|fuel IH]; intros h ws Hh; [done|].
  destruct ws as [|w ws]; [done|]. cbn [sha_blocks]. apply IH.
  unfold sha_block. rewrite length_zip_with, Hr by done. lia.
Qed.

Lemma Sum256_length s : length (Sum256 s) = 32%nat.
Proof.
  unfold Sum256. cbv zeta. set (ws := words _). pose proof (sha_blocks_length (length ws) sha_h0 ws eq_refl) as H.
  destruct (sha_blocks _ _ _) as [|x0 l]; [done|].
  do 7 (destruct l as [|? l]; [done|]). by destruct l.
Qed.

Lemma Sum256_bytes s : Forall (λ z, 0 ≤ z < 256) (Sum256 s).
Proof.
  unfold Sum256. apply Forall_bind, Forall_true. intros z. unfold be_bytes.
  apply Forall_fmap, Forall_true. intros k. cbn. change 255 with (Z.ones 8).
  rewrite Z.land_ones by lia. by apply Z.mod_pos_bound.
Qed.

(** ** [hex.EncodeToString] *)

Definition hex_text : string := "0123456789abcdef".
Definition hex_char (v : Z) : ascii := default "0"%char (str_bytes hex_text !! Z.to_nat v).
Definition EncodeToString (b : list Z) : string :=
  bytes_str (b ≫= λ v, [hex_char (Z.shiftr v 4); hex_char (Z.land v 15)]).

Definition is_hex (c : ascii) : bool := is_digit c || ((97 <=? byte_val c) && (byte_val c <=? 102)).

Lemma hex_char_hex v : is_hex (hex_char v) = true.
Proof.
  unfold hex_char. destruct (str_bytes hex_text !! Z.to_nat v) as [c|] eqn:H; [|done].
  revert H. apply (Forall_lookup_1 (λ c, is_hex c = true)). vm_compute. by repeat constructor.
Qed.

Lemma EncodeToString_hex b : all_bytes is_hex (EncodeToString b) = true.
Proof.
  unfold EncodeToString. induction b as [|v b IH]; [done|]. cbn. by rewrite !hex_char_hex.
Qed.

Lemma EncodeToString_length b : String.length (EncodeToString b) = (2 * length b)%nat.
Proof. unfold EncodeToString. induction b as [|v b IH]; [done|]. cbn in *. rewrite IH. lia. Qed.

Example sha_empty :
  EncodeToString (Sum256 "") = "e3b0c44298fc1c149afbf4c8996fb92427ae41e4649b934ca495991b7852b855".
Proof. vm_compute. reflexivity. Qed.
Example sha_abc :
  EncodeToString (Sum256 "abc") = "ba7816bf8f01cfea414140de5dae2223b00361a396177a9cb410ff61f20015ad".
Proof. vm_compute. reflexivity. Qed.
Example sha_two_blocks :
  EncodeToString (Sum256 "abcdbcdecdefdefgefghfghighijhijkijkljklmklmnlmnomnopnopq")
  = "248d6a61d20638b8e5c026930c3e6039a33ce45964ff2167f6ecedd419db06c1".
Proof. vm_compute. reflexivity. Qed.

(** ** A text codec with a proof

    Lists of strings as comma-separated hexadecimal fields: the concrete codec
    on which theorems about encoded texts are run. It stands for no code. *)

Definition unhex_digit (c : ascii) : option Z :=
  if is_digit c then Some (byte_val c - 48)
  else if (97 <=? byte_val c) && (byte_val c <=? 102) then Some (byte_val c - 87) else None.

Fixpoint unhex (s : string) : option string :=
  match s with
  | "" => Some ""
  | String a (String b r) =>
      match unhex_digit a, unhex_digit b, unhex r with
      | Some x, Some y, Some t => Some (String (ascii_of_N (Z.to_N (x * 16 + y))) t)
      | _, _, _ => None
      end
  | _ => None
  end.

Definition hex (s : string) : string := EncodeToString (byte_val <$> str_bytes s).

Lemma unhex_hex s : unhex (hex s) = Some s.
Proof.
  induction s as [|c s IH]; [done|].
  change (hex (String c s)) with
    (String (hex_char (Z.shiftr (byte_val c) 4)) (String (hex_char (Z.land (byte_val c) 15)) (hex s))).
  cbn [unhex]. rewrite IH. destruct c as [[] [] [] [] [] [] [] []]; reflexivity.
Qed.

Lemma hex_byte_free c s : is_hex c = false → contains_byte (hex s) c = false.
Proof.
  intros Hc. pose proof (EncodeToString_hex (byte_val <$> str_bytes s)) as H. fold (hex s) in H.
  revert H. generalize (hex s). intros t. induction t as [|b t IH]; [done|]. cbn [all_bytes].
  intros [Hb Ht]%andb_true_iff. rewrite contains_byte_cons, IH by done.
  rewrite bool_decide_eq_false_2; [done|]. congruence.
Qed.

Definition comma : ascii := ",".

Definition enc_fields (l : list string) : string := join "," (hex <$> l).
Definition dec_fields (s : string) : option (list string) := mapM unhex (split_byte comma s).

Lemma dec_enc_fields l : l ≠ [] → dec_fields (enc_fields l) = Some l.
Proof.
  intros Hl. unfold dec_fields, enc_fields. rewrite (split_byte_join comma).
  - apply mapM_Some, Forall2_fmap_l, Forall_Forall2_diag, Forall_true, unhex_hex.
  - by destruct l.
  - apply Forall_fmap, Forall_true. intros s. by apply hex_byte_free.
Qed.

Lemma enc_fields_free c l : c ≠ comma → is_hex c = false → contains_byte (enc_fields l) c = false.
Proof.
  intros Hne Hc. unfold enc_fields. induction l as [|s l IH]; [done|].
  destruct l as [|t l]; [by apply hex_byte_free|].
  change (join "," (hex <$> s :: t :: l)) with (hex s +:+ String comma (join "," (hex <$> t :: l))).
  rewrite contains_byte_app, contains_byte_cons, IH, hex_byte_free by done.
  by rewrite bool_decide_eq_false_2.
Qed.
