(* ===== verification/GoTime.v ===== *)
(** * Time and durations as Go's [time] package has them

    A [time.Duration] is an int64 count of nanoseconds (a [Z] kept in range by
    its producers). A [metav1.Time] or [time.Time] is a [Z] count of
    nanoseconds since Go's zero time (1 January of year 1), so [IsZero] is
    [= 0] and [After]/[Before] are the order on [Z]. [ParseDuration] is the
    standard library's parser, its uint64 overflow checks and its float64
    fraction included. *)

From Stdlib Require Import Floats.SpecFloat.
From S2P Require Import Prelude.

(** ** Units *)

Definition Nanosecond : Z := 1.
Definition Microsecond : Z := 1000.
Definition Millisecond : Z := 1000000.
Definition Second : Z := 1000000000.
Definition Minute : Z := 60000000000.
Definition Hour : Z := 3600000000000.

(** ** Instants *)

Definition time_IsZero (t : Z) : bool := t =? 0.
Definition time_After (t u : Z) : bool := u <? t.

(** [t.Sub(u)]: a Duration, saturated at the int64 bounds. *)
Definition time_Sub (t u : Z) : Z := Z.max min_int64 (Z.min max_int64 (t - u)).

(** [d.Round(m)] for a positive [m]: to the nearest multiple, halves away from
    zero, saturated. *)
Definition duration_Round (d m : Z) : Z :=
  if m <=? 0 then d
  else
    let r := Z.rem d m in
    if d <? 0 then
      let r := - r in
      if r + r <? m then d + r else if i64 (d - m + r) <? d then i64 (d - m + r) else min_int64
    else if r + r <? m then d - r
    else if d <? i64 (d + m - r) then i64 (d + m - r) else max_int64.

(** [t.UTC().Format(time.RFC3339)] for a whole second of a year of four digits. *)
Definition two_digits (n : Z) : string :=
  (if n <? 10 then "0" else "") +:+ pretty n.

Definition four_digits (n : Z) : string :=
  (if n <? 1000 then "0" else "") +:+ (if n <? 100 then "0" else "")
  +:+ (if n <? 10 then "0" else "") +:+ pretty n.

(** The civil date of a day counted from 1 January of year 1. *)
Definition civil_date (days : Z) : Z * Z * Z :=
  let z := days + 306 in
  let era := z / 146097 in
  let doe := z mod 146097 in
  let yoe := (doe - doe / 1460 + doe / 36524 - doe / 146096) / 365 in
  let doy := doe - (365 * yoe + yoe / 4 - yoe / 100) in
  let mp := (5 * doy + 2) / 153 in
  let day := doy - (153 * mp + 2) / 5 + 1 in
  let month := if mp <? 10 then mp + 3 else mp - 9 in
  let year := yoe + era * 400 + (if month <=? 2 then 1 else 0) in
  (year, month, day).

Definition format_RFC3339 (t : Z) : string :=
  let secs := t / Second in
  let '(year, month, day) := civil_date (secs / 86400) in
  let s := secs mod 86400 in
  four_digits year +:+ "-" +:+ two_digits month +:+ "-" +:+ two_digits day +:+ "T"
  +:+ two_digits (s / 3600) +:+ ":" +:+ two_digits (s / 60 mod 60) +:+ ":" +:+ two_digits (s mod 60)
  +:+ "Z".

(** [time.Duration.String]: fractions without trailing zeros, hours, minutes and
    seconds from one second up. *)
Fixpoint fmtFrac (prec : nat) (v : Z) (print : bool) (acc : string) : string * Z :=
  match prec with
  | O => (if print then String "." acc else acc, v)
  | S prec =>
      let d := v mod 10 in
      let print := print || negb (d =? 0) in
      fmtFrac prec (v / 10) print
        (if print then String (Ascii.ascii_of_N (Z.to_N (48 + d))) acc else acc)
  end.

Definition duration_String (d : Z) : string :=
  let u := Z.abs d in
  let body :=
    if u =? 0 then "0s"
    else if u <? Second then
      let '(prec, unit) := if u <? Microsecond then (0%nat, "ns")
                           else if u <? Millisecond then (3%nat, "µs") else (6%nat, "ms") in
      let '(frac, v) := fmtFrac prec u false "" in
      pretty v +:+ frac +:+ unit
    else
      let '(frac, v) := fmtFrac 9 u false "" in
      let s := pretty (v mod 60) +:+ frac +:+ "s" in
      let m := v / 60 in
      if 0 <? m then
        let s := pretty (m mod 60) +:+ "m" +:+ s in
        if 0 <? m / 60 then pretty (m / 60) +:+ "h" +:+ s else s
      else s in
  if d <? 0 then "-" +:+ body else body.

Example duration_strings :
  (duration_String (6 * Hour), duration_String (90 * Second), duration_String 1500000000,
   duration_String (-1500), duration_String 0) = ("6h0m0s", "1m30s", "1.5s", "-1.5µs", "0s").
Proof. reflexivity. Qed.

(** ** [time.ParseDuration] *)

Definition two63_div_10 : Z := 922337203685477580.

(** [leadingInt]: the leading digits as a uint64; [None] on overflow. *)
Fixpoint leadingInt (x : Z) (s : string) : option (Z * string) :=
  match s with
  | String c s' =>
      if is_digit c then
        if two63_div_10 <? x then None
        else
          let x' := x * 10 + (byte_val c - 48) in
          if two63 <? x' then None else leadingInt x' s'
      else Some (x, s)
  | "" => Some (x, "")
  end.

(** [leadingFraction]: digits after the point; once they overflow the rest is
    consumed and ignored. *)
Fixpoint leadingFraction (x scale : Z) (overflow : bool) (s : string) : Z * Z * string :=
  match s with
  | String c s' =>
      if is_digit c then
        if overflow then leadingFraction x scale true s'
        else if two63_div_10 <? x then leadingFraction x scale true s'
        else
          let y := x * 10 + (byte_val c - 48) in
          if two63 <? y then leadingFraction x scale true s'
          else leadingFraction y (scale * 10) false s'
      else (x, scale, s)
  | "" => (x, scale, "")
  end.

(** The unit: everything up to the next digit or point. *)
Fixpoint take_unit (s : string) : string * string :=
  match s with
  | String c s' =>
      if is_digit c || bool_decide (c = "."%char) then ("", s)
      else let '(u, r) := take_unit s' in (String c u, r)
  | "" => ("", "")
  end.

Definition unitMap (u : string) : option Z :=
  if decide (u = "ns") then Some Nanosecond
  else if decide (u = "us") then Some Microsecond
  else if decide (u = "µs") then Some Microsecond
  else if decide (u = "μs") then Some Microsecond
  else if decide (u = "ms") then Some Millisecond
  else if decide (u = "s") then Some Second
  else if decide (u = "m") then Some Minute
  else if decide (u = "h") then Some Hour
  else None.

(** float64 (IEEE binary64) arithmetic for the fraction. *)
Definition f64_of_Z (z : Z) : spec_float := binary_normalize 53 1024 z 0 false.
Definition f64_mul : spec_float → spec_float → spec_float := SFmul 53 1024.
Definition f64_div : spec_float → spec_float → spec_float := SFdiv 53 1024.
Definition f64_trunc (f : spec_float) : Z :=
  match f with
  | S754_finite false m e => Z.shiftl (Z.pos m) e
  | _ => 0
  end.

Definition fraction_ns (f scale unit : Z) : Z :=
  f64_trunc (f64_mul (f64_of_Z f) (f64_div (f64_of_Z unit) (f64_of_Z scale))).

(** One [number unit] group: its value in ns and the rest of the string. *)
Definition parse_group (s : string) : option (Z * string) :=
  match s with
  | "" => None
  | String c _ =>
      if negb (is_digit c || bool_decide (c = "."%char)) then None
      else
        match leadingInt 0 s with
        | None => None
        | Some (v, s1) =>
            let pre := negb (Nat.eqb (String.length s) (String.length s1)) in
            let '(f, scale, s2, post) :=
              match s1 with
              | String "." s1' =>
                  let '(f, scale, s2) := leadingFraction 0 1 false s1' in
                  (f, scale, s2, negb (Nat.eqb (String.length s1') (String.length s2)))
              | _ => (0, 1, s1, false)
              end in
            if negb pre && negb post then None
            else
              let '(u, s3) := take_unit s2 in
              if decide (u = "") then None
              else
                match unitMap u with
                | None => None
                | Some unit =>
                    if two63 / unit <? v then None
                    else
                      let v := v * unit in
                      let v := if 0 <? f then u64 (v + fraction_ns f scale unit) else v in
                      if (0 <? f) && (two63 <? v) then None else Some (v, s3)
                end
        end
  end.

(** The group loop; [fuel] is the number of bytes left, each group eats one. *)
Fixpoint parse_groups (fuel : nat) (d : Z) (s : string) : option Z :=
  match s with
  | "" => Some d
  | _ =>
      match fuel with
      | O => None
      | S fuel =>
          match parse_group s with
          | None => None
          | Some (v, s') =>
              let d := u64 (d + v) in
              if two63 <? d then None else parse_groups fuel d s'
          end
      end
  end.

Definition ParseDuration (s : string) : option Z :=
  let '(neg, s) :=
    match s with
    | String "-" s' => (true, s')
    | String "+" s' => (false, s')
    | _ => (false, s)
    end in
  if decide (s = "0") then Some 0
  else if decide (s = "") then None
  else
    match parse_groups (String.length s) 0 s with
    | None => None
    | Some d =>
        if neg then Some (i64 (- d))
        else if max_int64 <? d then None
        else Some d
    end.

(** A parsed, strictly positive duration: the [err == nil && d > 0] idiom. *)
Definition parse_positive (s : string) : option Z :=
  match ParseDuration s with
  | Some d => if 0 <? d then Some d else None
  | None => None
  end.

(** ** Facts *)

Lemma parse_groups_range fuel d s r :
  0 ≤ d ≤ two63 → parse_groups fuel d s = Some r → 0 ≤ r ≤ two63.
Proof.
  revert d s. induction fuel as [|fuel IH]; intros d [|c s] Hd; [by intros [= <-]|done|by intros [= <-]|].
  cbn [parse_groups]. destruct (parse_group (String c s)) as [[v s']|]; [|done]. simpl.
  destruct (two63 <? u64 (d + v)) eqn:Hlt; [done|]. apply IH.
  pose proof (u64_range (d + v)). lia.
Qed.

(** Every parsed duration is an int64. *)
Lemma ParseDuration_range s d : ParseDuration s = Some d → min_int64 ≤ d ≤ max_int64.
Proof.
  unfold ParseDuration. intros H.
  destruct (match s with String _ _ => _ | "" => _ end) as [neg s0].
  case_decide; [injection H as <-; unfold min_int64, max_int64; lia|].
  case_decide; [done|].
  destruct (parse_groups _ _ _) as [d0|] eqn:Hg; [|done].
  apply parse_groups_range in Hg; [|by unfold two63].
  destruct neg; [|destruct (max_int64 <? d0) eqn:?; simplify_eq;
    unfold min_int64, max_int64, two63 in *; lia].
  simplify_eq. apply i64_range.
Qed.

Lemma parse_positive_pos s d : parse_positive s = Some d → 0 < d ≤ max_int64.
Proof.
  unfold parse_positive. destruct (ParseDuration s) as [d0|] eqn:Hp; [|done].
  destruct (0 <? d0) eqn:?; [|done]. intros [= ->].
  apply ParseDuration_range in Hp. lia.
Qed.
#[export] Hint Resolve parse_positive_pos : harmostes.

Example parse_90s : ParseDuration "1m30s" = Some 90000000000.
Proof. vm_compute. reflexivity. Qed.
Example parse_fraction : ParseDuration "1.5h" = Some 5400000000000.
Proof. vm_compute. reflexivity. Qed.
Example parse_neg : ParseDuration "-.5s" = Some (-500000000).
Proof. vm_compute. reflexivity. Qed.
Example parse_bad : ParseDuration "30" = None.
Proof. vm_compute. reflexivity. Qed.
Example parse_overflow : ParseDuration "9223372036854775808ns" = None.
Proof. vm_compute. reflexivity. Qed.
Example format_epoch : format_RFC3339 (62135596800 * Second) = "1970-01-01T00:00:00Z".
Proof. vm_compute. reflexivity. Qed.
Example format_leap : format_RFC3339 ((62135596800 + 1709251199) * Second) = "2024-02-29T23:59:59Z".
Proof. vm_compute. reflexivity. Qed.
Example round_90s : duration_Round (90 * Second) Minute = 2 * Minute.
Proof. reflexivity. Qed.
