(* ===== verification/Api.v ===== *)
(** * The API types ([api/v1alpha1])

    The custom resources and value types the kernel reads and writes, with the
    source's fields in the source's order. A Go pointer is an [option], a map
    is a [gmap], a [json.RawMessage] is the [string] of its bytes, an [int] or
    a [metav1.Time] is a [Z]. Each record has a short prefix; setters are the
    field assignments the operations perform. *)

From S2P Require Import Prelude GoTime.

(** ** Kubernetes metadata: the fields of [metav1.ObjectMeta] the code uses *)

Record ObjectMeta := {
  om_Name : string;
  om_Namespace : string;
  om_Labels : gmap string string;
  om_CreationTimestamp : Z;
  om_ResourceVersion : Z;
  om_UID : string;
}.

Record Condition := {
  cd_Type : string; cd_Status : string; cd_Reason : string; cd_Message : string;
}.

(** ** External system bindings ([binding_types.go]) *)

Record SecretRef := { sr_Name : string; sr_Key : string }.

Record BindingTarget := {
  bt_Host : string;
  bt_Object : string;
  bt_Branch : string;
  bt_Extra : gmap string string;
}.

Record ExternalSystemBinding := {
  eb_Name : string;
  eb_BindingRole : string;
  eb_SurfaceKind : string;
  eb_ConnectionProfile : string;
  eb_Target : BindingTarget;
  eb_Granted : list string;
  eb_AuthRef : option SecretRef;
}.

Record CapabilityRequirement := { cr_Binding : string; cr_Capability : string }.

(** ** The workflow graph ([graph_types.go]) *)

Record RetryPolicy := {
  rp_MaxAttempts : Z;
  rp_InitialDelay : string;
  rp_MaxDelay : string;
}.

Record NodeSpec := {
  nd_ID : string;
  nd_Type : string;
  nd_Label : string;
  nd_Config : string;
  nd_Outputs : list string;
  nd_When : string;
  nd_Timeout : string;
  nd_Requires : list CapabilityRequirement;
  nd_Background : option bool;
  nd_Retry : option RetryPolicy;
}.

Definition IsBackground (n : NodeSpec) : bool :=
  match nd_Background n with Some b => b | None => false end.

Record EdgeSpec := {
  ed_From : string;
  ed_To : string;
  ed_When : string;
  ed_MaxRetries : Z;
}.

Record GraphSpec := { gr_Nodes : list NodeSpec; gr_Edges : list EdgeSpec }.

(** ** Node results ([result_types.go]) *)

Definition ClaimTrustObserved : string := "observed".
Definition ClaimTrustValidated : string := "validated".

Definition NodeResultStatusOK : string := "ok".
Definition NodeResultStatusSkipped : string := "skipped".
Definition NodeResultStatusFailed : string := "failed".

Record Claim := {
  cl_Type : string;
  cl_Binding : string;
  cl_ExternalID : string;
  cl_URL : string;
  cl_TrustClass : string;
  cl_ValidatedBy : string;
}.

Record Artifact := { ar_Name : string; ar_Path : string; ar_Hash : string }.

Record EvidenceReference := {
  er_Binding : string;
  er_Kind : string;
  er_Identifier : string;
  er_URL : string;
}.

Record Provenance := {
  pv_TriggeredBy : string;
  pv_TriggerSource : string;
  pv_ProducedAt : Z;
}.

Record NodeResultEnvelope := {
  ne_NodeID : string;
  ne_RunID : string;
  ne_Status : string;
  ne_Attempt : Z;
  ne_Summary : string;
  ne_Artifacts : list Artifact;
  ne_Claims : list Claim;
  ne_Payload : string;
  ne_Provenance : Provenance;
  ne_References : list EvidenceReference;
  ne_ProducedAt : Z;
  ne_DurationMs : Z;
}.

Definition set_trust (tc by_ : string) (c : Claim) : Claim :=
  {| cl_Type := cl_Type c; cl_Binding := cl_Binding c; cl_ExternalID := cl_ExternalID c;
     cl_URL := cl_URL c; cl_TrustClass := tc; cl_ValidatedBy := by_ |}.

Definition set_claims (cs : list Claim) (e : NodeResultEnvelope) : NodeResultEnvelope :=
  {| ne_NodeID := ne_NodeID e; ne_RunID := ne_RunID e; ne_Status := ne_Status e;
     ne_Attempt := ne_Attempt e; ne_Summary := ne_Summary e; ne_Artifacts := ne_Artifacts e;
     ne_Claims := cs; ne_Payload := ne_Payload e; ne_Provenance := ne_Provenance e;
     ne_References := ne_References e; ne_ProducedAt := ne_ProducedAt e;
     ne_DurationMs := ne_DurationMs e |}.

(** ** Attempts ([attempt_types.go]) *)

Definition AttemptPhaseReconciling : string := "reconciling".
Definition AttemptPhaseValidated : string := "validated".
Definition AttemptPhaseSuperseded : string := "superseded".
Definition AttemptPhaseFailed : string := "failed".

Definition ObjectiveKindDocumentationSync : string := "documentation-sync".
Definition ObjectiveKindPRReview : string := "pr-review".
Definition ObjectiveKindForkSync : string := "fork-sync".
Definition ObjectiveKindDeploymentChange : string := "deployment-change".

Record Subject := { sj_Binding : string; sj_Object : string }.

Record ObjectiveSpec := {
  ob_Kind : string;
  ob_PrimarySubject : Subject;
  ob_RelatedSubjects : list Subject;
  ob_DesiredOutcome : string;
  ob_TargetedState : string;
}.

Record AttemptSpec := {
  as_Objective : ObjectiveSpec;
  as_WorkflowRef : string;
  as_Bindings : list ExternalSystemBinding;
  as_Owner : string;
}.

Record RunProgress := {
  pg_Turn : Z; pg_Turns : Z; pg_Model : string;
  pg_TokensIn : Z; pg_TokensOut : Z; pg_UpdatedAt : option Z;
}.

Record ReviewClaimStatus := {
  rv_PR : string;
  rv_HeadSHA : string;
  rv_Label : string;
  rv_ArmedSince : option Z;
  rv_DispatchedAt : option Z;
  rv_DispatchedJob : string;
  rv_Released : bool;
  rv_ReleaseReason : string;
  rv_DeadDispatches : Z;
  rv_DispatchLostReleases : Z;
  rv_LastDispatchLostAt : option Z;
  rv_DismissedAt : option Z;
  rv_HoldNote : string;
  rv_HoldCause : string;
}.

(** [&ReviewClaimStatus{}] *)
Definition zero_review : ReviewClaimStatus :=
  {| rv_PR := ""; rv_HeadSHA := ""; rv_Label := ""; rv_ArmedSince := None;
     rv_DispatchedAt := None; rv_DispatchedJob := ""; rv_Released := false;
     rv_ReleaseReason := ""; rv_DeadDispatches := 0; rv_DispatchLostReleases := 0;
     rv_LastDispatchLostAt := None; rv_DismissedAt := None; rv_HoldNote := "";
     rv_HoldCause := "" |}.

Record RunRecord := {
  rr_Name : string;
  rr_StartedAt : Z;
  rr_EndedAt : Z;
  rr_Phase : string;
}.

Record AttemptStatus := {
  st_ObservedGeneration : Z;
  st_Phase : string;
  st_Runs : list RunRecord;
  st_NodeResults : list NodeResultEnvelope;
  st_Evidence : list EvidenceReference;
  st_CompactedRuns : Z;
  st_CompactedNodeResults : Z;
  st_CompactedEvidence : Z;
  st_CompactedThrough : Z;
  st_LastRunAt : Z;
  st_Message : string;
  st_Conditions : list Condition;
  st_Review : option ReviewClaimStatus;
  st_Progress : option RunProgress;
}.

(** [AttemptStatus{}] *)
Definition zero_status : AttemptStatus :=
  {| st_ObservedGeneration := 0; st_Phase := ""; st_Runs := []; st_NodeResults := [];
     st_Evidence := []; st_CompactedRuns := 0; st_CompactedNodeResults := 0;
     st_CompactedEvidence := 0; st_CompactedThrough := 0; st_LastRunAt := 0;
     st_Message := ""; st_Conditions := []; st_Review := None; st_Progress := None |}.

Record Attempt := {
  at_Meta : ObjectMeta;
  at_Spec : AttemptSpec;
  at_Status : AttemptStatus;
}.

Definition RunTerminalPhase (phase : string) : bool :=
  bool_decide (phase = "succeeded") || bool_decide (phase = "failed").

(** The receivers are pointers: a nil status counts nothing. *)
Definition TotalRuns (s : option AttemptStatus) : Z :=
  match s with None => 0 | Some s => Z.of_nat (length (st_Runs s)) + st_CompactedRuns s end.
Definition TotalNodeResults (s : option AttemptStatus) : Z :=
  match s with
  | None => 0
  | Some s => Z.of_nat (length (st_NodeResults s)) + st_CompactedNodeResults s
  end.
Definition TotalEvidence (s : option AttemptStatus) : Z :=
  match s with
  | None => 0
  | Some s => Z.of_nat (length (st_Evidence s)) + st_CompactedEvidence s
  end.

(** *** Field assignments *)

Definition set_Phase (v : string) (s : AttemptStatus) : AttemptStatus :=
  {| st_ObservedGeneration := st_ObservedGeneration s; st_Phase := v; st_Runs := st_Runs s;
     st_NodeResults := st_NodeResults s; st_Evidence := st_Evidence s;
     st_CompactedRuns := st_CompactedRuns s; st_CompactedNodeResults := st_CompactedNodeResults s;
     st_CompactedEvidence := st_CompactedEvidence s; st_CompactedThrough := st_CompactedThrough s;
     st_LastRunAt := st_LastRunAt s; st_Message := st_Message s; st_Conditions := st_Conditions s;
     st_Review := st_Review s; st_Progress := st_Progress s |}.

Definition set_Message (v : string) (s : AttemptStatus) : AttemptStatus :=
  {| st_ObservedGeneration := st_ObservedGeneration s; st_Phase := st_Phase s; st_Runs := st_Runs s;
     st_NodeResults := st_NodeResults s; st_Evidence := st_Evidence s;
     st_CompactedRuns := st_CompactedRuns s; st_CompactedNodeResults := st_CompactedNodeResults s;
     st_CompactedEvidence := st_CompactedEvidence s; st_CompactedThrough := st_CompactedThrough s;
     st_LastRunAt := st_LastRunAt s; st_Message := v; st_Conditions := st_Conditions s;
     st_Review := st_Review s; st_Progress := st_Progress s |}.

Definition set_Review (v : option ReviewClaimStatus) (s : AttemptStatus) : AttemptStatus :=
  {| st_ObservedGeneration := st_ObservedGeneration s; st_Phase := st_Phase s; st_Runs := st_Runs s;
     st_NodeResults := st_NodeResults s; st_Evidence := st_Evidence s;
     st_CompactedRuns := st_CompactedRuns s; st_CompactedNodeResults := st_CompactedNodeResults s;
     st_CompactedEvidence := st_CompactedEvidence s; st_CompactedThrough := st_CompactedThrough s;
     st_LastRunAt := st_LastRunAt s; st_Message := st_Message s; st_Conditions := st_Conditions s;
     st_Review := v; st_Progress := st_Progress s |}.

Definition set_Progress (v : option RunProgress) (s : AttemptStatus) : AttemptStatus :=
  {| st_ObservedGeneration := st_ObservedGeneration s; st_Phase := st_Phase s; st_Runs := st_Runs s;
     st_NodeResults := st_NodeResults s; st_Evidence := st_Evidence s;
     st_CompactedRuns := st_CompactedRuns s; st_CompactedNodeResults := st_CompactedNodeResults s;
     st_CompactedEvidence := st_CompactedEvidence s; st_CompactedThrough := st_CompactedThrough s;
     st_LastRunAt := st_LastRunAt s; st_Message := st_Message s; st_Conditions := st_Conditions s;
     st_Review := st_Review s; st_Progress := v |}.

Definition set_LastRunAt (v : Z) (s : AttemptStatus) : AttemptStatus :=
  {| st_ObservedGeneration := st_ObservedGeneration s; st_Phase := st_Phase s; st_Runs := st_Runs s;
     st_NodeResults := st_NodeResults s; st_Evidence := st_Evidence s;
     st_CompactedRuns := st_CompactedRuns s; st_CompactedNodeResults := st_CompactedNodeResults s;
     st_CompactedEvidence := st_CompactedEvidence s; st_CompactedThrough := st_CompactedThrough s;
     st_LastRunAt := v; st_Message := st_Message s; st_Conditions := st_Conditions s;
     st_Review := st_Review s; st_Progress := st_Progress s |}.

Definition set_Runs (v : list RunRecord) (c : Z) (s : AttemptStatus) : AttemptStatus :=
  {| st_ObservedGeneration := st_ObservedGeneration s; st_Phase := st_Phase s; st_Runs := v;
     st_NodeResults := st_NodeResults s; st_Evidence := st_Evidence s;
     st_CompactedRuns := c; st_CompactedNodeResults := st_CompactedNodeResults s;
     st_CompactedEvidence := st_CompactedEvidence s; st_CompactedThrough := st_CompactedThrough s;
     st_LastRunAt := st_LastRunAt s; st_Message := st_Message s; st_Conditions := st_Conditions s;
     st_Review := st_Review s; st_Progress := st_Progress s |}.

Definition set_NodeResults (v : list NodeResultEnvelope) (c through : Z) (s : AttemptStatus)
    : AttemptStatus :=
  {| st_ObservedGeneration := st_ObservedGeneration s; st_Phase := st_Phase s; st_Runs := st_Runs s;
     st_NodeResults := v; st_Evidence := st_Evidence s;
     st_CompactedRuns := st_CompactedRuns s; st_CompactedNodeResults := c;
     st_CompactedEvidence := st_CompactedEvidence s; st_CompactedThrough := through;
     st_LastRunAt := st_LastRunAt s; st_Message := st_Message s; st_Conditions := st_Conditions s;
     st_Review := st_Review s; st_Progress := st_Progress s |}.

Definition set_Evidence (v : list EvidenceReference) (c : Z) (s : AttemptStatus) : AttemptStatus :=
  {| st_ObservedGeneration := st_ObservedGeneration s; st_Phase := st_Phase s; st_Runs := st_Runs s;
     st_NodeResults := st_NodeResults s; st_Evidence := v;
     st_CompactedRuns := st_CompactedRuns s; st_CompactedNodeResults := st_CompactedNodeResults s;
     st_CompactedEvidence := c; st_CompactedThrough := st_CompactedThrough s;
     st_LastRunAt := st_LastRunAt s; st_Message := st_Message s; st_Conditions := st_Conditions s;
     st_Review := st_Review s; st_Progress := st_Progress s |}.

Definition set_Status (v : AttemptStatus) (a : Attempt) : Attempt :=
  {| at_Meta := at_Meta a; at_Spec := at_Spec a; at_Status := v |}.

Definition set_Labels (v : gmap string string) (a : Attempt) : Attempt :=
  {| at_Meta := {| om_Name := om_Name (at_Meta a); om_Namespace := om_Namespace (at_Meta a);
                   om_Labels := v; om_CreationTimestamp := om_CreationTimestamp (at_Meta a);
                   om_ResourceVersion := om_ResourceVersion (at_Meta a);
                   om_UID := om_UID (at_Meta a) |};
     at_Spec := at_Spec a; at_Status := at_Status a |}.

(** ** Workflows ([workflow_types.go]) *)

Record PluginRef := {
  pr_Name : string; pr_Image : string; pr_ConfigMap : string;
  pr_Args : list string; pr_Timeout : string;
}.

Record TaskTemplate := { tt_Name : string; tt_ConfigMap : string; tt_Key : string }.

Record GateRef := { gt_Plugin : PluginRef }.

Record ModelWindow := { mw_Model : string; mw_Start : string; mw_End : string; mw_TZ : string }.

(** [ExtensionPin] of [agentprofile_types.go]. *)
Record ExtensionPin := { xp_Name : string; xp_Source : string; xp_Integrity : string }.

Record AgentSpec := {
  ag_Enabled : option bool;
  ag_Model : string;
  ag_Models : list ModelWindow;
  ag_Skill : string;
  ag_Tools : list string;
  ag_Extensions : list ExtensionPin;
  ag_ExcludeTools : list string;
  ag_NoMCP : option bool;
  ag_Thinking : string;
  ag_ToolBudget : option Z;
  ag_TaskTemplate : TaskTemplate;
  ag_Gate : GateRef;
  ag_MaxFixes : Z;
  ag_Timeout : Z;
  ag_Scope : string;
}.

Definition EnabledOrDefault (a : AgentSpec) : bool :=
  match ag_Enabled a with None => true | Some b => b end.

Definition NoMCPOrDefault (a : AgentSpec) : bool :=
  match ag_NoMCP a with None => false | Some b => b end.

Record PrepareSpec := {
  pp_Plugin : PluginRef; pp_Output : string; pp_Detect : string; pp_Config : string;
}.

Record DeploySpec := { dp_Plugin : PluginRef }.

Record ForkSource := { fk_URL : string; fk_Branch : string }.

Record WebhookSpec := { wh_Secret : string; wh_SecretRef : option SecretRef; wh_URL : string }.

Record SourceSpec := {
  so_Kind : string; so_Repo : string; so_Branch : string; so_Revision : string;
  so_Schedule : string; so_Topic : string; so_Language : string;
  so_Fork : option ForkSource; so_Webhook : option WebhookSpec;
}.

Record WorkspaceRepoSpec := {
  ws_URL : string; ws_Branch : string; ws_Dir : string; ws_Shadow : string;
  ws_TokenRef : option SecretRef;
}.

Record EventsSpec := {
  ev_OnPrepare : string; ev_OnResolved : string; ev_OnFailed : string; ev_OnDeployed : string;
}.

Record CacheSpec := { ca_PVC : string; ca_Git : bool; ca_Go : bool; ca_NPM : bool }.

Record SessionsSpec := { se_PVC : string; se_TTL : string }.

Record SharedAttachment := {
  sa_Name : string; sa_Scope : string; sa_PVC : string; sa_MountPath : string;
}.

Record ScalingSpec := { sc_Kind : string; sc_Schedule : string }.

(** The Review-Ready Gate's configuration ([reviewready.go]). *)
Record ReviewReadySpec := {
  rs_Label : string;
  rs_Horizon : string;
  rs_DispatchTimeout : string;
  rs_MaxConcurrent : Z;
  rs_RunBound : string;
}.

Record WorkflowSpec := {
  wf_Source : SourceSpec;
  wf_TemplateRef : string;
  wf_Config : string;
  wf_WorkspaceRepo : option WorkspaceRepoSpec;
  wf_Prepare : PrepareSpec;
  wf_Agent : AgentSpec;
  wf_Deploy : DeploySpec;
  wf_Graph : option GraphSpec;
  wf_ReviewReady : option ReviewReadySpec;
  wf_Bindings : list ExternalSystemBinding;
  wf_Events : option EventsSpec;
  wf_Cache : option CacheSpec;
  wf_Sessions : option SessionsSpec;
  wf_Attachments : list SharedAttachment;
  wf_PluginsConfigMapRef : string;
  wf_Scaling : option ScalingSpec;
  wf_Disabled : bool;
}.

(** The metadata and spec of a Workflow; its status belongs to the controller. *)
Record Workflow := { wk_Meta : ObjectMeta; wk_Spec : WorkflowSpec }.

(** ** Label keys ([labels.go]) *)

Definition OwnerLabel : string := "harmostes.dev/owner".
Definition WorkflowLabel : string := "harmostes.dev/workflow".
Definition ReviewClaimLabel : string := "harmostes.dev/review-claim".
Definition ReviewClaimReleased : string := "released".
Definition ObjectiveKindLabel : string := "harmostes.dev/objective-kind".
Definition AttemptLabel : string := "harmostes.dev/attempt".

(** ** Decidable equality *)

#[export] Instance Claim_eq_dec : EqDecision Claim.
Proof. solve_decision. Defined.
#[export] Instance CapabilityRequirement_eq_dec : EqDecision CapabilityRequirement.
Proof. solve_decision. Defined.
#[export] Instance EvidenceReference_eq_dec : EqDecision EvidenceReference.
Proof. solve_decision. Defined.
#[export] Instance Subject_eq_dec : EqDecision Subject.
Proof. solve_decision. Defined.
#[export] Instance RunRecord_eq_dec : EqDecision RunRecord.
Proof. solve_decision. Defined.
#[export] Instance EdgeSpec_eq_dec : EqDecision EdgeSpec.
Proof. solve_decision. Defined.
