(* ===== verification/Profile.v ===== *)
(** * Agent profiles ([api/v1alpha1/agentprofile_types.go]) and model windows

    The environment's profile, the resolution of the model by time window
    (shared with the workflow's agent), and the compatibility statement. The
    time-zone database is a parameter: [zone tz] is the offset from UTC, in
    seconds, of each instant, [None] where the zone is unknown. The semantic
    versions of golang.org/x/mod are the class [Semver]. *)

From S2P Require Import Prelude GoStrings GoTime Api.

(** ** Data *)

Record HarnessRef := { hr_Runtime : string; hr_Source : string; hr_Integrity : string }.

Record SkillsPin := { sp_Repo : string; sp_Rev : string }.

Record AgentProfileSpec := {
  ap_Harness : HarnessRef;
  ap_Extensions : list ExtensionPin;
  ap_Models : list ModelWindow;
  ap_Skills : option SkillsPin;
  ap_Compatibility : string;
}.

Record AgentProfile := { pf_Meta : ObjectMeta; pf_Spec : AgentProfileSpec }.

Class Semver := {
  sv_IsValid : string → bool;
  sv_Compare : string → string → Z;
}.

(** ** Model windows *)

Definition tzOrUTC (w : ModelWindow) : string := if decide (mw_TZ w = "") then "UTC" else mw_TZ w.

(** Go's [<=] on strings: bytes, lexicographically. *)
Fixpoint str_le (s t : string) : bool :=
  match s, t with
  | "", _ => true
  | _, "" => false
  | String a s, String b t =>
      if byte_val a <? byte_val b then true else if byte_val b <? byte_val a then false else str_le s t
  end.

Definition wrapsMidnight (w : ModelWindow) : bool := str_le (mw_End w) (mw_Start w).

(** [getnum] of package [time]: one or two digits, exactly two if [fixed]. *)
Definition getnum (fixed : bool) (s : string) : option (Z * string) :=
  match s with
  | String a r =>
      if is_digit a then
        match r with
        | String b r' =>
            if is_digit b then Some ((byte_val a - 48) * 10 + (byte_val b - 48), r')
            else if fixed then None else Some (byte_val a - 48, r)
        | "" => if fixed then None else Some (byte_val a - 48, r)
        end
      else None
  | "" => None
  end.

(** [time.Parse("15:04", s)], then hours and minutes. *)
Definition minutesOfDay (s : string) : option Z :=
  match getnum false s with
  | Some (h, r) =>
      if h <? 24 then
        match r with
        | String ":" r =>
            match getnum true r with
            | Some (m, "") => if m <? 60 then Some (h * 60 + m) else None
            | _ => None
            end
        | _ => None
        end
      else None
  | None => None
  end.

Section windows.
Context (zone : string → option (Z → Z)).

Definition local_minute (off : Z → Z) (now : Z) : Z := ((now + off now * Second) / Minute) mod 1440.

Fixpoint resolveModelWindows (windows : list ModelWindow) (now : Z) : string :=
  match windows with
  | [] => ""
  | w :: rest =>
      match zone (tzOrUTC w) with
      | None => resolveModelWindows rest now
      | Some off =>
          match minutesOfDay (mw_Start w), minutesOfDay (mw_End w) with
          | Some start, Some end_ =>
              let nowMin := local_minute off now in
              if wrapsMidnight w
              then if (start <=? nowMin) || (nowMin <? end_) then mw_Model w
                   else resolveModelWindows rest now
              else if (start <=? nowMin) && (nowMin <? end_) then mw_Model w
              else resolveModelWindows rest now
          | _, _ => resolveModelWindows rest now
          end
      end
  end.

Definition profile_ResolveModel (p : AgentProfileSpec) (now : Z) : string :=
  resolveModelWindows (ap_Models p) now.

Definition agent_ResolveModel (a : AgentSpec) (now : Z) : string :=
  let m := resolveModelWindows (ag_Models a) now in
  if decide (m ≠ "") then m else ag_Model a.

Definition ResolveModelWithProfile (p : option AgentProfile) (wf : Workflow) (now : Z) : string :=
  let m := match p with Some p => profile_ResolveModel (pf_Spec p) now | None => "" end in
  if decide (m ≠ "") then m else agent_ResolveModel (wf_Agent (wk_Spec wf)) now.
End windows.

(** ** Compatibility *)

Definition normalizeSemver (v : string) : string := if has_prefix v "v" then v else "v" +:+ v.

Definition CompatibilityCause `{Semver} (quote : string → string) (p : AgentProfileSpec) (kernelVersion : string)
    : string :=
  let stmt := TrimSpace (ap_Compatibility p) in
  if decide (stmt = "") then ""
  else match strip_prefix "kernel" stmt with
  | None => "AgentProfile compatibility statement " +:+ quote stmt
            +:+ " is malformed — the only documented form is " +:+ quote "kernel >=X.Y.Z"
  | Some rest =>
      let rest := TrimSpace rest in
      match strip_prefix ">=" rest with
      | None => "AgentProfile compatibility statement " +:+ quote stmt
                +:+ " is malformed — the only documented operator is >= (" +:+ quote "kernel >=X.Y.Z" +:+ ")"
      | Some want =>
          let want := normalizeSemver (TrimSpace want) in
          if negb (sv_IsValid want)
          then "AgentProfile compatibility statement " +:+ quote stmt +:+ " is malformed — "
               +:+ quote (TrimSpace rest) +:+ " is not a semantic version"
          else
            let got := normalizeSemver (TrimSpace kernelVersion) in
            if negb (sv_IsValid got)
            then "kernel version " +:+ quote kernelVersion
                 +:+ " is not a semantic version — cannot evaluate the profile's compatibility statement "
                 +:+ quote stmt
            else if sv_Compare got want <? 0
            then "kernel " +:+ kernelVersion +:+ " does not satisfy the profile's compatibility statement "
                 +:+ quote stmt +:+ " — upgrade the kernel or relax the profile"
            else ""
      end
  end.

Definition AgentProfileEnvVar : string := "HARMOSTES_AGENT_PROFILE".
Definition AgentProfileRefFromEnv (getenv : string → string) : string := getenv AgentProfileEnvVar.

(** ** Windows on the clock *)

Definition digit (c : ascii) : Z := byte_val c - 48.

(** [HH:MM] with both digits of the hour: what the schedule's documentation
    asks for, as minutes since midnight. *)
Definition clock_of (s : string) : option Z :=
  match s with
  | String a (String b (String ":" (String c (String d "")))) =>
      if is_digit a && is_digit b && is_digit c && is_digit d
         && (digit a * 10 + digit b <? 24) && (digit c * 10 + digit d <? 60)
      then Some ((digit a * 10 + digit b) * 60 + (digit c * 10 + digit d)) else None
  | _ => None
  end.

(** The half-open interval of the day's circle; from a minute to itself is the
    whole day. *)
Definition on_clock (start end_ t : Z) : bool :=
  if start <? end_ then (start <=? t) && (t <? end_) else (start <=? t) || (t <? end_).

(** The window applies at [now]. *)
Definition in_window (zone : string → option (Z → Z)) (now : Z) (w : ModelWindow) : bool :=
  match zone (tzOrUTC w), clock_of (mw_Start w), clock_of (mw_End w) with
  | Some off, Some start, Some end_ => on_clock start end_ (local_minute off now)
  | _, _, _ => false
  end.

(** A bound is [HH:MM], or does not parse at all. *)
Definition clock_or_junk (s : string) : Prop := is_Some (clock_of s) ∨ minutesOfDay s = None.

Lemma clock_of_inv s t :
  clock_of s = Some t → ∃ a b c d,
    s = String a (String b (String ":" (String c (String d ""))))
    ∧ is_digit a = true ∧ is_digit b = true ∧ is_digit c = true ∧ is_digit d = true
    ∧ digit a * 10 + digit b < 24 ∧ digit c * 10 + digit d < 60
    ∧ t = (digit a * 10 + digit b) * 60 + (digit c * 10 + digit d).
Proof.
  destruct s as [|a [|b [|x [|c [|d [|? ?]]]]]]; try done; cbn;
    try (destruct (ascii_dec x ":") as [->|Hx]; [done|destruct x as [[] [] [] [] [] [] [] []]; done]).
  destruct (ascii_dec x ":") as [->|Hx].
  2:{ intros H. exfalso. apply Hx. destruct x as [[] [] [] [] [] [] [] []]; done. }
  destruct (_ && _) eqn:E; [|done]. intros [= <-].
  rewrite !andb_true_iff, !Z.ltb_lt in E. exists a, b, c, d. naive_solver.
Qed.

Lemma is_digit_range c : is_digit c = true → 0 ≤ digit c ≤ 9.
Proof. unfold is_digit, digit. rewrite andb_true_iff, !Z.leb_le. lia. Qed.

Lemma clock_minutes s t : clock_of s = Some t → minutesOfDay s = Some t.
Proof.
  intros (a & b & c & d & -> & Ha & Hb & Hc & Hd & Hh & Hm & ->)%clock_of_inv.
  unfold minutesOfDay, getnum. rewrite Ha, Hb. fold (digit a) (digit b).
  rewrite (proj2 (Z.ltb_lt _ _) Hh), Hc, Hd. fold (digit c) (digit d).
  by rewrite (proj2 (Z.ltb_lt _ _) Hm).
Qed.

Lemma clock_order s t s' t' :
  clock_of s = Some t → clock_of s' = Some t' → str_le s s' = (t <=? t').
Proof.
  intros (a & b & c & d & -> & Ha & Hb & Hc & Hd & Hh & Hm & ->)%clock_of_inv.
  intros (a' & b' & c' & d' & -> & Ha' & Hb' & Hc' & Hd' & Hh' & Hm' & ->)%clock_of_inv.
  apply is_digit_range in Ha, Hb, Hc, Hd, Ha', Hb', Hc', Hd'. unfold digit in *.
  cbn [str_le]. repeat match goal with
  | |- context [if ?x <? ?y then _ else _] => destruct (Z.ltb_spec x y)
  end; symmetry; first [apply Z.leb_le; lia | apply Z.leb_gt; lia].
Qed.

Lemma window_step zone w ws now :
  clock_or_junk (mw_Start w) → clock_or_junk (mw_End w) →
  resolveModelWindows zone (w :: ws) now
  = if in_window zone now w then mw_Model w else resolveModelWindows zone ws now.
Proof.
  assert (∀ x, clock_or_junk x → minutesOfDay x = clock_of x) as Hx.
  { intros x [[t Ht]|Hn]; [by rewrite Ht, (clock_minutes x t)|].
    destruct (clock_of x) eqn:Hc; [|done]. apply clock_minutes in Hc. congruence. }
  intros Hs%Hx He%Hx. cbn [resolveModelWindows]. unfold in_window. rewrite Hs, He.
  destruct (zone (tzOrUTC w)) as [off|]; [|done].
  destruct (clock_of (mw_Start w)) as [s|] eqn:Es; [|done].
  destruct (clock_of (mw_End w)) as [e|] eqn:Ee; [|done].
  unfold wrapsMidnight, on_clock. rewrite (clock_order _ _ _ _ Ee Es).
  by destruct (Z.leb_spec e s), (Z.ltb_spec s e); try lia.
Qed.

(** The model in force is the model of the first window that contains the
    run's start on its own clock, and none where no window does: schedules
    whose bounds are written HH:MM, or do not parse, select exactly so, across
    midnight too. *)
Theorem model_window_first zone windows now :
  Forall (λ w, clock_or_junk (mw_Start w) ∧ clock_or_junk (mw_End w)) windows →
  resolveModelWindows zone windows now
  = default "" (mw_Model <$> head (filter (λ w, in_window zone now w = true) windows)).
Proof.
  induction 1 as [|w ws [Hs He] _ IH]; [done|]. rewrite window_step by done. rewrite filter_cons.
  destruct (in_window zone now w) eqn:E; [by rewrite decide_True|]. by rewrite decide_False.
Qed.

Definition utc_only (tz : string) : option (Z → Z) := if decide (tz = "UTC") then Some (λ _, 0) else None.
Definition window (m s e : string) : ModelWindow := {| mw_Model := m; mw_Start := s; mw_End := e; mw_TZ := "" |}.

Lemma model_window_first_witness :
  resolveModelWindows utc_only [window "day" "09:00" "17:00"; window "night" "22:00" "06:00"] (23 * Hour) = "night".
Proof.
  rewrite (model_window_first utc_only [window "day" "09:00" "17:00"; window "night" "22:00" "06:00"]);
    [vm_compute; reflexivity|].
  repeat (apply Forall_cons; split); [..|apply Forall_nil; done]; split; left; eexists; vm_compute; reflexivity.
Defined.

(** A one-digit hour parses, but its text compares as later than any two-digit
    one: the window from 9:00 to 17:00 wraps midnight and is in force at 20:00. *)
Lemma one_digit_hour_wraps :
  minutesOfDay "9:00" = Some 540 ∧ minutesOfDay "17:00" = Some 1020
  ∧ resolveModelWindows utc_only [window "day" "9:00" "17:00"] (20 * Hour) = "day".
Proof. vm_compute. done. Qed.
