(* ===== verification/Extensions.v ===== *)
(** * Extension and harness pins ([api/v1alpha1/extensions.go], [worker/extensions.go])

    Validation of pins, composition of the profile's set with the template's
    delta, and the manifests that carry the result to the pod. The JSON codec
    of the manifests is the class [ManifestCodec]; semantic versions are
    [Semver]. An error is the value its text prints. *)

From S2P Require Import Prelude GoStrings GoPath Sha256 Api Profile.

(** ** Errors *)

Inductive PinError : Type :=
| SourceRequired
| NotExactSpec (spec : string)
| NotExactVersion (spec version : string)
| NotSRI (sri : string)
| SRILength (sri : string) (n : Z)
| SRICharacter (sri rune : string)
| NameRequired (source : string)
| PinOf (name : string) (e : PinError)
| RuntimeRequired
| HarnessOf (runtime : string) (e : PinError)
| UniversalOf (e : PinError)
| TemplateOf (e : PinError).

Inductive ManifestError : Type :=
| MarshalFailed (text : string)
| NotJSON (text : string)
| IncompletePin (p : ExtensionPin)
| IncompleteHarness (h : HarnessRef).

(** The wire types have the fields of the API's. *)
Class ManifestCodec := {
  mc_marshal_pins : list ExtensionPin → result string string;
  mc_unmarshal_pins : string → result string (list ExtensionPin);
  mc_marshal_harness : HarnessRef → result string string;
  mc_unmarshal_harness : string → result string HarnessRef;
}.

(** ** Pins *)

Definition base64_byte (c : ascii) : bool :=
  is_upper c || is_lower c || is_digit c
  || bool_decide (c = "+"%char) || bool_decide (c = "/"%char) || bool_decide (c = "="%char).

(** [string(r)] of the rune at the head; an invalid encoding is U+FFFD. *)
Definition head_rune (c : ascii) (r : string) : string :=
  match rune_width c r with
  | Some n => str_take n (String c r)
  | None => bytes_of [239; 191; 189]
  end.

Fixpoint first_bad (s : string) : option string :=
  match s with
  | "" => None
  | String c r => if base64_byte c then first_bad r else Some (head_rune c r)
  end.

Definition sri_prefix : string := "sha512-".

Definition ValidateSRI (sri : string) : option PinError :=
  match strip_prefix sri_prefix sri with
  | None => Some (NotSRI sri)
  | Some b64 =>
      if (slen b64 <? 43) || (88 <? slen b64) then Some (SRILength sri (slen b64))
      else SRICharacter sri <$> first_bad b64
  end.

Section pins.
Context `{Semver}.

Definition ValidateNPMSpec (spec : string) : option PinError :=
  if decide (spec = "") then Some SourceRequired
  else match cut_last "@"%char spec with
  | None | Some ("", _) => Some (NotExactSpec spec)
  | Some (_, version) =>
      if negb (has_prefix version "v") && negb (sv_IsValid ("v" +:+ version))
      then Some (NotExactVersion spec version) else None
  end.

Definition validate_pin (p : ExtensionPin) : option PinError :=
  if decide (xp_Name p = "") then Some (NameRequired (xp_Source p))
  else match ValidateNPMSpec (xp_Source p) with
  | Some e => Some (PinOf (xp_Name p) e)
  | None => PinOf (xp_Name p) <$> ValidateSRI (xp_Integrity p)
  end.

Fixpoint ValidateExtensionPins (pins : list ExtensionPin) : option PinError :=
  match pins with
  | [] => None
  | p :: pins => match validate_pin p with Some e => Some e | None => ValidateExtensionPins pins end
  end.

Definition zero_harness (h : HarnessRef) : bool :=
  bool_decide (hr_Runtime h = "") && bool_decide (hr_Source h = "") && bool_decide (hr_Integrity h = "").

Definition ValidateHarnessPin (h : HarnessRef) : option PinError :=
  if zero_harness h then None
  else if decide (hr_Runtime h = "") then Some RuntimeRequired
  else match ValidateNPMSpec (hr_Source h) with
  | Some e => Some (HarnessOf (hr_Runtime h) e)
  | None => HarnessOf (hr_Runtime h) <$> ValidateSRI (hr_Integrity h)
  end.

(** ** Composition *)

Definition by_name (l : list ExtensionPin) : gmap string ExtensionPin :=
  foldl (λ m d, <[xp_Name d := d]> m) ∅ l.

Fixpoint template_only (universalNames seen : gset string) (delta : list ExtensionPin) : list ExtensionPin :=
  match delta with
  | [] => []
  | d :: delta =>
      if decide (xp_Name d ∈ universalNames ∨ xp_Name d ∈ seen)
      then template_only universalNames seen delta
      else d :: template_only universalNames ({[xp_Name d]} ∪ seen) delta
  end.

Definition ComposeExtensions (universal delta : list ExtensionPin) : list ExtensionPin :=
  ((λ u, default u (by_name delta !! xp_Name u)) <$> universal)
  ++ template_only (list_to_set (xp_Name <$> universal)) ∅ delta.

Definition ComposeRuntime (universal delta : list ExtensionPin) (harness : HarnessRef)
    : result PinError (list ExtensionPin * option HarnessRef) :=
  match ValidateExtensionPins universal with
  | Some e => Err (UniversalOf e)
  | None =>
  match ValidateExtensionPins delta with
  | Some e => Err (TemplateOf e)
  | None =>
  match ValidateHarnessPin harness with
  | Some e => Err e
  | None => Ok (ComposeExtensions universal delta,
                if decide (hr_Runtime harness = "") then None else Some harness)
  end end end.
End pins.

(** ** Manifests *)

Section manifests.
Context `{ManifestCodec}.

Definition RenderExtensionManifest (pins : list ExtensionPin) : result ManifestError string :=
  match pins with
  | [] => Ok ""
  | _ => match mc_marshal_pins pins with Ok b => Ok b | Err e => Err (MarshalFailed e) end
  end.

Definition complete_pin (p : ExtensionPin) : bool :=
  negb (bool_decide (xp_Name p = "")) && negb (bool_decide (xp_Source p = ""))
  && negb (bool_decide (xp_Integrity p = "")).

Definition ParseExtensionManifest (raw : string) : result ManifestError (list ExtensionPin) :=
  if decide (TrimSpace raw = "") then Ok []
  else match mc_unmarshal_pins raw with
  | Err e => Err (NotJSON e)
  | Ok m => match List.find (λ p, negb (complete_pin p)) m with
            | Some p => Err (IncompletePin p)
            | None => Ok m
            end
  end.

Definition RenderHarnessManifest (h : HarnessRef) : result ManifestError string :=
  if zero_harness h then Ok ""
  else match mc_marshal_harness h with Ok b => Ok b | Err e => Err (MarshalFailed e) end.

Definition ParseHarnessManifest (raw : string) : result ManifestError (option HarnessRef) :=
  if decide (TrimSpace raw = "") then Ok None
  else match mc_unmarshal_harness raw with
  | Err e => Err (NotJSON e)
  | Ok m => if decide (hr_Runtime m = "" ∨ hr_Source m = "" ∨ hr_Integrity m = "")
            then Err (IncompleteHarness m) else Ok (Some m)
  end.
End manifests.

(** ** What validation accepts *)

Section accepted.
Context `{Semver}.

Definition exact_spec (spec : string) : Prop :=
  ∃ path version, spec = path +:+ "@" +:+ version ∧ path ≠ "" ∧ contains_byte version "@"%char = false
  ∧ (has_prefix version "v" = true ∨ sv_IsValid ("v" +:+ version) = true).

Definition sri_shape (sri : string) : Prop :=
  ∃ b64, sri = sri_prefix +:+ b64 ∧ 43 ≤ slen b64 ≤ 88 ∧ all_bytes base64_byte b64 = true.

Definition good_pin (p : ExtensionPin) : Prop :=
  xp_Name p ≠ "" ∧ exact_spec (xp_Source p) ∧ sri_shape (xp_Integrity p).

Lemma first_bad_None s : first_bad s = None ↔ all_bytes base64_byte s = true.
Proof. induction s as [|c s IH]; [done|]. cbn. by destruct (base64_byte c). Qed.

Lemma ValidateSRI_None sri : ValidateSRI sri = None ↔ sri_shape sri.
Proof.
  unfold ValidateSRI, sri_shape. setoid_rewrite <- strip_prefix_Some.
  destruct (strip_prefix sri_prefix sri) as [b|].
  2:{ split; [done|]. by intros (? & ? & _). }
  setoid_rewrite <- first_bad_None.
  destruct (Z.ltb_spec (slen b) 43), (Z.ltb_spec 88 (slen b)); cbn;
    (split; [intros Hn|intros (b' & [= <-] & Hl & Hn)]); try done; try lia.
  - exists b. by destruct (first_bad b).
  - by rewrite Hn.
Qed.

Lemma ValidateNPMSpec_None spec : ValidateNPMSpec spec = None ↔ exact_spec spec.
Proof.
  unfold ValidateNPMSpec, exact_spec. split.
  - destruct (decide (spec = "")); [done|]. destruct (cut_last _ spec) as [[path v]|] eqn:E; [|done].
    apply cut_last_spec in E as [-> Hv]. destruct path as [|c path]; [done|].
    destruct (negb _ && negb _) eqn:Hn; [done|]. intros _. exists (String c path), v.
    rewrite andb_false_iff, !negb_false_iff in Hn. by repeat split.
  - intros (path & v & -> & Hp & Hv & Hok).
    rewrite decide_False by by destruct path. change ("@" +:+ v) with (String "@" v).
    rewrite cut_last_app by done. destruct path as [|c path]; [done|].
    by destruct Hok as [-> | ->]; [|rewrite andb_false_r].
Qed.

Lemma validate_pin_None p : validate_pin p = None ↔ good_pin p.
Proof.
  unfold validate_pin, good_pin. rewrite <- ValidateNPMSpec_None, <- ValidateSRI_None.
  destruct (decide (xp_Name p = "")); [naive_solver|].
  destruct (ValidateNPMSpec (xp_Source p)); [naive_solver|].
  destruct (ValidateSRI (xp_Integrity p)); naive_solver.
Qed.

Lemma ValidateExtensionPins_None pins : ValidateExtensionPins pins = None ↔ Forall good_pin pins.
Proof.
  induction pins as [|p pins IH]; cbn; [by split|].
  rewrite Forall_cons, <- validate_pin_None, <- IH. destruct (validate_pin p); naive_solver.
Qed.

Lemma ValidateHarnessPin_None h :
  ValidateHarnessPin h = None ↔
  zero_harness h = true ∨ hr_Runtime h ≠ "" ∧ exact_spec (hr_Source h) ∧ sri_shape (hr_Integrity h).
Proof.
  unfold ValidateHarnessPin. rewrite <- ValidateNPMSpec_None, <- ValidateSRI_None.
  destruct (zero_harness h); [naive_solver|]. destruct (decide (hr_Runtime h = "")); [naive_solver|].
  destruct (ValidateNPMSpec (hr_Source h)); [naive_solver|].
  destruct (ValidateSRI (hr_Integrity h)); naive_solver.
Qed.
End accepted.

(** ** What composition keeps *)

Lemma by_name_app l d : by_name (l ++ [d]) = <[xp_Name d := d]> (by_name l).
Proof. unfold by_name. by rewrite foldl_app. Qed.

(** The last pin of its name. *)
Lemma by_name_Some l n d :
  by_name l !! n = Some d → ∃ l1 l2, l = l1 ++ d :: l2 ∧ xp_Name d = n ∧ n ∉ xp_Name <$> l2.
Proof.
  induction l as [|x l IH] using rev_ind; [done|]. rewrite by_name_app, lookup_insert_Some.
  intros [[<- <-]|[Hne Hl]]; [exists l, []; split_and!; [done..|set_solver]|].
  destruct (IH Hl) as (l1 & l2 & -> & Hn & Hf). exists l1, (l2 ++ [x]).
  rewrite <- app_assoc. split_and!; [done..|]. rewrite fmap_app. set_solver.
Qed.

Lemma by_name_None l n : by_name l !! n = None ↔ n ∉ xp_Name <$> l.
Proof.
  induction l as [|x l IH] using rev_ind; [cbn; set_solver|].
  rewrite by_name_app, lookup_insert_None, IH, fmap_app. set_solver.
Qed.

Lemma template_only_in un seen delta d :
  d ∈ template_only un seen delta → d ∈ delta ∧ xp_Name d ∉ un ∧ xp_Name d ∉ seen.
Proof.
  revert seen. induction delta as [|x delta IH]; intros seen; cbn; [set_solver|].
  destruct (decide _) as [|Hx]; [intros ?%IH; set_solver|].
  intros [->|Hd]%elem_of_cons; [set_solver|]. apply IH in Hd. set_solver.
Qed.

Lemma template_only_covers un seen delta n :
  n ∈ xp_Name <$> delta → n ∉ un → n ∉ seen → n ∈ xp_Name <$> template_only un seen delta.
Proof.
  revert seen. induction delta as [|x delta IH]; intros seen; cbn; [set_solver|].
  intros [->|Hn]%elem_of_cons Hu Hs.
  - rewrite decide_False by naive_solver. set_solver.
  - destruct (decide _) as [|Hx]; [by apply IH|]. cbn.
    destruct (decide (n = xp_Name x)) as [->|Hne]; [set_solver|]. right. apply IH; set_solver.
Qed.

Lemma template_only_NoDup un seen delta : NoDup (xp_Name <$> template_only un seen delta).
Proof.
  revert seen. induction delta as [|x delta IH]; intros seen; cbn; [constructor|].
  destruct (decide _); [done|]. cbn. constructor; [|done].
  intros (d & Hd & Hin)%list_elem_of_fmap. apply template_only_in in Hin. set_solver.
Qed.

Lemma compose_names universal delta :
  xp_Name <$> ComposeExtensions universal delta
  = (xp_Name <$> universal)
    ++ (xp_Name <$> template_only (list_to_set (xp_Name <$> universal)) ∅ delta).
Proof.
  unfold ComposeExtensions. rewrite fmap_app. f_equal. rewrite <- list_fmap_compose.
  apply list_fmap_ext. intros i u _. cbn. destruct (by_name delta !! xp_Name u) as [d|] eqn:E; [|done].
  by apply by_name_Some in E as (? & ? & _ & ? & _).
Qed.

Lemma compose_in universal delta p :
  p ∈ ComposeExtensions universal delta →
  p ∈ delta ∨ p ∈ universal ∧ xp_Name p ∉ xp_Name <$> delta.
Proof.
  unfold ComposeExtensions. rewrite elem_of_app, list_elem_of_fmap.
  intros [(u & -> & Hu)|Hp%template_only_in]; [|naive_solver].
  destruct (by_name delta !! xp_Name u) as [d|] eqn:E; cbn.
  - apply by_name_Some in E as (l1 & l2 & -> & _). left. set_solver.
  - right. by rewrite by_name_None in E.
Qed.

(** Composing the profile's extensions with the template's: the profile's
    names keep their places and the template's other names follow, each once;
    every name of both is there; and a pin is the template's whenever the
    template declares its name, the profile's own otherwise. *)
Theorem ComposeExtensions_spec universal delta :
  let out := ComposeExtensions universal delta in
  take (length universal) (xp_Name <$> out) = xp_Name <$> universal
  ∧ NoDup (drop (length universal) (xp_Name <$> out))
  ∧ (∀ n, n ∈ xp_Name <$> out ↔ n ∈ xp_Name <$> universal ∨ n ∈ xp_Name <$> delta)
  ∧ (∀ p, p ∈ out → p ∈ delta ∨ p ∈ universal ∧ xp_Name p ∉ xp_Name <$> delta)
  ∧ (NoDup (xp_Name <$> universal) → NoDup (xp_Name <$> out)).
Proof.
  cbn zeta. pose proof (compose_names universal delta) as Hn.
  assert (length universal = length (xp_Name <$> universal)) as Hl by by rewrite length_fmap.
  split_and!.
  - rewrite Hn, Hl. apply take_app_length.
  - rewrite Hn, Hl, drop_app_length. apply template_only_NoDup.
  - intros n. rewrite Hn, elem_of_app. split.
    + intros [?|(d & -> & Hd%template_only_in)%list_elem_of_fmap]; [by left|]. right. apply list_elem_of_fmap. naive_solver.
    + intros [?|Hd]; [by left|]. destruct (decide (n ∈ xp_Name <$> universal)); [by left|].
      right. apply template_only_covers; [done|set_solver..].
  - apply compose_in.
  - intros Hu. rewrite Hn. apply NoDup_app. split_and!; [done| |apply template_only_NoDup].
    intros n Hi (d & -> & Hd%template_only_in)%list_elem_of_fmap. set_solver.
Qed.

Definition pin (n s i : string) : ExtensionPin := {| xp_Name := n; xp_Source := s; xp_Integrity := i |}.

Lemma ComposeExtensions_spec_witness :
  let out := ComposeExtensions [pin "a" "a@1" "i"; pin "b" "b@1" "i"] [pin "c" "c@1" "i"; pin "a" "a@2" "i"] in
  NoDup (xp_Name <$> out) ∧ out = [pin "a" "a@2" "i"; pin "b" "b@1" "i"; pin "c" "c@1" "i"].
Proof.
  split; [|vm_compute; reflexivity].
  apply (ComposeExtensions_spec [pin "a" "a@1" "i"; pin "b" "b@1" "i"] [pin "c" "c@1" "i"; pin "a" "a@2" "i"]).
  apply (bool_decide_unpack _). vm_compute. exact I.
Defined.

(** Of two template pins of one name, the last replaces the profile's, and the
    first is kept where the profile has none. *)
Lemma duplicate_delta :
  ComposeExtensions [pin "a" "a@1" "i"] [pin "a" "a@2" "i"; pin "a" "a@3" "i"] = [pin "a" "a@3" "i"]
  ∧ ComposeExtensions [] [pin "a" "a@2" "i"; pin "a" "a@3" "i"] = [pin "a" "a@2" "i"].
Proof. by vm_compute. Qed.

(** A version that starts with "v" is not checked. *)
Lemma v_tag_accepted `{Semver} : ValidateNPMSpec "pkg@vnext" = None.
Proof. reflexivity. Qed.

(** ** The manifest and back *)

Definition text_pin (p : ExtensionPin) : bool :=
  valid_utf8 (xp_Name p) && valid_utf8 (xp_Source p) && valid_utf8 (xp_Integrity p).
Definition text_harness (h : HarnessRef) : bool :=
  valid_utf8 (hr_Runtime h) && valid_utf8 (hr_Source h) && valid_utf8 (hr_Integrity h).

(** [encoding/json] decodes what it encoded, if the strings are valid UTF-8. *)
Class CodecLaws `{ManifestCodec} : Prop := {
  codec_pins l : l ≠ [] → Forall (λ p, text_pin p = true) l →
    ∃ b, mc_marshal_pins l = Ok b ∧ TrimSpace b ≠ "" ∧ mc_unmarshal_pins b = Ok l;
  codec_harness h : text_harness h = true →
    ∃ b, mc_marshal_harness h = Ok b ∧ TrimSpace b ≠ "" ∧ mc_unmarshal_harness b = Ok h;
}.

Section roundtrip.
Context `{Semver} `{!ManifestCodec} `{!CodecLaws}.

Lemma exact_spec_nonempty s : exact_spec s → s ≠ "".
Proof. intros (a & b & -> & Ha & _). by destruct a. Qed.
Lemma sri_shape_nonempty s : sri_shape s → s ≠ "".
Proof. by intros (b & -> & _). Qed.

Lemma good_pin_complete p : good_pin p → complete_pin p = true.
Proof.
  intros (Hn & Hs%exact_spec_nonempty & Hi%sri_shape_nonempty). unfold complete_pin.
  by rewrite !bool_decide_eq_false_2.
Qed.

Lemma find_complete pins : Forall good_pin pins → List.find (λ p, negb (complete_pin p)) pins = None.
Proof. induction 1 as [|p pins Hp _ IH]; [done|]. cbn. by rewrite (good_pin_complete p Hp). Qed.

Lemma extension_roundtrip pins :
  Forall good_pin pins → Forall (λ p, text_pin p = true) pins →
  ∃ raw, RenderExtensionManifest pins = Ok raw ∧ ParseExtensionManifest raw = Ok pins.
Proof.
  intros Hg Ht. destruct pins as [|p pins]; [by exists ""|].
  destruct (codec_pins (p :: pins)) as (b & Hm & Hb & Hu); [done..|]. exists b.
  cbn [RenderExtensionManifest]. rewrite Hm. split; [done|].
  unfold ParseExtensionManifest. rewrite decide_False, Hu, find_complete by done. done.
Qed.

Lemma harness_roundtrip h :
  ValidateHarnessPin h = None → hr_Runtime h ≠ "" → text_harness h = true →
  ∃ raw, RenderHarnessManifest h = Ok raw ∧ ParseHarnessManifest raw = Ok (Some h).
Proof.
  intros Hv Hr Ht. assert (zero_harness h = false) as Hz.
  { unfold zero_harness. by rewrite bool_decide_eq_false_2. }
  apply ValidateHarnessPin_None in Hv as [?|(_ & Hs & Hi)]; [congruence|].
  destruct (codec_harness h Ht) as (b & Hm & Hb & Hu). exists b.
  unfold RenderHarnessManifest, ParseHarnessManifest. rewrite Hz, Hm, decide_False, Hu by done.
  split; [done|]. rewrite decide_False; [done|].
  intros [?|[?|?]]; [done|by apply (exact_spec_nonempty (hr_Source h))|by apply (sri_shape_nonempty (hr_Integrity h))].
Qed.

Lemma ComposeRuntime_Ok universal delta harness pins h :
  ComposeRuntime universal delta harness = Ok (pins, h) →
  Forall good_pin universal ∧ Forall good_pin delta ∧ ValidateHarnessPin harness = None
  ∧ pins = ComposeExtensions universal delta
  ∧ h = if decide (hr_Runtime harness = "") then None else Some harness.
Proof.
  unfold ComposeRuntime. rewrite <- !ValidateExtensionPins_None.
  destruct (ValidateExtensionPins universal); [done|]. destruct (ValidateExtensionPins delta); [done|].
  destruct (ValidateHarnessPin harness); [done|]. by intros [= <- <-].
Qed.

(** What the dispatcher composes reaches the pod whole: the manifests
    rendered from a composed runtime parse back, in the init container and in
    the run, to exactly the pins and the harness composed, all of them
    validated. *)
Theorem runtime_manifest_roundtrip universal delta harness pins h :
  ComposeRuntime universal delta harness = Ok (pins, h) →
  Forall (λ p, text_pin p = true) (universal ++ delta) → text_harness harness = true →
  Forall good_pin pins
  ∧ (∃ raw, RenderExtensionManifest pins = Ok raw ∧ ParseExtensionManifest raw = Ok pins)
  ∧ match h with
    | Some h => h = harness ∧ ∃ raw, RenderHarnessManifest h = Ok raw ∧ ParseHarnessManifest raw = Ok (Some h)
    | None => hr_Runtime harness = ""
    end.
Proof.
  intros (Hu & Hd & Hh & -> & ->)%ComposeRuntime_Ok [Htu Htd]%Forall_app Hth.
  assert (∀ P : ExtensionPin → Prop, Forall P universal → Forall P delta →
            Forall P (ComposeExtensions universal delta)) as Hall.
  { intros P Pu Pd. rewrite Forall_forall in *. intros p Hp%compose_in. naive_solver. }
  split_and!; [by apply Hall|apply extension_roundtrip; by apply Hall|].
  destruct (decide (hr_Runtime harness = "")) as [|Hr]; [done|]. split; [done|]. by apply harness_roundtrip.
Qed.
End roundtrip.

(** ** A concrete codec: fields in hexadecimal *)

Definition pin_of (l : option (list string)) : option ExtensionPin :=
  match l with Some [a; b; c] => Some (pin a b c) | _ => None end.
Definition enc_pin (p : ExtensionPin) : string := enc_fields [xp_Name p; xp_Source p; xp_Integrity p].
Definition dec_pins (s : string) : option (list ExtensionPin) :=
  match s with
  | String "[" r => mapM (λ x, pin_of (dec_fields x)) (split_byte ";"%char r)
  | _ => None
  end.

#[export] Instance hex_codec : ManifestCodec := {|
  mc_marshal_pins l := Ok (String "[" (join ";" (enc_pin <$> l)));
  mc_unmarshal_pins s := match dec_pins s with Some l => Ok l | None => Err "" end;
  mc_marshal_harness h := Ok (String "{" (enc_fields [hr_Runtime h; hr_Source h; hr_Integrity h]));
  mc_unmarshal_harness s :=
    match s with
    | String "{" r => match dec_fields r with
                      | Some [a; b; c] => Ok {| hr_Runtime := a; hr_Source := b; hr_Integrity := c |}
                      | _ => Err ""
                      end
    | _ => Err ""
    end;
|}.

Lemma mapM_pins l : mapM (λ x, pin_of (dec_fields x)) (enc_pin <$> l) = Some l.
Proof.
  apply mapM_Some, Forall2_fmap_l, Forall_Forall2_diag, Forall_true. intros [n s i].
  change (pin_of (dec_fields (enc_fields [n; s; i])) = Some (pin n s i)). by rewrite dec_enc_fields.
Qed.

#[export] Instance hex_codec_laws : CodecLaws.
Proof.
  split.
  - intros l Hl _. eexists. split; [done|]. split; [by intros ?%TrimSpace_empty|].
    cbn. rewrite (split_byte_join ";"%char), mapM_pins; [done| |].
    + by destruct l.
    + apply Forall_fmap, Forall_true. intros q. by apply enc_fields_free.
  - intros [r s i] _. eexists. split; [done|]. split; [by intros ?%TrimSpace_empty|].
    cbv [mc_unmarshal_harness hex_codec hr_Runtime hr_Source hr_Integrity]. by rewrite dec_enc_fields.
Qed.

#[export] Instance digits_semver : Semver := {|
  sv_IsValid v := match v with String "v" r => all_bytes (λ c, is_digit c || bool_decide (c = "."%char)) r | _ => false end;
  sv_Compare a b := if str_le a b then (if str_le b a then 0 else -1) else 1;
|}.

Definition sample_sri : string :=
  "sha512-AAAAAAAAAAAAAAAAAAAAAAAAAAAAAAAAAAAAAAAAAAAAAAAAAAAA/+==".

Lemma runtime_manifest_roundtrip_witness :
  ∃ pins h, ComposeRuntime [pin "sol-pi" "@t/sol-pi@1.2.3" sample_sri] [pin "x" "x@2.0.0" sample_sri]
      {| hr_Runtime := "pi@1.3.0"; hr_Source := "@e/pi@1.3.0"; hr_Integrity := sample_sri |} = Ok (pins, Some h)
  ∧ length pins = 2%nat
  ∧ ∃ raw, RenderExtensionManifest pins = Ok raw ∧ ParseExtensionManifest raw = Ok pins.
Proof.
  eexists _, _. split; [vm_compute; reflexivity|]. split; [reflexivity|].
  edestruct (runtime_manifest_roundtrip [pin "sol-pi" "@t/sol-pi@1.2.3" sample_sri] [pin "x" "x@2.0.0" sample_sri]
    {| hr_Runtime := "pi@1.3.0"; hr_Source := "@e/pi@1.3.0"; hr_Integrity := sample_sri |}) as (_ & Hr & _).
  - vm_compute. reflexivity.
  - repeat constructor.
  - reflexivity.
  - exact Hr.
Defined.
