(* ===== verification/Lineage.v ===== *)
(** * Session lineages ([internal/sessionstore/sessionstore.go],
      [internal/agentlineage/actor.go])

    The identity of a pull request's lineage, its directory, the actor that
    owns it and the store that reaches the actor. The sidecar's actor state is
    the class [ActorStateStore], the JSON codec of a lineage [LineageCodec].
    Files, links and mounts are not modelled. *)

From S2P Require Import Prelude GoStrings GoPath Sha256.

(** ** Identity *)

Definition repo_byte (c : ascii) : bool :=
  is_lower c || is_upper c || is_digit c || bool_decide (c = "."%char) || bool_decide (c = "-"%char).

Definition SanitizeRepo (repo : string) : string :=
  map_runes (λ c, if repo_byte c then c else "-"%char) "-"%char 0 repo.

Definition SanitizePR (pr : string) : bool :=
  if bool_decide (pr = "") || (8 <? slen pr) then false else all_bytes is_digit pr.

(** [fmt.Sprintf("%s-%s~%s", SanitizeRepo(repo), hex.EncodeToString(sum[:4]), pr)] *)
Definition repo_slug (repo : string) : string :=
  SanitizeRepo repo +:+ "-" +:+ EncodeToString (take 4 (Sum256 repo)).
Definition lineage_name (repo pr : string) : string := repo_slug repo +:+ "~" +:+ pr.

Definition LineageDir (root repo pr : string) : string := Join root (lineage_name repo pr).

Definition ErrNotAPR : string := "pr pointer is not numeric".

Definition ActorID (repo pr : string) : result string string :=
  if SanitizePR pr then Ok (lineage_name repo pr) else Err ErrNotAPR.

Definition tilde : ascii := "~"%char.
Definition ValidID (id : string) : bool :=
  match cut_last tilde id with
  | Some (String _ _, pr) => SanitizePR pr
  | _ => false
  end.

Definition LinkComponent : string := "sol-pi".
Definition ReservedStoreNames : list string := ["coverage"; "_shared"].
Definition IsReservedStoreName (name : string) : bool := existsb (λ r, bool_decide (name = r)) ReservedStoreNames.

Definition newline : ascii := "010"%char.

Definition TailBytes (s : string) (max : nat) : string :=
  if decide (String.length s ≤ max)%nat then s
  else
    let cut := str_drop (String.length s - max) s in
    match cut_first newline cut with
    | Some (_, String b r) => String b r
    | _ => cut
    end.

(** ** The actor's state *)

Record Lineage := {
  ln_Session : string;
  ln_LastHead : string;
  ln_Generation : Z;
  ln_File : string;
  ln_Carry : string;
}.

Definition zero_lineage : Lineage :=
  {| ln_Session := ""; ln_LastHead := ""; ln_Generation := 0; ln_File := ""; ln_Carry := "" |}.

Definition set_Generation (g : Z) (l : Lineage) : Lineage :=
  {| ln_Session := ln_Session l; ln_LastHead := ln_LastHead l; ln_Generation := g;
     ln_File := ln_File l; ln_Carry := ln_Carry l |}.

(** [lc_decode b] is the target of [json.Unmarshal], zero before, and its error:
    a value of another type leaves the fields decoded so far. *)
Class LineageCodec := {
  lc_encode : Lineage → string;
  lc_decode : string → Lineage * option string;
}.

Definition ActorType : string := "PRLineage".
Definition session_key : string := "session".

(** An actor's key: type, id, key. *)
Definition StateKey : Type := string * string * string.

Class ActorStateStore (W : Type) := {
  GetActorState : StateKey → M W string string;
  SaveActorState : StateKey → string → M W string unit;
}.

Record Response := { re_Status : Z; re_Body : string }.

Section lineage.
Context `{LineageCodec}.

Definition Advance (stored : string) (ok : bool) (in_ : Lineage) : result string Lineage :=
  if (ok : bool) && negb (bool_decide (stored = "")) then
    match lc_decode stored with
    | (_, Some e) => Err ("corrupt session state: " +:+ e)
    | (cur, None) => Ok (set_Generation (i64 (ln_Generation cur + 1)) in_)
    end
  else Ok (set_Generation 1 in_).

Context {W : Type} `{ActorStateStore W}.
Context (config_json : string).

Definition respond (status : Z) (body : string) : Response := {| re_Status := status; re_Body := body |}.
Definition http_NotFound : Response := respond 404 ("404 page not found" +:+ String newline "").
Definition http_Error (text : string) (status : Z) : Response := respond status (text +:+ String newline "").

(** ** The host *)

Definition host_fetch (id : string) (w : W) : Response * W :=
  let '(r, w) := GetActorState (ActorType, id, session_key) w in
  let s := match r with
           | Ok b => if decide (b = "") then zero_lineage else (lc_decode b).1
           | Err _ => zero_lineage
           end in
  (respond 200 (lc_encode s +:+ String newline ""), w).

Definition host_publish (id body : string) (w : W) : Response * W :=
  match lc_decode body with
  | (_, Some e) => (http_Error ("bad payload: " +:+ e) 400, w)
  | (in_, None) =>
      let '(r, w) := GetActorState (ActorType, id, session_key) w in
      let cur := match r with
                 | Ok b => if decide (b = "") then (zero_lineage, None) else lc_decode b
                 | Err _ => (zero_lineage, None)
                 end in
      match cur with
      | (_, Some e) => (http_Error ("corrupt session state: " +:+ e) 500, w)
      | (cur, None) =>
          let in_ := set_Generation (i64 (ln_Generation cur + 1)) in_ in
          match SaveActorState (ActorType, id, session_key) (lc_encode in_) w with
          | (Err e, w) => (http_Error e 500, w)
          | (Ok _, w) => (respond 200 ("{" +:+ String (ascii_of_nat 34) "generation" +:+ String (ascii_of_nat 34) ":"
                                      +:+ pretty (ln_Generation in_) +:+ "}"), w)
          end
      end
  end.

Definition host_invoke (id method body : string) (w : W) : Response * W :=
  if decide (method = "fetch") then host_fetch id w
  else if decide (method = "publish") then host_publish id body w
  else (http_NotFound, w).

(** [Host.ServeHTTP]. *)
Definition ServeHTTP (verb path body : string) (w : W) : Response * W :=
  if decide (verb = "GET" ∧ path = "/dapr/config") then (respond 200 config_json, w)
  else match (if decide (verb = "PUT") then strip_prefix "/actors/" path else None) with
  | Some rest =>
      match split_byte path_sep rest with
      | [type; id; m; method] =>
          if decide (type = ActorType ∧ m = "method") then
            if ValidID id then host_invoke id method body w
            else (http_Error "invalid actor id" 400, w)
          else (http_NotFound, w)
      | _ => (http_NotFound, w)
      end
  | None => (http_NotFound, w)
  end.

(** ** The store *)

(** [InvokeActor] of the client: [Do] is the exchange with the sidecar. *)
Context (Do : string → string → string → M W string Response) (BaseURL : string).

Definition invoke_url (type id method : string) : string :=
  BaseURL +:+ "/v1.0/actors/" +:+ type +:+ "/" +:+ PathEscape id +:+ "/method/" +:+ method.

Definition InvokeActor (type id method payload : string) : M W string string := λ w,
  match Do "PUT" (invoke_url type id method) payload w with
  | (Err e, w) => (Err e, w)
  | (Ok r, w) =>
      if re_Status r =? 200 then (Ok (re_Body r), w)
      else (Err ("dapr invoke-actor " +:+ type +:+ "/" +:+ id +:+ "." +:+ method +:+ ": " +:+ pretty (re_Status r)), w)
  end.

Definition Fetch (repo pr : string) : M W string Lineage := λ w,
  match ActorID repo pr with
  | Err e => (Err e, w)
  | Ok id =>
      match InvokeActor ActorType id "fetch" "" w with
      | (Err e, w) => (Err e, w)
      | (Ok raw, w) => (Ok (if decide (raw = "") then zero_lineage else (lc_decode raw).1), w)
      end
  end.

Definition Publish (repo pr : string) (in_ : Lineage) : M W string unit := λ w,
  match ActorID repo pr with
  | Err e => (Err e, w)
  | Ok id =>
      match InvokeActor ActorType id "publish" (lc_encode in_) w with
      | (Err e, w) => (Err e, w)
      | (Ok _, w) => (Ok tt, w)
      end
  end.
End lineage.

(** ** Facts *)

Lemma repo_byte_other c : c = "/"%char ∨ c = "~"%char → repo_byte c = false.
Proof. by intros [-> | ->]. Qed.

Lemma SanitizeRepo_bytes repo : all_bytes repo_byte (SanitizeRepo repo) = true.
Proof. apply map_runes_all; [|done]. intros c. by destruct (repo_byte c) eqn:E. Qed.

(** A repository already in the safe alphabet is its own fragment. *)
Lemma SanitizeRepo_id repo : all_bytes repo_byte repo = true → SanitizeRepo repo = repo.
Proof.
  intros H. unfold SanitizeRepo. rewrite map_runes_ascii.
  - rewrite <- (bytes_str_bytes repo) at 2. f_equal. revert H. induction repo as [|c r IH]; [done|].
    cbn. by intros [-> ->%IH]%andb_true_iff.
  - revert H. induction repo as [|c r IH]; [done|]. cbn. intros [Hc Hr]%andb_true_iff.
    rewrite IH, andb_true_r by done. by destruct c as [[] [] [] [] [] [] [] []].
Qed.

Lemma SanitizePR_spec pr :
  SanitizePR pr = true ↔ pr ≠ "" ∧ slen pr ≤ 8 ∧ all_bytes is_digit pr = true.
Proof.
  unfold SanitizePR. destruct (bool_decide (pr = "")) eqn:E; cbn.
  - apply bool_decide_eq_true in E as ->. naive_solver.
  - apply bool_decide_eq_false in E. destruct (Z.ltb_spec 8 (slen pr)); naive_solver lia.
Qed.

(** The alphabet of lineage names, the separator apart. *)
Definition slug_byte (c : ascii) : bool := repo_byte c || is_hex c.

Lemma repo_slug_bytes repo : all_bytes repo_byte (repo_slug repo) = true.
Proof.
  unfold repo_slug. rewrite !all_bytes_app, SanitizeRepo_bytes. cbn.
  assert (∀ s, all_bytes is_hex s = true → all_bytes repo_byte s = true) as H.
  { induction s as [|c s IH]; [done|]. cbn. intros [Hc Hs]%andb_true_iff. rewrite IH by done.
    destruct c as [[] [] [] [] [] [] [] []]; done. }
  by apply H, EncodeToString_hex.
Qed.

Lemma repo_slug_nonempty repo : repo_slug repo ≠ "".
Proof. unfold repo_slug. by destruct (SanitizeRepo repo). Qed.

Lemma digits_free pr c : SanitizePR pr = true → is_digit c = false → contains_byte pr c = false.
Proof. intros (_ & _ & H)%SanitizePR_spec ?. by eapply all_bytes_free. Qed.

Lemma lineage_name_plain repo pr : SanitizePR pr = true → plain (lineage_name repo pr).
Proof.
  intros Hpr. unfold lineage_name.
  assert (contains_byte (repo_slug repo +:+ "~" +:+ pr) tilde = true) as Ht.
  { rewrite !contains_byte_app. by rewrite orb_true_r. }
  unfold plain. split_and!; try (intros E; rewrite E in Ht; discriminate).
  rewrite !contains_byte_app. rewrite (all_bytes_free repo_byte) by (apply repo_slug_bytes || done).
  by rewrite (digits_free pr).
Qed.

(** A lineage lives in one directory directly under the root, whatever the
    repository's name and whatever the pull request's pointer: a pointer that
    is not a short number gets no identity at all. *)
Theorem LineageDir_contained root repo pr :
  root ≠ "" →
  match ActorID repo pr with
  | Ok id => IsAbs (LineageDir root repo pr) = IsAbs root
             ∧ components (LineageDir root repo pr) = components root ++ [id]
             ∧ ValidID id = true ∧ PathEscape id = id
  | Err e => e = ErrNotAPR ∧ ¬ (pr ≠ "" ∧ slen pr ≤ 8 ∧ all_bytes is_digit pr = true)
  end.
Proof.
  intros Hr. unfold ActorID. destruct (SanitizePR pr) eqn:Hpr.
  - destruct (Join_child root (lineage_name repo pr)) as [Ha Hc]; [done|by apply lineage_name_plain|].
    split_and!; [done..| |].
    + unfold ValidID, lineage_name. change ("~" +:+ pr) with (String tilde pr).
      rewrite cut_last_app by by apply digits_free.
      pose proof (repo_slug_nonempty repo). by destruct (repo_slug repo).
    + assert (∀ s, all_bytes path_safe s = true → PathEscape s = s) as He.
      { induction s as [|c s IH]; [done|]. cbn. intros [-> ->%IH]%andb_true_iff. done. }
      apply He. unfold lineage_name. rewrite !all_bytes_app.
      assert (∀ p s, (∀ c, p c = true → path_safe c = true) → all_bytes p s = true → all_bytes path_safe s = true) as Hw.
      { intros p s Hp. induction s as [|c s IH]; [done|]. cbn. intros [Hp1%Hp ->%IH]%andb_true_iff. by rewrite Hp1. }
      rewrite (Hw repo_byte) by (try apply repo_slug_bytes; by intros [[] [] [] [] [] [] [] []]).
      rewrite (Hw is_digit pr); [done|by intros [[] [] [] [] [] [] [] []]|].
      by apply SanitizePR_spec in Hpr as (_ & _ & ?).
  - split; [done|]. rewrite <- SanitizePR_spec. congruence.
Qed.

Lemma LineageDir_contained_witness :
  components (LineageDir "/sessions" "../../etc/passwd" "7") = ["sessions"; "..-..-etc-passwd-3754d6cb~7"].
Proof.
  pose proof (LineageDir_contained "/sessions" "../../etc/passwd" "7" ltac:(discriminate)) as H.
  vm_compute in H. vm_compute. apply H.
Defined.

(** Two pull requests share an identity only if their numbers agree and their
    repositories agree on the fragment and on four bytes of the digest. *)
Lemma ActorID_inj repo pr repo' pr' id :
  ActorID repo pr = Ok id → ActorID repo' pr' = Ok id → pr = pr' ∧ repo_slug repo = repo_slug repo'.
Proof.
  unfold ActorID. destruct (SanitizePR pr) eqn:H1; [|done]. destruct (SanitizePR pr') eqn:H2; [|done].
  intros [= <-] [= E]. apply (f_equal (cut_last tilde)) in E. unfold lineage_name in E.
  change ("~" +:+ pr) with (String tilde pr) in E. change ("~" +:+ pr') with (String tilde pr') in E.
  rewrite !cut_last_app in E by by apply digits_free. by injection E as -> ->.
Qed.

(** ** Publishing and fetching *)

Definition text_lineage (l : Lineage) : bool :=
  valid_utf8 (ln_Session l) && valid_utf8 (ln_LastHead l) && valid_utf8 (ln_File l) && valid_utf8 (ln_Carry l)
  && (min_int64 <=? ln_Generation l) && (ln_Generation l <=? max_int64).

(** [encoding/json] decodes what it encoded, with or without the newline of an
    [Encoder], if the strings are valid UTF-8. *)
Class LineageCodecLaws `{LineageCodec} : Prop := {
  lc_some l : lc_encode l ≠ "";
  lc_trip l : text_lineage l = true → lc_decode (lc_encode l) = (l, None);
  lc_trip_line l : text_lineage l = true → lc_decode (lc_encode l +:+ String newline "") = (l, None);
}.

(** The sidecar's state store: [view] is what each key holds. A failed save may
    have saved. *)
Class StateLaws (W : Type) `{ActorStateStore W} := {
  view : W → StateKey → string;
  get_law k (w : W) r w' : GetActorState k w = (r, w') →
    (∀ k', view w' k' = view w k') ∧ ∀ b, r = Ok b → b = view w k;
  save_law k v (w : W) r w' : SaveActorState k v w = (r, w') →
    (∀ k', k' ≠ k → view w' k' = view w k') ∧ (r = Ok tt → view w' k = v);
}.

Section publish.
Context `{!LineageCodec} `{!LineageCodecLaws} {W : Type} `{!ActorStateStore W} `{!StateLaws W}.
Context (config_json : string) (Do : string → string → string → M W string Response) (BaseURL : string).

(** Dapr routes a call to the app that hosts the type; a call without an answer
    may have been made. *)
Definition routes : Prop := ∀ id m p (w : W) r w',
  PathEscape id = id → Do "PUT" (invoke_url BaseURL ActorType id m) p w = (r, w') →
  match r with
  | Ok resp => ServeHTTP config_json "PUT" ("/actors/" +:+ ActorType +:+ "/" +:+ id +:+ "/method/" +:+ m) p w
               = (resp, w')
  | Err _ => w' = w ∨ ∃ resp,
      ServeHTTP config_json "PUT" ("/actors/" +:+ ActorType +:+ "/" +:+ id +:+ "/method/" +:+ m) p w = (resp, w')
  end.

Definition state_key (id : string) : StateKey := (ActorType, id, session_key).

Lemma serve_actor id m p (w : W) :
  ValidID id = true → contains_byte id path_sep = false → contains_byte m path_sep = false →
  ServeHTTP config_json "PUT" ("/actors/" +:+ ActorType +:+ "/" +:+ id +:+ "/method/" +:+ m) p w
  = host_invoke id m p w.
Proof.
  intros Hv Hid Hm. unfold ServeHTTP. rewrite decide_False by by intros [? _].
  rewrite decide_True by done.
  change ("/actors/" +:+ ActorType +:+ "/" +:+ id +:+ "/method/" +:+ m)
    with ("/actors/" +:+ (ActorType +:+ String path_sep (id +:+ String path_sep ("method" +:+ String path_sep m)))).
  rewrite strip_prefix_app, !split_byte_app by done. rewrite (split_byte_none _ m) by done.
  rewrite decide_True by done. by rewrite Hv.
Qed.

Lemma id_of_ActorID repo pr id :
  ActorID repo pr = Ok id →
  ValidID id = true ∧ contains_byte id path_sep = false ∧ PathEscape id = id.
Proof.
  intros E. pose proof (LineageDir_contained "/" repo pr ltac:(done)) as HL. rewrite E in HL.
  destruct HL as (_ & _ & Hv & He). split_and!; [done| |done].
  unfold ActorID in E. destruct (SanitizePR pr) eqn:Hpr; [|done]. injection E as <-.
  by apply lineage_name_plain.
Qed.

Definition generation_at (id : string) (w : W) : Z :=
  if decide (view w (state_key id) = "") then 0 else ln_Generation (lc_decode (view w (state_key id))).1.

Lemma host_publish_law id body (w : W) resp w' :
  host_publish id body w = (resp, w') →
  (∀ k, k ≠ state_key id → view w' k = view w k)
  ∧ (re_Status resp = 200 → ∃ in_ g,
       lc_decode body = (in_, None) ∧ view w' (state_key id) = lc_encode (set_Generation g in_)
       ∧ (g = i64 (generation_at id w + 1) ∨ g = 1 ∧ ∃ e w1, GetActorState (state_key id) w = (Err e, w1))).
Proof.
  unfold host_publish. destruct (lc_decode body) as [in_ [e|]] eqn:Hb; [by intros [= <- <-]|].
  destruct (GetActorState (ActorType, id, session_key) w) as [r w1] eqn:Hg.
  destruct (get_law _ _ _ _ Hg) as [Hk Hr].
  set (cur := match r with Ok b => _ | Err _ => _ end).
  destruct cur as [cur' [e|]] eqn:Hc; [intros [= <- <-]; split; [done|by cbn]|].
  destruct (SaveActorState _ _ w1) as [[[]|e] w2] eqn:Hs; intros [= <- <-];
    destruct (save_law _ _ _ _ _ Hs) as [Ho Hv].
  - split; [intros k Hne; by rewrite Ho, Hk|]. intros _. eexists in_, _. split; [done|].
    split; [by apply Hv|]. unfold generation_at, state_key. subst cur. destruct r as [b|e].
    + left. rewrite <- (Hr b eq_refl). destruct (decide (b = "")); [by injection Hc as <-|by rewrite Hc].
    + right. simplify_eq. cbn. split; [by vm_compute|]. by eexists _, _.
  - split; [intros k Hne; by rewrite Ho, Hk|]. by cbn.
Qed.

Lemma Publish_law repo pr l (w w' : W) :
  routes → Publish Do BaseURL repo pr l w = (Ok tt, w') → text_lineage l = true →
  ∃ id g, ActorID repo pr = Ok id
  ∧ (∀ k, k ≠ state_key id → view w' k = view w k)
  ∧ view w' (state_key id) = lc_encode (set_Generation g l)
  ∧ (g = i64 (generation_at id w + 1) ∨ g = 1 ∧ ∃ e w1, GetActorState (state_key id) w = (Err e, w1)).
Proof.
  intros Hroute HP Ht. unfold Publish in HP. destruct (ActorID repo pr) as [id|e] eqn:Hid; [|done].
  destruct (id_of_ActorID _ _ _ Hid) as (Hv & Hs & He). unfold InvokeActor in HP.
  destruct (Do "PUT" _ _ w) as [[resp|e] w1] eqn:Hd; [|done]. apply Hroute in Hd; [|done].
  destruct (re_Status resp =? 200) eqn:H200; [|done]. injection HP as <-.
  rewrite serve_actor in Hd by done.
  change (host_publish id (lc_encode l) w = (resp, w1)) in Hd.
  apply host_publish_law in Hd as [Ho Hok]. apply Z.eqb_eq in H200.
  destruct (Hok H200) as (in_ & g & Hdec & Hw & Hg). rewrite lc_trip in Hdec by done. injection Hdec as <-.
  by exists id, g.
Qed.

(** C29. Publishing and fetching a lineage: a publish that succeeds stores the
    lineage under its pull request's identity, one generation after the stored
    one, touches no other actor's state, and is what the next fetch of that
    pull request answers, provided the actor's state can be read. *)
Theorem publish_fetch_roundtrip repo pr l (w w1 w2 : W) l' :
  routes → (∀ k, is_ok (GetActorState k w).1 = true ∧ is_ok (GetActorState k w1).1 = true) →
  text_lineage l = true →
  Publish Do BaseURL repo pr l w = (Ok tt, w1) → Fetch Do BaseURL repo pr w1 = (Ok l', w2) →
  ∃ id, ActorID repo pr = Ok id
  ∧ l' = set_Generation (i64 (generation_at id w + 1)) l
  ∧ view w1 (state_key id) = lc_encode l'
  ∧ (∀ k, k ≠ state_key id → view w1 k = view w k)
  ∧ (∀ k, view w2 k = view w1 k).
Proof.
  intros Hroute Hread Ht HP HF.
  destruct (Publish_law _ _ _ _ _ Hroute HP Ht) as (id & g & Hid & Ho & Hw & Hg).
  assert (g = i64 (generation_at id w + 1)) as ->.
  { destruct Hg as [?|(_ & e & w' & Hg)]; [done|]. destruct (Hread (state_key id)) as [Hb _]. by rewrite Hg in Hb. }
  exists id. destruct (id_of_ActorID _ _ _ Hid) as (Hv & Hs & He).
  unfold Fetch, InvokeActor in HF. rewrite Hid in HF.
  destruct (Do "PUT" _ _ w1) as [[resp|e] w3] eqn:Hd; [|done]. apply Hroute in Hd; [|done].
  destruct (re_Status resp =? 200); [|done]. rewrite serve_actor in Hd by done.
  change (host_invoke id "fetch" "" w1) with (host_fetch id w1) in Hd. unfold host_fetch in Hd. destruct (Hread (state_key id)) as [_ Hok].
  destruct (GetActorState (state_key id) w1) as [[b|e] w4] eqn:Hb; [|done]. clear Hok.
  change (ActorType, id, session_key) with (state_key id) in Hd.
  rewrite Hb in Hd. injection Hd as <- <-. destruct (get_law _ _ _ _ Hb) as [Hk Hbv].
  rewrite (Hbv b eq_refl), Hw in HF. cbn [re_Body respond] in HF.
  rewrite (decide_False (P := lc_encode _ = "")) in HF by apply lc_some.
  set (l1 := set_Generation _ l) in *.
  assert (text_lineage l1 = true) as Ht1.
  { unfold text_lineage in *. subst l1. cbn. rewrite !andb_true_iff, !Z.leb_le in *.
    destruct Ht as [[[[[??]?]?]?]?]. pose proof (i64_range (generation_at id w + 1)). naive_solver. }
  rewrite (lc_trip l1) in HF by done. cbn [fst] in HF. rewrite lc_trip_line in HF by done. cbn [fst] in HF.
  rewrite decide_False in HF.
  2:{ intros E. apply (f_equal String.length) in E. rewrite length_app_str in E. cbn in E. lia. }
  injection HF as <- <-. by split_and!.
Qed.
End publish.

(** ** A state store *)

Record Actors := { ac_state : gmap StateKey string; ac_read_fails : bool }.

#[export] Instance actors_store : ActorStateStore Actors := {|
  GetActorState k w := (if ac_read_fails w then Err "dapr get-actor-state: 500"
                        else Ok (default "" (ac_state w !! k)), w);
  SaveActorState k v w := (Ok tt, {| ac_state := <[k := v]> (ac_state w); ac_read_fails := ac_read_fails w |});
|}.

#[export] Instance actors_laws : StateLaws Actors.
Proof.
  refine {| view w k := default "" (ac_state w !! k) |}.
  - intros k w r w' [= <- <-]. split; [done|]. intros b. destruct (ac_read_fails w); [done|]. by intros [= <-].
  - intros k v w r w' [= <- <-]. cbn. split; [|intros _; by rewrite lookup_insert_eq].
    intros k' Hne. by rewrite lookup_insert_ne.
Defined.

Definition generation_text (g : Z) : string := pretty (Z.to_N (g - min_int64)).

#[export] Instance hex_lineage : LineageCodec := {|
  lc_encode l := String "[" (enc_fields [ln_Session l; ln_LastHead l; generation_text (ln_Generation l); ln_File l; ln_Carry l]);
  lc_decode s :=
    match s with
    | String "[" r =>
        match dec_fields (match cut_first newline r with Some (a, _) => a | None => r end) with
        | Some [s; h; g; f; c] =>
            match digits_val 0 g with
            | Some n => ({| ln_Session := s; ln_LastHead := h; ln_Generation := n + min_int64; ln_File := f; ln_Carry := c |}, None)
            | None => (zero_lineage, Some "bad generation")
            end
        | _ => (zero_lineage, Some "bad fields")
        end
    | _ => (zero_lineage, Some "bad start")
    end;
|}.


#[export] Instance hex_lineage_laws : LineageCodecLaws.
Proof.
  assert (∀ l, text_lineage l = true →
    match digits_val 0 (generation_text (ln_Generation l)) with
    | Some n => ({| ln_Session := ln_Session l; ln_LastHead := ln_LastHead l; ln_Generation := n + min_int64;
                    ln_File := ln_File l; ln_Carry := ln_Carry l |}, @None string)
    | None => (zero_lineage, Some "bad generation")
    end = (l, None)) as Hg.
  { intros [s h g f c]. unfold text_lineage, generation_text. cbn. rewrite !andb_true_iff, !Z.leb_le.
    intros [[_ Hlo] _]. rewrite digits_val_pretty_N. do 2 f_equal. lia. }
  split; [done|..]; intros l Hl; cbv [lc_encode lc_decode hex_lineage]; rewrite ?app_str_cons; cbv iota beta.
  - rewrite cut_first_free by by apply enc_fields_free. rewrite dec_enc_fields by done. by apply Hg.
  - rewrite cut_first_app by by apply enc_fields_free. rewrite dec_enc_fields by done. by apply Hg.
Qed.

(** The sidecar hands every call to the host. *)
Definition actor_url : string := "/v1.0/actors/".
Definition direct (verb url body : string) : M Actors string Response := λ w,
  match strip_prefix actor_url url with
  | Some r => let '(resp, w) := ServeHTTP "" verb ("/actors/" +:+ r) body w in (Ok resp, w)
  | None => (Err "no route", w)
  end.

Lemma direct_routes : routes "" direct "".
Proof.
  intros id m p w r w' He. unfold direct, invoke_url. rewrite He.
  rewrite app_str_nil_l. unfold actor_url. rewrite strip_prefix_app.
  destruct (ServeHTTP _ _ _ p w) as [resp w1] eqn:E. by intros [= <- <-].
Qed.

Definition first_round : Lineage :=
  {| ln_Session := ""; ln_LastHead := "deadbeef"; ln_Generation := 0; ln_File := ""; ln_Carry := "turns: 3" |}.
Definition no_rounds : Actors := {| ac_state := ∅; ac_read_fails := false |}.
Definition publish_first (w : Actors) : result string unit * Actors := Publish direct "" "h/o/n" "7" first_round w.

Lemma publish_fetch_roundtrip_witness :
  ∃ id, ActorID "h/o/n" "7" = Ok id
  ∧ Fetch direct "" "h/o/n" "7" (publish_first (publish_first no_rounds).2).2
    = (Ok (set_Generation 2 first_round), (publish_first (publish_first no_rounds).2).2).
Proof.
  destruct (publish_fetch_roundtrip "" direct "" "h/o/n" "7" first_round (publish_first no_rounds).2
      (publish_first (publish_first no_rounds).2).2 (publish_first (publish_first no_rounds).2).2
      (set_Generation 2 first_round)) as (id & Hid & _).
  - exact direct_routes.
  - done.
  - vm_compute. reflexivity.
  - vm_compute. reflexivity.
  - vm_compute. reflexivity.
  - exists id. split; [exact Hid|]. vm_compute. reflexivity.
Defined.

(** A publish whose read of the state fails starts the count again, over what
    was stored. *)
Lemma failed_read_resets_generation :
  let w := (publish_first (publish_first no_rounds).2).2 in
  let flaky := {| ac_state := ac_state w; ac_read_fails := true |} in
  let w' := (publish_first flaky).2 in
  (publish_first flaky).1 = Ok tt
  ∧ match ActorID "h/o/n" "7" with
    | Ok id => generation_at id w = 2 ∧ generation_at id w' = 1
    | Err _ => False
    end.
Proof. vm_compute. done. Qed.
