(* ===== verification/ReviewReady.v ===== *)
(** * The Review-Ready Gate's configuration and memo

    [reviewready.go], [actions.go], [gates.go] and the owner label of
    [labels.go]: the duration defaults that keep a dispatched review alive for
    its whole run bound, the standing-verdict memo, the wake vocabulary, the
    gate-to-objective map and the label stamp of the write path. *)

From S2P Require Import Prelude GoTime Api.

(** ** Bounds *)

Definition OneShotRunBound : Z := 30 * Minute.
Definition MaxRunBound : Z := 2 * Hour.
Definition MinDispatchMargin : Z := 5 * Minute.
Definition MaxDeadDispatchesPerHead : Z := 3.
Definition MaxDispatchLostReleases : Z := 3.
Definition MaxReviewRefusals : nat := 16.

(** ** Release reasons *)

Definition ReleaseReasonDispatchLost : string := "dispatch-lost".
Definition ReleaseReasonHorizon : string := "horizon".
Definition ReleaseReasonDispatchTimeout : string := "dispatch-timeout".
Definition ReleaseReasonSuperseded : string := "superseded".
Definition ReleaseReasonPRClosed : string := "pr-closed".
Definition ReleaseReasonPointerInvalid : string := "pointer-invalid".
Definition ReleaseReasonReaped : string := "reaped".

Definition IsCancellationRelease (reason : string) : bool :=
  bool_decide (reason = ReleaseReasonSuperseded) || bool_decide (reason = ReleaseReasonPRClosed).

(** ** Effective durations (the receivers are pointers; nil takes the default) *)

Definition RunBoundDuration (r : option ReviewReadySpec) : Z :=
  match r with
  | None => OneShotRunBound
  | Some r =>
      if decide (rs_RunBound r = "") then OneShotRunBound
      else
        match ParseDuration (rs_RunBound r) with
        | Some d => if (0 <? d) && (d <=? MaxRunBound) then d else OneShotRunBound
        | None => OneShotRunBound
        end
  end.

Definition EffectiveMaxConcurrent (r : option ReviewReadySpec) (fleetDefault : Z) : Z :=
  match r with
  | None => fleetDefault
  | Some r => if rs_MaxConcurrent r <=? 0 then fleetDefault else rs_MaxConcurrent r
  end.

Definition HorizonDuration (r : option ReviewReadySpec) : Z :=
  match r with
  | None => 6 * Hour
  | Some r =>
      if decide (rs_Horizon r = "") then 6 * Hour
      else
        match ParseDuration (rs_Horizon r) with
        | Some d => if 0 <? d then d else 6 * Hour
        | None => 6 * Hour
        end
  end.

Definition DispatchTimeoutDuration (r : option ReviewReadySpec) : Z :=
  let bound := RunBoundDuration r in
  let def := bound + 15 * Minute in
  match r with
  | None => def
  | Some r =>
      if decide (rs_DispatchTimeout r = "") then def
      else
        match ParseDuration (rs_DispatchTimeout r) with
        | Some d => if bound + MinDispatchMargin <=? d then d else def
        | None => def
        end
  end.

Definition EffectiveLabel (r : option ReviewReadySpec) : string :=
  match r with
  | None => "needs-review"
  | Some r => if decide (rs_Label r = "") then "needs-review" else rs_Label r
  end.

(** ** The standing-verdict memo *)

Record ReviewRefusal := {
  rf_Repo : string;
  rf_PR : Z;
  rf_HeadSHA : string;
  rf_Reason : string;
  rf_At : option Z;
  rf_VerdictURL : string;
  rf_Emitted : bool;
  rf_HostNotified : bool;
}.

Definition rf_key (r : ReviewRefusal) : string * Z * string := (rf_Repo r, rf_PR r, rf_HeadSHA r).

Definition set_HostNotified (b : bool) (r : ReviewRefusal) : ReviewRefusal :=
  {| rf_Repo := rf_Repo r; rf_PR := rf_PR r; rf_HeadSHA := rf_HeadSHA r;
     rf_Reason := rf_Reason r; rf_At := rf_At r; rf_VerdictURL := rf_VerdictURL r;
     rf_Emitted := rf_Emitted r; rf_HostNotified := b |}.

(** The scan for the first entry of the same (repo, pr, head): the entries
    before it, the entry and those after. *)
Fixpoint split_refusal (r : ReviewRefusal) (l : list ReviewRefusal)
    : option (list ReviewRefusal * ReviewRefusal * list ReviewRefusal) :=
  match l with
  | [] => None
  | e :: l =>
      if decide (rf_key e = rf_key r) then Some ([], e, l)
      else match split_refusal r l with
           | Some (before, x, after) => Some (e :: before, x, after)
           | None => None
           end
  end.

Definition RecordReviewRefusal (l : list ReviewRefusal) (r : ReviewRefusal) : list ReviewRefusal :=
  match split_refusal r l with
  | Some (before, e, after) =>
      let r := if decide (rf_VerdictURL e = rf_VerdictURL r)
               then set_HostNotified (rf_HostNotified e) r else r in
      take MaxReviewRefusals (r :: before ++ after)
  | None => take MaxReviewRefusals (r :: l)
  end.

Fixpoint ReviewRefusalFor (l : list ReviewRefusal) (repo : string) (pr : Z) : option ReviewRefusal :=
  match l with
  | [] => None
  | e :: l =>
      if bool_decide (rf_Repo e = repo) && (rf_PR e =? pr) then Some e
      else ReviewRefusalFor l repo pr
  end.

(** SHAs are ASCII, where [strings.ToLower] is the byte map [lower_ascii]. *)
Definition Matches (r : ReviewRefusal) (headSHA : string) : bool :=
  if bool_decide (rf_HeadSHA r = "") || bool_decide (headSHA = "") then false
  else
    let memo := lower_ascii (rf_HeadSHA r) in
    let head := lower_ascii headSHA in
    if slen memo <=? slen head then has_prefix head memo else has_prefix memo head.

(** ** Wake actions ([actions.go]) *)

Definition PullRequestWakeActions : list string :=
  [ "labeled"; "unlabeled"; "synchronize"; "opened"; "reopened"; "closed"; "ready_for_review";
    "label_updated"; "synchronized"; "review_requested"; "review_request_removed"; "ci_completed" ].

Definition CIWakeAction : string := "ci_completed".

Definition deriveRequestShaped : list string :=
  filter (λ a, a ∈ ["labeled"; "unlabeled"; "label_updated"; "review_requested";
                    "review_request_removed"]) PullRequestWakeActions.

Definition RequestShaped (action : string) : bool := bool_decide (action ∈ deriveRequestShaped).

(** ** Gate plugin to objective kind ([gates.go]) *)

Definition GateObjectiveKinds : gmap string string :=
  list_to_map
    [ ("wiki-lint", ObjectiveKindDocumentationSync);
      ("pr-review", ObjectiveKindPRReview);
      ("fork-maintenance", ObjectiveKindForkSync);
      ("noop", ObjectiveKindDocumentationSync) ].

Definition ObjectiveKindForGate (gateName : string) : string :=
  match GateObjectiveKinds !! gateName with
  | Some kind => kind
  | None => ObjectiveKindDocumentationSync
  end.

(** ** The owner label ([labels.go]) *)

Definition maxOwnerLabelLen : Z := 63.

Definition is_alnum (c : ascii) : bool := is_digit c || is_upper c || is_lower c.
Definition is_label_mid (c : ascii) : bool :=
  is_alnum c || bool_decide (c = "."%char) || bool_decide (c = "_"%char)
  || bool_decide (c = "-"%char).

(** [^[A-Za-z0-9]([A-Za-z0-9._-]*[A-Za-z0-9])?$] *)
Definition ownerLabelValueRe (s : string) : bool :=
  match s with
  | "" => false
  | String c rest =>
      is_alnum c &&
      match String.rev rest with
      | "" => true
      | String l mid => is_alnum l && all_bytes is_label_mid mid
      end
  end.

Definition StampOwnerLabel (labels : gmap string string) (owner : string)
    : result string (gmap string string) :=
  if bool_decide (owner = "") || (maxOwnerLabelLen <? slen owner) || negb (ownerLabelValueRe owner)
  then Err "invalid owner identity: not a valid label value (alphanumerics, '.', '_' and '-', max 63 chars)"
  else Ok (<[OwnerLabel := owner]> labels).

(** ** Facts about the durations *)

Lemma RunBoundDuration_range r : 0 < RunBoundDuration r ≤ MaxRunBound.
Proof.
  unfold RunBoundDuration, OneShotRunBound, MaxRunBound, Minute, Hour.
  destruct r as [r|]; [|lia]. case_decide; [lia|].
  destruct (ParseDuration _) as [d|]; [|lia].
  destruct (0 <? d) eqn:?; simpl; [|lia]. destruct (d <=? _) eqn:?; lia.
Qed.

Lemma HorizonDuration_pos r : 0 < HorizonDuration r ≤ max_int64.
Proof.
  unfold HorizonDuration, Hour, max_int64. destruct r as [r|]; [|lia]. case_decide; [lia|].
  destruct (ParseDuration _) as [d|] eqn:Hp; [|lia].
  apply ParseDuration_range in Hp. unfold max_int64 in Hp. destruct (0 <? d) eqn:?; lia.
Qed.

(** Exactly-once dispatch: whatever a workflow configures, the timeout
    after which the gate presumes a dispatched review dead leaves at least
    [MinDispatchMargin] over the wall clock every run is bounded by, so no
    re-dispatch can overlap a live run; and the wall itself is positive and
    never above [MaxRunBound]. *)
Theorem dispatch_timeout_outlives_run r :
  RunBoundDuration r + MinDispatchMargin ≤ DispatchTimeoutDuration r
  ∧ 0 < RunBoundDuration r ≤ MaxRunBound.
Proof.
  split; [|apply RunBoundDuration_range].
  unfold DispatchTimeoutDuration, MinDispatchMargin, Minute.
  destruct r as [r|]; [|lia]. case_decide; [lia|].
  destruct (ParseDuration _) as [d|]; [|lia].
  destruct (_ <=? d) eqn:?; lia.
Qed.

(** ** Facts about the memo *)

Lemma split_refusal_Some r l before e after :
  split_refusal r l = Some (before, e, after) →
  l = before ++ e :: after ∧ rf_key e = rf_key r ∧ Forall (λ x, rf_key x ≠ rf_key r) before.
Proof.
  revert before. induction l as [|x l IH]; intros before; simpl; [done|].
  case_decide as Hk; [intros [= <- <- <-]; done|].
  destruct (split_refusal r l) as [[[b y] a]|]; [|done].
  intros [= <- <- <-]. destruct (IH b eq_refl) as (->&?&?). simpl. auto.
Qed.

Lemma split_refusal_None r l : split_refusal r l = None → Forall (λ x, rf_key x ≠ rf_key r) l.
Proof.
  induction l as [|x l IH]; simpl; [done|]. case_decide; [done|].
  destruct (split_refusal r l) as [[[??]?]|]; [done|]. auto.
Qed.

Lemma NoDup_fmap_take {A B} (f : A → B) n l : NoDup (f <$> l) → NoDup (f <$> take n l).
Proof. rewrite fmap_take. intros H. by eapply sublist_NoDup, sublist_take. Qed.

(** The standing-verdict memo is a bounded, duplicate-free, newest-first
    set: recording a refusal keeps at most [MaxReviewRefusals] entries and one
    per (repo, pr, head), puts the new refusal in front, loses no other entry
    that still fits, and carries the host-notified flag exactly when the same
    head is refused again with the same verdict link. *)
Theorem RecordReviewRefusal_spec l r :
  NoDup (rf_key <$> l) →
  let out := RecordReviewRefusal l r in
  (length out ≤ MaxReviewRefusals)%nat
  ∧ NoDup (rf_key <$> out)
  ∧ (∃ b, head out = Some (set_HostNotified b r)
          ∧ ((∃ e, e ∈ l ∧ rf_key e = rf_key r ∧ rf_VerdictURL e = rf_VerdictURL r
                   ∧ b = rf_HostNotified e)
             ∨ (b = rf_HostNotified r
                ∧ ∀ e, e ∈ l → rf_key e = rf_key r → rf_VerdictURL e ≠ rf_VerdictURL r)))
  ∧ (∀ e, e ∈ l → rf_key e ≠ rf_key r → (length l < MaxReviewRefusals)%nat → e ∈ out).
Proof.
  intros Hnd out. subst out. unfold RecordReviewRefusal.
  assert (r = set_HostNotified (rf_HostNotified r) r) as Hself by by destruct r.
  destruct (split_refusal r l) as [[[before e] after]|] eqn:Hs.
  - apply split_refusal_Some in Hs as (->&Hek&Hbef).
    rewrite fmap_app, fmap_cons in Hnd.
    apply NoDup_app in Hnd as (Hb&Hdisj&[Hea Ha]%NoDup_cons).
    set (r' := if decide _ then _ else r).
    assert (rf_key r' = rf_key r) as Hr' by (unfold r'; by case_decide).
    assert (NoDup (rf_key <$> r' :: before ++ after)) as Hnd'.
    { rewrite fmap_cons, fmap_app, Hr', <- Hek. apply NoDup_cons. split.
      - rewrite elem_of_app. intros [Hin|?]; [|done]. by apply (Hdisj _ Hin), elem_of_cons; left.
      - apply NoDup_app. split_and!; [done| |done].
        intros k Hk Hk'. by apply (Hdisj k Hk), elem_of_cons; right. }
    split_and!.
    + rewrite length_take. lia.
    + by apply NoDup_fmap_take.
    + unfold r'. case_decide as Hv; simpl.
      * eexists. split; [done|]. left. exists e. split_and!; [set_solver|done..].
      * exists (rf_HostNotified r). rewrite <- Hself. split; [done|]. right. split; [done|].
        intros x [Hx|[->|Hx]%elem_of_cons]%elem_of_app Hk; [|done|].
        { rewrite Forall_forall in Hbef. by destruct (Hbef x). }
        { destruct Hea. rewrite Hek, <- Hk. by apply list_elem_of_fmap_2. }
    + intros x Hx Hk Hlt. rewrite take_ge; [|rewrite length_app in *; simpl in *; rewrite length_app; lia].
      assert (x ≠ e) by congruence. set_solver.
  - pose proof (split_refusal_None _ _ Hs) as Hall. rewrite Forall_forall in Hall. split_and!.
    + rewrite length_take. lia.
    + apply NoDup_fmap_take. rewrite fmap_cons. apply NoDup_cons. split; [|done].
      intros (x&Hk&Hx)%list_elem_of_fmap. by apply (Hall x).
    + exists (rf_HostNotified r). rewrite <- Hself. split; [done|]. right. split; [done|].
      intros x Hx Hk. by destruct (Hall x).
    + intros x Hx Hk Hlt. rewrite take_ge by (simpl; lia). set_solver.
Qed.

Definition refusal_a : ReviewRefusal :=
  {| rf_Repo := "h/o/r"; rf_PR := 7; rf_HeadSHA := "abc"; rf_Reason := "standing"; rf_At := None;
     rf_VerdictURL := "u"; rf_Emitted := true; rf_HostNotified := true |}.

Lemma RecordReviewRefusal_spec_witness :
  NoDup (rf_key <$> [refusal_a])
  ∧ (length (RecordReviewRefusal [refusal_a] (set_HostNotified false refusal_a)) ≤ MaxReviewRefusals)%nat.
Proof.
  assert (NoDup (rf_key <$> [refusal_a])) as Hnd by (apply (bool_decide_eq_true_1 _); reflexivity).
  split; [exact Hnd|].
  exact (proj1 (RecordReviewRefusal_spec [refusal_a] (set_HostNotified false refusal_a) Hnd)).
Defined.
