(* ===== verification/ClaimTrust.v ===== *)
(** * Claim trust and promotion ([internal/claim/trust.go])

    The trust boundary ([Enforce]), the promotion of observed claims by a
    deterministic validator ([Promote]) and the glob matcher the validation
    scopes use, with the proof that its two-pointer backtracking decides the
    declarative reading of a pattern. *)

From S2P Require Import Prelude Api.

Module Glob.

Definition star_byte : ascii := "*"%char.

(** [for pi < len(pattern) && pattern[pi] == '*' { pi++ }; pi == len(pattern)] *)
Fixpoint all_stars (p : string) : bool :=
  match p with
  | "" => true
  | String d p => if decide (d = star_byte) then all_stars p else false
  end.

(** The loop. [p] and [s] are [pattern[pi:]] and [s[si:]]; [star] is
    [pattern[star+1:]] and [s[match:]] once a star was met. *)
Fixpoint glob_loop (fuel : nat) (p s : string) (star : option (string * string)) : option bool :=
  match fuel with
  | O => None
  | S fuel =>
      match s with
      | "" => Some (all_stars p)
      | String c s1 =>
          let backtrack :=
            match star with
            | Some (p', String _ s2) => glob_loop fuel p' s2 (Some (p', s2))
            | Some (p', "") => Some (all_stars p')
            | None => Some false
            end in
          match p with
          | String d p1 =>
              if decide (d = star_byte) then glob_loop fuel p1 s (Some (p1, s))
              else if decide (d = c) then glob_loop fuel p1 s1 star
              else backtrack
          | "" => backtrack
          end
      end
  end.

Definition glob_fuel (p s : string) : nat :=
  (String.length s + 2) * (String.length p + String.length s + 2).

Definition MatchGlob (pattern s : string) : bool :=
  default false (glob_loop (glob_fuel pattern s) pattern s None).

(** ** What a pattern means: ['*'] matches any run of bytes, every other byte itself *)

Inductive matches_glob : string → string → Prop :=
| mg_nil : matches_glob "" ""
| mg_skip p s : matches_glob p s → matches_glob (String star_byte p) s
| mg_take p c s :
    matches_glob (String star_byte p) s → matches_glob (String star_byte p) (String c s)
| mg_char c p s : c ≠ star_byte → matches_glob p s → matches_glob (String c p) (String c s).

Definition starless (s : string) : Prop := all_bytes (λ c, bool_decide (c ≠ star_byte)) s = true.

Lemma mg_star_iff p s :
  matches_glob (String star_byte p) s ↔ ∃ u v, s = u +:+ v ∧ matches_glob p v.
Proof.
  split.
  - intros H. remember (String star_byte p) as q eqn:Hq. revert p Hq.
    induction H as [|p' s H IH|p' c s H IH|]; intros q Hq; simplify_eq.
    + by exists "", s.
    + destruct (IH _ eq_refl) as (u&v&->&?). by exists (String c u), v.
  - intros (u&v&->&H). induction u as [|c u IH]; [by constructor|].
    rewrite app_str_cons. by constructor.
Qed.

Lemma mg_seg seg p s :
  starless seg → matches_glob (seg +:+ p) s ↔ ∃ v, s = seg +:+ v ∧ matches_glob p v.
Proof.
  revert s. induction seg as [|c seg IH]; intros s Hs.
  - rewrite app_str_nil_l. split; [by eexists; split|]. by intros (?&->&?).
  - unfold starless in *. simpl in Hs. apply andb_true_iff in Hs as [Hc Hs].
    apply bool_decide_eq_true in Hc. rewrite app_str_cons. split.
    + intros H. inversion H; subst; [done|done|].
      match goal with H : matches_glob (seg +:+ p) _ |- _ => apply (IH _ Hs) in H as (v&->&?) end.
      exists v. by rewrite app_str_cons.
    + intros (v&->&?). rewrite app_str_cons. constructor; [done|]. apply (IH _ Hs). by exists v.
Qed.

Lemma all_stars_spec p : all_stars p = true ↔ matches_glob p "".
Proof.
  induction p as [|d p IH]; simpl; [split; [constructor|done]|].
  case_decide as Hd; [subst|].
  - rewrite IH. split; [by constructor|]. by inversion 1.
  - split; [done|]. by inversion 1.
Qed.

Lemma str_app_inj_length a b c d :
  a +:+ b = c +:+ d → (String.length c ≤ String.length a)%nat → ∃ e, a = c +:+ e ∧ d = e +:+ b.
Proof.
  revert a. induction c as [|x c IH]; intros a H Hl.
  - exists a. by rewrite app_str_nil_l in *.
  - destruct a as [|y a]; simpl in Hl; [lia|].
    rewrite !app_str_cons in H. injection H as -> H.
    destruct (IH a H ltac:(lia)) as (e&->&->). exists e. by rewrite app_str_cons.
Qed.

(** The alignment the loop is trying: [seg] is the part of the pattern after
    the last star that already matched, at the start of [s']. *)
Definition aligned (p s : string) (star : option (string * string)) : Prop :=
  match star with
  | None => True
  | Some (p', s') => ∃ seg, starless seg ∧ p' = seg +:+ p ∧ s' = seg +:+ s
  end.

(** What is left to decide in a state of the loop. *)
Definition goal (p s : string) (star : option (string * string)) : Prop :=
  match star with
  | None => matches_glob p s
  | Some (p', s') => matches_glob (String star_byte p') s'
  end.

Lemma goal_star p1 s star :
  aligned (String star_byte p1) s star →
  goal (String star_byte p1) s star ↔ goal p1 s (Some (p1, s)).
Proof.
  destruct star as [[p' s']|]; simpl; [|done]. intros (seg&Hseg&->&->).
  rewrite mg_star_iff. split.
  - intros (u&v&Huv&H). apply (mg_seg _ _ _ Hseg) in H as (w&->&H).
    apply mg_star_iff in H as (u2&v2&->&H). apply mg_star_iff.
    assert (∃ e, u +:+ seg +:+ u2 = seg +:+ e ∧ s = e +:+ v2) as (e&_&->).
    { apply str_app_inj_length.
      - by rewrite !app_str_assoc, Huv.
      - rewrite !length_app_str. lia. }
    by exists e, v2.
  - intros H. exists "", (seg +:+ s). split; [done|]. apply mg_seg; [done|]. by exists s.
Qed.

Lemma goal_char d p s star :
  d ≠ star_byte → aligned (String d p) (String d s) star →
  aligned p s star ∧ (goal (String d p) (String d s) star ↔ goal p s star).
Proof.
  intros Hd. destruct star as [[p' s']|]; simpl.
  - intros (seg&Hseg&->&->). split; [|done].
    exists (seg +:+ String d ""). rewrite !app_str_assoc, !app_str_cons, !app_str_nil_l.
    split_and!; [|done..]. unfold starless in *. rewrite all_bytes_app, Hseg. simpl.
    by rewrite bool_decide_eq_true_2.
  - intros _. split; [done|]. split; [by inversion 1|by constructor].
Qed.

Lemma goal_backtrack p s p' c s2 :
  aligned p s (Some (p', String c s2)) → ¬ matches_glob p s →
  goal p s (Some (p', String c s2)) ↔ goal p' s2 (Some (p', s2)).
Proof.
  simpl. intros (seg&Hseg&->&Hs') Hno. rewrite !mg_star_iff. split.
  - intros (u&v&Huv&H). destruct u as [|c' u].
    + rewrite app_str_nil_l in Huv. subst v. rewrite Hs' in H.
      apply (mg_seg _ _ _ Hseg) in H as (w&Hw&H). by simplify_eq.
    + rewrite app_str_cons in Huv. injection Huv as -> ->. by exists u, v.
  - intros (u&v&->&H). exists (String c u), v. by rewrite app_str_cons.
Qed.

Lemma goal_end p star : aligned p "" star → goal p "" star ↔ matches_glob p "".
Proof.
  destruct star as [[p' s']|]; simpl; [|done]. intros (seg&Hseg&->&->).
  rewrite app_str_nil_r, mg_star_iff. split.
  - intros (u&v&Huv&H). apply (mg_seg _ _ _ Hseg) in H as (w&->&H).
    pose proof (f_equal String.length Huv) as Hl. rewrite !length_app_str in Hl.
    destruct w; [done|simpl in Hl; lia].
  - intros H. exists "", seg. split; [done|]. apply mg_seg; [done|]. exists "".
    by rewrite app_str_nil_r.
Qed.

(** The measure every turn of the loop decreases. *)
Definition measure (K : nat) (p s : string) (star : option (string * string)) : nat :=
  (match star with None => S (String.length s) | Some (_, s') => String.length s' end) * K
  + String.length p + String.length s.

Lemma aligned_length p s p' s' : aligned p s (Some (p', s')) →
  (String.length s ≤ String.length s' ∧ String.length p ≤ String.length p')%nat.
Proof. intros (seg&_&->&->). rewrite !length_app_str. lia. Qed.

Lemma glob_loop_correct K fuel p s star :
  (String.length p + String.length s < K)%nat →
  (∀ p' s', star = Some (p', s') → String.length p' + String.length s' < K)%nat →
  aligned p s star → (measure K p s star < fuel)%nat →
  ∃ b, glob_loop fuel p s star = Some b ∧ (b = true ↔ goal p s star).
Proof.
  revert p s star. induction fuel as [|fuel IH]; intros p s star HK HK' Hal Hfuel; [lia|].
  assert (∀ c s1, s = String c s1 → ¬ matches_glob p s →
    ∃ b, match star with
         | Some (p', String _ s2) => glob_loop fuel p' s2 (Some (p', s2))
         | Some (p', "") => Some (all_stars p')
         | None => Some false
         end = Some b ∧ (b = true ↔ goal p s star)) as Hback.
  { intros c s1 -> Hno. destruct star as [[p' s']|].
    - pose proof (aligned_length _ _ _ _ Hal) as [Hls Hlp]. simpl in Hls.
      destruct s' as [|c' s2]; [simpl in Hls; lia|]. specialize (HK' _ _ eq_refl).
      destruct (IH p' s2 (Some (p', s2))) as (b&->&Hb).
      + simpl in HK'. lia.
      + intros ?? [= <- <-]. simpl in HK'. lia.
      + exists "". by rewrite !app_str_nil_l.
      + unfold measure in *. simpl in *. lia.
      + exists b. split; [done|]. by rewrite Hb, goal_backtrack.
    - exists false. split; [done|]. simpl. by split. }
  simpl. destruct s as [|c s1].
  { exists (all_stars p). split; [done|]. by rewrite all_stars_spec, goal_end. }
  destruct p as [|d p1].
  { apply (Hback c s1); [done|]. by inversion 1. }
  case_decide as Hd; [subst d|case_decide as Hc; [subst d|]].
  - destruct (IH p1 (String c s1) (Some (p1, String c s1))) as (b&->&Hb).
    + simpl in *. lia.
    + intros ?? [= <- <-]. simpl in *. lia.
    + exists "". by rewrite !app_str_nil_l.
    + unfold measure in *. destruct star as [[p' s']|]; simpl in *; [|lia].
      apply aligned_length in Hal as [? _]. simpl in *.
      assert (S (String.length s1) * K ≤ String.length s' * K)%nat by nia. lia.
    + exists b. split; [done|]. by rewrite Hb, goal_star.
  - destruct (goal_char _ _ _ _ Hd Hal) as [Hal' Hg].
    destruct (IH p1 s1 star) as (b&->&Hb); [simpl in *; lia|done|done| |].
    + unfold measure in *. destruct star as [[p' s']|]; simpl in *; lia.
    + exists b. split; [done|]. by rewrite Hb, Hg.
  - apply (Hback c s1); [done|]. inversion 1; subst; [done|done|done].
Qed.

Lemma MatchGlob_iff p s : MatchGlob p s = true ↔ matches_glob p s.
Proof.
  unfold MatchGlob, glob_fuel.
  destruct (glob_loop_correct (String.length p + String.length s + 1)
    ((String.length s + 2) * (String.length p + String.length s + 2)) p s None)
    as (b&->&Hb); [lia|done|done| |exact Hb].
  unfold measure. nia.
Qed.

End Glob.
Import Glob.

(** ** Validation scopes *)

Record ValidationScope := { vs_ClaimTypes : list string; vs_Bindings : list string }.

Definition IsEmpty (s : ValidationScope) : bool := Nat.eqb (length (vs_ClaimTypes s)) 0.

Fixpoint contains (haystack : list string) (needle : string) : bool :=
  match haystack with
  | [] => false
  | h :: haystack => if decide (h = needle) then true else contains haystack needle
  end.

Fixpoint any_glob (pats : list string) (t : string) : bool :=
  match pats with
  | [] => false
  | pat :: pats => if MatchGlob pat t then true else any_glob pats t
  end.

Definition scope_matches (s : ValidationScope) (c : Claim) : bool :=
  if (0 <? Z.of_nat (length (vs_Bindings s))) && negb (contains (vs_Bindings s) (cl_Binding c))
  then false
  else any_glob (vs_ClaimTypes s) (cl_Type c).

Record Promotion := {
  pm_FromNodeID : string;
  pm_ClaimIndex : nat;
  pm_Claim : Claim;
  pm_ValidatedBy : string;
}.

(** ** The trust boundary *)

(** The demotion loop: the claims after it and how many it demoted. *)
Fixpoint demote_claims (cs : list Claim) : list Claim * Z :=
  match cs with
  | [] => ([], 0)
  | c :: cs =>
      let '(cs', n) := demote_claims cs in
      if decide (cl_TrustClass c = ClaimTrustValidated)
      then (set_trust ClaimTrustObserved "" c :: cs', n + 1)
      else (c :: cs', n)
  end.

Definition Enforce (deterministic : bool) (env : option NodeResultEnvelope)
    : option NodeResultEnvelope * Z :=
  match env with
  | None => (None, 0)
  | Some e =>
      if deterministic then (Some e, 0)
      else let '(cs, n) := demote_claims (ne_Claims e) in (Some (set_claims cs e), n)
  end.

(** ** Promotion *)

(** The loop over one envelope's claims, from index [i] on. *)
Fixpoint promote_claims (nodeID by_ : string) (scope : ValidationScope) (i : nat)
    (cs : list Claim) : list Claim * list Promotion :=
  match cs with
  | [] => ([], [])
  | c :: cs =>
      let '(cs', ps) := promote_claims nodeID by_ scope (S i) cs in
      if decide (cl_TrustClass c ≠ ClaimTrustObserved) then (c :: cs', ps)
      else if negb (scope_matches scope c) then (c :: cs', ps)
      else
        let c' := set_trust ClaimTrustValidated by_ c in
        (c' :: cs', {| pm_FromNodeID := nodeID; pm_ClaimIndex := i; pm_Claim := c';
                       pm_ValidatedBy := by_ |} :: ps)
  end.

Definition promote_envelope (by_ : string) (scope : ValidationScope) (nodeID : string)
    (e : NodeResultEnvelope) : NodeResultEnvelope :=
  set_claims (promote_claims nodeID by_ scope 0 (ne_Claims e)).1 e.

(** Go ranges over the map in an unspecified order; every envelope is treated
    on its own, so only the order of the returned promotions depends on it.
    Here it is the order of [map_to_list]. *)
Definition Promote (envs : gmap string NodeResultEnvelope) (by_ : string) (scope : ValidationScope)
    : gmap string NodeResultEnvelope * list Promotion :=
  if IsEmpty scope then (envs, [])
  else (map_imap (λ id e, Some (promote_envelope by_ scope id e)) envs,
        map_to_list envs ≫= λ '(id, e), (promote_claims id by_ scope 0 (ne_Claims e)).2).

Definition claim_validated (c : Claim) : bool := bool_decide (cl_TrustClass c = ClaimTrustValidated).

Fixpoint HasValidated (envs : list NodeResultEnvelope) : bool :=
  match envs with
  | [] => false
  | e :: envs => if existsb claim_validated (ne_Claims e) then true else HasValidated envs
  end.

(** ** Facts *)

Lemma contains_spec l x : contains l x = true ↔ x ∈ l.
Proof.
  induction l as [|h l IH]; simpl; [split; [done|by intros ?%elem_of_nil]|].
  rewrite elem_of_cons. case_decide; [subst; tauto|]. rewrite IH. naive_solver.
Qed.

Lemma any_glob_spec pats t :
  any_glob pats t = true ↔ ∃ pat, pat ∈ pats ∧ matches_glob pat t.
Proof.
  induction pats as [|q pats IH]; simpl; [split; [done|by intros (?&?%elem_of_nil&_)]|].
  destruct (MatchGlob q t) eqn:Hq.
  - apply MatchGlob_iff in Hq. split; [|done]. intros _. exists q. set_solver.
  - rewrite IH. split; [intros (x&?&?); exists x; set_solver|].
    intros (x&[->|?]%elem_of_cons&Hx); [|by exists x].
    apply MatchGlob_iff in Hx. congruence.
Qed.

Lemma scope_matches_spec s c :
  scope_matches s c = true ↔
  (vs_Bindings s = [] ∨ cl_Binding c ∈ vs_Bindings s)
  ∧ ∃ pat, pat ∈ vs_ClaimTypes s ∧ matches_glob pat (cl_Type c).
Proof.
  unfold scope_matches. rewrite <- any_glob_spec.
  destruct (vs_Bindings s) as [|b bs]; [simpl; naive_solver|].
  destruct (contains (b :: bs) (cl_Binding c)) eqn:Hc; simpl length.
  - apply contains_spec in Hc. rewrite andb_false_r. tauto.
  - replace (0 <? Z.of_nat (S (length bs))) with true by (symmetry; apply Z.ltb_lt; lia).
    simpl. split; [done|]. intros [[?|?%contains_spec] _]; [done|congruence].
Qed.

Lemma demote_claims_spec cs :
  let '(cs', n) := demote_claims cs in
  cs' = (λ c, if claim_validated c then set_trust ClaimTrustObserved "" c else c) <$> cs
  ∧ n = Z.of_nat (length (filter (λ c, cl_TrustClass c = ClaimTrustValidated) cs)).
Proof.
  induction cs as [|c cs IH]; [done|]. simpl.
  destruct (demote_claims cs) as [cs' n]. destruct IH as [-> ->]. unfold claim_validated.
  case_decide as Hc.
  - rewrite filter_cons_True, bool_decide_eq_true_2 by done. simpl. split; [done|]. lia.
  - rewrite filter_cons_False, bool_decide_eq_false_2 by done. done.
Qed.

Lemma promote_claims_fst id by_ scope i cs :
  (promote_claims id by_ scope i cs).1 =
  (λ c, if bool_decide (cl_TrustClass c = ClaimTrustObserved) && scope_matches scope c
        then set_trust ClaimTrustValidated by_ c else c) <$> cs.
Proof.
  revert i. induction cs as [|c cs IH]; intros i; [done|]. simpl. specialize (IH (S i)).
  destruct (promote_claims id by_ scope (S i) cs) as [cs' ps]. simpl in IH. subst cs'.
  destruct (decide (cl_TrustClass c = ClaimTrustObserved)) as [Ho|Ho].
  - rewrite decide_False by tauto. rewrite bool_decide_eq_true_2 by done. simpl.
    by destruct (scope_matches scope c).
  - rewrite decide_True by done. by rewrite bool_decide_eq_false_2.
Qed.

Lemma promote_claims_snd id by_ scope i cs p :
  p ∈ (promote_claims id by_ scope i cs).2 ↔
  ∃ j c, cs !! j = Some c ∧ cl_TrustClass c = ClaimTrustObserved ∧ scope_matches scope c = true
         ∧ p = {| pm_FromNodeID := id; pm_ClaimIndex := i + j;
                  pm_Claim := set_trust ClaimTrustValidated by_ c; pm_ValidatedBy := by_ |}.
Proof.
  revert i. induction cs as [|c cs IH]; intros i; simpl.
  { split; [by intros ?%elem_of_nil|]. by intros ([]&?&?&_). }
  specialize (IH (S i)). destruct (promote_claims id by_ scope (S i) cs) as [cs' ps]. simpl in IH.
  assert ((∃ j c0, cs !! j = Some c0 ∧ cl_TrustClass c0 = ClaimTrustObserved
            ∧ scope_matches scope c0 = true
            ∧ p = {| pm_FromNodeID := id; pm_ClaimIndex := S i + j;
                     pm_Claim := set_trust ClaimTrustValidated by_ c0; pm_ValidatedBy := by_ |})
          ↔ ∃ j c0, (c :: cs) !! S j = Some c0 ∧ cl_TrustClass c0 = ClaimTrustObserved
            ∧ scope_matches scope c0 = true
            ∧ p = {| pm_FromNodeID := id; pm_ClaimIndex := i + S j;
                     pm_Claim := set_trust ClaimTrustValidated by_ c0; pm_ValidatedBy := by_ |}) as Hsh.
  { by setoid_rewrite Nat.add_succ_r. }
  destruct (decide (cl_TrustClass c = ClaimTrustObserved)) as [Ho|Ho].
  - rewrite decide_False by tauto. destruct (scope_matches scope c) eqn:Hm; simpl.
    + rewrite elem_of_cons, IH, Hsh. split.
      * intros [->|(j&c0&?)]; [exists 0%nat, c; by rewrite Nat.add_0_r|by exists (S j), c0].
      * intros ([|j]&c0&Hl&?&?&->); [left|right; by exists j, c0].
        injection Hl as ->. by rewrite Nat.add_0_r.
    + rewrite IH, Hsh. split; [intros (j&c0&?); by exists (S j), c0|].
      intros ([|j]&c0&Hl&?&?&->); [by simplify_eq/=; congruence|by exists j, c0].
  - rewrite decide_True by done. simpl. rewrite IH, Hsh.
    split; [intros (j&c0&?); by exists (S j), c0|].
    intros ([|j]&c0&Hl&?&?&->); [by simplify_eq/=|by exists j, c0].
Qed.

Lemma Promote_lookup envs by_ scope id :
  (Promote envs by_ scope).1 !! id =
  (λ e, if IsEmpty scope then e else promote_envelope by_ scope id e) <$> envs !! id.
Proof.
  unfold Promote. destruct (IsEmpty scope); simpl.
  - by destruct (envs !! id).
  - rewrite map_lookup_imap. by destruct (envs !! id).
Qed.

Lemma HasValidated_spec envs :
  HasValidated envs = true ↔
  ∃ e c, e ∈ envs ∧ c ∈ ne_Claims e ∧ cl_TrustClass c = ClaimTrustValidated.
Proof.
  induction envs as [|e envs IH]; simpl; [split; [done|by intros (?&?&?%elem_of_nil&_)]|].
  destruct (existsb claim_validated (ne_Claims e)) eqn:Hx.
  - apply existsb_exists in Hx as (c&Hc&Hv%bool_decide_eq_true).
    split; [|done]. intros _. exists e, c. apply list_elem_of_In in Hc. set_solver.
  - rewrite IH. split; [intros (e'&c&?&?&?); exists e', c; set_solver|].
    intros (e'&c&[->|?]%elem_of_cons&Hc&Hv); [|by exists e', c].
    assert (existsb claim_validated (ne_Claims e) = true); [|congruence].
    apply existsb_exists. exists c. split; [by apply list_elem_of_In|].
    by apply bool_decide_eq_true.
Qed.

(** ** Properties *)

(** The two-pointer wildcard match always terminates within its bound and
    accepts exactly the strings the pattern denotes, where ['*'] stands for any
    run of bytes and every other byte for itself: backtracking to the latest
    star alone never misses a match. *)
Theorem MatchGlob_decides pattern s :
  (∃ b, glob_loop (glob_fuel pattern s) pattern s None = Some b ∧ MatchGlob pattern s = b)
  ∧ (MatchGlob pattern s = true ↔ matches_glob pattern s).
Proof.
  split; [|apply MatchGlob_iff]. unfold MatchGlob, glob_fuel.
  destruct (glob_loop_correct (String.length pattern + String.length s + 1)
    ((String.length s + 2) * (String.length pattern + String.length s + 2)) pattern s None)
    as (b&->&_); [lia|done|done|unfold measure; nia|]. by exists b.
Qed.

(** The trust boundary: a non-deterministic node cannot self-validate.
    After [Enforce] no claim of its envelope is validated and the demoted ones
    lose their validator; every other field of the envelope and of each claim
    is untouched, and the count is the number of claims demoted. A
    deterministic node's envelope is unchanged. *)
Theorem Enforce_boundary e :
  (∃ e' n, Enforce false (Some e) = (Some e', n)
    ∧ (∀ c, c ∈ ne_Claims e' → cl_TrustClass c ≠ ClaimTrustValidated)
    ∧ e' = set_claims (ne_Claims e') e
    ∧ Forall2 (λ c c', c' = if claim_validated c then set_trust ClaimTrustObserved "" c else c)
        (ne_Claims e) (ne_Claims e')
    ∧ n = Z.of_nat (length (filter (λ c, cl_TrustClass c = ClaimTrustValidated) (ne_Claims e))))
  ∧ Enforce true (Some e) = (Some e, 0).
Proof.
  split; [|done]. simpl. pose proof (demote_claims_spec (ne_Claims e)) as Hd.
  destruct (demote_claims (ne_Claims e)) as [cs n]. destruct Hd as [-> ->].
  eexists _, _. split; [done|]. simpl. split_and!; [|done| |done].
  - intros c (c0&->&_)%list_elem_of_fmap. unfold claim_validated.
    case_bool_decide; simpl; [by unfold ClaimTrustObserved|done].
  - by apply Forall2_fmap_r, Forall_Forall2_diag, Forall_true.
Qed.

(** Promotion is exact: for every recorded envelope, a claim is changed by
    [Promote] if and only if it was observed and matches the validator's scope,
    and then it becomes validated by that validator; nothing else of any
    envelope changes, no envelope appears or disappears, and the returned
    promotions name exactly the (node, index) pairs that changed. Promoting
    again with any validator that has the same scope changes nothing. *)
Theorem Promote_exact envs by_ scope :
  let '(envs', ps) := Promote envs by_ scope in
  let hit c := negb (IsEmpty scope) && bool_decide (cl_TrustClass c = ClaimTrustObserved)
               && scope_matches scope c in
  (∀ id, envs' !! id =
     (λ e, set_claims ((λ c, if hit c then set_trust ClaimTrustValidated by_ c else c)
                         <$> ne_Claims e) e) <$> envs !! id)
  ∧ (∀ p, p ∈ ps ↔ ∃ id e i c, envs !! id = Some e ∧ ne_Claims e !! i = Some c ∧ hit c = true
       ∧ p = {| pm_FromNodeID := id; pm_ClaimIndex := i;
                pm_Claim := set_trust ClaimTrustValidated by_ c; pm_ValidatedBy := by_ |})
  ∧ ∀ by2, (Promote envs' by2 scope).1 = envs'.
Proof.
  destruct (Promote envs by_ scope) as [envs' ps] eqn:HP. intros hit.
  assert (∀ e, e = set_claims (ne_Claims e) e) as Hid by by intros [].
  assert (∀ id e by0, (if IsEmpty scope then e else promote_envelope by0 scope id e) =
      set_claims ((λ c, if hit c then set_trust ClaimTrustValidated by0 c else c) <$> ne_Claims e) e)
    as Hpe.
  { intros id e by0. unfold hit. destruct (IsEmpty scope); simpl.
    - by rewrite list_fmap_id.
    - unfold promote_envelope. by rewrite promote_claims_fst. }
  assert (∀ id, envs' !! id =
     (λ e, set_claims ((λ c, if hit c then set_trust ClaimTrustValidated by_ c else c)
                         <$> ne_Claims e) e) <$> envs !! id) as Hlook.
  { intros id. change envs' with (envs', ps).1. rewrite <- HP, Promote_lookup.
    destruct (envs !! id); simpl; [|done]. by rewrite Hpe. }
  split_and!; [exact Hlook| |].
  - intros p. unfold Promote in HP. unfold hit. destruct (IsEmpty scope).
    + injection HP as <- <-. split; [by intros ?%elem_of_nil|]. by intros (?&?&?&?&_&_&?&_).
    + injection HP as <- <-. rewrite list_elem_of_bind. split.
      * intros ([id e]&Hp&Hin%elem_of_map_to_list).
        apply promote_claims_snd in Hp as (j&c&?&?&?&->).
        exists id, e, j, c. rewrite bool_decide_eq_true_2 by done. done.
      * intros (id&e&i&c&?&?&Hh&->). apply andb_true_iff in Hh as [Hh ?].
        apply andb_true_iff in Hh as [_ Hh%bool_decide_eq_true].
        exists (id, e). rewrite elem_of_map_to_list. split; [|done].
        apply promote_claims_snd. by exists i, c.
  - intros by2. apply map_eq. intros id. rewrite Promote_lookup, Hlook.
    destruct (envs !! id) as [e|]; simpl; [|done]. f_equal. rewrite Hpe. simpl.
    rewrite <- list_fmap_compose. unfold set_claims. simpl. f_equal.
    apply list_fmap_ext. intros i c _. simpl. destruct (hit c) eqn:Hh; [|by rewrite Hh].
    unfold hit at 1. simpl. by rewrite andb_false_r.
Qed.
