(* ===== verification/Capability.v ===== *)
(** * Capability policy ([internal/capability/policy.go])

    A node runs only when every surface capability it requires is granted by
    the binding it names. [Authorize] collects all violations; the formatter
    sorts them, which makes the feedback independent of their order. *)

From S2P Require Import Prelude Api.

Definition reasonBindingMissing : string := "binding not declared".
Definition reasonCapabilityMissing : string := "capability not granted".

Record Violation := {
  vi_NodeID : string;
  vi_Binding : string;
  vi_Capability : string;
  vi_Reason : string;
}.

#[export] Instance Violation_eq_dec : EqDecision Violation.
Proof. solve_decision. Defined.

(** The index of granted capabilities: a later binding of the same name
    replaces an earlier one. *)
Fixpoint granted_index (acc : gmap string (gset string)) (bs : list ExternalSystemBinding)
    : gmap string (gset string) :=
  match bs with
  | [] => acc
  | b :: bs => granted_index (<[eb_Name b := list_to_set (eb_Granted b)]> acc) bs
  end.

Fixpoint check_requires (granted : gmap string (gset string)) (rs : list CapabilityRequirement)
    : list Violation :=
  match rs with
  | [] => []
  | r :: rs =>
      match granted !! cr_Binding r with
      | None =>
          {| vi_NodeID := ""; vi_Binding := cr_Binding r; vi_Capability := cr_Capability r;
             vi_Reason := reasonBindingMissing |} :: check_requires granted rs
      | Some caps =>
          if negb (bool_decide (cr_Capability r ∈ caps)) && negb (bool_decide ("*" ∈ caps))
          then {| vi_NodeID := ""; vi_Binding := cr_Binding r; vi_Capability := cr_Capability r;
                  vi_Reason := reasonCapabilityMissing |} :: check_requires granted rs
          else check_requires granted rs
      end
  end.

Definition Authorize (bindings : list ExternalSystemBinding)
    (requires : list CapabilityRequirement) : list Violation :=
  match requires with
  | [] => []
  | _ => check_requires (granted_index ∅ bindings) requires
  end.

Definition set_NodeID (id : string) (v : Violation) : Violation :=
  {| vi_NodeID := id; vi_Binding := vi_Binding v; vi_Capability := vi_Capability v;
     vi_Reason := vi_Reason v |}.

Definition AuthorizeNode (bindings : list ExternalSystemBinding) (node : NodeSpec)
    : list Violation :=
  set_NodeID (nd_ID node) <$> Authorize bindings (nd_Requires node).

(** [NewError]: [None] is the nil error. *)
Definition NewError (vs : list Violation) : option (list Violation) :=
  match vs with [] => None | _ => Some vs end.

(** ** Formatting

    [strconv.Quote] ([%q]) is a parameter: it is never inspected. *)

Section format.
Context (quote : string → string).

Definition string_lt (s t : string) : bool := String.ltb s t.

Definition violation_less (a b : Violation) : bool :=
  if decide (vi_NodeID a ≠ vi_NodeID b) then string_lt (vi_NodeID a) (vi_NodeID b)
  else if decide (vi_Binding a ≠ vi_Binding b) then string_lt (vi_Binding a) (vi_Binding b)
  else string_lt (vi_Capability a) (vi_Capability b).

Definition violation_le (a b : Violation) : Prop := violation_less b a = false.
#[export] Instance violation_le_dec : RelDecision violation_le.
Proof. intros a b. unfold violation_le. apply _. Defined.

Definition format_one (v : Violation) : string :=
  if decide (vi_NodeID v ≠ "") then
    "node " +:+ quote (vi_NodeID v) +:+ " requires " +:+ vi_Capability v +:+ " on binding "
    +:+ quote (vi_Binding v) +:+ " — " +:+ vi_Reason v
  else vi_Capability v +:+ " on binding " +:+ quote (vi_Binding v) +:+ " — " +:+ vi_Reason v.

(** [sort.Slice] is not stable, but elements that compare equal carry the
    same node, binding and capability; every sorted order prints alike when
    these determine the reason. *)
Definition FormatViolations (vs : list Violation) : string :=
  match vs with
  | [] => ""
  | _ => "capability policy: " +:+ join "; " (format_one <$> merge_sort violation_le vs)
  end.

(** The [Error] method of the aggregate error. *)
Definition error_part (v : Violation) : string :=
  vi_Capability v +:+ ": " +:+ vi_Reason v +:+ " on " +:+ quote (vi_Binding v).

Definition Error_Error (vs : list Violation) : string :=
  match vs with
  | [] => "capability: denied"
  | _ => "capability: " +:+ pretty (length vs) +:+ " violation(s): "
         +:+ join "; " (error_part <$> vs)
  end.
End format.

(** ** What the policy means *)

(** The binding a name addresses: the last one declared under it. *)
Definition declared (bs : list ExternalSystemBinding) (name : string)
    : option ExternalSystemBinding := last (filter (λ b, eb_Name b = name) bs).

Definition grants (b : ExternalSystemBinding) (cap : string) : Prop :=
  cap ∈ eb_Granted b ∨ "*" ∈ eb_Granted b.

Definition satisfied (bs : list ExternalSystemBinding) (r : CapabilityRequirement) : Prop :=
  ∃ b, declared bs (cr_Binding r) = Some b ∧ grants b (cr_Capability r).

Lemma fmap_is_nil {A B} (f : A → B) l : f <$> l = [] ↔ l = [].
Proof. by destruct l. Qed.

Lemma granted_index_lookup acc bs name :
  granted_index acc bs !! name =
  match declared bs name with
  | Some b => Some (list_to_set (eb_Granted b))
  | None => acc !! name
  end.
Proof.
  revert acc. induction bs as [|b bs IH]; intros acc; simpl; [done|]. rewrite IH.
  unfold declared. destruct (decide (eb_Name b = name)) as [Hn|Hn].
  - rewrite filter_cons_True by done. rewrite last_cons.
    destruct (last (filter _ bs)); [done|]. subst. by rewrite lookup_insert_eq.
  - rewrite filter_cons_False by done. destruct (last _); [done|].
    by rewrite lookup_insert_ne.
Qed.

Definition requirement_ok (granted : gmap string (gset string)) (r : CapabilityRequirement) : bool :=
  match granted !! cr_Binding r with
  | None => false
  | Some caps => bool_decide (cr_Capability r ∈ caps) || bool_decide ("*" ∈ caps)
  end.

Definition violation_of (granted : gmap string (gset string)) (r : CapabilityRequirement) : Violation :=
  {| vi_NodeID := ""; vi_Binding := cr_Binding r; vi_Capability := cr_Capability r;
     vi_Reason := match granted !! cr_Binding r with
                  | None => reasonBindingMissing | Some _ => reasonCapabilityMissing end |}.

Lemma check_requires_eq granted rs :
  check_requires granted rs =
  violation_of granted <$> filter (λ r, requirement_ok granted r = false) rs.
Proof.
  induction rs as [|r rs IH]; [done|]. simpl. rewrite IH.
  assert (requirement_ok granted r = match granted !! cr_Binding r with
    | None => false
    | Some caps => bool_decide (cr_Capability r ∈ caps) || bool_decide ("*" ∈ caps) end) as Hr by done.
  destruct (granted !! cr_Binding r) as [caps|] eqn:Hg.
  - destruct (bool_decide (cr_Capability r ∈ caps)), (bool_decide ("*" ∈ caps));
      simpl in *; rewrite ?filter_cons_False by congruence; try done;
      rewrite filter_cons_True by done; csimpl; f_equal; unfold violation_of; by rewrite Hg.
  - rewrite filter_cons_True by done. csimpl. f_equal. unfold violation_of. by rewrite Hg.
Qed.

Lemma requirement_ok_spec bs r :
  requirement_ok (granted_index ∅ bs) r = true ↔ satisfied bs r.
Proof.
  unfold requirement_ok, satisfied, grants. rewrite granted_index_lookup.
  destruct (declared bs (cr_Binding r)) as [b|]; [|rewrite lookup_empty; naive_solver].
  rewrite orb_true_iff, !bool_decide_eq_true, !elem_of_list_to_set. naive_solver.
Qed.

Lemma Authorize_nil_iff bs rs : Authorize bs rs = [] ↔ ∀ r, r ∈ rs → satisfied bs r.
Proof.
  assert (Authorize bs rs = check_requires (granted_index ∅ bs) rs) as -> by by destruct rs.
  rewrite check_requires_eq, fmap_is_nil. split.
  - intros Hnil r Hr. apply requirement_ok_spec.
    destruct (requirement_ok _ r) eqn:Hok; [done|].
    assert (r ∈ filter (λ r, requirement_ok (granted_index ∅ bs) r = false) rs) as Hin
      by by apply list_elem_of_filter.
    rewrite Hnil in Hin. by apply elem_of_nil in Hin.
  - intros Hall. apply elem_of_nil_inv. intros r [Hf Hr]%list_elem_of_filter.
    apply Hall, requirement_ok_spec in Hr. congruence.
Qed.

Lemma AuthorizeNode_nil_iff bs node :
  AuthorizeNode bs node = [] ↔ ∀ r, r ∈ nd_Requires node → satisfied bs r.
Proof. unfold AuthorizeNode. by rewrite fmap_is_nil, Authorize_nil_iff. Qed.

(** ** The order of the formatter *)

Lemma string_lt_le s t : string_lt s t = false ↔ String.le t s.
Proof.
  unfold string_lt, String.ltb, String.le, String.leb. rewrite (String.compare_antisym s t).
  destruct (t ?= s)%string; simpl; split; done.
Qed.

Lemma violation_le_cases a b :
  violation_le a b ↔
  (vi_NodeID a ≠ vi_NodeID b ∧ String.le (vi_NodeID a) (vi_NodeID b))
  ∨ (vi_NodeID a = vi_NodeID b ∧ vi_Binding a ≠ vi_Binding b
       ∧ String.le (vi_Binding a) (vi_Binding b))
  ∨ (vi_NodeID a = vi_NodeID b ∧ vi_Binding a = vi_Binding b
       ∧ String.le (vi_Capability a) (vi_Capability b)).
Proof.
  unfold violation_le, violation_less.
  repeat case_decide; rewrite string_lt_le; naive_solver.
Qed.

#[export] Instance violation_le_total : Total violation_le.
Proof.
  intros a b. rewrite !violation_le_cases.
  destruct (decide (vi_NodeID a = vi_NodeID b)) as [Hn|Hn].
  - destruct (decide (vi_Binding a = vi_Binding b)) as [Hb|Hb].
    + destruct (total String.le (vi_Capability a) (vi_Capability b)); naive_solver.
    + destruct (total String.le (vi_Binding a) (vi_Binding b)); naive_solver.
  - destruct (total String.le (vi_NodeID a) (vi_NodeID b)); naive_solver.
Qed.

#[export] Instance violation_le_trans : Transitive violation_le.
Proof.
  intros a b c. rewrite !violation_le_cases.
  assert (∀ x y z : string, x ≠ y → String.le x y → y ≠ z → String.le y z →
                            x ≠ z ∧ String.le x z) as Ht.
  { intros x y z Hxy H1 Hyz H2. split; [|by etrans]. intros ->. by apply Hxy, (anti_symm String.le). }
  assert (∀ x y z : string, String.le x y → String.le y z → String.le x z) as Hle
    by (intros x y z H1 H2; exact (transitivity H1 H2)).
  intros [[H1 H2]|[(H1&H2&H3)|(H1&H2&H3)]] [[H4 H5]|[(H4&H5&H6)|(H4&H5&H6)]];
    rewrite ?H1, ?H2 in *; rewrite <- ?H4, <- ?H5 in *;
    first [by left; eauto | by left; eapply Ht | by right; left; eauto
          | by right; left; split; [|eapply Ht] | by right; right; eauto 6].
Qed.

Lemma violation_le_antisym_key a b :
  violation_le a b → violation_le b a →
  vi_NodeID a = vi_NodeID b ∧ vi_Binding a = vi_Binding b ∧ vi_Capability a = vi_Capability b.
Proof.
  rewrite !violation_le_cases.
  intros [[H1 H2]|[(H1&H2&H3)|(H1&H2&H3)]] [[H4 H5]|[(H4&H5&H6)|(H4&H5&H6)]]; try congruence.
  - destruct H1. by apply (anti_symm String.le).
  - destruct H2. by apply (anti_symm String.le).
  - split_and!; [done..|]. by apply (anti_symm String.le).
Qed.

Definition reason_of_key (vs : list Violation) : Prop :=
  ∀ a b, a ∈ vs → b ∈ vs → vi_Binding a = vi_Binding b → vi_Capability a = vi_Capability b →
         vi_Reason a = vi_Reason b.

Lemma FormatViolations_perm quote vs vs' :
  reason_of_key vs → vs ≡ₚ vs' → FormatViolations quote vs = FormatViolations quote vs'.
Proof.
  intros Hr Hp.
  assert (merge_sort violation_le vs = merge_sort violation_le vs') as Hs.
  { apply (StronglySorted_unique_strong violation_le);
      [|by apply (StronglySorted_merge_sort _)..|by rewrite !merge_sort_Permutation].
    intros a b Ha Hb Hab Hba.
    rewrite merge_sort_Permutation in Ha. rewrite merge_sort_Permutation, <- Hp in Hb.
    destruct (violation_le_antisym_key a b Hab Hba) as (?&?&?).
    pose proof (Hr a b Ha Hb). destruct a, b. simpl in *. f_equal; auto. }
  unfold FormatViolations. rewrite Hs.
  destruct vs, vs'; try done.
  - by apply Permutation_nil_l in Hp.
  - by apply Permutation_nil_r in Hp.
Qed.

Lemma AuthorizeNode_reason bs node : reason_of_key (AuthorizeNode bs node).
Proof.
  intros a b. unfold AuthorizeNode.
  assert (Authorize bs (nd_Requires node) = check_requires (granted_index ∅ bs) (nd_Requires node))
    as -> by by destruct (nd_Requires node).
  rewrite check_requires_eq.
  intros (a'&->&(ra&->&_)%list_elem_of_fmap)%list_elem_of_fmap
         (b'&->&(rb&->&_)%list_elem_of_fmap)%list_elem_of_fmap. simpl.
  by intros -> _.
Qed.

(** ** Properties *)

(** Capability policy is sound and complete: a node is authorized exactly
    when every capability it requires is granted, by name or by the wildcard,
    by the binding it addresses (the last one declared under that name), and
    when it is not, there is one violation per unmet requirement, in the order
    of the requirements and naming the node, with the reason that tells an
    undeclared binding from a missing grant. *)
Theorem AuthorizeNode_complete bs node :
  (AuthorizeNode bs node = [] ↔ ∀ r, r ∈ nd_Requires node → satisfied bs r)
  ∧ ∃ unmet, sublist unmet (nd_Requires node)
     ∧ (∀ r, r ∈ unmet ↔ r ∈ nd_Requires node ∧ ¬ satisfied bs r)
     ∧ AuthorizeNode bs node =
       (λ r, {| vi_NodeID := nd_ID node; vi_Binding := cr_Binding r;
                vi_Capability := cr_Capability r;
                vi_Reason := if decide (declared bs (cr_Binding r) = None)
                             then reasonBindingMissing else reasonCapabilityMissing |}) <$> unmet.
Proof.
  split; [apply AuthorizeNode_nil_iff|].
  set (g := granted_index ∅ bs).
  exists (filter (λ r, requirement_ok g r = false) (nd_Requires node)). split_and!.
  - apply sublist_filter.
  - intros r. rewrite list_elem_of_filter. subst g. rewrite <- requirement_ok_spec.
    destruct (requirement_ok _ r); naive_solver.
  - unfold AuthorizeNode.
    assert (Authorize bs (nd_Requires node) = check_requires g (nd_Requires node))
      as -> by by destruct (nd_Requires node).
    rewrite check_requires_eq, <- list_fmap_compose. apply list_fmap_ext.
    intros _ r _. unfold set_NodeID, violation_of. simpl. f_equal.
    subst g. rewrite granted_index_lookup. by destruct (declared bs (cr_Binding r)).
Qed.

(** The denial feedback a node carries does not depend on the order in
    which the violations were found: any permutation of them is printed as the
    same string. *)
Theorem denial_feedback_deterministic quote bs node vs :
  vs ≡ₚ AuthorizeNode bs node →
  FormatViolations quote vs = FormatViolations quote (AuthorizeNode bs node).
Proof.
  intros Hp. symmetry. apply FormatViolations_perm; [apply AuthorizeNode_reason|done].
Qed.

Definition two_reqs : NodeSpec :=
  {| nd_ID := "deploy"; nd_Type := "plugin"; nd_Label := ""; nd_Config := ""; nd_Outputs := [];
     nd_When := ""; nd_Timeout := "";
     nd_Requires := [ {| cr_Binding := "wiki"; cr_Capability := "wiki.page.write" |};
                      {| cr_Binding := "repo"; cr_Capability := "repository.push" |} ];
     nd_Background := None; nd_Retry := None |}.

Lemma denial_feedback_deterministic_witness :
  reverse (AuthorizeNode [] two_reqs) ≡ₚ AuthorizeNode [] two_reqs
  ∧ FormatViolations id (reverse (AuthorizeNode [] two_reqs))
    = FormatViolations id (AuthorizeNode [] two_reqs).
Proof.
  assert (reverse (AuthorizeNode [] two_reqs) ≡ₚ AuthorizeNode [] two_reqs) as Hp
    by apply reverse_Permutation.
  exact (conj Hp (denial_feedback_deterministic id [] two_reqs _ Hp)).
Defined.
