(* ===== verification/GraphTypes.v ===== *)
(** * The graph kernel's types ([internal/graph]: node.go, config.go)

    Node results and outputs, the executor interface and its registry, the
    node configurations, and the world the kernel runs in (clock, run context,
    backoff timer). Node executors are the kernel's clients: the registry maps
    a node type to any implementation of the interface. *)

From S2P Require Import Prelude GoTime Api ClaimTrust.

(** ** Node status and execution class *)

Definition StatusGreen : string := "green".
Definition StatusFailed : string := "failed".
Definition StatusSkipped : string := "skipped".

Definition ExecutionClassWorkload : string := "workload".
Definition ExecutionClassKubernetesAPI : string := "kubernetes-api".
Definition ExecutionClassPureOrchestration : string := "pure-orchestration".

Definition NodeTypeExternal : string := "external".

(** ** Outputs: Go's [map[string]any]; the kernel looks at booleans and strings only *)

Inductive Val : Type :=
| VNull
| VBool (b : bool)
| VString (s : string)
| VNumber (z : Z)
| VOther (json : string).

Notation NodeOutputs := (gmap string Val).

Record NodeEnv := {
  nv_Workflow : string;
  nv_RunID : string;
  nv_Namespace : string;
  nv_Workdir : string;
  nv_Source : string;
  nv_SourceURL : string;
  nv_SourceBranch : string;
  nv_SourceLanguage : string;
  nv_WorkspaceDir : string;
  nv_Shadow : string;
  nv_State : string;
  nv_ExtraEnv : list string;
  nv_Inputs : gmap string NodeOutputs;
}.

Record NodeResult := {
  nr_Status : string;
  nr_Outputs : NodeOutputs;
  nr_Feedback : string;
  nr_Envelope : option NodeResultEnvelope;
  nr_Transient : bool;
  nr_Attempt : Z;
}.

Definition set_nr_Status (v : string) (r : NodeResult) : NodeResult :=
  {| nr_Status := v; nr_Outputs := nr_Outputs r; nr_Feedback := nr_Feedback r;
     nr_Envelope := nr_Envelope r; nr_Transient := nr_Transient r; nr_Attempt := nr_Attempt r |}.
Definition set_nr_Feedback (v : string) (r : NodeResult) : NodeResult :=
  {| nr_Status := nr_Status r; nr_Outputs := nr_Outputs r; nr_Feedback := v;
     nr_Envelope := nr_Envelope r; nr_Transient := nr_Transient r; nr_Attempt := nr_Attempt r |}.
Definition set_nr_Envelope (v : option NodeResultEnvelope) (r : NodeResult) : NodeResult :=
  {| nr_Status := nr_Status r; nr_Outputs := nr_Outputs r; nr_Feedback := nr_Feedback r;
     nr_Envelope := v; nr_Transient := nr_Transient r; nr_Attempt := nr_Attempt r |}.
Definition set_nr_Attempt (v : Z) (r : NodeResult) : NodeResult :=
  {| nr_Status := nr_Status r; nr_Outputs := nr_Outputs r; nr_Feedback := nr_Feedback r;
     nr_Envelope := nr_Envelope r; nr_Transient := nr_Transient r; nr_Attempt := v |}.

(** [NodeResult{Status: StatusFailed, Feedback: fb}] *)
Definition failed_result (fb : string) : NodeResult :=
  {| nr_Status := StatusFailed; nr_Outputs := ∅; nr_Feedback := fb; nr_Envelope := None;
     nr_Transient := false; nr_Attempt := 0 |}.

(** ** The world

    [w_now] is [time.Now]; [w_ctx_err dl] says whether the run's context, or
    the per-node deadline [dl], has expired; [w_select dl d] is the select
    between that context's [Done] channel and [time.After d], and answers
    [true] when the context won. *)
Class World (W : Type) := {
  w_now : W → Z;
  w_ctx_err : option Z → W → bool;
  w_select : option Z → Z → W → bool * W;
}.

(** ** Executors and their registry *)

Record NodeExecutor (W : Type) := {
  nx_Type : string;
  nx_Deterministic : bool;
  nx_ExecutionClass : string;
  nx_Execute : option Z → NodeSpec → NodeEnv → W → (NodeResult * option string) * W;
}.
Arguments nx_Type {W} _.
Arguments nx_Deterministic {W} _.
Arguments nx_ExecutionClass {W} _.
Arguments nx_Execute {W} _ _ _ _ _.

Notation Registry W := (gmap string (NodeExecutor W)).

Definition NewRegistry {W} : Registry W := ∅.

Definition Register {W} (r : Registry W) (x : NodeExecutor W) : Registry W :=
  <[nx_Type x := x]> r.

(** [sort.Strings] of the registered types. *)
Definition Types {W} (r : Registry W) : list string := merge_sort String.le (map_to_list r).*1.

Definition Has {W} (r : Registry W) (nodeType : string) : bool :=
  bool_decide (is_Some (r !! nodeType)).

(** [quote] is [strconv.Quote]; [%s] of a string slice is its elements between
    brackets, separated by spaces. *)
Definition Get {W} (quote : string → string) (r : Registry W) (nodeType : string)
    : result string (NodeExecutor W) :=
  match r !! nodeType with
  | Some x => Ok x
  | None => Err ("graph: no executor registered for node type " +:+ quote nodeType
                 +:+ " (registered: [" +:+ join " " (Types r) +:+ "])")
  end.

(** ** Node configurations ([config.go]) *)

Record PluginNodeConfig := {
  pc_Name : string; pc_Args : list string; pc_ConfigMap : string; pc_Timeout : string;
  pc_Config : string;
}.

Definition ToPluginRef (c : PluginNodeConfig) : PluginRef :=
  {| pr_Name := pc_Name c; pr_Image := ""; pr_ConfigMap := pc_ConfigMap c; pr_Args := pc_Args c;
     pr_Timeout := "" |}.

Record GateNodeConfig := { gc_Plugin : PluginNodeConfig; gc_Validates : list ValidationScope }.

Record AgentNodeConfig := {
  ac_Model : string; ac_Skill : string; ac_Task : string; ac_Tools : list string;
  ac_Gate : option GateNodeConfig; ac_MaxFixes : Z; ac_Scope : string;
}.

Record BranchNodeConfig := { bc_Condition : string }.

Definition zero_plugin_config : PluginNodeConfig :=
  {| pc_Name := ""; pc_Args := []; pc_ConfigMap := ""; pc_Timeout := ""; pc_Config := "" |}.
Definition zero_gate_config : GateNodeConfig :=
  {| gc_Plugin := zero_plugin_config; gc_Validates := [] |}.

(** [encoding/json] for one configuration type: its bytes, and their parse
    ([None] is a decoding error). *)
Class JsonCodec (A : Type) := { json_marshal : A → string; json_unmarshal : string → option A }.

(** [parseConfig]: no bytes at all is the zero configuration. *)
Definition parseConfig {A} `{JsonCodec A} (zero : A) (raw : string) : option A :=
  if decide (raw = "") then Some zero else json_unmarshal raw.

(** ** Facts *)

Lemma Register_Get {W} quote (r : Registry W) x :
  Get quote (Register r x) (nx_Type x) = Ok x
  ∧ ∀ t, t ≠ nx_Type x → Register r x !! t = r !! t.
Proof.
  unfold Get, Register. rewrite lookup_insert_eq. split; [done|].
  intros t Ht. by rewrite lookup_insert_ne.
Qed.

Lemma Get_Ok {W} quote (r : Registry W) t x : Get quote r t = Ok x ↔ r !! t = Some x.
Proof. unfold Get. destruct (r !! t); split; congruence. Qed.
