(* ===== verification/GraphRetry.v ===== *)
(** * Transient-fault retry policy ([retryPolicyOf], [delayFor] of executor.go)

    The declarative budget of a node and its exponential backoff, with int64
    duration arithmetic as the code computes it. *)

From S2P Require Import Prelude GoTime Api.

Record retryPolicy := { rt_maxAttempts : Z; rt_initialDelay : Z; rt_maxDelay : Z }.

Definition defaultRetryInitialDelay : Z := 5 * Second.
Definition defaultRetryMaxDelay : Z := Minute.
Definition maxRetryAttemptsCap : Z := 5.

Definition retryPolicyOf (spec : option RetryPolicy) : retryPolicy :=
  match spec with
  | None => {| rt_maxAttempts := 1; rt_initialDelay := 0; rt_maxDelay := 0 |}
  | Some spec =>
      if rp_MaxAttempts spec <=? 1
      then {| rt_maxAttempts := 1; rt_initialDelay := 0; rt_maxDelay := 0 |}
      else
        let maxAttempts := if maxRetryAttemptsCap <? rp_MaxAttempts spec
                           then maxRetryAttemptsCap else rp_MaxAttempts spec in
        let initialDelay := default defaultRetryInitialDelay (parse_positive (rp_InitialDelay spec)) in
        let maxDelay := default defaultRetryMaxDelay (parse_positive (rp_MaxDelay spec)) in
        let maxDelay := if maxDelay <? initialDelay then initialDelay else maxDelay in
        {| rt_maxAttempts := maxAttempts; rt_initialDelay := initialDelay; rt_maxDelay := maxDelay |}
  end.

(** [for i := 1; i < attempt && d < p.maxDelay; i++ { d *= 2 }], [n] being the
    turns left. *)
Fixpoint double_until (n : nat) (maxDelay d : Z) : Z :=
  match n with
  | O => d
  | S n => if d <? maxDelay then double_until n maxDelay (i64 (d * 2)) else d
  end.

Definition delayFor (p : retryPolicy) (attempt : Z) : Z :=
  let d := double_until (Z.to_nat (attempt - 1)) (rt_maxDelay p) (rt_initialDelay p) in
  if rt_maxDelay p <? d then rt_maxDelay p else d.

(** ** Facts *)

Definition policy_wf (p : retryPolicy) : Prop :=
  1 ≤ rt_maxAttempts p ≤ maxRetryAttemptsCap
  ∧ 0 ≤ rt_initialDelay p ≤ rt_maxDelay p ∧ rt_maxDelay p ≤ max_int64
  ∧ (1 < rt_maxAttempts p → 0 < rt_initialDelay p).

Lemma retryPolicyOf_wf spec : policy_wf (retryPolicyOf spec).
Proof.
  unfold policy_wf, retryPolicyOf, maxRetryAttemptsCap, max_int64.
  destruct spec as [s|]; simpl; [|lia].
  destruct (rp_MaxAttempts s <=? 1) eqn:H1; simpl; [lia|]. apply Z.leb_gt in H1.
  assert (0 < default defaultRetryInitialDelay (parse_positive (rp_InitialDelay s)) ≤ max_int64) as Hi.
  { destruct (parse_positive (rp_InitialDelay s)) eqn:?; simpl; [by eapply parse_positive_pos|done]. }
  assert (0 < default defaultRetryMaxDelay (parse_positive (rp_MaxDelay s)) ≤ max_int64) as Hm.
  { destruct (parse_positive (rp_MaxDelay s)) eqn:?; simpl; [by eapply parse_positive_pos|done]. }
  unfold max_int64 in *.
  destruct (5 <? rp_MaxAttempts s) eqn:?; destruct (_ <? default _ _) eqn:?; lia.
Qed.

(** Without overflow the loop is a power of two, cut off once it reaches the cap. *)
Lemma double_until_closed n m d :
  0 < d → m ≤ max_int64 `div` 2 → d ≤ m →
  Z.min m (double_until n m d) = Z.min m (d * 2 ^ Z.of_nat n).
Proof.
  revert d. induction n as [|n IH]; intros d Hd Hm Hdm; simpl double_until.
  { by rewrite Z.mul_1_r. }
  assert (max_int64 `div` 2 = 4611686018427387903) as Hhalf by done.
  rewrite Nat2Z.inj_succ, Z.pow_succ_r by lia.
  assert (0 < 2 ^ Z.of_nat n) by (apply Z.pow_pos_nonneg; lia).
  destruct (d <? m) eqn:Hlt.
  - rewrite i64_id by (unfold min_int64, max_int64; lia).
    destruct (decide (d * 2 ≤ m)).
    + rewrite IH by lia. f_equal. lia.
    + destruct n as [|n]; simpl double_until; [f_equal; lia|].
      replace (d * 2 <? m) with false by (symmetry; apply Z.ltb_ge; lia).
      rewrite !Z.min_l; nia.
  - rewrite !Z.min_l by nia. done.
Qed.

(** ** Properties *)

(** Retry budgets are bounded whatever the node declares: between one
    attempt and five, one exactly when no policy or a trivial one is given; and
    with delays up to half the int64 range the wait after the [k]-th failed
    attempt is the initial delay doubled [k-1] times, capped at the maximum
    delay: positive, never above the cap, never decreasing. *)
Theorem retry_backoff_bounds spec k :
  let p := retryPolicyOf spec in
  1 ≤ rt_maxAttempts p ≤ maxRetryAttemptsCap
  ∧ (rt_maxAttempts p = 1 ↔ (∀ s, spec = Some s → rp_MaxAttempts s ≤ 1))
  ∧ (1 < rt_maxAttempts p → 1 ≤ k → rt_maxDelay p ≤ max_int64 `div` 2 →
     delayFor p k = Z.min (rt_maxDelay p) (rt_initialDelay p * 2 ^ (k - 1))
     ∧ 0 < delayFor p k ≤ rt_maxDelay p
     ∧ delayFor p k ≤ delayFor p (k + 1)).
Proof.
  intros p. destruct (retryPolicyOf_wf spec) as (Ha&Hd&Hm&Hpos). fold p in Ha, Hd, Hm, Hpos.
  split_and!; [lia|lia| |].
  - unfold p, retryPolicyOf. destruct spec as [s|]; simpl; [|split; done].
    destruct (rp_MaxAttempts s <=? 1) eqn:H1; simpl.
    + split; [|done]. intros _ ? [= <-]. lia.
    + split; [|intros H; specialize (H s eq_refl); lia].
      unfold maxRetryAttemptsCap. destruct (5 <? rp_MaxAttempts s) eqn:?; lia.
  - intros H1 Hk Hhalf. specialize (Hpos H1).
    assert (∀ j, 1 ≤ j → delayFor p j = Z.min (rt_maxDelay p) (rt_initialDelay p * 2 ^ (j - 1)))
      as Hcl.
    { intros j Hj. unfold delayFor.
      pose proof (double_until_closed (Z.to_nat (j - 1)) (rt_maxDelay p) (rt_initialDelay p)
        Hpos Hhalf (proj2 Hd)) as Hc. rewrite Z2Nat.id in Hc by lia. rewrite <- Hc.
      destruct (rt_maxDelay p <? _) eqn:?; lia. }
    rewrite !Hcl by lia.
    replace (k + 1 - 1) with (Z.succ (k - 1)) by lia. rewrite Z.pow_succ_r by lia.
    assert (0 < 2 ^ (k - 1)) by (apply Z.pow_pos_nonneg; lia). split; [done|]. nia.
Qed.

Definition quick_retry : RetryPolicy :=
  {| rp_MaxAttempts := 9; rp_InitialDelay := "2s"; rp_MaxDelay := "5s" |}.

Lemma retry_backoff_bounds_witness :
  let p := retryPolicyOf (Some quick_retry) in
  1 < rt_maxAttempts p ∧ 1 ≤ 3 ∧ rt_maxDelay p ≤ max_int64 `div` 2
  ∧ delayFor p 3 = 5 * Second ∧ delayFor p 3 ≤ delayFor p 4.
Proof.
  assert (1 < rt_maxAttempts (retryPolicyOf (Some quick_retry))) as H1 by (vm_compute; reflexivity).
  assert (rt_maxDelay (retryPolicyOf (Some quick_retry)) ≤ max_int64 `div` 2) as H2
    by (vm_compute; congruence).
  assert (1 ≤ 3) as H3 by lia.
  pose proof (proj2 (proj2 (retry_backoff_bounds (Some quick_retry) 3)) H1 H3 H2) as (H4&_&H5).
  split_and!; [exact H1|exact H3|exact H2| |exact H5].
  rewrite H4. vm_compute. reflexivity.
Defined.

(** Outside that range the doubling wraps: a node may declare delays whose
    second wait is a negative duration, which the timer treats as no wait. *)
Theorem backoff_overflow_negative :
  ∃ s, 1 < rt_maxAttempts (retryPolicyOf (Some s))
       ∧ 0 < delayFor (retryPolicyOf (Some s)) 1
       ∧ delayFor (retryPolicyOf (Some s)) 2 < 0.
Proof.
  exists {| rp_MaxAttempts := 3; rp_InitialDelay := "1500000h"; rp_MaxDelay := "2500000h" |}.
  vm_compute. done.
Qed.
