(* ===== verification/GraphExec.v ===== *)
(** * The graph executor ([internal/graph/executor.go], branch_executor.go)

    [Execute] walks the graph: entry nodes, a FIFO queue, capability policy,
    execution with in-run retries, envelope synthesis and trust enforcement,
    claim promotion, conditional edges with loop-back budgets. The state of a
    walk is a [Run]; what it does to the outside world is the list [fx] of
    effects, in order. Spans and log lines are not modelled. Publishing and
    checkpointing are best-effort in the code (their errors are only logged),
    so an effect records the attempt.

    Aliasing: the executor copies [nr.Envelope.Claims] as a slice, so the node
    result's envelope and the recorded envelope share their claims; [sync]
    keeps the two equal when the kernel mutates claims in place. *)

From S2P Require Import Prelude GoTime Api ClaimTrust Capability GraphTypes GraphRetry Redact.

Definition MaxIterations : Z := 1000.
Definition DefaultStateStore : string := "harmostes-state".
Definition DefaultPubSub : string := "harmostes-pubsub".
Definition LifecycleTopic : string := "harmostes-events".
Definition DeadLetterTopic : string := "harmostes-dead-letter".

(** ** Events *)

Record LifecycleEvent := {
  le_Event : string;
  le_Pipeline : string;
  le_Attempt : string;
  le_Node : string;
  le_NodeType : string;
  le_Status : string;
  le_Feedback : string;
  le_Outputs : NodeOutputs;
  le_DurationMs : Z;
  le_Timestamp : Z;
  le_Envelope : option NodeResultEnvelope;
  le_TriggeredBy : string;
  le_TriggerSource : string;
}.

Record DeadLetterEvent := {
  dl_Pipeline : string;
  dl_FailedNode : string;
  dl_Error : string;
  dl_NodeResults : gmap string NodeResult;
  dl_TriggeredBy : string;
  dl_TriggerSource : string;
  dl_Timestamp : Z;
}.

Inductive Effect : Type :=
| FxPublish (pubsub topic : string) (ev : LifecycleEvent)
| FxDeadLetter (pubsub topic : string) (ev : DeadLetterEvent)
| FxCheckpoint (store key : string) (r : NodeResult)
| FxTimeline (kind node status feedback : string)
| FxNodeResult (env : NodeResultEnvelope)
| FxExecute (node : string) (attempt : Z).

(** ** Configuration of one execution *)

Record WorkflowContext := {
  wc_Name : string; wc_Namespace : string; wc_Workdir : string; wc_Source : string;
  wc_SourceURL : string; wc_SourceBranch : string; wc_SourceLanguage : string;
  wc_WorkspaceDir : string; wc_Shadow : string; wc_State : string;
  wc_ExtraEnv : list string;
  wc_ExtraEnvForNode : option (NodeSpec → list string → option (list string));
}.

(** [extraEnvFor]: a nil result of the hook means the shared slice. *)
Definition extraEnvFor (c : WorkflowContext) (node : NodeSpec) : list string :=
  match wc_ExtraEnvForNode c with
  | Some hook => match hook node (wc_ExtraEnv c) with
                 | Some scoped => scoped
                 | None => wc_ExtraEnv c
                 end
  | None => wc_ExtraEnv c
  end.

(** [gx_dapr], [gx_timeline], [gx_onNodeResult]: whether the client, the
    evidence writer and the callback are set. *)
Record GraphExecutor (W : Type) := {
  gx_registry : Registry W;
  gx_dapr : bool;
  gx_stateStore : string;
  gx_pubsub : string;
  gx_timeline : bool;
  gx_triggeredBy : string;
  gx_triggerSource : string;
  gx_bindings : list ExternalSystemBinding;
  gx_runID : string;
  gx_attemptName : string;
  gx_onNodeResult : bool;
  gx_wfCtx : WorkflowContext;
}.
Arguments gx_registry {W} _.
Arguments gx_dapr {W} _.
Arguments gx_stateStore {W} _.
Arguments gx_pubsub {W} _.
Arguments gx_timeline {W} _.
Arguments gx_triggeredBy {W} _.
Arguments gx_triggerSource {W} _.
Arguments gx_bindings {W} _.
Arguments gx_runID {W} _.
Arguments gx_attemptName {W} _.
Arguments gx_onNodeResult {W} _.
Arguments gx_wfCtx {W} _.

(** ** The state of a walk *)

Record Run (W : Type) := {
  rn_Status : string;
  rn_Message : string;
  rn_NodeResults : gmap string NodeResult;
  rn_NodeEnvelopes : gmap string NodeResultEnvelope;
  rn_queue : list string;
  rn_edgeCount : gmap string Z;
  rn_iterations : Z;
  rn_fx : list Effect;
  rn_world : W;
}.
Arguments rn_Status {W} _.
Arguments rn_Message {W} _.
Arguments rn_NodeResults {W} _.
Arguments rn_NodeEnvelopes {W} _.
Arguments rn_queue {W} _.
Arguments rn_edgeCount {W} _.
Arguments rn_iterations {W} _.
Arguments rn_fx {W} _.
Arguments rn_world {W} _.

Section setters.
Context {W : Type}.
Definition emit (f : Effect) (r : Run W) : Run W :=
  {| rn_Status := rn_Status r; rn_Message := rn_Message r; rn_NodeResults := rn_NodeResults r;
     rn_NodeEnvelopes := rn_NodeEnvelopes r; rn_queue := rn_queue r;
     rn_edgeCount := rn_edgeCount r; rn_iterations := rn_iterations r;
     rn_fx := rn_fx r ++ [f]; rn_world := rn_world r |}.
Definition set_outcome (status message : string) (r : Run W) : Run W :=
  {| rn_Status := status; rn_Message := message; rn_NodeResults := rn_NodeResults r;
     rn_NodeEnvelopes := rn_NodeEnvelopes r; rn_queue := rn_queue r;
     rn_edgeCount := rn_edgeCount r; rn_iterations := rn_iterations r;
     rn_fx := rn_fx r; rn_world := rn_world r |}.
Definition set_recorded (results : gmap string NodeResult)
    (envs : gmap string NodeResultEnvelope) (r : Run W) : Run W :=
  {| rn_Status := rn_Status r; rn_Message := rn_Message r; rn_NodeResults := results;
     rn_NodeEnvelopes := envs; rn_queue := rn_queue r;
     rn_edgeCount := rn_edgeCount r; rn_iterations := rn_iterations r;
     rn_fx := rn_fx r; rn_world := rn_world r |}.
Definition set_queue (q : list string) (r : Run W) : Run W :=
  {| rn_Status := rn_Status r; rn_Message := rn_Message r; rn_NodeResults := rn_NodeResults r;
     rn_NodeEnvelopes := rn_NodeEnvelopes r; rn_queue := q;
     rn_edgeCount := rn_edgeCount r; rn_iterations := rn_iterations r;
     rn_fx := rn_fx r; rn_world := rn_world r |}.
Definition set_edgeCount (c : gmap string Z) (r : Run W) : Run W :=
  {| rn_Status := rn_Status r; rn_Message := rn_Message r; rn_NodeResults := rn_NodeResults r;
     rn_NodeEnvelopes := rn_NodeEnvelopes r; rn_queue := rn_queue r;
     rn_edgeCount := c; rn_iterations := rn_iterations r;
     rn_fx := rn_fx r; rn_world := rn_world r |}.
Definition set_iterations (i : Z) (r : Run W) : Run W :=
  {| rn_Status := rn_Status r; rn_Message := rn_Message r; rn_NodeResults := rn_NodeResults r;
     rn_NodeEnvelopes := rn_NodeEnvelopes r; rn_queue := rn_queue r;
     rn_edgeCount := rn_edgeCount r; rn_iterations := i;
     rn_fx := rn_fx r; rn_world := rn_world r |}.
Definition set_world (w : W) (r : Run W) : Run W :=
  {| rn_Status := rn_Status r; rn_Message := rn_Message r; rn_NodeResults := rn_NodeResults r;
     rn_NodeEnvelopes := rn_NodeEnvelopes r; rn_queue := rn_queue r;
     rn_edgeCount := rn_edgeCount r; rn_iterations := rn_iterations r;
     rn_fx := rn_fx r; rn_world := w |}.
End setters.

(** ** The topology of a graph *)

Definition node_map (g : GraphSpec) : gmap string NodeSpec :=
  foldl (λ m n, <[nd_ID n := n]> m) ∅ (gr_Nodes g).

Definition isExternalNode (nm : gmap string NodeSpec) (id : string) : bool :=
  match nm !! id with
  | Some n => bool_decide (nd_Type n = NodeTypeExternal)
  | None => false
  end.

(** [outEdges[id]]: the edges from [id] in declaration order. *)
Definition out_edges (g : GraphSpec) (id : string) : list EdgeSpec :=
  filter (λ e, ed_From e = id) (gr_Edges g).

Definition in_degree (g : GraphSpec) : gmap string Z :=
  foldl (λ m e, if (ed_MaxRetries e =? 0) && negb (isExternalNode (node_map g) (ed_From e))
                then <[ed_To e := default 0 (m !! ed_To e) + 1]> m else m)
    (foldl (λ m n, <[nd_ID n := 0]> m) ∅ (gr_Nodes g)) (gr_Edges g).

(** The #668 guard: the first background node with a real outgoing edge. *)
Definition background_violation (g : GraphSpec) : option NodeSpec :=
  list_find (λ n, IsBackground n = true
    ∧ Exists (λ e, isExternalNode (node_map g) (ed_To e) = false) (out_edges g (nd_ID n)))
    (gr_Nodes g) ≫= λ '(_, n), Some n.

Definition entry_nodes (g : GraphSpec) : list string :=
  nd_ID <$> filter (λ n, default 0 (in_degree g !! nd_ID n) = 0 ∧ nd_Type n ≠ NodeTypeExternal)
              (gr_Nodes g).

(** ** Conditions *)

Definition snapshotOutputs (results : gmap string NodeResult) : gmap string NodeOutputs :=
  nr_Outputs <$> results.

(** [strings.EqualFold(s, "true")]: no rune outside ASCII folds to one of its
    letters. *)
Definition equal_fold_true (s : string) : bool := bool_decide (lower_ascii s = "true").

Definition getBoolOutput (outputs : NodeOutputs) (key : string) : bool :=
  match outputs !! key with
  | Some (VBool b) => b
  | Some (VString s) => equal_fold_true s
  | _ => false
  end.

(** The UTF-8 encodings of Unicode white space, for [strings.TrimSpace]. *)
Definition bytes_of (l : list N) : string := bytes_str (Ascii.ascii_of_N <$> l).
Definition white_space : list string :=
  bytes_of <$> [ [9]; [10]; [11]; [12]; [13]; [32]; [194; 133]; [194; 160]; [225; 154; 128];
    [226; 128; 128]; [226; 128; 129]; [226; 128; 130]; [226; 128; 131]; [226; 128; 132];
    [226; 128; 133]; [226; 128; 134]; [226; 128; 135]; [226; 128; 136]; [226; 128; 137];
    [226; 128; 138]; [226; 128; 168]; [226; 128; 169]; [226; 128; 175]; [226; 129; 159];
    [227; 128; 128] ]%N.

Definition strip_one (pats : list string) (s : string) : option string :=
  foldr (λ p acc, match strip_prefix p s with Some r => Some r | None => acc end) None pats.
Fixpoint strip_all (fuel : nat) (pats : list string) (s : string) : string :=
  match fuel with
  | O => s
  | S fuel => match strip_one pats s with Some r => strip_all fuel pats r | None => s end
  end.
Definition TrimSpace (s : string) : string :=
  let l := strip_all (String.length s) white_space s in
  String.rev (strip_all (String.length l) (String.rev <$> white_space) (String.rev l)).

Section executor.
Context {W : Type} `{World W}.
(** [strconv.Quote]; rendering a text/template against the nodes' outputs
    ([None]: a parse or execution error); the JSON codec of gate nodes. *)
Context (quote : string → string).
Context (render : string → gmap string NodeOutputs → option string).
Context `{JsonCodec GateNodeConfig}.

Definition evaluateCondition (condition : string) (inputs : gmap string NodeOutputs) : bool :=
  if decide (condition = "") then false
  else match render condition inputs with
       | None => false
       | Some out => equal_fold_true (TrimSpace out)
       end.

Definition shouldTraverse (edge : EdgeSpec) (source : NodeResult)
    (all : gmap string NodeResult) : bool :=
  if decide (ed_When edge = "always") then true
  else if decide (ed_When edge = "" ∨ ed_When edge = "green")
  then bool_decide (nr_Status source = StatusGreen)
  else if decide (ed_When edge = "failed") then bool_decide (nr_Status source = StatusFailed)
  else if decide (ed_When edge = "changed") then getBoolOutput (nr_Outputs source) "changed"
  else if decide (ed_When edge = "unchanged")
  then negb (getBoolOutput (nr_Outputs source) "changed")
  else evaluateCondition (ed_When edge) (snapshotOutputs all).

(** *** The branch node ([BranchExecutor.Execute]) *)

Definition branch_Execute (cfg : option BranchNodeConfig) (parse_error : string)
    (inputs : gmap string NodeOutputs) : NodeResult * option string :=
  match cfg with
  | None => (failed_result parse_error, Some parse_error)
  | Some cfg =>
      let changed := evaluateCondition (bc_Condition cfg) inputs in
      ({| nr_Status := StatusGreen; nr_Outputs := {["changed" := VBool changed]};
          nr_Feedback := "branch: changed=" +:+ (if changed then "true" else "false");
          nr_Envelope := None; nr_Transient := false; nr_Attempt := 0 |}, None)
  end.

(** *** Envelopes *)

Definition envelopeStatus (s : string) : string :=
  if decide (s = StatusGreen) then NodeResultStatusOK
  else if decide (s = StatusSkipped) then NodeResultStatusSkipped
  else NodeResultStatusFailed.

Variable e : GraphExecutor W.

Definition synthesizeEnvelope (now : Z) (nodeID : string) (nr : NodeResult) (durationMs : Z)
    : NodeResultEnvelope :=
  let enriched := nr_Envelope nr in
  let summary := from_option ne_Summary "" enriched in
  {| ne_NodeID := nodeID; ne_RunID := gx_runID e; ne_Status := envelopeStatus (nr_Status nr);
     ne_Attempt := nr_Attempt nr;
     ne_Summary := if decide (summary = "") then nr_Feedback nr else summary;
     ne_Artifacts := from_option ne_Artifacts [] enriched;
     ne_Claims := from_option ne_Claims [] enriched;
     ne_Payload := from_option ne_Payload "" enriched;
     ne_Provenance := {| pv_TriggeredBy := gx_triggeredBy e;
                         pv_TriggerSource := gx_triggerSource e; pv_ProducedAt := now |};
     ne_References := from_option ne_References [] enriched;
     ne_ProducedAt := now; ne_DurationMs := durationMs |}.

(** *** Publishing *)

Definition lifecycle (event pipeline node nodeType status feedback : string)
    (outputs : NodeOutputs) (durationMs : Z) (env : option NodeResultEnvelope) : LifecycleEvent :=
  {| le_Event := event; le_Pipeline := pipeline; le_Attempt := ""; le_Node := node;
     le_NodeType := nodeType; le_Status := status; le_Feedback := feedback;
     le_Outputs := outputs; le_DurationMs := durationMs; le_Timestamp := 0;
     le_Envelope := env; le_TriggeredBy := ""; le_TriggerSource := "" |}.

Definition publishLifecycle (ev : LifecycleEvent) (r : Run W) : Run W :=
  if gx_dapr e then
    emit (FxPublish (gx_pubsub e) LifecycleTopic
      {| le_Event := le_Event ev; le_Pipeline := le_Pipeline ev; le_Attempt := gx_attemptName e;
         le_Node := le_Node ev; le_NodeType := le_NodeType ev; le_Status := le_Status ev;
         le_Feedback := le_Feedback ev; le_Outputs := le_Outputs ev;
         le_DurationMs := le_DurationMs ev; le_Timestamp := w_now (rn_world r);
         le_Envelope := le_Envelope ev; le_TriggeredBy := gx_triggeredBy e;
         le_TriggerSource := gx_triggerSource e |}) r
  else r.

Definition publishDeadLetter (pipeline failedNode errMsg : string) (r : Run W) : Run W :=
  if gx_dapr e then
    emit (FxDeadLetter (gx_pubsub e) DeadLetterTopic
      {| dl_Pipeline := pipeline; dl_FailedNode := failedNode; dl_Error := errMsg;
         dl_NodeResults := rn_NodeResults r; dl_TriggeredBy := gx_triggeredBy e;
         dl_TriggerSource := gx_triggerSource e; dl_Timestamp := w_now (rn_world r) |}) r
  else r.

Definition checkpoint (pipeline nodeID : string) (nr : NodeResult) (r : Run W) : Run W :=
  if gx_dapr e
  then emit (FxCheckpoint (gx_stateStore e) ("pipeline/" +:+ pipeline +:+ "/nodes/" +:+ nodeID) nr) r
  else r.

Definition timeline_emit (kind node status feedback : string) (r : Run W) : Run W :=
  if gx_timeline e then emit (FxTimeline kind node status feedback) r else r.

Definition on_node_result (env : NodeResultEnvelope) (r : Run W) : Run W :=
  if gx_onNodeResult e then emit (FxNodeResult env) r else r.

(** [unhandledNodeFailure]: true when the run failed. *)
Definition unhandledNodeFailure (pipeline : string) (node : NodeSpec) (message : string)
    (r : Run W) : bool * Run W :=
  if IsBackground node then (false, r)
  else
    let r := set_outcome StatusFailed message r in
    let r := publishLifecycle
               (lifecycle "pipeline.failed" pipeline "" "" StatusFailed message ∅ 0 None) r in
    (true, publishDeadLetter pipeline (nd_ID node) message r).

(** *** Edges *)

Definition edge_key (edge : EdgeSpec) : string := ed_From edge +:+ "→" +:+ ed_To edge.

Definition enqueueEdge (nm : gmap string NodeSpec) (edge : EdgeSpec) (r : Run W)
    : bool * Run W :=
  if isExternalNode nm (ed_To edge) then (true, r)
  else
    let key := edge_key edge in
    let count := default 0 (rn_edgeCount r !! key) + 1 in
    let r := set_edgeCount (<[key := count]> (rn_edgeCount r)) r in
    if (0 <? ed_MaxRetries edge) && (ed_MaxRetries edge <? count) then (false, r)
    else (true, set_queue (rn_queue r ++ [ed_To edge]) r).

(** The loop over a node's outgoing edges: whether one handled the result. *)
Fixpoint follow_edges (nm : gmap string NodeSpec) (nr : NodeResult) (edges : list EdgeSpec)
    (handled : bool) (r : Run W) : bool * Run W :=
  match edges with
  | [] => (handled, r)
  | edge :: edges =>
      if shouldTraverse edge nr (rn_NodeResults r) then
        let '(ok, r) := enqueueEdge nm edge r in
        follow_edges nm nr edges (if ok then true else handled) r
      else follow_edges nm nr edges handled r
  end.

(** *** Claim promotion *)

Definition nodeValidationScopes (node : NodeSpec) : list ValidationScope :=
  if decide (nd_Type node ≠ "gate") then []
  else match parseConfig zero_gate_config (nd_Config node) with
       | None => []
       | Some cfg => gc_Validates cfg
       end.

(** The claims slice is shared between a result's envelope and the recorded one. *)
Definition sync (envs : gmap string NodeResultEnvelope) (results : gmap string NodeResult)
    : gmap string NodeResult :=
  map_imap (λ id nr,
    Some (match nr_Envelope nr, envs !! id with
          | Some en, Some rec => set_nr_Envelope (Some (set_claims (ne_Claims rec) en)) nr
          | _, _ => nr
          end)) results.

Fixpoint publish_promotions (pipeline nodeID : string) (ps : list Promotion) (r : Run W) : Run W :=
  match ps with
  | [] => r
  | p :: ps =>
      let r := match rn_NodeEnvelopes r !! pm_FromNodeID p with
               | Some env =>
                   publishLifecycle (lifecycle "claim.validated" pipeline (pm_FromNodeID p) "" ""
                     ("validated by " +:+ nodeID) ∅ 0 (Some env)) r
               | None => r
               end in
      publish_promotions pipeline nodeID ps r
  end.

Fixpoint applyPromotions (pipeline nodeID : string) (scopes : list ValidationScope) (r : Run W)
    : Run W :=
  match scopes with
  | [] => r
  | scope :: scopes =>
      let '(envs, ps) := Promote (rn_NodeEnvelopes r) nodeID scope in
      let r := set_recorded (sync envs (rn_NodeResults r)) envs r in
      let r := publish_promotions pipeline nodeID ps r in
      applyPromotions pipeline nodeID scopes r
  end.

(** *** One node *)

Definition node_env (node : NodeSpec) (r : Run W) : NodeEnv :=
  let c := gx_wfCtx e in
  {| nv_Workflow := wc_Name c; nv_RunID := gx_runID e; nv_Namespace := wc_Namespace c;
     nv_Workdir := wc_Workdir c; nv_Source := wc_Source c; nv_SourceURL := wc_SourceURL c;
     nv_SourceBranch := wc_SourceBranch c; nv_SourceLanguage := wc_SourceLanguage c;
     nv_WorkspaceDir := wc_WorkspaceDir c; nv_Shadow := wc_Shadow c; nv_State := wc_State c;
     nv_ExtraEnv := extraEnvFor c node; nv_Inputs := snapshotOutputs (rn_NodeResults r) |}.

Definition elapsed_ms (start now : Z) : Z := Z.quot (time_Sub now start) Millisecond.

(** The per-node deadline and the timeout text that attributes it. *)
Definition node_deadline (node : NodeSpec) (now : Z) : option Z * string :=
  if decide (nd_Timeout node = "") then (None, "")
  else match parse_positive (nd_Timeout node) with
       | Some d => (Some (now + d), nd_Timeout node)
       | None => (None, "")
       end.

(** What the loop makes of an executor's answer before it decides to retry. *)
Definition settle (timeoutStr : string) (ctx_err : bool) (nr : NodeResult)
    (execErr : option string) : NodeResult :=
  let nr := match execErr with
            | None => nr
            | Some err =>
                let nr := set_nr_Status StatusFailed nr in
                if decide (nr_Feedback nr = "") then set_nr_Feedback err nr else nr
            end in
  let nr := if bool_decide (timeoutStr ≠ "") && ctx_err && bool_decide (nr_Status nr = StatusFailed)
            then
              let tail := nr_Feedback nr in
              let fb := "timed out after " +:+ timeoutStr in
              set_nr_Feedback (if decide (tail = "") then fb else fb +:+ " — last output: " +:+ tail) nr
            else nr in
  if decide (nr_Status nr = "") then set_nr_Status StatusGreen nr else nr.

(** The retry loop. [attempt] counts the attempts already made. *)
Fixpoint retry_loop (fuel : nat) (pipeline : string) (p : retryPolicy) (x : NodeExecutor W)
    (dl : option Z) (timeoutStr : string) (node : NodeSpec) (env : NodeEnv) (start attempt : Z)
    (r : Run W) : option (NodeResult * Run W) :=
  match fuel with
  | O => None
  | S fuel =>
      let attempt := attempt + 1 in
      let r := emit (FxExecute (nd_ID node) attempt) r in
      let '((nr, execErr), w) := nx_Execute x dl node env (rn_world r) in
      let r := set_world w r in
      let nr := settle timeoutStr (w_ctx_err dl w) nr execErr in
      if negb (nr_Transient nr) || (rt_maxAttempts p <=? attempt) || w_ctx_err dl w
      then Some (set_nr_Attempt attempt nr, r)
      else
        let delay := delayFor p attempt in
        let r := publishLifecycle (lifecycle "node.retry" pipeline (nd_ID node) (nd_Type node)
                   StatusFailed (nr_Feedback nr) ∅ (elapsed_ms start (w_now w)) None) r in
        let r := timeline_emit "node.retry" (nd_ID node) StatusFailed
                   (truncateForTimeline (Redact (nr_Feedback nr)) 200) r in
        let '(done_won, w) := w_select dl delay w in
        let r := set_world w r in
        if done_won then Some (set_nr_Attempt attempt nr, r)
        else retry_loop fuel pipeline p x dl timeoutStr node env start attempt r
  end.

Inductive Outcome : Type :=
| Continue (r : Run W)
| Return (r : Run W) (err : option string).

(** The failure path shared by denied and failed nodes: follow the edges that
    handle the result, else let the seam decide. *)
Definition route_failure (g : GraphSpec) (pipeline : string) (node : NodeSpec) (nr : NodeResult)
    (message : string) (r : Run W) : Outcome :=
  let '(handled, r) := follow_edges (node_map g) nr (out_edges g (nd_ID node)) false r in
  if handled then Continue r
  else
    let '(fatal, r) := unhandledNodeFailure pipeline node message r in
    if fatal then Return r None else Continue r.

(** A node refused by capability policy. The duration its event carries, the time
    since its start, is taken as zero. *)
Definition deny_node (g : GraphSpec) (pipeline : string) (node : NodeSpec)
    (violations : list Violation) (r : Run W) : Outcome :=
  let id := nd_ID node in
  let feedback := FormatViolations quote violations in
  let now := w_now (rn_world r) in
  let denied := failed_result feedback in
  let env := synthesizeEnvelope now id denied 0 in
  let r := set_recorded (<[id := denied]> (rn_NodeResults r)) (<[id := env]> (rn_NodeEnvelopes r)) r in
  let r := on_node_result env r in
  let r := checkpoint pipeline id denied r in
  let r := publishLifecycle (lifecycle "node.failed" pipeline id (nd_Type node) StatusFailed
             feedback ∅ 0 (Some env)) r in
  route_failure g pipeline node denied
    ("node " +:+ id +:+ " denied by capability policy: " +:+ feedback) r.

(** A node whose type has no registered executor. *)
Definition miss_node (pipeline : string) (node : NodeSpec) (err : string) (start : Z) (r : Run W)
    : Outcome :=
  let id := nd_ID node in
  let errResult := failed_result err in
  let ms := elapsed_ms start (w_now (rn_world r)) in
  let env := synthesizeEnvelope (w_now (rn_world r)) id errResult ms in
  let r := set_recorded (<[id := errResult]> (rn_NodeResults r))
             (<[id := env]> (rn_NodeEnvelopes r)) r in
  let r := on_node_result env r in
  let r := publishLifecycle (lifecycle "node.failed" pipeline id (nd_Type node) StatusFailed
             err ∅ ms (Some env)) r in
  let '(fatal, r) := unhandledNodeFailure pipeline node ("node " +:+ id +:+ ": " +:+ err) r in
  if fatal then Return r None else Continue r.

(** What follows the retry loop: record, enforce trust, checkpoint, publish,
    then route the result. *)
Definition finish_node (g : GraphSpec) (pipeline : string) (node : NodeSpec) (x : NodeExecutor W)
    (start : Z) (nr : NodeResult) (r : Run W) : Outcome :=
  let id := nd_ID node in
  let durationMs := elapsed_ms start (w_now (rn_world r)) in
  let r := timeline_emit "node.completed" id (nr_Status nr)
             (if decide (nr_Feedback nr = "") then ""
              else truncateForTimeline (Redact (nr_Feedback nr)) 200) r in
  let env0 := synthesizeEnvelope (w_now (rn_world r)) id nr durationMs in
  let env := default env0 (Enforce (nx_Deterministic x) (Some env0)).1 in
  let nr := set_nr_Envelope (set_claims (ne_Claims env) <$> nr_Envelope nr) nr in
  let r := set_recorded (<[id := nr]> (rn_NodeResults r)) (<[id := env]> (rn_NodeEnvelopes r)) r in
  let r := on_node_result env r in
  let r := checkpoint pipeline id nr r in
  let failed := bool_decide (nr_Status nr = StatusFailed) in
  let r := publishLifecycle (lifecycle (if failed then "node.failed" else "node.completed")
             pipeline id (nd_Type node) (nr_Status nr) (nr_Feedback nr) (nr_Outputs nr)
             durationMs (Some env)) r in
  if failed
  then route_failure g pipeline node nr ("node " +:+ id +:+ " failed: " +:+ nr_Feedback nr) r
  else
    let r := if bool_decide (nr_Status nr = StatusGreen) && nx_Deterministic x
             then applyPromotions pipeline id (nodeValidationScopes node) r else r in
    Continue (follow_edges (node_map g) nr (out_edges g id) false r).2.

(** An authorized node. [None] only if the retry loop ran out of fuel. *)
Definition execute_node (g : GraphSpec) (pipeline : string) (node : NodeSpec) (env : NodeEnv)
    (r : Run W) : option Outcome :=
  let id := nd_ID node in
  let start := w_now (rn_world r) in
  let r := publishLifecycle (lifecycle "node.started" pipeline id (nd_Type node) "" "" ∅ 0 None) r in
  match Get quote (gx_registry e) (nd_Type node) with
  | Err err => Some (miss_node pipeline node err start r)
  | Ok x =>
      let '(dl, timeoutStr) := node_deadline node (w_now (rn_world r)) in
      let r := timeline_emit "node.started" id "" "" r in
      let p := retryPolicyOf (nd_Retry node) in
      match retry_loop (Z.to_nat (rt_maxAttempts p)) pipeline p x dl timeoutStr node env start 0 r with
      | None => None
      | Some (nr, r) => Some (finish_node g pipeline node x start nr r)
      end
  end.

(** One turn of the walk, for the node at the head of the queue. *)
Definition visit (g : GraphSpec) (pipeline nodeID : string) (r : Run W) : option Outcome :=
  match node_map g !! nodeID with
  | None =>
      let msg := "edge references unknown node " +:+ quote nodeID in
      Some (Return (set_outcome StatusFailed msg r) (Some msg))
  | Some node =>
      let env := node_env node r in
      match AuthorizeNode (gx_bindings e) node with
      | [] => execute_node g pipeline node env r
      | violations => Some (deny_node g pipeline node violations r)
      end
  end.

Fixpoint walk (fuel : nat) (g : GraphSpec) (pipeline : string) (r : Run W)
    : option (Run W * option string) :=
  match rn_queue r with
  | [] =>
      let r := set_outcome (rn_Status r) "pipeline completed" r in
      Some (publishLifecycle (lifecycle "pipeline.completed" pipeline "" "" StatusGreen "" ∅ 0 None) r,
            None)
  | nodeID :: rest =>
      match fuel with
      | O => None
      | S fuel =>
          if MaxIterations <=? rn_iterations r then
            let msg := "max iterations (1000) exceeded — possible infinite loop" in
            Some (set_outcome StatusFailed msg r, Some msg)
          else
            let r := set_queue rest (set_iterations (rn_iterations r + 1) r) in
            match visit g pipeline nodeID r with
            | None => None
            | Some (Return r err) => Some (r, err)
            | Some (Continue r) => walk fuel g pipeline r
            end
      end
  end.

Definition start_run (w : W) : Run W :=
  {| rn_Status := StatusGreen; rn_Message := ""; rn_NodeResults := ∅; rn_NodeEnvelopes := ∅;
     rn_queue := []; rn_edgeCount := ∅; rn_iterations := 0; rn_fx := []; rn_world := w |}.

Definition walk_fuel : nat := S (Z.to_nat MaxIterations).

(** [Execute]: the final state of the walk (whose status, message, results
    and envelopes are the ExecutionResult) and the error. *)
Definition Execute (g : GraphSpec) (pipeline : string) (w : W)
    : option (Run W * option string) :=
  let r := start_run w in
  match background_violation g with
  | Some n =>
      let msg := "node " +:+ nd_ID n +:+ ": background nodes must be leaves (has outgoing edges)" in
      Some (set_outcome StatusFailed msg r, Some msg)
  | None =>
      match entry_nodes g with
      | [] => Some (set_outcome StatusFailed "no entry nodes — graph is a pure cycle" r,
                    Some "graph has no entry nodes (all nodes have incoming edges)")
      | queue =>
          let r := set_queue queue r in
          let r := publishLifecycle (lifecycle "pipeline.started" pipeline "" "" "" "" ∅ 0 None) r in
          walk walk_fuel g pipeline r
      end
  end.
End executor.
