(* ===== verification/GraphInv.v ===== *)
(** * Invariants of a graph walk

    What every step of the executor preserves: the walk stays green until it
    returns, every execution was authorized and of a registered type, every
    node result has its envelope, and no claim of a non-deterministic node is
    validated except by a gate that ran. The frame lemmas say what each
    operation of the walk leaves alone. *)

From S2P Require Import Prelude GoTime Api ClaimTrust Capability GraphTypes GraphRetry Redact GraphExec.

Definition quiet (f : Effect) : Prop :=
  match f with FxExecute _ _ | FxDeadLetter _ _ _ => False | _ => True end.

(** [r'] is [r] with effects appended, none of them an execution or a dead letter. *)
Definition Quiet {W} (r r' : Run W) : Prop :=
  rn_Status r' = rn_Status r ∧ rn_Message r' = rn_Message r
  ∧ rn_NodeResults r' = rn_NodeResults r ∧ rn_NodeEnvelopes r' = rn_NodeEnvelopes r
  ∧ rn_queue r' = rn_queue r ∧ rn_edgeCount r' = rn_edgeCount r
  ∧ rn_iterations r' = rn_iterations r ∧ rn_world r' = rn_world r
  ∧ ∃ l, rn_fx r' = rn_fx r ++ l ∧ Forall quiet l.

#[export] Instance Quiet_refl {W} : Reflexive (@Quiet W).
Proof. intros r. unfold Quiet. split_and!; try done. exists []. by rewrite app_nil_r. Qed.

#[export] Instance Quiet_trans {W} : Transitive (@Quiet W).
Proof.
  intros r1 r2 r3 (?&?&?&?&?&?&?&?&l1&Hl1&?) (?&?&?&?&?&?&?&?&l2&Hl2&?).
  unfold Quiet. split_and!; try congruence. exists (l1 ++ l2).
  rewrite Hl2, Hl1, app_assoc. split; [done|]. by apply Forall_app.
Qed.

Lemma Quiet_emit {W} f (r : Run W) : quiet f → Quiet r (emit f r).
Proof. intros Hf. unfold Quiet. split_and!; try done. exists [f]. split; [done|]. by constructor. Qed.

(** The same walk but for its queue, its edge counts, its effects and its world. *)
Definition same_record {W} (r r' : Run W) : Prop :=
  rn_Status r' = rn_Status r ∧ rn_NodeResults r' = rn_NodeResults r
  ∧ rn_NodeEnvelopes r' = rn_NodeEnvelopes r ∧ rn_iterations r' = rn_iterations r.

Lemma Quiet_same_record {W} (r r' : Run W) : Quiet r r' → same_record r r'.
Proof. unfold Quiet, same_record. tauto. Qed.

(** The record setters commute with the projections they do not touch; [simpl]
    sees through them, so only the effect-only steps need lemmas. *)

Lemma node_map_foldl (m : gmap string NodeSpec) l id :
  foldl (λ m n, <[nd_ID n := n]> m) m l !! id =
  match last (filter (λ n, nd_ID n = id) l) with Some n => Some n | None => m !! id end.
Proof.
  revert m. induction l as [|n l IH]; intros m; simpl; [done|]. rewrite IH.
  destruct (decide (nd_ID n = id)) as [Hn|Hn].
  - rewrite filter_cons_True, last_cons by done. destruct (last _); [done|].
    subst. by rewrite lookup_insert_eq.
  - rewrite filter_cons_False by done. destruct (last _); [done|]. by rewrite lookup_insert_ne.
Qed.

Lemma node_map_lookup g id : node_map g !! id = last (filter (λ n, nd_ID n = id) (gr_Nodes g)).
Proof. unfold node_map. rewrite node_map_foldl. by destruct (last _). Qed.

Lemma node_map_id g id n : node_map g !! id = Some n → nd_ID n = id ∧ n ∈ gr_Nodes g.
Proof.
  rewrite node_map_lookup. intros H.
  assert (n ∈ filter (λ n, nd_ID n = id) (gr_Nodes g)) as Hin
    by (apply last_Some in H as (l&->); set_solver).
  by apply list_elem_of_filter in Hin.
Qed.

Lemma node_map_nodup g n :
  NoDup (nd_ID <$> gr_Nodes g) → n ∈ gr_Nodes g → node_map g !! nd_ID n = Some n.
Proof.
  intros Hnd Hin. rewrite node_map_lookup.
  destruct (last (filter (λ m, nd_ID m = nd_ID n) (gr_Nodes g))) as [m|] eqn:Hl.
  - assert (m ∈ filter (λ m, nd_ID m = nd_ID n) (gr_Nodes g)) as Hm
      by (apply last_Some in Hl as (l&->); set_solver).
    apply list_elem_of_filter in Hm as [Hid Hm]. f_equal.
    apply list_elem_of_lookup in Hin as [i Hi]. apply list_elem_of_lookup in Hm as [j Hj].
    assert (i = j) as ->; [|congruence].
    apply (NoDup_lookup (nd_ID <$> gr_Nodes g) i j (nd_ID n)); [done| |];
      rewrite list_lookup_fmap; [by rewrite Hi|rewrite Hj; simpl; congruence].
  - apply last_None in Hl.
    assert (n ∈ filter (λ m, nd_ID m = nd_ID n) (gr_Nodes g)) as Hn
      by by apply list_elem_of_filter.
    rewrite Hl in Hn. by apply elem_of_nil in Hn.
Qed.

Section invariants.
Context {W : Type} `{World W}.
Context (quote : string → string).
Context (render : string → gmap string NodeOutputs → option string).
Context `{JsonCodec GateNodeConfig}.
Variable e : GraphExecutor W.

Notation follow_edges := (follow_edges render (W:=W)).
Notation route_failure := (route_failure render e).
Notation finish_node := (finish_node render e).
Notation execute_node := (execute_node quote render e).
Notation visit := (visit quote render e).
Notation walk := (walk quote render e).
Notation Execute := (Execute quote render e).

(** ** Effect-only steps *)

Lemma publishLifecycle_Quiet ev r : Quiet r (publishLifecycle e ev r).
Proof. unfold publishLifecycle. destruct (gx_dapr e); [by apply Quiet_emit|done]. Qed.
Lemma checkpoint_Quiet p id nr r : Quiet r (checkpoint e p id nr r).
Proof. unfold checkpoint. destruct (gx_dapr e); [by apply Quiet_emit|done]. Qed.
Lemma timeline_emit_Quiet k id s f r : Quiet r (timeline_emit e k id s f r).
Proof. unfold timeline_emit. destruct (gx_timeline e); [by apply Quiet_emit|done]. Qed.
Lemma on_node_result_Quiet env r : Quiet r (on_node_result e env r).
Proof. unfold on_node_result. destruct (gx_onNodeResult e); [by apply Quiet_emit|done]. Qed.

Lemma publish_promotions_Quiet p id ps r : Quiet r (publish_promotions e p id ps r).
Proof.
  revert r. induction ps as [|pm ps IH]; intros r; simpl; [done|].
  etrans; [|apply IH]. destruct (_ !! _); [apply publishLifecycle_Quiet|done].
Qed.

(** ** The invariant *)

Definition exec_ok (g : GraphSpec) (id : string) (k : Z) : Prop :=
  ∃ node x, node_map g !! id = Some node
    ∧ AuthorizeNode (gx_bindings e) node = []
    ∧ gx_registry e !! nd_Type node = Some x
    ∧ (NoDup (nd_ID <$> gr_Nodes g) → nd_Type node ≠ NodeTypeExternal)
    ∧ 1 ≤ k ≤ rt_maxAttempts (retryPolicyOf (nd_Retry node)).

Definition fx_ok (g : GraphSpec) (f : Effect) : Prop :=
  match f with
  | FxDeadLetter _ _ _ => False
  | FxExecute id k => exec_ok g id k
  | _ => True
  end.

Lemma quiet_fx_ok g f : quiet f → fx_ok g f.
Proof. by destruct f. Qed.

Definition is_exec (f : Effect) : bool := match f with FxExecute _ _ => true | _ => false end.
Definition execs (l : list Effect) : nat := length (filter (λ f, is_exec f = true) l).

Lemma execs_app l l' : execs (l ++ l') = (execs l + execs l')%nat.
Proof. unfold execs. by rewrite filter_app, length_app. Qed.
Lemma execs_quiet l : Forall quiet l → execs l = 0%nat.
Proof.
  induction 1 as [|f l Hf _ IH]; [done|]. unfold execs in *.
  destruct f; try done; rewrite filter_cons_False; done.
Qed.

(** A claim validated by a gate that the walk executed. *)
Definition validated_by_gate (g : GraphSpec) (fx : list Effect) (c : Claim) : Prop :=
  ∃ gn gx scope k, node_map g !! cl_ValidatedBy c = Some gn
    ∧ nd_Type gn = "gate" ∧ gx_registry e !! "gate" = Some gx ∧ nx_Deterministic gx = true
    ∧ scope ∈ nodeValidationScopes gn ∧ scope_matches scope c = true
    ∧ FxExecute (cl_ValidatedBy c) k ∈ fx.

Definition trusted_env (g : GraphSpec) (fx : list Effect) (id : string) (env : NodeResultEnvelope)
    : Prop :=
  ∀ node x c, node_map g !! id = Some node → gx_registry e !! nd_Type node = Some x →
    nx_Deterministic x = false → c ∈ ne_Claims env →
    cl_TrustClass c = ClaimTrustValidated → validated_by_gate g fx c.

Definition recorded_env (id : string) (nr : NodeResult) (env : NodeResultEnvelope) : Prop :=
  ne_NodeID env = id ∧ ne_RunID env = gx_runID e
  ∧ ne_Status env = envelopeStatus (nr_Status nr)
  ∧ ne_Attempt env = nr_Attempt nr
  ∧ pv_TriggeredBy (ne_Provenance env) = gx_triggeredBy e
  ∧ pv_TriggerSource (ne_Provenance env) = gx_triggerSource e
  ∧ nr_Status nr ≠ "".

(** [s] executions are still in the budget of the visit under way. *)
Record history_ok (g : GraphSpec) (s : Z) (r : Run W) : Prop := {
  ho_dom : ∀ id, is_Some (rn_NodeResults r !! id) ↔ is_Some (rn_NodeEnvelopes r !! id);
  ho_rec : ∀ id nr env, rn_NodeResults r !! id = Some nr → rn_NodeEnvelopes r !! id = Some env →
           recorded_env id nr env;
  ho_node : ∀ id nr, rn_NodeResults r !! id = Some nr → is_Some (node_map g !! id);
  ho_trust : ∀ id env, rn_NodeEnvelopes r !! id = Some env → trusted_env g (rn_fx r) id env;
  ho_iter : 0 ≤ rn_iterations r ≤ MaxIterations;
  ho_execs : Z.of_nat (execs (rn_fx r)) + s ≤ maxRetryAttemptsCap * rn_iterations r;
}.

Record Inv (g : GraphSpec) (s : Z) (r : Run W) : Prop := {
  inv_status : rn_Status r = StatusGreen;
  inv_fx : Forall (fx_ok g) (rn_fx r);
  inv_queue : NoDup (nd_ID <$> gr_Nodes g) →
              ∀ id, id ∈ rn_queue r → isExternalNode (node_map g) id = false;
  inv_history : history_ok g s r;
}.

Lemma validated_by_gate_mono g fx fx' c :
  fx ⊆ fx' → validated_by_gate g fx c → validated_by_gate g fx' c.
Proof. intros Hs (gn&gx&sc&k&?&?&?&?&?&?&?). exists gn, gx, sc, k. split_and!; auto. Qed.

Lemma trusted_env_mono g fx fx' id env :
  fx ⊆ fx' → trusted_env g fx id env → trusted_env g fx' id env.
Proof. intros Hs Ht node x c ?????. eapply validated_by_gate_mono; [done|]. by eapply Ht. Qed.

(** Steps that keep the record and only append effects. *)
Lemma history_ok_step g s r r' l :
  rn_NodeResults r' = rn_NodeResults r → rn_NodeEnvelopes r' = rn_NodeEnvelopes r →
  rn_iterations r' = rn_iterations r → rn_fx r' = rn_fx r ++ l → execs l = 0%nat →
  history_ok g s r → history_ok g s r'.
Proof.
  intros E1 E2 E3 E4 E5 [H1 H2 H3 H4 H5 H6]. constructor; rewrite ?E1, ?E2, ?E3, ?E4; try done.
  - intros id env Henv. eapply trusted_env_mono; [|by apply H4]. set_solver.
  - by rewrite execs_app, E5, Nat.add_0_r.
Qed.

Lemma history_ok_emit g s f r : is_exec f = false → history_ok g s r → history_ok g s (emit f r).
Proof. intros Hf. apply (history_ok_step g s r _ [f]); try done. by destruct f. Qed.

Lemma history_ok_outcome g s st msg r : history_ok g s r → history_ok g s (set_outcome st msg r).
Proof. by intros [H1 H2 H3 H4 H5 H6]. Qed.

Lemma Inv_Quiet g s r r' : Quiet r r' → Inv g s r → Inv g s r'.
Proof.
  intros (E1&E2&E3&E4&E5&E6&E7&E8&l&E9&Hl) [I1 I2 I3 I4]. constructor.
  - congruence.
  - rewrite E9. apply Forall_app. split; [done|]. eapply Forall_impl; [exact Hl|].
    intros f. apply quiet_fx_ok.
  - by rewrite E5.
  - eapply history_ok_step; eauto using execs_quiet.
Qed.

(** ** Edges *)

Definition edge_target (g : GraphSpec) (edges : list EdgeSpec) (nr : NodeResult)
    (results : gmap string NodeResult) (id : string) : Prop :=
  ∃ edge, edge ∈ edges ∧ ed_To edge = id ∧ shouldTraverse render edge nr results = true
          ∧ isExternalNode (node_map g) id = false.

Definition same_but_queue (r r' : Run W) : Prop :=
  rn_Status r' = rn_Status r ∧ rn_Message r' = rn_Message r
  ∧ rn_NodeResults r' = rn_NodeResults r ∧ rn_NodeEnvelopes r' = rn_NodeEnvelopes r
  ∧ rn_iterations r' = rn_iterations r ∧ rn_fx r' = rn_fx r ∧ rn_world r' = rn_world r.

Lemma follow_edges_spec g nr edges h r :
  let '(h', r') := follow_edges (node_map g) nr edges h r in
  same_but_queue r r'
  ∧ (∃ l, rn_queue r' = rn_queue r ++ l
          ∧ ∀ id, id ∈ l → edge_target g edges nr (rn_NodeResults r) id)
  ∧ (h = true → h' = true).
Proof.
  revert h r. induction edges as [|edge edges IH]; intros h r; simpl.
  { split_and!; [by unfold same_but_queue| |done]. exists []. rewrite app_nil_r. set_solver. }
  assert (∀ id, edge_target g edges nr (rn_NodeResults r) id →
                edge_target g (edge :: edges) nr (rn_NodeResults r) id) as Hw
    by (intros id (x&?&?); exists x; set_solver).
  destruct (shouldTraverse render edge nr (rn_NodeResults r)) eqn:Ht.
  - unfold enqueueEdge. destruct (isExternalNode (node_map g) (ed_To edge)) eqn:Hx.
    { specialize (IH true r). destruct (GraphExec.follow_edges _ _ _ _ true r) as [h' r'].
      destruct IH as (?&(l&?&?)&?). split_and!; [done| |auto]. exists l. auto. }
    destruct ((0 <? ed_MaxRetries edge) && _) eqn:Hb; simpl.
    + set (r1 := set_edgeCount _ r). specialize (IH h r1).
      destruct (GraphExec.follow_edges _ _ _ _ h r1) as [h' r']. unfold same_but_queue in *.
      destruct IH as (?&(l&?&?)&?). split_and!; try tauto. exists l. auto.
    + set (r1 := set_queue _ _). specialize (IH true r1).
      destruct (GraphExec.follow_edges _ _ _ _ true r1) as [h' r']. unfold same_but_queue in *.
      destruct IH as (?&(l&Hl&Hin)&?). split_and!; try tauto.
      exists (ed_To edge :: l). rewrite Hl. simpl. rewrite <- app_assoc. split; [done|].
      intros id [->|Hid]%elem_of_cons; [|by apply Hw, Hin].
      exists edge. split_and!; [set_solver|done..].
  - specialize (IH h r). destruct (GraphExec.follow_edges _ _ _ _ h r) as [h' r'].
    destruct IH as (?&(l&?&?)&?). split_and!; [done| |auto]. exists l. auto.
Qed.

Lemma Inv_same_but_queue g s r r' :
  same_but_queue r r' →
  (∃ l, rn_queue r' = rn_queue r ++ l ∧ ∀ id, id ∈ l → isExternalNode (node_map g) id = false) →
  Inv g s r → Inv g s r'.
Proof.
  intros (E1&E2&E3&E4&E5&E6&E7) (l&Hl&Hin) [I1 I2 I3 I4]. constructor.
  - congruence.
  - by rewrite E6.
  - rewrite Hl. intros Hnd id [?|?]%elem_of_app; auto.
  - apply (history_ok_step g s r r' []); try done. by rewrite app_nil_r.
Qed.

Lemma follow_edges_Inv g s nr edges h r :
  Inv g s r → Inv g s (follow_edges (node_map g) nr edges h r).2.
Proof.
  intros HI. pose proof (follow_edges_spec g nr edges h r) as Hs.
  destruct (GraphExec.follow_edges _ _ _ _ h r) as [h' r']. destruct Hs as (Hs&(l&Hl&Hin)&_).
  eapply Inv_same_but_queue; [done| |done]. exists l. split; [done|].
  by intros id (x&_&_&_&?)%Hin.
Qed.

(** ** The retry loop *)

Lemma settle_status ts b nr err : nr_Status (settle ts b nr err) ≠ "".
Proof.
  unfold settle. cbv zeta. by case_decide.
Qed.

Definition attempt_fx (id : string) (lo hi : Z) (f : Effect) : Prop :=
  quiet f ∨ ∃ j, f = FxExecute id j ∧ lo < j ≤ hi.

Lemma retry_loop_spec fuel p pol x dl ts node env start attempt r :
  Z.of_nat fuel = rt_maxAttempts pol - attempt → (0 < fuel)%nat →
  ∃ nr r' l k, retry_loop e fuel p pol x dl ts node env start attempt r = Some (nr, r')
    ∧ rn_Status r' = rn_Status r ∧ rn_NodeResults r' = rn_NodeResults r
    ∧ rn_NodeEnvelopes r' = rn_NodeEnvelopes r ∧ rn_queue r' = rn_queue r
    ∧ rn_edgeCount r' = rn_edgeCount r ∧ rn_iterations r' = rn_iterations r
    ∧ rn_fx r' = rn_fx r ++ l ∧ execs l = k ∧ (1 ≤ k ≤ fuel)%nat
    ∧ Forall (attempt_fx (nd_ID node) attempt (attempt + Z.of_nat k)) l
    ∧ FxExecute (nd_ID node) (attempt + 1) ∈ l
    ∧ nr_Attempt nr = attempt + Z.of_nat k ∧ nr_Status nr ≠ "".
Proof.
  revert attempt r. induction fuel as [|fuel IH]; intros attempt r Hf Hpos; [lia|]. simpl.
  set (r0 := emit (FxExecute (nd_ID node) (attempt + 1)) r).
  destruct (nx_Execute x dl node env (rn_world r)) as [[nr execErr] w] eqn:Hx.
  set (nr1 := settle ts (w_ctx_err dl w) nr execErr).
  assert (nr_Status nr1 ≠ "") as Hst by apply settle_status.
  assert (attempt_fx (nd_ID node) attempt (attempt + 1) (FxExecute (nd_ID node) (attempt + 1)))
    as Hone by (right; exists (attempt + 1); split; [done|lia]).
  destruct (negb (nr_Transient nr1) || (rt_maxAttempts pol <=? attempt + 1) || w_ctx_err dl w) eqn:Hstop.
  { eexists _, _, [FxExecute (nd_ID node) (attempt + 1)], 1%nat. split; [done|].
    simpl. split_and!; try done; try lia; [by constructor|set_solver]. }
  set (ev := lifecycle "node.retry" p (nd_ID node) (nd_Type node) StatusFailed (nr_Feedback nr1) ∅ _ None).
  pose proof (publishLifecycle_Quiet ev (set_world w r0)) as HQ1.
  set (r1 := publishLifecycle e ev (set_world w r0)) in *.
  set (fb := truncateForTimeline (Redact (nr_Feedback nr1)) 200).
  pose proof (timeline_emit_Quiet "node.retry" (nd_ID node) StatusFailed fb r1) as HQ2.
  set (r2 := timeline_emit e "node.retry" (nd_ID node) StatusFailed fb r1) in *.
  assert (Quiet (set_world w r0) r2) as HQ by (by etrans).
  destruct HQ as (E1&E2&E3&E4&E5&E6&E7&E8&l0&E9&Hl0). simpl in *.
  destruct (w_select dl (delayFor pol (attempt + 1)) w) as [won w'].
  assert (Forall (attempt_fx (nd_ID node) attempt (attempt + 1)) (FxExecute (nd_ID node) (attempt + 1) :: l0))
    as Hl0'. { constructor; [done|]. eapply Forall_impl; [exact Hl0|]. by left. }
  assert (execs (FxExecute (nd_ID node) (attempt + 1) :: l0) = 1%nat) as He0.
  { change (_ :: l0) with ([FxExecute (nd_ID node) (attempt + 1)] ++ l0).
    rewrite execs_app, (execs_quiet l0) by done. done. }
  destruct won.
  { eexists _, _, (FxExecute (nd_ID node) (attempt + 1) :: l0), 1%nat. split; [done|].
    simpl. rewrite E9, <- app_assoc. split_and!; try done; try lia. set_solver. }
  apply orb_false_iff in Hstop as [[_ Hmax]%orb_false_iff _]. apply Z.leb_gt in Hmax.
  destruct (IH (attempt + 1) (set_world w' r2)) as (nr'&r'&l&k&->&F1&F2&F3&F4&F5&F6&F7&F8&F9&F10&F11&F12&F13);
    [lia|lia|]. simpl in *.
  exists nr', r', ((FxExecute (nd_ID node) (attempt + 1) :: l0) ++ l), (S k).
  split; [done|]. split_and!; try congruence; try lia.
  - rewrite F7, E9, <- !app_assoc. done.
  - rewrite execs_app. lia.
  - apply Forall_app. split.
    + eapply Forall_impl; [exact Hl0'|]. intros f [?|(j&->&?)]; [by left|right].
      exists j. split; [done|lia].
    + eapply Forall_impl; [exact F10|]. intros f [?|(j&->&?)]; [by left|right].
      exists j. split; [done|lia].
  - set_solver.
Qed.

(** ** Recording a node *)

Lemma history_ok_slack g s s' r : s' ≤ s → history_ok g s r → history_ok g s' r.
Proof. intros ? [H1 H2 H3 H4 H5 H6]. constructor; try done. lia. Qed.

Lemma Inv_slack g s s' r : s' ≤ s → Inv g s r → Inv g s' r.
Proof. intros ? [? ? ? ?]. constructor; try done. by eapply history_ok_slack. Qed.

Lemma Inv_record g s r id node nr env :
  node_map g !! id = Some node → recorded_env id nr env →
  trusted_env g (rn_fx r) id env → Inv g s r →
  Inv g s (set_recorded (<[id := nr]> (rn_NodeResults r)) (<[id := env]> (rn_NodeEnvelopes r)) r).
Proof.
  intros Hnode Hrec Htr [I1 I2 I3 [H1 H2 H3 H4 H5 H6]].
  constructor; [done..|]. constructor; simpl; try done.
  - intros j. rewrite !lookup_insert. case_decide; [|done]. split; by eexists.
  - intros j nr' env'. rewrite !lookup_insert. case_decide as Hj; [|by eapply H2].
    intros [= <-] [= <-]. by subst.
  - intros j nr'. rewrite lookup_insert. case_decide as Hj; [|by eapply H3].
    intros _. subst. by rewrite Hnode.
  - intros j env'. rewrite lookup_insert. case_decide as Hj; [|by eapply H4].
    intros [= <-]. by subst.
Qed.

Lemma synthesize_recorded now id nr ms :
  nr_Status nr ≠ "" → recorded_env id nr (synthesizeEnvelope e now id nr ms).
Proof. intros Hst. unfold recorded_env. simpl. split_and!; done. Qed.

Lemma failed_recorded now id fb ms :
  recorded_env id (failed_result fb) (synthesizeEnvelope e now id (failed_result fb) ms).
Proof. by apply synthesize_recorded. Qed.

Lemma failed_trusted g fx now id fb ms :
  trusted_env g fx id (synthesizeEnvelope e now id (failed_result fb) ms).
Proof. intros node x c _ _ _ Hc. simpl in Hc. by apply elem_of_nil in Hc. Qed.

(** ** Promotion *)

Definition promoter (g : GraphSpec) (fx : list Effect) (v : string) (node : NodeSpec)
    (x : NodeExecutor W) : Prop :=
  node_map g !! v = Some node ∧ gx_registry e !! nd_Type node = Some x
  ∧ nx_Deterministic x = true ∧ ∃ k, FxExecute v k ∈ fx.

Lemma gate_of_scope node scope : scope ∈ nodeValidationScopes node → nd_Type node = "gate".
Proof.
  unfold nodeValidationScopes. case_decide as Hn; [by intros ?%elem_of_nil|].
  done.
Qed.

Lemma promote_trusted g fx v node x scope id env :
  promoter g fx v node x → scope ∈ nodeValidationScopes node →
  trusted_env g fx id env → trusted_env g fx id (promote_envelope v scope id env).
Proof.
  intros (Hv&Hx&Hd&k&Hk) Hs Ht n y c Hn Hy Hyd Hc Hval.
  unfold promote_envelope in Hc. simpl in Hc. rewrite promote_claims_fst in Hc.
  apply list_elem_of_fmap in Hc as (c0&->&Hc0).
  destruct (bool_decide (cl_TrustClass c0 = ClaimTrustObserved) && scope_matches scope c0) eqn:Hhit;
    [|by eapply Ht].
  apply andb_true_iff in Hhit as [_ Hm].
  pose proof (gate_of_scope _ _ Hs) as Hg.
  exists node, x, scope, k. simpl. rewrite Hg in Hx. split_and!; try done.
Qed.

Lemma sync_lookup envs results id nr' :
  sync envs results !! id = Some nr' →
  ∃ nr, results !! id = Some nr ∧ nr_Status nr' = nr_Status nr ∧ nr_Attempt nr' = nr_Attempt nr.
Proof.
  unfold sync. rewrite map_lookup_imap. destruct (results !! id) as [nr|]; [|done].
  simpl. intros [= <-]. exists nr. split; [done|].
  destruct (nr_Envelope nr); [|done]. by destruct (envs !! id).
Qed.

Lemma Inv_promote g s r v node x scope :
  promoter g (rn_fx r) v node x → scope ∈ nodeValidationScopes node → Inv g s r →
  let envs := (Promote (rn_NodeEnvelopes r) v scope).1 in
  Inv g s (set_recorded (sync envs (rn_NodeResults r)) envs r).
Proof.
  intros Hp Hs [I1 I2 I3 [H1 H2 H3 H4 H5 H6]] envs.
  assert (∀ id env', envs !! id = Some env' →
    ∃ env, rn_NodeEnvelopes r !! id = Some env ∧ (env' = env ∨ env' = promote_envelope v scope id env))
    as Henv.
  { intros id env'. unfold envs. rewrite Promote_lookup.
    destruct (rn_NodeEnvelopes r !! id) as [env|]; [|done]. simpl. intros [= <-].
    exists env. split; [done|]. destruct (IsEmpty scope); auto. }
  constructor; [done..|]. constructor; simpl; try done.
  - intros id. unfold envs, sync. rewrite map_lookup_imap, Promote_lookup.
    pose proof (H1 id) as Hid. destruct (rn_NodeResults r !! id), (rn_NodeEnvelopes r !! id);
      simpl; split; intros [? ?]; try done; [destruct Hid as [Hid _]|destruct Hid as [_ Hid]];
      by destruct (Hid ltac:(by eexists)).
  - intros id nr' env' (nr&Hnr&Hst&Hat)%sync_lookup (env&Hen&Hor)%Henv.
    pose proof (H2 id nr env Hnr Hen) as Hrec. unfold recorded_env in *.
    rewrite Hst, Hat. by destruct Hor as [-> | ->].
  - intros id nr' (nr&Hnr&_)%sync_lookup. by eapply H3.
  - intros id env' (env&Hen&Hor)%Henv. pose proof (H4 id env Hen) as Ht.
    destruct Hor as [-> | ->]; [done|]. by eapply promote_trusted.
Qed.

Lemma applyPromotions_Inv g s p v node x scopes r :
  promoter g (rn_fx r) v node x → scopes ⊆ nodeValidationScopes node → Inv g s r →
  Inv g s (applyPromotions e p v scopes r).
Proof.
  revert r. induction scopes as [|scope scopes IH]; intros r Hp Hs HI; simpl; [done|].
  pose proof (Inv_promote g s r v node x scope Hp ltac:(set_solver) HI) as HI1. simpl in HI1.
  destruct (Promote (rn_NodeEnvelopes r) v scope) as [envs ps]. simpl in HI1.
  set (r1 := set_recorded _ _ r) in *.
  pose proof (publish_promotions_Quiet p v ps r1) as HQ.
  apply IH; [|set_solver|by eapply Inv_Quiet].
  destruct HQ as (_&_&_&_&_&_&_&_&l&Hl&_). destruct Hp as (?&?&?&k&?).
  split_and!; try done. exists k. rewrite Hl. simpl. set_solver.
Qed.

(** ** How a walk ends *)

Definition ends_in_dead_letter (g : GraphSpec) (node : NodeSpec) (r : Run W) : Prop :=
  if gx_dapr e then
    ∃ l ev dl, rn_fx r = l ++ [FxPublish (gx_pubsub e) LifecycleTopic ev;
                               FxDeadLetter (gx_pubsub e) DeadLetterTopic dl]
      ∧ Forall (fx_ok g) l ∧ le_Event ev = "pipeline.failed"
      ∧ dl_FailedNode dl = nd_ID node ∧ dl_Error dl = rn_Message r
      ∧ dl_NodeResults dl = rn_NodeResults r
  else Forall (fx_ok g) (rn_fx r).

(** A fatal failure: of a foreground node, recorded, dead-lettered last. *)
Definition Fatal (g : GraphSpec) (r : Run W) : Prop :=
  rn_Status r = StatusFailed ∧ history_ok g 0 r
  ∧ ∃ node nr, node_map g !! nd_ID node = Some node ∧ IsBackground node = false
    ∧ rn_NodeResults r !! nd_ID node = Some nr ∧ nr_Status nr = StatusFailed
    ∧ ends_in_dead_letter g node r.

Definition Aborted (g : GraphSpec) (msg : string) (r : Run W) : Prop :=
  rn_Status r = StatusFailed ∧ rn_Message r = msg ∧ Forall (fx_ok g) (rn_fx r)
  ∧ history_ok g 0 r.

(** [i]: the visits the walk had counted when the node was dequeued. *)
Definition Outcome_ok (g : GraphSpec) (i : Z) (o : Outcome) : Prop :=
  match o with
  | Continue r => Inv g 0 r ∧ rn_iterations r = i
  | Return r None => Fatal g r
  | Return r (Some msg) => Aborted g msg r
  end.

Lemma unhandled_ok g p node nr msg r :
  node_map g !! nd_ID node = Some node →
  rn_NodeResults r !! nd_ID node = Some nr → nr_Status nr = StatusFailed → Inv g 0 r →
  Outcome_ok g (rn_iterations r) (let '(fatal, r) := unhandledNodeFailure e p node msg r in
                if fatal then Return r None else Continue r).
Proof.
  intros Hnode Hnr Hst [I1 I2 I3 I4]. unfold unhandledNodeFailure.
  destruct (IsBackground node) eqn:Hb; [by split; [constructor|]|]. simpl.
  unfold publishLifecycle, publishDeadLetter.
  destruct (gx_dapr e) eqn:Hd; simpl; unfold Fatal, ends_in_dead_letter; rewrite Hd; simpl.
  - split; [done|]. split.
    { do 2 (apply history_ok_emit; [done|]). by apply history_ok_outcome. }
    exists node, nr. split_and!; try done.
    eexists _, _, _. rewrite <- app_assoc. by split_and!.
  - split; [done|]. split.
    { by apply history_ok_outcome. }
    exists node, nr. by split_and!.
Qed.

Lemma route_failure_ok g p node nr msg r :
  node_map g !! nd_ID node = Some node →
  rn_NodeResults r !! nd_ID node = Some nr → nr_Status nr = StatusFailed → Inv g 0 r →
  Outcome_ok g (rn_iterations r) (route_failure g p node nr msg r).
Proof.
  intros Hnode Hnr Hst HI. unfold GraphExec.route_failure.
  pose proof (follow_edges_spec g nr (out_edges g (nd_ID node)) false r) as Hs.
  pose proof (follow_edges_Inv g 0 nr (out_edges g (nd_ID node)) false r HI) as HI'.
  destruct (GraphExec.follow_edges _ _ _ _ _ r) as [h r']. simpl in HI'.
  destruct Hs as ((_&_&E3&_&E5&_)&_). rewrite <- E5.
  destruct h; [by split|]. eapply unhandled_ok; [done| |exact Hst|done]. by rewrite E3.
Qed.

Lemma deny_node_ok g p node vs r :
  node_map g !! nd_ID node = Some node → Inv g 0 r →
  Outcome_ok g (rn_iterations r) (deny_node quote render e g p node vs r).
Proof.
  intros Hnode HI. unfold deny_node.
  set (fb := FormatViolations quote vs). set (now := w_now (rn_world r)).
  set (env := synthesizeEnvelope e now (nd_ID node) (failed_result fb) 0).
  pose proof (Inv_record g 0 r (nd_ID node) node (failed_result fb) env Hnode
    (failed_recorded _ _ _ _) (failed_trusted _ _ _ _ _ _) HI) as HI1.
  set (r1 := set_recorded _ _ r) in *.
  pose proof (on_node_result_Quiet env r1) as Q1. set (r2 := on_node_result e env r1) in *.
  pose proof (checkpoint_Quiet p (nd_ID node) (failed_result fb) r2) as Q2.
  set (r3 := checkpoint e p _ _ r2) in *.
  match goal with |- context [publishLifecycle e ?ev r3] => pose proof (publishLifecycle_Quiet ev r3) as Q3 end.
  set (r4 := publishLifecycle e _ r3) in *.
  assert (Quiet r1 r4) as Q by (etrans; [exact Q1|]; etrans; [exact Q2|exact Q3]).
  replace (rn_iterations r) with (rn_iterations r4) by apply Q.
  apply route_failure_ok; [done| |done|by eapply Inv_Quiet].
  destruct Q as (_&_&->&_). simpl. apply lookup_insert_eq.
Qed.

Lemma miss_node_ok g p node err start r :
  node_map g !! nd_ID node = Some node → Inv g 0 r →
  Outcome_ok g (rn_iterations r) (miss_node e p node err start r).
Proof.
  intros Hnode HI. unfold miss_node.
  set (ms := elapsed_ms start _).
  set (env := synthesizeEnvelope e _ (nd_ID node) (failed_result err) ms).
  pose proof (Inv_record g 0 r (nd_ID node) node (failed_result err) env Hnode
    (failed_recorded _ _ _ _) (failed_trusted _ _ _ _ _ _) HI) as HI1.
  set (r1 := set_recorded _ _ r) in *.
  pose proof (on_node_result_Quiet env r1) as Q1. set (r2 := on_node_result e env r1) in *.
  match goal with |- context [publishLifecycle e ?ev r2] => pose proof (publishLifecycle_Quiet ev r2) as Q2 end.
  set (r3 := publishLifecycle e _ r2) in *.
  assert (Quiet r1 r3) as Q by (etrans; [exact Q1|exact Q2]).
  replace (rn_iterations r) with (rn_iterations r3) by apply Q.
  eapply (unhandled_ok g p node (failed_result err)); [done| |done|by eapply Inv_Quiet].
  destruct Q as (_&_&->&_). simpl. apply lookup_insert_eq.
Qed.

Lemma enforced_trusted g fx id node x env :
  node_map g !! id = Some node → gx_registry e !! nd_Type node = Some x →
  trusted_env g fx id (default env (Enforce (nx_Deterministic x) (Some env)).1).
Proof.
  intros Hn Hx n y c Hn' Hy Hyd Hc Hv. simplify_eq. rewrite Hyd in Hc. simpl in Hc.
  pose proof (demote_claims_spec (ne_Claims env)) as Hd.
  destruct (demote_claims (ne_Claims env)) as [cs k]. destruct Hd as [-> _]. simpl in Hc.
  apply list_elem_of_fmap in Hc as (c0&->&_). unfold claim_validated in Hv.
  case_bool_decide; simpl in Hv; [by unfold ClaimTrustObserved, ClaimTrustValidated in Hv|done].
Qed.

Lemma Enforce_keeps b env :
  let env' := default env (Enforce b (Some env)).1 in
  ∃ cs, env' = set_claims cs env.
Proof.
  simpl. destruct b; [exists (ne_Claims env); by destruct env|].
  destruct (demote_claims _) as [cs k]. by exists cs.
Qed.

Lemma follow_edges_iterations g nr edges h r :
  rn_iterations (follow_edges (node_map g) nr edges h r).2 = rn_iterations r.
Proof.
  pose proof (follow_edges_spec g nr edges h r) as Hs.
  destruct (GraphExec.follow_edges _ _ _ _ h r) as [h' r']. by apply Hs.
Qed.

Lemma applyPromotions_iterations p v scopes r :
  rn_iterations (applyPromotions e p v scopes r) = rn_iterations r.
Proof.
  revert r. induction scopes as [|scope scopes IH]; intros r; simpl; [done|].
  destruct (Promote _ _ _) as [envs ps]. rewrite IH.
  by destruct (publish_promotions_Quiet p v ps (set_recorded (sync envs (rn_NodeResults r)) envs r))
    as (_&_&_&_&_&_&->&_).
Qed.

Lemma finish_node_ok g p node x start nr r :
  node_map g !! nd_ID node = Some node → gx_registry e !! nd_Type node = Some x →
  nr_Status nr ≠ "" → (∃ k, FxExecute (nd_ID node) k ∈ rn_fx r) → Inv g 0 r →
  Outcome_ok g (rn_iterations r) (finish_node g p node x start nr r).
Proof.
  intros Hnode Hx Hst Hex HI. unfold GraphExec.finish_node.
  set (id := nd_ID node) in *. set (ms := elapsed_ms start _).
  set (fb := if decide _ then "" else _).
  pose proof (timeline_emit_Quiet "node.completed" id (nr_Status nr) fb r) as Q0.
  set (r0 := timeline_emit e _ _ _ _ r) in *.
  set (env0 := synthesizeEnvelope e _ id nr ms).
  set (env := default env0 _). set (nr' := set_nr_Envelope _ nr).
  assert (recorded_env id nr' env) as Hrec.
  { destruct (Enforce_keeps (nx_Deterministic x) env0) as [cs Hcs].
    fold env in Hcs. rewrite Hcs. unfold recorded_env. by split_and!. }
  pose proof (Inv_record g 0 r0 id node nr' env Hnode Hrec
    (enforced_trusted g (rn_fx r0) id node x env0 Hnode Hx) (Inv_Quiet _ _ _ _ Q0 HI)) as HI1.
  set (r1 := set_recorded _ _ r0) in *.
  pose proof (on_node_result_Quiet env r1) as Q1. set (r2 := on_node_result e env r1) in *.
  pose proof (checkpoint_Quiet p id nr' r2) as Q2. set (r3 := checkpoint e p id nr' r2) in *.
  match goal with |- context [publishLifecycle e ?ev r3] => pose proof (publishLifecycle_Quiet ev r3) as Q3 end.
  set (r4 := publishLifecycle e _ r3) in *.
  assert (Quiet r1 r4) as Q by (etrans; [exact Q1|]; etrans; [exact Q2|exact Q3]).
  pose proof (Inv_Quiet _ _ _ _ Q HI1) as HI4.
  assert (rn_iterations r4 = rn_iterations r) as Hit
    by (transitivity (rn_iterations r1); [apply Q|]; transitivity (rn_iterations r0); [done|apply Q0]).
  case_bool_decide as Hf.
  - rewrite <- Hit. apply (route_failure_ok g p node nr'); [done| |exact Hf|done].
    destruct Q as (_&_&->&_). simpl. apply lookup_insert_eq.
  - split; [apply follow_edges_Inv|rewrite follow_edges_iterations];
      (destruct (bool_decide (nr_Status nr' = StatusGreen) && nx_Deterministic x) eqn:Hpr; [|done]);
      [|by rewrite applyPromotions_iterations].
    apply andb_true_iff in Hpr as [_ Hdet].
    eapply (applyPromotions_Inv g 0 p id node x); [|done|done].
    split_and!; try done. destruct Hex as [k Hk]. exists k.
    destruct Q as (_&_&_&_&_&_&_&_&l&->&_). apply elem_of_app. left. simpl.
    destruct Q0 as (_&_&_&_&_&_&_&_&l0&->&_). set_solver.
Qed.

Lemma execute_node_ok g p node env r :
  node_map g !! nd_ID node = Some node → AuthorizeNode (gx_bindings e) node = [] →
  (NoDup (nd_ID <$> gr_Nodes g) → nd_Type node ≠ NodeTypeExternal) →
  Inv g maxRetryAttemptsCap r →
  ∃ o, execute_node g p node env r = Some o ∧ Outcome_ok g (rn_iterations r) o.
Proof.
  intros Hnode Hauth Hext HI. unfold GraphExec.execute_node.
  match goal with |- context [publishLifecycle e ?ev r] => pose proof (publishLifecycle_Quiet ev r) as Q1 end.
  set (r1 := publishLifecycle e _ r) in *. pose proof (Inv_Quiet _ _ _ _ Q1 HI) as HI1.
  destruct (Get quote (gx_registry e) (nd_Type node)) as [x|err] eqn:Hget.
  2: { eexists. split; [done|]. replace (rn_iterations r) with (rn_iterations r1) by apply Q1.
       apply miss_node_ok; [done|]. by apply (Inv_slack g maxRetryAttemptsCap). }
  apply Get_Ok in Hget. destruct (node_deadline node _) as [dl ts].
  pose proof (timeline_emit_Quiet "node.started" (nd_ID node) "" "" r1) as Q2.
  set (r2 := timeline_emit e _ _ _ _ r1) in *. pose proof (Inv_Quiet _ _ _ _ Q2 HI1) as HI2.
  set (pol := retryPolicyOf (nd_Retry node)).
  destruct (retryPolicyOf_wf (nd_Retry node)) as (Hmax&_). fold pol in Hmax.
  destruct (retry_loop_spec (Z.to_nat (rt_maxAttempts pol)) p pol x dl ts node env
    (w_now (rn_world r)) 0 r2)
    as (nr&r3&l&k&->&E1&E2&E3&E4&E5&E6&E7&Hk&Hk'&Hl&Hfirst&Hat&Hst); [lia|lia|].
  eexists. split; [done|].
  assert (rn_iterations r3 = rn_iterations r) as Hit.
  { rewrite E6. transitivity (rn_iterations r1); [apply Q2|apply Q1]. }
  assert (Inv g 0 r3) as HI3.
  { destruct HI2 as [I1 I2 I3 I4]. constructor.
    - congruence.
    - rewrite E7. apply Forall_app. split; [done|]. eapply Forall_impl; [exact Hl|].
      intros f [Hq|(j&->&Hj)]; [by apply quiet_fx_ok|].
      exists node, x. fold pol. split_and!; try done; lia.
    - by rewrite E4.
    - destruct I4 as [H1 H2 H3 H4 H5 H6]. constructor; rewrite ?E2, ?E3, ?E6, ?E7; try done.
      + intros id env0 Henv. eapply trusted_env_mono; [|by apply H4]. set_solver.
      + rewrite execs_app. unfold maxRetryAttemptsCap in *. lia. }
  rewrite <- Hit. apply finish_node_ok; try done. eexists. rewrite E7. apply elem_of_app. right. exact Hfirst.
Qed.

Lemma visit_ok g p id r :
  (NoDup (nd_ID <$> gr_Nodes g) → isExternalNode (node_map g) id = false) →
  Inv g maxRetryAttemptsCap r →
  ∃ o, visit g p id r = Some o ∧ Outcome_ok g (rn_iterations r) o.
Proof.
  intros Hext HI. unfold GraphExec.visit. destruct (node_map g !! id) as [node|] eqn:Hnode.
  - destruct (node_map_id _ _ _ Hnode) as [<- _].
    destruct (AuthorizeNode (gx_bindings e) node) as [|v vs] eqn:Ha.
    + apply execute_node_ok; try done. intros Hnd. specialize (Hext Hnd).
      unfold isExternalNode in Hext. rewrite Hnode in Hext. by case_bool_decide.
    + eexists. split; [done|]. apply deny_node_ok; [done|]. by apply (Inv_slack g maxRetryAttemptsCap).
  - eexists. split; [done|]. destruct HI as [I1 I2 I3 I4]. simpl. unfold Aborted. simpl.
    split_and!; try done. eapply history_ok_slack; [|by apply history_ok_outcome]. done.
Qed.

Definition Completed (g : GraphSpec) (r : Run W) : Prop :=
  rn_Status r = StatusGreen ∧ rn_Message r = "pipeline completed" ∧ rn_queue r = []
  ∧ Forall (fx_ok g) (rn_fx r) ∧ history_ok g 0 r.

Definition Ended (g : GraphSpec) (r : Run W) (err : option string) : Prop :=
  match err with
  | None => Completed g r ∨ Fatal g r
  | Some msg => Aborted g msg r
  end.

Lemma walk_ok fuel g p r :
  Inv g 0 r → MaxIterations < rn_iterations r + Z.of_nat fuel →
  ∃ r' err, walk fuel g p r = Some (r', err) ∧ Ended g r' err.
Proof.
  revert r. induction fuel as [|fuel IH]; intros r HI Hf.
  { destruct HI as [_ _ _ [_ _ _ _ ? _]]. lia. }
  simpl. destruct (rn_queue r) as [|id rest] eqn:Hq.
  - match goal with |- context [publishLifecycle e ?ev ?r0] => pose proof (publishLifecycle_Quiet ev r0) as Q end.
    eexists _, None. split; [done|]. left.
    assert (Inv g 0 (set_outcome (rn_Status r) "pipeline completed" r)) as HI0.
    { destruct HI as [I1 I2 I3 [H1 H2 H3 H4 H5 H6]]. by constructor. }
    pose proof (Inv_Quiet _ _ _ _ Q HI0) as [I1 I2 _ I4].
    destruct Q as (_&Q2&_&_&Q5&_). split_and!; [done|done| |done|done]. by rewrite Q5.
  - destruct (MaxIterations <=? rn_iterations r) eqn:Hm.
    + eexists _, _. split; [done|]. destruct HI as [I1 I2 I3 [H1 H2 H3 H4 H5 H6]]. by split_and!.
    + apply Z.leb_gt in Hm. set (r1 := set_queue rest _).
      assert (Inv g maxRetryAttemptsCap r1) as HI1.
      { destruct HI as [I1 I2 I3 [H1 H2 H3 H4 H5 H6]]. constructor; try done.
        - intros Hnd j Hj. apply I3; [done|]. rewrite Hq. by apply elem_of_cons; right.
        - constructor; simpl; try done; unfold maxRetryAttemptsCap in *; lia. }
      destruct (visit_ok g p id r1) as (o&Hv&Ho); [|done|].
      { intros Hnd. apply (inv_queue _ _ _ HI Hnd). rewrite Hq. by apply elem_of_cons; left. }
      rewrite Hv. destruct o as [r2|r2 [msg|]].
      * destruct Ho as [Ho Hit]. destruct (IH r2 Ho) as (r'&err&->&?); [|by exists r', err].
        rewrite Hit. simpl. lia.
      * by exists r2, (Some msg).
      * exists r2, None. split; [done|]. by right.
Qed.

(** ** The whole run *)

Lemma entry_not_external g id :
  NoDup (nd_ID <$> gr_Nodes g) → id ∈ entry_nodes g → isExternalNode (node_map g) id = false.
Proof.
  intros Hnd (n&->&[[_ Hn] Hin]%list_elem_of_filter)%list_elem_of_fmap.
  unfold isExternalNode. rewrite (node_map_nodup g n Hnd Hin). by case_bool_decide.
Qed.

Lemma start_history g w : history_ok g 0 (start_run w).
Proof.
  constructor; simpl; try done.
  - intros id. rewrite !lookup_empty. split; by intros [? ?].
Qed.

Lemma start_Inv g w q :
  (NoDup (nd_ID <$> gr_Nodes g) → ∀ id, id ∈ q → isExternalNode (node_map g) id = false) →
  Inv g 0 (set_queue q (start_run w)).
Proof. intros Hq. constructor; simpl; try done. destruct (start_history g w). by constructor. Qed.

(** Every run ends, in one of three ways. *)
Definition Ending (g : GraphSpec) (r : Run W) (err : option string) : Prop :=
  match err with
  | None => Completed g r ∨ Fatal g r
  | Some _ => rn_Status r = StatusFailed ∧ Forall (fx_ok g) (rn_fx r) ∧ history_ok g 0 r
  end.

Lemma Execute_ok g p w : ∃ r err, Execute g p w = Some (r, err) ∧ Ending g r err.
Proof.
  unfold GraphExec.Execute. destruct (background_violation g) as [n|].
  { eexists _, (Some _). split; [done|]. split; [done|]. split; [by constructor|].
    apply history_ok_outcome, start_history. }
  destruct (entry_nodes g) as [|id q] eqn:Hq.
  { eexists _, (Some _). split; [done|]. split; [done|]. split; [by constructor|].
    apply history_ok_outcome, start_history. }
  match goal with |- context [publishLifecycle e ?ev ?r0] =>
    pose proof (publishLifecycle_Quiet ev r0) as Q end.
  set (r1 := publishLifecycle e _ _) in *.
  destruct (walk_ok walk_fuel g p r1) as (r'&err&Hw&Hend).
  - eapply Inv_Quiet; [exact Q|]. apply start_Inv. intros Hnd j. rewrite <- Hq.
    by apply entry_not_external.
  - destruct Q as (_&_&_&_&_&_&->&_). done.
  - exists r', err. split; [done|]. destruct err as [msg|]; [|done].
    by destruct Hend as (?&_&?&?).
Qed.

Definition recorded_effect (g : GraphSpec) (f : Effect) : Prop :=
  fx_ok g f ∨ ∃ pubsub topic dl, f = FxDeadLetter pubsub topic dl.

(** Whatever the ending, the history is sound and every execution was allowed. *)
Lemma Ending_history g r err : Ending g r err → history_ok g 0 r.
Proof. destruct err; simpl; [by intros (_&_&?)|]. by intros [(_&_&_&_&?)|(_&?&_)]. Qed.

Lemma Ending_effects g r err : Ending g r err → Forall (recorded_effect g) (rn_fx r).
Proof.
  assert (∀ l, Forall (fx_ok g) l → Forall (recorded_effect g) l) as Hw.
  { intros l Hl. eapply Forall_impl; [exact Hl|]. by left. }
  destruct err; simpl; [intros (_&?&_); auto|].
  intros [(_&_&_&?&_)|(_&_&node&nr&_&_&_&_&Hend)]; [auto|].
  unfold ends_in_dead_letter in Hend. destruct (gx_dapr e); [|auto].
  destruct Hend as (l&ev&dl&->&Hl&_). apply Forall_app. split; [auto|].
  constructor; [by left|]. constructor; [|constructor]. right. by eexists _, _, _.
Qed.

Lemma Ending_exec g r err id k : Ending g r err → FxExecute id k ∈ rn_fx r → exec_ok g id k.
Proof.
  intros He%Ending_effects Hin. rewrite Forall_forall in He.
  destruct (He _ Hin) as [?|(?&?&?&?)]; [done|congruence].
Qed.

(** ** Rule induction over a walk *)

Lemma walk_rule (P : Run W → Prop) fuel g p r r' :
  (∀ rest r, P r → P (set_queue rest (set_iterations (rn_iterations r + 1) r))) →
  (∀ id r r', P r → visit g p id r = Some (Continue r') → P r') →
  P r → walk fuel g p r = Some (r', None) →
  (∃ r0, P r0 ∧ r' = publishLifecycle e (lifecycle "pipeline.completed" p "" "" StatusGreen "" ∅ 0 None)
                       (set_outcome (rn_Status r0) "pipeline completed" r0))
  ∨ (∃ id r0, P r0 ∧ visit g p id r0 = Some (Return r' None)).
Proof.
  intros Hd Hv. revert r. induction fuel as [|fuel IH]; intros r HP; simpl.
  { destruct (rn_queue r); [|done]. intros [= <-]. left. by exists r. }
  destruct (rn_queue r) as [|id rest]; [intros [= <-]; left; by exists r|].
  destruct (MaxIterations <=? _); [done|].
  set (r1 := set_queue rest _). destruct (visit g p id r1) as [[r2|r2 [msg|]]|] eqn:Hr; try done.
  - apply IH. eapply Hv; [|exact Hr]. by apply Hd.
  - intros [= <-]. right. exists id, r1. split; [by apply Hd|done].
Qed.
End invariants.
