(* ===== verification/GraphStep.v ===== *)
(** * One visit, seen from outside

    What a visit of a node may change of the walk: the node's own result, the
    end of the queue (targets of the node's edges that its result traverses)
    and the effects (executions of that node only). Theorems about particular
    graphs, such as the compiled ones, follow from this step. *)

From S2P Require Import Prelude GoTime Api ClaimTrust Capability GraphTypes GraphRetry Redact GraphExec GraphInv.

Section step.
Context {W : Type} `{World W}.
Context (quote : string → string).
Context (render : string → gmap string NodeOutputs → option string).
Context `{JsonCodec GateNodeConfig}.
Variable e : GraphExecutor W.

Definition statuses (r : Run W) : gmap string string := nr_Status <$> rn_NodeResults r.

Lemma statuses_lookup r id : statuses r !! id = nr_Status <$> rn_NodeResults r !! id.
Proof. unfold statuses. by rewrite lookup_fmap. Qed.

Definition runs_only (id : string) (l : list Effect) : Prop := ∀ j k, FxExecute j k ∈ l → j = id.

(** Nothing but the record of [id] and the effects of its execution. *)
Definition Frame (id : string) (r r' : Run W) : Prop :=
  (∀ j, j ≠ id → statuses r' !! j = statuses r !! j)
  ∧ rn_queue r' = rn_queue r ∧ ∃ l, rn_fx r' = rn_fx r ++ l ∧ runs_only id l.

#[export] Instance Frame_refl id : Reflexive (Frame id).
Proof.
  intros r. split_and!; [done..|]. exists []. rewrite app_nil_r. split; [done|].
  by intros j k ?%elem_of_nil.
Qed.

#[export] Instance Frame_trans id : Transitive (Frame id).
Proof.
  intros r1 r2 r3 (A1&B1&l1&C1&D1) (A2&B2&l2&C2&D2). split_and!; [|congruence|].
  - intros j Hj. by rewrite A2, A1.
  - exists (l1 ++ l2). rewrite C2, C1, app_assoc. split; [done|].
    intros j k [?|?]%elem_of_app; eauto.
Qed.

Lemma Quiet_Frame id r r' : Quiet r r' → Frame id r r'.
Proof.
  intros (_&_&E&_&Eq&_&_&_&l&El&Hl). split_and!; [|done|].
  - intros j _. unfold statuses. by rewrite E.
  - exists l. split; [done|]. intros j k Hin. rewrite Forall_forall in Hl. by destruct (Hl _ Hin).
Qed.

Lemma record_Frame id nr envs r :
  Frame id r (set_recorded (<[id := nr]> (rn_NodeResults r)) envs r).
Proof.
  split_and!; [|done|].
  - intros j Hj. unfold statuses. simpl. by rewrite fmap_insert, lookup_insert_ne.
  - exists []. rewrite app_nil_r. split; [done|]. by intros j k ?%elem_of_nil.
Qed.

Lemma promotions_Frame id p v scopes r :
  Frame id r (applyPromotions e p v scopes r)
  ∧ statuses (applyPromotions e p v scopes r) = statuses r.
Proof.
  revert r. induction scopes as [|scope scopes IH]; intros r; simpl; [done|].
  destruct (Promote _ _ _) as [envs ps]. set (r1 := set_recorded _ envs r).
  assert (statuses r1 = statuses r) as Hs.
  { apply map_eq. intros j. unfold statuses. simpl. unfold sync.
    rewrite !lookup_fmap, map_lookup_imap. destruct (rn_NodeResults r !! j) as [nr|]; [|done].
    simpl. f_equal. destruct (nr_Envelope nr); [|done]. by destruct (envs !! j). }
  pose proof (publish_promotions_Quiet e p v ps r1) as HQ.
  destruct (IH (publish_promotions e p v ps r1)) as [IH1 IH2]. split.
  - etrans; [|exact IH1]. etrans; [|by apply Quiet_Frame].
    split_and!; [by intros j _; rewrite Hs|done|].
    exists []. rewrite app_nil_r. split; [done|]. by intros j k ?%elem_of_nil.
  - rewrite IH2, <- Hs. unfold statuses. by destruct HQ as (_&_&->&_).
Qed.

(** The edges a result traverses. *)
Definition traversed (g : GraphSpec) (id : string) (nr : NodeResult)
    (all : gmap string NodeResult) : list string :=
  ed_To <$> filter (λ ed, shouldTraverse render ed nr all = true) (out_edges g id).

(** Edges without a loop-back bound, to nodes that execute. *)
Definition unbounded (nm : gmap string NodeSpec) (edges : list EdgeSpec) : Prop :=
  Forall (λ ed, ed_MaxRetries ed = 0 ∧ isExternalNode nm (ed_To ed) = false) edges.

Lemma follow_edges_sublist nm nr edges h (r : Run W) :
  let r' := (follow_edges render nm nr edges h r).2 in
  let targets := ed_To <$> filter
    (λ ed, shouldTraverse render ed nr (rn_NodeResults r) = true) edges in
  rn_NodeResults r' = rn_NodeResults r ∧ rn_fx r' = rn_fx r
  ∧ ∃ l, rn_queue r' = rn_queue r ++ l ∧ sublist l targets
      ∧ (unbounded nm edges → l = targets).
Proof.
  revert h r. induction edges as [|edge edges IH]; intros h r; simpl.
  { split_and!; [done..|]. exists []. by rewrite app_nil_r. }
  destruct (shouldTraverse render edge nr (rn_NodeResults r)) eqn:Ht.
  - rewrite filter_cons_True by done. unfold enqueueEdge.
    destruct (isExternalNode nm (ed_To edge)) eqn:Hx.
    { destruct (IH true r) as (?&?&l&?&?&?). split_and!; [done..|]. exists l.
      split_and!; [done|by apply sublist_cons|].
      intros [[_ ?] _]%Forall_cons. congruence. }
    destruct ((0 <? ed_MaxRetries edge) && _) eqn:Hb; simpl.
    + destruct (IH h (set_edgeCount (<[edge_key edge:=
        default 0 (rn_edgeCount r !! edge_key edge) + 1]> (rn_edgeCount r)) r)) as (?&?&l&?&?&?).
      split_and!; [done..|]. exists l. split_and!; [done|by apply sublist_cons|].
      intros [[? _] _]%Forall_cons. lia.
    + match goal with |- context [follow_edges render nm nr edges true ?r1] =>
        destruct (IH true r1) as (?&?&l&Hl&?&Hall) end.
      split_and!; [done..|]. exists (ed_To edge :: l). simpl in *. rewrite Hl, <- app_assoc.
      split_and!; [done|by apply sublist_skip|].
      intros [_ Hu]%Forall_cons. by rewrite Hall.
  - rewrite filter_cons_False by congruence.
    destruct (IH h r) as (?&?&l&?&?&?). split_and!; [done..|]. exists l. split_and!; [done..|].
    intros [_ ?]%Forall_cons. auto.
Qed.

(** One visit of [id]. *)
Definition Step (g : GraphSpec) (id : string) (r r' : Run W) : Prop :=
  (∀ j, j ≠ id → statuses r' !! j = statuses r !! j)
  ∧ (∃ l, rn_fx r' = rn_fx r ++ l ∧ runs_only id l)
  ∧ ∃ l nr all, rn_queue r' = rn_queue r ++ l ∧ sublist l (traversed g id nr all)
      ∧ statuses r' !! id = Some (nr_Status nr)
      ∧ (nr_Status nr ≠ StatusFailed → unbounded (node_map g) (out_edges g id) →
         l = traversed g id nr all).

Lemma Frame_Step g id r r' :
  Frame id r r' → statuses r' !! id = Some StatusFailed → Step g id r r'.
Proof.
  intros (H1&H2&H3) Hst. split_and!; [done..|]. exists [], (failed_result ""), ∅.
  rewrite app_nil_r. split_and!; [done|apply sublist_nil_l|done|done].
Qed.

Lemma Frame_follow g id nr h r r1 :
  Frame id r r1 → statuses r1 !! id = Some (nr_Status nr) →
  Step g id r (follow_edges render (node_map g) nr (out_edges g id) h r1).2.
Proof.
  intros (H1&H2&l&H3&H4) Hst.
  destruct (follow_edges_sublist (node_map g) nr (out_edges g id) h r1) as (E1&E2&l'&E3&E4&E5).
  set (r2 := (follow_edges render _ _ _ _ _).2) in *. split_and!.
  - intros j Hj. unfold statuses. rewrite E1. by apply H1.
  - exists l. by rewrite E2.
  - exists l', nr, (rn_NodeResults r1). rewrite E3, H2. split_and!; [done..| |auto].
    unfold statuses. by rewrite E1.
Qed.

Lemma Step_emit g id f r r' : is_exec f = false → Step g id r r' → Step g id r (emit f r').
Proof.
  intros Hf (H1&(l&H2&H3)&H4). split_and!; [done| |done].
  exists (l ++ [f]). simpl. rewrite H2, app_assoc. split; [done|].
  intros j k [?|Hin]%elem_of_app; [eauto|]. apply list_elem_of_singleton in Hin. by subst.
Qed.

Lemma Step_outcome g id st msg r r' : Step g id r r' → Step g id r (set_outcome st msg r').
Proof. done. Qed.

Definition outcome_run (o : Outcome) : Run W := match o with Continue r => r | Return r _ => r end.

Lemma unhandled_run g p node msg r0 r :
  Step g (nd_ID node) r0 r →
  Step g (nd_ID node) r0 (outcome_run (let '(fatal, r) := unhandledNodeFailure e p node msg r in
                                       if fatal then Return r None else Continue r)).
Proof.
  intros HS. unfold unhandledNodeFailure. destruct (IsBackground node); [done|]. simpl.
  unfold publishDeadLetter, publishLifecycle.
  destruct (gx_dapr e); [do 2 (apply Step_emit; [done|])|]; by apply Step_outcome.
Qed.

Lemma route_failure_Step g p node nr msg r r1 :
  Frame (nd_ID node) r r1 → statuses r1 !! nd_ID node = Some (nr_Status nr) →
  Step g (nd_ID node) r (outcome_run (route_failure render e g p node nr msg r1)).
Proof.
  intros HF Hst. unfold route_failure. pose proof (Frame_follow g _ nr false r r1 HF Hst) as HS.
  destruct (follow_edges _ _ _ _ _ r1) as [h r2]. destruct h; [exact HS|]. by apply unhandled_run.
Qed.

Ltac frames :=
  repeat first
    [ apply Quiet_Frame; first [apply publishLifecycle_Quiet | apply checkpoint_Quiet
        | apply on_node_result_Quiet | apply timeline_emit_Quiet]
    | apply record_Frame | reflexivity
    | etrans; [|apply Quiet_Frame, publishLifecycle_Quiet]
    | etrans; [|apply Quiet_Frame, checkpoint_Quiet]
    | etrans; [|apply Quiet_Frame, on_node_result_Quiet]
    | etrans; [|apply Quiet_Frame, timeline_emit_Quiet]
    | etrans; [|apply record_Frame] ].

Lemma recorded_status id nr envs r r2 :
  Quiet (set_recorded (<[id := nr]> (rn_NodeResults r)) envs r) r2 →
  statuses r2 !! id = Some (nr_Status nr).
Proof.
  intros (_&_&E&_). unfold statuses. rewrite E. simpl. by rewrite fmap_insert, lookup_insert_eq.
Qed.

Ltac quiets :=
  repeat first [ apply publishLifecycle_Quiet | apply checkpoint_Quiet
               | apply on_node_result_Quiet | reflexivity
               | etrans; [|apply publishLifecycle_Quiet]
               | etrans; [|apply checkpoint_Quiet] | etrans; [|apply on_node_result_Quiet] ].

Lemma deny_node_Step g p node vs r :
  Step g (nd_ID node) r (outcome_run (deny_node quote render e g p node vs r)).
Proof.
  unfold deny_node. apply route_failure_Step; [frames|]. eapply recorded_status. quiets.
Qed.

Lemma miss_node_Step g p node err start r0 r :
  Frame (nd_ID node) r0 r →
  Step g (nd_ID node) r0 (outcome_run (miss_node e p node err start r)).
Proof.
  intros HF. unfold miss_node. apply unhandled_run, Frame_Step.
  - etrans; [exact HF|]. frames.
  - change StatusFailed with (nr_Status (failed_result err)). eapply recorded_status. quiets.
Qed.

Lemma finish_node_Step g p node x start nr r0 r :
  Frame (nd_ID node) r0 r →
  Step g (nd_ID node) r0 (outcome_run (finish_node render e g p node x start nr r)).
Proof.
  intros HF. unfold finish_node. set (nr' := set_nr_Envelope _ nr).
  set (r1 := publishLifecycle e _ _).
  assert (Frame (nd_ID node) r0 r1) as HF1 by (etrans; [exact HF|]; unfold r1; frames).
  assert (statuses r1 !! nd_ID node = Some (nr_Status nr')) as Hst
    by (eapply recorded_status; quiets).
  case_bool_decide; [by apply route_failure_Step|]. simpl. apply Frame_follow.
  - destruct (_ && _); [|done]. etrans; [exact HF1|]. apply promotions_Frame.
  - destruct (_ && _); [|done]. by rewrite (proj2 (promotions_Frame (nd_ID node) p (nd_ID node) _ r1)).
Qed.

Lemma retry_loop_Frame fuel p pol x dl ts node env start attempt r nr r' :
  Z.of_nat fuel = rt_maxAttempts pol - attempt → (0 < fuel)%nat →
  retry_loop e fuel p pol x dl ts node env start attempt r = Some (nr, r') →
  Frame (nd_ID node) r r'.
Proof.
  intros Hf Hp Hr.
  destruct (retry_loop_spec quote render e fuel p pol x dl ts node env start attempt r Hf Hp)
    as (nr1&r1&l&k&Hr1&_&E2&_&E4&_&_&E7&_&_&Hl&_).
  rewrite Hr in Hr1. injection Hr1 as <- <-. split_and!.
  - intros j _. unfold statuses. by rewrite E2.
  - done.
  - exists l. split; [done|]. intros j n Hin. rewrite Forall_forall in Hl.
    destruct (Hl _ Hin) as [Hq|(m&Hm&_)]; [done|congruence].
Qed.

(** What a visit of a node of the graph may change. *)
Lemma visit_Step g p id r o :
  is_Some (node_map g !! id) → visit quote render e g p id r = Some o →
  Step g id r (outcome_run o).
Proof.
  intros [node Hn]. unfold visit. rewrite Hn. destruct (node_map_id _ _ _ Hn) as [<- _].
  destruct (AuthorizeNode _ _) as [|v vs]; [|intros [= <-]; apply deny_node_Step].
  unfold execute_node. destruct (Get _ _ _) as [x|err].
  2: { intros [= <-]. apply miss_node_Step. frames. }
  destruct (node_deadline _ _) as [dl ts].
  destruct (retry_loop _ _ _ _ _ _ _ _ _ _ _ _) as [[nr r2]|] eqn:Hr; [|done].
  intros [= <-]. apply finish_node_Step. destruct (retryPolicyOf_wf (nd_Retry node)) as [Hm _].
  eapply retry_loop_Frame in Hr; [|lia|lia]. etrans; [|exact Hr]. frames.
Qed.
End step.
