(* ===== verification/GraphProps.v ===== *)
(** * What a graph walk guarantees

    The properties of [Execute]: it ends within its budgets, in one of three
    ways; green means that no foreground failure went unhandled; only
    authorized nodes of registered types run; the record carries the kernel's
    envelopes; trust is granted by gates alone; and a loop-back edge has a
    budget. *)

From S2P Require Import Prelude GoTime Api ClaimTrust Capability GraphTypes GraphRetry Redact GraphExec GraphInv GraphStep.

Ltac quiet_steps :=
  repeat first [ apply publishLifecycle_Quiet | apply checkpoint_Quiet
               | apply on_node_result_Quiet | apply timeline_emit_Quiet
               | reflexivity | etrans; [|apply publishLifecycle_Quiet]
               | etrans; [|apply checkpoint_Quiet] | etrans; [|apply on_node_result_Quiet] ].

Section handled.
Context {W : Type} `{World W}.
Context (quote : string → string).
Context (render : string → gmap string NodeOutputs → option string).
Context `{JsonCodec GateNodeConfig}.
Variable e : GraphExecutor W.

(** Some outgoing edge of the node took its failure. *)
Definition edge_took (g : GraphSpec) (id : string) (nr : NodeResult) : Prop :=
  ∃ edge all, edge ∈ out_edges g id ∧ shouldTraverse render edge nr all = true.

(** Every failed foreground node but [skip] had its failure taken. *)
Definition failures_taken (g : GraphSpec) (skip : option string) (r : Run W) : Prop :=
  ∀ id nr node, rn_NodeResults r !! id = Some nr → nr_Status nr = StatusFailed →
    node_map g !! id = Some node → IsBackground node = false → skip ≠ Some id → edge_took g id nr.

Lemma failures_taken_same g s r r' :
  rn_NodeResults r' = rn_NodeResults r → failures_taken g s r → failures_taken g s r'.
Proof. unfold failures_taken. by intros ->. Qed.

Lemma failures_taken_record g r id nr envs :
  failures_taken g None r →
  failures_taken g (Some id) (set_recorded (<[id := nr]> (rn_NodeResults r)) envs r).
Proof.
  intros Hf j nr' node Hl Hst Hn Hb Hs. simpl in Hl.
  rewrite lookup_insert_ne in Hl by congruence. by eapply Hf.
Qed.

Lemma failures_taken_close g id nr r :
  rn_NodeResults r !! id = Some nr →
  nr_Status nr ≠ StatusFailed ∨ edge_took g id nr
    ∨ (∀ node, node_map g !! id = Some node → IsBackground node = true) →
  failures_taken g (Some id) r → failures_taken g None r.
Proof.
  intros Hr Hor Hf j nr' node Hl Hst Hn Hb _. destruct (decide (j = id)) as [->|Hne].
  - simplify_eq. destruct Hor as [?|[?|Hbg]]; [done|done|]. specialize (Hbg _ Hn). congruence.
  - eapply Hf; eauto. congruence.
Qed.

Lemma shouldTraverse_ext edge nr nr' all :
  nr_Status nr' = nr_Status nr → nr_Outputs nr' = nr_Outputs nr →
  shouldTraverse render edge nr' all = shouldTraverse render edge nr all.
Proof. unfold shouldTraverse. by intros -> ->. Qed.

Lemma failures_taken_promotions g s p v scopes r :
  failures_taken g s r → failures_taken g s (applyPromotions e p v scopes r).
Proof.
  revert r. induction scopes as [|scope scopes IH]; intros r Hf; simpl; [done|].
  destruct (Promote _ _ _) as [envs ps]. apply IH.
  eapply (failures_taken_same _ _ (set_recorded (sync envs (rn_NodeResults r)) envs r)).
  { by destruct (publish_promotions_Quiet e p v ps
      (set_recorded (sync envs (rn_NodeResults r)) envs r)) as (_&_&->&_). }
  intros id nr' node Hl Hst Hn Hb Hs. simpl in Hl. unfold sync in Hl.
  rewrite map_lookup_imap in Hl. destruct (rn_NodeResults r !! id) as [nr|] eqn:Hr; [|done].
  simpl in Hl. injection Hl as Hl.
  assert (nr_Status nr' = nr_Status nr ∧ nr_Outputs nr' = nr_Outputs nr) as [E1 E2].
  { rewrite <- Hl. destruct (nr_Envelope nr); [|done]. by destruct (envs !! id). }
  destruct (Hf id nr node Hr) as (edge&all&?&?); [congruence|done..|].
  exists edge, all. by rewrite (shouldTraverse_ext edge nr nr').
Qed.

Lemma follow_edges_took nr edges (nm : gmap string NodeSpec) (r r' : Run W) :
  follow_edges render nm nr edges false r = (true, r') →
  ∃ edge all, edge ∈ edges ∧ shouldTraverse render edge nr all = true.
Proof.
  revert r. induction edges as [|edge edges IH]; intros r; simpl; [done|].
  destruct (shouldTraverse render edge nr (rn_NodeResults r)) eqn:Ht.
  - intros _. exists edge, (rn_NodeResults r). split; [set_solver|done].
  - intros (x&all&?&?)%IH. exists x, all. split; [set_solver|done].
Qed.

Lemma follow_edges_results nm nr edges h (r : Run W) :
  rn_NodeResults (follow_edges render nm nr edges h r).2 = rn_NodeResults r.
Proof.
  revert h r. induction edges as [|edge edges IH]; intros h r; simpl; [done|].
  destruct (shouldTraverse _ _ _ _); [|apply IH]. unfold enqueueEdge.
  destruct (isExternalNode _ _); [apply IH|]. by destruct (_ && _); simpl; rewrite IH.
Qed.

(** The seam continues only past a background node. *)
Lemma unhandled_continues p node msg r r' :
  (let '(fatal, r) := unhandledNodeFailure e p node msg r in
   if fatal then Return r None else Continue r) = Continue r' →
  IsBackground node = true ∧ r' = r.
Proof. unfold unhandledNodeFailure. destruct (IsBackground node); [by intros [= <-]|done]. Qed.

Lemma route_failure_taken g p node nr msg r r' :
  node_map g !! nd_ID node = Some node → rn_NodeResults r !! nd_ID node = Some nr →
  failures_taken g (Some (nd_ID node)) r →
  route_failure render e g p node nr msg r = Continue r' → failures_taken g None r'.
Proof.
  intros Hn Hr Hf. unfold route_failure.
  pose proof (follow_edges_results (node_map g) nr (out_edges g (nd_ID node)) false r) as E.
  destruct (follow_edges _ _ _ _ _ r) as [h r1] eqn:Hfe. simpl in E.
  intros Hc. apply (failures_taken_close g (nd_ID node) nr).
  - destruct h; [injection Hc as <-|apply unhandled_continues in Hc as [_ ->]]; by rewrite E.
  - right. destruct h; [left; by eapply follow_edges_took|right].
    apply unhandled_continues in Hc as [Hb _]. congruence.
  - destruct h; [injection Hc as <-|apply unhandled_continues in Hc as [_ ->]];
      by eapply failures_taken_same.
Qed.

(** A record made by [set_recorded], then only effects. *)
Lemma recorded_then_quiet g id nr envs r r2 :
  Quiet (set_recorded (<[id := nr]> (rn_NodeResults r)) envs r) r2 →
  failures_taken g None r →
  failures_taken g (Some id) r2 ∧ rn_NodeResults r2 !! id = Some nr.
Proof.
  intros (_&_&E&_) Hf. split.
  - eapply failures_taken_same; [exact E|]. by apply failures_taken_record.
  - rewrite E. simpl. apply lookup_insert_eq.
Qed.

Lemma deny_node_taken g p node vs r r' :
  node_map g !! nd_ID node = Some node → failures_taken g None r →
  deny_node quote render e g p node vs r = Continue r' → failures_taken g None r'.
Proof.
  intros Hn Hf. unfold deny_node. intros Hc.
  eapply route_failure_taken; [exact Hn| | |exact Hc];
    eapply recorded_then_quiet; try exact Hf; quiet_steps.
Qed.

Lemma miss_node_taken g p node err start r r' :
  node_map g !! nd_ID node = Some node → failures_taken g None r →
  miss_node e p node err start r = Continue r' → failures_taken g None r'.
Proof.
  intros Hn Hf. unfold miss_node. intros [Hb ->]%unhandled_continues.
  match goal with |- failures_taken g None ?r2 => set (r3 := r2) end.
  assert (failures_taken g (Some (nd_ID node)) r3
    ∧ rn_NodeResults r3 !! nd_ID node = Some (failed_result err)) as [H1 H2]
    by (eapply recorded_then_quiet; [|exact Hf]; quiet_steps).
  eapply failures_taken_close; [exact H2| |exact H1]. right; right. congruence.
Qed.

Lemma finish_node_taken g p node x start nr r r' :
  node_map g !! nd_ID node = Some node → failures_taken g None r →
  finish_node render e g p node x start nr r = Continue r' → failures_taken g None r'.
Proof.
  intros Hn Hf. unfold finish_node.
  set (r0 := timeline_emit e _ _ _ _ r).
  assert (failures_taken g None r0) as Hf0.
  { eapply failures_taken_same; [|exact Hf]. apply timeline_emit_Quiet. }
  set (env := default _ _). set (nr' := set_nr_Envelope _ nr).
  set (r1 := publishLifecycle e _ _).
  assert (failures_taken g (Some (nd_ID node)) r1
    ∧ rn_NodeResults r1 !! nd_ID node = Some nr') as [H1 H2]
    by (eapply recorded_then_quiet; [|exact Hf0]; quiet_steps).
  case_bool_decide as Hst; [by apply route_failure_taken|].
  intros [= <-]. eapply failures_taken_same; [apply follow_edges_results|].
  assert (failures_taken g None r1) as Hr1
    by (eapply failures_taken_close; [exact H2|by left|exact H1]).
  destruct (_ && _); [by apply failures_taken_promotions|done].
Qed.

Lemma retry_loop_results fuel p pol x dl ts node env start attempt r nr r' :
  retry_loop e fuel p pol x dl ts node env start attempt r = Some (nr, r') →
  rn_NodeResults r' = rn_NodeResults r.
Proof.
  revert attempt r. induction fuel as [|fuel IH]; intros attempt r; simpl; [done|].
  destruct (nx_Execute _ _ _ _ _) as [[nr0 err] w].
  destruct (_ || _); [by intros [= <- <-]|].
  destruct (w_select _ _ _) as [won w'].
  assert (∀ ev k id s f, rn_NodeResults (timeline_emit e k id s f (publishLifecycle e ev
    (set_world w (emit (FxExecute (nd_ID node) (attempt + 1)) r)))) = rn_NodeResults r) as E.
  { intros. unfold timeline_emit, publishLifecycle. by destruct (gx_timeline e), (gx_dapr e). }
  destruct won; [intros [= <- <-]; apply E|]. intros ->%IH. apply E.
Qed.

Lemma visit_taken g p id r r' :
  failures_taken g None r → visit quote render e g p id r = Some (Continue r') →
  failures_taken g None r'.
Proof.
  intros Hf. unfold visit. destruct (node_map g !! id) as [node|] eqn:Hn; [|done].
  destruct (node_map_id _ _ _ Hn) as [<- _].
  destruct (AuthorizeNode _ _) as [|v vs].
  2: { intros [= Hc]. by eapply deny_node_taken. }
  unfold execute_node. destruct (Get _ _ _) as [x|err].
  2: { intros [= Hc]. eapply miss_node_taken; [exact Hn| |exact Hc].
       eapply failures_taken_same; [|exact Hf]. apply publishLifecycle_Quiet. }
  destruct (node_deadline _ _) as [dl ts].
  destruct (retry_loop _ _ _ _ _ _ _ _ _ _ _ _) as [[nr r2]|] eqn:Hr; [|done].
  intros [= Hc]. eapply finish_node_taken; [exact Hn| |exact Hc].
  eapply failures_taken_same; [|exact Hf]. rewrite (retry_loop_results _ _ _ _ _ _ _ _ _ _ _ _ _ Hr).
  unfold timeline_emit, publishLifecycle. by destruct (gx_timeline e), (gx_dapr e).
Qed.

Lemma unhandled_return p node msg r r' :
  (let '(fatal, r) := unhandledNodeFailure e p node msg r in
   if fatal then Return r None else Continue r) = Return r' None →
  rn_Status r' = StatusFailed.
Proof.
  unfold unhandledNodeFailure. destruct (IsBackground node); [done|]. intros [= <-].
  unfold publishDeadLetter, publishLifecycle. by destruct (gx_dapr e).
Qed.

Lemma route_failure_return g p node nr msg r r' :
  route_failure render e g p node nr msg r = Return r' None → rn_Status r' = StatusFailed.
Proof.
  unfold route_failure. destruct (follow_edges _ _ _ _ _ r) as [[] r1]; [done|].
  apply unhandled_return.
Qed.

(** A walk only stops short without an error on a failure it reports. *)
Lemma visit_return g p id r r' :
  visit quote render e g p id r = Some (Return r' None) → rn_Status r' = StatusFailed.
Proof.
  unfold visit. destruct (node_map g !! id) as [node|]; [|done].
  destruct (AuthorizeNode _ _) as [|v vs].
  2: { intros [= Hc]. by eapply route_failure_return. }
  unfold execute_node. destruct (Get _ _ _) as [x|err].
  2: { intros [= Hc]. by eapply unhandled_return. }
  destruct (node_deadline _ _) as [dl ts].
  destruct (retry_loop _ _ _ _ _ _ _ _ _ _ _ _) as [[nr r2]|]; [|done].
  intros [= Hc]. unfold finish_node in Hc. case_bool_decide; [|done].
  by eapply route_failure_return.
Qed.

Lemma start_taken g q w : failures_taken g None (set_queue q (start_run w)).
Proof. by intros id nr node Hl. Qed.

(** A run without an error whose last record is not the failure it returned
    on has all its failures taken. *)
Lemma Execute_taken g p w r :
  Execute quote render e g p w = Some (r, None) →
  failures_taken g None r ∨ ∃ id r0, visit quote render e g p id r0 = Some (Return r None).
Proof.
  unfold Execute. destruct (background_violation g); [done|].
  destruct (entry_nodes g) as [|id q]; [done|]. set (r1 := publishLifecycle e _ _).
  intros [(r0&Hr0&->)|(j&r0&_&Hv)]%(walk_rule quote render e (failures_taken g None)).
  - left. eapply failures_taken_same; [|exact Hr0]. unfold publishLifecycle. by destruct (gx_dapr e).
  - right. by eauto.
  - intros rest r2. by apply failures_taken_same.
  - intros j r2 r3. apply visit_taken.
  - unfold r1. eapply failures_taken_same; [|apply (start_taken g (id :: q) w)].
    unfold publishLifecycle. by destruct (gx_dapr e).
Qed.
End handled.

(** ** When an edge holds *)

Section traversal.
Context (render : string → gmap string NodeOutputs → option string).

(** The node says that it changed something: a boolean, or the word. *)
Definition says_changed (outputs : NodeOutputs) : Prop :=
  outputs !! "changed" = Some (VBool true) ∨ ∃ s, outputs !! "changed" = Some (VString s) ∧ lower_ascii s = "true".

Lemma says_changed_spec outputs : getBoolOutput outputs "changed" = true ↔ says_changed outputs.
Proof.
  unfold getBoolOutput, says_changed, equal_fold_true. destruct (outputs !! "changed") as [[]|]; try naive_solver.
  rewrite bool_decide_eq_true. naive_solver.
Qed.

(** What each edge condition accepts: an empty condition and "green"
    take green results only, "failed" failed ones only, "changed" and
    "unchanged" partition on the boolean output, "always" takes everything,
    and any other condition is a template that must render, space aside, to
    the word true. *)
Definition edge_holds (edge : EdgeSpec) (source : NodeResult) (all : gmap string NodeResult) : Prop :=
  ed_When edge = "always"
  ∨ (ed_When edge = "" ∨ ed_When edge = "green") ∧ nr_Status source = StatusGreen
  ∨ ed_When edge = "failed" ∧ nr_Status source = StatusFailed
  ∨ ed_When edge = "changed" ∧ says_changed (nr_Outputs source)
  ∨ ed_When edge = "unchanged" ∧ ¬ says_changed (nr_Outputs source)
  ∨ ed_When edge ∉ ["always"; ""; "green"; "failed"; "changed"; "unchanged"]
    ∧ ∃ out, render (ed_When edge) (nr_Outputs <$> all) = Some out ∧ lower_ascii (TrimSpace out) = "true".

Lemma shouldTraverse_table edge source all : shouldTraverse render edge source all = true ↔ edge_holds edge source all.
Proof.
  unfold shouldTraverse, edge_holds, evaluateCondition, equal_fold_true, snapshotOutputs.
  rewrite <- says_changed_spec, not_true_iff_false. set_unfold.
  repeat (destruct (decide (ed_When edge = _)) as [->|?];
          [rewrite ?bool_decide_eq_true, ?negb_true_iff; clear; intuition (congruence || naive_solver)|]).
  case_decide as Hg; [rewrite bool_decide_eq_true; clear -Hg; intuition (congruence || naive_solver)|].
  repeat (destruct (decide (ed_When edge = _)) as [->|?];
          [rewrite ?bool_decide_eq_true, ?negb_true_iff; clear; intuition (congruence || naive_solver)|]).
  rewrite decide_False by tauto.
  destruct (render _ _) as [out|]; [rewrite bool_decide_eq_true|]; naive_solver.
Qed.
End traversal.

(** ** The visits of a walk *)

Section trail.
Context {W : Type} `{World W}.
Context (quote : string → string).
Context (render : string → gmap string NodeOutputs → option string).
Context `{JsonCodec GateNodeConfig}.
Variable e : GraphExecutor W.
Variables (g : GraphSpec) (p : string).
Notation visit := (visit quote render e g p).

(** The nodes a walk visits from one state to another, in order. *)
Inductive trail (r : Run W) : list string → Run W → Prop :=
| trail_start : trail r [] r
| trail_visit ids r1 id rest r2 :
    trail r ids r1 → rn_queue r1 = id :: rest →
    visit id (set_queue rest (set_iterations (rn_iterations r1 + 1) r1)) = Some (Continue r2) →
    trail r (ids ++ [id]) r2.

(** The failure a visit recorded was handed on: an edge of the node holds for
    the result, and leads to a node outside the walk or to one of [next]. *)
Definition handed_on (id : string) (r : Run W) (next : list string) : Prop :=
  ∃ nr edge, rn_NodeResults r !! id = Some nr ∧ nr_Status nr = StatusFailed
    ∧ edge ∈ out_edges g id ∧ edge_holds render edge nr (rn_NodeResults r)
    ∧ ((∃ n, node_map g !! ed_To edge = Some n ∧ nd_Type n = "external") ∨ ed_To edge ∈ next).

Lemma external_spec nm id : isExternalNode nm id = true ↔ ∃ n : NodeSpec, nm !! id = Some n ∧ nd_Type n = "external".
Proof.
  unfold isExternalNode. destruct (nm !! id) as [n|]; [|naive_solver]. rewrite bool_decide_eq_true.
  change NodeTypeExternal with "external". naive_solver.
Qed.

Lemma follow_edges_handed nm nr edges h (r r' : Run W) :
  follow_edges render nm nr edges h r = (true, r') →
  h = true ∨ ∃ edge, edge ∈ edges ∧ shouldTraverse render edge nr (rn_NodeResults r') = true
    ∧ (isExternalNode nm (ed_To edge) = true ∨ ed_To edge ∈ rn_queue r').
Proof.
  revert h r. induction edges as [|edge edges IH]; intros h r; [intros [= -> ->]; by left|]. intros Hf.
  pose proof (follow_edges_results render nm nr (edge :: edges) h r) as Hres. rewrite Hf in Hres. simpl in Hres, Hf.
  assert (∀ r1 h1, follow_edges render nm nr edges h1 r1 = (true, r') → h1 = true ∨
    ∃ edge0, edge0 ∈ edge :: edges ∧ shouldTraverse render edge0 nr (rn_NodeResults r') = true
      ∧ (isExternalNode nm (ed_To edge0) = true ∨ ed_To edge0 ∈ rn_queue r')) as Hrest.
  { intros r1 h1 [->|(x&Hx&?)]%IH; [by left|right]. exists x. split; [by right|done]. }
  destruct (shouldTraverse render edge nr (rn_NodeResults r)) eqn:Ht; [|by eapply Hrest].
  unfold enqueueEdge in Hf. destruct (isExternalNode nm (ed_To edge)) eqn:Hx.
  { right. exists edge. rewrite Hres, Ht, Hx. split; [by left|]. split; [done|by left]. }
  destruct ((0 <? ed_MaxRetries edge) && _); [by eapply Hrest|].
  right. exists edge. rewrite Hres, Ht, Hx. split; [by left|]. split; [done|right].
  match type of Hf with follow_edges _ _ _ _ true ?r1 = _ =>
    destruct (follow_edges_sublist render nm nr edges true r1) as (_&_&l&Hq&_) end.
  rewrite Hf in Hq. simpl in Hq. rewrite Hq. set_solver.
Qed.

Lemma route_failure_handed node nr msg r r' :
  node_map g !! nd_ID node = Some node → IsBackground node = false →
  rn_NodeResults r !! nd_ID node = Some nr → nr_Status nr = StatusFailed →
  route_failure render e g p node nr msg r = Continue r' → handed_on (nd_ID node) r' (rn_queue r').
Proof.
  intros Hn Hb Hr Hst. unfold route_failure.
  pose proof (follow_edges_results render (node_map g) nr (out_edges g (nd_ID node)) false r) as E.
  destruct (follow_edges _ _ _ _ _ r) as [h r1] eqn:Hfe. simpl in E. destruct h.
  - intros [= <-]. apply follow_edges_handed in Hfe as [?|(edge&?&Ht%shouldTraverse_table&?)]; [done|].
    exists nr, edge. rewrite <- external_spec. by rewrite E at 1.
  - intros [Hb' _]%unhandled_continues. congruence.
Qed.

Lemma recorded_here id nr envs (r r2 : Run W) :
  Quiet (set_recorded (<[id := nr]> (rn_NodeResults r)) envs r) r2 → rn_NodeResults r2 !! id = Some nr.
Proof. intros (_&_&->&_). simpl. apply lookup_insert_eq. Qed.

(** A visit that goes on past a foreground failure has handed it on. *)
Lemma visit_handed id r r' node :
  visit id r = Some (Continue r') → node_map g !! id = Some node → IsBackground node = false →
  statuses r' !! id = Some StatusFailed → handed_on id r' (rn_queue r').
Proof.
  unfold GraphExec.visit. intros Hv Hn Hb Hst. rewrite Hn in Hv. destruct (node_map_id _ _ _ Hn) as [<- _].
  destruct (AuthorizeNode _ _) as [|v vs].
  2: { injection Hv as Hv. eapply route_failure_handed; [done..| | |exact Hv]; [|done].
       eapply recorded_here. quiet_steps. }
  unfold execute_node in Hv. destruct (Get _ _ _) as [x|err].
  2: { injection Hv as [Hb' _]%unhandled_continues. congruence. }
  destruct (node_deadline _ _) as [dl ts].
  destruct (retry_loop _ _ _ _ _ _ _ _ _ _ _ _) as [[nr r2]|]; [|done]. injection Hv as Hv. revert Hv.
  unfold finish_node. set (nr' := set_nr_Envelope _ nr). set (r1 := publishLifecycle e _ _).
  assert (rn_NodeResults r1 !! nd_ID node = Some nr') as H1 by (eapply recorded_here; quiet_steps).
  case_bool_decide as Hf; [intros Hv; by eapply route_failure_handed|]. intros [= <-]. exfalso. apply Hf.
  unfold statuses in Hst. rewrite follow_edges_results in Hst.
  destruct (_ && _).
  - pose proof (proj2 (promotions_Frame e (nd_ID node) p (nd_ID node) (nodeValidationScopes node) r1)) as E.
    unfold statuses in E. rewrite E, lookup_fmap, H1 in Hst. by injection Hst.
  - rewrite lookup_fmap, H1 in Hst. by injection Hst.
Qed.

Lemma visit_known id r r' : visit id r = Some (Continue r') → is_Some (node_map g !! id).
Proof. unfold GraphExec.visit. by destruct (node_map g !! id). Qed.

(** Along a walk each failed foreground node has handed its last failure on, to
    a node visited since or still in the queue. *)
Definition all_handed (r0 : Run W) (ids : list string) (r : Run W) : Prop :=
  ∀ id node, statuses r !! id = Some StatusFailed → node_map g !! id = Some node → IsBackground node = false →
    ∃ l1 l2 r1, ids = l1 ++ id :: l2 ∧ id ∉ l2 ∧ trail r0 (l1 ++ [id]) r1 ∧ handed_on id r1 (l2 ++ rn_queue r).

Lemma trail_handed r0 ids r : rn_NodeResults r0 = ∅ → trail r0 ids r → all_handed r0 ids r.
Proof.
  intros Hr0. induction 1 as [|ids r1 id rest r2 Ht IH Hq Hv].
  { intros id node Hst. unfold statuses in Hst. by rewrite Hr0, fmap_empty, lookup_empty in Hst. }
  intros j node Hst Hn Hb. destruct (visit_Step quote render e g p _ _ _ (visit_known _ _ _ Hv) Hv) as (Hsame&_&added&_&_&Hadd&_).
  simpl in Hsame, Hadd. destruct (decide (j = id)) as [->|Hne].
  - exists ids, [], r2. split; [done|]. split; [by apply not_elem_of_nil|].
    split; [by eapply trail_visit|]. eapply visit_handed; [exact Hv|done..].
  - rewrite Hsame in Hst by done. destruct (IH j node Hst Hn Hb) as (l1&l2&r3&->&Hni&Ht3&nr&edge&?&?&?&?&Hto).
    exists l1, (l2 ++ [id]), r3. split; [by rewrite <- app_assoc|]. split; [set_solver|]. split; [done|].
    exists nr, edge. split_and!; [done..|]. destruct Hto as [?|Hto]; [by left|right].
    rewrite Hq in Hto. rewrite Hadd. set_solver.
Qed.

(** A walk without an error completed its visits, or stopped on a failure. *)
Lemma walk_trail fuel r0 ids r r' :
  trail r0 ids r → walk quote render e fuel g p r = Some (r', None) →
  (∃ ids' r1, trail r0 ids' r1 ∧ rn_queue r1 = [] ∧ rn_NodeResults r' = rn_NodeResults r1)
  ∨ rn_Status r' = StatusFailed.
Proof.
  revert ids r. induction fuel as [|fuel IH]; intros ids r Ht; simpl; destruct (rn_queue r) as [|id rest] eqn:Hq; try done.
  1, 2: intros [= <-]; left; exists ids, r; split_and!; [done..|]; unfold publishLifecycle; by destruct (gx_dapr e).
  destruct (MaxIterations <=? _); [done|].
  destruct (visit id _) as [[r2|r2 [msg|]]|] eqn:Hr; try done.
  - apply (IH (ids ++ [id])). by eapply trail_visit.
  - intros [= <-]. right. by eapply visit_return.
Qed.
End trail.

(** ** Properties *)

Section properties.
Context {W : Type} `{World W}.
Context (quote : string → string).
Context (render : string → gmap string NodeOutputs → option string).
Context `{JsonCodec GateNodeConfig}.
Variable e : GraphExecutor W.
Notation Execute := (Execute quote render e).

Definition is_dead_letter (f : Effect) : bool :=
  match f with FxDeadLetter _ _ _ => true | _ => false end.

Lemma fx_ok_no_dead_letter g l : Forall (fx_ok e g) l → Forall (λ f, is_dead_letter f = false) l.
Proof. intros Hl. eapply Forall_impl; [exact Hl|]. by intros []. Qed.

(** C32. A walk always ends, for every graph, every registry and every
    behaviour of the node executors and of the clock: within a thousand node
    visits and five executions per visit. *)
Theorem Execute_terminates g p w :
  ∃ r err, Execute g p w = Some (r, err)
    ∧ rn_iterations r ≤ 1000
    ∧ Z.of_nat (execs (rn_fx r)) ≤ 5 * rn_iterations r.
Proof.
  destruct (Execute_ok quote render e g p w) as (r&err&Hx&Hend).
  exists r, err. split; [done|]. destruct (Ending_history _ _ _ _ Hend) as [_ _ _ _ H5 H6].
  unfold MaxIterations, maxRetryAttemptsCap in *. lia.
Qed.

(** A green run completed, silently, with its failures taken. *)
Lemma Execute_green g p w :
  ∃ r err, Execute g p w = Some (r, err) ∧ history_ok e g 0 r
    ∧ (rn_Status r = StatusGreen →
       err = None ∧ rn_Message r = "pipeline completed" ∧ rn_queue r = []
       ∧ Forall (λ f, is_dead_letter f = false) (rn_fx r)
       ∧ ∀ id nr node, rn_NodeResults r !! id = Some nr → nr_Status nr = StatusFailed →
           node_map g !! id = Some node →
           IsBackground node = true ∨ edge_took render g id nr).
Proof.
  destruct (Execute_ok quote render e g p w) as (r&err&Hx&Hend).
  exists r, err. split; [done|]. split; [by eapply Ending_history|]. intros Hst. destruct err as [msg|]; simpl in Hend.
  { destruct Hend as [Hf _]. by rewrite Hf in Hst. }
  destruct Hend as [(_&Hm&Hq&Hfx&_)|[Hf _]]; [|by rewrite Hf in Hst].
  split_and!; [done..|by eapply fx_ok_no_dead_letter|]. intros id nr node Hr Hnr Hn.
  destruct (Execute_taken _ _ _ _ _ _ _ Hx) as [Ht|(j&r0&Hv)].
  - destruct (IsBackground node) eqn:Hb; [by left|right]. by eapply Ht.
  - apply visit_return in Hv. by rewrite Hv in Hst.
Qed.

(** The state a walk starts from: its entry nodes queued, the start announced. *)
Definition started (g : GraphSpec) (p : string) (w : W) : Run W :=
  publishLifecycle e (lifecycle "pipeline.started" p "" "" "" "" ∅ 0 None) (set_queue (entry_nodes g) (start_run w)).

(** C26. Green means what it says: a run that reports green completed its walk
    without an error, announced no dead letter, and handed on every foreground
    failure. For each node but a background one whose last result is a failure,
    there is the last visit of that node, and one of the node's edges that held
    for the result it recorded then, by the results of that moment; and that
    edge was not refused for its retries: it leads to a node outside the walk,
    or its target was visited afterwards. *)
Theorem Execute_green_sound g p w :
  ∃ r err, Execute g p w = Some (r, err)
    ∧ (rn_Status r = StatusGreen →
       err = None ∧ rn_Message r = "pipeline completed" ∧ rn_queue r = []
       ∧ Forall (λ f, is_dead_letter f = false) (rn_fx r)
       ∧ ∃ visits r1, trail quote render e g p (started g p w) visits r1 ∧ rn_NodeResults r1 = rn_NodeResults r
         ∧ ∀ id node, nr_Status <$> rn_NodeResults r !! id = Some StatusFailed → node_map g !! id = Some node →
             nd_Background node = Some true
             ∨ ∃ before after r2, visits = before ++ id :: after ∧ id ∉ after
               ∧ trail quote render e g p (started g p w) (before ++ [id]) r2 ∧ handed_on render g id r2 after).
Proof.
  destruct (Execute_green g p w) as (r&err&Hx&_&Hg). exists r, err. split; [done|]. intros Hst.
  destruct (Hg Hst) as (->&Hm&Hq&Hdl&_). split_and!; [done..|].
  assert (rn_NodeResults (started g p w) = ∅) as Hempty
    by (unfold started, publishLifecycle; by destruct (gx_dapr e)).
  unfold GraphExec.Execute in Hx. destruct (background_violation g); [done|].
  destruct (entry_nodes g) as [|id0 q] eqn:He; [done|].
  assert (started g p w = publishLifecycle e (lifecycle "pipeline.started" p "" "" "" "" ∅ 0 None) (set_queue (id0 :: q) (start_run w)))
    as Hs by (unfold started; by rewrite He).
  rewrite <- Hs in Hx. apply walk_trail with (r0 := started g p w) (ids := []) in Hx as [(visits&r1&Ht&Hq1&Hres)|Hf];
    [|by rewrite Hf in Hst|constructor].
  exists visits, r1. split; [exact Ht|]. split; [done|]. intros id node Hid Hn.
  destruct (IsBackground node) eqn:Hb; [left; unfold IsBackground in Hb; by destruct (nd_Background node) as [[]|]|right].
  destruct (trail_handed quote render e g p _ _ _ Hempty Ht id node) as (l1&l2&r2&?&?&?&Hh); [|done..|].
  { by rewrite statuses_lookup, <- Hres. }
  rewrite Hq1, app_nil_r in Hh. by exists l1, l2, r2.
Qed.

(** A run that is not green is a failed one, and says why: either the
    call returns an error (and no dead letter is published), or a foreground
    node's recorded failure ended it, in which case, when a Dapr client is
    configured, the last thing the walk does is announce [pipeline.failed]
    and publish the run's one dead letter, for that node, with the message
    and the node results of the run. *)
Theorem Execute_failure_reported g p w :
  ∃ r err, Execute g p w = Some (r, err)
    ∧ (rn_Status r ≠ StatusGreen →
       rn_Status r = StatusFailed
       ∧ match err with
         | Some _ => Forall (λ f, is_dead_letter f = false) (rn_fx r)
         | None => ∃ node nr, node_map g !! nd_ID node = Some node ∧ IsBackground node = false
             ∧ rn_NodeResults r !! nd_ID node = Some nr ∧ nr_Status nr = StatusFailed
             ∧ (gx_dapr e = true → ∃ l ev dl,
                  rn_fx r = l ++ [FxPublish (gx_pubsub e) LifecycleTopic ev;
                                  FxDeadLetter (gx_pubsub e) DeadLetterTopic dl]
                  ∧ Forall (λ f, is_dead_letter f = false) l
                  ∧ le_Event ev = "pipeline.failed" ∧ dl_FailedNode dl = nd_ID node
                  ∧ dl_Error dl = rn_Message r ∧ dl_NodeResults dl = rn_NodeResults r)
         end).
Proof.
  destruct (Execute_ok quote render e g p w) as (r&err&Hx&Hend).
  exists r, err. split; [done|]. intros Hst. destruct err as [msg|]; simpl in Hend.
  { destruct Hend as (?&?&_). split; [done|]. by eapply fx_ok_no_dead_letter. }
  destruct Hend as [[? _]|(Hf&_&node&nr&?&?&?&?&Hdl)]; [done|]. split; [done|].
  exists node, nr. split_and!; try done. intros Hd. unfold ends_in_dead_letter in Hdl.
  rewrite Hd in Hdl. destruct Hdl as (l&ev&dl&?&?&?&?&?&?).
  exists l, ev, dl. split_and!; try done. by eapply fx_ok_no_dead_letter.
Qed.

(** C1. Nothing runs that policy refuses: every execution of a walk is of a
    node of the graph whose declared requirements are all granted by the
    workflow's bindings, whose type is registered, which is not an external
    placeholder (node identifiers being distinct), and is an attempt within
    the node's retry budget. *)
Theorem Execute_only_authorized g p w :
  ∃ r err, Execute g p w = Some (r, err)
    ∧ ∀ id k, FxExecute id k ∈ rn_fx r →
        ∃ node x, node_map g !! id = Some node
          ∧ (∀ req, req ∈ nd_Requires node → satisfied (gx_bindings e) req)
          ∧ gx_registry e !! nd_Type node = Some x
          ∧ (NoDup (nd_ID <$> gr_Nodes g) → nd_Type node ≠ NodeTypeExternal)
          ∧ 1 ≤ k ≤ rt_maxAttempts (retryPolicyOf (nd_Retry node)).
Proof.
  destruct (Execute_ok quote render e g p w) as (r&err&Hx&Hend).
  exists r, err. split; [done|]. intros id k Hin.
  destruct (Ending_exec _ _ _ _ _ _ Hend Hin) as (node&x&?&Ha&?&?&?).
  exists node, x. split_and!; try done; try lia. by apply AuthorizeNode_nil_iff.
Qed.

(** The record is complete and the kernel's: a node has a result exactly
    when it has an envelope, both belong to a node of the graph, and the
    envelope carries the node's identity, the run's, the status translated
    from the result, the attempt count and the trigger's provenance, whatever
    the node executor put in its own envelope. *)
Theorem Execute_records_envelopes g p w :
  ∃ r err, Execute g p w = Some (r, err)
    ∧ ∀ id, match rn_NodeResults r !! id, rn_NodeEnvelopes r !! id with
            | Some nr, Some env =>
                is_Some (node_map g !! id) ∧ nr_Status nr ≠ ""
                ∧ ne_NodeID env = id ∧ ne_RunID env = gx_runID e
                ∧ ne_Status env = envelopeStatus (nr_Status nr)
                ∧ ne_Attempt env = nr_Attempt nr
                ∧ pv_TriggeredBy (ne_Provenance env) = gx_triggeredBy e
                ∧ pv_TriggerSource (ne_Provenance env) = gx_triggerSource e
            | None, None => True
            | _, _ => False
            end.
Proof.
  destruct (Execute_ok quote render e g p w) as (r&err&Hx&Hend).
  exists r, err. split; [done|]. destruct (Ending_history _ _ _ _ Hend) as [H1 H2 H3 _ _ _].
  intros id. specialize (H1 id).
  destruct (rn_NodeResults r !! id) as [nr|] eqn:Hr, (rn_NodeEnvelopes r !! id) as [env|] eqn:He.
  - destruct (H2 _ _ _ Hr He) as (?&?&?&?&?&?&?). split_and!; try done. by eapply H3.
  - apply proj1 in H1. by destruct (H1 ltac:(by eexists)).
  - apply proj2 in H1. by destruct (H1 ltac:(by eexists)).
  - done.
Qed.

(** C22. Trust comes from gates alone: at the end of any walk, a validated
    claim in the envelope of a node whose executor is not deterministic was
    validated by a gate node of the graph, with a deterministic executor,
    that the walk executed, and one of whose declared scopes matches the
    claim. *)
Theorem Execute_trust_from_gates g p w :
  ∃ r err, Execute g p w = Some (r, err)
    ∧ ∀ id env node x c, rn_NodeEnvelopes r !! id = Some env → node_map g !! id = Some node →
        gx_registry e !! nd_Type node = Some x → nx_Deterministic x = false →
        c ∈ ne_Claims env → cl_TrustClass c = ClaimTrustValidated →
        ∃ gate gx scope k, node_map g !! cl_ValidatedBy c = Some gate
          ∧ nd_Type gate = "gate" ∧ gx_registry e !! "gate" = Some gx
          ∧ nx_Deterministic gx = true
          ∧ scope ∈ nodeValidationScopes gate ∧ scope_matches scope c = true
          ∧ FxExecute (cl_ValidatedBy c) k ∈ rn_fx r.
Proof.
  destruct (Execute_ok quote render e g p w) as (r&err&Hx&Hend).
  exists r, err. split; [done|]. destruct (Ending_history _ _ _ _ Hend) as [_ _ _ H4 _ _].
  intros id env node x c He Hn Hy Hd Hc Hv. exact (H4 _ _ He node x c Hn Hy Hd Hc Hv).
Qed.
End properties.

(** ** Loop-back budgets *)

Section budget.
Context {W : Type}.

(** Traverse the edges [steps] one after the other, whatever the walk does
    in between; how many times did [ed] put its target in the queue? *)
Fixpoint accepted (nm : gmap string NodeSpec) (ed : EdgeSpec) (steps : list EdgeSpec) (r : Run W)
    : Z :=
  match steps with
  | [] => 0
  | x :: steps =>
      let '(ok, r') := enqueueEdge nm x r in
      (if ok && bool_decide (x = ed) then 1 else 0) + accepted nm ed steps r'
  end.

Definition occurrences (ed : EdgeSpec) (steps : list EdgeSpec) : Z :=
  Z.of_nat (length (filter (λ x, x = ed) steps)).

(** What [n] more traversals add after [c] of them. *)
Definition within_budget (budget c n : Z) : Z :=
  if 0 <? budget then Z.min budget (c + n) - Z.min budget c else n.

Lemma accepted_spec nm ed steps (r : Run W) :
  isExternalNode nm (ed_To ed) = false →
  (∀ x, x ∈ steps → edge_key x = edge_key ed → x = ed) →
  accepted nm ed steps r
  = within_budget (ed_MaxRetries ed) (default 0 (rn_edgeCount r !! edge_key ed))
      (occurrences ed steps).
Proof.
  intros Hext. unfold occurrences. revert r. induction steps as [|x steps IH]; intros r Hk; simpl.
  { unfold within_budget. destruct (0 <? _); lia. }
  assert (∀ y, y ∈ steps → edge_key y = edge_key ed → y = ed) as Hk' by (intros; apply Hk; set_solver).
  unfold enqueueEdge. destruct (decide (x = ed)) as [->|Hne].
  - rewrite Hext, filter_cons_True by done. simpl length.
    rewrite (bool_decide_eq_true_2 (ed = ed)) by done.
    destruct ((0 <? ed_MaxRetries ed) && _) eqn:Hb; rewrite IH by done; simpl;
      rewrite lookup_insert_eq; unfold within_budget; simpl;
      destruct (0 <? ed_MaxRetries ed) eqn:Hp; simpl in Hb; try done; lia.
  - rewrite filter_cons_False by done. rewrite (bool_decide_eq_false_2 (x = ed)) by done.
    destruct (isExternalNode nm (ed_To x)); [by rewrite IH|].
    assert (edge_key x ≠ edge_key ed) as Hkey by (intros ?; apply Hne, Hk; [set_solver|done]).
    destruct ((0 <? ed_MaxRetries x) && _); rewrite ?andb_false_r, IH by done; simpl;
      by rewrite lookup_insert_ne.
Qed.

(** A loop-back edge has a budget: over any sequence of traversals in a
    run, an edge to a real node whose key no other edge shares puts its
    target in the queue exactly the first [maxRetries] times it is taken,
    and every time when it declares no bound. *)
Theorem loopback_budget nm ed steps (w : W) :
  isExternalNode nm (ed_To ed) = false →
  (∀ x, x ∈ steps → edge_key x = edge_key ed → x = ed) →
  accepted nm ed steps (start_run w)
  = if 0 <? ed_MaxRetries ed then Z.min (ed_MaxRetries ed) (occurrences ed steps)
    else occurrences ed steps.
Proof.
  intros Hext Hk. rewrite accepted_spec by done. simpl. rewrite lookup_empty. simpl.
  unfold within_budget. destruct (0 <? ed_MaxRetries ed) eqn:Hb; [|done]. lia.
Qed.
End budget.

Definition fix_edge : EdgeSpec :=
  {| ed_From := "gate"; ed_To := "agent"; ed_When := "failed"; ed_MaxRetries := 2 |}.
Definition fwd_edge : EdgeSpec :=
  {| ed_From := "agent"; ed_To := "gate"; ed_When := "green"; ed_MaxRetries := 0 |}.

Lemma loopback_budget_witness :
  accepted ∅ fix_edge [fix_edge; fwd_edge; fix_edge; fwd_edge; fix_edge; fwd_edge] (start_run tt) = 2.
Proof.
  rewrite (loopback_budget ∅ fix_edge); [vm_compute; reflexivity|reflexivity|].
  intros x Hx. repeat (apply elem_of_cons in Hx as [->|Hx]; [vm_compute; congruence|]).
  by apply elem_of_nil in Hx.
Defined.
