(* ===== verification/Template.v ===== *)
(** * Workflow templates ([api/v1alpha1]: workflowtemplate_types.go, template.go)

    A template carries the defaults a Workflow inherits; the overlay fills what
    the instance leaves unset and merges the instance's scope per key. A nil
    pointer is [None], a nil slice the empty list, a nil [json.RawMessage] the
    empty string. *)

From S2P Require Import Prelude GoTime Api.

Record TemplateSourceSpec := {
  ts_Forge : string;
  ts_Repo : string;
  ts_Path : string;
  ts_Branch : string;
  ts_SecretRef : option SecretRef;
}.

Definition slash : Ascii.ascii := "/"%char.

Fixpoint count_byte (c : Ascii.ascii) (s : string) : Z :=
  match s with
  | "" => 0
  | String b s => (if decide (b = c) then 1 else 0) + count_byte c s
  end.

(** [Validate]: the error's text, or [None]; [quote] is [strconv.Quote]. *)
Definition Validate (quote : string → string) (s : TemplateSourceSpec) : option string :=
  if decide (ts_Forge s = "") then Some "template source: forge is required (github|gitlab)"
  else if negb (bool_decide (ts_Forge s = "github") || bool_decide (ts_Forge s = "gitlab"))
  then Some ("template source: unknown forge " +:+ quote (ts_Forge s) +:+ " (github|gitlab)")
  else if bool_decide (ts_Repo s = "") || negb (count_byte slash (ts_Repo s) =? 1)
          || has_prefix (ts_Repo s) "/" || has_suffix (ts_Repo s) "/"
  then Some ("template source: repo " +:+ quote (ts_Repo s) +:+ " must be "
             +:+ String "034" ("owner/name" +:+ String "034" ""))
  else if decide (ts_Path s = "")
  then Some "template source: path is required (the template document inside the repo)"
  else match ts_SecretRef s with
       | Some r => if decide (sr_Name r = "" ∨ sr_Key r = "")
                   then Some "template source: secretRef needs both name and key" else None
       | None => None
       end.

Record ScopeParam := {
  sp_Name : string; sp_Kind : string; sp_Label : string; sp_Description : string;
  sp_Default : string;
}.

Record WorkflowTemplateSpec := {
  wt_Description : string;
  wt_Scope : list ScopeParam;
  wt_Prepare : PrepareSpec;
  wt_Agent : AgentSpec;
  wt_Deploy : DeploySpec;
  wt_ReviewReady : option ReviewReadySpec;
  wt_Cache : option CacheSpec;
  wt_Source : option TemplateSourceSpec;
  wt_PluginsConfigMapRef : string;
  wt_Sessions : option SessionsSpec;
  wt_Attachments : list SharedAttachment;
}.

Record WorkflowTemplate := { wtm_Meta : ObjectMeta; wtm_Spec : WorkflowTemplateSpec }.

(** ** Inheriting one field *)

Definition or_str (s t : string) : string := if decide (s = "") then t else s.
Definition or_int (s t : Z) : Z := if decide (s = 0) then t else s.
Definition or_list {A} (s t : list A) : list A := match s with [] => t | _ => s end.
Definition or_ptr {A} (s t : option A) : option A := match s with None => t | _ => s end.

Definition zero_task (t : TaskTemplate) : bool :=
  bool_decide (tt_Name t = "") && bool_decide (tt_ConfigMap t = "") && bool_decide (tt_Key t = "").

Definition overlay_prepare (s t : PrepareSpec) : PrepareSpec :=
  {| pp_Plugin := if decide (pr_Name (pp_Plugin s) = "") then pp_Plugin t else pp_Plugin s;
     pp_Output := or_str (pp_Output s) (pp_Output t);
     pp_Detect := or_str (pp_Detect s) (pp_Detect t);
     pp_Config := or_str (pp_Config s) (pp_Config t) |}.

Definition overlay_agent (a ta : AgentSpec) : AgentSpec :=
  {| ag_Enabled := or_ptr (ag_Enabled a) (ag_Enabled ta);
     ag_Model := or_str (ag_Model a) (ag_Model ta);
     ag_Models := or_list (ag_Models a) (ag_Models ta);
     ag_Skill := or_str (ag_Skill a) (ag_Skill ta);
     ag_Tools := or_list (ag_Tools a) (ag_Tools ta);
     ag_Extensions := or_list (ag_Extensions a) (ag_Extensions ta);
     ag_ExcludeTools := or_list (ag_ExcludeTools a) (ag_ExcludeTools ta);
     ag_NoMCP := or_ptr (ag_NoMCP a) (ag_NoMCP ta);
     ag_Thinking := or_str (ag_Thinking a) (ag_Thinking ta);
     ag_ToolBudget := or_ptr (ag_ToolBudget a) (ag_ToolBudget ta);
     ag_TaskTemplate := if zero_task (ag_TaskTemplate a) then ag_TaskTemplate ta else ag_TaskTemplate a;
     ag_Gate := if decide (pr_Name (gt_Plugin (ag_Gate a)) = "") then ag_Gate ta else ag_Gate a;
     ag_MaxFixes := or_int (ag_MaxFixes a) (ag_MaxFixes ta);
     ag_Timeout := or_int (ag_Timeout a) (ag_Timeout ta);
     ag_Scope := or_str (ag_Scope a) (ag_Scope ta) |}.

Definition overlay_deploy (s t : DeploySpec) : DeploySpec :=
  if decide (pr_Name (dp_Plugin s) = "") then t else s.

Definition overlay_spec (s : WorkflowSpec) (t : WorkflowTemplateSpec) : WorkflowSpec :=
  {| wf_Source := wf_Source s; wf_TemplateRef := wf_TemplateRef s; wf_Config := wf_Config s;
     wf_WorkspaceRepo := wf_WorkspaceRepo s;
     wf_Prepare := overlay_prepare (wf_Prepare s) (wt_Prepare t);
     wf_Agent := overlay_agent (wf_Agent s) (wt_Agent t);
     wf_Deploy := overlay_deploy (wf_Deploy s) (wt_Deploy t);
     wf_Graph := wf_Graph s;
     wf_ReviewReady := or_ptr (wf_ReviewReady s) (wt_ReviewReady t);
     wf_Bindings := wf_Bindings s; wf_Events := wf_Events s;
     wf_Cache := or_ptr (wf_Cache s) (wt_Cache t);
     wf_Sessions := or_ptr (wf_Sessions s) (wt_Sessions t);
     wf_Attachments := or_list (wf_Attachments s) (wt_Attachments t);
     wf_PluginsConfigMapRef := or_str (wf_PluginsConfigMapRef s) (wt_PluginsConfigMapRef t);
     wf_Scaling := wf_Scaling s; wf_Disabled := wf_Disabled s |}.

Definition set_prepare_config (c : string) (s : WorkflowSpec) : WorkflowSpec :=
  {| wf_Source := wf_Source s; wf_TemplateRef := wf_TemplateRef s; wf_Config := wf_Config s;
     wf_WorkspaceRepo := wf_WorkspaceRepo s;
     wf_Prepare := {| pp_Plugin := pp_Plugin (wf_Prepare s); pp_Output := pp_Output (wf_Prepare s);
                      pp_Detect := pp_Detect (wf_Prepare s); pp_Config := c |};
     wf_Agent := wf_Agent s; wf_Deploy := wf_Deploy s; wf_Graph := wf_Graph s;
     wf_ReviewReady := wf_ReviewReady s; wf_Bindings := wf_Bindings s; wf_Events := wf_Events s;
     wf_Cache := wf_Cache s; wf_Sessions := wf_Sessions s; wf_Attachments := wf_Attachments s;
     wf_PluginsConfigMapRef := wf_PluginsConfigMapRef s; wf_Scaling := wf_Scaling s;
     wf_Disabled := wf_Disabled s |}.

(** ** The scope overlay *)

(** A Go [map[string]any] that may be nil. *)
Notation GoMap J := (option (gmap string J)).

(** [encoding/json] on such maps: [jm_unmarshal m0 s] is the map after
    [json.Unmarshal(s, &m)] with [m] holding [m0], and whether it failed. *)
Class JsonMap (J : Type) := {
  jm_unmarshal : GoMap J → string → GoMap J * bool;
  jm_marshal : gmap string J → option string;
}.

Section overlay.
Context {J : Type} `{JsonMap J}.

(** [for k, v := range inst { base[k] = v }]: assigning to a nil map panics. *)
Definition assign_all (base : GoMap J) (inst : gmap string J) : option (GoMap J) :=
  match base with
  | Some base => Some (Some (inst ∪ base))
  | None => if decide (inst = ∅) then Some None else None
  end.

(** [json.Marshal] of a nil map is the text null. *)
Definition marshal_map (m : GoMap J) : option string :=
  match m with Some m => jm_marshal m | None => Some "null" end.

(** [None] is a panic. *)
Definition apply_scope (s : WorkflowSpec) : option WorkflowSpec :=
  if decide (wf_Config s = "") then Some s
  else
    let '(inst, failed) := jm_unmarshal None (wf_Config s) in
    match failed, inst with
    | false, Some inst =>
        let base := (jm_unmarshal (Some ∅) (pp_Config (wf_Prepare s))).1 in
        match assign_all base inst with
        | None => None
        | Some merged =>
            match marshal_map merged with
            | Some c => Some (set_prepare_config c s)
            | None => Some s
            end
        end
    | _, _ => Some (set_prepare_config (wf_Config s) s)
    end.

Definition ApplyTemplateDefaults (wf : option Workflow) (tmpl : option WorkflowTemplate)
    : option (option Workflow) :=
  match wf, tmpl with
  | Some wf, Some tmpl =>
      match apply_scope (overlay_spec (wk_Spec wf) (wtm_Spec tmpl)) with
      | Some spec => Some (Some {| wk_Meta := wk_Meta wf; wk_Spec := spec |})
      | None => None
      end
  | _, _ => Some wf
  end.
End overlay.

(** ** Facts *)

Lemma inherit_idem {A} (f : A → string) (s t : A) :
  let u := if decide (f s = "") then t else s in (if decide (f u = "") then t else u) = u.
Proof. simpl. destruct (decide (f s = "")); [by case_decide|by rewrite decide_False]. Qed.

Lemma or_str_idem s t : or_str (or_str s t) t = or_str s t.
Proof. apply (inherit_idem id). Qed.
Lemma or_int_idem s t : or_int (or_int s t) t = or_int s t.
Proof. unfold or_int. destruct (decide (s = 0)); [by case_decide|by rewrite decide_False]. Qed.
Lemma or_list_idem {A} (s t : list A) : or_list (or_list s t) t = or_list s t.
Proof. by destruct s, t. Qed.
Lemma or_ptr_idem {A} (s t : option A) : or_ptr (or_ptr s t) t = or_ptr s t.
Proof. by destruct s, t. Qed.
Lemma or_str_set s t : s ≠ "" → or_str s t = s.
Proof. unfold or_str. by case_decide. Qed.

#[export] Hint Rewrite or_str_idem or_int_idem @or_list_idem @or_ptr_idem : overlay.

Lemma overlay_prepare_idem s t : overlay_prepare (overlay_prepare s t) t = overlay_prepare s t.
Proof. unfold overlay_prepare. simpl. autorewrite with overlay. f_equal. apply (inherit_idem pr_Name). Qed.

Lemma overlay_agent_idem s t : overlay_agent (overlay_agent s t) t = overlay_agent s t.
Proof.
  unfold overlay_agent. simpl. autorewrite with overlay. f_equal.
  - destruct (zero_task (ag_TaskTemplate s)) eqn:Hz; [by case_match|by rewrite Hz].
  - apply (inherit_idem (λ g, pr_Name (gt_Plugin g))).
Qed.

Lemma overlay_spec_idem s t : overlay_spec (overlay_spec s t) t = overlay_spec s t.
Proof.
  unfold overlay_spec. simpl. autorewrite with overlay.
  rewrite overlay_prepare_idem, overlay_agent_idem. f_equal.
  apply (inherit_idem (λ d, pr_Name (dp_Plugin d))).
Qed.

Lemma overlay_set_config s t c :
  c ≠ "" → overlay_spec (set_prepare_config c (overlay_spec s t)) t
           = set_prepare_config c (overlay_spec s t).
Proof.
  intros Hc. unfold overlay_spec, set_prepare_config. simpl. autorewrite with overlay.
  rewrite overlay_agent_idem. f_equal.
  - unfold overlay_prepare. simpl. autorewrite with overlay. rewrite (or_str_set c) by done.
    f_equal. apply (inherit_idem pr_Name).
  - apply (inherit_idem (λ d, pr_Name (dp_Plugin d))).
Qed.

(** ** Properties *)

Section properties.
Context {J : Type} `{JsonMap J}.

(** The scope overlay is per key: when the instance's scope and the
    effective prepare configuration are both JSON objects, the merged
    configuration binds every key of the instance to the instance's value and
    every other key to the template's, and the rest of the merged spec does
    not depend on the scope. *)
Theorem scope_overlay_per_key wf tmpl inst base c :
  let s := overlay_spec (wk_Spec wf) (wtm_Spec tmpl) in
  wf_Config (wk_Spec wf) ≠ "" →
  jm_unmarshal None (wf_Config (wk_Spec wf)) = (Some inst, false) →
  jm_unmarshal (Some ∅) (pp_Config (wf_Prepare s)) = (Some base, false) →
  (∀ m, (∀ k, m !! k = match inst !! k with Some v => Some v | None => base !! k end) →
        jm_marshal m = Some c) →
  ApplyTemplateDefaults (Some wf) (Some tmpl)
  = Some (Some {| wk_Meta := wk_Meta wf; wk_Spec := set_prepare_config c s |}).
Proof.
  intros s Hne Hi Hb Hm. unfold ApplyTemplateDefaults. fold s. unfold apply_scope.
  change (wf_Config s) with (wf_Config (wk_Spec wf)).
  rewrite decide_False by done. rewrite Hi, Hb. simpl.
  rewrite (Hm (inst ∪ base)); [done|].
  intros k. rewrite lookup_union. by destruct (inst !! k), (base !! k).
Qed.

(** The documented round trip of [encoding/json] on objects and null. *)
Definition json_laws : Prop :=
  (∀ m c, jm_marshal m = Some c → c ≠ "" ∧ jm_unmarshal (Some ∅) c = (Some m, false))
  ∧ ∀ m0, jm_unmarshal m0 "null" = (None, false).

(** Applying a template is idempotent: a Workflow that already went
    through the overlay of a template is left unchanged by it, whatever its
    scope. *)
Theorem template_overlay_idempotent wf tmpl wf1 :
  json_laws →
  ApplyTemplateDefaults (Some wf) (Some tmpl) = Some (Some wf1) →
  ApplyTemplateDefaults (Some wf1) (Some tmpl) = Some (Some wf1).
Proof.
  intros [Hrt Hnull]. unfold ApplyTemplateDefaults. set (t := wtm_Spec tmpl).
  destruct (apply_scope _) as [s1|] eqn:Hs; [|done]. intros [= <-]. simpl.
  assert (apply_scope (overlay_spec s1 t) = Some s1) as ->; [|done].
  unfold apply_scope in Hs. simpl wf_Config in Hs.
  destruct (decide (wf_Config (wk_Spec wf) = "")) as [He|He].
  { injection Hs as <-. rewrite overlay_spec_idem. unfold apply_scope. simpl. by rewrite decide_True. }
  destruct (jm_unmarshal None (wf_Config (wk_Spec wf))) as [inst failed] eqn:Hi.
  assert (∀ c, c = wf_Config (wk_Spec wf) → negb failed && bool_decide (is_Some inst) = false →
    s1 = set_prepare_config c (overlay_spec (wk_Spec wf) t) →
    apply_scope (overlay_spec s1 t) = Some s1) as Hopaque.
  { intros c -> Hno ->. rewrite overlay_set_config by done. unfold apply_scope. simpl.
    rewrite decide_False, Hi by done. by destruct failed, inst. }
  destruct failed; [injection Hs as <-; by eapply Hopaque|].
  destruct inst as [inst|]; [|injection Hs as <-; by eapply Hopaque]. clear Hopaque.
  set (base := (jm_unmarshal (Some ∅) _).1) in Hs.
  destruct (assign_all base inst) as [merged|] eqn:Ha; [|done].
  destruct (marshal_map merged) as [c|] eqn:Hm; injection Hs as <-.
  - assert (c ≠ "" ∧ (jm_unmarshal (Some ∅) c).1 = merged) as [Hc Hb'].
    { destruct merged as [m|]; simpl in Hm.
      - destruct (Hrt _ _ Hm) as [? ->]. done.
      - injection Hm as <-. by rewrite Hnull. }
    rewrite overlay_set_config by done. unfold apply_scope. simpl.
    rewrite decide_False, Hi by done. rewrite Hb'.
    assert (assign_all merged inst = Some merged) as ->; [|by rewrite Hm].
    destruct base as [b|]; simpl in Ha.
    + injection Ha as <-. simpl. do 2 f_equal. apply map_eq. intros k.
      rewrite !lookup_union. by destruct (inst !! k), (b !! k).
    + case_decide; [|done]. injection Ha as <-. simpl. by rewrite decide_True.
  - rewrite overlay_spec_idem. unfold apply_scope.
    change (wf_Config (overlay_spec (wk_Spec wf) t)) with (wf_Config (wk_Spec wf)).
    rewrite decide_False, Hi by done. fold base. by rewrite Ha, Hm.
Qed.

(** A template whose prepare configuration is the JSON null makes the
    overlay write into a nil map, which panics, for every instance whose
    scope is an object with at least one key. *)
Theorem null_prepare_config_panics wf tmpl inst failed :
  let s := overlay_spec (wk_Spec wf) (wtm_Spec tmpl) in
  wf_Config (wk_Spec wf) ≠ "" → inst ≠ ∅ →
  jm_unmarshal None (wf_Config (wk_Spec wf)) = (Some inst, false) →
  jm_unmarshal (Some ∅) (pp_Config (wf_Prepare s)) = (None, failed) →
  ApplyTemplateDefaults (Some wf) (Some tmpl) = None.
Proof.
  intros s Hne Hin Hi Hb. unfold ApplyTemplateDefaults, apply_scope. fold s.
  change (wf_Config s) with (wf_Config (wk_Spec wf)).
  rewrite decide_False by done. rewrite Hi, Hb. simpl. by rewrite decide_False.
Qed.
End properties.

(** ** Witnesses: a codec for two objects and null *)

Definition scope_obj : gmap string string := {["repo" := "x/y"]}.
Definition both_obj : gmap string string := {["repo" := "x/y"; "wiki" := "w"]}.

#[export] Instance tiny_json : JsonMap string := {
  jm_unmarshal m0 s :=
    if decide (s = "{repo}") then (Some (scope_obj ∪ default ∅ m0), false)
    else if decide (s = "{repo,wiki}") then (Some (both_obj ∪ default ∅ m0), false)
    else if decide (s = "null") then (None, false) else (m0, true);
  jm_marshal m := if decide (m = scope_obj) then Some "{repo}"
                  else if decide (m = both_obj) then Some "{repo,wiki}" else None;
}.

Definition plain_plugin (name : string) : PluginRef :=
  {| pr_Name := name; pr_Image := ""; pr_ConfigMap := ""; pr_Args := []; pr_Timeout := "" |}.
Definition plain_agent : AgentSpec :=
  {| ag_Enabled := None; ag_Model := ""; ag_Models := []; ag_Skill := ""; ag_Tools := [];
     ag_Extensions := []; ag_ExcludeTools := []; ag_NoMCP := None; ag_Thinking := "";
     ag_ToolBudget := None; ag_TaskTemplate := {| tt_Name := ""; tt_ConfigMap := ""; tt_Key := "" |};
     ag_Gate := {| gt_Plugin := plain_plugin "" |}; ag_MaxFixes := 0; ag_Timeout := 0; ag_Scope := "" |}.
Definition plain_source : SourceSpec :=
  {| so_Kind := "git"; so_Repo := "org/repo"; so_Branch := ""; so_Revision := ""; so_Schedule := "";
     so_Topic := ""; so_Language := ""; so_Fork := None; so_Webhook := None |}.
Definition plain_spec (scope prepare : string) : WorkflowSpec :=
  {| wf_Source := plain_source; wf_TemplateRef := "t"; wf_Config := scope; wf_WorkspaceRepo := None;
     wf_Prepare := {| pp_Plugin := plain_plugin "prep"; pp_Output := ""; pp_Detect := "";
                      pp_Config := prepare |};
     wf_Agent := plain_agent; wf_Deploy := {| dp_Plugin := plain_plugin "ship" |}; wf_Graph := None;
     wf_ReviewReady := None; wf_Bindings := []; wf_Events := None; wf_Cache := None;
     wf_Sessions := None; wf_Attachments := []; wf_PluginsConfigMapRef := ""; wf_Scaling := None;
     wf_Disabled := false |}.
Definition plain_meta (name : string) : ObjectMeta :=
  {| om_Name := name; om_Namespace := "ns"; om_Labels := ∅; om_CreationTimestamp := 0;
     om_ResourceVersion := 1; om_UID := "u1" |}.
Definition plain_workflow (scope : string) : Workflow :=
  {| wk_Meta := plain_meta "docs"; wk_Spec := plain_spec scope "" |}.
Definition plain_template (prepare : string) : WorkflowTemplate :=
  {| wtm_Meta := plain_meta "t";
     wtm_Spec := {| wt_Description := ""; wt_Scope := [];
       wt_Prepare := {| pp_Plugin := plain_plugin "p"; pp_Output := "out"; pp_Detect := "";
                        pp_Config := prepare |};
       wt_Agent := plain_agent; wt_Deploy := {| dp_Plugin := plain_plugin "d" |};
       wt_ReviewReady := None; wt_Cache := None; wt_Source := None; wt_PluginsConfigMapRef := "";
       wt_Sessions := None; wt_Attachments := [] |} |}.

Lemma both_obj_eq (m : gmap string string) :
  (∀ k, m !! k = match scope_obj !! k with Some v => Some v | None => both_obj !! k end) →
  m = both_obj.
Proof.
  intros Hm. apply map_eq. intros k. rewrite Hm. unfold scope_obj, both_obj.
  destruct (decide (k = "repo")) as [->|Hk]; [by rewrite !lookup_insert_eq|].
  by rewrite lookup_singleton_ne.
Qed.

Lemma scope_overlay_per_key_witness :
  ApplyTemplateDefaults (Some (plain_workflow "{repo}")) (Some (plain_template "{repo,wiki}"))
  = Some (Some {| wk_Meta := plain_meta "docs";
      wk_Spec := set_prepare_config "{repo,wiki}"
        (overlay_spec (plain_spec "{repo}" "") (wtm_Spec (plain_template "{repo,wiki}"))) |}).
Proof.
  apply (scope_overlay_per_key (plain_workflow "{repo}") (plain_template "{repo,wiki}")
           scope_obj both_obj "{repo,wiki}").
  - discriminate.
  - reflexivity.
  - reflexivity.
  - intros m ->%both_obj_eq. reflexivity.
Defined.

Lemma tiny_json_laws : json_laws (J := string).
Proof.
  split; [|done]. intros m c Hm. change ((if decide (m = scope_obj) then Some "{repo}"
    else if decide (m = both_obj) then Some "{repo,wiki}" else None) = Some c) in Hm.
  destruct (decide (m = scope_obj)) as [->|]; [injection Hm as <-; by split|].
  destruct (decide (m = both_obj)) as [->|]; [injection Hm as <-; by split|done].
Qed.

Lemma template_overlay_idempotent_witness :
  ∃ wf1, ApplyTemplateDefaults (Some (plain_workflow "{repo}")) (Some (plain_template "{repo,wiki}"))
         = Some (Some wf1)
    ∧ ApplyTemplateDefaults (Some wf1) (Some (plain_template "{repo,wiki}")) = Some (Some wf1).
Proof.
  eexists. split; [reflexivity|].
  apply (template_overlay_idempotent (plain_workflow "{repo}") (plain_template "{repo,wiki}") _
           tiny_json_laws). reflexivity.
Defined.

Lemma null_prepare_config_panics_witness :
  ApplyTemplateDefaults (Some (plain_workflow "{repo}")) (Some (plain_template "null")) = None.
Proof.
  apply (null_prepare_config_panics (plain_workflow "{repo}") (plain_template "null") scope_obj false).
  - discriminate.
  - discriminate.
  - reflexivity.
  - reflexivity.
Defined.
