(* ===== verification/Compile.v ===== *)
(** * The workflow compiler ([internal/graph/compile.go])

    A fixed-shape workflow (prepare, agent, deploy) becomes a graph; a template
    compiles through the same function. The JSON codecs of the node
    configurations are parameters; a marshalling error leaves no bytes, which
    is the empty string. *)

From S2P Require Import Prelude GoTime Api Template ClaimTrust Capability GraphTypes GraphRetry Redact GraphExec GraphInv GraphStep GraphProps.

Definition wikiLintScope (workflowName : string) : string :=
  "SCOPE: this Workflow owns exactly ONE project: " +:+ workflowName +:+
  ". Work ONLY on raw/arch/" +:+ workflowName +:+
  "/, its model.c4, and wiki/entities/" +:+ workflowName +:+
  ".md (plus index.md/log.md). Do NOT read or modify any other project" +:+
  " under raw/arch/ — those are owned by other Workflows.".

Definition taskRef (tt : TaskTemplate) : string :=
  if decide (tt_ConfigMap tt ≠ "" ∧ tt_Key tt ≠ "") then tt_ConfigMap tt +:+ "/" +:+ tt_Key tt
  else tt_Name tt.

Section compile.
Context `{JsonCodec PluginNodeConfig} `{JsonCodec AgentNodeConfig}.

Definition plain_node (id type label config timeout : string) : NodeSpec :=
  {| nd_ID := id; nd_Type := type; nd_Label := label; nd_Config := config; nd_Outputs := [];
     nd_When := ""; nd_Timeout := timeout; nd_Requires := []; nd_Background := None;
     nd_Retry := None |}.

Definition plain_edge (from to : string) : EdgeSpec :=
  {| ed_From := from; ed_To := to; ed_When := ""; ed_MaxRetries := 0 |}.

Definition label_or (name fallback : string) : string := if decide (name = "") then fallback else name.

Definition prepare_node (s : WorkflowSpec) : NodeSpec :=
  let p := pp_Plugin (wf_Prepare s) in
  plain_node "prepare" "plugin" (label_or (pr_Name p) "prepare")
    (json_marshal {| pc_Name := pr_Name p; pc_Args := pr_Args p; pc_ConfigMap := pr_ConfigMap p;
                     pc_Timeout := ""; pc_Config := pp_Config (wf_Prepare s) |})
    (pr_Timeout p).

Definition agent_node (name : string) (s : WorkflowSpec) : NodeSpec :=
  let a := wf_Agent s in
  let g := gt_Plugin (ag_Gate a) in
  plain_node "agent" "agent"
    (if decide (ag_Model a = "") then "agent" else "agent · " +:+ ag_Model a)
    (json_marshal {| ac_Model := ag_Model a; ac_Skill := ag_Skill a;
       ac_Task := taskRef (ag_TaskTemplate a); ac_Tools := ag_Tools a;
       ac_Gate := Some {| gc_Plugin := {| pc_Name := pr_Name g; pc_Args := pr_Args g;
                            pc_ConfigMap := pr_ConfigMap g; pc_Timeout := pr_Timeout g;
                            pc_Config := "" |}; gc_Validates := [] |};
       ac_MaxFixes := if decide (ag_MaxFixes a = 0) then 3 else ag_MaxFixes a;
       ac_Scope := wikiLintScope name |})
    "".

Definition deploy_node (s : WorkflowSpec) : NodeSpec :=
  let p := dp_Plugin (wf_Deploy s) in
  plain_node "deploy" "plugin" (label_or (pr_Name p) "deploy")
    (json_marshal {| pc_Name := pr_Name p; pc_Args := pr_Args p; pc_ConfigMap := pr_ConfigMap p;
                     pc_Timeout := ""; pc_Config := "" |})
    (pr_Timeout p).

Definition compile_spec (name : string) (s : WorkflowSpec) : GraphSpec :=
  if EnabledOrDefault (wf_Agent s)
  then {| gr_Nodes := [prepare_node s; agent_node name s; deploy_node s];
          gr_Edges := [plain_edge "prepare" "agent"; plain_edge "agent" "deploy"] |}
  else {| gr_Nodes := [prepare_node s; deploy_node s];
          gr_Edges := [plain_edge "prepare" "deploy"] |}.

Definition CompileWorkflow (wf : Workflow) : GraphSpec :=
  compile_spec (om_Name (wk_Meta wf)) (wk_Spec wf).

(** A zero Workflow carrying the template's three parts. *)
Definition template_workflow (t : WorkflowTemplateSpec) : Workflow :=
  {| wk_Meta := {| om_Name := ""; om_Namespace := ""; om_Labels := ∅; om_CreationTimestamp := 0;
                   om_ResourceVersion := 0; om_UID := "" |};
     wk_Spec := {| wf_Source := {| so_Kind := ""; so_Repo := ""; so_Branch := ""; so_Revision := "";
                     so_Schedule := ""; so_Topic := ""; so_Language := ""; so_Fork := None;
                     so_Webhook := None |};
                   wf_TemplateRef := ""; wf_Config := ""; wf_WorkspaceRepo := None;
                   wf_Prepare := wt_Prepare t; wf_Agent := wt_Agent t; wf_Deploy := wt_Deploy t;
                   wf_Graph := None; wf_ReviewReady := None; wf_Bindings := []; wf_Events := None;
                   wf_Cache := None; wf_Sessions := None; wf_Attachments := [];
                   wf_PluginsConfigMapRef := ""; wf_Scaling := None; wf_Disabled := false |} |}.

Definition CompileTemplate (t : WorkflowTemplate) : GraphSpec :=
  CompileWorkflow (template_workflow (wtm_Spec t)).

(** ** The shape of a compiled graph *)

(** The nodes a compiled graph runs through, in order. *)
Definition stages (wf : Workflow) : list string :=
  if EnabledOrDefault (wf_Agent (wk_Spec wf)) then ["prepare"; "agent"; "deploy"]
  else ["prepare"; "deploy"].

Lemma compiled_ids wf : nd_ID <$> gr_Nodes (CompileWorkflow wf) = stages wf.
Proof. unfold CompileWorkflow, compile_spec, stages. by destruct (EnabledOrDefault _). Qed.

Lemma compiled_nodes wf id : is_Some (node_map (CompileWorkflow wf) !! id) ↔ id ∈ stages wf.
Proof.
  rewrite <- compiled_ids. split.
  - intros [n Hn]. apply node_map_id in Hn as [<- Hn]. by apply list_elem_of_fmap_2.
  - intros (n&->&Hn)%list_elem_of_fmap. exists n. apply node_map_nodup; [|done].
    rewrite compiled_ids. unfold stages. destruct (EnabledOrDefault _); by apply (bool_decide_unpack _).
Qed.

Lemma compiled_nodup wf : NoDup (stages wf).
Proof. unfold stages. destruct (EnabledOrDefault _); by apply (bool_decide_unpack _). Qed.

Lemma out_edges_next wf before id rest :
  stages wf = before ++ id :: rest →
  out_edges (CompileWorkflow wf) id
  = match rest with [] => [] | next :: _ => [plain_edge id next] end.
Proof.
  unfold stages, CompileWorkflow, compile_spec. destruct (EnabledOrDefault _);
    destruct before as [|a [|b [|c before]]]; simpl; intros [=]; subst; try done;
    by destruct before.
Qed.

Lemma compiled_node_type wf n :
  n ∈ gr_Nodes (CompileWorkflow wf) →
  (nd_Type n = "plugin" ∨ nd_Type n = "agent") ∧ nd_Requires n = [] ∧ IsBackground n = false.
Proof.
  unfold CompileWorkflow, compile_spec. destruct (EnabledOrDefault _); simpl;
    intros Hn; repeat (apply elem_of_cons in Hn as [->|Hn]; [by auto|]);
    by apply elem_of_nil in Hn.
Qed.

Lemma compiled_not_external wf id : isExternalNode (node_map (CompileWorkflow wf)) id = false.
Proof.
  unfold isExternalNode. destruct (node_map _ !! id) as [n|] eqn:Hn; [|done].
  apply node_map_id in Hn as [_ Hn]. apply compiled_node_type in Hn as [[Ht|Ht] _]; by rewrite Ht.
Qed.

Lemma compiled_edge_when wf ed : ed ∈ gr_Edges (CompileWorkflow wf) → ed_When ed = "".
Proof.
  unfold CompileWorkflow, compile_spec. destruct (EnabledOrDefault _); simpl;
    intros Hn; repeat (apply elem_of_cons in Hn as [->|Hn]; [done|]); by apply elem_of_nil in Hn.
Qed.

Lemma compiled_entry wf : entry_nodes (CompileWorkflow wf) = ["prepare"].
Proof. unfold CompileWorkflow, compile_spec. by destruct (EnabledOrDefault _). Qed.

Lemma compiled_no_background wf : background_violation (CompileWorkflow wf) = None.
Proof.
  unfold background_violation. destruct (list_find _ _) as [[i n]|] eqn:Hf; [|done].
  apply list_find_Some in Hf as (Hi&[Hb _]&_). apply list_elem_of_lookup_2 in Hi.
  apply compiled_node_type in Hi as (_&_&Hn). congruence.
Qed.

(** A compiled graph is one the executor accepts and can finish: its node
    identifiers are distinct, it has exactly one entry node, no background
    node and no external node, nothing in it needs a granted capability, and
    its edges chain the stages in order, each towards a node of the graph and
    without a loop-back; the agent stage is there exactly when the agent is
    enabled. *)
Theorem compiled_graph_wellformed wf :
  let g := CompileWorkflow wf in
  NoDup (nd_ID <$> gr_Nodes g)
  ∧ entry_nodes g = ["prepare"] ∧ background_violation g = None
  ∧ (∀ n, n ∈ gr_Nodes g → nd_Type n ≠ NodeTypeExternal ∧ ∀ bs, AuthorizeNode bs n = [])
  ∧ (∀ ed, ed ∈ gr_Edges g → ed_MaxRetries ed = 0
       ∧ is_Some (node_map g !! ed_From ed) ∧ is_Some (node_map g !! ed_To ed))
  ∧ (∀ before id rest, stages wf = before ++ id :: rest →
       out_edges g id = match rest with [] => [] | next :: _ => [plain_edge id next] end)
  ∧ (is_Some (node_map g !! "agent") ↔ EnabledOrDefault (wf_Agent (wk_Spec wf)) = true).
Proof.
  cbv zeta. split_and!.
  - rewrite compiled_ids. apply compiled_nodup.
  - apply compiled_entry.
  - apply compiled_no_background.
  - intros n Hn. apply compiled_node_type in Hn as (Ht&Hr&_). split.
    + by destruct Ht as [-> | ->].
    + intros bs. apply AuthorizeNode_nil_iff. rewrite Hr. by intros r ?%elem_of_nil.
  - intros ed. rewrite !compiled_nodes. unfold CompileWorkflow, compile_spec, stages.
    destruct (EnabledOrDefault _); simpl; intros Hn;
      repeat (apply elem_of_cons in Hn as [->|Hn]; [set_solver|]); by apply elem_of_nil in Hn.
  - intros before id rest. apply out_edges_next.
  - rewrite compiled_nodes. unfold stages. destruct (EnabledOrDefault _); set_solver.
Qed.
End compile.

(** ** Running a compiled graph *)

Section run.
Context {W : Type} `{World W}.
Context (quote : string → string).
Context (render : string → gmap string NodeOutputs → option string).
Context `{JsonCodec GateNodeConfig} `{JsonCodec PluginNodeConfig} `{JsonCodec AgentNodeConfig}.
Variable e : GraphExecutor W.
Variable wf : Workflow.
Notation g := (CompileWorkflow wf).

Definition all_green (l : list string) (r : Run W) : Prop :=
  ∀ j, j ∈ l → statuses r !! j = Some StatusGreen.

(** Only stages ran, each after every earlier stage was green. *)
Definition in_order (r : Run W) : Prop :=
  ∀ id k, FxExecute id k ∈ rn_fx r →
    ∃ before rest, stages wf = before ++ id :: rest ∧ all_green before r.

(** A walk that has green results for [before] and ran nothing else. *)
Definition reached (before : list string) (r : Run W) : Prop :=
  all_green before r ∧ ∀ id k, FxExecute id k ∈ rn_fx r → id ∈ before.

Lemma split_before (l before : list string) id rest :
  NoDup l → l = before ++ rest → id ∈ before →
  ∃ b1 b2, l = b1 ++ id :: b2 ∧ b1 ⊆ before.
Proof.
  intros _ -> (b1&b2&->)%list_elem_of_split. exists b1, (b2 ++ rest).
  rewrite <- app_assoc. split; [done|]. set_solver.
Qed.

Lemma reached_in_order before rest r :
  stages wf = before ++ rest → reached before r → in_order r.
Proof.
  intros Hs [Hg Hx] id k Hin.
  destruct (split_before _ _ id rest (compiled_nodup wf) Hs (Hx _ _ Hin)) as (b1&b2&?&Hb).
  exists b1, b2. split; [done|]. intros j Hj. apply Hg. by apply Hb.
Qed.

Lemma visited_in_order before id rest r r' :
  stages wf = before ++ id :: rest → reached before r → Step render g id r r' → in_order r'.
Proof.
  intros Hs [Hg Hx] (Ho&(l&Hl&Honly)&_).
  assert (id ∉ before) as Hni.
  { pose proof (compiled_nodup wf) as Hnd. rewrite Hs in Hnd.
    apply NoDup_app in Hnd as (_&Hd&_). intros Hin. apply (Hd _ Hin). set_solver. }
  assert (all_green before r') as Hg'.
  { intros j Hj. rewrite Ho; [by apply Hg|]. intros ->. done. }
  intros j k Hin. rewrite Hl in Hin. apply elem_of_app in Hin as [Hin|Hin].
  - destruct (split_before _ _ j (id :: rest) (compiled_nodup wf) Hs (Hx _ _ Hin)) as (b1&b2&?&Hb).
    exists b1, b2. split; [done|]. intros i Hi. by apply Hg', Hb.
  - apply Honly in Hin as ->. by exists before, rest.
Qed.

Definition stalled (r : Run W) : Prop :=
  ∃ j s, statuses r !! j = Some s ∧ s ≠ StatusGreen.

(** A plain edge is taken by green results only. *)
Lemma traversed_next before id rest nr all :
  stages wf = before ++ id :: rest →
  traversed render g id nr all
  = if bool_decide (nr_Status nr = StatusGreen)
    then match rest with [] => [] | next :: _ => [next] end else [].
Proof.
  intros Hs. unfold traversed. rewrite (out_edges_next _ _ _ _ Hs). destruct rest as [|next rest].
  - by destruct (bool_decide _).
  - rewrite filter_cons. unfold shouldTraverse. simpl. rewrite filter_nil.
    by destruct (bool_decide (nr_Status nr = StatusGreen)).
Qed.

Lemma next_unbounded before id rest :
  stages wf = before ++ id :: rest → unbounded (node_map g) (out_edges g id).
Proof.
  intros Hs. rewrite (out_edges_next _ _ _ _ Hs).
  destruct rest as [|next rest]; repeat constructor. apply compiled_not_external.
Qed.

Lemma reached_quiet before r r' : Quiet r r' → reached before r → reached before r'.
Proof.
  intros (_&_&E&_&_&_&_&_&l&El&Hl) [Hg Hx]. split.
  - intros j Hj. unfold statuses. rewrite E. by apply Hg.
  - rewrite El. intros id k [Hin|Hin]%elem_of_app; [by eapply Hx|].
    rewrite Forall_forall in Hl. by destruct (Hl _ Hin).
Qed.

Lemma in_order_quiet r r' : Quiet r r' → in_order r → in_order r'.
Proof.
  intros (_&_&E&_&_&_&_&_&l&El&Hl) Ho id k. rewrite El. intros [Hin|Hin]%elem_of_app.
  - destruct (Ho _ _ Hin) as (b&rest&?&Hg). exists b, rest. split; [done|].
    intros j Hj. unfold statuses. rewrite E. by apply Hg.
  - rewrite Forall_forall in Hl. by destruct (Hl _ Hin).
Qed.

Lemma reached_extend before id rest r r' l :
  stages wf = before ++ id :: rest → reached before r →
  (∀ j, j ≠ id → statuses r' !! j = statuses r !! j) →
  rn_fx r' = rn_fx r ++ l → runs_only id l → statuses r' !! id = Some StatusGreen →
  reached (before ++ [id]) r'.
Proof.
  intros Hs [Hg Hx] Ho Hl Honly Hgr. split.
  - intros j [Hj|Hj]%elem_of_app; [|by apply list_elem_of_singleton in Hj as ->].
    destruct (decide (j = id)) as [->|]; [done|]. rewrite Ho by done. by apply Hg.
  - rewrite Hl. intros j k [Hin|Hin]%elem_of_app; apply elem_of_app; [left; by eapply Hx|right].
    apply Honly in Hin as ->. by apply list_elem_of_singleton.
Qed.

Lemma chain_walk rest before fuel p r r' err :
  stages wf = before ++ rest → rn_queue r = take 1 rest → reached before r →
  walk quote render e fuel g p r = Some (r', err) →
  in_order r' ∧ (err = None → rn_Status r' = StatusFailed ∨ stalled r' ∨ all_green (stages wf) r').
Proof.
  revert before fuel r. induction rest as [|id rest IH]; intros before fuel r Hs Hq Hr; simpl in Hq.
  - assert (walk quote render e fuel g p r = Some (r', err) →
      in_order r' ∧ (err = None → all_green (stages wf) r')) as Hend.
    { rewrite app_nil_r in Hs. destruct fuel; simpl; rewrite Hq; intros [= <- <-];
        set (r2 := publishLifecycle e _ _);
        assert (Quiet (set_outcome (rn_Status r) "pipeline completed" r) r2) as HQ
          by apply publishLifecycle_Quiet;
        assert (reached before r2) as Hr2 by (eapply reached_quiet; [exact HQ|exact Hr]);
        (split; [eapply (reached_in_order before []); [by rewrite app_nil_r|done]|]);
        intros _; rewrite Hs; apply Hr2. }
    intros Hw. destruct (Hend Hw) as [? ?]. split; [done|auto].
  - destruct fuel as [|fuel]; simpl; rewrite Hq; [done|].
    destruct (MaxIterations <=? _).
    { intros [= <- <-]. split; [|done]. eapply (reached_in_order before (id :: rest)); [done|exact Hr]. }
    set (r1 := set_queue (W:=W) _ _). assert (reached before r1) as Hr1 by exact Hr.
    destruct (visit quote render e g p id r1) as [o|] eqn:Hv; [|done].
    assert (is_Some (node_map g !! id)) as Hid by (apply compiled_nodes; rewrite Hs; set_solver).
    pose proof (visit_Step quote render e g p id r1 o Hid Hv) as HS.
    pose proof (visited_in_order _ _ _ _ _ Hs Hr1 HS) as Hord.
    destruct o as [r2|r2 err2]; simpl in HS, Hord.
    + destruct HS as (Ho&(l&Hl&Honly)&l'&nr&all&Hq'&Hsub&Hst&Hall). simpl in Hq'.
      rewrite (traversed_next _ _ _ _ _ Hs) in Hsub, Hall.
      destruct (decide (nr_Status nr = StatusGreen)) as [Hgr|Hgr].
      * rewrite bool_decide_eq_true_2 in Hall by done.
        rewrite Hall in Hq'; [|by rewrite Hgr|by eapply next_unbounded].
        apply (IH (before ++ [id])); [by rewrite <- app_assoc| |].
        -- rewrite Hq'. by destruct rest.
        -- eapply reached_extend; eauto. by rewrite Hst, Hgr.
      * rewrite bool_decide_eq_false_2 in Hsub by done. apply sublist_nil_r in Hsub as ->.
        intros Hw. destruct fuel; simpl in Hw; rewrite Hq' in Hw; injection Hw as <- <-;
          (split; [by eapply in_order_quiet; [apply publishLifecycle_Quiet|]|]);
          intros _; right; left; exists id, (nr_Status nr); (split; [|done]);
          rewrite <- Hst; unfold statuses, publishLifecycle; by destruct (gx_dapr e).
    + intros [= <- <-]. split; [done|]. intros ->. left. by eapply visit_return.
Qed.

(** C33. The compiler is safe by construction: running a compiled workflow
    through the executor, whatever the plugins and the agent do, a stage is
    executed only after every earlier stage ended green, so nothing is
    deployed that the agent (when enabled) did not turn green; and a run that
    reports green either has every stage green, deploy included, or stopped
    at a stage that was neither green nor failed. *)
Theorem compiled_run_in_order p w :
  ∃ r err, Execute quote render e (CompileWorkflow wf) p w = Some (r, err)
    ∧ (∀ id k, FxExecute id k ∈ rn_fx r →
         ∃ before rest, stages wf = before ++ id :: rest
           ∧ ∀ j, j ∈ before → nr_Status <$> rn_NodeResults r !! j = Some StatusGreen)
    ∧ (rn_Status r = StatusGreen →
         (∀ j, j ∈ stages wf → nr_Status <$> rn_NodeResults r !! j = Some StatusGreen)
         ∨ ∃ j s, nr_Status <$> rn_NodeResults r !! j = Some s
                  ∧ s ≠ StatusGreen ∧ s ≠ StatusFailed).
Proof.
  destruct (Execute_green quote render e g p w) as (r&err&Hx&Hh&Hgreen).
  exists r, err. split; [done|]. unfold Execute in Hx.
  rewrite compiled_no_background, compiled_entry in Hx.
  set (r1 := publishLifecycle e _ _) in Hx.
  assert (Quiet (set_queue ["prepare"] (start_run w)) r1) as HQ by apply publishLifecycle_Quiet.
  assert (∃ rest, stages wf = "prepare" :: rest) as [rest Hs]
    by (unfold stages; destruct (EnabledOrDefault _); by eexists).
  destruct (chain_walk ("prepare" :: rest) [] walk_fuel p r1 r err) as [Ho Hend]; try done.
  { destruct HQ as (_&_&_&_&->&_). done. }
  { eapply reached_quiet; [exact HQ|]. split; [by intros j ?%elem_of_nil|].
    by intros id k ?%elem_of_nil. }
  split.
  - intros id k Hin. destruct (Ho _ _ Hin) as (b&rest'&?&Hg). exists b, rest'. split; [done|].
    intros j Hj. rewrite <- statuses_lookup. by apply Hg.
  - intros Hst. destruct (Hgreen Hst) as (->&_&_&_&Hf).
    destruct (Hend eq_refl) as [Hfail|[(j&s&Hj&Hs')|Hall]].
    + by rewrite Hfail in Hst.
    + right. exists j, s. rewrite <- statuses_lookup. split_and!; [done..|]. intros ->.
      rewrite statuses_lookup in Hj. apply fmap_Some in Hj as (nr&Hnr&Hnst).
      destruct (ho_node _ _ _ _ Hh _ _ Hnr) as [node Hn].
      destruct (Hf j nr node Hnr) as [Hb|(ed&all&Hed&Ht)]; [done|done| |].
      * apply node_map_id in Hn as [_ Hn]. apply compiled_node_type in Hn as (_&_&Hb').
        congruence.
      * apply list_elem_of_filter in Hed as [_ Hed]. apply compiled_edge_when in Hed.
        unfold shouldTraverse in Ht. rewrite Hed in Ht. simpl in Ht. rewrite <- Hnst in Ht. done.
    + left. intros j Hj. rewrite <- statuses_lookup. by apply Hall.
Qed.
End run.
