(* ===== verification/AttemptName.v ===== *)
(** * Objectives and attempt names ([internal/attempt/attempt.go])

    The objective a workflow run realizes is derived from the workflow and its
    trigger; its identity, hashed, names the Attempt. The path component of
    [url.Parse] is a parameter ([None]: the URL does not parse). *)

From S2P Require Import Prelude GoStrings GoTime Api ReviewReady GraphTypes GraphExec.

Record TriggerContext := { tc_Revision : string; tc_Source : string }.

(** ** The objective *)

Definition DeriveKind (wf : Workflow) : string :=
  if match so_Fork (wf_Source (wk_Spec wf)) with
     | Some f => negb (bool_decide (fk_URL f = "")) | None => false end
  then ObjectiveKindForkSync
  else match wf_ReviewReady (wk_Spec wf) with
       | Some _ => ObjectiveKindPRReview
       | None => ObjectiveKindForGate (pr_Name (gt_Plugin (ag_Gate (wf_Agent (wk_Spec wf)))))
       end.

Definition DeriveTargetedState (wf : Workflow) (trigger : TriggerContext) : string :=
  if decide (tc_Revision trigger ≠ "") then tc_Revision trigger
  else if decide (so_Revision (wf_Source (wk_Spec wf)) ≠ "") then so_Revision (wf_Source (wk_Spec wf))
  else "head".

Definition DesiredOutcome (kind : string) : string :=
  if decide (kind = ObjectiveKindDocumentationSync)
  then "source documentation reflected in the wiki KB"
  else if decide (kind = ObjectiveKindPRReview)
  then "PR reviewed with structured feedback posted to the host"
  else if decide (kind = ObjectiveKindForkSync)
  then "fork release branch synced to upstream with a green build"
  else if decide (kind = ObjectiveKindDeploymentChange)
  then "cluster reaches the declared desired state"
  else "objective achieved".

Definition colon : Ascii.ascii := ":"%char.
Definition at_sign : Ascii.ascii := "@"%char.

Section objective.
Context (url_path : string → option string).

Definition RepoID (gitURL : string) : string :=
  let s := TrimSpace gitURL in
  if decide (s = "") then ""
  else
    let https :=
      match url_path s with
      | Some p => if decide (p = "") then s else trim_suffix (trim_prefix p "/") ".git"
      | None => s
      end in
    match index_byte colon s with
    | Some i => if (0 <? Z.of_nat i) && contains_byte (str_take i s) at_sign
                then trim_suffix (str_drop (S i) s) ".git" else https
    | None => https
    end.

Definition deriveSubjects (wf : Workflow) (kind : string) : Subject * list Subject :=
  let src := wf_Source (wk_Spec wf) in
  match so_Fork src with
  | Some f =>
      if decide (kind = ObjectiveKindForkSync)
      then ({| sj_Binding := "fork"; sj_Object := RepoID (fk_URL f) |},
            if decide (so_Repo src = "") then []
            else [{| sj_Binding := "source"; sj_Object := so_Repo src |}])
      else ({| sj_Binding := "source"; sj_Object := so_Repo src |}, [])
  | None => ({| sj_Binding := "source"; sj_Object := so_Repo src |}, [])
  end.

Definition DeriveObjective (wf : Workflow) (trigger : TriggerContext) : ObjectiveSpec :=
  let kind := DeriveKind wf in
  let '(primary, related) := deriveSubjects wf kind in
  {| ob_Kind := kind; ob_PrimarySubject := primary; ob_RelatedSubjects := related;
     ob_DesiredOutcome := DesiredOutcome kind;
     ob_TargetedState := DeriveTargetedState wf trigger |}.
End objective.

Definition Identity (obj : ObjectiveSpec) : string :=
  ob_Kind obj +:+ "|" +:+ sj_Object (ob_PrimarySubject obj) +:+ "|" +:+ ob_TargetedState obj.

(** ** The name *)

(** [fnv.New64a], then [Write]. *)
Definition fnv_offset : Z := 14695981039346656037.
Definition fnv_prime : Z := 1099511628211.
Definition fnv64a (s : string) : Z :=
  foldl (λ h c, u64 (Z.lxor h (byte_val c) * fnv_prime)) fnv_offset (str_bytes s).

(** [Sum(nil)]: eight bytes, big-endian. *)
Definition sum_bytes (h : Z) : list Z :=
  (λ k, Z.land (Z.shiftr h k) 255) <$> [56; 48; 40; 32; 24; 16; 8; 0].

Definition hex_digits : string := "0123456789abcdef".
Definition hex_digit (v : Z) : Ascii.ascii :=
  default "0"%char (str_bytes hex_digits !! Z.to_nat v).

Definition toHex (b : list Z) : string :=
  bytes_str (b ≫= λ v, [hex_digit (Z.shiftr v 4); hex_digit (Z.land v 15)]).

Definition dash : Ascii.ascii := "-"%char.
Definition dns_alnum (c : Ascii.ascii) : bool := is_lower c || is_digit c.
Definition dns_byte (c : Ascii.ascii) : bool := dns_alnum c || bool_decide (c = dash).

(** The bytes of a rune outside ASCII are one run of rejected bytes, and runs
    collapse, so the loop over runes is a loop over bytes. *)
Fixpoint sanitize_loop (prevDash : bool) (s : string) : string :=
  match s with
  | "" => ""
  | String c r =>
      if dns_alnum c then String c (sanitize_loop false r)
      else if prevDash then sanitize_loop true r
      else String dash (sanitize_loop true r)
  end.

(** [strings.Trim(s, "-")]. *)
Fixpoint trim_left (c : Ascii.ascii) (s : string) : string :=
  match s with
  | String b r => if decide (b = c) then trim_left c r else s
  | "" => ""
  end.
Definition trim_both (c : Ascii.ascii) (s : string) : string :=
  String.rev (trim_left c (String.rev (trim_left c s))).

Definition sanitizeDNS (s : string) : string := trim_both dash (sanitize_loop false (ToLower s)).

Definition maxBase : nat := 63 - 8 - 1 - 12.

Definition AttemptName (workflowName identity : string) : string :=
  let hash := str_take 12 (toHex (sum_bytes (fnv64a identity))) in
  let base := sanitizeDNS workflowName in
  let base := if (maxBase <? String.length base)%nat then str_take maxBase base else base in
  "attempt-" +:+ base +:+ "-" +:+ hash.

Example fnv_empty : fnv64a "" = 14695981039346656037.
Proof. reflexivity. Qed.
Example fnv_a : fnv64a "a" = 0xaf63dc4c8601ec8c.
Proof. reflexivity. Qed.
Example name_example :
  AttemptName "Docs & Wiki!" "" = "attempt-docs-wiki-cbf29ce48422".
Proof. reflexivity. Qed.

(** ** Facts *)

Lemma hex_digit_alnum v : dns_alnum (hex_digit v) = true.
Proof.
  unfold hex_digit. destruct (str_bytes hex_digits !! Z.to_nat v) as [c|] eqn:Hc; [|done].
  apply list_elem_of_lookup_2 in Hc. simpl in Hc.
  assert (Forall (λ c, dns_alnum c = true) (str_bytes hex_digits)) as Hf by by repeat constructor.
  rewrite Forall_forall in Hf. by apply Hf.
Qed.

Lemma toHex_cons v b :
  toHex (v :: b) = String (hex_digit (Z.shiftr v 4)) (String (hex_digit (Z.land v 15)) (toHex b)).
Proof. done. Qed.

Lemma toHex_alnum b : all_bytes dns_alnum (toHex b) = true.
Proof. induction b as [|v b IH]; [done|]. rewrite toHex_cons. simpl. by rewrite !hex_digit_alnum. Qed.

Lemma all_bytes_impl (p q : Ascii.ascii → bool) s :
  (∀ c, p c = true → q c = true) → all_bytes p s = true → all_bytes q s = true.
Proof.
  intros Hpq. induction s as [|c s IH]; simpl; [done|]. intros [? ?]%andb_true_iff.
  apply andb_true_iff. auto.
Qed.

Lemma dns_alnum_byte c : dns_alnum c = true → dns_byte c = true.
Proof. unfold dns_byte. by intros ->. Qed.

Lemma sanitize_loop_bytes b s : all_bytes dns_byte (sanitize_loop b s) = true.
Proof.
  revert b. induction s as [|c s IH]; intros b; simpl; [done|].
  destruct (dns_alnum c) eqn:Hc; simpl; [by rewrite dns_alnum_byte, IH|].
  destruct b; simpl; by rewrite IH.
Qed.

Lemma trim_left_bytes p c s : all_bytes p s = true → all_bytes p (trim_left c s) = true.
Proof.
  induction s as [|b s IH]; simpl; [done|]. intros Hs. case_decide; [|done].
  apply andb_true_iff in Hs as [_ ?]. auto.
Qed.

Lemma rev_bytes p s : all_bytes p s = true → all_bytes p (String.rev s) = true.
Proof.
  assert (∀ t acc, all_bytes p t = true → all_bytes p acc = true →
    all_bytes p (String.rev_app t acc) = true) as H.
  { induction t as [|c t IH]; intros acc; simpl; [done|].
    intros [Hc Ht]%andb_true_iff Ha. apply IH; [done|]. simpl. by rewrite Hc. }
  intros Hs. by apply H.
Qed.

Lemma sanitizeDNS_bytes s : all_bytes dns_byte (sanitizeDNS s) = true.
Proof.
  unfold sanitizeDNS, trim_both. apply rev_bytes, trim_left_bytes, rev_bytes, trim_left_bytes.
  apply sanitize_loop_bytes.
Qed.

(** A DNS-1123 label. *)
Definition dns1123 (s : string) : Prop :=
  1 ≤ slen s ≤ 63 ∧ all_bytes dns_byte s = true
  ∧ (∃ c, head (str_bytes s) = Some c ∧ dns_alnum c = true)
  ∧ (∃ c, last (str_bytes s) = Some c ∧ dns_alnum c = true).

Lemma str_bytes_app s t : str_bytes (s +:+ t) = str_bytes s ++ str_bytes t.
Proof. induction s as [|c s IH]; [done|]. rewrite app_str_cons. simpl. by rewrite IH. Qed.

Lemma hash_shape identity :
  ∃ a c, str_take 12 (toHex (sum_bytes (fnv64a identity))) = a +:+ String c ""
         ∧ String.length a = 11%nat ∧ all_bytes dns_alnum (a +:+ String c "") = true.
Proof.
  unfold sum_bytes. rewrite !fmap_cons, !toHex_cons.
  repeat match goal with
  | |- context [hex_digit ?v] => generalize (hex_digit_alnum v); generalize (hex_digit v); intros ? ?
  end.
  simpl str_take. eexists (String _ (String _ (String _ (String _ (String _ (String _ (String _ (String _ (String _ (String _ (String _ ""))))))))))), _.
  rewrite !app_str_cons, app_str_nil_l. split; [reflexivity|]. split; [done|]. simpl.
  repeat match goal with H : dns_alnum _ = true |- _ => rewrite H; clear H end. done.
Qed.

(** ** Properties *)

(** Every attempt name is a valid DNS-1123 label, whatever the workflow is
    called and whatever identity it realizes: at most 63 bytes, lowercase
    letters, digits and hyphens only, starting and ending with a letter or a
    digit. *)
Theorem AttemptName_dns1123 workflowName identity : dns1123 (AttemptName workflowName identity).
Proof.
  unfold AttemptName. destruct (hash_shape identity) as (a&c&->&Ha&Hac).
  set (base := if (_ <? _)%nat then _ else _).
  assert (all_bytes dns_byte base = true ∧ (String.length base ≤ 42)%nat) as [Hb Hl].
  { pose proof (sanitizeDNS_bytes workflowName) as Hs. unfold base, maxBase. simpl Nat.sub.
    destruct (_ <? _)%nat eqn:Hlt.
    - split; [by apply all_bytes_take|apply length_str_take].
    - split; [done|]. apply Nat.ltb_ge in Hlt. done. }
  unfold dns1123. split_and!.
  - rewrite !slen_app. unfold slen. simpl. rewrite Ha. simpl. lia.
  - rewrite !slen_app. unfold slen. simpl. rewrite Ha. simpl. lia.
  - rewrite all_bytes_app, (all_bytes_app _ base), (all_bytes_app _ "-"), Hb.
    by rewrite (all_bytes_impl _ dns_byte _ dns_alnum_byte Hac).
  - eexists. split; [reflexivity|done].
  - exists c. rewrite !str_bytes_app. simpl. rewrite !app_comm_cons, !app_assoc.
    rewrite last_snoc. split; [done|]. rewrite all_bytes_app in Hac.
    apply andb_true_iff in Hac as [_ Hc]. simpl in Hc. by rewrite andb_true_r in Hc.
Qed.

Definition bar : Ascii.ascii := "|"%char.

Lemma cut_at_bar s1 s2 t1 t2 :
  contains_byte s1 bar = false → contains_byte s2 bar = false →
  s1 +:+ String bar t1 = s2 +:+ String bar t2 → s1 = s2 ∧ t1 = t2.
Proof.
  unfold contains_byte. rewrite !bool_decide_eq_false. revert s2.
  induction s1 as [|c s1 IH]; intros [|d s2] H1 H2; rewrite ?app_str_nil_l, ?app_str_cons.
  - by intros [= ->].
  - intros [= <- _]. exfalso. apply H2. by eexists.
  - intros [= -> _]. exfalso. apply H1. by eexists.
  - intros [= -> He]. simpl in H1, H2. destruct (decide (d = bar)); [exfalso; apply H1; by eexists|].
    rewrite fmap_is_Some in H1, H2. destruct (IH s2 H1 H2 He) as [-> ->]. done.
Qed.

(** The identity string is faithful: two objectives whose kind and subject
    hold no separator have the same identity exactly when they agree on kind,
    primary object and targeted state, so an identity neither merges distinct
    objectives nor splits one. *)
Theorem Identity_faithful o1 o2 :
  contains_byte (ob_Kind o1) bar = false → contains_byte (ob_Kind o2) bar = false →
  contains_byte (sj_Object (ob_PrimarySubject o1)) bar = false →
  contains_byte (sj_Object (ob_PrimarySubject o2)) bar = false →
  Identity o1 = Identity o2 ↔
  (ob_Kind o1 = ob_Kind o2 ∧ sj_Object (ob_PrimarySubject o1) = sj_Object (ob_PrimarySubject o2)
   ∧ ob_TargetedState o1 = ob_TargetedState o2).
Proof.
  intros K1 K2 S1 S2. unfold Identity. split; [|by intros (->&->&->)].
  intros [Hk Ht]%cut_at_bar; [|done..]. apply cut_at_bar in Ht as [Hs Ht]; done.
Qed.

Definition review_objective (sha : string) : ObjectiveSpec :=
  {| ob_Kind := ObjectiveKindPRReview;
     ob_PrimarySubject := {| sj_Binding := "source"; sj_Object := "org/repo" |};
     ob_RelatedSubjects := []; ob_DesiredOutcome := DesiredOutcome ObjectiveKindPRReview;
     ob_TargetedState := sha |}.

Lemma Identity_faithful_witness :
  Identity (review_objective "abc") ≠ Identity (review_objective "abd").
Proof.
  intros Hid. apply (Identity_faithful (review_objective "abc") (review_objective "abd")) in Hid;
    [|reflexivity..]. destruct Hid as (_&_&Hs). discriminate Hs.
Defined.

(** The derived objective follows its precedence: a fork URL makes a fork
    synchronization whose primary subject is the fork and whose only related
    subject is the upstream repository; else a configured gate makes a review;
    else the agent's gate plugin decides. The targeted state is the trigger's
    revision, else the pinned one, else the rolling head, and is never empty. *)
Theorem DeriveObjective_precedence url_path wf trigger :
  let o := DeriveObjective url_path wf trigger in
  let src := wf_Source (wk_Spec wf) in
  (match so_Fork src with
   | Some f =>
       fk_URL f ≠ "" →
       ob_Kind o = ObjectiveKindForkSync
       ∧ ob_PrimarySubject o = {| sj_Binding := "fork"; sj_Object := RepoID url_path (fk_URL f) |}
       ∧ sj_Object <$> ob_RelatedSubjects o = if decide (so_Repo src = "") then [] else [so_Repo src]
   | None =>
       ob_Kind o = (if decide (is_Some (wf_ReviewReady (wk_Spec wf))) then ObjectiveKindPRReview
                    else ObjectiveKindForGate (pr_Name (gt_Plugin (ag_Gate (wf_Agent (wk_Spec wf))))))
       ∧ ob_PrimarySubject o = {| sj_Binding := "source"; sj_Object := so_Repo src |}
       ∧ ob_RelatedSubjects o = []
   end)
  ∧ ob_TargetedState o ≠ ""
  ∧ (tc_Revision trigger ≠ "" → ob_TargetedState o = tc_Revision trigger)
  ∧ (tc_Revision trigger = "" → so_Revision src = "" → ob_TargetedState o = "head").
Proof.
  cbv zeta. unfold DeriveObjective, deriveSubjects, DeriveKind, DeriveTargetedState.
  destruct (so_Fork (wf_Source (wk_Spec wf))) as [f|].
  - destruct (bool_decide (fk_URL f = "")) eqn:Hf; to_prop; simpl;
      (split; [|repeat case_decide; simpl; split_and!; naive_solver]).
    + done.
    + intros _. repeat case_decide; done.
  - simpl. split; [|repeat case_decide; split_and!; naive_solver].
    destruct (wf_ReviewReady (wk_Spec wf)); by split_and!.
Qed.

(** The name does not tell every workflow apart: two workflows whose names
    sanitize alike share the name of every identity, so an objective of one
    resolves to the Attempt of the other in the same namespace. *)
Theorem AttemptName_collides :
  ∃ w1 w2, w1 ≠ w2 ∧ ∀ identity, AttemptName w1 identity = AttemptName w2 identity.
Proof. exists "docs.sync", "docs-sync". split; [discriminate|]. intros identity. reflexivity. Qed.
