(* ===== verification/Ledger.v ===== *)
(** * The attempt ledger's pure part ([internal/attempt/lifecycle.go])

    What a status write does to the status it read: the keyed merges of runs,
    node results and evidence, the record-time clamps, and the compaction that
    keeps the tail windows bounded. *)

From S2P Require Import Prelude GoTime Api ClaimTrust.

(** ** Bounds *)

Definition MaxStatusNodeResults : nat := 200.
Definition MaxStatusRuns : nat := 400.
Definition MaxStatusEvidence : nat := 200.
Definition MaxStatusBytes : Z := Z.shiftl 1 20.
Definition MinTailEnvelopes : nat := 32.
Definition MaxStatusPayloadBytes : Z := Z.shiftl 4 10.
Definition MaxStatusSummaryBytes : Z := Z.shiftl 1 10.
Definition MaxStatusMessageBytes : Z := Z.shiftl 4 10.

Definition sum_of {A} (f : A → Z) (l : list A) : Z := foldr (λ x n, f x + n) 0 l.

Definition envelopeBytes (env : NodeResultEnvelope) : Z :=
  slen (ne_NodeID env) + slen (ne_RunID env) + slen (ne_Status env) + slen (ne_Summary env)
  + slen (ne_Payload env) + 64
  + sum_of (λ c, slen (cl_Type c) + slen (cl_Binding c) + slen (cl_ExternalID c)
                 + slen (cl_URL c) + 32) (ne_Claims env)
  + sum_of (λ r, slen (er_Kind r) + slen (er_Identifier r) + slen (er_URL r) + 32) (ne_References env)
  + sum_of (λ a, slen (ar_Name a) + slen (ar_Path a) + slen (ar_Hash a) + 32) (ne_Artifacts env).

Definition ledger_bytes (l : list NodeResultEnvelope) : Z := sum_of envelopeBytes l.

(** [if t.After(through) { through = t }] *)
Definition advance (through t : Z) : Z := if time_After t through then t else through.

(** ** Compaction *)

(** The byte-budget loop: what is left, the high-water mark, and how many left. *)
Fixpoint evict (size through : Z) (l : list NodeResultEnvelope) : list NodeResultEnvelope * Z * Z :=
  match l with
  | [] => ([], through, 0)
  | x :: l' =>
      if (MinTailEnvelopes <? length l)%nat && (MaxStatusBytes <? size) then
        let '(rest, through, n) := evict (size - envelopeBytes x) (advance through (ne_ProducedAt x)) l' in
        (rest, through, n + 1)
      else (l, through, 0)
  end.

Definition compactStatus (s : AttemptStatus) : AttemptStatus * Z :=
  let '(nrs, through, n1) := evict (ledger_bytes (st_NodeResults s)) (st_CompactedThrough s)
                               (st_NodeResults s) in
  let d2 := (length nrs - MaxStatusNodeResults)%nat in
  let through := foldl (λ t x, advance t (ne_ProducedAt x)) through (take d2 nrs) in
  let s := set_NodeResults (drop d2 nrs) (st_CompactedNodeResults s + n1 + Z.of_nat d2) through s in
  let d3 := (length (st_Runs s) - MaxStatusRuns)%nat in
  let s := set_Runs (drop d3 (st_Runs s)) (st_CompactedRuns s + Z.of_nat d3) s in
  let d4 := (length (st_Evidence s) - MaxStatusEvidence)%nat in
  let s := set_Evidence (drop d4 (st_Evidence s)) (st_CompactedEvidence s + Z.of_nat d4) s in
  (s, n1 + Z.of_nat d2 + Z.of_nat d3 + Z.of_nat d4).

(** ** Record-time clamps *)

Definition set_payload_summary (payload summary : string) (e : NodeResultEnvelope) : NodeResultEnvelope :=
  {| ne_NodeID := ne_NodeID e; ne_RunID := ne_RunID e; ne_Status := ne_Status e;
     ne_Attempt := ne_Attempt e; ne_Summary := summary; ne_Artifacts := ne_Artifacts e;
     ne_Claims := ne_Claims e; ne_Payload := payload; ne_Provenance := ne_Provenance e;
     ne_References := ne_References e; ne_ProducedAt := ne_ProducedAt e;
     ne_DurationMs := ne_DurationMs e |}.

Definition boundEnvelope (env : NodeResultEnvelope) : NodeResultEnvelope :=
  let payload := if MaxStatusPayloadBytes <? slen (ne_Payload env) then "" else ne_Payload env in
  let summary := if MaxStatusSummaryBytes <? slen (ne_Summary env)
                 then str_take (Z.to_nat MaxStatusSummaryBytes) (ne_Summary env)
                 else ne_Summary env in
  set_payload_summary payload summary env.

(** ** Keyed merges *)

(** The key of a node result: its node and its run. *)
Definition nr_key (e : NodeResultEnvelope) : string * string := (ne_NodeID e, ne_RunID e).

Section keyed.
Context {A K : Type} `{EqDecision K} (key : A → K).

(** Replace the first element of the same key in place, else append. *)
Definition put (l : list A) (x : A) : list A :=
  upsert_by (λ y, bool_decide (key y = key x)) (λ _, x) x l.

Fixpoint get (k : K) (l : list A) : option A :=
  match l with [] => None | y :: l => if decide (key y = k) then Some y else get k l end.
End keyed.

Definition upsertNodeResult (envelopes : list NodeResultEnvelope) (env : NodeResultEnvelope)
    : list NodeResultEnvelope := put nr_key envelopes env.

Definition merge_run (r existing : RunRecord) : RunRecord :=
  if time_IsZero (rr_StartedAt r)
  then {| rr_Name := rr_Name r; rr_StartedAt := rr_StartedAt existing; rr_EndedAt := rr_EndedAt r;
          rr_Phase := rr_Phase r |}
  else r.

Definition upsertRun (runs : list RunRecord) (r : RunRecord) : list RunRecord :=
  upsert_by (λ existing, bool_decide (rr_Name existing = rr_Name r)) (merge_run r) r runs.

Definition evidenceKey (e : EvidenceReference) : string :=
  er_Binding e +:+ "/" +:+ er_Kind e +:+ "/" +:+ er_Identifier e.

Fixpoint append_unseen (existing : list EvidenceReference) (seen : gset string)
    (add : list EvidenceReference) : list EvidenceReference :=
  match add with
  | [] => existing
  | e :: add =>
      let k := evidenceKey e in
      if decide (k ∈ seen) then append_unseen existing seen add
      else append_unseen (existing ++ [e]) ({[k]} ∪ seen) add
  end.

Definition appendUniqueEvidence (existing add : list EvidenceReference) : list EvidenceReference :=
  append_unseen existing (list_to_set (evidenceKey <$> existing)) add.

(** ** The mutations *)

Definition run_started (now : Z) (runName : string) (s : AttemptStatus) : AttemptStatus :=
  let runs := upsertRun (st_Runs s)
    {| rr_Name := runName; rr_StartedAt := now; rr_EndedAt := 0; rr_Phase := "running" |} in
  set_LastRunAt now (set_Runs runs (st_CompactedRuns s) s).

Record RunOutcome := {
  ro_RunName : string;
  ro_Phase : string;
  ro_Envelopes : list NodeResultEnvelope;
  ro_Message : string;
}.

Definition outcome_phase (o : RunOutcome) : string :=
  if decide (ro_Phase o = "failed") then AttemptPhaseFailed
  else if HasValidated (ro_Envelopes o) then AttemptPhaseValidated else AttemptPhaseReconciling.

Definition clamp_message (m : string) : string :=
  if MaxStatusMessageBytes <? slen m then str_take (Z.to_nat MaxStatusMessageBytes) m else m.

(** The envelopes are clamped in place in the caller's slice: the evidence and
    the promotion decision read the clamped ones. *)
Definition run_outcome (now : Z) (o : RunOutcome) (s : AttemptStatus) : AttemptStatus :=
  let o := {| ro_RunName := ro_RunName o; ro_Phase := ro_Phase o;
              ro_Envelopes := boundEnvelope <$> ro_Envelopes o; ro_Message := ro_Message o |} in
  let runs := upsertRun (st_Runs s)
    {| rr_Name := ro_RunName o; rr_StartedAt := 0; rr_EndedAt := now; rr_Phase := ro_Phase o |} in
  let s := set_Runs runs (st_CompactedRuns s) s in
  let s := set_NodeResults (foldl upsertNodeResult (st_NodeResults s) (ro_Envelopes o))
             (st_CompactedNodeResults s) (st_CompactedThrough s) s in
  let s := set_Evidence
             (foldl (λ ev env, appendUniqueEvidence ev (ne_References env)) (st_Evidence s) (ro_Envelopes o))
             (st_CompactedEvidence s) s in
  let s := set_LastRunAt now s in
  let s := set_Phase (outcome_phase o) s in
  if decide (ro_Message o = "") then s else set_Message (clamp_message (ro_Message o)) s.

Definition progress_at (now : Z) (p : RunProgress) : RunProgress :=
  {| pg_Turn := pg_Turn p; pg_Turns := pg_Turns p; pg_Model := pg_Model p;
     pg_TokensIn := pg_TokensIn p; pg_TokensOut := pg_TokensOut p; pg_UpdatedAt := Some now |}.

Definition node_recorded (env : NodeResultEnvelope) (s : AttemptStatus) : AttemptStatus :=
  set_NodeResults (upsertNodeResult (st_NodeResults s) (boundEnvelope env))
    (st_CompactedNodeResults s) (st_CompactedThrough s) s.

(** ** Owner names *)

Definition slash_byte : Ascii.ascii := "/"%char.

(** The index of the last slash, or -1. *)
Definition lastSlash (s : string) : Z :=
  match index_byte slash_byte (String.rev s) with
  | Some i => slen s - 1 - Z.of_nat i
  | None => -1
  end.

Record ResolveOptions := {
  op_Namespace : string;
  op_WorkflowRef : string;
  op_Owner : option Workflow;
  op_Scheme : bool;
}.

Definition ownerName (opts : ResolveOptions) : string :=
  match op_Owner opts with
  | Some wf => om_Name (wk_Meta wf)
  | None =>
      let i := lastSlash (op_WorkflowRef opts) in
      if 0 <=? i then str_drop (S (Z.to_nat i)) (op_WorkflowRef opts) else op_WorkflowRef opts
  end.

Definition ownerValue (wf : option Workflow) : string :=
  match wf with
  | None => ""
  | Some wf => default "" (om_Labels (wk_Meta wf) !! OwnerLabel)
  end.

Definition AttemptSpecFromObjective (obj : ObjectiveSpec) (opts : ResolveOptions) : AttemptSpec :=
  {| as_Objective := obj; as_WorkflowRef := op_WorkflowRef opts; as_Owner := ownerValue (op_Owner opts);
     as_Bindings := match op_Owner opts with Some wf => wf_Bindings (wk_Spec wf) | None => [] end |}.

(** ** Facts *)

Lemma sum_of_app {A} (f : A → Z) l l' : sum_of f (l ++ l') = sum_of f l + sum_of f l'.
Proof. induction l as [|x l IH]; simpl; [done|]. rewrite IH. lia. Qed.

Lemma sum_of_nonneg {A} (f : A → Z) l : (∀ x, 0 ≤ f x) → 0 ≤ sum_of f l.
Proof. intros Hf. induction l as [|x l IH]; simpl; [lia|]. pose proof (Hf x). lia. Qed.

Lemma envelopeBytes_nonneg env : 0 ≤ envelopeBytes env.
Proof.
  unfold envelopeBytes.
  repeat first [apply Z.add_nonneg_nonneg | apply slen_nonneg | apply sum_of_nonneg; intros ? | done].
Qed.

(** The high-water mark of a list of evicted entries. *)
Definition through_of (through : Z) (l : list NodeResultEnvelope) : Z :=
  foldl (λ t x, advance t (ne_ProducedAt x)) through l.

Lemma through_of_spec through l :
  through ≤ through_of through l
  ∧ (∀ x, x ∈ l → ne_ProducedAt x ≤ through_of through l)
  ∧ (through_of through l = through ∨ ∃ x, x ∈ l ∧ through_of through l = ne_ProducedAt x).
Proof.
  revert through. induction l as [|x l IH]; intros through.
  2: change (through_of through (x :: l)) with (through_of (advance through (ne_ProducedAt x)) l).
  { unfold through_of; simpl. split_and!; [lia|by intros x ?%elem_of_nil|by left]. }
  destruct (IH (advance through (ne_ProducedAt x))) as (H1&H2&H3).
  assert (through ≤ advance through (ne_ProducedAt x) ∧ ne_ProducedAt x ≤ advance through (ne_ProducedAt x)
          ∧ (advance through (ne_ProducedAt x) = through ∨ advance through (ne_ProducedAt x) = ne_ProducedAt x))
    as (A1&A2&A3).
  { unfold advance, time_After. destruct (through <? ne_ProducedAt x) eqn:?; lia. }
  split_and!; [lia| |].
  - intros y [->|Hy]%elem_of_cons; [lia|auto].
  - destruct H3 as [H3|(y&Hy&H3)]; [|right; exists y; set_solver].
    destruct A3 as [A3|A3]; [left; lia|right; exists x; split; [set_solver|lia]].
Qed.

Lemma evict_spec size through l :
  let '(rest, th, n) := evict size through l in
  ∃ d, l = d ++ rest ∧ n = Z.of_nat (length d) ∧ th = through_of through d
    ∧ ((length rest ≤ MinTailEnvelopes)%nat ∨ size - ledger_bytes d ≤ MaxStatusBytes)
    ∧ (d = [] ∨ (MinTailEnvelopes ≤ length rest)%nat).
Proof.
  revert size through. induction l as [|x l IH]; intros size through; cbn [evict].
  { exists []. split_and!; try done; [left; simpl; unfold MinTailEnvelopes; lia|by left]. }
  destruct ((MinTailEnvelopes <? length (x :: l))%nat && (MaxStatusBytes <? size)) eqn:Hc.
  - specialize (IH (size - envelopeBytes x) (advance through (ne_ProducedAt x))).
    destruct (evict _ _ l) as [[rest th] n]. destruct IH as (d&->&->&->&Hb&Hm).
    apply andb_true_iff in Hc as [Hc _]. apply Nat.ltb_lt in Hc.
    exists (x :: d). unfold ledger_bytes in *. simpl in *. rewrite length_app in Hc.
    split_and!; try done; [lia| |].
    + destruct Hb; [by left|right; lia].
    + right. destruct Hm as [->|?]; simpl in *; lia.
  - exists []. split_and!; try done; [|by left].
    apply andb_false_iff in Hc as [Hc|Hc]; [left; by apply Nat.ltb_ge in Hc|right].
    apply Z.ltb_ge in Hc. unfold ledger_bytes. simpl. lia.
Qed.

Lemma drop_excess {A} (l : list A) m :
  let d := (length l - m)%nat in
  ∃ dropped, l = dropped ++ drop d l ∧ length dropped = d ∧ dropped = take d l
    ∧ (length (drop d l) ≤ m)%nat ∧ ((length l ≤ m)%nat → drop d l = l).
Proof.
  simpl. exists (take (length l - m) l). rewrite length_drop, length_take, take_drop.
  split_and!; try done; [lia|lia|]. intros ?. replace (length l - m)%nat with 0%nat by lia. done.
Qed.

(** What compaction leaves: the newest entries, within every bound. *)
Record compacted (s s' : AttemptStatus) (dn : list NodeResultEnvelope) (dr : list RunRecord)
    (de : list EvidenceReference) : Prop := {
  co_nodes : st_NodeResults s = dn ++ st_NodeResults s';
  co_runs : st_Runs s = dr ++ st_Runs s';
  co_evidence : st_Evidence s = de ++ st_Evidence s';
  co_nodes_len : (length (st_NodeResults s') ≤ MaxStatusNodeResults)%nat;
  co_runs_len : (length (st_Runs s') ≤ MaxStatusRuns)%nat;
  co_evidence_len : (length (st_Evidence s') ≤ MaxStatusEvidence)%nat;
  co_bytes : ledger_bytes (st_NodeResults s') ≤ MaxStatusBytes
             ∨ (length (st_NodeResults s') ≤ MinTailEnvelopes)%nat;
  co_floor : dn = [] ∨ (MinTailEnvelopes ≤ length (st_NodeResults s'))%nat;
  co_nodes_total : st_CompactedNodeResults s' = st_CompactedNodeResults s + Z.of_nat (length dn);
  co_runs_total : st_CompactedRuns s' = st_CompactedRuns s + Z.of_nat (length dr);
  co_evidence_total : st_CompactedEvidence s' = st_CompactedEvidence s + Z.of_nat (length de);
  co_through : st_CompactedThrough s' = through_of (st_CompactedThrough s) dn;
  co_rest : (st_Phase s', st_Message s', st_Review s', st_Progress s', st_LastRunAt s',
             st_Conditions s', st_ObservedGeneration s')
            = (st_Phase s, st_Message s, st_Review s, st_Progress s, st_LastRunAt s,
               st_Conditions s, st_ObservedGeneration s);
}.

Lemma through_of_app t l l' : through_of t (l ++ l') = through_of (through_of t l) l'.
Proof. unfold through_of. by rewrite foldl_app. Qed.

Lemma compactStatus_compacted s :
  let '(s', n) := compactStatus s in
  ∃ dn dr de, compacted s s' dn dr de
    ∧ n = Z.of_nat (length dn) + Z.of_nat (length dr) + Z.of_nat (length de).
Proof.
  unfold compactStatus.
  pose proof (evict_spec (ledger_bytes (st_NodeResults s)) (st_CompactedThrough s) (st_NodeResults s)) as He.
  destruct (evict _ _ _) as [[nrs th] n1]. destruct He as (d1&Hd1&->&->&Hb&Hf).
  destruct (drop_excess nrs MaxStatusNodeResults) as (d2&H2&L2&T2&B2&F2).
  destruct (drop_excess (st_Runs s) MaxStatusRuns) as (d3&H3&L3&_&B3&_).
  destruct (drop_excess (st_Evidence s) MaxStatusEvidence) as (d4&H4&L4&_&B4&_).
  simpl. rewrite <- T2. exists (d1 ++ d2), d3, d4. rewrite <- L2, <- L3, <- L4 in *.
  set (tail := drop (length d2) nrs) in *.
  assert (ledger_bytes (st_NodeResults s) - ledger_bytes d1 = ledger_bytes nrs) as Hsz.
  { rewrite Hd1. unfold ledger_bytes. rewrite sum_of_app. lia. }
  assert (ledger_bytes tail ≤ ledger_bytes nrs) as Hle.
  { rewrite H2. unfold ledger_bytes. rewrite sum_of_app.
    pose proof (sum_of_nonneg envelopeBytes d2 envelopeBytes_nonneg). lia. }
  assert ((length tail ≤ length nrs)%nat) as Hlen by (unfold tail; rewrite length_drop; lia).
  split; [|rewrite length_app; lia]. constructor; simpl; try done.
  - rewrite Hd1, H2 at 1. by rewrite app_assoc.
  - destruct Hb as [Hb|Hb]; [right; lia|left; lia].
  - destruct (decide (d2 = [])) as [->|Hd2].
    + destruct Hf as [->|Hf]; [by left|right]. unfold tail. simpl. done.
    + right. assert (length d2 ≠ 0)%nat by (by destruct d2). unfold tail. rewrite length_drop.
      unfold MinTailEnvelopes, MaxStatusNodeResults in *. lia.
  - rewrite length_app. lia.
  - by rewrite through_of_app.
Qed.

Section keyed_facts.
Context {A K : Type} `{EqDecision K} (key : A → K).
Notation put := (put key).
Notation get := (get key).

Lemma put_keys l x :
  key <$> put l x = if decide (key x ∈ key <$> l) then key <$> l else (key <$> l) ++ [key x].
Proof.
  induction l as [|y l IH]; simpl; [done|]. unfold Ledger.put in *. simpl.
  destruct (decide (key y = key x)) as [Hy|Hy].
  - rewrite bool_decide_eq_true_2 by done. csimpl.
    rewrite decide_True by (rewrite Hy; set_solver). by rewrite Hy.
  - rewrite bool_decide_eq_false_2 by done. csimpl. rewrite IH.
    destruct (decide (key x ∈ key <$> l)) as [Hin|Hin].
    + rewrite decide_True by set_solver. done.
    + rewrite decide_False by set_solver. done.
Qed.

Lemma get_put k l x : get k (put l x) = if decide (key x = k) then Some x else get k l.
Proof.
  induction l as [|y l IH]; simpl; [done|]. unfold Ledger.put in *. simpl.
  destruct (decide (key y = key x)) as [Hy|Hy].
  - rewrite bool_decide_eq_true_2 by done. simpl. rewrite Hy. by case_decide.
  - rewrite bool_decide_eq_false_2 by done. simpl. rewrite IH. repeat case_decide; congruence.
Qed.

Lemma get_app k l l' : get k (l ++ l') = match get k l with Some x => Some x | None => get k l' end.
Proof. induction l as [|y l IH]; simpl; [done|]. by case_decide. Qed.

Lemma get_Some k l x : get k l = Some x → x ∈ l ∧ key x = k.
Proof.
  induction l as [|y l IH]; simpl; [done|]. case_decide; [intros [= ->]; set_solver|].
  intros [? ?]%IH. set_solver.
Qed.

Lemma get_None k l : k ∉ key <$> l → get k l = None.
Proof. induction l as [|y l IH]; csimpl; [done|]. intros Hk. rewrite decide_False; set_solver. Qed.

Lemma get_In k l : k ∈ key <$> l → is_Some (get k l).
Proof.
  induction l as [|y l IH]; csimpl; [by intros ?%elem_of_nil|].
  intros [->|?]%elem_of_cons; [by rewrite decide_True|]. case_decide; [done|auto].
Qed.

Lemma keyed_ext l1 l2 :
  NoDup (key <$> l1) → key <$> l1 = key <$> l2 → (∀ k, get k l1 = get k l2) → l1 = l2.
Proof.
  revert l2. induction l1 as [|x l1 IH]; intros [|y l2] Hnd Hk Hg; try done.
  csimpl in *. injection Hk as Hxy Hk. apply NoDup_cons in Hnd as [Hni Hnd].
  pose proof (Hg (key x)) as Hx. simpl in Hx.
  rewrite decide_True, decide_True in Hx by done. injection Hx as ->. f_equal.
  apply IH; [done..|]. intros k. specialize (Hg k). simpl in Hg.
  destruct (decide (key y = k)) as [<-|]; [|done].
  rewrite !get_None; [done| |done]. by rewrite <- Hk.
Qed.

Lemma put_NoDup l x : NoDup (key <$> l) → NoDup (key <$> put l x).
Proof.
  intros Hnd. rewrite put_keys. case_decide; [done|]. apply NoDup_app. split_and!; [done| |].
  - intros k Hk Hx. apply list_elem_of_singleton in Hx as ->. done.
  - apply NoDup_singleton.
Qed.

Lemma puts_NoDup xs l : NoDup (key <$> l) → NoDup (key <$> foldl put l xs).
Proof. revert l. induction xs as [|x xs IH]; intros l Hl; simpl; [done|]. by apply IH, put_NoDup. Qed.

(** The last of [xs] wins. *)
Lemma puts_get k xs l :
  get k (foldl put l xs) = match get k (reverse xs) with Some x => Some x | None => get k l end.
Proof.
  revert l. induction xs as [|x xs IH]; intros l; simpl; [done|].
  rewrite IH, reverse_cons, get_app, get_put. destruct (get k (reverse xs)); [done|].
  simpl. by case_decide.
Qed.

Lemma puts_keys xs l k : k ∈ key <$> foldl put l xs ↔ k ∈ key <$> l ∨ k ∈ key <$> xs.
Proof.
  revert l. induction xs as [|x xs IH]; intros l; csimpl.
  { rewrite elem_of_nil. tauto. }
  rewrite IH, put_keys. case_decide; set_solver.
Qed.

Lemma puts_same_keys xs l : (∀ x, x ∈ xs → key x ∈ key <$> l) → key <$> foldl put l xs = key <$> l.
Proof.
  revert l. induction xs as [|x xs IH]; intros l Hk; simpl; [done|].
  assert (key <$> put l x = key <$> l) as Hp by (rewrite put_keys, decide_True; [done|set_solver]).
  rewrite IH; [done|]. rewrite Hp. set_solver.
Qed.

Lemma puts_idem xs l : NoDup (key <$> l) → foldl put (foldl put l xs) xs = foldl put l xs.
Proof.
  intros Hnd. apply keyed_ext.
  - by apply puts_NoDup, puts_NoDup.
  - apply puts_same_keys. intros x Hx. apply puts_keys. right. by apply list_elem_of_fmap_2.
  - intros k. rewrite !puts_get. by destruct (get k (reverse xs)).
Qed.
End keyed_facts.

(** ** Evidence *)

Lemma append_unseen_spec ex seen add :
  (∀ k, k ∈ evidenceKey <$> ex → k ∈ seen) →
  ∃ new, append_unseen ex seen add = ex ++ new
    ∧ (∀ x, x ∈ new → x ∈ add ∧ evidenceKey x ∉ seen) ∧ NoDup (evidenceKey <$> new)
    ∧ (∀ x, x ∈ add → evidenceKey x ∈ seen ∨ evidenceKey x ∈ evidenceKey <$> new).
Proof.
  revert ex seen. induction add as [|x add IH]; intros ex seen Hs; simpl.
  { exists []. rewrite app_nil_r. split_and!; try done; try (by intros y ?%elem_of_nil). constructor. }
  destruct (decide (evidenceKey x ∈ seen)) as [Hx|Hx].
  - destruct (IH ex seen Hs) as (new&->&H1&H2&H3). exists new. split_and!; try done.
    + intros y Hy. destruct (H1 y Hy). set_solver.
    + intros y [->|Hy]%elem_of_cons; [by left|auto].
  - destruct (IH (ex ++ [x]) ({[evidenceKey x]} ∪ seen)) as (new&->&H1&H2&H3).
    { intros k. rewrite fmap_app. set_solver. }
    exists (x :: new). rewrite <- app_assoc. split_and!; [done| | |].
    + intros y [->|Hy]%elem_of_cons; [set_solver|]. destruct (H1 y Hy). set_solver.
    + csimpl. apply NoDup_cons. split; [|done]. intros (y&Hk&Hy)%list_elem_of_fmap.
      destruct (H1 y Hy). set_solver.
    + intros y [->|Hy]%elem_of_cons; csimpl; [right; set_solver|].
      destruct (H3 y Hy); set_solver.
Qed.

Lemma appendUniqueEvidence_spec ex add :
  ∃ new, appendUniqueEvidence ex add = ex ++ new
    ∧ (∀ x, x ∈ new → x ∈ add ∧ evidenceKey x ∉ evidenceKey <$> ex)
    ∧ NoDup (evidenceKey <$> new)
    ∧ (∀ x, x ∈ add → evidenceKey x ∈ evidenceKey <$> appendUniqueEvidence ex add).
Proof.
  unfold appendUniqueEvidence.
  destruct (append_unseen_spec ex (list_to_set (evidenceKey <$> ex)) add) as (new&E&H1&H2&H3).
  { intros k Hk. by apply elem_of_list_to_set. }
  exists new. split_and!; try done.
  - intros x Hx. destruct (H1 x Hx) as [? Hn]. by rewrite elem_of_list_to_set in Hn.
  - intros x Hx. rewrite E, fmap_app. apply elem_of_app.
    destruct (H3 x Hx) as [Hs|?]; [left|by right]. by rewrite elem_of_list_to_set in Hs.
Qed.

Lemma appendUniqueEvidence_NoDup ex add :
  NoDup (evidenceKey <$> ex) → NoDup (evidenceKey <$> appendUniqueEvidence ex add).
Proof.
  intros Hnd. destruct (appendUniqueEvidence_spec ex add) as (new&->&H1&H2&_).
  rewrite fmap_app. apply NoDup_app. split_and!; [done| |done].
  intros k Hk (x&->&Hx)%list_elem_of_fmap. by destruct (H1 x Hx).
Qed.

Lemma appendUniqueEvidence_known ex add :
  (∀ x, x ∈ add → evidenceKey x ∈ evidenceKey <$> ex) → appendUniqueEvidence ex add = ex.
Proof.
  intros Hk. destruct (appendUniqueEvidence_spec ex add) as (new&->&H1&_).
  destruct new as [|x new]; [by rewrite app_nil_r|].
  destruct (H1 x) as [? Hn]; [set_solver|]. by destruct Hn; apply Hk.
Qed.

Definition add_evidence (ev : list EvidenceReference) (envs : list NodeResultEnvelope)
    : list EvidenceReference :=
  foldl (λ ev env, appendUniqueEvidence ev (ne_References env)) ev envs.

Lemma add_evidence_mono ev envs k :
  k ∈ evidenceKey <$> ev → k ∈ evidenceKey <$> add_evidence ev envs.
Proof.
  revert ev. induction envs as [|e envs IH]; intros ev Hk; simpl; [done|]. apply IH.
  destruct (appendUniqueEvidence_spec ev (ne_References e)) as (new&->&_).
  rewrite fmap_app. apply elem_of_app. by left.
Qed.

Lemma add_evidence_has ev envs env x :
  env ∈ envs → x ∈ ne_References env → evidenceKey x ∈ evidenceKey <$> add_evidence ev envs.
Proof.
  revert ev. induction envs as [|e envs IH]; intros ev He Hx; simpl; [by apply elem_of_nil in He|].
  apply elem_of_cons in He as [->|He]; [|by apply IH]. apply add_evidence_mono.
  destruct (appendUniqueEvidence_spec ev (ne_References e)) as (_&_&_&_&H). by apply H.
Qed.

Lemma add_evidence_known ev envs :
  (∀ env x, env ∈ envs → x ∈ ne_References env → evidenceKey x ∈ evidenceKey <$> ev) →
  add_evidence ev envs = ev.
Proof.
  induction envs as [|e envs IH]; intros Hk; simpl; [done|].
  rewrite appendUniqueEvidence_known; [|intros x Hx; apply (Hk e); set_solver].
  apply IH. intros env x He Hx. apply (Hk env); set_solver.
Qed.

Lemma add_evidence_NoDup ev envs :
  NoDup (evidenceKey <$> ev) → NoDup (evidenceKey <$> add_evidence ev envs).
Proof.
  revert ev. induction envs as [|e envs IH]; intros ev Hnd; simpl; [done|].
  by apply IH, appendUniqueEvidence_NoDup.
Qed.

(** ** The ledger's invariant: every list is keyed *)

Record ledger_wf (s : AttemptStatus) : Prop := {
  lw_nodes : NoDup (nr_key <$> st_NodeResults s);
  lw_runs : NoDup (rr_Name <$> st_Runs s);
  lw_evidence : NoDup (evidenceKey <$> st_Evidence s);
}.

Lemma NoDup_suffix {A B} (f : A → B) (d l : list A) : NoDup (f <$> d ++ l) → NoDup (f <$> l).
Proof. rewrite fmap_app. intros Hnd%NoDup_app. apply Hnd. Qed.

Lemma compactStatus_wf s : ledger_wf s → ledger_wf (compactStatus s).1.
Proof.
  intros [H1 H2 H3]. pose proof (compactStatus_compacted s) as Hc.
  destruct (compactStatus s) as [s' n]. destruct Hc as (dn&dr&de&Hc&_). simpl.
  rewrite (co_nodes _ _ _ _ _ Hc) in H1. rewrite (co_runs _ _ _ _ _ Hc) in H2.
  rewrite (co_evidence _ _ _ _ _ Hc) in H3. constructor; by eapply NoDup_suffix.
Qed.

Lemma upsertRun_wf l r : NoDup (rr_Name <$> l) → NoDup (rr_Name <$> upsertRun l r).
Proof.
  apply upsert_by_keys.
  - intros y. by rewrite bool_decide_eq_true.
  - intros y _. unfold merge_run. by destruct (time_IsZero _).
Qed.

Lemma run_started_wf now run s : ledger_wf s → ledger_wf (run_started now run s).
Proof. intros [H1 H2 H3]. constructor; simpl; try done. by apply upsertRun_wf. Qed.

Lemma node_recorded_wf env s : ledger_wf s → ledger_wf (node_recorded env s).
Proof. intros [H1 H2 H3]. constructor; simpl; try done. by apply put_NoDup. Qed.

Lemma run_outcome_wf now o s : ledger_wf s → ledger_wf (run_outcome now o s).
Proof.
  intros [H1 H2 H3]. unfold run_outcome. case_decide; constructor; simpl;
    first [by apply puts_NoDup | by apply upsertRun_wf | by apply add_evidence_NoDup].
Qed.

(** Compaction of a status within its bounds changes nothing. *)
Lemma compactStatus_noop s :
  (length (st_NodeResults s) ≤ MaxStatusNodeResults)%nat →
  (length (st_Runs s) ≤ MaxStatusRuns)%nat → (length (st_Evidence s) ≤ MaxStatusEvidence)%nat →
  ledger_bytes (st_NodeResults s) ≤ MaxStatusBytes ∨ (length (st_NodeResults s) ≤ MinTailEnvelopes)%nat →
  compactStatus s = (s, 0).
Proof.
  intros H1 H2 H3 H4. unfold compactStatus.
  assert (evict (ledger_bytes (st_NodeResults s)) (st_CompactedThrough s) (st_NodeResults s)
          = (st_NodeResults s, st_CompactedThrough s, 0)) as ->.
  { destruct (st_NodeResults s) as [|x l] eqn:Hl; [done|]. cbn [evict].
    destruct (_ && _) eqn:Hc; [|done]. apply andb_true_iff in Hc as [Hc1 Hc2].
    apply Nat.ltb_lt in Hc1. apply Z.ltb_lt in Hc2. lia. }
  replace (length (st_NodeResults s) - MaxStatusNodeResults)%nat with 0%nat by lia. simpl.
  replace (length (st_Runs s) - MaxStatusRuns)%nat with 0%nat by lia.
  replace (length (st_Evidence s) - MaxStatusEvidence)%nat with 0%nat by lia. simpl.
  destruct s. simpl. unfold set_Evidence, set_Runs, set_NodeResults. simpl. rewrite !Z.add_0_r. done.
Qed.

Lemma upsert_nodes_idem l xs :
  NoDup (nr_key <$> l) →
  foldl upsertNodeResult (foldl upsertNodeResult l xs) xs = foldl upsertNodeResult l xs.
Proof. apply puts_idem. Qed.

(** The fields of a recorded outcome. *)
Lemma run_outcome_fields now o s :
  let s' := run_outcome now o s in
  let envs := boundEnvelope <$> ro_Envelopes o in
  st_Phase s' = (if decide (ro_Phase o = "failed") then AttemptPhaseFailed
                 else if HasValidated envs then AttemptPhaseValidated else AttemptPhaseReconciling)
  ∧ st_NodeResults s' = foldl (put nr_key) (st_NodeResults s) envs
  ∧ st_Evidence s' = add_evidence (st_Evidence s) envs
  ∧ st_Runs s' = upsertRun (st_Runs s) {| rr_Name := ro_RunName o; rr_StartedAt := 0;
                                          rr_EndedAt := now; rr_Phase := ro_Phase o |}
  ∧ st_Message s' = (if decide (ro_Message o = "") then st_Message s
                     else clamp_message (ro_Message o)).
Proof. unfold run_outcome. simpl. by case_decide. Qed.

Lemma HasValidated_bound envs :
  HasValidated (boundEnvelope <$> envs) = true ↔
  ∃ env c, env ∈ envs ∧ c ∈ ne_Claims env ∧ cl_TrustClass c = ClaimTrustValidated.
Proof.
  rewrite HasValidated_spec. split.
  - intros (env&c&(env0&->&He)%list_elem_of_fmap&Hc&Hv). by exists env0, c.
  - intros (env&c&He&Hc&Hv). exists (boundEnvelope env), c. split_and!; [|done..].
    by apply list_elem_of_fmap_2.
Qed.

Lemma HasValidated_clamped envs : HasValidated (boundEnvelope <$> envs) = HasValidated envs.
Proof. apply eq_true_iff_eq. by rewrite HasValidated_bound, HasValidated_spec. Qed.

Lemma clamp_message_len m : slen (clamp_message m) ≤ MaxStatusMessageBytes.
Proof.
  unfold clamp_message. destruct (MaxStatusMessageBytes <? slen m) eqn:Hm; [|by apply Z.ltb_ge].
  unfold slen. pose proof (length_str_take (Z.to_nat MaxStatusMessageBytes) m) as Hl.
  change MaxStatusMessageBytes with 4096 in *. lia.
Qed.

Lemma upsertRun_get runs r :
  get rr_Name (rr_Name r) (upsertRun runs r)
  = Some (match get rr_Name (rr_Name r) runs with Some e => merge_run r e | None => r end).
Proof.
  unfold upsertRun. induction runs as [|y runs IH]; simpl; [by rewrite decide_True|].
  destruct (decide (rr_Name y = rr_Name r)) as [Hy|Hy].
  - rewrite bool_decide_eq_true_2 by done. simpl.
    rewrite decide_True; [done|]. unfold merge_run. by destruct (time_IsZero _).
  - rewrite bool_decide_eq_false_2 by done. simpl. by rewrite decide_False.
Qed.

(** Compaction touches nothing but the lists and their counters. *)
Lemma compact_keeps s :
  st_Phase (compactStatus s).1 = st_Phase s ∧ st_Message (compactStatus s).1 = st_Message s
  ∧ st_Review (compactStatus s).1 = st_Review s ∧ st_Progress (compactStatus s).1 = st_Progress s.
Proof.
  pose proof (compactStatus_compacted s) as Hc. destruct (compactStatus s) as [s' n].
  destruct Hc as (dn&dr&de&[? ? ? ? ? ? ? ? ? ? ? ? Hrest]&_). simpl. by simplify_eq.
Qed.

Lemma compact_Phase s : st_Phase (compactStatus s).1 = st_Phase s.
Proof. apply compact_keeps. Qed.
Lemma compact_Message s : st_Message (compactStatus s).1 = st_Message s.
Proof. apply compact_keeps. Qed.
Lemma compact_Review s : st_Review (compactStatus s).1 = st_Review s.
Proof. apply compact_keeps. Qed.
#[export] Hint Rewrite compact_Phase compact_Message compact_Review : ledger.

(** What every committed status satisfies. *)
Record bounded (s : AttemptStatus) : Prop := {
  bd_nodes : (length (st_NodeResults s) ≤ MaxStatusNodeResults)%nat;
  bd_runs : (length (st_Runs s) ≤ MaxStatusRuns)%nat;
  bd_evidence : (length (st_Evidence s) ≤ MaxStatusEvidence)%nat;
  bd_bytes : ledger_bytes (st_NodeResults s) ≤ MaxStatusBytes
             ∨ (length (st_NodeResults s) ≤ MinTailEnvelopes)%nat;
}.

Lemma compact_bounded s : bounded (compactStatus s).1.
Proof.
  pose proof (compactStatus_compacted s) as Hc. destruct (compactStatus s) as [s' n].
  by destruct Hc as (dn&dr&de&[]&_).
Qed.

Lemma compact_Runs s :
  st_Runs (compactStatus s).1 = drop (length (st_Runs s) - MaxStatusRuns) (st_Runs s).
Proof. unfold compactStatus. by destruct (evict _ _ _) as [[nrs th] n1]. Qed.

(** A run record just written survives the compaction of a bounded ledger. *)
Lemma upsertRun_kept runs r n :
  (length runs ≤ n)%nat → n ≠ 0%nat →
  get rr_Name (rr_Name r) (drop (length (upsertRun runs r) - n) (upsertRun runs r))
  = get rr_Name (rr_Name r) (upsertRun runs r).
Proof.
  intros Hn Hn0. unfold upsertRun. set (p := λ e, bool_decide (rr_Name e = rr_Name r)).
  destruct (Exists_dec (λ y, p y = true) runs) as [Hex|Hex].
  { rewrite upsert_by_length_present by done. by replace (length runs - n)%nat with 0%nat by lia. }
  assert (Forall (λ y, p y = false) runs) as Hf.
  { apply not_Exists_Forall in Hex; [|intros; apply _]. eapply Forall_impl; [exact Hex|].
    intros y. apply not_true_is_false. }
  rewrite upsert_by_absent by done. rewrite length_app, drop_app_le by (simpl; lia).
  rewrite !get_app, (get_None rr_Name _ (drop _ runs)), (get_None rr_Name _ runs); [done|..];
    intros (y&Hy&Hin)%list_elem_of_fmap.
  - rewrite Forall_forall in Hf. pose proof (Hf _ Hin) as H. apply bool_decide_eq_false in H. congruence.
  - assert (Forall (λ y, p y = false) (drop (length runs + 1 - n) runs)) as Hd by by apply Forall_drop.
    rewrite Forall_forall in Hd. rename Hd into Hf'.
    pose proof (Hf' _ Hin) as H. apply bool_decide_eq_false in H. congruence.
Qed.

(** ** Properties *)

(** Compaction bounds every status write and loses nothing it does not
    count: each list keeps its newest entries (a suffix), at most 200 node
    results, 400 runs and 200 evidence rows, the node results within a mebibyte
    unless only the 32 newest are left; the totals behind the counters are
    unchanged, the number reported is the number dropped, the high-water mark
    is the newest timestamp dropped, and compacting again changes nothing. *)
Theorem compactStatus_bounds s :
  let '(s', dropped) := compactStatus s in
  (∃ dn dr de,
     st_NodeResults s = dn ++ st_NodeResults s' ∧ st_Runs s = dr ++ st_Runs s'
     ∧ st_Evidence s = de ++ st_Evidence s'
     ∧ dropped = Z.of_nat (length dn) + Z.of_nat (length dr) + Z.of_nat (length de)
     ∧ st_CompactedThrough s ≤ st_CompactedThrough s'
     ∧ (∀ x, x ∈ dn → ne_ProducedAt x ≤ st_CompactedThrough s')
     ∧ (dn = [] ∨ (32 ≤ length (st_NodeResults s'))%nat))
  ∧ Z.of_nat (length (st_NodeResults s')) ≤ 200 ∧ Z.of_nat (length (st_Runs s')) ≤ 400
  ∧ Z.of_nat (length (st_Evidence s')) ≤ 200
  ∧ (ledger_bytes (st_NodeResults s') ≤ 1048576 ∨ (length (st_NodeResults s') ≤ 32)%nat)
  ∧ TotalNodeResults (Some s') = TotalNodeResults (Some s)
  ∧ TotalRuns (Some s') = TotalRuns (Some s) ∧ TotalEvidence (Some s') = TotalEvidence (Some s)
  ∧ compactStatus s' = (s', 0).
Proof.
  pose proof (compactStatus_compacted s) as Hc. destruct (compactStatus s) as [s' n].
  destruct Hc as (dn&dr&de&[C1 C2 C3 L1 L2 L3 B F T1 T2 T3 Th Rest]&Hn).
  destruct (through_of_spec (st_CompactedThrough s) dn) as (Th1&Th2&_).
  unfold MaxStatusNodeResults, MaxStatusRuns, MaxStatusEvidence, MinTailEnvelopes in *.
  split; [exists dn, dr, de; split_and!; try done; rewrite Th; auto|].
  simpl. rewrite C1, C2, C3, !length_app, T1, T2, T3.
  split_and!; try lia; [exact B|by apply compactStatus_noop].
Qed.

(** Recording an outcome is safe to retry: on a keyed ledger, recording the
    same outcome at the same instant twice leaves what recording it once
    leaves. *)
Theorem run_outcome_idempotent now o s :
  ledger_wf s → run_outcome now o (run_outcome now o s) = run_outcome now o s.
Proof.
  intros [H1 H2 H3]. unfold run_outcome. simpl. set (envs := boundEnvelope <$> ro_Envelopes o).
  set (run := Build_RunRecord _ _ _ _).
  assert (upsertRun (upsertRun (st_Runs s) run) run = upsertRun (st_Runs s) run) as Hr.
  { apply upsert_by_idem; [|by apply bool_decide_eq_true|done]. intros y _. split; [|done].
    by apply bool_decide_eq_true. }
  assert (∀ ev, add_evidence (add_evidence ev envs) envs = add_evidence ev envs) as He.
  { intros ev. apply add_evidence_known. intros env x. apply add_evidence_has. }
  unfold add_evidence in He. case_decide; simpl; by rewrite Hr, upsert_nodes_idem, He.
Qed.

Definition one_outcome : RunOutcome :=
  {| ro_RunName := "run-1"; ro_Phase := "succeeded"; ro_Envelopes := []; ro_Message := "done" |}.

Lemma run_outcome_idempotent_witness :
  st_Runs (run_outcome 7 one_outcome (run_outcome 7 one_outcome zero_status))
  = [{| rr_Name := "run-1"; rr_StartedAt := 0; rr_EndedAt := 7; rr_Phase := "succeeded" |}].
Proof.
  rewrite (run_outcome_idempotent 7 one_outcome zero_status); [reflexivity|].
  constructor; apply NoDup_nil_2.
Defined.

(** An outcome is recorded whole: the attempt's phase is failed exactly for
    a failed run, validated exactly for another run with a validated claim, and
    reconciling otherwise; every envelope of the outcome whose key no later one
    repeats is in the ledger, clamped; every evidence reference is represented;
    the run's record carries the outcome's phase and keeps its start; the
    message stays within four kibibytes; and a well-keyed ledger stays so. *)
Theorem run_outcome_records now o s :
  let s' := run_outcome now o s in
  (st_Phase s' = AttemptPhaseFailed ↔ ro_Phase o = "failed")
  ∧ (st_Phase s' = AttemptPhaseValidated ↔
       ro_Phase o ≠ "failed" ∧ ∃ env c, env ∈ ro_Envelopes o ∧ c ∈ ne_Claims env
                                        ∧ cl_TrustClass c = ClaimTrustValidated)
  ∧ st_Phase s' ∈ [AttemptPhaseFailed; AttemptPhaseValidated; AttemptPhaseReconciling]
  ∧ (∀ l1 env l2, ro_Envelopes o = l1 ++ env :: l2 → nr_key env ∉ nr_key <$> l2 →
       get nr_key (nr_key env) (st_NodeResults s') = Some (boundEnvelope env))
  ∧ (∀ env x, env ∈ ro_Envelopes o → x ∈ ne_References env →
       evidenceKey x ∈ evidenceKey <$> st_Evidence s')
  ∧ (∃ rec, get rr_Name (ro_RunName o) (st_Runs s') = Some rec
       ∧ rr_Phase rec = ro_Phase o ∧ rr_EndedAt rec = now
       ∧ rr_StartedAt rec = from_option rr_StartedAt 0 (get rr_Name (ro_RunName o) (st_Runs s)))
  ∧ (slen (st_Message s) ≤ MaxStatusMessageBytes → slen (st_Message s') ≤ MaxStatusMessageBytes)
  ∧ (ledger_wf s → ledger_wf s').
Proof.
  cbv zeta. destruct (run_outcome_fields now o s) as (Hp&Hn&He&Hr&Hm). cbv zeta in *.
  rewrite Hp, Hn, He, Hr, Hm. clear Hp Hn He Hr Hm. pose proof (HasValidated_bound (ro_Envelopes o)) as Hv.
  split_and!.
  - case_decide; [by split|]. destruct (HasValidated _); (split; [done|tauto]).
  - case_decide; [split; [done|tauto]|]. destruct (HasValidated _); [tauto|].
    split; [done|]. intros [_ Hc]. by apply Hv in Hc.
  - case_decide; [set_solver|]. destruct (HasValidated _); set_solver.
  - intros l1 env l2 -> Hni. rewrite puts_get, fmap_app, fmap_cons, reverse_app, reverse_cons.
    rewrite !get_app, (get_None _ _ (reverse (boundEnvelope <$> l2))).
    + simpl. change (nr_key (boundEnvelope env)) with (nr_key env). by rewrite decide_True.
    + rewrite <- fmap_reverse, <- list_fmap_compose. change (nr_key ∘ boundEnvelope) with nr_key.
      intros (x&Hk&Hx)%list_elem_of_fmap. apply Hni. rewrite Hk.
      apply list_elem_of_fmap_2. by rewrite elem_of_reverse in Hx.
  - intros env x Henv Hx. apply (add_evidence_has _ _ (boundEnvelope env)); [|done].
    by apply list_elem_of_fmap_2.
  - set (r := Build_RunRecord _ _ _ _). pose proof (upsertRun_get (st_Runs s) r) as Hg.
    change (rr_Name r) with (ro_RunName o) in Hg. rewrite Hg. eexists. split; [done|].
    by destruct (get rr_Name (ro_RunName o) (st_Runs s)).
  - intros Hs. case_decide; [done|]. apply clamp_message_len.
  - apply run_outcome_wf.
Qed.
