(* ===== verification/Kube.v ===== *)
(** * The Kubernetes API, as the ledger relies on it

    The API server and [client-go] are not part of the source: the client is a
    class of operations on a world [W], in which other writers act too, and
    [ClientLaws] states the documented behaviour the code relies on: reads see
    a state of the server, a patch that carries a resource version commits only
    on the object of that version, and a version identifies a content.
    [RetryOnConflict] is another class: it runs a function again only after a
    conflict, and answers with the last run. *)

From S2P Require Import Prelude GoTime Api.

(** ** Errors *)

Inductive KErr : Type :=
| NotFound
| AlreadyExists
| Conflict
| OtherErr (msg : string).

(** The sentinels of claim.go, with the values their texts print. *)
Inductive Sentinel : Type :=
| ErrDeadDispatchBreaker (deaths : Z) (sha : string)
| ErrRecentlyDismissed (sha : string) (ago : Z)
| ErrChurnBudgetExhausted (sha : string) (releases : Z).

(** [EWrap] is [fmt.Errorf] with [%w]; [ENoted] wraps one error and prints
    another after it. *)
Inductive Error : Type :=
| EKube (e : KErr)
| ESentinel (s : Sentinel)
| EText (msg : string)
| EWrap (context : string) (e : Error)
| ENoted (e : Error) (note : string) (other : KErr).

(** [errors.As] through the wrapping. *)
Fixpoint is_conflict (e : Error) : bool :=
  match e with
  | EKube Conflict => true
  | EWrap _ e | ENoted e _ _ => is_conflict e
  | _ => false
  end.

Definition IsNotFound (e : KErr) : bool := match e with NotFound => true | _ => false end.
Definition IsAlreadyExists (e : KErr) : bool := match e with AlreadyExists => true | _ => false end.

(** ** The client *)

Notation Key := (string * string)%type.

Definition key_of (a : Attempt) : Key := (om_Namespace (at_Meta a), om_Name (at_Meta a)).
Definition rv_of (a : Attempt) : Z := om_ResourceVersion (at_Meta a).

(** A label selector, evaluated on an object's labels. *)
Notation Selector := (gmap string string → bool).

Class KubeClient (W : Type) := {
  kc_now : W → Z;
  kc_get : Key → W → result KErr Attempt * W;
  kc_create : Attempt → W → result KErr Attempt * W;
  kc_delete : Key → W → result KErr unit * W;
  kc_list : string → Selector → W → result KErr (list Attempt) * W;
  kc_patch_status : Attempt → AttemptStatus → W → result KErr unit * W;
  kc_patch_labels : Attempt → gmap string string → W → result KErr unit * W;
}.

(** Running [fn] on a state that holds the world and the variables [fn]
    captures. *)
Class RetryOnConflict := {
  retry : ∀ {S : Type}, (S → result Error unit * S) → S → result Error unit * S;
}.

Inductive RetryTrace {S : Type} (f : S → result Error unit * S) : S → result Error unit → S → Prop :=
| rt_last s r s' : f s = (r, s') → RetryTrace f s r s'
| rt_again s e s1 r s' :
    f s = (Err e, s1) → is_conflict e = true → RetryTrace f s1 r s' → RetryTrace f s r s'.

(** It stops on a success or another error, and may give up on a conflict. *)
Class RetryLaws `{RetryOnConflict} := {
  retry_trace : ∀ S (f : S → result Error unit * S) s, RetryTrace f s (retry f s).1 (retry f s).2;
}.

(** ** What the server promises *)

Definition with_rv (rv : Z) (a : Attempt) : Attempt :=
  {| at_Meta := {| om_Name := om_Name (at_Meta a); om_Namespace := om_Namespace (at_Meta a);
                   om_Labels := om_Labels (at_Meta a);
                   om_CreationTimestamp := om_CreationTimestamp (at_Meta a);
                   om_ResourceVersion := rv; om_UID := om_UID (at_Meta a) |};
     at_Spec := at_Spec a; at_Status := at_Status a |}.

Definition set_created (t : Z) (a : Attempt) : Attempt :=
  {| at_Meta := {| om_Name := om_Name (at_Meta a); om_Namespace := om_Namespace (at_Meta a);
                   om_Labels := om_Labels (at_Meta a); om_CreationTimestamp := t;
                   om_ResourceVersion := om_ResourceVersion (at_Meta a);
                   om_UID := om_UID (at_Meta a) |};
     at_Spec := at_Spec a; at_Status := at_Status a |}.

Section commits.
Context {W O : Type} (obj : W → Key → option O) (env : W → W → Prop).

(** One write of ours, to [k], between the writes of others. *)
Definition Commit (k : Key) (before after : option O) (w w' : W) : Prop :=
  ∃ w1 w2, env w w1 ∧ obj w1 k = before ∧ obj w2 k = after
    ∧ (∀ k', k' ≠ k → obj w2 k' = obj w1 k') ∧ env w2 w'.

(** The writes of a run, in order, each with what it replaced. *)
Inductive Wrote : list (Key * option O * option O) → W → W → Prop :=
| wrote_none w w' : env w w' → Wrote [] w w'
| wrote_cons k before after tr w w1 w' :
    Commit k before after w w1 → Wrote tr w1 w' → Wrote ((k, before, after) :: tr) w w'.

Context `{!Reflexive env} `{!Transitive env}.

Lemma Commit_env_l k before after w0 w w' :
  env w0 w → Commit k before after w w' → Commit k before after w0 w'.
Proof.
  intros He (w1&w2&?&Hrest). exists w1, w2. split; [etransitivity; eassumption|done].
Qed.

Lemma Commit_env_r k before after w w' w1 :
  Commit k before after w w' → env w' w1 → Commit k before after w w1.
Proof.
  intros (w2&w3&?&?&?&?&?) He. exists w2, w3. split_and!; try done. etransitivity; eassumption.
Qed.

Lemma Wrote_env_l tr w0 w w' : env w0 w → Wrote tr w w' → Wrote tr w0 w'.
Proof.
  intros He Hw. destruct Hw; [apply wrote_none; etransitivity; eassumption|].
  eapply wrote_cons; [by eapply Commit_env_l|done].
Qed.

Lemma Wrote_app tr1 tr2 w w1 w' : Wrote tr1 w w1 → Wrote tr2 w1 w' → Wrote (tr1 ++ tr2) w w'.
Proof.
  induction 1 as [w w1|k b a tr w wa w1 Hc Hw IH]; intros H2; [by eapply Wrote_env_l|].
  simpl. eapply wrote_cons; [done|auto].
Qed.

Lemma Wrote_env_r tr w w' w1 : Wrote tr w w' → env w' w1 → Wrote tr w w1.
Proof. intros Hw He. rewrite <- (app_nil_r tr). eapply Wrote_app; [done|by apply wrote_none]. Qed.

Lemma Wrote_one k before after w w' :
  Commit k before after w w' → Wrote [(k, before, after)] w w'.
Proof. intros Hc. eapply wrote_cons; [done|]. by apply wrote_none. Qed.

(** What others keep, and every write keeps, a run keeps. *)
Lemma Wrote_inv (I : W → Prop) tr w w' :
  (∀ w w', env w w' → I w → I w') →
  (∀ k b a w w', (k, b, a) ∈ tr → obj w k = b → obj w' k = a →
     (∀ k', k' ≠ k → obj w' k' = obj w k') → I w → I w') →
  Wrote tr w w' → I w → I w'.
Proof.
  intros He Hs Hw. induction Hw as [w w'|k b a tr w w1 w' Hc Hw IH]; intros HI; [by eapply He|].
  apply IH.
  - intros k' b' a' wa wb Hin. apply Hs. set_solver.
  - destruct Hc as (wa&wb&?&?&?&?&?). eapply He; [done|]. eapply (Hs k b a wa wb); [set_solver|done..|].
    by eapply He.
Qed.

Lemma wrote_nil_env w w' : Wrote [] w w' → env w w'.
Proof. by inversion 1. Qed.

(** The last run of a retried closure decides: the others wrote nothing. [wd]
    is the world in the state the closure threads. *)
Lemma retry_wrote_with `{RetryOnConflict} `{!RetryLaws} {S} (wd : S → W) (f : S → result Error unit * S)
    (Q : result Error unit → S → list (Key * option O * option O) → S → Prop) s r s' :
  (∀ s e s1 r tr s', f s = (Err e, s1) → env (wd s) (wd s1) → Q r s1 tr s' → Q r s tr s') →
  (∀ s r s', f s = (r, s') → ∃ tr, Wrote tr (wd s) (wd s') ∧ Q r s tr s'
     ∧ ∀ e, r = Err e → is_conflict e = true → tr = []) →
  retry f s = (r, s') → ∃ tr, Wrote tr (wd s) (wd s') ∧ Q r s tr s'.
Proof.
  intros HQ Hf Hr. pose proof (retry_trace _ f s) as Ht. rewrite Hr in Ht. simpl in Ht. clear Hr.
  induction Ht as [s r s' Hl|s e s1 r s' Hl He Ht IH].
  - destruct (Hf _ _ _ Hl) as (tr&?&?&_). by exists tr.
  - destruct (Hf _ _ _ Hl) as (tr1&Hw1&_&Hc). rewrite (Hc e) in Hw1 by done.
    destruct IH as (tr&Hw&Hq). exists tr. apply wrote_nil_env in Hw1. split; [|by eapply HQ].
    eapply Wrote_env_l; [exact Hw1|exact Hw].
Qed.

Lemma retry_wrote `{RetryOnConflict} `{!RetryLaws} (f : W → result Error unit * W)
    (Q : result Error unit → W → list (Key * option O * option O) → W → Prop) w r w' :
  (∀ r w0 w tr w', env w0 w → Q r w tr w' → Q r w0 tr w') →
  (∀ w r w', f w = (r, w') → ∃ tr, Wrote tr w w' ∧ Q r w tr w'
     ∧ ∀ e, r = Err e → is_conflict e = true → tr = []) →
  retry f w = (r, w') → ∃ tr, Wrote tr w w' ∧ Q r w tr w'.
Proof. intros HQ Hf. eapply (retry_wrote_with (λ w, w)); [|exact Hf]. intros. by eapply HQ. Qed.
End commits.

(** [obj] is the server's state; [env] is what other writers and time may do. *)
Class ClientLaws (W : Type) `{KubeClient W} := {
  kc_obj : W → Key → option Attempt;
  kc_env : W → W → Prop;
  env_refl :: Reflexive kc_env;
  env_trans :: Transitive kc_env;
  obj_key : ∀ w k a, kc_obj w k = Some a → key_of a = k;
  (** A resource version identifies a content. *)
  rv_content : ∀ w w' k a b, kc_env w w' → kc_obj w k = Some a → kc_obj w' k = Some b →
    rv_of a = rv_of b → a = b;
  get_law : ∀ k w r w', kc_get k w = (r, w') →
    match r with
    | Ok a => ∃ w1, kc_env w w1 ∧ kc_obj w1 k = Some a ∧ kc_env w1 w'
    | Err e => kc_env w w' ∧ e ≠ Conflict
               ∧ (e = NotFound → ∃ w1, kc_env w w1 ∧ kc_obj w1 k = None ∧ kc_env w1 w')
    end;
  list_law : ∀ ns sel w r w', kc_list ns sel w = (r, w') →
    match r with
    | Ok l => ∃ w1, kc_env w w1 ∧ kc_env w1 w' ∧ NoDup (key_of <$> l)
              ∧ ∀ a, a ∈ l ↔ kc_obj w1 (key_of a) = Some a ∧ (key_of a).1 = ns
                             ∧ sel (om_Labels (at_Meta a)) = true
    | Err e => kc_env w w'
    end;
  (** Any other error may hide a commit: the answer was lost. *)
  status_law : ∀ base st w r w', kc_patch_status base st w = (r, w') →
    let done := ∃ cur rv, rv_of cur = rv_of base
      ∧ Commit kc_obj kc_env (key_of base) (Some cur) (Some (with_rv rv (set_Status st cur))) w w' in
    match r with
    | Ok _ => done
    | Err Conflict | Err NotFound => kc_env w w'
    | Err _ => kc_env w w' ∨ done
    end;
  labels_law : ∀ base ls w r w', kc_patch_labels base ls w = (r, w') →
    let done := ∃ cur rv, rv_of cur = rv_of base
      ∧ Commit kc_obj kc_env (key_of base) (Some cur) (Some (with_rv rv (set_Labels ls cur))) w w' in
    match r with
    | Ok _ => done
    | Err Conflict | Err NotFound => kc_env w w'
    | Err _ => kc_env w w' ∨ done
    end;
  (** The status subresource drops the status a create carries. *)
  create_law : ∀ a w r w', kc_create a w = (r, w') →
    let done rv t := Commit kc_obj kc_env (key_of a) None
      (Some (with_rv rv (set_Status zero_status (set_created t a)))) w w' in
    match r with
    | Ok b => key_of b = key_of a ∧ ∃ rv t, done rv t
    | Err AlreadyExists => kc_env w w'
    | Err _ => kc_env w w' ∨ ∃ rv t, done rv t
    end;
  delete_law : ∀ k w r w', kc_delete k w = (r, w') →
    let done := ∃ cur, Commit kc_obj kc_env k (Some cur) None w w' in
    match r with
    | Ok _ => done
    | Err NotFound => kc_env w w'
    | Err _ => kc_env w w' ∨ done
    end;
}.

(** ** A concrete cluster

    An instance of the client and of its laws, so that the ledger's theorems
    can be run: objects in a map, a clock, and a script of other writers'
    updates, one of which lands before each request. Requests always
    get an answer. The script lets witnesses place a conflicting write. *)

(** One turn of the other writers. *)
Inductive Other : Type :=
| Idle
| WriteStatus (k : Key) (st : AttemptStatus)
| WriteLabels (k : Key) (ls : gmap string string).

Record Cluster := {
  cs_objs : gmap Key Attempt;
  cs_clock : Z;
  cs_others : list Other;
}.

Definition set_objs (o : gmap Key Attempt) (c : Cluster) : Cluster :=
  {| cs_objs := o; cs_clock := cs_clock c; cs_others := cs_others c |}.

(** The object filed under its own key. *)
Definition cluster_obj (c : Cluster) (k : Key) : option Attempt :=
  a ← cs_objs c !! k; if decide (key_of a = k) then Some a else None.

Definition put_obj (k : Key) (a : Attempt) (c : Cluster) : Cluster := set_objs (<[k := a]> (cs_objs c)) c.

Definition set_others (l : list Other) (c : Cluster) : Cluster :=
  {| cs_objs := cs_objs c; cs_clock := cs_clock c; cs_others := l |}.

(** What a list request returns. *)
Definition listed (ns : string) (sel : Selector) (c : Cluster) : list Attempt :=
  (filter (λ ka, key_of ka.2 = ka.1 ∧ ka.1.1 = ns ∧ sel (om_Labels (at_Meta ka.2)) = true)
     (map_to_list (cs_objs c))).*2.

Definition update_obj (k : Key) (f : Attempt → Attempt) (c : Cluster) : Cluster :=
  match cluster_obj c k with
  | Some a => put_obj k (with_rv (rv_of a + 1) (f a)) c
  | None => c
  end.

(** Another writer's turn. *)
Definition others_step (c : Cluster) : Cluster :=
  match cs_others c with
  | [] => c
  | Idle :: l => set_others l c
  | WriteStatus k st :: l => set_others l (update_obj k (set_Status st) c)
  | WriteLabels k ls :: l => set_others l (update_obj k (set_Labels ls) c)
  end.

Definition patch_with (f : Attempt → Attempt) (base : Attempt) (c : Cluster)
    : result KErr unit * Cluster :=
  let c := others_step c in
  match cluster_obj c (key_of base) with
  | None => (Err NotFound, c)
  | Some cur =>
      if decide (rv_of cur = rv_of base)
      then (Ok tt, put_obj (key_of base) (with_rv (rv_of cur + 1) (f cur)) c)
      else (Err Conflict, c)
  end.

#[export] Instance cluster_client : KubeClient Cluster := {
  kc_now := cs_clock;
  kc_get k c := let c := others_step c in
                (match cluster_obj c k with Some a => Ok a | None => Err NotFound end, c);
  kc_create a c :=
    let c := others_step c in
    match cluster_obj c (key_of a) with
    | Some _ => (Err AlreadyExists, c)
    | None => let b := with_rv 1 (set_Status zero_status (set_created (cs_clock c) a)) in
              (Ok b, put_obj (key_of a) b c)
    end;
  kc_delete k c :=
    let c := others_step c in
    match cluster_obj c k with
    | Some _ => (Ok tt, set_objs (delete k (cs_objs c)) c)
    | None => (Err NotFound, c)
    end;
  kc_list ns sel c :=
    let c := others_step c in
    (Ok (listed ns sel c), c);
  kc_patch_status base st := patch_with (set_Status st) base;
  kc_patch_labels base ls := patch_with (set_Labels ls) base;
}.

(** [retry.DefaultBackoff]: four runs. *)
Fixpoint retry_steps {S} (n : nat) (f : S → result Error unit * S) (s : S) : result Error unit * S :=
  match f s, n with
  | (Err e, s1), S (S _ as n) => if is_conflict e then retry_steps n f s1 else (Err e, s1)
  | r, _ => r
  end.

#[export] Instance four_steps : RetryOnConflict := { retry S f s := retry_steps 4 f s }.

Lemma retry_steps_trace {S} n (f : S → result Error unit * S) s :
  RetryTrace f s (retry_steps n f s).1 (retry_steps n f s).2.
Proof.
  revert s. induction n as [|n IH]; intros s; cbn [retry_steps];
    destruct (f s) as [[x|e] s1] eqn:Hf; try (apply rt_last; exact Hf).
  destruct n as [|n]; [apply rt_last; exact Hf|].
  destruct (is_conflict e) eqn:Hc; [|apply rt_last; exact Hf]. eapply rt_again; [done..|]. apply IH.
Qed.

#[export] Instance four_steps_laws : RetryLaws.
Proof. constructor. intros S f s. apply retry_steps_trace. Qed.

Definition cluster_env : Cluster → Cluster → Prop := rtc (λ c c', c' = others_step c).

(** ** Laws *)

Lemma cluster_obj_key c k a : cluster_obj c k = Some a → key_of a = k.
Proof. unfold cluster_obj. destruct (cs_objs c !! k); simpl; [|done]. case_decide; congruence. Qed.

Lemma cluster_obj_raw c k a : cluster_obj c k = Some a ↔ cs_objs c !! k = Some a ∧ key_of a = k.
Proof.
  unfold cluster_obj. destruct (cs_objs c !! k) as [b|]; simpl; [|naive_solver].
  case_decide; naive_solver.
Qed.

Lemma put_obj_same k a c : key_of a = k → cluster_obj (put_obj k a c) k = Some a.
Proof. intros Hk. unfold cluster_obj. simpl. rewrite lookup_insert_eq. simpl. by rewrite decide_True. Qed.

Lemma put_obj_other k k' a c : k' ≠ k → cluster_obj (put_obj k a c) k' = cluster_obj c k'.
Proof. intros Hk. unfold cluster_obj. simpl. by rewrite lookup_insert_ne. Qed.

Lemma others_env c : cluster_env c (others_step c).
Proof. by apply rtc_once. Qed.

(** An object keeps its version or gets a greater one. *)
Definition newer (o o' : option Attempt) : Prop :=
  match o, o' with
  | Some a, Some b => a = b ∨ rv_of a < rv_of b
  | None, None => True
  | _, _ => False
  end.

Lemma newer_refl o : newer o o.
Proof. destruct o; simpl; auto. Qed.

Lemma update_obj_newer k' f c k :
  (∀ a, key_of (f a) = key_of a) → newer (cluster_obj c k) (cluster_obj (update_obj k' f c) k).
Proof.
  intros Hf. unfold update_obj. destruct (cluster_obj c k') as [a|] eqn:Ha; [|apply newer_refl].
  destruct (decide (k = k')) as [->|Hk]; [|rewrite put_obj_other by done; apply newer_refl].
  apply cluster_obj_key in Ha as Hk. rewrite put_obj_same, Ha; [right; unfold rv_of; simpl; lia|].
  transitivity (key_of (f a)); [done|]. by rewrite Hf.
Qed.

Lemma others_step_obj c k : newer (cluster_obj c k) (cluster_obj (others_step c) k).
Proof.
  assert (∀ l c', cluster_obj (set_others l c') k = cluster_obj c' k) as Heq by done.
  unfold others_step. destruct (cs_others c) as [|[|k' st|k' ls] l]; try apply newer_refl;
    rewrite Heq; by apply update_obj_newer.
Qed.

Lemma cluster_env_obj c c' k a b :
  cluster_env c c' → cluster_obj c k = Some a → cluster_obj c' k = Some b →
  a = b ∨ rv_of a < rv_of b.
Proof.
  intros He. revert a. induction He as [c|c c1 c' -> _ IH]; intros a Ha Hb; [left; congruence|].
  pose proof (others_step_obj c k) as Hs. unfold newer in Hs. rewrite Ha in Hs.
  destruct (cluster_obj (others_step c) k) as [a1|]; [|done].
  destruct (IH a1 eq_refl Hb) as [->|?], Hs as [->|?]; auto. right. lia.
Qed.

Lemma patch_with_law f base c r c' :
  (∀ a, key_of (f a) = key_of a) →
  patch_with f base c = (r, c') →
  match r with
  | Ok _ => ∃ cur rv, rv_of cur = rv_of base
      ∧ Commit cluster_obj cluster_env (key_of base) (Some cur) (Some (with_rv rv (f cur))) c c'
  | Err _ => cluster_env c c'
  end.
Proof.
  intros Hf. unfold patch_with. destruct (cluster_obj (others_step c) (key_of base)) as [cur|] eqn:Hc.
  2: { intros [= <- <-]. apply others_env. }
  destruct (decide _) as [Hrv|_]; intros [= <- <-]; [|apply others_env].
  exists cur, (rv_of cur + 1). split; [done|].
  eexists (others_step c), _. split_and!; [apply others_env|done| | |reflexivity].
  - apply put_obj_same. transitivity (key_of (f cur)); [done|]. rewrite Hf. by eapply cluster_obj_key.
  - intros k' Hk. by apply put_obj_other.
Qed.

Lemma listed_spec ns sel c a :
  a ∈ listed ns sel c ↔
  cluster_obj c (key_of a) = Some a ∧ (key_of a).1 = ns ∧ sel (om_Labels (at_Meta a)) = true.
Proof.
  unfold listed. rewrite list_elem_of_fmap, cluster_obj_raw. split.
  - intros ([k b]&->&[(Hk&Hns&Hs) Hin]%list_elem_of_filter). simpl in *.
    rewrite elem_of_map_to_list in Hin. subst k. by split_and!.
  - intros ([Ho _]&Hns&Hs). exists (key_of a, a). split; [done|].
    apply list_elem_of_filter. split; [done|]. by apply elem_of_map_to_list.
Qed.

Lemma listed_nodup ns sel c : NoDup (key_of <$> listed ns sel c).
Proof.
  unfold listed. pose proof (NoDup_fst_map_to_list (cs_objs c)) as Hnd.
  induction (map_to_list (cs_objs c)) as [|[k a] l IH]; [constructor|].
  csimpl in Hnd. apply NoDup_cons in Hnd as [Hni Hnd].
  destruct (decide (key_of a = k ∧ k.1 = ns ∧ sel (om_Labels (at_Meta a)) = true)) as [Hp|Hp].
  - rewrite filter_cons_True by done. csimpl. apply NoDup_cons. split; [|by apply IH].
    intros (b&Hb&Hin)%list_elem_of_fmap. apply list_elem_of_fmap in Hin as ([k' b']&->&Hin).
    apply list_elem_of_filter in Hin as [(Hk'&_) Hin]. simpl in *. apply Hni.
    destruct Hp as [Hp _]. rewrite <- Hp, Hb, Hk'. by apply (list_elem_of_fmap_2 fst l (k', b')).
  - rewrite filter_cons_False by done. by apply IH.
Qed.

#[export] Program Instance cluster_laws : ClientLaws Cluster := {
  kc_obj := cluster_obj;
  kc_env := cluster_env;
}.
Next Obligation. apply cluster_obj_key. Qed.
Next Obligation.
  intros w w' k a b He Ha Hb Hrv. destruct (cluster_env_obj _ _ _ _ _ He Ha Hb); [done|lia].
Qed.
Next Obligation.
  intros k w r w' [= <- <-]. destruct (cluster_obj (others_step w) k) as [a|] eqn:Ha.
  - exists (others_step w). split_and!; [apply others_env|done|reflexivity].
  - split_and!; [apply others_env|done|]. intros _. exists (others_step w).
    split_and!; [apply others_env|done|reflexivity].
Qed.
Next Obligation.
  intros ns sel w r w' [= <- <-]. exists (others_step w).
  split_and!; [apply others_env|reflexivity|apply listed_nodup|].
  intros a. apply listed_spec.
Qed.
Next Obligation. intros base st w r w' Hp. apply patch_with_law in Hp; [|done].
  destruct r as [[]|[]]; first [exact Hp | left; exact Hp]. Qed.
Next Obligation. intros base ls w r w' Hp. apply patch_with_law in Hp; [|done].
  destruct r as [[]|[]]; first [exact Hp | left; exact Hp]. Qed.
Next Obligation.
  intros a w r w' Hc. simpl in Hc. destruct (cluster_obj (others_step w) (key_of a)) as [b|] eqn:Hb.
  { injection Hc as <- <-. apply others_env. }
  injection Hc as <- <-. split; [done|]. exists 1, (cs_clock (others_step w)).
  eexists (others_step w), _. split_and!; [apply others_env|done| | |reflexivity].
  - by apply put_obj_same.
  - intros k' Hk. by apply put_obj_other.
Qed.
Next Obligation.
  intros k w r w' Hd. simpl in Hd. destruct (cluster_obj (others_step w) k) as [b|] eqn:Hb.
  2: { injection Hd as <- <-. apply others_env. }
  injection Hd as <- <-. exists b. eexists (others_step w), _.
  split_and!; [apply others_env|done| | |reflexivity].
  - unfold cluster_obj. simpl. by rewrite lookup_delete_eq.
  - intros k' Hk. unfold cluster_obj. simpl. by rewrite lookup_delete_ne.
Qed.

(** ** Sample clusters *)

Definition sample_objective (sha : string) : ObjectiveSpec :=
  {| ob_Kind := ObjectiveKindPRReview;
     ob_PrimarySubject := {| sj_Binding := "source"; sj_Object := "acme/app" |};
     ob_RelatedSubjects := []; ob_DesiredOutcome := ""; ob_TargetedState := sha |}.

Definition sample_attempt (name sha : string) (ls : gmap string string) (st : AttemptStatus) : Attempt :=
  {| at_Meta := {| om_Name := name; om_Namespace := "ns"; om_Labels := ls;
                   om_CreationTimestamp := 1; om_ResourceVersion := 1; om_UID := "u1" |};
     at_Spec := {| as_Objective := sample_objective sha; as_WorkflowRef := "ns/wf";
                   as_Bindings := []; as_Owner := "wf" |};
     at_Status := st |}.

(** A cluster at [clock] with these attempts, and a script of other writers. *)
Definition sample_cluster (clock : Z) (others : list Other) (l : list Attempt)
    : Cluster :=
  {| cs_objs := list_to_map ((λ a, (key_of a, a)) <$> l); cs_clock := clock; cs_others := others |}.
