(* ===== verification/AttemptStore.v ===== *)
(** * The attempt store ([internal/attempt/lifecycle.go])

    The ledger's single write primitive, a read, a mutation and a conditional
    patch retried on conflict, and the operations built on it. What a closure
    captures and assigns is threaded through its runs as a value of type [C]. *)

From S2P Require Import Prelude GoTime Api ClaimTrust AttemptName Ledger Kube.

Section store.
Context {W : Type} `{KubeClient W} `{RetryOnConflict}.

Definition kube_err {A} (r : result KErr A) : result Error A :=
  match r with Ok a => Ok a | Err e => Err (EKube e) end.

(** The closure of [patchAttemptStatus]. *)
Definition patch_body {C} (namespace attemptName : string)
    (mutate : Z → C → AttemptStatus → AttemptStatus * C) (cw : C * W)
    : result Error unit * (C * W) :=
  let '(c, w) := cw in
  match kc_get (namespace, attemptName) w with
  | (Err e, w) => (Err (EWrap ("get attempt " +:+ attemptName) (EKube e)), (c, w))
  | (Ok base, w) =>
      let '(s, c) := mutate (kc_now w) c (at_Status base) in
      let s := (compactStatus s).1 in
      let '(r, w) := kc_patch_status base s w in
      (kube_err r, (c, w))
  end.

Definition patchAttemptStatus {C} (namespace attemptName : string)
    (mutate : Z → C → AttemptStatus → AttemptStatus * C) (c : C) (w : W)
    : result Error unit * (C * W) :=
  retry (patch_body namespace attemptName mutate) (c, w).

(** A mutation that captures nothing. *)
Definition patch_status (namespace attemptName : string) (f : Z → AttemptStatus → AttemptStatus)
    : M W Error unit := λ w,
  let '(r, (_, w)) := patchAttemptStatus namespace attemptName (λ now c s, (f now s, c)) tt w in
  (r, w).

Definition RecordRunStarted (namespace attemptName runName : string) : M W Error unit := λ w,
  let now := kc_now w in
  patch_status namespace attemptName (λ _, run_started now runName) w.

Definition RecordRunOutcome (namespace attemptName : string) (outcome : RunOutcome)
    : M W Error unit := λ w,
  let now := kc_now w in
  patch_status namespace attemptName (λ _, run_outcome now outcome) w.

Definition RecordProgress (namespace attemptName : string) (p : RunProgress) : M W Error unit := λ w,
  let p := progress_at (kc_now w) p in
  patch_status namespace attemptName (λ _, set_Progress (Some p)) w.

Definition UpsertNodeResult (namespace attemptName : string) (env : NodeResultEnvelope)
    : M W Error unit :=
  patch_status namespace attemptName (λ _, node_recorded env).

(** [controllerutil.SetControllerReference]: the error it may return. The
    reference itself is not part of the modelled metadata. *)
Context (owner_error : Workflow → string → option string).

Definition new_attempt (obj : ObjectiveSpec) (opts : ResolveOptions) (name : string) : Attempt :=
  {| at_Meta := {| om_Name := name; om_Namespace := op_Namespace opts;
                   om_Labels := {[WorkflowLabel := ownerName opts;
                                  OwnerLabel := ownerValue (op_Owner opts);
                                  ObjectiveKindLabel := ob_Kind obj]};
                   om_CreationTimestamp := 0; om_ResourceVersion := 0; om_UID := "" |};
     at_Spec := AttemptSpecFromObjective obj opts;
     at_Status := set_Phase AttemptPhaseReconciling zero_status |}.

Definition owner_reference (opts : ResolveOptions) (name : string) : option string :=
  match op_Owner opts with
  | Some wf => if op_Scheme opts then owner_error wf name else None
  | None => None
  end.

Definition ResolveOrCreate (obj : ObjectiveSpec) (opts : ResolveOptions)
    : M W Error (Attempt * bool) := λ w,
  let name := AttemptName (ownerName opts) (Identity obj) in
  let key := (op_Namespace opts, name) in
  match kc_get key w with
  | (Ok existing, w) => (Ok (existing, false), w)
  | (Err e, w) =>
      if negb (IsNotFound e) then (Err (EWrap ("get attempt " +:+ name) (EKube e)), w)
      else
        match owner_reference opts name with
        | Some err => (Err (EWrap "set attempt owner" (EText err)), w)
        | None =>
            match kc_create (new_attempt obj opts name) w with
            | (Ok a, w) => (Ok (a, true), w)
            | (Err e, w) =>
                if negb (IsAlreadyExists e)
                then (Err (EWrap ("create attempt " +:+ name) (EKube e)), w)
                else match kc_get key w with
                     | (Ok got, w) => (Ok (got, false), w)
                     | (Err e, w) => (Err (EWrap ("re-get raced attempt " +:+ name) (EKube e)), w)
                     end
            end
        end
  end.

(** ** SupersedePriorAttempts *)

Definition has_label (k v : string) (ls : gmap string string) : bool :=
  bool_decide (ls !! k = Some v).

Definition superseded_status (current : Attempt) (s : AttemptStatus) : AttemptStatus :=
  set_Message ("superseded by " +:+ om_Name (at_Meta current) +:+ " (targeted state moved to "
               +:+ ob_TargetedState (as_Objective (at_Spec current)) +:+ ")")
    (set_Phase AttemptPhaseSuperseded s).

Definition live_claim (s : AttemptStatus) : bool :=
  match st_Review s with Some r => negb (rv_Released r) | None => false end.

(** The guards of the loop: this prior attempt is to be superseded. *)
Definition supersedable (current prior : Attempt) : bool :=
  let o := as_Objective (at_Spec current) in
  let p := as_Objective (at_Spec prior) in
  if bool_decide (om_Name (at_Meta prior) = om_Name (at_Meta current))
     || negb (bool_decide (ob_Kind p = ob_Kind o))
     || negb (bool_decide (ob_PrimarySubject p = ob_PrimarySubject o))
  then false
  else
    let ts := ob_TargetedState p in
    if bool_decide (ts = "") || bool_decide (ts = "head") || bool_decide (ts = ob_TargetedState o)
    then false
    else if negb (bool_decide (st_Phase (at_Status prior) = AttemptPhaseReconciling)) then false
    else negb (live_claim (at_Status prior)).

Fixpoint supersede_loop (namespace : string) (current : Attempt) (items : list Attempt) (n : Z) (w : W)
    : Z * W :=
  match items with
  | [] => (n, w)
  | prior :: items =>
      if supersedable current prior then
        match patch_status namespace (om_Name (at_Meta prior)) (λ _, superseded_status current) w with
        | (Ok _, w) => supersede_loop namespace current items (n + 1) w
        | (Err _, w) => supersede_loop namespace current items n w
        end
      else supersede_loop namespace current items n w
  end.

Definition SupersedePriorAttempts (namespace workflowName : string) (current : option Attempt)
    : M W Error Z := λ w,
  match current with
  | None => (Ok 0, w)
  | Some current =>
      let ts := ob_TargetedState (as_Objective (at_Spec current)) in
      if bool_decide (ts = "") || bool_decide (ts = "head") then (Ok 0, w)
      else
        match kc_list namespace (has_label WorkflowLabel workflowName) w with
        | (Err e, w) => (Err (EWrap "list attempts" (EKube e)), w)
        | (Ok items, w) =>
            let '(n, w) := supersede_loop namespace current items 0 w in (Ok n, w)
        end
  end.

(** ** GCAttempts *)

Definition gc_day : Z := 24 * Hour.

(** [time.Time.Add]: times are unbounded here; the bound is the duration's. *)
Definition gc_statusless_bound (olderThan : Z) : Z :=
  if (gc_day <? olderThan) || (olderThan <=? 0) then gc_day else olderThan.

Definition gc_terminal (phase : string) : bool :=
  bool_decide (phase = "") || bool_decide (phase = AttemptPhaseValidated)
  || bool_decide (phase = AttemptPhaseSuperseded) || bool_decide (phase = AttemptPhaseFailed).

(** The guards of the loop: this attempt is to be deleted. *)
Definition collectable (cutoff statuslessCutoff : Z) (a : Attempt) : bool :=
  let phase := st_Phase (at_Status a) in
  let created := om_CreationTimestamp (at_Meta a) in
  if negb (gc_terminal phase) || time_IsZero created then false
  else
    let cut := if decide (phase = "") then statuslessCutoff else cutoff in
    if time_After created cut then false else negb (live_claim (at_Status a)).

Fixpoint gc_loop (cutoff statuslessCutoff : Z) (items : list Attempt) (gc : Z) (firstErr : option KErr)
    (w : W) : Z * option KErr * W :=
  match items with
  | [] => (gc, firstErr, w)
  | a :: items =>
      if collectable cutoff statuslessCutoff a then
        match kc_delete (key_of a) w with
        | (Err e, w) =>
            if IsNotFound e then gc_loop cutoff statuslessCutoff items (gc + 1) firstErr w
            else gc_loop cutoff statuslessCutoff items gc
                   (match firstErr with None => Some e | _ => firstErr end) w
        | (Ok _, w) => gc_loop cutoff statuslessCutoff items (gc + 1) firstErr w
        end
      else gc_loop cutoff statuslessCutoff items gc firstErr w
  end.

(** The count comes back with the error, as in the code. *)
Definition GCAttempts (namespace : string) (olderThan : Z) (w : W) : Z * option Error * W :=
  match kc_list namespace (λ _, true) w with
  | (Err e, w) => (0, Some (EWrap "list attempts" (EKube e)), w)
  | (Ok items, w) =>
      let cutoff := kc_now w - olderThan in
      let statuslessCutoff := kc_now w - gc_statusless_bound olderThan in
      let '(gc, err, w) := gc_loop cutoff statuslessCutoff items 0 None w in
      (gc, EKube <$> err, w)
  end.
End store.

(** ** What a write does to the cluster *)

(** Chains of [kc_env]: plain [etrans] would close the first link by
    reflexivity. *)
Ltac env_chain :=
  repeat first [eassumption | reflexivity | etransitivity; [eassumption|]].

Section laws.
Context {W : Type} `{KubeClient W} `{!ClientLaws W} `{RetryOnConflict} `{!RetryLaws}.

Notation wrote := (Wrote kc_obj kc_env).

Section patched.
Context {C : Type} (mutate : Z → C → AttemptStatus → AttemptStatus * C) (k : Key).

(** What earlier runs of the closure may have left in its captured variables. *)
Definition Captured : C → C → Prop := rtc (λ c c', ∃ t s, c' = (mutate t c s).2).

(** One write: the mutation of the status of the very object it replaced,
    compacted; the labels and the spec are kept. *)
Definition Patched (c c' : C) (tr : list (Key * option Attempt * option Attempt)) : Prop :=
  ∃ t cur rv, c' = (mutate t c (at_Status cur)).2
    ∧ tr = [(k, Some cur,
             Some (with_rv rv (set_Status (compactStatus (mutate t c (at_Status cur)).1).1 cur)))].

Definition PatchOutcome (c c' : C) (r : result Error unit) tr : Prop :=
  (tr = [] ∧ is_ok r = false) ∨
  ((∀ e, r = Err e → is_conflict e = false) ∧ ∃ c0, Captured c c0 ∧ Patched c0 c' tr).
End patched.

(** One run of the closure: the patch commits on the very object it read. *)
Lemma patch_body_law {C} ns name (mutate : Z → C → AttemptStatus → AttemptStatus * C) c w r c' w' :
  patch_body ns name mutate (c, w) = (r, (c', w')) →
  Captured mutate c c' ∧ ∃ tr, wrote tr w w' ∧ PatchOutcome mutate (ns, name) c c' r tr.
Proof.
  unfold patch_body. destruct (kc_get (ns, name) w) as [[base|e] w1] eqn:Hg; apply get_law in Hg.
  2: { intros [= <- <- <-]. destruct Hg as (He&_). split; [reflexivity|].
       exists []. split; [by apply wrote_none|by left]. }
  destruct Hg as (w2&He2&Hobj&He1).
  destruct (mutate (kc_now w1) c (at_Status base)) as [s c1] eqn:Hm.
  destruct (kc_patch_status base (compactStatus s).1 w1) as [r1 w3] eqn:Hp.
  intros [= <- <- <-]. apply status_law in Hp. cbv zeta in Hp.
  pose proof (obj_key _ _ _ Hobj) as Hk.
  split; [apply rtc_once; exists (kc_now w1), (at_Status base); by rewrite Hm|].
  assert (kc_env w w1) as He by env_chain.
  assert (kc_env w1 w3 → wrote [] w w3) as Hnone by (intros; apply wrote_none; env_chain).
  assert ((∃ cur rv, rv_of cur = rv_of base ∧ Commit kc_obj kc_env (key_of base) (Some cur)
      (Some (with_rv rv (set_Status (compactStatus s).1 cur))) w1 w3) →
    ∃ tr, wrote tr w w3 ∧ ∃ c0, Captured mutate c c0 ∧ Patched mutate (ns, name) c0 c1 tr) as Hdone.
  { intros (cur&rv&Hrv&HC). pose proof HC as (wa&wb&Hea&Hcur&_). rewrite Hk in HC, Hcur.
    assert (base = cur) as <- by (eapply (rv_content w2 wa); [env_chain|eassumption|eassumption|done]).
    eexists. split; [eapply Wrote_env_l; [exact _|exact He|]; eapply Wrote_one; [exact _|exact HC]|].
    exists c. split; [reflexivity|]. exists (kc_now w1), base, rv. by rewrite Hm. }
  destruct r1 as [[]|e].
  { destruct (Hdone Hp) as (tr&?&?). exists tr. split; [done|]. by right. }
  assert (PatchOutcome mutate (ns, name) c c1 (kube_err (Err e)) []) as Hfail by by left.
  destruct e; try (exists []; by auto);
    (destruct Hp as [?|Hp]; [exists []; by auto|]; destruct (Hdone Hp) as (tr&?&?);
     exists tr; split; [done|right]; split; [by intros ? [= <-]|done]).
Qed.

(** The whole primitive: whatever conflicts it met, at most one write. *)
Lemma patch_law {C} ns name (mutate : Z → C → AttemptStatus → AttemptStatus * C) c w r c' w' :
  patchAttemptStatus ns name mutate c w = (r, (c', w')) →
  Captured mutate c c' ∧ ∃ tr, wrote tr w w' ∧ PatchOutcome mutate (ns, name) c c' r tr.
Proof.
  intros Hr. pose proof (retry_trace _ (patch_body ns name mutate) (c, w)) as Ht.
  unfold patchAttemptStatus in Hr. rewrite Hr in Ht. simpl in Ht. clear Hr.
  remember (c, w) as s eqn:Hs. remember (c', w') as s' eqn:Hs'. revert c w Hs.
  induction Ht as [s r s' Hf|s e s1 r s' Hf He Ht IH]; intros c w ->; subst.
  - by apply patch_body_law in Hf.
  - destruct s1 as [c1 w1]. apply patch_body_law in Hf as (Hcap&tr1&Hw1&Ho1).
    destruct (IH eq_refl c1 w1 eq_refl) as (Hcap2&tr&Hw&Ho).
    split; [by etrans|]. exists tr.
    destruct Ho1 as [[-> _]|[Hne _]]; [|by rewrite (Hne e) in He].
    split; [by eapply (Wrote_app _ _ [])|].
    destruct Ho as [?|(?&c0&?&?)]; [by left|]. right. split; [done|].
    exists c0. split; [by etrans|done].
Qed.

(** A mutation that captures nothing: an atomic read-modify-write. *)
Lemma patch_status_law ns name f (w : W) r w' :
  patch_status ns name f w = (r, w') →
  ∃ tr, wrote tr w w' ∧
    ((tr = [] ∧ is_ok r = false) ∨
     ((∀ e, r = Err e → is_conflict e = false) ∧ ∃ t cur rv,
       tr = [((ns, name), Some cur,
              Some (with_rv rv (set_Status (compactStatus (f t (at_Status cur))).1 cur)))])).
Proof.
  unfold patch_status.
  destruct (patchAttemptStatus ns name _ tt w) as [r1 [c1 w1]] eqn:Hp. intros [= <- <-].
  apply patch_law in Hp as (_&tr&Hw&Ho). exists tr. split; [done|].
  destruct Ho as [?|(Hne&c0&_&t&cur&rv&_&->)]; [by left|right].
  split; [done|]. by exists t, cur, rv.
Qed.

(** ** The operations' writes *)

(** A successful get saw the object at some instant of the call. *)
Definition read_at (a : Attempt) (w w' : W) : Prop :=
  ∃ w1, kc_env w w1 ∧ kc_obj w1 (key_of a) = Some a ∧ kc_env w1 w'.

Lemma get_read k (w : W) a w' :
  kc_get k w = (Ok a, w') → key_of a = k ∧ wrote [] w w' ∧ read_at a w w'.
Proof.
  intros Hg. apply get_law in Hg as (w1&?&Ho&?). pose proof (obj_key _ _ _ Ho) as Hk.
  split; [done|]. split; [apply wrote_none; env_chain|]. exists w1. by rewrite Hk.
Qed.

Lemma get_err k (w : W) e w' : kc_get k w = (Err e, w') → wrote [] w w'.
Proof. intros Hg. apply get_law in Hg as (?&_). by apply wrote_none. Qed.

Lemma read_at_env_l a (w0 w w' : W) : kc_env w0 w → read_at a w w' → read_at a w0 w'.
Proof. intros ? (w1&?&?&?). exists w1. split_and!; [env_chain|done|done]. Qed.

(** The status of [k]'s object rewritten by [f], the rest kept. *)
Definition rewrites (f : AttemptStatus → AttemptStatus) (b a : option Attempt) : Prop :=
  ∃ old rv, b = Some old ∧ a = Some (with_rv rv (set_Status (compactStatus (f (at_Status old))).1 old)).

Definition superseding (namespace : string) (current : Attempt) (items : list Attempt)
    (x : Key * option Attempt * option Attempt) : Prop :=
  ∃ prior, prior ∈ items ∧ supersedable current prior = true
    ∧ x.1.1 = (namespace, om_Name (at_Meta prior))
    ∧ rewrites (superseded_status current) x.1.2 x.2.

Lemma supersede_loop_law ns current items n (w : W) n' w' :
  supersede_loop ns current items n w = (n', w') →
  ∃ tr, wrote tr w w' ∧ Forall (superseding ns current items) tr
    ∧ tr.*1.*1 `sublist_of` ((λ a, (ns, om_Name (at_Meta a)))
                               <$> filter (λ a, supersedable current a = true) items)
    ∧ n ≤ n' ≤ n + Z.of_nat (length tr).
Proof.
  revert n w. induction items as [|prior items IH]; intros n w; cbn [supersede_loop].
  { intros [= <- <-]. exists []. split_and!; [by apply wrote_none|constructor|constructor|lia|].
    simpl. lia. }
  destruct (supersedable current prior) eqn:Hs.
  2: { intros (tr&Hw&Hf&Hsub&Hn)%IH. exists tr. rewrite filter_cons_False by congruence.
       split_and!; [done| |done|lia|lia].
       eapply Forall_impl; [exact Hf|]. intros x (p&?&?). exists p. set_solver. }
  destruct (patch_status _ _ _ w) as [r w1] eqn:Hp.
  apply patch_status_law in Hp as (tr1&Hw1&Ho). intros Hrest.
  assert (∃ n1, supersede_loop ns current items n1 w1 = (n', w')
    ∧ n ≤ n1 ≤ n + Z.of_nat (length tr1) ∧ Forall (superseding ns current (prior :: items)) tr1
    ∧ tr1.*1.*1 `sublist_of` [(ns, om_Name (at_Meta prior))]) as (n1&Hl&Hn1&Hf1&Hs1).
  { destruct Ho as [[-> Hr]|(_&t&cur&rv&->)].
    - exists n. destruct r; [done|]. split_and!; [done|lia|simpl; lia|constructor|].
      constructor. constructor.
    - exists (if is_ok r then n + 1 else n).
      split_and!; [by destruct r|destruct r; simpl; lia|destruct r; simpl; lia| |done].
      constructor; [|constructor]. exists prior. split_and!; [set_solver|done|done|].
      by eexists _, _. }
  apply IH in Hl as (tr2&Hw2&Hf2&Hs2&Hn2). exists (tr1 ++ tr2).
  rewrite !fmap_app, length_app, filter_cons_True by done. csimpl.
  split_and!; [eapply (Wrote_app _ _ tr1); [exact Hw1|exact Hw2]| | |lia|lia].
  - apply Forall_app. split; [done|]. eapply Forall_impl; [exact Hf2|].
    intros x (p&?&?). exists p. set_solver.
  - exact (sublist_app _ _ _ _ Hs1 Hs2).
Qed.

Lemma gc_loop_law cutoff cutoff' items gc err (w : W) gc' err' w' :
  gc_loop cutoff cutoff' items gc err w = (gc', err', w') →
  ∃ tr, wrote tr w w'
    ∧ Forall (λ x, x.2 = None ∧ ∃ a, a ∈ items ∧ collectable cutoff cutoff' a = true
                                     ∧ x.1.1 = key_of a) tr
    ∧ tr.*1.*1 `sublist_of` (key_of <$> filter (λ a, collectable cutoff cutoff' a = true) items)
    ∧ (err' = None → err = None
       ∧ gc' = gc + Z.of_nat (length (filter (λ a, collectable cutoff cutoff' a = true) items))).
Proof.
  revert gc err w. induction items as [|x items IH]; intros gc err w; cbn [gc_loop].
  { intros [= <- <- <-]. exists [].
    split_and!; [by apply wrote_none|constructor|constructor|]. intros ->. simpl. split; [done|lia]. }
  destruct (collectable cutoff cutoff' x) eqn:Hs.
  2: { intros (tr&Hw&Hf&Hsub&Hn)%IH. exists tr. rewrite filter_cons_False by congruence.
       split_and!; [done| |done|done].
       eapply Forall_impl; [exact Hf|]. intros y (?&a&?&?). split; [done|]. exists a. set_solver. }
  destruct (kc_delete (key_of x) w) as [r w1] eqn:Hd. apply delete_law in Hd. cbv zeta in Hd.
  intros Hrest.
  assert (∃ gc1 err1, gc_loop cutoff cutoff' items gc1 err1 w1 = (gc', err', w')
    ∧ (err1 = None → err = None ∧ gc1 = gc + 1)) as (gc1&err1&Hl&Hn1).
  { destruct r as [|e]; [by eexists _, _|]. destruct (IsNotFound e); [by eexists _, _|].
    eexists _, _. split; [done|]. by destruct err. }
  assert (∃ tr1, wrote tr1 w w1 ∧ tr1.*1.*1 `sublist_of` [key_of x]
    ∧ Forall (λ y, y.2 = None ∧ y.1.1 = key_of x) tr1) as (tr1&Hw1&Hs1&Hf1).
  { assert (kc_env w w1 ∨ ∃ cur, Commit kc_obj kc_env (key_of x) (Some cur) None w w1) as [He|(cur&HC)]
      by (destruct r as [|[]]; auto).
    - exists []. split_and!; [by apply wrote_none|do 2 constructor|constructor].
    - exists [(key_of x, Some cur, None)]. split_and!; [|done|by repeat constructor].
      by apply Wrote_one; [exact _|]. }
  apply IH in Hl as (tr2&Hw2&Hf2&Hs2&Hn2). exists (tr1 ++ tr2).
  rewrite !fmap_app, filter_cons_True by done. csimpl.
  split_and!; [eapply (Wrote_app _ _ tr1); [exact Hw1|exact Hw2]| |exact (sublist_app _ _ _ _ Hs1 Hs2)|].
  - apply Forall_app. split; (eapply Forall_impl; [eassumption|]).
    + intros y [? ->]. split; [done|]. exists x. set_solver.
    + intros y (?&a&?&?). split; [done|]. exists a. set_solver.
  - intros (He1&->)%Hn2. destruct (Hn1 He1) as [-> ->]. split; [done|lia].
Qed.

Lemma supersedable_spec current prior :
  supersedable current prior = true ↔
  om_Name (at_Meta prior) ≠ om_Name (at_Meta current)
  ∧ ob_Kind (as_Objective (at_Spec prior)) = ob_Kind (as_Objective (at_Spec current))
  ∧ ob_PrimarySubject (as_Objective (at_Spec prior)) = ob_PrimarySubject (as_Objective (at_Spec current))
  ∧ ob_TargetedState (as_Objective (at_Spec prior))
      ∉ [""; "head"; ob_TargetedState (as_Objective (at_Spec current))]
  ∧ st_Phase (at_Status prior) = AttemptPhaseReconciling ∧ live_claim (at_Status prior) = false.
Proof.
  unfold supersedable. rewrite !not_elem_of_cons.
  repeat case_bool_decide; simpl; rewrite ?negb_true_iff;
    (split; [try done|intros (?&?&?&(?&?&?&?)&?&?); try done]).
  intros. split_and!; try done. apply not_elem_of_nil.
Qed.

Lemma collectable_spec cutoff cutoff' a :
  collectable cutoff cutoff' a = true ↔
  st_Phase (at_Status a) ∈ [""; AttemptPhaseValidated; AttemptPhaseSuperseded; AttemptPhaseFailed]
  ∧ om_CreationTimestamp (at_Meta a) ≠ 0
  ∧ om_CreationTimestamp (at_Meta a) ≤ (if decide (st_Phase (at_Status a) = "") then cutoff' else cutoff)
  ∧ live_claim (at_Status a) = false.
Proof.
  assert (gc_terminal (st_Phase (at_Status a)) = true ↔ st_Phase (at_Status a)
    ∈ [""; AttemptPhaseValidated; AttemptPhaseSuperseded; AttemptPhaseFailed]) as Ht.
  { unfold gc_terminal. rewrite !orb_true_iff, !bool_decide_eq_true. set_solver. }
  unfold collectable, time_IsZero, time_After. rewrite <- Ht.
  destruct (gc_terminal _); simpl; [|naive_solver].
  destruct (om_CreationTimestamp (at_Meta a) =? 0) eqn:Hz; [apply Z.eqb_eq in Hz; naive_solver|].
  apply Z.eqb_neq in Hz. destruct (_ <? _) eqn:Hc.
  - apply Z.ltb_lt in Hc. split; [done|]. intros (_&_&?&_). lia.
  - apply Z.ltb_ge in Hc. rewrite negb_true_iff. naive_solver.
Qed.

(** The object a create request makes: owner's labels, objective's spec, and an
    empty status, for the server drops the phase of the request. *)
Definition minted owner_error obj opts (tr : list (Key * option Attempt * option Attempt)) : Prop :=
  let name := AttemptName (ownerName opts) (Identity obj) in
  owner_reference owner_error opts name = None ∧ ∃ rv t, tr =
    [((op_Namespace opts, name), None,
      Some (with_rv rv (set_Status zero_status (set_created t (new_attempt obj opts name)))))].

Lemma ResolveOrCreate_law owner_error obj opts (w : W) r w' :
  ResolveOrCreate owner_error obj opts w = (r, w') →
  ∃ tr, wrote tr w w'
    ∧ match r with
      | Ok (a, true) => key_of a = (op_Namespace opts, AttemptName (ownerName opts) (Identity obj))
                        ∧ minted owner_error obj opts tr
      | Ok (a, false) => key_of a = (op_Namespace opts, AttemptName (ownerName opts) (Identity obj))
                         ∧ tr = [] ∧ read_at a w w'
      | Err _ => tr = [] ∨ minted owner_error obj opts tr
      end.
Proof.
  unfold ResolveOrCreate, minted. cbv zeta. set (name := AttemptName _ _). set (key := (_, name)).
  destruct (kc_get key w) as [[a|e] w1] eqn:Hg.
  { intros [= <- <-]. apply get_read in Hg as (?&?&?). by exists []. }
  apply get_err in Hg. destruct (negb (IsNotFound e)); [intros [= <- <-]; exists []; by auto|].
  destruct (owner_reference owner_error opts name) as [err|] eqn:Ho;
    [intros [= <- <-]; exists []; by auto|].
  destruct (kc_create (new_attempt obj opts name) w1) as [r0 w2] eqn:Hc.
  apply create_law in Hc. cbv zeta in Hc. change (key_of (new_attempt obj opts name)) with key in Hc.
  pose proof (wrote_nil_env _ _ _ _ Hg) as He.
  assert (∀ rv t, Commit kc_obj kc_env key None (Some (with_rv rv (set_Status zero_status
      (set_created t (new_attempt obj opts name))))) w1 w2 →
    ∃ tr, wrote tr w w2 ∧ ∃ rv t, tr = [(key, None, Some (with_rv rv (set_Status zero_status
      (set_created t (new_attempt obj opts name)))))]) as Hdone.
  { intros rv t HC. eexists. split; [|by eexists _, _]. apply Wrote_one; [exact _|].
    eapply Commit_env_l; [exact _|exact He|exact HC]. }
  destruct r0 as [b|e'].
  { intros [= <- <-]. destruct Hc as (Hk&rv&t&HC). destruct (Hdone _ _ HC) as (tr&?&?). by exists tr. }
  assert (IsAlreadyExists e' = false → ∃ tr, wrote tr w w2 ∧ (tr = [] ∨ None = @None string ∧ ∃ rv t,
    tr = [(key, None, Some (with_rv rv (set_Status zero_status
      (set_created t (new_attempt obj opts name)))))])) as Herr.
  { intros Hn. destruct e'; try done; (destruct Hc as [?|(rv&t&HC)];
      [exists []; split; [apply wrote_none; env_chain|by left]
      |destruct (Hdone _ _ HC) as (tr&?&?); exists tr; by auto]). }
  destruct (IsAlreadyExists e') eqn:Hae; simpl; [|intros [= <- <-]; auto].
  destruct e'; try done. pose proof (He : kc_env w w1).
  destruct (kc_get key w2) as [[a|e''] w3] eqn:Hg2.
  - intros [= <- <-]. apply get_read in Hg2 as (?&Hw&?). exists []. split; [|split_and!; try done].
    + apply wrote_none. apply wrote_nil_env in Hw. env_chain.
    + eapply read_at_env_l; [|done]. env_chain.
  - intros [= <- <-]. apply get_err, wrote_nil_env in Hg2. exists []. split; [apply wrote_none; env_chain|by left].
Qed.

(** ** Properties *)

(** C25. Every ledger write is one atomic, bounded read-modify-write: whatever
    the other writers do and however many conflicts the retry meets, a call
    writes at most once, to the status of the named attempt only; the committed
    status is the mutation, compacted, of exactly the status it replaced, so no
    concurrent update is lost; a success wrote, a conflict handed back did not;
    and what is committed is within every bound. *)
Theorem patchAttemptStatus_atomic {C} ns name
    (mutate : Z → C → AttemptStatus → AttemptStatus * C) (c : C) (w : W) :
  let '(r, (c', w')) := patchAttemptStatus ns name mutate c w in
  ∃ tr, wrote tr w w'
  ∧ match r with
    | Ok _ => ∃ c0, Captured mutate c c0 ∧ Patched mutate (ns, name) c0 c' tr
    | Err e => tr = [] ∨ is_conflict e = false
                         ∧ ∃ c0, Captured mutate c c0 ∧ Patched mutate (ns, name) c0 c' tr
    end
  ∧ (∀ k b a, (k, b, a) ∈ tr → k = (ns, name)
       ∧ ∃ cur new, b = Some cur ∧ a = Some new ∧ bounded (at_Status new)
           ∧ at_Spec new = at_Spec cur ∧ om_Labels (at_Meta new) = om_Labels (at_Meta cur)).
Proof.
  destruct (patchAttemptStatus ns name mutate c w) as [r [c' w']] eqn:Hp.
  apply patch_law in Hp as (_&tr&Hw&Ho). exists tr. split; [done|]. split.
  - destruct Ho as [[-> Hr]|(Hne&Ho)]; destruct r as [|e]; auto; done.
  - intros k b a Hin. destruct Ho as [[-> _]|(_&c0&_&t&cur&rv&_&->)]; [by apply elem_of_nil in Hin|].
    apply list_elem_of_singleton in Hin as [= -> -> ->]. split; [done|]. eexists _, _.
    split_and!; [done..|apply compact_bounded|done|done].
Qed.

(** The record of a run survives the compaction of its own write. *)
Lemma outcome_run_kept now o s :
  (length (st_Runs s) ≤ MaxStatusRuns)%nat →
  ∃ rec, get rr_Name (ro_RunName o) (st_Runs (compactStatus (run_outcome now o s)).1) = Some rec
    ∧ rr_Phase rec = ro_Phase o ∧ rr_EndedAt rec = now.
Proof.
  intros Hlen. destruct (run_outcome_fields now o s) as (_&_&_&Hruns&_). cbv zeta in *.
  rewrite compact_Runs, Hruns. set (r0 := Build_RunRecord _ _ _ _).
  exists (match get rr_Name (ro_RunName o) (st_Runs s) with Some e => merge_run r0 e | None => r0 end).
  pose proof (upsertRun_kept (st_Runs s) r0 MaxStatusRuns Hlen ltac:(done)) as Hk.
  change (rr_Name r0) with (ro_RunName o) in Hk. rewrite Hk.
  pose proof (upsertRun_get (st_Runs s) r0) as Hg.
  change (rr_Name r0) with (ro_RunName o) in Hg. rewrite Hg. split; [done|].
  clear Hg Hk. subst r0. by destruct (get rr_Name (ro_RunName o) (st_Runs s)).
Qed.

(** A run's outcome reaches the ledger: when [RecordRunOutcome] succeeds it
    made one write, the committed attempt has the outcome's phase, the run's
    record survives the compaction with the outcome's phase and end time, a
    keyed ledger stays keyed, and the review claim is untouched. *)
Theorem RecordRunOutcome_recorded ns name o (w : W) :
  is_ok (RecordRunOutcome ns name o w).1 = true →
  ∃ cur new, wrote [((ns, name), Some cur, Some new)] w (RecordRunOutcome ns name o w).2
    ∧ st_Phase (at_Status new) = outcome_phase o
    ∧ ((length (st_Runs (at_Status cur)) ≤ MaxStatusRuns)%nat →
       ∃ rec, get rr_Name (ro_RunName o) (st_Runs (at_Status new)) = Some rec
         ∧ rr_Phase rec = ro_Phase o ∧ rr_EndedAt rec = kc_now w)
    ∧ (ledger_wf (at_Status cur) → ledger_wf (at_Status new))
    ∧ bounded (at_Status new) ∧ st_Review (at_Status new) = st_Review (at_Status cur).
Proof.
  unfold RecordRunOutcome. destruct (patch_status _ _ _ w) as [r w'] eqn:Hp. simpl. intros Hok.
  apply patch_status_law in Hp as (tr&Hw&[[_ Hr]|(_&t&cur&rv&->)]); [congruence|].
  eexists _, _. split; [exact Hw|]. simpl. autorewrite with ledger.
  destruct (run_outcome_fields (kc_now w) o (at_Status cur)) as (Hph&_). cbv zeta in *.
  split_and!; [by rewrite Hph, HasValidated_clamped| | |apply compact_bounded|].
  - apply outcome_run_kept.
  - intros Hwf. apply compactStatus_wf. by apply run_outcome_wf.
  - unfold run_outcome. cbv zeta. by destruct (decide (ro_Message _ = "")).
Qed.

(** Resolving is by name, and creates at most one object: the attempt
    handed back is always the one of the deterministic name of (workflow,
    identity); it is either an object the server held during the call, with
    nothing written, or, reported as created, one freshly made where there was
    none, with the owner's labels, the objective's spec and an empty status (the
    phase of the request is dropped by the server); a failure may have left at
    most that same object behind. *)
Theorem ResolveOrCreate_spec owner_error obj opts (w : W) :
  let name := AttemptName (ownerName opts) (Identity obj) in
  let key := (op_Namespace opts, name) in
  let minted tr := owner_reference owner_error opts name = None ∧ ∃ rv t, tr =
    [(key, None, Some (with_rv rv (set_Status zero_status (set_created t (new_attempt obj opts name)))))] in
  let '(r, w') := ResolveOrCreate owner_error obj opts w in
  ∃ tr, wrote tr w w'
    ∧ match r with
      | Ok (a, true) => key_of a = key ∧ minted tr
      | Ok (a, false) => key_of a = key ∧ tr = [] ∧ read_at a w w'
      | Err _ => tr = [] ∨ minted tr
      end.
Proof.
  cbv zeta. destruct (ResolveOrCreate owner_error obj opts w) as [r w'] eqn:Hr.
  by apply ResolveOrCreate_law in Hr.
Qed.

(** Superseding touches only finished rounds of the same objective: every
    write of [SupersedePriorAttempts] moves to superseded one attempt that the
    listing showed to be another attempt of the same workflow, kind and
    subject, for another concrete targeted state, still reconciling and without
    a live claim; no attempt is written twice, and the number returned is at
    most the number of writes. A rolling target supersedes nothing. *)
Theorem SupersedePriorAttempts_spec ns workflowName current (w : W) :
  let '(r, w') := SupersedePriorAttempts ns workflowName current w in
  ∃ tr, wrote tr w w' ∧ NoDup (tr.*1.*1)
  ∧ match r with Ok n => 0 ≤ n ≤ Z.of_nat (length tr) | Err _ => tr = [] end
  ∧ (∀ k b a, (k, b, a) ∈ tr → ∃ cur prior w1,
       current = Some cur ∧ kc_env w w1 ∧ kc_obj w1 k = Some prior ∧ k.1 = ns
       ∧ om_Labels (at_Meta prior) !! WorkflowLabel = Some workflowName
       ∧ ob_TargetedState (as_Objective (at_Spec cur)) ∉ [""; "head"]
       ∧ om_Name (at_Meta prior) ≠ om_Name (at_Meta cur)
       ∧ ob_Kind (as_Objective (at_Spec prior)) = ob_Kind (as_Objective (at_Spec cur))
       ∧ ob_PrimarySubject (as_Objective (at_Spec prior)) = ob_PrimarySubject (as_Objective (at_Spec cur))
       ∧ ob_TargetedState (as_Objective (at_Spec prior))
           ∉ [""; "head"; ob_TargetedState (as_Objective (at_Spec cur))]
       ∧ st_Phase (at_Status prior) = AttemptPhaseReconciling ∧ live_claim (at_Status prior) = false
       ∧ rewrites (superseded_status cur) b a).
Proof.
  unfold SupersedePriorAttempts. destruct current as [cur|].
  2: { exists []. split_and!; [by apply wrote_none|constructor|simpl; lia..|].
       intros k b a []%elem_of_nil. }
  set (ts := ob_TargetedState (as_Objective (at_Spec cur))).
  destruct (bool_decide (ts = "") || bool_decide (ts = "head")) eqn:Hts.
  { exists []. split_and!; [by apply wrote_none|constructor|simpl; lia..|].
    intros k b a []%elem_of_nil. }
  to_prop. destruct (kc_list ns _ w) as [[items|e] w1] eqn:Hl; apply list_law in Hl.
  2: { exists []. split_and!; [by apply wrote_none|constructor|done|]. intros k b a []%elem_of_nil. }
  destruct Hl as (w2&He2&He1&Hnd&Hin).
  destruct (supersede_loop ns cur items 0 w1) as [n w'] eqn:Hloop.
  apply supersede_loop_law in Hloop as (tr&Hw&Hf&Hsub&Hn).
  assert (∀ a, a ∈ items → (ns, om_Name (at_Meta a)) = key_of a) as Hkey.
  { intros a (_&Hns&_)%Hin. unfold key_of in *. simpl in Hns. by rewrite Hns. }
  exists tr. split_and!; [eapply Wrote_env_l; [exact _| |exact Hw]; env_chain| |lia|lia|].
  - by eapply filter_keys_NoDup.
  - intros k b a Hx. rewrite Forall_forall in Hf.
    destruct (Hf _ Hx) as (prior&Hp&(?&?&?&?&?&?)%supersedable_spec&Hk&Hr). simpl in *.
    rewrite Hkey in Hk by done. subst k. apply Hin in Hp as (?&?&Hlab).
    apply bool_decide_eq_true in Hlab. exists cur, prior, w2. split_and!; try done. set_solver.
Qed.

(** Collection deletes only dead records: every deletion of [GCAttempts] is
    of an attempt of the namespace that the listing showed to be statusless or
    terminal, stamped, older than its bound (the retention, or at most a day
    for a statusless one) and without a live claim; none is deleted twice; and
    when no error is returned the count is that of all such attempts listed. *)
Theorem GCAttempts_spec ns olderThan (w : W) :
  let '(gc, err, w') := GCAttempts ns olderThan w in
  ∃ tr, wrote tr w w' ∧ NoDup (tr.*1.*1)
  ∧ (∀ k b a, (k, b, a) ∈ tr → a = None ∧ ∃ x w1 w2,
       kc_env w w1 ∧ kc_env w1 w2 ∧ kc_obj w1 k = Some x ∧ k.1 = ns
       ∧ st_Phase (at_Status x) ∈ [""; AttemptPhaseValidated; AttemptPhaseSuperseded; AttemptPhaseFailed]
       ∧ om_CreationTimestamp (at_Meta x) ≠ 0
       ∧ om_CreationTimestamp (at_Meta x)
           ≤ kc_now w2 - (if decide (st_Phase (at_Status x) = "")
                          then gc_statusless_bound olderThan else olderThan)
       ∧ live_claim (at_Status x) = false)
  ∧ (err = None → ∃ w1 w2 l, kc_env w w1 ∧ kc_env w1 w2
       ∧ (∀ x, x ∈ l ↔ kc_obj w1 (key_of x) = Some x ∧ (key_of x).1 = ns)
       ∧ gc = Z.of_nat (length (filter (λ x, collectable (kc_now w2 - olderThan)
                                  (kc_now w2 - gc_statusless_bound olderThan) x = true) l))
       ∧ (length tr ≤ Z.to_nat gc)%nat).
Proof.
  unfold GCAttempts. destruct (kc_list ns _ w) as [[items|e] w1] eqn:Hl; apply list_law in Hl.
  2: { exists []. split_and!; [by apply wrote_none|constructor| |done]. intros k b a []%elem_of_nil. }
  destruct Hl as (w2&He2&He1&Hnd&Hin).
  set (cut := kc_now w1 - olderThan). set (cut' := kc_now w1 - gc_statusless_bound olderThan).
  destruct (gc_loop cut cut' items 0 None w1) as [[gc err] w'] eqn:Hloop.
  apply gc_loop_law in Hloop as (tr&Hw&Hf&Hsub&Hn). exists tr.
  split_and!; [eapply Wrote_env_l; [exact _| |exact Hw]; env_chain| | |].
  - by eapply filter_keys_NoDup.
  - intros k b a Hx. rewrite Forall_forall in Hf.
    destruct (Hf _ Hx) as (Ha&x&Hxi&(?&?&?&?)%collectable_spec&Hk). simpl in *. subst.
    split; [done|]. apply Hin in Hxi as (?&?&_). exists x, w2, w1. split_and!; try done.
    unfold cut, cut' in *. by case_decide.
  - intros He. destruct err; [done|]. destruct (Hn eq_refl) as [_ ->]. exists w2, w1, items.
    split_and!; try done.
    + intros x. rewrite Hin. naive_solver.
    + apply sublist_length in Hsub. rewrite !length_fmap in Hsub. lia.
Qed.
End laws.

(** ** The theorems at concrete clusters *)

Definition live_review : ReviewClaimStatus :=
  {| rv_PR := "7"; rv_HeadSHA := "abc"; rv_Label := "needs-review"; rv_ArmedSince := Some 5;
     rv_DispatchedAt := None; rv_DispatchedJob := ""; rv_Released := false;
     rv_ReleaseReason := ""; rv_DeadDispatches := 0; rv_DispatchLostReleases := 0;
     rv_LastDispatchLostAt := None; rv_DismissedAt := None; rv_HoldNote := ""; rv_HoldCause := "" |}.

Definition reconciling : AttemptStatus := set_Phase AttemptPhaseReconciling zero_status.
Definition armed : AttemptStatus := set_Review (Some live_review) reconciling.

(** Another writer lands between the read and the patch: one conflict, one retry. *)
Definition raced : Cluster :=
  sample_cluster 9 [Idle; WriteStatus ("ns", "a") armed] [sample_attempt "a" "abc" ∅ reconciling].

Lemma patchAttemptStatus_atomic_witness :
  let '(r, (_, w')) := patchAttemptStatus "ns" "a" (λ t (c : Z) s, (run_started t "run-1" s, c + 1)) 0 raced in
  r = Ok tt
  ∧ (st_Review ∘ at_Status <$> cluster_obj w' ("ns", "a")) = Some (Some live_review)
  ∧ ∃ tr, Wrote cluster_obj cluster_env tr raced w' ∧ length tr = 1%nat.
Proof.
  pose proof (patchAttemptStatus_atomic "ns" "a"
    (λ t (c : Z) s, (run_started t "run-1" s, c + 1)) 0 raced) as Hp.
  destruct (patchAttemptStatus _ _ _ _ _) as [r [c w']] eqn:Hr.
  assert (match patchAttemptStatus "ns" "a" (λ t (c : Z) s, (run_started t "run-1" s, c + 1)) 0 raced with
          | (r, (_, w')) => (r, st_Review ∘ at_Status <$> cluster_obj w' ("ns", "a"))
          end = (Ok tt, Some (Some live_review))) as Hv by (vm_compute; reflexivity).
  rewrite Hr in Hv. injection Hv as -> Hst.
  split_and!; [done|exact Hst|]. destruct Hp as (tr&Hw&(c0&_&t&cur&rv&_&->)&_).
  eexists. split; [exact Hw|done].
Defined.

Lemma RecordRunOutcome_recorded_witness :
  is_ok (RecordRunOutcome "ns" "a" one_outcome raced).1 = true
  ∧ ∃ cur new, Wrote cluster_obj cluster_env [(("ns", "a"), Some cur, Some new)] raced
                 (RecordRunOutcome "ns" "a" one_outcome raced).2
               ∧ st_Phase (at_Status new) = AttemptPhaseReconciling.
Proof.
  split; [vm_compute; reflexivity|].
  destruct (RecordRunOutcome_recorded "ns" "a" one_outcome raced) as (cur&new&?&?&_);
    [vm_compute; reflexivity|]. by exists cur, new.
Defined.

Definition sample_options : ResolveOptions :=
  {| op_Namespace := "ns"; op_WorkflowRef := "ns/wf"; op_Owner := None; op_Scheme := false |}.

Lemma ResolveOrCreate_spec_witness :
  let '(r, w') := ResolveOrCreate (λ _ _, None) (sample_objective "abc") sample_options (sample_cluster 9 [] []) in
  ∃ a, r = Ok (a, true)
  ∧ key_of a = ("ns", AttemptName (ownerName sample_options) (Identity (sample_objective "abc")))
  ∧ ∃ tr, Wrote cluster_obj cluster_env tr (sample_cluster 9 [] []) w' ∧ length tr = 1%nat.
Proof.
  pose proof (ResolveOrCreate_spec (λ _ _, None) (sample_objective "abc") sample_options
    (sample_cluster 9 [] [])) as Hp. cbv zeta in Hp.
  destruct (ResolveOrCreate _ _ _ _) as [r w'] eqn:Hr.
  assert (match ResolveOrCreate (λ _ _, None) (sample_objective "abc") sample_options
            (sample_cluster 9 [] []) with (Ok (_, b), _) => b | _ => false end = true) as Hok
    by (vm_compute; reflexivity).
  rewrite Hr in Hok.
  destruct r as [[a []]|]; [|done..]. destruct Hp as (tr&Hw&Hk&_&rv&t&->).
  exists a. split_and!; [done|exact Hk|]. eexists. split; [exact Hw|done].
Defined.

Definition labelled : gmap string string := {[WorkflowLabel := "wf"]}.

Definition two_heads : Cluster :=
  sample_cluster 9 [] [sample_attempt "a" "old" labelled reconciling;
                       sample_attempt "b" "new" labelled reconciling].

Lemma SupersedePriorAttempts_spec_witness :
  let '(r, w') := SupersedePriorAttempts "ns" "wf" (Some (sample_attempt "b" "new" labelled reconciling)) two_heads in
  r = Ok 1 ∧ (st_Phase ∘ at_Status <$> cluster_obj w' ("ns", "a")) = Some AttemptPhaseSuperseded
  ∧ ∃ tr, Wrote cluster_obj cluster_env tr two_heads w' ∧ (1 ≤ length tr)%nat.
Proof.
  pose proof (SupersedePriorAttempts_spec "ns" "wf"
    (Some (sample_attempt "b" "new" labelled reconciling)) two_heads) as Hp.
  destruct (SupersedePriorAttempts _ _ _ _) as [r w'] eqn:Hr.
  assert (match SupersedePriorAttempts "ns" "wf"
            (Some (sample_attempt "b" "new" labelled reconciling)) two_heads with
          | (r, w') => (r, st_Phase ∘ at_Status <$> cluster_obj w' ("ns", "a"))
          end = (Ok 1, Some AttemptPhaseSuperseded)) as Hv by (vm_compute; reflexivity).
  rewrite Hr in Hv. injection Hv as -> Hst.
  split_and!; [done|exact Hst|]. destruct Hp as (tr&Hw&_&Hn&_). exists tr. split; [exact Hw|lia].
Defined.

Definition old_records : Cluster :=
  sample_cluster (100 * gc_day) []
    [sample_attempt "a" "old" labelled (set_Phase AttemptPhaseValidated zero_status);
     sample_attempt "b" "new" labelled (set_Phase AttemptPhaseFailed armed)].

Lemma GCAttempts_spec_witness :
  let '(gc, err, w') := GCAttempts "ns" (30 * gc_day) old_records in
  (gc, err) = (1, None) ∧ cluster_obj w' ("ns", "a") = None ∧ is_Some (cluster_obj w' ("ns", "b"))
  ∧ ∃ tr, Wrote cluster_obj cluster_env tr old_records w' ∧ (length tr ≤ 1)%nat.
Proof.
  pose proof (GCAttempts_spec "ns" (30 * gc_day) old_records) as Hp.
  destruct (GCAttempts _ _ _) as [[gc err] w'] eqn:Hr.
  assert (match GCAttempts "ns" (30 * gc_day) old_records with
          | (gc, err, w') => (gc, err, cluster_obj w' ("ns", "a"),
                              bool_decide (is_Some (cluster_obj w' ("ns", "b"))))
          end = (1, None, None, true)) as Hv by (vm_compute; reflexivity).
  rewrite Hr in Hv. injection Hv as -> -> Ha Hb.
  apply bool_decide_eq_true in Hb. split_and!; [done..|].
  destruct Hp as (tr&Hw&_&_&Hn). destruct (Hn eq_refl) as (w1&w2&l&_&_&_&_&Hlen).
  exists tr. split; [exact Hw|exact Hlen].
Defined.

(** The guard of [GCAttempts] is evaluated on the listing, and the deletion
    carries no precondition: an attempt armed again in between is deleted with
    its live claim. *)
Lemma gc_deletes_rearmed :
  let c := sample_cluster (100 * gc_day) [Idle; WriteStatus ("ns", "a") armed]
    [sample_attempt "a" "old" labelled (set_Phase AttemptPhaseValidated zero_status)] in
  let '(gc, err, w') := GCAttempts "ns" (30 * gc_day) c in
  (gc, err) = (1, None) ∧ cluster_obj w' ("ns", "a") = None
  ∧ (live_claim ∘ at_Status <$> cluster_obj (others_step (others_step c)) ("ns", "a")) = Some true.
Proof. vm_compute. auto. Qed.

(** So is the guard of [SupersedePriorAttempts]: its patch rereads the object
    but not the guard, and supersedes an attempt validated in between. *)
Lemma supersede_overwrites_validated :
  let c := sample_cluster 9 [Idle; WriteStatus ("ns", "a") (set_Phase AttemptPhaseValidated zero_status)]
    [sample_attempt "a" "old" labelled reconciling] in
  let '(r, w') := SupersedePriorAttempts "ns" "wf"
                    (Some (sample_attempt "b" "new" labelled reconciling)) c in
  r = Ok 1
  ∧ (st_Phase ∘ at_Status <$> cluster_obj (others_step (others_step c)) ("ns", "a"))
    = Some AttemptPhaseValidated
  ∧ (st_Phase ∘ at_Status <$> cluster_obj w' ("ns", "a")) = Some AttemptPhaseSuperseded.
Proof. vm_compute. auto. Qed.
