(* ===== verification/ReviewClaim.v ===== *)
(** * Review claims ([internal/attempt/claim.go])

    The claim the review gate holds on an Attempt: armed, dispatched, released,
    revived. The closures that mutate a status are pure functions here
    ([arm_status], [release_status], ...); the operations run them through the
    store's write primitive, and keep the release marker, a label, in step. *)

From S2P Require Import Prelude GoTime Api ReviewReady AttemptName Ledger Kube AttemptStore.

(** ** Field assignments of the claim *)

Definition set_pointer (pr headSHA label : string) (r : ReviewClaimStatus) : ReviewClaimStatus :=
  {| rv_PR := pr; rv_HeadSHA := headSHA; rv_Label := label; rv_ArmedSince := rv_ArmedSince r;
     rv_DispatchedAt := rv_DispatchedAt r; rv_DispatchedJob := rv_DispatchedJob r;
     rv_Released := rv_Released r; rv_ReleaseReason := rv_ReleaseReason r;
     rv_DeadDispatches := rv_DeadDispatches r; rv_DispatchLostReleases := rv_DispatchLostReleases r;
     rv_LastDispatchLostAt := rv_LastDispatchLostAt r; rv_DismissedAt := rv_DismissedAt r;
     rv_HoldNote := rv_HoldNote r; rv_HoldCause := rv_HoldCause r |}.

Definition set_ArmedSince (t : option Z) (r : ReviewClaimStatus) : ReviewClaimStatus :=
  {| rv_PR := rv_PR r; rv_HeadSHA := rv_HeadSHA r; rv_Label := rv_Label r; rv_ArmedSince := t;
     rv_DispatchedAt := rv_DispatchedAt r; rv_DispatchedJob := rv_DispatchedJob r;
     rv_Released := rv_Released r; rv_ReleaseReason := rv_ReleaseReason r;
     rv_DeadDispatches := rv_DeadDispatches r; rv_DispatchLostReleases := rv_DispatchLostReleases r;
     rv_LastDispatchLostAt := rv_LastDispatchLostAt r; rv_DismissedAt := rv_DismissedAt r;
     rv_HoldNote := rv_HoldNote r; rv_HoldCause := rv_HoldCause r |}.

Definition set_dispatch (t : option Z) (job : string) (r : ReviewClaimStatus) : ReviewClaimStatus :=
  {| rv_PR := rv_PR r; rv_HeadSHA := rv_HeadSHA r; rv_Label := rv_Label r;
     rv_ArmedSince := rv_ArmedSince r; rv_DispatchedAt := t; rv_DispatchedJob := job;
     rv_Released := rv_Released r; rv_ReleaseReason := rv_ReleaseReason r;
     rv_DeadDispatches := rv_DeadDispatches r; rv_DispatchLostReleases := rv_DispatchLostReleases r;
     rv_LastDispatchLostAt := rv_LastDispatchLostAt r; rv_DismissedAt := rv_DismissedAt r;
     rv_HoldNote := rv_HoldNote r; rv_HoldCause := rv_HoldCause r |}.

Definition set_release (b : bool) (reason : string) (r : ReviewClaimStatus) : ReviewClaimStatus :=
  {| rv_PR := rv_PR r; rv_HeadSHA := rv_HeadSHA r; rv_Label := rv_Label r;
     rv_ArmedSince := rv_ArmedSince r; rv_DispatchedAt := rv_DispatchedAt r;
     rv_DispatchedJob := rv_DispatchedJob r; rv_Released := b; rv_ReleaseReason := reason;
     rv_DeadDispatches := rv_DeadDispatches r; rv_DispatchLostReleases := rv_DispatchLostReleases r;
     rv_LastDispatchLostAt := rv_LastDispatchLostAt r; rv_DismissedAt := rv_DismissedAt r;
     rv_HoldNote := rv_HoldNote r; rv_HoldCause := rv_HoldCause r |}.

Definition set_DeadDispatches (n : Z) (r : ReviewClaimStatus) : ReviewClaimStatus :=
  {| rv_PR := rv_PR r; rv_HeadSHA := rv_HeadSHA r; rv_Label := rv_Label r;
     rv_ArmedSince := rv_ArmedSince r; rv_DispatchedAt := rv_DispatchedAt r;
     rv_DispatchedJob := rv_DispatchedJob r; rv_Released := rv_Released r;
     rv_ReleaseReason := rv_ReleaseReason r; rv_DeadDispatches := n;
     rv_DispatchLostReleases := rv_DispatchLostReleases r;
     rv_LastDispatchLostAt := rv_LastDispatchLostAt r; rv_DismissedAt := rv_DismissedAt r;
     rv_HoldNote := rv_HoldNote r; rv_HoldCause := rv_HoldCause r |}.

Definition set_lost (n : Z) (t : option Z) (r : ReviewClaimStatus) : ReviewClaimStatus :=
  {| rv_PR := rv_PR r; rv_HeadSHA := rv_HeadSHA r; rv_Label := rv_Label r;
     rv_ArmedSince := rv_ArmedSince r; rv_DispatchedAt := rv_DispatchedAt r;
     rv_DispatchedJob := rv_DispatchedJob r; rv_Released := rv_Released r;
     rv_ReleaseReason := rv_ReleaseReason r; rv_DeadDispatches := rv_DeadDispatches r;
     rv_DispatchLostReleases := n; rv_LastDispatchLostAt := t; rv_DismissedAt := rv_DismissedAt r;
     rv_HoldNote := rv_HoldNote r; rv_HoldCause := rv_HoldCause r |}.

Definition set_DismissedAt (t : option Z) (r : ReviewClaimStatus) : ReviewClaimStatus :=
  {| rv_PR := rv_PR r; rv_HeadSHA := rv_HeadSHA r; rv_Label := rv_Label r;
     rv_ArmedSince := rv_ArmedSince r; rv_DispatchedAt := rv_DispatchedAt r;
     rv_DispatchedJob := rv_DispatchedJob r; rv_Released := rv_Released r;
     rv_ReleaseReason := rv_ReleaseReason r; rv_DeadDispatches := rv_DeadDispatches r;
     rv_DispatchLostReleases := rv_DispatchLostReleases r;
     rv_LastDispatchLostAt := rv_LastDispatchLostAt r; rv_DismissedAt := t;
     rv_HoldNote := rv_HoldNote r; rv_HoldCause := rv_HoldCause r |}.

Definition set_hold (note cause : string) (r : ReviewClaimStatus) : ReviewClaimStatus :=
  {| rv_PR := rv_PR r; rv_HeadSHA := rv_HeadSHA r; rv_Label := rv_Label r;
     rv_ArmedSince := rv_ArmedSince r; rv_DispatchedAt := rv_DispatchedAt r;
     rv_DispatchedJob := rv_DispatchedJob r; rv_Released := rv_Released r;
     rv_ReleaseReason := rv_ReleaseReason r; rv_DeadDispatches := rv_DeadDispatches r;
     rv_DispatchLostReleases := rv_DispatchLostReleases r;
     rv_LastDispatchLostAt := rv_LastDispatchLostAt r; rv_DismissedAt := rv_DismissedAt r;
     rv_HoldNote := note; rv_HoldCause := cause |}.

(** [if s.Review == nil { s.Review = &ReviewClaimStatus{} }] *)
Definition review_of (s : AttemptStatus) : ReviewClaimStatus := default zero_review (st_Review s).

(** ** The mutations *)

(** The closure of [ArmClaim]; [now] was read before it. *)
Definition arm_review (now : Z) (pr headSHA label : string) (humanRequest budgetExpiry : bool)
    (r : ReviewClaimStatus) : ReviewClaimStatus :=
  let sameClaim := bool_decide (rv_PR r = pr) && bool_decide (rv_HeadSHA r = headSHA) in
  let wasReleased := rv_Released r in
  let wasHorizon := bool_decide (rv_ReleaseReason r = ReleaseReasonHorizon) in
  let wasDispatchLost := bool_decide (rv_ReleaseReason r = ReleaseReasonDispatchLost) in
  let r := set_pointer pr headSHA label r in
  let r := if negb sameClaim || bool_decide (rv_ArmedSince r = None) || wasHorizon
              || (humanRequest && wasDispatchLost)
           then set_ArmedSince (Some now) r else r in
  let r := if wasReleased then set_dispatch None (rv_DispatchedJob r) r else r in
  let r := if negb sameClaim || humanRequest || budgetExpiry
           then set_lost 0 (rv_LastDispatchLostAt r) (set_DeadDispatches 0 r) else r in
  set_release false "" r.

Definition arm_status (now : Z) (pr headSHA label : string) (humanRequest budgetExpiry : bool)
    (s : AttemptStatus) : AttemptStatus :=
  let s := if decide (st_Phase s = "") then set_Phase AttemptPhaseReconciling s else s in
  let s := set_Review (Some (arm_review now pr headSHA label humanRequest budgetExpiry (review_of s))) s in
  if bool_decide (st_Phase s = AttemptPhaseFailed) || bool_decide (st_Phase s = AttemptPhaseValidated)
     || bool_decide (st_Phase s = AttemptPhaseSuperseded)
  then set_Message "" (set_Phase AttemptPhaseReconciling s) else s.

Definition intent_status (t : Z) (s : AttemptStatus) : AttemptStatus :=
  let r := review_of s in
  let r := set_dispatch (Some t) (rv_DispatchedJob r) r in
  set_Review (Some (set_lost 0 (rv_LastDispatchLostAt r) r)) s.

Definition dispatched_status (jobName : string) (t : Z) (s : AttemptStatus) : AttemptStatus :=
  let r := set_dispatch (Some t) jobName (review_of s) in
  set_Review (Some (set_lost 0 (rv_LastDispatchLostAt r) r)) s.

Definition release_status (reason : string) (t : Z) (s : AttemptStatus) : AttemptStatus :=
  let r := set_release true reason (review_of s) in
  let r := if decide (reason = ReleaseReasonDispatchLost)
           then set_lost (rv_DispatchLostReleases r + 1) (Some t) r else r in
  let r := if decide (reason = ReleaseReasonHorizon) then set_DismissedAt (Some t) r else r in
  let s := set_Review (Some r) s in
  if decide (reason = "consumed") then set_Phase AttemptPhaseValidated s
  else if decide (reason = ReleaseReasonSuperseded) then set_Phase AttemptPhaseSuperseded s
  else s.

Definition run_open (r : RunRecord) : bool :=
  bool_decide (rr_Phase r = "") || bool_decide (rr_Phase r = "running").

Definition finalize_run (now : Z) (r : RunRecord) : RunRecord :=
  if run_open r
  then {| rr_Name := rr_Name r; rr_StartedAt := rr_StartedAt r; rr_EndedAt := now; rr_Phase := "failed" |}
  else r.

Definition finalizeRunningRuns (now : Z) (s : AttemptStatus) : AttemptStatus * bool :=
  (set_Runs (finalize_run now <$> st_Runs s) (st_CompactedRuns s) s, existsb run_open (st_Runs s)).

(** The closure of [ReleaseClaimDead]; it assigns [recorded] and [deadDispatches]. *)
Definition dead_status (reason : string) (t : Z) (c : bool * Z) (s : AttemptStatus)
    : AttemptStatus * (bool * Z) :=
  let r := review_of s in
  if rv_Released r then (set_Review (Some r) s, (c.1, rv_DeadDispatches r))
  else
    let r := set_release true reason r in
    let '(r, recorded) := match rv_DispatchedAt r with
                          | Some _ => (set_DeadDispatches (rv_DeadDispatches r + 1) r, true)
                          | None => (r, c.1)
                          end in
    let s := (finalizeRunningRuns t (set_Review (Some r) s)).1 in
    let s := if bool_decide (st_Phase s = "") || bool_decide (st_Phase s = AttemptPhaseReconciling)
             then set_Message ("run ended without a verdict (" +:+ reason +:+ ")")
                    (set_Phase AttemptPhaseFailed s)
             else s in
    (s, (recorded, rv_DeadDispatches r)).

Definition cancel_status (reason : string) (t : Z) (s : AttemptStatus) : AttemptStatus :=
  match st_Review s with
  | None => s
  | Some r =>
      if negb (rv_Released r) || negb (IsCancellationRelease (rv_ReleaseReason r)) then s
      else
        let '(s, finalizedRun) := finalizeRunningRuns t s in
        let s := if bool_decide (st_Phase s = "") || bool_decide (st_Phase s = AttemptPhaseReconciling)
                 then set_Phase (if decide (reason = ReleaseReasonSuperseded)
                                 then AttemptPhaseSuperseded else AttemptPhaseFailed) s
                 else s in
        if finalizedRun
        then set_Message ("review cancelled (" +:+ reason +:+ ") — Job deleted before the run bound; the gate finalized this ledger as the death observer") s
        else if decide (st_Message s = "")
        then set_Message ("review cancelled (" +:+ reason +:+ ") — Job deleted after the run had already ended; the run record tells its own story") s
        else s
  end.

Definition hold_status (note cause : string) (s : AttemptStatus) : AttemptStatus :=
  set_Review (Some (set_hold note cause (review_of s))) s.

(** ** Guards *)

Definition DispatchLostWindowOpen (now : Z) (r : option ReviewClaimStatus) (claimAge horizon : Z) : bool :=
  match r with
  | None => false
  | Some r =>
      let sinceNewest := match rv_LastDispatchLostAt r with
                         | Some t => time_Sub now t
                         | None => claimAge
                         end in
      sinceNewest <? horizon
  end.

Definition shortSHA (sha : string) : string := if 8 <? slen sha then str_take 8 sha else sha.

Definition same_claim (pr headSHA : string) (r : ReviewClaimStatus) : bool :=
  bool_decide (rv_PR r = pr) && bool_decide (rv_HeadSHA r = headSHA).

Definition claim_age (now : Z) (a : Attempt) : Z :=
  if time_IsZero (om_CreationTimestamp (at_Meta a)) then 0
  else time_Sub now (om_CreationTimestamp (at_Meta a)).

(** The churn guard of an automatic arm: a refusal, or the expiry of the budget. *)
Definition churn_guard (now : Z) (gate : option ReviewReadySpec) (headSHA : string) (a : Attempt)
    (r : ReviewClaimStatus) : result Error bool :=
  let window := DispatchLostWindowOpen now (Some r) (claim_age now a) (HorizonDuration gate) in
  let dismissed :=
    match gate, rv_DismissedAt r with
    | Some _, Some t => if time_Sub now t <? HorizonDuration gate then Some t else None
    | _, _ => None
    end in
  match dismissed with
  | Some t => Err (ESentinel (ErrRecentlyDismissed (shortSHA headSHA) (duration_Round (time_Sub now t) Minute)))
  | None =>
      if (MaxDispatchLostReleases <=? rv_DispatchLostReleases r) && window
      then Err (ESentinel (ErrChurnBudgetExhausted (shortSHA headSHA) (rv_DispatchLostReleases r)))
      else Ok ((0 <? rv_DispatchLostReleases r) && negb window)
  end.

(** The breaker, read off the resolved attempt. *)
Definition breaker_open (pr headSHA : string) (humanRequest : bool) (a : Attempt) : option Z :=
  match st_Review (at_Status a) with
  | Some cur =>
      if same_claim pr headSHA cur && (MaxDeadDispatchesPerHead <=? rv_DeadDispatches cur)
         && negb humanRequest
      then Some (rv_DeadDispatches cur) else None
  | None => None
  end.

Section claims.
Context {W : Type} `{KubeClient W} `{RetryOnConflict}.

(** ** The marker *)

Definition mark_released_body (namespace name : string) : W → result Error unit * W := λ w,
  match kc_get (namespace, name) w with
  | (Err e, w) => (Err (EKube e), w)
  | (Ok a, w) =>
      let ls := om_Labels (at_Meta a) in
      if has_label ReviewClaimLabel ReviewClaimReleased ls then (Ok tt, w)
      else match st_Review (at_Status a) with
           | Some r =>
               if rv_Released r then
                 let '(e, w) := kc_patch_labels a (<[ReviewClaimLabel := ReviewClaimReleased]> ls) w in
                 (kube_err e, w)
               else (Ok tt, w)
           | None => (Ok tt, w)
           end
  end.

Definition markClaimReleased (namespace name : string) : M W Error unit :=
  retry (mark_released_body namespace name).

Definition mark_live_body (namespace name : string) : W → result Error unit * W := λ w,
  match kc_get (namespace, name) w with
  | (Err e, w) => (Err (EKube e), w)
  | (Ok a, w) =>
      let ls := om_Labels (at_Meta a) in
      match ls !! ReviewClaimLabel with
      | None => (Ok tt, w)
      | Some _ => let '(e, w) := kc_patch_labels a (delete ReviewClaimLabel ls) w in (kube_err e, w)
      end
  end.

Definition markClaimLive (namespace name : string) : M W Error unit :=
  retry (mark_live_body namespace name).

(** ** Dispatch *)

Definition MarkDispatchIntent (namespace attemptName : string) : M W Error unit :=
  patch_status namespace attemptName intent_status.

Definition MarkClaimDispatched (namespace attemptName jobName : string) : M W Error unit :=
  patch_status namespace attemptName (dispatched_status jobName).

Definition CompleteDispatchEdge (namespace attemptName jobName : string) : M W Error unit := λ w,
  match kc_get (namespace, attemptName) w with
  | (Err e, w) => (Err (EWrap ("get attempt " +:+ attemptName) (EKube e)), w)
  | (Ok a, w) =>
      match st_Review (at_Status a) with
      | Some r => if decide (rv_DispatchedJob r ≠ "") then (Ok tt, w)
                  else MarkClaimDispatched namespace attemptName jobName w
      | None => MarkClaimDispatched namespace attemptName jobName w
      end
  end.

Definition SetClaimHold (namespace attemptName note cause : string) : M W Error bool := λ w,
  match kc_get (namespace, attemptName) w with
  | (Err e, w) => (Err (EWrap ("get attempt " +:+ attemptName) (EKube e)), w)
  | (Ok a, w) =>
      if match st_Review (at_Status a) with
         | Some r => bool_decide (rv_HoldNote r = note) && bool_decide (rv_HoldCause r = cause)
         | None => false
         end
      then (Ok false, w)
      else match patch_status namespace attemptName (λ _, hold_status note cause) w with
           | (Ok _, w) => (Ok true, w)
           | (Err e, w) => (Err e, w)
           end
  end.

(** ** Releases *)

Definition ReleaseClaim (namespace attemptName reason : string) : M W Error unit := λ w,
  match patch_status namespace attemptName (release_status reason) w with
  | (Err e, w) => (Err e, w)
  | (Ok _, w) => markClaimReleased namespace attemptName w
  end.

(** [recorded], [deadDispatches] and the error come back together. *)
Definition ReleaseClaimDead (namespace attemptName reason : string) (w : W)
    : bool * Z * option Error * W :=
  let '(r, (c, w)) := patchAttemptStatus namespace attemptName (dead_status reason) (false, 0) w in
  match r with
  | Err e => (c.1, c.2, Some e, w)
  | Ok _ =>
      if c.1 then
        let '(r, w) := markClaimReleased namespace attemptName w in
        (c.1, c.2, result_err r, w)
      else (c.1, c.2, None, w)
  end.

Definition FinalizeCancelledClaim (namespace attemptName reason : string) : M W Error unit := λ w,
  if negb (IsCancellationRelease reason) then (Ok tt, w)
  else patch_status namespace attemptName (cancel_status reason) w.

(** ** The live list *)

(** [labels.NewRequirement] validates the workflow's name as a label value. *)
Context (label_error : string → option string).

Definition live_selector (workflowName : string) : Selector := λ ls,
  has_label WorkflowLabel workflowName ls && bool_decide (ls !! ReviewClaimLabel = None).

Definition live_for (wf : Workflow) (a : Attempt) : bool :=
  if negb (live_claim (at_Status a)) then false
  else if negb (bool_decide (default "" (om_Labels (at_Meta a) !! ObjectiveKindLabel) = DeriveKind wf))
  then false
  else bool_decide (as_WorkflowRef (at_Spec a)
                    = om_Namespace (wk_Meta wf) +:+ "/" +:+ om_Name (wk_Meta wf)).

Definition LiveReviewClaims (wf : Workflow) : M W Error (list Attempt) := λ w,
  let namespace := om_Namespace (wk_Meta wf) in
  let workflowName := om_Name (wk_Meta wf) in
  match label_error workflowName with
  | Some err => (Err (EWrap "live-claim selector" (EText err)), w)
  | None =>
      match kc_list namespace (live_selector workflowName) w with
      | (Err e, w) => (Err (EWrap "list attempts" (EKube e)), w)
      | (Ok items, w) => (Ok (filter (λ a, live_for wf a = true) items), w)
      end
  end.

(** ** Arming *)

Definition armAbandon (wf : Workflow) (a : Attempt) (created : bool) (armErr : Error) (w : W) : Error * W :=
  if negb created then (armErr, w)
  else
    let name := om_Name (at_Meta a) in
    match kc_delete (om_Namespace (wk_Meta wf), name) w with
    | (Ok _, w) => (armErr, w)
    | (Err e, w) => if IsNotFound e then (armErr, w) else (ENoted armErr name e, w)
    end.

(** The claims the arm supersedes. *)
Definition superseded_by_arm (a : Attempt) (pr : string) (o : Attempt) : bool :=
  if bool_decide (om_Name (at_Meta o) = om_Name (at_Meta a)) then false
  else match st_Review (at_Status o) with Some r => bool_decide (rv_PR r = pr) | None => false end.

Fixpoint release_others (namespace pr : string) (a : Attempt) (others : list Attempt) : M W Error unit := λ w,
  match others with
  | [] => (Ok tt, w)
  | o :: others =>
      if superseded_by_arm a pr o then
        match ReleaseClaim namespace (om_Name (at_Meta o)) ReleaseReasonSuperseded w with
        | (Err e, w) => (Err (EWrap ("supersede " +:+ om_Name (at_Meta o)) e), w)
        | (Ok _, w) => release_others namespace pr a others w
        end
      else release_others namespace pr a others w
  end.

Context (url_path : string → option string) (owner_error : Workflow → string → option string).

Definition claim_options (scheme : bool) (wf : Workflow) : ResolveOptions :=
  {| op_Namespace := om_Namespace (wk_Meta wf);
     op_WorkflowRef := om_Namespace (wk_Meta wf) +:+ "/" +:+ om_Name (wk_Meta wf);
     op_Owner := Some wf; op_Scheme := scheme |}.

Definition claim_objective (wf : Workflow) (headSHA : string) : ObjectiveSpec :=
  DeriveObjective url_path wf {| tc_Revision := headSHA; tc_Source := "webhook" |}.

(** The part after the guards: supersede, break, unmark, stamp. *)
Definition arm_writes (wf : Workflow) (pr headSHA label : string) (humanRequest budgetExpiry : bool)
    (a : Attempt) : M W Error unit := λ w,
  let namespace := om_Namespace (wk_Meta wf) in
  let name := om_Name (at_Meta a) in
  match LiveReviewClaims wf w with
  | (Err e, w) => (Err (EWrap "list live claims" e), w)
  | (Ok others, w) =>
      match release_others namespace pr a others w with
      | (Err e, w) => (Err e, w)
      | (Ok _, w) =>
          match breaker_open pr headSHA humanRequest a with
          | Some deaths => (Err (ESentinel (ErrDeadDispatchBreaker deaths (shortSHA headSHA))), w)
          | None =>
              match markClaimLive namespace name w with
              | (Err e, w) => (Err (EWrap "unmark released claim" e), w)
              | (Ok _, w) =>
                  let now := kc_now w in
                  patch_status namespace name
                    (λ _, arm_status now pr headSHA label humanRequest budgetExpiry) w
              end
          end
      end
  end.

Definition arm_guard (wf : Workflow) (pr headSHA : string) (humanRequest created : bool)
    (a : Attempt) (w : W) : result Error bool :=
  match st_Review (at_Status a) with
  | Some r =>
      if negb humanRequest && (negb created && same_claim pr headSHA r)
      then churn_guard (kc_now w) (wf_ReviewReady (wk_Spec wf)) headSHA a r
      else Ok false
  | None => Ok false
  end.

Definition ArmClaim (scheme : bool) (wf : Workflow) (pr headSHA label : string) (humanRequest : bool)
    : M W Error Attempt := λ w,
  match ResolveOrCreate owner_error (claim_objective wf headSHA) (claim_options scheme wf) w with
  | (Err e, w) => (Err (EWrap "resolve claim attempt" e), w)
  | (Ok (a, created), w) =>
      match arm_guard wf pr headSHA humanRequest created a w with
      | Err e => (Err e, w)
      | Ok budgetExpiry =>
          match arm_writes wf pr headSHA label humanRequest budgetExpiry a w with
          | (Ok _, w) => (Ok a, w)
          | (Err e, w) => let '(e, w) := armAbandon wf a created e w in (Err e, w)
          end
      end
  end.
End claims.

(** ** What the operations write *)

Section laws.
Context {W : Type} `{KubeClient W} `{!ClientLaws W} `{RetryOnConflict} `{!RetryLaws}.

Notation wrote := (Wrote kc_obj kc_env).

(** A label patch commits on the very object it was computed from. *)
Lemma labels_patch_law base f (w0 w : W) r w' :
  kc_env w0 w → kc_obj w0 (key_of base) = Some base →
  kc_patch_labels base (f (om_Labels (at_Meta base))) w = (r, w') →
  ∃ tr, wrote tr w w' ∧ (tr = [] ∧ is_ok r = false ∨
    r ≠ Err Conflict ∧ ∃ rv, tr = [(key_of base, Some base,
      Some (with_rv rv (set_Labels (f (om_Labels (at_Meta base))) base)))]).
Proof.
  intros He Ho Hp. apply labels_law in Hp. cbv zeta in Hp.
  assert (∀ cur rv, rv_of cur = rv_of base → Commit kc_obj kc_env (key_of base) (Some cur)
    (Some (with_rv rv (set_Labels (f (om_Labels (at_Meta base))) cur))) w w' → cur = base) as Hcur.
  { intros cur rv Hrv (wa&wb&Hea&Hcur&_). symmetry.
    eapply (rv_content w0 wa); [env_chain|eassumption|eassumption|done]. }
  assert (kc_env w w' ∧ is_ok r = false ∨ r ≠ Err Conflict ∧ ∃ cur rv, rv_of cur = rv_of base
    ∧ Commit kc_obj kc_env (key_of base) (Some cur)
    (Some (with_rv rv (set_Labels (f (om_Labels (at_Meta base))) cur))) w w') as Hcases.
  { destruct r as [|[]]; try (by left); [by right|..]; (destruct Hp; [by left|by right]). }
  destruct Hcases as [[? ?]|(?&cur&rv&Hrv&HC)].
  - exists []. split; [by apply wrote_none|by left].
  - rewrite (Hcur cur rv Hrv HC) in HC. eexists. split; [by apply Wrote_one; [exact _|]|].
    right. split; [done|by exists rv].
Qed.

(** The release marker set on a released claim, and removed. *)
Definition marks (k : Key) (tr : list (Key * option Attempt * option Attempt)) : Prop :=
  ∃ old rv r, tr = [(k, Some old, Some (with_rv rv (set_Labels
      (<[ReviewClaimLabel := ReviewClaimReleased]> (om_Labels (at_Meta old))) old)))]
    ∧ st_Review (at_Status old) = Some r ∧ rv_Released r = true.

Definition unmarks (k : Key) (tr : list (Key * option Attempt * option Attempt)) : Prop :=
  ∃ old rv, tr = [(k, Some old, Some (with_rv rv (set_Labels
      (delete ReviewClaimLabel (om_Labels (at_Meta old))) old)))].

(** At some instant that others alone can separate from [w], [k] has no marker. *)
Definition unmarked_before (k : Key) (w : W) : Prop :=
  ∃ w1 a, kc_obj w1 k = Some a ∧ om_Labels (at_Meta a) !! ReviewClaimLabel = None ∧ kc_env w1 w.

Lemma markClaimReleased_law ns name (w : W) r w' :
  markClaimReleased ns name w = (r, w') →
  ∃ tr, wrote tr w w' ∧ (tr = [] ∨ marks (ns, name) tr).
Proof.
  intros Hr. unfold markClaimReleased in Hr.
  eapply (retry_wrote _ _ _ (λ _ _ tr _, tr = [] ∨ marks (ns, name) tr)) in Hr; [done|auto|].
  clear. intros w r w'. unfold mark_released_body.
  assert (∀ w1 : W, wrote [] w w1 → r = Ok tt → w1 = w' → ∃ tr, wrote tr w w'
    ∧ (tr = [] ∨ marks (ns, name) tr) ∧ ∀ e, r = Err e → is_conflict e = true → tr = []) as Hnone.
  { intros w1 ? -> <-. exists []. by auto. }
  destruct (kc_get (ns, name) w) as [[a|e] w1] eqn:Hg.
  2: { intros [= <- <-]. apply get_err in Hg. exists []. by auto. }
  apply get_read in Hg as (Hk&Hw1&w0&He0&Ho&He1).
  destruct (has_label _ _ _); [intros [= <- <-]; by eapply Hnone|].
  destruct (st_Review (at_Status a)) as [rv|] eqn:Hrv; [|intros [= <- <-]; by eapply Hnone].
  destruct (rv_Released rv) eqn:Hrel; [|intros [= <- <-]; by eapply Hnone].
  destruct (kc_patch_labels a _ w1) as [e w2] eqn:Hp. intros [= <- <-].
  apply (labels_patch_law a (<[ReviewClaimLabel := ReviewClaimReleased]>) w0) in Hp as (tr&Hw&Ho'); [|done..].
  exists tr. split; [by eapply (Wrote_app _ _ []); [exact Hw1|exact Hw]|].
  destruct Ho' as [[-> _]|(Hne&v&->)]; [by auto|]. split; [right; exists a, v, rv; by rewrite Hk|].
  intros e' He' Hc. by destruct e as [|[]]; simplify_eq/=.
Qed.

Lemma markClaimLive_law ns name (w : W) r w' :
  markClaimLive ns name w = (r, w') →
  ∃ tr, wrote tr w w' ∧ (tr = [] ∨ unmarks (ns, name) tr)
    ∧ (is_ok r = true → unmarked_before (ns, name) w').
Proof.
  intros Hr. unfold markClaimLive in Hr.
  eapply (retry_wrote _ _ _ (λ r _ tr w', (tr = [] ∨ unmarks (ns, name) tr)
    ∧ (is_ok r = true → unmarked_before (ns, name) w'))) in Hr; [done|auto|].
  clear. intros w r w'. unfold mark_live_body.
  destruct (kc_get (ns, name) w) as [[a|e] w1] eqn:Hg.
  2: { intros [= <- <-]. apply get_err in Hg. exists []. by split_and!; auto. }
  apply get_read in Hg as (Hk&Hw1&w0&He0&Ho&He1).
  destruct (om_Labels (at_Meta a) !! ReviewClaimLabel) as [v|] eqn:Hl.
  2: { intros [= <- <-]. exists []. split_and!; [done|by left| |done]. intros _.
       exists w0, a. by rewrite <- Hk. }
  destruct (kc_patch_labels a _ w1) as [e w2] eqn:Hp. intros [= <- <-].
  apply (labels_patch_law a (delete ReviewClaimLabel) w0) in Hp as (tr&Hw&Ho'); [|done..].
  exists tr. split; [by eapply (Wrote_app _ _ []); [exact Hw1|exact Hw]|].
  destruct Ho' as [[-> Hr]|(Hne&rv&->)].
  { split_and!; [by left| |done]. by destruct e. }
  split_and!.
  - right. exists a, rv. by rewrite Hk.
  - intros _. inversion Hw as [|? ? ? ? ? wm ? HC Hnil]; subst.
    destruct HC as (wa&wb&_&_&Hb&_&Heb). apply wrote_nil_env in Hnil. eexists wb, _.
    rewrite <- Hk. split_and!; [exact Hb|simpl; apply lookup_delete_eq|env_chain].
  - intros e' He' Hc. by destruct e as [|[]]; simplify_eq/=.
Qed.

(** A release of [k]'s claim. *)
Definition releases (reason : string) (k : Key) (tr : list (Key * option Attempt * option Attempt)) : Prop :=
  ∃ t old rv, tr = [(k, Some old,
    Some (with_rv rv (set_Status (compactStatus (release_status reason t (at_Status old))).1 old)))].

Lemma ReleaseClaim_law ns name reason (w : W) r w' :
  ReleaseClaim ns name reason w = (r, w') →
  ∃ tr1 tr2, wrote (tr1 ++ tr2) w w'
    ∧ (tr1 = [] ∧ tr2 = [] ∧ is_ok r = false ∨ releases reason (ns, name) tr1)
    ∧ (tr2 = [] ∨ marks (ns, name) tr2).
Proof.
  unfold ReleaseClaim. destruct (patch_status _ _ _ w) as [r1 w1] eqn:Hp.
  apply patch_status_law in Hp as (tr1&Hw1&Ho).
  assert (tr1 = [] ∧ is_ok r1 = false ∨ releases reason (ns, name) tr1) as Ho'.
  { destruct Ho as [?|(_&t&cur&rv&->)]; [by left|right]. by exists t, cur, rv. }
  clear Ho. destruct r1 as [[]|e].
  - intros Hm. apply markClaimReleased_law in Hm as (tr2&Hw2&?). exists tr1, tr2.
    split_and!; [|destruct Ho' as [[_ ?]|?]; [done|by right]|done].
    eapply (Wrote_app _ _ tr1); [exact Hw1|exact Hw2].
  - intros [= <- <-]. exists tr1, []. rewrite app_nil_r. split_and!; [done| |by left].
    destruct Ho' as [[-> _]|?]; [by left|by right].
Qed.

Lemma ReleaseClaimDead_law ns name reason (w : W) recorded deaths err w' :
  ReleaseClaimDead ns name reason w = (recorded, deaths, err, w') →
  ∃ tr1 tr2, wrote (tr1 ++ tr2) w w' ∧ (tr2 = [] ∨ marks (ns, name) tr2)
    ∧ (tr1 = [] ∧ tr2 = [] ∧ is_Some err ∨
       ∃ t c old rv, (recorded, deaths) = (dead_status reason t c (at_Status old)).2
         ∧ tr1 = [((ns, name), Some old, Some (with_rv rv (set_Status
             (compactStatus (dead_status reason t c (at_Status old)).1).1 old)))]).
Proof.
  unfold ReleaseClaimDead.
  destruct (patchAttemptStatus ns name (dead_status reason) (false, 0) w) as [r [[rec n] w1]] eqn:Hp.
  apply patch_law in Hp as (_&tr1&Hw1&Ho).
  assert (tr1 = [] ∧ is_ok r = false ∨ ∃ t c old rv, (rec, n) = (dead_status reason t c (at_Status old)).2
    ∧ tr1 = [((ns, name), Some old, Some (with_rv rv (set_Status
        (compactStatus (dead_status reason t c (at_Status old)).1).1 old)))]) as Ho'.
  { destruct Ho as [?|(_&c0&_&t&old&rv&?&?)]; [by left|right]. by exists t, c0, old, rv. }
  clear Ho. destruct r as [[]|e]; simpl.
  - destruct Ho' as [[_ ?]|Ho']; [done|]. destruct rec.
    + destruct (markClaimReleased ns name w1) as [r2 w2] eqn:Hm. intros [= <- <- <- <-].
      apply markClaimReleased_law in Hm as (tr2&Hw2&?). exists tr1, tr2.
      split_and!; [eapply (Wrote_app _ _ tr1); [exact Hw1|exact Hw2]|done|by right].
    + intros [= <- <- <- <-]. exists tr1, []. rewrite app_nil_r. split_and!; [done|by left|by right].
  - intros [= <- <- <- <-]. exists tr1, []. rewrite app_nil_r. split_and!; [done|by left|].
    destruct Ho' as [[-> _]|?]; [left; split_and!; by eauto|by right].
Qed.

Lemma live_for_spec wf a :
  live_for wf a = true ↔ live_claim (at_Status a) = true
    ∧ default "" (om_Labels (at_Meta a) !! ObjectiveKindLabel) = DeriveKind wf
    ∧ as_WorkflowRef (at_Spec a) = om_Namespace (wk_Meta wf) +:+ "/" +:+ om_Name (wk_Meta wf).
Proof.
  unfold live_for. destruct (live_claim _); simpl; [|naive_solver].
  repeat case_bool_decide; simpl; naive_solver.
Qed.

Lemma LiveReviewClaims_law label_error wf (w : W) l w' :
  LiveReviewClaims label_error wf w = (Ok l, w') →
  ∃ w1, kc_env w w1 ∧ kc_env w1 w' ∧ NoDup (key_of <$> l)
    ∧ ∀ a, a ∈ l ↔ kc_obj w1 (key_of a) = Some a ∧ (key_of a).1 = om_Namespace (wk_Meta wf)
        ∧ live_selector (om_Name (wk_Meta wf)) (om_Labels (at_Meta a)) = true ∧ live_for wf a = true.
Proof.
  unfold LiveReviewClaims. destruct (label_error _); [done|].
  destruct (kc_list _ _ w) as [[items|e] w1] eqn:Hl; [|done]. intros [= <- <-].
  apply list_law in Hl as (w2&?&?&Hnd&Hin). exists w2. split_and!; [done..| |].
  - by eapply (filter_keys_NoDup key_of key_of (λ a, live_for wf a = true) items).
  - intros a. rewrite list_elem_of_filter, Hin. naive_solver.
Qed.

Lemma LiveReviewClaims_env label_error wf (w : W) r w' :
  LiveReviewClaims label_error wf w = (r, w') → kc_env w w'.
Proof.
  unfold LiveReviewClaims. destruct (label_error _); [by intros [= <- <-]|].
  destruct (kc_list _ _ w) as [[items|e] w1] eqn:Hl; intros [= <- <-]; apply list_law in Hl; [|done].
  destruct Hl as (w2&?&?&_). env_chain.
Qed.

(** A release of another claim on the PR, or its marker. *)
Definition frees (namespace pr : string) (a : Attempt) (others : list Attempt)
    (x : Key * option Attempt * option Attempt) : Prop :=
  ∃ o, o ∈ others ∧ superseded_by_arm a pr o = true ∧ x.1.1 = (namespace, om_Name (at_Meta o))
    ∧ (releases ReleaseReasonSuperseded x.1.1 [x] ∨ marks x.1.1 [x]).

Lemma frees_cons ns pr a o others x : frees ns pr a others x → frees ns pr a (o :: others) x.
Proof. intros (o'&?&?). exists o'. set_solver. Qed.

Lemma release_frees ns pr a o others (w : W) r w' :
  superseded_by_arm a pr o = true →
  ReleaseClaim ns (om_Name (at_Meta o)) ReleaseReasonSuperseded w = (r, w') →
  ∃ tr, wrote tr w w' ∧ Forall (frees ns pr a (o :: others)) tr
    ∧ (is_ok r = true → ∃ x, x ∈ tr ∧ releases ReleaseReasonSuperseded (ns, om_Name (at_Meta o)) [x]).
Proof.
  intros Hs Hr. apply ReleaseClaim_law in Hr as (tr1&tr2&Hw&Ho&Hm). exists (tr1 ++ tr2).
  split; [done|]. set (k := (ns, om_Name (at_Meta o))) in *.
  assert (∀ x, releases ReleaseReasonSuperseded k [x] ∨ marks k [x] → frees ns pr a (o :: others) x) as Hf.
  { intros x Hx. exists o. assert (x.1.1 = k) as Hk.
    { destruct Hx as [(t&old&rv&[= ->])|(old&rv&r0&[= ->]&_)]; done. }
    rewrite Hk. set_solver. }
  split.
  - apply Forall_app. split.
    + destruct Ho as [(->&_)|Ho]; [constructor|]. pose proof Ho as (t&old&rv&->).
      constructor; [|constructor]. apply Hf. by left.
    + destruct Hm as [->|Hm]; [constructor|]. pose proof Hm as (old&rv&r0&->&_).
      constructor; [|constructor]. apply Hf. by right.
  - intros Hok. destruct Ho as [(_&_&?)|Ho]; [congruence|]. pose proof Ho as (t&old&rv&->).
    eexists. split; [|exact Ho]. set_solver.
Qed.

Lemma release_others_law ns pr a others (w : W) r w' :
  release_others ns pr a others w = (r, w') →
  ∃ tr, wrote tr w w' ∧ Forall (frees ns pr a others) tr
    ∧ (is_ok r = true → ∀ o, o ∈ others → superseded_by_arm a pr o = true →
       ∃ x, x ∈ tr ∧ releases ReleaseReasonSuperseded (ns, om_Name (at_Meta o)) [x]).
Proof.
  revert w. induction others as [|o others IH]; intros w; cbn [release_others].
  { intros [= <- <-]. exists []. split_and!; [by apply wrote_none|constructor|].
    by intros _ o ?%elem_of_nil. }
  destruct (superseded_by_arm a pr o) eqn:Hs.
  2: { intros (tr&?&Hf&Hall)%IH. exists tr. split_and!; [done| |].
       - eapply Forall_impl; [exact Hf|]. intros x. apply frees_cons.
       - intros Hok o' [->|?]%elem_of_cons ?; [congruence|auto]. }
  destruct (ReleaseClaim ns _ _ w) as [r1 w1] eqn:Hr.
  apply (release_frees _ _ _ _ others _ _ _ Hs) in Hr as (tr1&Hw1&Hf1&Hx1). destruct r1 as [[]|e].
  2: { intros [= <- <-]. by exists tr1. }
  intros (tr2&Hw2&Hf2&Hall)%IH. exists (tr1 ++ tr2). split_and!.
  - eapply (Wrote_app _ _ tr1); [exact Hw1|exact Hw2].
  - apply Forall_app. split; [done|]. eapply Forall_impl; [exact Hf2|]. intros x. apply frees_cons.
  - intros Hok o' [->|Hin]%elem_of_cons Hs'.
    + destruct (Hx1 eq_refl) as (x&?&?). exists x. set_solver.
    + destruct (Hall Hok o' Hin Hs') as (x&?&?). exists x. set_solver.
Qed.

(** The arm's own write. *)
Definition stamps (pr headSHA label : string) (humanRequest budgetExpiry : bool) (k : Key)
    (tr : list (Key * option Attempt * option Attempt)) : Prop :=
  ∃ now old rv, tr = [(k, Some old, Some (with_rv rv (set_Status
    (compactStatus (arm_status now pr headSHA label humanRequest budgetExpiry (at_Status old))).1 old)))].

(** What precedes the stamp of a successful arm, seen from the world [w'] the
    stamp's request starts in: every other live claim that its own listing
    showed on the PR was released after that listing, and the marker was off. *)
Definition cleared label_error (wf : Workflow) (pr : string) (a : Attempt) (k : Key)
    (tr : list (Key * option Attempt * option Attempt)) (w w' : W) : Prop :=
  unmarked_before k w'
  ∧ ∃ others w1, LiveReviewClaims label_error wf w = (Ok others, w1) ∧ wrote tr w1 w'
    ∧ (∀ o, o ∈ others → superseded_by_arm a pr o = true →
         ∃ x, x ∈ tr ∧ releases ReleaseReasonSuperseded (om_Namespace (wk_Meta wf), om_Name (at_Meta o)) [x]).

Lemma arm_writes_law label_error wf pr sha label human exp a (w : W) r w' :
  arm_writes label_error wf pr sha label human exp a w = (r, w') →
  let k := (om_Namespace (wk_Meta wf), om_Name (at_Meta a)) in
  ∃ tr1 tr2, wrote (tr1 ++ tr2) w w'
    ∧ Forall (λ x, (∃ others, (∀ o, o ∈ others → live_for wf o = true)
                      ∧ frees (om_Namespace (wk_Meta wf)) pr a others x) ∨ unmarks k [x]) tr1
    ∧ (tr2 = [] ∧ is_ok r = false ∨ stamps pr sha label human exp k tr2)
    ∧ (is_ok r = true → breaker_open pr sha human a = None
       ∧ ∃ w1, cleared label_error wf pr a k tr1 w w1 ∧ wrote tr2 w1 w').
Proof.
  cbv zeta. set (k := (_, om_Name (at_Meta a))). unfold arm_writes.
  destruct (LiveReviewClaims label_error wf w) as [[others|e] w1] eqn:Hl.
  2: { intros [= <- <-]. apply LiveReviewClaims_env in Hl. exists [], [].
       split_and!; [by apply wrote_none|constructor|by left|done]. }
  pose proof (LiveReviewClaims_env _ _ _ _ _ Hl) as He1.
  pose proof (LiveReviewClaims_law _ _ _ _ _ Hl) as (wl&_&_&_&Hin).
  destruct (release_others _ pr a others w1) as [r2 w2] eqn:Hro.
  apply release_others_law in Hro as (tr1&Hwl&Hf&Hall).
  assert (wrote tr1 w w2) as Hw1 by (eapply Wrote_env_l; [exact _|exact He1|exact Hwl]).
  assert (Forall (λ x, (∃ others, (∀ o, o ∈ others → live_for wf o = true)
    ∧ frees (om_Namespace (wk_Meta wf)) pr a others x) ∨ unmarks k [x]) tr1) as Hf1.
  { eapply Forall_impl; [exact Hf|]. intros x Hx. left. exists others. split; [|done].
    intros o Ho. apply Hin in Ho. tauto. }
  assert (∀ e w3, kc_env w2 w3 → (Err e, w3) = (r, w') → ∃ tr1 tr2, wrote (tr1 ++ tr2) w w'
    ∧ Forall (λ x, (∃ others, (∀ o, o ∈ others → live_for wf o = true)
                      ∧ frees (om_Namespace (wk_Meta wf)) pr a others x) ∨ unmarks k [x]) tr1
    ∧ (tr2 = [] ∧ is_ok r = false ∨ stamps pr sha label human exp k tr2)
    ∧ (is_ok r = true → breaker_open pr sha human a = None
       ∧ ∃ w1, cleared label_error wf pr a k tr1 w w1 ∧ wrote tr2 w1 w')) as Hstop.
  { intros e w3 He [= <- <-]. exists tr1, []. rewrite app_nil_r.
    split_and!; [eapply Wrote_env_r; [exact _|exact Hw1|exact He]|done|by left|done]. }
  destruct r2 as [[]|e]; [|by apply Hstop].
  destruct (breaker_open pr sha human a) as [deaths|]; [by apply Hstop|].
  destruct (markClaimLive _ _ w2) as [r3 w3] eqn:Hml.
  apply markClaimLive_law in Hml as (trm&Hwm&Hm&Hun). fold k in Hm, Hun.
  assert (wrote (tr1 ++ trm) w w3) as Hw3 by (eapply (Wrote_app _ _ tr1); [exact Hw1|exact Hwm]).
  assert (Forall (λ x, (∃ others, (∀ o, o ∈ others → live_for wf o = true)
    ∧ frees (om_Namespace (wk_Meta wf)) pr a others x) ∨ unmarks k [x]) (tr1 ++ trm)) as Hf3.
  { apply Forall_app. split; [done|]. destruct Hm as [->|Hm]; [constructor|].
    pose proof Hm as (old&rv&->). constructor; [by right|constructor]. }
  destruct r3 as [[]|e].
  2: { intros [= <- <-]. exists (tr1 ++ trm), []. rewrite app_nil_r. split_and!; [done|done|by left|done]. }
  intros Hp. apply patch_status_law in Hp as (tr2&Hw2&Ho). exists (tr1 ++ trm), tr2. split_and!.
  - eapply (Wrote_app _ _ (tr1 ++ trm)); [exact Hw3|exact Hw2].
  - done.
  - destruct Ho as [?|(_&t&old&rv&->)]; [by left|right]. by exists (kc_now w3), old, rv.
  - intros _. split; [done|]. exists w3. split; [|done]. split; [by apply Hun|].
    exists others, w1. split; [done|]. split; [eapply (Wrote_app _ _ tr1); [exact Hwl|exact Hwm]|]. intros o Ho' Hs.
    destruct (Hall eq_refl o Ho' Hs) as (x&?&?). exists x. set_solver.
Qed.

Lemma armAbandon_law wf a created e (w : W) e' w' :
  armAbandon wf a created e w = (e', w') →
  ∃ tr, wrote tr w w' ∧ (tr = [] ∨ ∃ old, tr = [((om_Namespace (wk_Meta wf), om_Name (at_Meta a)), Some old, None)]).
Proof.
  unfold armAbandon. destruct (negb created); [intros [= <- <-]; exists []; split; [by apply wrote_none|by left]|].
  destruct (kc_delete _ w) as [r w1] eqn:Hd. apply delete_law in Hd. cbv zeta in Hd. intros He.
  assert (w1 = w') as <- by (destruct r as [|[]]; simpl in He; congruence).
  assert (kc_env w w1 ∨ ∃ cur, Commit kc_obj kc_env (om_Namespace (wk_Meta wf), om_Name (at_Meta a))
    (Some cur) None w w1) as [?|(cur&HC)] by (destruct r as [|[]]; auto).
  - exists []. split; [by apply wrote_none|by left].
  - eexists. split; [by apply Wrote_one; [exact _|]|]. right. by exists cur.
Qed.

(** ** What arming makes of a claim and of its attempt *)

Definition arms (now : Z) (pr headSHA label : string) (humanRequest budgetExpiry : bool)
    (c c' : ReviewClaimStatus) : Prop :=
  (rv_PR c', rv_HeadSHA c', rv_Label c') = (pr, headSHA, label)
  ∧ rv_Released c' = false ∧ rv_ReleaseReason c' = "" ∧ rv_DismissedAt c' = rv_DismissedAt c
  ∧ rv_DispatchedAt c' = (if rv_Released c then None else rv_DispatchedAt c)
  ∧ (if negb (same_claim pr headSHA c) || humanRequest || budgetExpiry
     then rv_DeadDispatches c' = 0 ∧ rv_DispatchLostReleases c' = 0
     else rv_DeadDispatches c' = rv_DeadDispatches c
          ∧ rv_DispatchLostReleases c' = rv_DispatchLostReleases c)
  ∧ rv_ArmedSince c'
    = (if negb (same_claim pr headSHA c) || bool_decide (rv_ReleaseReason c = ReleaseReasonHorizon)
          || (humanRequest && bool_decide (rv_ReleaseReason c = ReleaseReasonDispatchLost))
       then Some now
       else match rv_ArmedSince c with Some t => Some t | None => Some now end).

Lemma arm_review_arms now pr sha label human exp c : arms now pr sha label human exp c (arm_review now pr sha label human exp c).
Proof.
  unfold arms, arm_review, same_claim. cbv zeta.
  generalize (bool_decide (rv_PR c = pr) && bool_decide (rv_HeadSHA c = sha)) as same.
  generalize (bool_decide (rv_ReleaseReason c = ReleaseReasonHorizon)) as hz.
  generalize (bool_decide (rv_ReleaseReason c = ReleaseReasonDispatchLost)) as lost.
  intros lost hz same.
  change (rv_ArmedSince (set_pointer pr sha label c)) with (rv_ArmedSince c).
  destruct (rv_ArmedSince c) as [t|] eqn:Ha; simpl;
    destruct same, hz, human, lost, exp, (rv_Released c) eqn:Hr; simpl;
    rewrite ?Ha, ?Hr; by split_and!.
Qed.

Lemma arm_status_spec now pr sha label human exp s :
  let s' := arm_status now pr sha label human exp s in
  st_Review s' = Some (arm_review now pr sha label human exp (review_of s))
  ∧ st_Phase s' ∉ [""; AttemptPhaseFailed; AttemptPhaseValidated; AttemptPhaseSuperseded]
  ∧ (st_Runs s', st_NodeResults s', st_Evidence s') = (st_Runs s, st_NodeResults s, st_Evidence s).
Proof.
  cbv zeta. unfold arm_status. destruct (decide (st_Phase s = "")) as [Hp|Hp]; simpl.
  - split_and!; try done. rewrite !not_elem_of_cons. split_and!; try done. apply not_elem_of_nil.
  - destruct (_ || _) eqn:Hb; simpl; split_and!; try done; rewrite !not_elem_of_cons;
      (split_and!; try done; try apply not_elem_of_nil); by to_prop.
Qed.
End laws.
