(* ===== verification/ClaimProps.v ===== *)
(** * What review claims guarantee

    The properties of the claim operations of [ReviewClaim], for any cluster
    that keeps the client's laws: releases and their marker, deaths counted
    once, cancellations, the live list, the guards and the arm. The last part
    runs them on the concrete cluster. *)

From S2P Require Import Prelude GoTime Api ReviewReady AttemptName Ledger Template Kube AttemptStore ReviewClaim.

Section props.
Context {W : Type} `{KubeClient W} `{!ClientLaws W} `{RetryOnConflict} `{!RetryLaws}.

Notation wrote := (Wrote kc_obj kc_env).

(** ** Releases *)

Lemma release_review reason t s :
  let r := review_of s in
  let r' := review_of (release_status reason t s) in
  st_Review (release_status reason t s) = Some r'
  ∧ rv_Released r' = true ∧ rv_ReleaseReason r' = reason
  ∧ (rv_PR r', rv_HeadSHA r', rv_ArmedSince r', rv_DispatchedAt r', rv_DeadDispatches r')
    = (rv_PR r, rv_HeadSHA r, rv_ArmedSince r, rv_DispatchedAt r, rv_DeadDispatches r)
  ∧ rv_DispatchLostReleases r' = rv_DispatchLostReleases r
                                  + (if decide (reason = ReleaseReasonDispatchLost) then 1 else 0)
  ∧ rv_LastDispatchLostAt r' = (if decide (reason = ReleaseReasonDispatchLost) then Some t
                                else rv_LastDispatchLostAt r)
  ∧ rv_DismissedAt r' = (if decide (reason = ReleaseReasonHorizon) then Some t else rv_DismissedAt r).
Proof.
  unfold release_status, review_of. cbv zeta.
  destruct (decide (reason = ReleaseReasonDispatchLost)), (decide (reason = ReleaseReasonHorizon)),
    (decide (reason = "consumed")), (decide (reason = ReleaseReasonSuperseded));
    simpl; split_and!; try done; lia.
Qed.

Lemma release_rest reason t s :
  st_Phase (release_status reason t s)
  = (if decide (reason = "consumed") then AttemptPhaseValidated
     else if decide (reason = ReleaseReasonSuperseded) then AttemptPhaseSuperseded else st_Phase s)
  ∧ (st_Runs (release_status reason t s), st_NodeResults (release_status reason t s),
     st_Evidence (release_status reason t s), st_Message (release_status reason t s))
    = (st_Runs s, st_NodeResults s, st_Evidence s, st_Message s).
Proof. unfold release_status. cbv zeta. by repeat case_decide. Qed.

(** A release frees the claim and records why: a successful [ReleaseClaim]
    first commits one status in which the claim of the object it replaced is
    released with the reason, its pointer, clock, dispatch and deaths kept,
    the dispatch-lost count raised and stamped exactly by a dispatch-lost
    release, the dismissal stamped exactly by a horizon release, and the phase
    moved exactly by consumption and supersession; a failed one may stop short
    of either write. After that at most one write sets the marker, and only on
    an object whose claim is then released; nothing else is written. *)
Theorem ReleaseClaim_spec ns name reason (w : W) :
  let '(r, w') := ReleaseClaim ns name reason w in
  ∃ tr1 tr2, wrote (tr1 ++ tr2) w w' ∧ (tr2 = [] ∨ marks (ns, name) tr2)
  ∧ (tr1 = [] ∧ tr2 = [] ∧ is_ok r = false ∨
     ∃ t old new c c', tr1 = [((ns, name), Some old, Some new)]
       ∧ review_of (at_Status old) = c ∧ st_Review (at_Status new) = Some c'
       ∧ rv_Released c' = true ∧ rv_ReleaseReason c' = reason
       ∧ (rv_PR c', rv_HeadSHA c', rv_ArmedSince c', rv_DispatchedAt c', rv_DeadDispatches c')
         = (rv_PR c, rv_HeadSHA c, rv_ArmedSince c, rv_DispatchedAt c, rv_DeadDispatches c)
       ∧ rv_DispatchLostReleases c' = rv_DispatchLostReleases c
                                      + (if decide (reason = "dispatch-lost") then 1 else 0)
       ∧ rv_LastDispatchLostAt c' = (if decide (reason = "dispatch-lost") then Some t
                                     else rv_LastDispatchLostAt c)
       ∧ rv_DismissedAt c' = (if decide (reason = "horizon") then Some t else rv_DismissedAt c)
       ∧ st_Phase (at_Status new)
         = (if decide (reason = "consumed") then AttemptPhaseValidated
            else if decide (reason = "superseded") then AttemptPhaseSuperseded
            else st_Phase (at_Status old))).
Proof.
  destruct (ReleaseClaim ns name reason w) as [r w'] eqn:Hr.
  apply ReleaseClaim_law in Hr as (tr1&tr2&Hw&Ho&Hm). exists tr1, tr2. split_and!; [done..|].
  destruct Ho as [?|(t&old&rv&->)]; [by left|right].
  pose proof (release_review reason t (at_Status old)) as (Hs&?&?&?&?&?&?). cbv zeta in *.
  destruct (release_rest reason t (at_Status old)) as [Hph _].
  eexists t, old, _, _, _. split; [done|]. split; [done|]. simpl. autorewrite with ledger.
  split; [exact Hs|]. by split_and!.
Qed.

(** ** Deaths *)

Lemma finalized_closed t s : Forall (λ r, run_open r = false) (st_Runs (finalizeRunningRuns t s).1).
Proof.
  simpl. rewrite Forall_forall. intros r (r0&->&_)%list_elem_of_fmap. unfold finalize_run.
  by destruct (run_open r0) eqn:Ho.
Qed.

Lemma finalized_terminal t s : existsb run_open (st_Runs s) = false → (finalizeRunningRuns t s).1 = s.
Proof.
  intros He. unfold finalizeRunningRuns. simpl.
  assert (finalize_run t <$> st_Runs s = st_Runs s) as ->; [|by destruct s].
  induction (st_Runs s) as [|r l IH]; [done|]. simpl in He. apply orb_false_iff in He as [Hr Hl].
  csimpl. rewrite (IH Hl). unfold finalize_run. by rewrite Hr.
Qed.

Lemma orb_bool_decide (P Q : Prop) `{Decision P} `{Decision Q} :
  bool_decide (P ∨ Q) = bool_decide P || bool_decide Q.
Proof. repeat case_bool_decide; simpl; naive_solver. Qed.

(** What the closure of [ReleaseClaimDead] does to a claim, its own captured
    variables aside. *)
Lemma dead_status_spec reason t c s :
  let r := review_of s in
  let '(s', (recorded, deaths)) := dead_status reason t c s in
  let r' := review_of s' in
  st_Review s' = Some r' ∧ deaths = rv_DeadDispatches r' ∧ (rv_DispatchLostReleases r', rv_DismissedAt r')
    = (rv_DispatchLostReleases r, rv_DismissedAt r)
  ∧ if rv_Released r
    then s' = set_Review (Some r) s ∧ recorded = c.1
    else rv_Released r' = true ∧ rv_ReleaseReason r' = reason
      ∧ rv_DeadDispatches r' = rv_DeadDispatches r + (if decide (rv_DispatchedAt r = None) then 0 else 1)
      ∧ (if decide (rv_DispatchedAt r = None) then recorded = c.1 else recorded = true)
      ∧ st_Runs s' = finalize_run t <$> st_Runs s
      ∧ if decide (st_Phase s = "" ∨ st_Phase s = AttemptPhaseReconciling)
        then st_Phase s' = AttemptPhaseFailed
             ∧ st_Message s' = "run ended without a verdict (" +:+ reason +:+ ")"
        else st_Phase s' = st_Phase s ∧ st_Message s' = st_Message s.
Proof.
  cbv zeta. unfold dead_status. destruct (rv_Released (review_of s)) eqn:Hrel; [done|].
  change (rv_DispatchedAt (set_release true reason (review_of s))) with (rv_DispatchedAt (review_of s)).
  destruct (rv_DispatchedAt (review_of s)) as [d|] eqn:Hda; simpl; rewrite <- orb_bool_decide;
    destruct (decide (st_Phase s = "" ∨ st_Phase s = AttemptPhaseReconciling)) as [Hd|Hd];
    [rewrite bool_decide_eq_true_2 by exact Hd|rewrite bool_decide_eq_false_2 by exact Hd
    |rewrite bool_decide_eq_true_2 by exact Hd|rewrite bool_decide_eq_false_2 by exact Hd];
    simpl; split_and!; done || lia.
Qed.

(** One death, from the status it finds to the status it leaves. *)
Definition death_of (reason : string) (t : Z) (s s' : AttemptStatus) (recorded : bool) (deaths : Z) : Prop :=
  let c := review_of s in
  let c' := review_of s' in
  st_Review s' = Some c' ∧ deaths = rv_DeadDispatches c'
  ∧ (rv_DispatchLostReleases c', rv_DismissedAt c') = (rv_DispatchLostReleases c, rv_DismissedAt c)
  ∧ if rv_Released c
    then s' = set_Review (Some c) s
    else rv_Released c' = true ∧ rv_ReleaseReason c' = reason
      ∧ rv_DeadDispatches c' = rv_DeadDispatches c + (if decide (rv_DispatchedAt c = None) then 0 else 1)
      ∧ (rv_DispatchedAt c ≠ None → recorded = true)
      ∧ st_Runs s' = finalize_run t <$> st_Runs s ∧ Forall (λ r, run_open r = false) (st_Runs s')
      ∧ (st_Phase s = "" ∨ st_Phase s = AttemptPhaseReconciling → st_Phase s' = AttemptPhaseFailed)
      ∧ (st_Phase s ≠ "" → st_Phase s ≠ AttemptPhaseReconciling →
         st_Phase s' = st_Phase s ∧ st_Message s' = st_Message s).

Lemma dead_status_death reason t c s :
  let '(s', (recorded, deaths)) := dead_status reason t c s in death_of reason t s s' recorded deaths.
Proof.
  pose proof (dead_status_spec reason t c s) as Hs. cbv zeta in Hs.
  destruct (dead_status reason t c s) as [s' [rec n]]. destruct Hs as (?&?&?&Hs).
  split_and!; try done. destruct (rv_Released (review_of s)); [by destruct Hs|].
  destruct Hs as (?&?&?&Hrec&Hruns&Hph). split_and!; try done.
  - intros ?. by rewrite decide_False in Hrec.
  - rewrite Hruns. exact (finalized_closed t s).
  - intros ?. rewrite decide_True in Hph by done. by destruct Hph.
  - intros ? ?. rewrite decide_False in Hph; [done|]. by intros [?|?].
Qed.

(** A death is counted once: [ReleaseClaimDead] writes one status at most,
    and after it at most the marker of a released claim. If the claim it
    replaced was already released the status stays as it was (up to
    compaction), whoever released it, and the call reports that claim's count.
    Otherwise the claim is released with the reason, its breaker count raised
    by one exactly when it had been dispatched, every open run record failed,
    and the phase failed exactly when no terminal phase was there, whose
    message is kept. Neither the dispatch-lost count nor the dismissal moves. *)
Theorem ReleaseClaimDead_counts_once ns name reason (w : W) :
  let '(recorded, deaths, err, w') := ReleaseClaimDead ns name reason w in
  ∃ tr1 tr2, wrote (tr1 ++ tr2) w w' ∧ (tr2 = [] ∨ marks (ns, name) tr2)
  ∧ (tr1 = [] ∧ tr2 = [] ∧ is_Some err ∨
     ∃ t old rv s', tr1 = [((ns, name), Some old, Some (with_rv rv (set_Status (compactStatus s').1 old)))]
       ∧ death_of reason t (at_Status old) s' recorded deaths).
Proof.
  destruct (ReleaseClaimDead ns name reason w) as [[[rec n] err] w'] eqn:Hr.
  apply ReleaseClaimDead_law in Hr as (tr1&tr2&Hw&Hm&Ho). exists tr1, tr2.
  split; [done|]. split; [done|]. destruct Ho as [?|(t&c0&old&rv&Hc&->)]; [by left|right].
  pose proof (dead_status_death reason t c0 (at_Status old)) as Hd.
  destruct (dead_status reason t c0 (at_Status old)) as [s' [rec' n']]. simpl in *.
  injection Hc as -> ->. by exists t, old, rv, s'.
Qed.

(** ** Arming *)

(** The writes an arm of [key] may make. *)
Definition arm_write (pr headSHA label : string) (humanRequest : bool) (key : Key)
    (x : Key * option Attempt * option Attempt) : Prop :=
  (∃ new, x = (key, None, Some new) ∧ at_Status new = zero_status)
  ∨ (∃ old, x = (key, Some old, None))
  ∨ unmarks key [x]
  ∨ (∃ budgetExpiry, stamps pr headSHA label humanRequest budgetExpiry key [x])
  ∨ (∃ o c, st_Review (at_Status o) = Some c ∧ rv_Released c = false ∧ rv_PR c = pr
       ∧ x.1.1 = (key.1, om_Name (at_Meta o)) ∧ x.1.1 ≠ key
       ∧ (releases ReleaseReasonSuperseded x.1.1 [x] ∨ marks x.1.1 [x])).

Lemma frees_arm_write wf pr sha label human a others x :
  (∀ o, o ∈ others → live_for wf o = true) →
  frees (om_Namespace (wk_Meta wf)) pr a others x →
  arm_write pr sha label human (om_Namespace (wk_Meta wf), om_Name (at_Meta a)) x.
Proof.
  intros Hlive (o&Ho&Hs&Hk&Hx). do 4 right. apply Hlive, live_for_spec in Ho as (Hl&_).
  unfold live_claim in Hl. unfold superseded_by_arm in Hs.
  destruct (bool_decide (om_Name (at_Meta o) = om_Name (at_Meta a))) eqn:Hn; [done|].
  destruct (st_Review (at_Status o)) as [c|] eqn:Hc; [|done]. to_prop.
  exists o, c. split_and!; try done. rewrite Hk. by intros [= ?].
Qed.

(** The writes of an arm, and what a success leaves. *)
Lemma ArmClaim_law label_error url_path owner_error scheme wf pr headSHA label human (w : W) :
  let ns := om_Namespace (wk_Meta wf) in
  let key := (ns, AttemptName (om_Name (wk_Meta wf)) (Identity (claim_objective url_path wf headSHA))) in
  let '(r, w') := ArmClaim label_error url_path owner_error scheme wf pr headSHA label human w in
  ∃ tr, wrote tr w w' ∧ Forall (arm_write pr headSHA label human key) tr
  ∧ match r with
    | Err _ => True
    | Ok a => key_of a = key
        ∧ (∀ c, st_Review (at_Status a) = Some c → rv_PR c = pr → rv_HeadSHA c = headSHA →
             human = true ∨ rv_DeadDispatches c < 3)
        ∧ ∃ tr0 tr1 w0 others w1 w2 now expiry old new c',
            tr = tr0 ++ tr1 ++ [(key, Some old, Some new)]
            ∧ wrote tr0 w w0 ∧ LiveReviewClaims label_error wf w0 = (Ok others, w1)
            ∧ wrote tr1 w1 w2 ∧ unmarked_before key w2 ∧ wrote [(key, Some old, Some new)] w2 w'
            ∧ (∀ o c, o ∈ others → st_Review (at_Status o) = Some c → rv_PR c = pr → key_of o ≠ key →
                 ∃ x, x ∈ tr1 ∧ releases ReleaseReasonSuperseded (key_of o) [x])
            ∧ st_Review (at_Status new) = Some c'
            ∧ arms now pr headSHA label human expiry (review_of (at_Status old)) c'
            ∧ st_Phase (at_Status new) ∉ [""; AttemptPhaseFailed; AttemptPhaseValidated; AttemptPhaseSuperseded]
            ∧ om_Labels (at_Meta new) = om_Labels (at_Meta old)
    end.
Proof.
  cbv zeta. set (ns := om_Namespace _). set (key := (ns, _)). unfold ArmClaim.
  destruct (ResolveOrCreate owner_error _ _ w) as [[[a created]|e] w1] eqn:Hr;
    apply ResolveOrCreate_law in Hr as (tr0&Hw0&Hr).
  2: { exists tr0. split_and!; [done| |done]. destruct Hr as [->|(_&rv&t&->)]; [constructor|].
       constructor; [|constructor]. left. by eexists. }
  change (ownerName _) with (om_Name (wk_Meta wf)) in Hr.
  assert (key_of a = key ∧ Forall (arm_write pr headSHA label human key) tr0) as [Hk Hf0].
  { destruct created; [|destruct Hr as (?&->&_); split; [done|constructor]].
    destruct Hr as (?&_&rv&t&->). split; [done|]. constructor; [|constructor]. left. by eexists. }
  clear Hr. assert (om_Name (at_Meta a) = key.2) as Hname by (by rewrite <- Hk).
  destruct (arm_guard wf pr headSHA human created a w1) as [exp|e]; [|by exists tr0].
  destruct (arm_writes label_error wf pr headSHA label human exp a w1) as [r w2] eqn:Haw.
  apply arm_writes_law in Haw as (tr1&tr2&Hw1&Hf1&Hst&Hok). rewrite Hname in *.
  change (om_Namespace (wk_Meta wf), key.2) with key in *.
  assert (Forall (arm_write pr headSHA label human key) (tr0 ++ tr1 ++ tr2)) as Hf.
  { rewrite !Forall_app. split_and!; [done| |].
    - eapply Forall_impl; [exact Hf1|]. intros x [(others&Hl&Hx)|Hx]; [|by right; right; left].
      apply (frees_arm_write wf pr headSHA label human) in Hx; [|done]. by rewrite Hname in Hx.
    - destruct Hst as [[-> _]|Hst]; [constructor|]. pose proof Hst as (?&?&?&->).
      constructor; [|constructor]. do 3 right. left. by exists exp. }
  assert (wrote (tr0 ++ tr1 ++ tr2) w w2) as Hw by (eapply (Wrote_app _ _ tr0); [exact Hw0|exact Hw1]).
  destruct r as [[]|e].
  - destruct Hok as (Hbr&w3&(Hun&others&w4&Hl&Hw3&Hrel)&Hw4); [done|].
    destruct Hst as [[_ ?]|(now&old&rv&->)]; [done|]. exists (tr0 ++ tr1 ++ [(key, Some old, Some (with_rv rv
      (set_Status (compactStatus (arm_status now pr headSHA label human exp (at_Status old))).1 old)))]).
    split; [exact Hw|]. split; [exact Hf|]. split; [done|]. split.
    { intros c Hc Hpr Hsha. unfold breaker_open, same_claim in Hbr. rewrite Hc in Hbr.
      rewrite (bool_decide_eq_true_2 _ Hpr), (bool_decide_eq_true_2 _ Hsha) in Hbr. simpl in Hbr.
      destruct human; [by left|right]. change MaxDeadDispatchesPerHead with 3 in Hbr.
      destruct (3 <=? rv_DeadDispatches c) eqn:Hd; [done|lia]. }
    destruct (arm_status_spec now pr headSHA label human exp (at_Status old)) as (Hrev&Hph&_).
    eexists tr0, tr1, w1, others, w4, w3, now, exp, old, _, _.
    split; [done|]. split; [exact Hw0|]. split; [exact Hl|]. split; [exact Hw3|]. split; [exact Hun|].
    split; [exact Hw4|]. split.
    { intros o c Ho Hc Hpr Hne. pose proof (LiveReviewClaims_law _ _ _ _ _ Hl) as (w6&_&_&_&Hin).
      apply Hin in Ho as Ho'. destruct Ho' as (_&Hns&_).
      assert (key_of o = (ns, om_Name (at_Meta o))) as Hko by (unfold key_of in *; simpl in Hns; by rewrite Hns).
      rewrite Hko. apply (Hrel o Ho). unfold superseded_by_arm.
      rewrite Hc, (bool_decide_eq_true_2 _ Hpr), bool_decide_eq_false_2; [done|].
      intros Heq. apply Hne. by rewrite Hko, Heq, Hname. }
    simpl. autorewrite with ledger. split; [exact Hrev|]. split; [apply arm_review_arms|]. by split.
  - destruct (armAbandon wf a created e w2) as [e' w3] eqn:Hab.
    apply armAbandon_law in Hab as (tr3&Hw3&H3). rewrite Hname in H3. exists ((tr0 ++ tr1 ++ tr2) ++ tr3).
    split; [eapply (Wrote_app _ _ (tr0 ++ tr1 ++ tr2)); [exact Hw|exact Hw3]|]. split; [|done].
    apply Forall_app. split; [done|]. destruct H3 as [->|(old&->)]; [constructor|].
    constructor; [|constructor]. right; left. by exists old.
Qed.

(** C4. Arming an attempt for a pull request. A successful [ArmClaim] hands back
    the attempt of the deterministic name, its breaker closed or overridden,
    and its last write makes that attempt's claim live for the pointer: not
    released, with the dispatch of a released era dropped and that of a live
    one kept, the counters cleared exactly by a new pointer, a human or an
    expired budget, the dismissal kept, the clock restarted exactly where it
    must be, and the phase in flight. The run itself listed the workflow's live
    claims before that, and between the listing and this write it released as
    superseded every other claim of the pull request that the listing shows.
    The marker had been seen off before the write, and the write leaves the
    labels of the version it replaces: another writer that marks the attempt in
    between leaves it hidden from listings ([armed_but_hidden]). Failed or not,
    an arm writes nothing else: it may create or abandon its own object, unmark
    it, stamp it, and release other live claims of the same pull request. *)
Theorem ArmClaim_spec label_error url_path owner_error scheme wf pr headSHA label human (w : W) :
  let ns := om_Namespace (wk_Meta wf) in
  let key := (ns, AttemptName (om_Name (wk_Meta wf)) (Identity (claim_objective url_path wf headSHA))) in
  let '(r, w') := ArmClaim label_error url_path owner_error scheme wf pr headSHA label human w in
  ∃ tr, wrote tr w w' ∧ Forall (arm_write pr headSHA label human key) tr
  ∧ match r with
    | Err _ => True
    | Ok a => key_of a = key
        ∧ (∀ c, st_Review (at_Status a) = Some c → rv_PR c = pr → rv_HeadSHA c = headSHA →
             human = true ∨ rv_DeadDispatches c < 3)
        ∧ ∃ tr0 tr1 w0 others w1 w2 now expiry old new c',
            tr = tr0 ++ tr1 ++ [(key, Some old, Some new)]
            ∧ wrote tr0 w w0 ∧ LiveReviewClaims label_error wf w0 = (Ok others, w1)
            ∧ wrote tr1 w1 w2 ∧ unmarked_before key w2 ∧ wrote [(key, Some old, Some new)] w2 w'
            ∧ (∀ o c, o ∈ others → st_Review (at_Status o) = Some c → rv_PR c = pr → key_of o ≠ key →
                 ∃ x, x ∈ tr1 ∧ releases ReleaseReasonSuperseded (key_of o) [x])
            ∧ st_Review (at_Status new) = Some c'
            ∧ arms now pr headSHA label human expiry (review_of (at_Status old)) c'
            ∧ st_Phase (at_Status new) ∉ [""; AttemptPhaseFailed; AttemptPhaseValidated; AttemptPhaseSuperseded]
            ∧ om_Labels (at_Meta new) = om_Labels (at_Meta old)
    end.
Proof. apply ArmClaim_law. Qed.

(** A horizon dismissal that is still recent, and how old the newest strike is. *)
Definition dismissed_recently (now : Z) (gate : option ReviewReadySpec) (c : ReviewClaimStatus) (t : Z) : Prop :=
  is_Some gate ∧ rv_DismissedAt c = Some t ∧ time_Sub now t < HorizonDuration gate.

Definition newest_strike (now : Z) (a : Attempt) (c : ReviewClaimStatus) : Z :=
  match rv_LastDispatchLostAt c with Some t => time_Sub now t | None => claim_age now a end.

Lemma churn_guard_spec now gate sha a c :
  let fresh := newest_strike now a c < HorizonDuration gate in
  (∀ t, dismissed_recently now gate c t → churn_guard now gate sha a c
     = Err (ESentinel (ErrRecentlyDismissed (shortSHA sha) (duration_Round (time_Sub now t) Minute))))
  ∧ ((∀ t, ¬ dismissed_recently now gate c t) → churn_guard now gate sha a c
     = if decide (3 ≤ rv_DispatchLostReleases c ∧ fresh)
       then Err (ESentinel (ErrChurnBudgetExhausted (shortSHA sha) (rv_DispatchLostReleases c)))
       else Ok (bool_decide (0 < rv_DispatchLostReleases c ∧ ¬ fresh))).
Proof.
  cbv zeta. unfold churn_guard, dismissed_recently. set (horizon := HorizonDuration gate). split.
  - intros t ([g ->]&->&Hlt). apply Z.ltb_lt in Hlt. by rewrite Hlt.
  - intros Hnd.
    assert (match gate, rv_DismissedAt c with
            | Some _, Some t => if time_Sub now t <? horizon then Some t else None
            | _, _ => None end = None) as ->.
    { destruct gate as [g|]; [|done]. destruct (rv_DismissedAt c) as [t|]; [|done].
      destruct (time_Sub now t <? horizon) eqn:Ht; [|done]. apply Z.ltb_lt in Ht. by destruct (Hnd t). }
    change (DispatchLostWindowOpen now (Some c) (claim_age now a) horizon)
      with (newest_strike now a c <? horizon). change MaxDispatchLostReleases with 3.
    generalize (rv_DispatchLostReleases c) as n, (newest_strike now a c) as age. intros n age.
    destruct (decide (3 ≤ n ∧ age < horizon)) as [Hs|Hs].
    + destruct Hs as [H3%Z.leb_le Ha%Z.ltb_lt]. by rewrite H3, Ha.
    + assert ((3 <=? n) && (age <? horizon) = false) as ->.
      { apply not_true_iff_false. rewrite andb_true_iff, Z.leb_le, Z.ltb_lt. done. }
      f_equal. apply eq_true_iff_eq. rewrite bool_decide_eq_true, andb_true_iff, negb_true_iff.
      rewrite Z.ltb_lt, Z.ltb_ge. split; intros [? ?]; split; lia.
Qed.

(** The churn guard refuses exactly on fresh evidence, before any write. For
    an automatic arm of a claim the asking pointer already holds: a horizon
    dismissal inside the operator's window is refused as recently dismissed;
    else three or more never-dispatched releases of which the newest (or, when
    unstamped, the claim itself) is inside the window are refused as an
    exhausted budget; both leave the cluster as it was. Otherwise the guard lets
    the arm through, and lets the budget expire exactly when strikes exist and
    the window is over. A human request, a new object or another pointer meets
    no guard. *)
Theorem ArmClaim_guards label_error url_path owner_error scheme wf pr headSHA label human (w w1 : W) a c :
  let key := (om_Namespace (wk_Meta wf),
              AttemptName (om_Name (wk_Meta wf)) (Identity (claim_objective url_path wf headSHA))) in
  kc_get key w = (Ok a, w1) → st_Review (at_Status a) = Some c →
  let gate := wf_ReviewReady (wk_Spec wf) in
  let fresh := newest_strike (kc_now w1) a c < HorizonDuration gate in
  let arm := ArmClaim label_error url_path owner_error scheme wf pr headSHA label human w in
  let guard := arm_guard wf pr headSHA human false a w1 in
  wrote [] w w1 ∧ (∀ created, arm_guard wf pr headSHA true created a w1 = Ok false)
  ∧ (¬ (rv_PR c = pr ∧ rv_HeadSHA c = headSHA) → guard = Ok false)
  ∧ (human = false → rv_PR c = pr → rv_HeadSHA c = headSHA →
     (∀ t, dismissed_recently (kc_now w1) gate c t → arm = (Err (ESentinel (ErrRecentlyDismissed
        (shortSHA headSHA) (duration_Round (time_Sub (kc_now w1) t) Minute))), w1))
     ∧ ((∀ t, ¬ dismissed_recently (kc_now w1) gate c t) → 3 ≤ rv_DispatchLostReleases c → fresh →
        arm = (Err (ESentinel (ErrChurnBudgetExhausted (shortSHA headSHA) (rv_DispatchLostReleases c))), w1))
     ∧ ((∀ t, ¬ dismissed_recently (kc_now w1) gate c t) → ¬ (3 ≤ rv_DispatchLostReleases c ∧ fresh) →
        guard = Ok (bool_decide (0 < rv_DispatchLostReleases c ∧ ¬ fresh)))).
Proof.
  cbv zeta. intros Hg Hc. set (gate := wf_ReviewReady (wk_Spec wf)).
  split; [by apply get_read in Hg as (?&?&?)|]. split; [intros ?; unfold arm_guard; by rewrite Hc|]. split.
  { intros Hne. unfold arm_guard, same_claim. rewrite Hc. destruct human; [done|].
    destruct (bool_decide (rv_PR c = pr)) eqn:H1', (bool_decide (rv_HeadSHA c = headSHA)) eqn:H2'; try done.
    to_prop. tauto. }
  intros -> Hpr Hsha.
  assert (arm_guard wf pr headSHA false false a w1 = churn_guard (kc_now w1) gate headSHA a c) as Hguard.
  { unfold arm_guard, same_claim. by rewrite Hc, (bool_decide_eq_true_2 _ Hpr), (bool_decide_eq_true_2 _ Hsha). }
  assert (∀ e, churn_guard (kc_now w1) gate headSHA a c = Err e →
    ArmClaim label_error url_path owner_error scheme wf pr headSHA label false w = (Err e, w1)) as Harm.
  { intros e He. unfold ArmClaim, ResolveOrCreate. change (ownerName _) with (om_Name (wk_Meta wf)).
    change (op_Namespace _) with (om_Namespace (wk_Meta wf)). rewrite Hg, Hguard. by rewrite He. }
  destruct (churn_guard_spec (kc_now w1) gate headSHA a c) as [Hdis Hnd]. cbv zeta in Hnd. split_and!.
  - intros t Ht. by apply Harm, Hdis.
  - intros Hn H3 Hf. apply Harm. rewrite (Hnd Hn). by rewrite decide_True.
  - intros Hn Hs. rewrite Hguard, (Hnd Hn). by rewrite decide_False.
Qed.

(** ** The live list *)

(** The live list is exactly the live claims: what [LiveReviewClaims] returns
    is, at one instant of the call, every attempt of the workflow's namespace
    labelled with the workflow, of its objective kind and reference, without
    the release marker and with an unreleased claim, each once and nothing
    else. So a live claim is invisible to the gate only behind a marker. *)
Theorem LiveReviewClaims_exact label_error wf (w : W) l w' :
  LiveReviewClaims label_error wf w = (Ok l, w') →
  ∃ w1, kc_env w w1 ∧ kc_env w1 w' ∧ NoDup (key_of <$> l)
    ∧ ∀ a, a ∈ l ↔
        kc_obj w1 (key_of a) = Some a ∧ (key_of a).1 = om_Namespace (wk_Meta wf)
        ∧ om_Labels (at_Meta a) !! WorkflowLabel = Some (om_Name (wk_Meta wf))
        ∧ om_Labels (at_Meta a) !! ReviewClaimLabel = None
        ∧ (∃ c, st_Review (at_Status a) = Some c ∧ rv_Released c = false)
        ∧ default "" (om_Labels (at_Meta a) !! ObjectiveKindLabel) = DeriveKind wf
        ∧ as_WorkflowRef (at_Spec a) = om_Namespace (wk_Meta wf) +:+ "/" +:+ om_Name (wk_Meta wf).
Proof.
  intros (w1&He1&He2&Hnd&Hin)%LiveReviewClaims_law. exists w1. split_and!; [done..|].
  intros a. rewrite Hin, live_for_spec. unfold live_selector, has_label.
  rewrite andb_true_iff, !bool_decide_eq_true.
  assert (live_claim (at_Status a) = true ↔ ∃ c, st_Review (at_Status a) = Some c ∧ rv_Released c = false) as ->.
  { unfold live_claim. destruct (st_Review (at_Status a)) as [c|]; [|naive_solver].
    rewrite negb_true_iff. naive_solver. }
  tauto.
Qed.

(** ** Cancellation *)

(** What finalizing a cancelled claim makes of a status. *)
Definition cancelled_to (reason : string) (t : Z) (s s' : AttemptStatus) : Prop :=
  st_Review s' = st_Review s
  ∧ if match st_Review s with
       | Some c => rv_Released c && IsCancellationRelease (rv_ReleaseReason c) | None => false end
    then st_Runs s' = finalize_run t <$> st_Runs s ∧ Forall (λ r, run_open r = false) (st_Runs s')
      ∧ st_Phase s' = (if decide (st_Phase s = "" ∨ st_Phase s = AttemptPhaseReconciling)
                       then if decide (reason = "superseded") then AttemptPhaseSuperseded else AttemptPhaseFailed
                       else st_Phase s)
      ∧ (Forall (λ r, run_open r = false) (st_Runs s) → st_Message s ≠ "" → st_Message s' = st_Message s)
      ∧ st_Message s' ≠ ""
    else s' = s.

Lemma cancel_status_spec reason t s : cancelled_to reason t s (cancel_status reason t s).
Proof.
  unfold cancelled_to, cancel_status. destruct (st_Review s) as [c|] eqn:Hc; [|done].
  destruct (rv_Released c); [|done]. destruct (IsCancellationRelease _); [|done]. simpl.
  rewrite <- orb_bool_decide. destruct (existsb run_open (st_Runs s)) eqn:He;
  destruct (decide (st_Phase s = "" ∨ st_Phase s = AttemptPhaseReconciling)) as [Hd|Hd];
    [rewrite bool_decide_eq_true_2 by exact Hd|rewrite bool_decide_eq_false_2 by exact Hd
    |rewrite bool_decide_eq_true_2 by exact Hd|rewrite bool_decide_eq_false_2 by exact Hd]; simpl.
  all: try (split_and!; try done; [apply (finalized_closed t s)|];
    intros Hf _; rewrite Forall_forall in Hf; apply existsb_exists in He as (r&Hr%list_elem_of_In&Ho);
    rewrite (Hf r Hr) in Ho; discriminate).
  all: destruct (decide (st_Message s = "")) as [Hm|Hm]; simpl; split_and!; try done;
    apply (finalized_closed t s).
Qed.

(** Cancelling tells the truth and spends no budget: [FinalizeCancelledClaim]
    writes only for a cancellation reason, at most once, and never changes a
    claim's own record, so no counter moves. An attempt whose claim is not
    released by a cancellation when the write lands, a revived one above all,
    stays as it was. Otherwise every open run is failed, a phase that is not
    terminal becomes superseded or failed by the reason and a terminal one is
    kept, and a message the worker left on closed runs is kept. *)
Theorem FinalizeCancelledClaim_spec ns name reason (w : W) :
  let '(r, w') := FinalizeCancelledClaim ns name reason w in
  ∃ tr, wrote tr w w'
  ∧ (is_ok r = true → IsCancellationRelease reason = true → tr ≠ [])
  ∧ (tr = [] ∨ IsCancellationRelease reason = true ∧ ∃ t old rv s',
       tr = [((ns, name), Some old, Some (with_rv rv (set_Status (compactStatus s').1 old)))]
       ∧ cancelled_to reason t (at_Status old) s').
Proof.
  destruct (FinalizeCancelledClaim ns name reason w) as [r w'] eqn:Hr. unfold FinalizeCancelledClaim in Hr.
  destruct (IsCancellationRelease reason); simpl in Hr.
  2: { injection Hr as <- <-. exists []. split_and!; [by apply wrote_none|done|by left]. }
  apply patch_status_law in Hr as (tr&Hw&Ho). exists tr. split; [done|].
  destruct Ho as [[-> Hr]|(_&t&old&rv&->)]; (split; [intros Hok _; congruence || done|]); [by left|right].
  split; [done|]. eexists t, old, rv, _. split; [done|]. apply cancel_status_spec.
Qed.

(** ** Dispatch *)

(** The ownership edge is completed once: [CompleteDispatchEdge] succeeds
    without writing exactly when the claim it read already names a Job, whatever
    Job that is; otherwise a success is one write that names the given Job,
    stamps the dispatch, ends the chain of lost dispatches and keeps the rest
    of the claim, its release included, and of the attempt. *)
Theorem CompleteDispatchEdge_spec ns name job (w : W) :
  let '(r, w') := CompleteDispatchEdge ns name job w in
  ∃ tr, wrote tr w w'
  ∧ (is_ok r = true → tr = [] → ∃ a c, read_at a w w' ∧ key_of a = (ns, name)
       ∧ st_Review (at_Status a) = Some c ∧ rv_DispatchedJob c ≠ "")
  ∧ (tr = [] ∨ ∃ a w1 t old new c', read_at a w w1 ∧ key_of a = (ns, name)
       ∧ rv_DispatchedJob (review_of (at_Status a)) = ""
       ∧ tr = [((ns, name), Some old, Some new)]
       ∧ let c := review_of (at_Status old) in
         st_Review (at_Status new) = Some c' ∧ st_Phase (at_Status new) = st_Phase (at_Status old)
         ∧ rv_DispatchedJob c' = job ∧ rv_DispatchedAt c' = Some t ∧ rv_DispatchLostReleases c' = 0
         ∧ (rv_PR c', rv_HeadSHA c', rv_Label c', rv_ArmedSince c', rv_Released c', rv_ReleaseReason c',
            rv_DeadDispatches c', rv_LastDispatchLostAt c', rv_DismissedAt c', rv_HoldNote c', rv_HoldCause c')
           = (rv_PR c, rv_HeadSHA c, rv_Label c, rv_ArmedSince c, rv_Released c, rv_ReleaseReason c,
              rv_DeadDispatches c, rv_LastDispatchLostAt c, rv_DismissedAt c, rv_HoldNote c, rv_HoldCause c)).
Proof.
  destruct (CompleteDispatchEdge ns name job w) as [r w'] eqn:Hr. unfold CompleteDispatchEdge in Hr.
  destruct (kc_get (ns, name) w) as [[a|e] w1] eqn:Hg.
  2: { injection Hr as <- <-. apply get_err in Hg. exists []. split_and!; [done|done|by left]. }
  apply get_read in Hg as (Hk&Hw1&Hread).
  assert (∃ b, b = bool_decide (rv_DispatchedJob (review_of (at_Status a)) ≠ "")
    ∧ (if b then (Ok tt, w1) else MarkClaimDispatched ns name job w1) = (r, w')
    ∧ (b = true → ∃ c, st_Review (at_Status a) = Some c ∧ rv_DispatchedJob c ≠ "")) as (b&Hb&Hres&Hc).
  { eexists. split; [done|]. unfold review_of in *. destruct (st_Review (at_Status a)) as [c|]; simpl in *.
    - case_bool_decide as Hj; [rewrite decide_True in Hr by done|rewrite decide_False in Hr by tauto];
        (split; [done|]); [by exists c|done].
    - by split. }
  destruct b.
  - injection Hres as <- <-. exists []. split_and!; [done| |by left]. intros _ _.
    destruct (Hc eq_refl) as (c&?&?). by exists a, c.
  - apply patch_status_law in Hres as (tr&Hw&Ho). exists tr.
    split; [by eapply (Wrote_app _ _ []); [exact Hw1|exact Hw]|].
    destruct Ho as [[-> Hr']|(_&t&old&rv&->)]; (split; [congruence || done|]); [by left|right].
    symmetry in Hb. apply bool_decide_eq_false, dec_stable in Hb.
    eexists a, w1, t, old, _, _. split; [done|]. split; [done|]. split; [done|]. split; [done|]. simpl.
    autorewrite with ledger. split; [done|]. by split_and!.
Qed.
End props.

(** ** The claims of a concrete cluster *)

Definition docs : Workflow := plain_workflow "".

Definition docs_key (sha : string) : Key :=
  ("ns", AttemptName "docs" (Identity (claim_objective (λ _, None) docs sha))).

Definition claim_of (sha : string) (c : ReviewClaimStatus) : Attempt :=
  {| at_Meta := {| om_Name := (docs_key sha).2; om_Namespace := "ns";
                   om_Labels := {[WorkflowLabel := "docs"; ObjectiveKindLabel := DeriveKind docs]};
                   om_CreationTimestamp := 1; om_ResourceVersion := 1; om_UID := "u1" |};
     at_Spec := {| as_Objective := sample_objective sha; as_WorkflowRef := "ns/docs";
                   as_Bindings := []; as_Owner := "" |};
     at_Status := set_Review (Some c) reconciling |}.

Definition arm_docs (pr sha : string) (human : bool) : M Cluster Error Attempt :=
  ArmClaim (λ _, None) (λ _, None) (λ _ _, None) false docs pr sha "needs-review" human.

Definition live_names (c : Cluster) : list string :=
  match (LiveReviewClaims (λ _, None) docs c).1 with
  | Ok l => (λ a, om_Name (at_Meta a)) <$> l
  | Err _ => []
  end.

Definition claim_at (c : Cluster) (k : Key) : option ReviewClaimStatus :=
  a ← cluster_obj c k; st_Review (at_Status a).

Definition running : AttemptStatus :=
  set_Runs [{| rr_Name := "run-1"; rr_StartedAt := 3; rr_EndedAt := 0; rr_Phase := "running" |}] 0
    (set_Review (Some (set_dispatch (Some 5) "job-1" live_review)) reconciling).

(** The head of pull request 7 moved from [abc] to [def]. *)
Definition moved : Cluster := sample_cluster 9 [] [claim_of "abc" live_review].

Lemma ReleaseClaim_spec_witness :
  let '(r, w') := ReleaseClaim "ns" (docs_key "abc").2 "dispatch-lost" moved in
  r = Ok tt ∧ (rv_DispatchLostReleases <$> claim_at w' (docs_key "abc")) = Some 1 ∧ live_names w' = []
  ∧ ∃ tr, Wrote cluster_obj cluster_env tr moved w' ∧ tr ≠ [].
Proof.
  pose proof (ReleaseClaim_spec "ns" (docs_key "abc").2 "dispatch-lost" moved) as Hp.
  destruct (ReleaseClaim _ _ _ _) as [r w'] eqn:Hr.
  assert (match ReleaseClaim "ns" (docs_key "abc").2 "dispatch-lost" moved with
          | (r, w') => (r, rv_DispatchLostReleases <$> claim_at w' (docs_key "abc"), live_names w')
          end = (Ok tt, Some 1, [])) as Hv by (vm_compute; reflexivity).
  rewrite Hr in Hv. clear Hr. injection Hv as -> Hc Hl. split_and!; [done..|].
  destruct Hp as (tr1&tr2&Hw&_&[(_&_&Hf)|(t&old&new&c&c'&Htr&_)]); [discriminate Hf|].
  exists (tr1 ++ tr2). split; [exact Hw|]. rewrite Htr. discriminate.
Defined.

Lemma ReleaseClaimDead_counts_once_witness :
  let w := sample_cluster 9 [] [sample_attempt "a" "abc" ∅ running] in
  let '(recorded, deaths, err, w') := ReleaseClaimDead "ns" "a" "dispatch-timeout" w in
  (recorded, deaths, err) = (true, 1, None)
  ∧ ∃ tr, Wrote cluster_obj cluster_env tr w w' ∧ tr ≠ [].
Proof.
  cbv zeta. set (w := sample_cluster _ _ _).
  pose proof (ReleaseClaimDead_counts_once "ns" "a" "dispatch-timeout" w) as Hp.
  destruct (ReleaseClaimDead _ _ _ _) as [[[rec n] err] w'] eqn:Hr.
  assert ((ReleaseClaimDead "ns" "a" "dispatch-timeout" w).1 = (true, 1, None)) as Hv
    by (vm_compute; reflexivity).
  rewrite Hr in Hv. clear Hr. injection Hv as -> -> ->. split; [done|].
  destruct Hp as (tr1&tr2&Hw&_&[(_&_&?&?)|(t&old&rv&s'&->&_)]); [done|].
  eexists. split; [exact Hw|done].
Defined.

Lemma ArmClaim_spec_witness :
  let '(r, w') := arm_docs "7" "def" false moved in
  (∃ a, r = Ok a ∧ key_of a = docs_key "def") ∧ live_names w' = [(docs_key "def").2]
  ∧ (rv_ReleaseReason <$> claim_at w' (docs_key "abc")) = Some "superseded"
  ∧ ∃ tr, Wrote cluster_obj cluster_env tr moved w'.
Proof.
  pose proof (ArmClaim_spec (λ _, None) (λ _, None) (λ _ _, None) false docs "7" "def" "needs-review"
    false moved) as Hp. cbv zeta in Hp. fold (arm_docs "7" "def" false moved) in Hp.
  destruct (arm_docs "7" "def" false moved) as [r w'] eqn:Hr.
  assert (match arm_docs "7" "def" false moved with
          | (r, w') => (is_ok r, live_names w', rv_ReleaseReason <$> claim_at w' (docs_key "abc"))
          end = (true, [(docs_key "def").2], Some "superseded")) as Hv by (vm_compute; reflexivity).
  rewrite Hr in Hv. clear Hr. injection Hv as Hok Hl Hs. destruct r as [a|]; [|done].
  destruct Hp as (tr&Hw&_&Hk&_). split_and!; [by exists a|done|done|]. exists tr. exact Hw.
Defined.

(** A claim released by the horizon an hour ago. *)
Definition dismissed : Cluster :=
  sample_cluster (100 * Hour) []
    [claim_of "abc" (set_DismissedAt (Some (99 * Hour)) (set_release true "horizon"
       (set_lost 3 (Some (99 * Hour)) live_review)))].

Lemma ArmClaim_guards_witness :
  arm_docs "7" "abc" false dismissed
  = (Err (ESentinel (ErrChurnBudgetExhausted "abc" 3)), dismissed)
  ∧ (∃ a, (arm_docs "7" "abc" true dismissed).1 = Ok a).
Proof.
  split; [|eexists; vm_compute; reflexivity].
  destruct (ArmClaim_guards (λ _, None) (λ _, None) (λ _ _, None) false docs "7" "abc" "needs-review"
    false dismissed dismissed
    (claim_of "abc" (set_DismissedAt (Some (99 * Hour)) (set_release true "horizon"
       (set_lost 3 (Some (99 * Hour)) live_review))))
    (set_DismissedAt (Some (99 * Hour)) (set_release true "horizon"
       (set_lost 3 (Some (99 * Hour)) live_review)))) as (_&_&_&Hg).
  - vm_compute. reflexivity.
  - reflexivity.
  - apply Hg; [reflexivity..| |vm_compute; discriminate|vm_compute; reflexivity].
    intros t ([g Hgate]&_). discriminate Hgate.
Defined.

Lemma LiveReviewClaims_exact_witness :
  LiveReviewClaims (λ _, None) docs moved = (Ok [claim_of "abc" live_review], moved)
  ∧ ∃ w1, cluster_env moved w1 ∧ cluster_obj w1 (docs_key "abc") = Some (claim_of "abc" live_review).
Proof.
  assert (LiveReviewClaims (λ _, None) docs moved = (Ok [claim_of "abc" live_review], moved)) as Hl
    by (vm_compute; reflexivity).
  split; [exact Hl|].
  destruct (LiveReviewClaims_exact (λ _, None) docs moved [claim_of "abc" live_review] moved Hl)
    as (w1&He&_&_&Hin).
  exists w1. split; [exact He|].
  destruct (Hin (claim_of "abc" live_review)) as [Ho _].
  exact (proj1 (Ho (list_elem_of_here _ _))).
Defined.

Lemma FinalizeCancelledClaim_spec_witness :
  let w := sample_cluster 9 [] [sample_attempt "a" "abc" ∅
    (set_Review (Some (set_release true "superseded" live_review)) running)] in
  let '(r, w') := FinalizeCancelledClaim "ns" "a" "superseded" w in
  r = Ok tt ∧ (st_Phase ∘ at_Status <$> cluster_obj w' ("ns", "a")) = Some AttemptPhaseSuperseded
  ∧ ∃ tr, Wrote cluster_obj cluster_env tr w w' ∧ tr ≠ [].
Proof.
  cbv zeta. set (w := sample_cluster _ _ _).
  pose proof (FinalizeCancelledClaim_spec "ns" "a" "superseded" w) as Hp.
  destruct (FinalizeCancelledClaim _ _ _ _) as [r w'] eqn:Hr.
  assert (match FinalizeCancelledClaim "ns" "a" "superseded" w with
          | (r, w') => (r, st_Phase ∘ at_Status <$> cluster_obj w' ("ns", "a"))
          end = (Ok tt, Some AttemptPhaseSuperseded)) as Hv by (vm_compute; reflexivity).
  rewrite Hr in Hv. clear Hr. injection Hv as -> Hs. split_and!; [done|exact Hs|].
  destruct Hp as (tr&Hw&Hne&_). exists tr. split; [exact Hw|by apply Hne].
Defined.

Lemma CompleteDispatchEdge_spec_witness :
  let '(r, w') := CompleteDispatchEdge "ns" (docs_key "abc").2 "job-9" moved in
  r = Ok tt ∧ (rv_DispatchedJob <$> claim_at w' (docs_key "abc")) = Some "job-9"
  ∧ ∃ tr, Wrote cluster_obj cluster_env tr moved w'.
Proof.
  pose proof (CompleteDispatchEdge_spec "ns" (docs_key "abc").2 "job-9" moved) as Hp.
  destruct (CompleteDispatchEdge _ _ _ _) as [r w'] eqn:Hr.
  assert (match CompleteDispatchEdge "ns" (docs_key "abc").2 "job-9" moved with
          | (r, w') => (r, rv_DispatchedJob <$> claim_at w' (docs_key "abc"))
          end = (Ok tt, Some "job-9")) as Hv by (vm_compute; reflexivity).
  rewrite Hr in Hv. clear Hr. injection Hv as -> Hj. split_and!; [done|exact Hj|].
  destruct Hp as (tr&Hw&_). exists tr. exact Hw.
Defined.

(** ** Interleavings *)

(** The variable [recorded] survives a conflicting run: when another observer
    records the death between this one's read and patch, both report it. *)
Lemma death_reported_twice :
  let released := (dead_status "job-died" 9 (false, 0) running).1 in
  let w := sample_cluster 9 [Idle; WriteStatus ("ns", "a") released]
             [sample_attempt "a" "abc" ∅ running] in
  let '(recorded, deaths, err, w') := ReleaseClaimDead "ns" "a" "dispatch-timeout" w in
  (recorded, deaths, err) = (true, 1, None)
  ∧ (rv_ReleaseReason <$> claim_at w' ("ns", "a")) = Some "job-died".
Proof. vm_compute. auto. Qed.

(** A release whose status write landed before the arm, and whose marker lands
    after the arm has looked for it: the claim is live and off the list. *)
Lemma armed_but_hidden :
  let c := claim_of "abc" (set_release true "consumed" live_review) in
  let marked := <[ReviewClaimLabel := ReviewClaimReleased]> (om_Labels (at_Meta c)) in
  let w := sample_cluster 9 [Idle; Idle; Idle; WriteLabels (docs_key "abc") marked] [c] in
  let '(r, w') := arm_docs "7" "abc" true w in
  is_ok r = true ∧ (rv_Released <$> claim_at w' (docs_key "abc")) = Some false ∧ live_names w' = [].
Proof. vm_compute. auto. Qed.

(** A revived claim keeps the Job of its last era, so the edge of the new era is
    taken for recorded and never lands. *)
Lemma revived_edge_is_stale :
  let w := sample_cluster 9 [] [claim_of "abc" (set_release true "dispatch-timeout"
             (set_dispatch (Some 5) "job-old" live_review))] in
  let w := (arm_docs "7" "abc" true w).2 in
  let w := (MarkDispatchIntent "ns" (docs_key "abc").2 w).2 in
  let '(r, w) := CompleteDispatchEdge "ns" (docs_key "abc").2 "job-new" w in
  r = Ok tt ∧ (rv_DispatchedJob <$> claim_at w (docs_key "abc")) = Some "job-old".
Proof. vm_compute. auto. Qed.

(** The breaker is consulted after the other claims are released: an automatic
    arm it refuses has already freed the live claim of another head. *)
Lemma refused_arm_supersedes :
  let w := sample_cluster 9 []
    [claim_of "abc" (set_release true "dispatch-timeout" (set_DeadDispatches 3 live_review));
     claim_of "def" (set_pointer "7" "def" "needs-review" live_review)] in
  let '(r, w') := arm_docs "7" "abc" false w in
  r = Err (ESentinel (ErrDeadDispatchBreaker 3 "abc"))
  ∧ live_names w = [(docs_key "def").2] ∧ live_names w' = [].
Proof. vm_compute. auto. Qed.
