(* ===== verification/ClaimMachine.v ===== *)
(** * The claim as a state machine, and the refinement

    What the gate promises about a claim, without the clocks, the notes and the
    ledger around it: a claim of a head of a pull request is queued, dispatched
    or released, and carries two counters. The operations of [ReviewClaim]
    implement this machine: every write each of them makes, on whatever object
    it lands, is one event of the machine that the operation may cause. *)

From S2P Require Import Prelude GoTime Api ReviewReady AttemptName Ledger Kube AttemptStore ReviewClaim ClaimProps.

(** ** The machine *)

Inductive Phase : Type :=
| Queued
| Dispatched
| Released (reason : string).

#[export] Instance Phase_eq_dec : EqDecision Phase.
Proof. solve_decision. Defined.

(** [cl_deaths] is the breaker's count, [cl_lost] the chain of releases that
    never were dispatched. *)
Record Claim := { cl_pr : string; cl_head : string; cl_phase : Phase; cl_deaths : Z; cl_lost : Z }.

Inductive Event : Type :=
| EArm (pr head : string) (reset : bool)
| EDispatch
| ERelease (reason : string)
| EDie (reason : string)
| ETouch
| ENote
| EAbandon.

(** A claim no operation has named. *)
Definition no_claim : Claim := {| cl_pr := ""; cl_head := ""; cl_phase := Queued; cl_deaths := 0; cl_lost := 0 |}.

Definition phase_armed (p : Phase) : Phase := match p with Released _ => Queued | p => p end.
Definition phase_dispatched (p : Phase) : Phase := match p with Released r => Released r | _ => Dispatched end.

Definition on_claim (f : Claim → Claim) (o : option Claim) : option Claim := Some (f (default no_claim o)).

(** Arming names the head, revives a released claim, and forgets the counters of
    another head or on request; a dispatch ends the chain of lost ones; a death
    counts if there was a dispatch. *)
Definition step (e : Event) (o : option Claim) : option Claim :=
  match e with
  | EArm pr head reset => on_claim (λ c,
      let fresh := reset || negb (bool_decide (cl_pr c = pr) && bool_decide (cl_head c = head)) in
      {| cl_pr := pr; cl_head := head; cl_phase := phase_armed (cl_phase c);
         cl_deaths := if fresh then 0 else cl_deaths c; cl_lost := if fresh then 0 else cl_lost c |}) o
  | EDispatch => on_claim (λ c,
      {| cl_pr := cl_pr c; cl_head := cl_head c; cl_phase := phase_dispatched (cl_phase c);
         cl_deaths := cl_deaths c; cl_lost := 0 |}) o
  | ERelease reason => on_claim (λ c,
      {| cl_pr := cl_pr c; cl_head := cl_head c; cl_phase := Released reason; cl_deaths := cl_deaths c;
         cl_lost := cl_lost c + (if decide (reason = ReleaseReasonDispatchLost) then 1 else 0) |}) o
  | EDie reason => on_claim (λ c,
      match cl_phase c with
      | Released _ => c
      | p => {| cl_pr := cl_pr c; cl_head := cl_head c; cl_phase := Released reason;
                cl_deaths := cl_deaths c + (if decide (p = Dispatched) then 1 else 0); cl_lost := cl_lost c |}
      end) o
  | ETouch => o
  | ENote => on_claim id o
  | EAbandon => None
  end.

(** ** The abstraction *)

Definition phase_of (r : ReviewClaimStatus) : Phase :=
  if rv_Released r then Released (rv_ReleaseReason r)
  else match rv_DispatchedAt r with Some _ => Dispatched | None => Queued end.

Definition claim_abs (r : ReviewClaimStatus) : Claim :=
  {| cl_pr := rv_PR r; cl_head := rv_HeadSHA r; cl_phase := phase_of r;
     cl_deaths := rv_DeadDispatches r; cl_lost := rv_DispatchLostReleases r |}.

Definition status_abs (s : AttemptStatus) : option Claim := claim_abs <$> st_Review s.
Definition object_abs (o : option Attempt) : option Claim := o ≫= λ a, status_abs (at_Status a).

(** ** Every mutation is an event *)

Lemma claim_abs_default s : claim_abs (review_of s) = default no_claim (status_abs s).
Proof. unfold review_of, status_abs. by destruct (st_Review s). Qed.

Lemma arms_abs now pr head label human expiry r r' :
  arms now pr head label human expiry r r' →
  Some (claim_abs r') = step (EArm pr head (human || expiry)) (Some (claim_abs r)).
Proof.
  intros ([= Hpr Hh Hl]&Hrel&_&_&Hd&Hc&_).
  unfold same_claim in Hc. cbn [step]. unfold on_claim. simpl. f_equal.
  unfold claim_abs at 1, phase_of at 1. rewrite Hpr, Hh, Hrel, Hd.
  assert (match (if rv_Released r then None else rv_DispatchedAt r) with Some _ => Dispatched | None => Queued end
          = phase_armed (phase_of r)) as ->.
  { unfold phase_of. destruct (rv_Released r); [done|]. by destruct (rv_DispatchedAt r). }
  assert (human || expiry || negb (bool_decide (rv_PR r = pr) && bool_decide (rv_HeadSHA r = head))
          = negb (bool_decide (rv_PR r = pr) && bool_decide (rv_HeadSHA r = head)) || human || expiry) as ->.
  { by destruct (negb _), human, expiry. }
  destruct (_ || _ || _); destruct Hc as [-> ->]; done.
Qed.

Lemma arm_status_review now pr head label human expiry s :
  st_Review (arm_status now pr head label human expiry s)
  = Some (arm_review now pr head label human expiry (review_of s)).
Proof. unfold arm_status, review_of. cbv zeta. by repeat (case_decide || case_match). Qed.

Lemma arm_abs now pr head label human expiry s :
  status_abs (arm_status now pr head label human expiry s) = step (EArm pr head (human || expiry)) (status_abs s).
Proof.
  unfold status_abs at 1. rewrite arm_status_review. cbn [fmap option_fmap option_map].
  rewrite (arms_abs _ _ _ _ _ _ _ _ (arm_review_arms now pr head label human expiry (review_of s))).
  cbn [step]. unfold on_claim. by rewrite <- claim_abs_default.
Qed.

Lemma dispatch_abs t job r :
  claim_abs (set_lost 0 (rv_LastDispatchLostAt r) (set_dispatch (Some t) job r))
  = {| cl_pr := rv_PR r; cl_head := rv_HeadSHA r; cl_phase := phase_dispatched (phase_of r);
       cl_deaths := rv_DeadDispatches r; cl_lost := 0 |}.
Proof.
  unfold claim_abs, phase_of. simpl. by destruct (rv_Released r), (rv_DispatchedAt r).
Qed.

Lemma intent_abs t s : status_abs (intent_status t s) = step EDispatch (status_abs s).
Proof.
  cbn [step]. unfold on_claim. rewrite <- claim_abs_default. unfold status_abs at 1, intent_status. simpl.
  f_equal. exact (dispatch_abs t (rv_DispatchedJob (review_of s)) (review_of s)).
Qed.

Lemma dispatched_abs job t s : status_abs (dispatched_status job t s) = step EDispatch (status_abs s).
Proof.
  cbn [step]. unfold on_claim. rewrite <- claim_abs_default. unfold status_abs at 1, dispatched_status. simpl.
  f_equal. exact (dispatch_abs t job (review_of s)).
Qed.

Lemma release_abs reason t s : status_abs (release_status reason t s) = step (ERelease reason) (status_abs s).
Proof.
  destruct (release_review reason t s) as (Hs&Hrel&Hreason&[= Hpr Hh _ _ Hdd]&Hl&_).
  unfold status_abs at 1. rewrite Hs. cbn [step]. unfold on_claim. rewrite <- claim_abs_default. simpl.
  f_equal. unfold claim_abs at 1, phase_of. by rewrite Hrel, Hreason, Hpr, Hh, Hdd, Hl.
Qed.

Lemma dead_abs reason t c s : status_abs (dead_status reason t c s).1 = step (EDie reason) (status_abs s).
Proof.
  pose proof (dead_status_spec reason t c s) as Hs. cbv zeta in Hs.
  cbn [step]. unfold on_claim. rewrite <- claim_abs_default.
  assert (rv_PR (review_of (dead_status reason t c s).1) = rv_PR (review_of s)
          ∧ rv_HeadSHA (review_of (dead_status reason t c s).1) = rv_HeadSHA (review_of s)) as [Hpr Hh].
  { unfold dead_status. destruct (rv_Released (review_of s)); [done|]. cbv zeta. simpl.
    by destruct (rv_DispatchedAt (review_of s)), (_ || _). }
  destruct (dead_status reason t c s) as [s' [rec n]]. simpl in *.
  destruct Hs as (Hs&_&[= Hl _]&Hc). unfold status_abs. rewrite Hs. simpl. f_equal.
  set (r := review_of s) in *. destruct (rv_Released r) eqn:Hrel.
  - destruct Hc as [-> _]. unfold claim_abs, phase_of, review_of. simpl. by rewrite Hrel.
  - destruct Hc as (Hrel'&Hreason&Hdd&_). unfold claim_abs, phase_of.
    rewrite Hrel, Hrel', Hpr, Hh, Hreason, Hdd, Hl. simpl.
    destruct (rv_DispatchedAt r); simpl; by rewrite ?Z.add_0_r.
Qed.

Lemma hold_abs note cause s : status_abs (hold_status note cause s) = step ENote (status_abs s).
Proof. cbn [step]. unfold on_claim. rewrite <- claim_abs_default. done. Qed.

Lemma cancel_abs reason t s : status_abs (cancel_status reason t s) = step ETouch (status_abs s).
Proof. unfold status_abs. by destruct (cancel_status_spec reason t s) as [-> _]. Qed.

(** ** Every operation is a sequence of events *)

(** The operations of [claim.go] that write. *)
Inductive ClaimOp : Type :=
| OpArm (scheme : bool) (wf : Workflow) (pr headSHA label : string) (human : bool)
| OpIntent (ns name : string)
| OpEdge (ns name job : string)
| OpHold (ns name note cause : string)
| OpRelease (ns name reason : string)
| OpDie (ns name reason : string)
| OpCancel (ns name reason : string).

Notation KeyEvent := (Key * Event)%type.
Notation Write := (Key * option Attempt * option Attempt)%type.

(** A write that is this event of its object. *)
Definition implements (x : Write) (ke : KeyEvent) : Prop :=
  x.1.1 = ke.1 ∧ object_abs x.2 = step ke.2 (object_abs x.1.2).

Section refinement.
Context {W : Type} `{kube : KubeClient W} `{laws : !ClientLaws W} `{retries : RetryOnConflict} `{!RetryLaws}.
Context (label_error url_path : string → option string) (owner_error : Workflow → string → option string).

(** Run an operation; did it succeed? *)
Definition run_op (op : ClaimOp) (w : W) : bool * W :=
  match op with
  | OpArm scheme wf pr headSHA label human =>
      let '(r, w) := ArmClaim label_error url_path owner_error scheme wf pr headSHA label human w in (is_ok r, w)
  | OpIntent ns name => let '(r, w) := MarkDispatchIntent ns name w in (is_ok r, w)
  | OpEdge ns name job => let '(r, w) := CompleteDispatchEdge ns name job w in (is_ok r, w)
  | OpHold ns name note cause => let '(r, w) := SetClaimHold ns name note cause w in (is_ok r, w)
  | OpRelease ns name reason => let '(r, w) := ReleaseClaim ns name reason w in (is_ok r, w)
  | OpDie ns name reason =>
      let '(_, _, err, w) := ReleaseClaimDead ns name reason w in (bool_decide (err = None), w)
  | OpCancel ns name reason => let '(r, w) := FinalizeCancelledClaim ns name reason w in (is_ok r, w)
  end.

Definition armed_key (wf : Workflow) (headSHA : string) : Key :=
  (om_Namespace (wk_Meta wf),
   AttemptName (om_Name (wk_Meta wf)) (Identity (claim_objective url_path wf headSHA))).

(** The events of an arm: on its own object, and on others of the pull request. *)
Definition arm_event (wf : Workflow) (pr headSHA : string) (ke : KeyEvent) : Prop :=
  if decide (ke.1 = armed_key wf headSHA)
  then ke.2 = ETouch ∨ ke.2 = EAbandon ∨ ∃ reset, ke.2 = EArm pr headSHA reset
  else ke.2 = ETouch ∨ ke.2 = ERelease ReleaseReasonSuperseded.

(** What the machine sees of an operation that succeeded or failed. *)
Definition events_of (op : ClaimOp) (ok : bool) (evs : list KeyEvent) : Prop :=
  match op with
  | OpArm _ wf pr headSHA _ _ => Forall (arm_event wf pr headSHA) evs
      ∧ (ok = true → ∃ evs' reset, evs = evs' ++ [(armed_key wf headSHA, EArm pr headSHA reset)])
  | OpIntent ns name => evs = [((ns, name), EDispatch)] ∨ ok = false ∧ evs = []
  | OpEdge ns name _ => evs = [((ns, name), EDispatch)] ∨ evs = []
  | OpHold ns name _ _ => evs = [((ns, name), ENote)] ∨ evs = []
  | OpRelease ns name reason =>
      evs = [((ns, name), ERelease reason)] ∨ evs = [((ns, name), ERelease reason); ((ns, name), ETouch)]
      ∨ ok = false ∧ evs = []
  | OpDie ns name reason =>
      evs = [((ns, name), EDie reason)] ∨ evs = [((ns, name), EDie reason); ((ns, name), ETouch)]
      ∨ ok = false ∧ evs = []
  | OpCancel ns name reason =>
      IsCancellationRelease reason = true ∧ evs = [((ns, name), ETouch)] ∨ evs = []
  end.

Notation wrote := (Wrote kc_obj kc_env).

(** A run of an operation, seen by the machine. *)
Definition Refines (P : list KeyEvent → Prop) (w w' : W) : Prop :=
  ∃ tr evs, wrote tr w w' ∧ Forall2 implements tr evs ∧ P evs.

Lemma Refines_weaken (P Q : list KeyEvent → Prop) w w' :
  (∀ evs, P evs → Q evs) → Refines P w w' → Refines Q w w'.
Proof. intros HPQ (tr&evs&?&?&?). exists tr, evs. auto. Qed.

Lemma patched_implements k old rv s e :
  status_abs s = step e (status_abs (at_Status old)) →
  implements (k, Some old, Some (with_rv rv (set_Status (compactStatus s).1 old))) (k, e).
Proof.
  intros Hs. split; [done|]. unfold object_abs. simpl. rewrite <- Hs. unfold status_abs. simpl.
  by autorewrite with ledger.
Qed.

Lemma patch_refines ns name f e (w : W) r w' :
  (∀ t s, status_abs (f t s) = step e (status_abs s)) → patch_status ns name f w = (r, w') →
  Refines (λ evs, evs = [((ns, name), e)] ∨ is_ok r = false ∧ evs = []) w w'.
Proof.
  intros Hf Hp. apply patch_status_law in Hp as (tr&Hw&[[-> Hr]|(_&t&old&rv&->)]).
  - exists [], []. split; [done|]. split; [constructor|by right].
  - eexists _, [((ns, name), e)]. split; [exact Hw|]. split; [|by left].
    constructor; [|constructor]. by apply patched_implements.
Qed.

Lemma marks_touch k tr : marks k tr → Forall2 implements tr [(k, ETouch)].
Proof. intros (old&rv&r&->&_). by repeat constructor. Qed.

(** A first write and the marker after it. *)
Lemma marked_refines k (P : list KeyEvent → Prop) tr1 tr2 evs (w w' : W) :
  wrote (tr1 ++ tr2) w w' → Forall2 implements tr1 evs → tr2 = [] ∨ marks k tr2 →
  P evs → P (evs ++ [(k, ETouch)]) → Refines P w w'.
Proof.
  intros Hw Hi [->|Hm] HP HP'.
  - exists tr1, evs. rewrite app_nil_r in Hw. done.
  - exists (tr1 ++ tr2), (evs ++ [(k, ETouch)]). split; [done|]. split; [|done].
    apply Forall2_app; [done|by apply marks_touch].
Qed.

Lemma release_refines ns name reason (w : W) r w' :
  ReleaseClaim ns name reason w = (r, w') → Refines (events_of (OpRelease ns name reason) (is_ok r)) w w'.
Proof.
  intros (tr1&tr2&Hw&[(->&->&Hr)|(t&old&rv&->)]&Hm)%ReleaseClaim_law.
  - exists [], []. split; [done|]. split; [constructor|]. right; right. done.
  - eapply (marked_refines (ns, name) _ _ _ [((ns, name), ERelease reason)]); [exact Hw| |exact Hm| |].
    + constructor; [|constructor]. apply patched_implements, release_abs.
    + by left.
    + by right; left.
Qed.

Lemma die_refines ns name reason (w : W) recorded deaths err w' :
  ReleaseClaimDead ns name reason w = (recorded, deaths, err, w') →
  Refines (events_of (OpDie ns name reason) (bool_decide (err = None))) w w'.
Proof.
  intros (tr1&tr2&Hw&Hm&[(->&->&He)|(t&c&old&rv&_&->)])%ReleaseClaimDead_law.
  - exists [], []. split; [done|]. split; [constructor|]. right; right. split; [|done].
    apply bool_decide_eq_false_2. intros ->. by destruct He.
  - eapply (marked_refines (ns, name) _ _ _ [((ns, name), EDie reason)]); [exact Hw| |exact Hm| |].
    + constructor; [|constructor]. apply patched_implements, dead_abs.
    + by left.
    + by right; left.
Qed.

Lemma edge_refines ns name job (w : W) r w' :
  CompleteDispatchEdge ns name job w = (r, w') → Refines (events_of (OpEdge ns name job) (is_ok r)) w w'.
Proof.
  unfold CompleteDispatchEdge. destruct (kc_get (ns, name) w) as [[a|e] w1] eqn:Hg.
  2: { intros [= <- <-]. apply get_err in Hg. exists [], []. split; [done|]. split; [constructor|by right]. }
  apply get_read in Hg as (_&Hw1&_).
  assert (∀ r w', MarkClaimDispatched ns name job w1 = (r, w') →
            Refines (events_of (OpEdge ns name job) (is_ok r)) w w') as Hd.
  { intros r1 w2 (tr&evs&Hw&Hi&Hev)%(patch_refines _ _ _ EDispatch); [|by intros; apply dispatched_abs].
    exists tr, evs. split; [by eapply (Wrote_app _ _ []); [exact Hw1|exact Hw]|]. split; [done|].
    destruct Hev as [?|[_ ?]]; [by left|by right]. }
  destruct (st_Review (at_Status a)) as [c|]; [|apply Hd].
  case_decide; [|apply Hd]. intros [= <- <-]. exists [], []. split; [done|]. split; [constructor|by right].
Qed.

Lemma hold_refines ns name note cause (w : W) r w' :
  SetClaimHold ns name note cause w = (r, w') → Refines (events_of (OpHold ns name note cause) (is_ok r)) w w'.
Proof.
  unfold SetClaimHold. destruct (kc_get (ns, name) w) as [[a|e] w1] eqn:Hg.
  2: { intros [= <- <-]. apply get_err in Hg. exists [], []. split; [done|]. split; [constructor|by right]. }
  apply get_read in Hg as (_&Hw1&_).
  destruct (match st_Review _ with Some _ => _ | None => _ end).
  { intros [= <- <-]. exists [], []. split; [done|]. split; [constructor|by right]. }
  destruct (patch_status ns name _ w1) as [r1 w2] eqn:Hp. intros Hr.
  assert (w2 = w') as <- by (destruct r1; by injection Hr as _ ->).
  apply (patch_refines _ _ _ ENote) in Hp as (tr&evs&Hw&Hi&Hev); [|by intros; apply hold_abs].
  exists tr, evs. split; [by eapply (Wrote_app _ _ []); [exact Hw1|exact Hw]|]. split; [done|].
  destruct Hev as [?|[_ ?]]; [by left|by right].
Qed.

Lemma cancel_refines ns name reason (w : W) r w' :
  FinalizeCancelledClaim ns name reason w = (r, w') →
  Refines (events_of (OpCancel ns name reason) (is_ok r)) w w'.
Proof.
  unfold FinalizeCancelledClaim. destruct (IsCancellationRelease reason) eqn:Hc; simpl.
  - intros Hp. eapply Refines_weaken; [|eapply (patch_refines _ _ _ ETouch); [|exact Hp]].
    + intros evs [?|[_ ?]]; [by left|by right].
    + intros. apply cancel_abs.
  - intros [= <- <-]. exists [], []. split; [by apply wrote_none|]. split; [constructor|by right].
Qed.

Lemma arm_event_own wf pr headSHA e :
  e = ETouch ∨ e = EAbandon ∨ (∃ reset, e = EArm pr headSHA reset) →
  arm_event wf pr headSHA (armed_key wf headSHA, e).
Proof. intros He. unfold arm_event. by rewrite decide_True. Qed.

Lemma arm_event_other wf pr headSHA k e :
  k ≠ armed_key wf headSHA → e = ETouch ∨ e = ERelease ReleaseReasonSuperseded →
  arm_event wf pr headSHA (k, e).
Proof. intros Hk He. unfold arm_event. by rewrite decide_False. Qed.

(** One write of an arm is one of its events. *)
Lemma arm_write_event wf pr headSHA label human x :
  arm_write pr headSHA label human (armed_key wf headSHA) x →
  ∃ e, implements x (x.1.1, e) ∧ arm_event wf pr headSHA (x.1.1, e).
Proof.
  intros [(new&->&Hz)|[(old&->)|[(old&rv&[= ->])|[(expiry&now&old&rv&[= ->])|(o&c&_&_&_&_&Hne&Hx)]]]].
  - exists ETouch. split; [split; [done|]|apply arm_event_own; auto].
    unfold object_abs. simpl. by rewrite Hz.
  - exists EAbandon. split; [done|apply arm_event_own; auto].
  - exists ETouch. split; [done|apply arm_event_own; auto].
  - exists (EArm pr headSHA (human || expiry)). split; [|apply arm_event_own; eauto].
    apply patched_implements, arm_abs.
  - destruct Hx as [(t&old&rv&[= Hx])|(old&rv&r0&[= Hx]&_)].
    + exists (ERelease ReleaseReasonSuperseded). split; [|apply arm_event_other; auto].
      rewrite Hx. apply patched_implements, release_abs.
    + exists ETouch. split; [|apply arm_event_other; auto]. by rewrite Hx.
Qed.

Lemma arm_writes_events wf pr headSHA label human tr :
  Forall (arm_write pr headSHA label human (armed_key wf headSHA)) tr →
  ∃ evs, Forall2 implements tr evs ∧ Forall (arm_event wf pr headSHA) evs.
Proof.
  induction 1 as [|x tr Hx _ (evs&?&?)]; [by exists []|].
  apply arm_write_event in Hx as (e&?&?). exists ((x.1.1, e) :: evs). by split; constructor.
Qed.

Lemma stamp_implements k now pr headSHA label human expiry old new c :
  st_Review (at_Status new) = Some c →
  arms now pr headSHA label human expiry (review_of (at_Status old)) c →
  implements (k, Some old, Some new) (k, EArm pr headSHA (human || expiry)).
Proof.
  intros Hc Ha. split; [done|]. unfold object_abs. simpl. unfold status_abs at 1. rewrite Hc.
  cbn [fmap option_fmap option_map]. rewrite (arms_abs _ _ _ _ _ _ _ _ Ha).
  cbn [step]. unfold on_claim. by rewrite <- claim_abs_default.
Qed.

Lemma arm_refines scheme wf pr headSHA label human (w : W) :
  let '(ok, w') := run_op (OpArm scheme wf pr headSHA label human) w in
  Refines (events_of (OpArm scheme wf pr headSHA label human) ok) w w'.
Proof.
  cbn [run_op].
  pose proof (ArmClaim_law label_error url_path owner_error scheme wf pr headSHA label human w) as Ha.
  cbv zeta in Ha. destruct (ArmClaim _ _ _ _ _ _ _ _ _ w) as [r w']. destruct Ha as (tr&Hw&Hf&Hr).
  destruct r as [a|e].
  - destruct Hr as (_&_&tr0&tr1&w0&oth&w1&w2&now&expiry&old&new&c'&->&_&_&_&_&_&_&Hc'&Harms&_).
    rewrite app_assoc in Hw, Hf. apply Forall_app in Hf as [Hf _]. apply arm_writes_events in Hf as (evs&Hi&He).
    exists ((tr0 ++ tr1) ++ [(armed_key wf headSHA, Some old, Some new)]),
      (evs ++ [(armed_key wf headSHA, EArm pr headSHA (human || expiry))]).
    split; [exact Hw|]. split.
    + apply Forall2_app; [done|]. constructor; [|constructor]. by eapply stamp_implements.
    + split; [|intros _; by eexists _, _]. apply Forall_app. split; [done|]. constructor; [|constructor].
      apply arm_event_own. eauto.
  - apply arm_writes_events in Hf as (evs&Hi&He). exists tr, evs. by split_and!.
Qed.

(** C12. The claim operations implement the claim machine. Whatever else happens
    to the cluster meanwhile, each write an operation makes takes the claim of
    the object it lands on, seen through the abstraction, along exactly one
    event of the machine, and these events are the operation's: an arm arms its
    own object, and otherwise only touches or abandons it, releasing others as
    superseded, with the arm last when it succeeds; an intent or an edge is one
    dispatch; a release, a death, are one release or death, then at most a
    touch; a hold notes, and a cancellation touches. *)
Theorem claim_operations_refine op (w : W) :
  let '(ok, w') := run_op op w in Refines (events_of op ok) w w'.
Proof.
  destruct op as [scheme wf pr sha label human|ns name|ns name job|ns name note cause
                 |ns name reason|ns name reason|ns name reason]; cbn [run_op].
  - by apply arm_refines.
  - destruct (MarkDispatchIntent ns name w) as [r w'] eqn:Hr.
    eapply patch_refines; [|exact Hr]. intros. apply intent_abs.
  - destruct (CompleteDispatchEdge ns name job w) as [r w'] eqn:Hr. by apply edge_refines.
  - destruct (SetClaimHold ns name note cause w) as [r w'] eqn:Hr. by apply hold_refines.
  - destruct (ReleaseClaim ns name reason w) as [r w'] eqn:Hr. by apply release_refines.
  - destruct (ReleaseClaimDead ns name reason w) as [[[rec n] err] w'] eqn:Hr. by eapply die_refines.
  - destruct (FinalizeCancelledClaim ns name reason w) as [r w'] eqn:Hr. by apply cancel_refines.
Qed.
End refinement.

(** On a concrete cluster: the release of a queued claim is its event. *)
Lemma claim_operations_refine_witness :
  let w' := (run_op (λ _, None) (λ _, None) (λ _ _, None) (OpRelease "ns" (docs_key "abc").2 "dispatch-lost") moved).2 in
  object_abs (cluster_obj moved (docs_key "abc"))
    = Some {| cl_pr := "7"; cl_head := "abc"; cl_phase := Queued; cl_deaths := 0; cl_lost := 0 |}
  ∧ object_abs (cluster_obj w' (docs_key "abc"))
    = step (ERelease "dispatch-lost") (object_abs (cluster_obj moved (docs_key "abc")))
  ∧ ∃ tr evs, Wrote cluster_obj cluster_env tr moved w' ∧ Forall2 implements tr evs ∧ evs ≠ [].
Proof.
  cbv zeta.
  pose proof (claim_operations_refine (λ _, None) (λ _, None) (λ _ _, None)
    (OpRelease "ns" (docs_key "abc").2 "dispatch-lost") moved) as Hp.
  split_and!; [vm_compute; reflexivity..|].
  destruct (run_op _ _ _ _ moved) as [ok w'] eqn:Hr.
  assert ((run_op (λ _, None) (λ _, None) (λ _ _, None)
            (OpRelease "ns" (docs_key "abc").2 "dispatch-lost") moved).1 = true) as Hok by (vm_compute; reflexivity).
  rewrite Hr in Hok. simpl in Hok. subst ok. destruct Hp as (tr&evs&Hw&Hi&He).
  exists tr, evs. split; [exact Hw|]. split; [exact Hi|].
  destruct He as [->|[->|[Hf _]]]; [discriminate..|discriminate Hf].
Defined.

(** An attempt without a claim gets one from a hold, queued for no pull request. *)
Example hold_makes_a_claim :
  status_abs (hold_status "note" "ci-red" reconciling) = Some no_claim.
Proof. reflexivity. Qed.
