(* ===== verification/Janitor.v ===== *)
(** * The reaper of stuck attempts ([internal/attempt/lifecycle.go])

    [ReapStuckAttempts]: an attempt reconciling past a bound loses its claim,
    then its phase, in two writes that are meant to be separate. *)

From S2P Require Import Prelude GoTime Api ReviewReady Ledger Kube AttemptStore ReviewClaim.

Definition stuck (cutoff : Z) (a : Attempt) : bool :=
  if negb (bool_decide (st_Phase (at_Status a) = AttemptPhaseReconciling)) then false
  else if time_IsZero (om_CreationTimestamp (at_Meta a)) then false
  else negb (time_After (om_CreationTimestamp (at_Meta a)) cutoff).

Definition reaped_status (a : Attempt) (s : AttemptStatus) : AttemptStatus :=
  set_Message ("reaped: stuck reconciling since " +:+ format_RFC3339 (om_CreationTimestamp (at_Meta a))
               +:+ " (no terminal state; suspected worker loss)")
    (set_Phase AttemptPhaseFailed s).

Section reaper.
Context {W : Type} `{KubeClient W} `{RetryOnConflict}.

(** The error of the release is dropped: the phase leg runs regardless. *)
Definition reap_one (namespace : string) (a : Attempt) (w : W) : result Error unit * W :=
  let name := om_Name (at_Meta a) in
  let w := if live_claim (at_Status a) then (ReleaseClaim namespace name ReleaseReasonReaped w).2 else w in
  patch_status namespace name (λ _, reaped_status a) w.

Fixpoint reap_loop (namespace : string) (cutoff : Z) (items : list Attempt) (reaped : Z) (w : W) : Z * W :=
  match items with
  | [] => (reaped, w)
  | a :: items =>
      if stuck cutoff a then
        match reap_one namespace a w with
        | (Ok _, w) => reap_loop namespace cutoff items (reaped + 1) w
        | (Err _, w) => reap_loop namespace cutoff items reaped w
        end
      else reap_loop namespace cutoff items reaped w
  end.

Definition ReapStuckAttempts (namespace : string) (olderThan : Z) : M W Error Z := λ w,
  match kc_list namespace (λ _, true) w with
  | (Err e, w) => (Err (EWrap "list attempts" (EKube e)), w)
  | (Ok items, w) =>
      let cutoff := kc_now w - olderThan in
      let '(n, w) := reap_loop namespace cutoff items 0 w in (Ok n, w)
  end.
End reaper.

(** ** What it writes *)

Section laws.
Context {W : Type} `{KubeClient W} `{!ClientLaws W} `{RetryOnConflict} `{!RetryLaws}.

Notation wrote := (Wrote kc_obj kc_env).

(** The phase leg of [a]'s reaping. *)
Definition fails (namespace : string) (a : Attempt) (x : Key * option Attempt * option Attempt) : Prop :=
  x.1.1 = (namespace, om_Name (at_Meta a)) ∧ rewrites (reaped_status a) x.1.2 x.2.

Definition reaping (namespace : string) (cutoff : Z) (items : list Attempt)
    (x : Key * option Attempt * option Attempt) : Prop :=
  ∃ a, a ∈ items ∧ stuck cutoff a = true ∧ x.1.1 = (namespace, om_Name (at_Meta a))
    ∧ (fails namespace a x
       ∨ live_claim (at_Status a) = true ∧ (releases ReleaseReasonReaped x.1.1 [x] ∨ marks x.1.1 [x])).

Lemma stuck_spec cutoff a :
  stuck cutoff a = true ↔ st_Phase (at_Status a) = AttemptPhaseReconciling
    ∧ om_CreationTimestamp (at_Meta a) ≠ 0 ∧ om_CreationTimestamp (at_Meta a) ≤ cutoff.
Proof.
  unfold stuck, time_IsZero, time_After. case_bool_decide; simpl; [|naive_solver].
  destruct (_ =? 0) eqn:Hz; [apply Z.eqb_eq in Hz; naive_solver|]. apply Z.eqb_neq in Hz.
  rewrite negb_true_iff, Z.ltb_ge. naive_solver.
Qed.

Lemma release_leg ns a (w : W) :
  ∃ tr, wrote tr w (if live_claim (at_Status a)
                    then (ReleaseClaim ns (om_Name (at_Meta a)) ReleaseReasonReaped w).2 else w)
    ∧ Forall (λ x, x.1.1 = (ns, om_Name (at_Meta a)) ∧ live_claim (at_Status a) = true
                   ∧ (releases ReleaseReasonReaped x.1.1 [x] ∨ marks x.1.1 [x])) tr.
Proof.
  destruct (live_claim (at_Status a)); [|exists []; split; [by apply wrote_none|constructor]].
  destruct (ReleaseClaim ns _ _ w) as [r w1] eqn:Hr. apply ReleaseClaim_law in Hr as (tr1&tr2&Hw&Ho&Hm).
  exists (tr1 ++ tr2). split; [done|]. apply Forall_app. split.
  - destruct Ho as [(->&_)|Ho]; [constructor|]. pose proof Ho as (t&old&rv&->).
    constructor; [|constructor]. by split_and!; [..|left].
  - destruct Hm as [->|Hm]; [constructor|]. pose proof Hm as (old&rv&r0&->&_).
    constructor; [|constructor]. by split_and!; [..|right].
Qed.

Lemma reap_one_law ns cutoff a items (w : W) r w' :
  stuck cutoff a = true →
  reap_one ns a w = (r, w') →
  ∃ tr, wrote tr w w' ∧ Forall (reaping ns cutoff (a :: items)) tr
    ∧ (is_ok r = true → ∃ x, x ∈ tr ∧ fails ns a x).
Proof.
  intros Hs Hr. unfold reap_one in Hr. destruct (release_leg ns a w) as (tr1&Hw1&Hf1).
  cbv zeta in Hr. apply patch_status_law in Hr as (tr2&Hw2&Ho). exists (tr1 ++ tr2).
  split; [eapply (Wrote_app _ _ tr1); [exact Hw1|exact Hw2]|]. split.
  - apply Forall_app. split.
    + eapply Forall_impl; [exact Hf1|]. intros x (Hk&Hl&Hx). exists a. split_and!; [set_solver|done..|].
      right. by split.
    + destruct Ho as [[-> _]|(_&t&old&rv&->)]; [constructor|]. constructor; [|constructor].
      exists a. split_and!; [set_solver|done..|]. left. split; [done|]. by eexists _, _.
  - intros Hok. destruct Ho as [[_ ?]|(_&t&old&rv&->)]; [congruence|].
    eexists. split; [apply elem_of_app; right; by apply list_elem_of_singleton|].
    split; [done|]. by eexists _, _.
Qed.

Lemma reap_loop_law ns cutoff items n (w : W) n' w' :
  reap_loop ns cutoff items n w = (n', w') →
  ∃ tr l, wrote tr w w' ∧ Forall (reaping ns cutoff items) tr
    ∧ l `sublist_of` items ∧ n' = n + Z.of_nat (length l)
    ∧ ∀ a, a ∈ l → stuck cutoff a = true ∧ ∃ x, x ∈ tr ∧ fails ns a x.
Proof.
  revert n w. induction items as [|a items IH]; intros n w; cbn [reap_loop].
  { intros [= <- <-]. exists [], []. split_and!; [by apply wrote_none|constructor|done|simpl; lia|].
    by intros a ?%elem_of_nil. }
  assert (∀ x, reaping ns cutoff items x → reaping ns cutoff (a :: items) x) as Himp.
  { intros x (o&?&?). exists o. set_solver. }
  destruct (stuck cutoff a) eqn:Hs.
  2: { intros (tr&l&Hw&Hf&Hl&->&Hin)%IH. exists tr, l. split_and!; [done| | |done|done].
       - eapply Forall_impl; [exact Hf|exact Himp].
       - by apply sublist_cons. }
  destruct (reap_one ns a w) as [r w1] eqn:Hr.
  apply (reap_one_law _ _ _ items _ _ _ Hs) in Hr as (tr1&Hw1&Hf1&Hx1). intros Hrest.
  assert (∃ n1, reap_loop ns cutoff items n1 w1 = (n', w')
    ∧ n1 = n + (if is_ok r then 1 else 0)) as (n1&Hl&Hn1).
  { destruct r; eexists; (split; [exact Hrest|simpl; lia]). }
  apply IH in Hl as (tr2&l&Hw2&Hf2&Hl&->&Hin).
  exists (tr1 ++ tr2), (if is_ok r then a :: l else l). split_and!.
  - eapply (Wrote_app _ _ tr1); [exact Hw1|exact Hw2].
  - apply Forall_app. split; [done|]. eapply Forall_impl; [exact Hf2|exact Himp].
  - destruct (is_ok r); [by apply sublist_skip|by apply sublist_cons].
  - rewrite Hn1. destruct (is_ok r); simpl; lia.
  - intros o Ho. assert (o ∈ l → stuck cutoff o = true ∧ ∃ x, x ∈ tr1 ++ tr2 ∧ fails ns o x) as Hold.
    { intros (?&x&?&?)%Hin. split; [done|]. exists x. set_solver. }
    destruct (is_ok r) eqn:Hok; [|by apply Hold].
    apply elem_of_cons in Ho as [->|Ho]; [|by apply Hold]. split; [done|].
    destruct (Hx1 eq_refl) as (x&?&?). exists x. set_solver.
Qed.

(** ** Properties *)

(** The reaper fails exactly the stuck: every write of [ReapStuckAttempts] is
    to an attempt that the listing showed stamped, reconciling and older than
    the bound: the release of a claim it showed live, as reaped, the marker of
    a claim that is then released, or the phase, failed with a message naming
    the creation; the number returned is that of distinct such attempts whose
    phase was written, whatever became of their release. *)
Theorem ReapStuckAttempts_spec ns olderThan (w : W) :
  let '(r, w') := ReapStuckAttempts ns olderThan w in
  ∃ tr, wrote tr w w'
  ∧ match r with
    | Err _ => tr = []
    | Ok n => ∃ w1 w2 l, kc_env w w1 ∧ kc_env w1 w2
        ∧ (let listed_stuck a := kc_obj w1 (key_of a) = Some a ∧ (key_of a).1 = ns
             ∧ st_Phase (at_Status a) = AttemptPhaseReconciling ∧ om_CreationTimestamp (at_Meta a) ≠ 0
             ∧ om_CreationTimestamp (at_Meta a) ≤ kc_now w2 - olderThan in
           n = Z.of_nat (length l) ∧ NoDup (key_of <$> l)
           ∧ (∀ a, a ∈ l → listed_stuck a
                ∧ ∃ b x, (key_of a, b, x) ∈ tr ∧ rewrites (reaped_status a) b x)
           ∧ (∀ k b x, (k, b, x) ∈ tr → ∃ a, listed_stuck a ∧ k = key_of a
                ∧ (rewrites (reaped_status a) b x
                   ∨ live_claim (at_Status a) = true
                     ∧ (releases "reaped" k [(k, b, x)] ∨ marks k [(k, b, x)]))))
    end.
Proof.
  unfold ReapStuckAttempts. destruct (kc_list ns _ w) as [[items|e] w1] eqn:Hl; apply list_law in Hl.
  2: { exists []. split; [by apply wrote_none|done]. }
  destruct Hl as (w2&He2&He1&Hnd&Hin).
  destruct (reap_loop ns (kc_now w1 - olderThan) items 0 w1) as [n w'] eqn:Hloop.
  apply reap_loop_law in Hloop as (tr&l&Hw&Hf&Hsub&->&Hl). exists tr.
  split; [eapply Wrote_env_l; [exact _| |exact Hw]; env_chain|]. exists w2, w1, l.
  assert (∀ a, a ∈ items → (ns, om_Name (at_Meta a)) = key_of a) as Hkey.
  { intros a (_&Hns&_)%Hin. unfold key_of in *. simpl in Hns. by rewrite Hns. }
  assert (∀ a, a ∈ items → stuck (kc_now w1 - olderThan) a = true →
    kc_obj w2 (key_of a) = Some a ∧ (key_of a).1 = ns
    ∧ st_Phase (at_Status a) = AttemptPhaseReconciling ∧ om_CreationTimestamp (at_Meta a) ≠ 0
    ∧ om_CreationTimestamp (at_Meta a) ≤ kc_now w1 - olderThan) as Hst.
  { intros a (?&?&_)%Hin (?&?&?)%stuck_spec. by split_and!. }
  assert (∀ a, a ∈ l → a ∈ items) as Hli by (intros a Ha; by eapply elem_of_sublist).
  split; [done|]. split; [done|]. split; [lia|]. split_and!.
  - assert (key_of <$> l `sublist_of` key_of <$> items) as Hks.
    { clear -Hsub. induction Hsub; csimpl; by constructor. }
    by eapply sublist_NoDup.
  - intros a Ha. destruct (Hl a Ha) as (Hs&[[k b] x]&Hx&Hk&Hr). simpl in *. split; [by apply Hst; auto|].
    rewrite Hkey in Hk by auto. subst k. by exists b, x.
  - intros k b x Hx. rewrite Forall_forall in Hf. destruct (Hf _ Hx) as (a&Ha&Hs&Hk&Hor). simpl in *.
    rewrite Hkey in Hk by done. exists a. split; [by apply Hst|]. split; [done|].
    destruct Hor as [[_ ?]|?]; [by left|by right].
Qed.
End laws.

(** ** On a concrete cluster *)

Definition frozen : Cluster :=
  sample_cluster (100 * Hour) [] [sample_attempt "a" "abc" ∅ armed; sample_attempt "b" "def" ∅ reconciling].

Lemma ReapStuckAttempts_spec_witness :
  let '(r, w') := ReapStuckAttempts "ns" Hour frozen in
  r = Ok 2 ∧ (st_Phase ∘ at_Status <$> cluster_obj w' ("ns", "a")) = Some AttemptPhaseFailed
  ∧ ∃ tr, Wrote cluster_obj cluster_env tr frozen w' ∧ tr ≠ [].
Proof.
  pose proof (ReapStuckAttempts_spec "ns" Hour frozen) as Hp.
  destruct (ReapStuckAttempts "ns" Hour frozen) as [r w'] eqn:Hr.
  assert (match ReapStuckAttempts "ns" Hour frozen with
          | (r, w') => (r, st_Phase ∘ at_Status <$> cluster_obj w' ("ns", "a"))
          end = (Ok 2, Some AttemptPhaseFailed)) as Hv by (vm_compute; reflexivity).
  rewrite Hr in Hv. clear Hr. injection Hv as -> Hs. split_and!; [done|exact Hs|].
  destruct Hp as (tr&Hw&w1&w2&l&_&_&Hn&_&Hl&_). exists tr. split; [exact Hw|]. intros ->.
  destruct l as [|a l]; [discriminate Hn|].
  destruct (Hl a (list_elem_of_here _ _)) as (_&b&x&Hx&_). by apply elem_of_nil in Hx.
Defined.

(** The phase leg does not reread the phase: an attempt whose worker records a
    validated outcome between the listing and the patch is failed as stuck. *)
Lemma reap_fails_validated :
  let c := sample_cluster (100 * Hour)
    [Idle; WriteStatus ("ns", "b") (set_Phase AttemptPhaseValidated zero_status)]
    [sample_attempt "b" "def" ∅ reconciling] in
  let '(r, w') := ReapStuckAttempts "ns" Hour c in
  r = Ok 1
  ∧ (st_Phase ∘ at_Status <$> cluster_obj (others_step (others_step c)) ("ns", "b"))
    = Some AttemptPhaseValidated
  ∧ (st_Phase ∘ at_Status <$> cluster_obj w' ("ns", "b")) = Some AttemptPhaseFailed.
Proof. vm_compute. auto. Qed.
