(* ===== verification/LedgerFrame.v ===== *)
(** * What the ledger's operations leave alone

    A frame rule for the attempt store and the claims: a property of the world
    that every call of the attempts' client keeps is kept by every operation
    built on it. *)

From S2P Require Import Prelude GoTime Api ReviewReady AttemptName Ledger Kube AttemptStore ReviewClaim Janitor.

(** The reads and patches of single attempts keep [I]. *)
Record PatchFrame {W : Type} `{KubeClient W} (I : W → Prop) : Prop := {
  lf_get k (w : W) r w' : kc_get k w = (r, w') → I w → I w';
  lf_status a s (w : W) r w' : kc_patch_status a s w = (r, w') → I w → I w';
  lf_labels a ls (w : W) r w' : kc_patch_labels a ls w = (r, w') → I w → I w';
}.

(** The calls of the attempts' client keep [I]. *)
Record LedgerFrame {W : Type} `{KubeClient W} (I : W → Prop) : Prop := {
  lf_patches :> PatchFrame I;
  lf_create a (w : W) r w' : kc_create a w = (r, w') → I w → I w';
  lf_delete k (w : W) r w' : kc_delete k w = (r, w') → I w → I w';
  lf_list ns sel (w : W) r w' : kc_list ns sel w = (r, w') → I w → I w';
}.

Create HintDb frame.

(** Take a run apart, then chain what its calls keep. *)
Ltac keep H := repeat (split_match H; simplify_eq); simplify_eq; eauto 20 with frame.

(** Retried closures keep what each run keeps. *)
Section retried.
Context {W : Type} `{rc : RetryOnConflict} `{!RetryLaws} (I : W → Prop).

Lemma keep_retry {C} (f : C * W → result Error unit * (C * W)) (c : C) (w : W) r c' w' :
  (∀ c w r c' w', f (c, w) = (r, (c', w')) → I w → I w') →
  retry f (c, w) = (r, (c', w')) → I w → I w'.
Proof.
  intros Hf Hr. pose proof (retry_trace _ f (c, w)) as Ht. rewrite Hr in Ht. simpl in Ht. clear Hr.
  remember (c, w) as s eqn:Hs. remember (c', w') as s' eqn:Hs'. revert c w Hs Hs'.
  induction Ht as [s r s' Hl|s e [c1 w1] r s' Hl He Ht IH]; intros c w -> ->; [by eapply Hf|].
  intros Hi. eapply (IH c1 w1); [done..|]. by eapply Hf.
Qed.

Lemma keep_retry1 (f : W → result Error unit * W) (w : W) r w' :
  (∀ w r w', f w = (r, w') → I w → I w') → retry f w = (r, w') → I w → I w'.
Proof.
  intros Hf Hr. pose proof (retry_trace _ f w) as Ht. rewrite Hr in Ht. simpl in Ht. clear Hr.
  induction Ht as [w r w' Hl|w e w1 r w' Hl He Ht IH]; [by eapply Hf|].
  intros Hi. apply IH. by eapply Hf.
Qed.

End retried.

Section patches.
Context {W : Type} `{kube : KubeClient W} `{rc : RetryOnConflict} `{!RetryLaws}.
Context (I : W → Prop) (F : PatchFrame I).

Let k_get := lf_get I F.
Let k_status := lf_status I F.
Let k_labels := lf_labels I F.
#[local] Hint Resolve k_get k_status k_labels : frame.

Lemma keep_patch {C} ns name (m : Z → C → AttemptStatus → AttemptStatus * C) c (w : W) r c' w' :
  patchAttemptStatus ns name m c w = (r, (c', w')) → I w → I w'.
Proof.
  apply (keep_retry I). clear c w r c' w'. intros c w r c' w' Hr. unfold patch_body in Hr. keep Hr.
Qed.

Lemma keep_patch_status ns name f (w : W) r w' : patch_status ns name f w = (r, w') → I w → I w'.
Proof.
  unfold patch_status. destruct (patchAttemptStatus _ _ _ _ w) as [r1 [c1 w1]] eqn:Hp.
  intros [= <- <-]. by eapply keep_patch.
Qed.

Lemma keep_markReleased ns name (w : W) r w' : markClaimReleased ns name w = (r, w') → I w → I w'.
Proof. apply (keep_retry1 I). clear w r w'. intros w1 r w2 Hr. unfold mark_released_body in Hr. keep Hr. Qed.

Lemma keep_markLive ns name (w : W) r w' : markClaimLive ns name w = (r, w') → I w → I w'.
Proof. apply (keep_retry1 I). clear w r w'. intros w1 r w2 Hr. unfold mark_live_body in Hr. keep Hr. Qed.

#[local] Hint Resolve keep_patch keep_patch_status keep_markReleased keep_markLive : frame.

Lemma keep_ReleaseClaim ns name reason (w : W) r w' : ReleaseClaim ns name reason w = (r, w') → I w → I w'.
Proof. intros Hr. unfold ReleaseClaim in Hr. keep Hr. Qed.

Lemma keep_ReleaseClaimDead ns name reason (w : W) r w' : ReleaseClaimDead ns name reason w = (r, w') → I w → I w'.
Proof. intros Hr. unfold ReleaseClaimDead in Hr. keep Hr. Qed.

Lemma keep_cancel ns name reason (w : W) r w' : FinalizeCancelledClaim ns name reason w = (r, w') → I w → I w'.
Proof. intros Hr. unfold FinalizeCancelledClaim in Hr. keep Hr. Qed.

Lemma keep_hold ns name note cause (w : W) r w' : SetClaimHold ns name note cause w = (r, w') → I w → I w'.
Proof. intros Hr. unfold SetClaimHold in Hr. keep Hr. Qed.

End patches.

Section frame.
Context {W : Type} `{kube : KubeClient W} `{rc : RetryOnConflict} `{!RetryLaws}.
Context (I : W → Prop) (F : LedgerFrame I).

Let k_get := lf_get I F.
Let k_create := lf_create I F.
Let k_delete := lf_delete I F.
Let k_list := lf_list I F.
Let k_status := lf_status I F.
Let k_labels := lf_labels I F.
Let k_patch {C} := @keep_patch W _ _ _ I F C.
Let k_patch_status := keep_patch_status I F.
Let k_markReleased := keep_markReleased I F.
Let k_markLive := keep_markLive I F.
Let k_ReleaseClaim := keep_ReleaseClaim I F.
Let k_ReleaseClaimDead := keep_ReleaseClaimDead I F.
Let k_cancel := keep_cancel I F.
Let k_hold := keep_hold I F.
#[local] Hint Resolve k_get k_create k_delete k_list k_status k_labels k_patch k_patch_status k_markReleased k_markLive : frame.
#[local] Hint Resolve k_ReleaseClaim k_ReleaseClaimDead k_cancel k_hold : frame.

Lemma keep_live label_error wf (w : W) r w' : LiveReviewClaims label_error wf w = (r, w') → I w → I w'.
Proof. intros Hr. unfold LiveReviewClaims in Hr. keep Hr. Qed.

#[local] Hint Resolve keep_live : frame.

Lemma keep_resolve owner_error obj opts (w : W) r w' : ResolveOrCreate owner_error obj opts w = (r, w') → I w → I w'.
Proof. intros Hr. unfold ResolveOrCreate in Hr. keep Hr. Qed.

Lemma keep_release_others ns pr a others (w : W) r w' : release_others ns pr a others w = (r, w') → I w → I w'.
Proof.
  revert w. induction others as [|o others IH]; intros w Hr; cbn [release_others] in Hr; keep Hr.
Qed.

Lemma keep_abandon wf a created e (w : W) r w' : armAbandon wf a created e w = (r, w') → I w → I w'.
Proof. intros Hr. unfold armAbandon in Hr. keep Hr. Qed.

#[local] Hint Resolve keep_resolve keep_release_others keep_abandon : frame.

Lemma keep_arm_writes label_error wf pr sha label human expiry a (w : W) r w' :
  arm_writes label_error wf pr sha label human expiry a w = (r, w') → I w → I w'.
Proof. intros Hr. unfold arm_writes in Hr. keep Hr. Qed.
#[local] Hint Resolve keep_arm_writes : frame.

Lemma keep_ArmClaim label_error url_path owner_error scheme wf pr sha label human (w : W) r w' :
  ArmClaim label_error url_path owner_error scheme wf pr sha label human w = (r, w') → I w → I w'.
Proof. intros Hr. unfold ArmClaim in Hr. keep Hr. Qed.
#[local] Hint Resolve keep_ArmClaim : frame.

Lemma keep_intent ns name (w : W) r w' : MarkDispatchIntent ns name w = (r, w') → I w → I w'.
Proof. by apply keep_patch_status. Qed.

Lemma keep_edge ns name job (w : W) r w' : MarkClaimDispatched ns name job w = (r, w') → I w → I w'.
Proof. by apply keep_patch_status. Qed.

Lemma keep_complete ns name job (w : W) r w' : CompleteDispatchEdge ns name job w = (r, w') → I w → I w'.
Proof.
  unfold CompleteDispatchEdge. intros Hr Hi. destruct (kc_get _ w) as [r1 w1] eqn:Hg. apply k_get in Hg; [|done].
  destruct r1 as [a|e]; [|by simplify_eq].
  destruct (st_Review (at_Status a)) as [rv|]; [destruct (decide _); [by simplify_eq|]|]; by apply keep_edge in Hr.
Qed.

Lemma keep_supersede_loop ns current items n (w : W) r w' :
  supersede_loop ns current items n w = (r, w') → I w → I w'.
Proof.
  revert n w. induction items as [|p items IH]; intros n w Hr; cbn [supersede_loop] in Hr; keep Hr.
Qed.
#[local] Hint Resolve keep_supersede_loop : frame.

Lemma keep_supersede ns name current (w : W) r w' : SupersedePriorAttempts ns name current w = (r, w') → I w → I w'.
Proof. intros Hr. unfold SupersedePriorAttempts in Hr. keep Hr. Qed.

End frame.
