(* ===== verification/Json.v ===== *)
(** * JSON values and their decoding into structs, as [encoding/json] does it

    A body is parsed to a tree by a parameter of the model; a struct is decoded
    from the tree by its fields' names and types. A key the struct does not have
    is ignored, a field without a key or with [null] keeps its zero value, and a
    value of another type is an error. *)

From S2P Require Import Prelude.

Inductive json : Type :=
| JNull
| JBool (b : bool)
| JInt (z : Z)
| JFloat (text : string)
| JStr (s : string)
| JArr (l : list json)
| JObj (fields : list (string * json)).

(** A decoder: [None] is an [UnmarshalTypeError]. Its value at [JNull] is the
    zero value of the type. *)
Notation Decoder A := (json → option A).

(** The last key that names the field, an ASCII case fold apart. *)
Fixpoint json_field (name : string) (fields : list (string * json)) : option json :=
  match fields with
  | [] => None
  | (k, v) :: fields =>
      match json_field name fields with
      | Some w => Some w
      | None => if decide (lower_ascii k = lower_ascii name) then Some v else None
      end
  end.

Definition field {A} (name : string) (dec : Decoder A) (fields : list (string * json)) : option A :=
  dec (default JNull (json_field name fields)).

Definition dec_string : Decoder string := λ j,
  match j with JStr s => Some s | JNull => Some "" | _ => None end.
Definition dec_int : Decoder Z := λ j,
  match j with
  | JInt z => if (min_int64 <=? z) && (z <=? max_int64) then Some z else None
  | JNull => Some 0
  | _ => None
  end.
Definition dec_bool : Decoder bool := λ j,
  match j with JBool b => Some b | JNull => Some false | _ => None end.
Definition dec_list {A} (dec : Decoder A) : Decoder (list A) := λ j,
  match j with JArr l => mapM dec l | JNull => Some [] | _ => None end.
Definition dec_struct {A} (f : list (string * json) → option A) : Decoder A := λ j,
  match j with JObj fields => f fields | JNull => f [] | _ => None end.
(** An [any]: was it set? *)
Definition dec_any_set : Decoder bool := λ j,
  match j with JNull => Some false | _ => Some true end.
(** A [map[string]any]: is it non-nil? *)
Definition dec_map_set : Decoder bool := λ j,
  match j with JNull => Some false | JObj _ => Some true | _ => None end.
