(* ===== verification/Carry.v ===== *)
(** * The carry of a finished round ([internal/sessionstore/carry.go])

    The bounded trace a round leaves to the next: extracted from the session's
    lines, the prior trace folded below it. The JSON parser and the decoder of
    a timestamp's text are parameters; a map from tool to count is a [gmap]. *)

From S2P Require Import Prelude GoStrings GoTime Json.

Definition MaxCarryBytes : Z := 24576.
Definition maxCarryPrior : Z := 12288.
Definition maxCarryFinal : Z := 8192.
Definition maxCarryFiles : nat := 40.

(** ** The events of a session *)

Record Content := { ctn_Type : string; ctn_Text : string; ctn_Name : string; ctn_Arguments : option json }.
Record Event := {
  evt_Type : string; evt_Timestamp : Z; evt_ModelId : string; evt_Role : string; evt_Content : list Content;
}.

Definition dec_time (parse_time : string → option Z) : Decoder Z := λ j,
  match j with JStr s => parse_time s | JNull => Some 0 | _ => None end.

(** A [json.RawMessage]: absent, or the value. *)
Definition raw_field (name : string) (fields : list (string * json)) : option json := json_field name fields.

Definition dec_content : Decoder Content :=
  dec_struct (λ f,
    t ← field "type" dec_string f;
    text ← field "text" dec_string f;
    name ← field "name" dec_string f;
    Some {| ctn_Type := t; ctn_Text := text; ctn_Name := name; ctn_Arguments := raw_field "arguments" f |}).

Definition dec_event (parse_time : string → option Z) : Decoder Event :=
  dec_struct (λ f,
    t ← field "type" dec_string f;
    ts ← field "timestamp" (dec_time parse_time) f;
    m ← field "modelId" dec_string f;
    msg ← field "message" (dec_struct (λ g,
            role ← field "role" dec_string g;
            content ← field "content" (dec_list dec_content) g;
            Some (role, content))) f;
    Some {| evt_Type := t; evt_Timestamp := ts; evt_ModelId := m; evt_Role := msg.1; evt_Content := msg.2 |}).

(** ** Tool calls *)

(** [map[string]any]: the last key wins. *)
Fixpoint exact_key (name : string) (fields : list (string * json)) : option json :=
  match fields with
  | [] => None
  | (k, v) :: fields =>
      match exact_key name fields with
      | Some w => Some w
      | None => if decide (k = name) then Some v else None
      end
  end.

Definition toolCallPaths (name : string) (args : option json) : list string :=
  let n := ToLower name in
  if negb (str_contains n "edit") && negb (str_contains n "write") && negb (str_contains n "patch") then []
  else match args with
  | Some (JObj a) =>
      ["path"; "file_path"; "notebook_path"] ≫= λ k,
        match exact_key k a with
        | Some (JStr v) => if decide (v = "") then [] else [v]
        | _ => []
        end
  | _ => []
  end.

Definition histogram_le (x y : string * Z) : Prop :=
  y.2 < x.2 ∨ x.2 = y.2 ∧ String.le x.1 y.1.
#[export] Instance histogram_le_dec x y : Decision (histogram_le x y).
Proof. unfold histogram_le. apply _. Defined.

Definition renderToolHistogram (tools : gmap string Z) : string :=
  join ", " ((λ p, p.1 +:+ "×" +:+ pretty p.2) <$> take 8 (merge_sort histogram_le (map_to_list tools))).

(** ** Cutting *)

Definition truncate (s : string) (max : Z) : string :=
  if slen s <=? max then s
  else str_take (Z.to_nat max) s +:+ bytes_of [10; 10] +:+ "…(truncated)".

Definition trim_mark : string := bytes_of [10; 10] +:+ "…(older rounds trimmed)".
Definition truncateHead (s : string) (max : Z) : string :=
  if slen s <=? max then s else str_take (Z.to_nat max) s +:+ trim_mark.

(** ** One round *)

Record Round := {
  rd_first : Z; rd_last : Z; rd_models : list string; rd_assistant : Z; rd_toolCalls : Z;
  rd_tools : gmap string Z; rd_files : list string; rd_finalText : string;
}.

Definition no_round : Round :=
  {| rd_first := 0; rd_last := 0; rd_models := []; rd_assistant := 0; rd_toolCalls := 0; rd_tools := ∅;
     rd_files := []; rd_finalText := "" |}.

Definition add_once (x : string) (l : list string) : list string := if decide (x ∈ l) then l else l ++ [x].

Definition see_time (t : Z) (r : Round) : Round :=
  if time_IsZero t then r
  else {| rd_first := if time_IsZero (rd_first r) || (t <? rd_first r) then t else rd_first r;
          rd_last := if time_After t (rd_last r) then t else rd_last r;
          rd_models := rd_models r; rd_assistant := rd_assistant r; rd_toolCalls := rd_toolCalls r;
          rd_tools := rd_tools r; rd_files := rd_files r; rd_finalText := rd_finalText r |}.

Definition see_model (m : string) (r : Round) : Round :=
  if decide (m = "") then r
  else {| rd_first := rd_first r; rd_last := rd_last r; rd_models := add_once m (rd_models r);
          rd_assistant := rd_assistant r; rd_toolCalls := rd_toolCalls r;
          rd_tools := rd_tools r; rd_files := rd_files r; rd_finalText := rd_finalText r |}.

Definition see_content (r : Round) (c : Content) : Round :=
  if decide (ctn_Type c = "toolCall") then
    {| rd_first := rd_first r; rd_last := rd_last r; rd_models := rd_models r;
       rd_assistant := rd_assistant r; rd_toolCalls := rd_toolCalls r + 1;
       rd_tools := <[ctn_Name c := default 0 (rd_tools r !! ctn_Name c) + 1]> (rd_tools r);
       rd_files := foldl (λ l p, add_once p l) (rd_files r) (toolCallPaths (ctn_Name c) (ctn_Arguments c));
       rd_finalText := rd_finalText r |}
  else if decide (ctn_Type c = "text") then
    {| rd_first := rd_first r; rd_last := rd_last r; rd_models := rd_models r;
       rd_assistant := rd_assistant r; rd_toolCalls := rd_toolCalls r; rd_tools := rd_tools r;
       rd_files := rd_files r;
       rd_finalText := if decide (TrimSpace (ctn_Text c) = "") then rd_finalText r else TrimSpace (ctn_Text c) |}
  else r.

Definition see_assistant (r : Round) : Round :=
  {| rd_first := rd_first r; rd_last := rd_last r; rd_models := rd_models r;
     rd_assistant := rd_assistant r + 1; rd_toolCalls := rd_toolCalls r; rd_tools := rd_tools r;
     rd_files := rd_files r; rd_finalText := rd_finalText r |}.

Definition see_event (r : Round) (ev : Event) : Round :=
  let r := see_time (evt_Timestamp ev) r in
  if decide (evt_Type ev = "model_change") then see_model (evt_ModelId ev) r
  else if decide (evt_Type ev = "message" ∧ evt_Role ev = "assistant")
  then foldl see_content (see_assistant r) (evt_Content ev)
  else r.

(** ** The trace *)

Definition nl : string := String "010" "".

Definition skeleton (r : Round) (head : string) : string :=
  "## This round" +:+ nl
  +:+ (if time_IsZero (rd_first r) then ""
       else "- span: " +:+ format_RFC3339 (rd_first r) +:+ " → " +:+ format_RFC3339 (rd_last r) +:+ nl)
  +:+ (if decide (head = "") then ""
       else "- head: " +:+ (if 12 <? slen head then str_take 12 head else head) +:+ nl)
  +:+ (match rd_models r with [] => "" | _ => "- models: " +:+ join ", " (rd_models r) +:+ nl end)
  +:+ "- turns: " +:+ pretty (rd_assistant r) +:+ " assistant messages, " +:+ pretty (rd_toolCalls r) +:+ " tool calls" +:+ nl
  +:+ (if decide (rd_tools r = ∅) then "" else "- tools: " +:+ renderToolHistogram (rd_tools r) +:+ nl)
  +:+ (match rd_files r with
       | [] => ""
       | files => "- files touched" +:+ (if decide (maxCarryFiles < length files)%nat then " (first 40)" else "")
                  +:+ ": " +:+ join "; " (take maxCarryFiles files) +:+ nl
       end)
  +:+ (if decide (rd_finalText r = "") then ""
       else nl +:+ "### Closing rationale" +:+ nl +:+ nl +:+ truncate (rd_finalText r) maxCarryFinal +:+ nl).

Definition fold_prior (prior : string) : string :=
  let p := TrimSpace prior in
  if decide (p = "") then ""
  else nl +:+ "## Earlier rounds (newest first)" +:+ nl +:+ nl +:+ truncateHead p maxCarryPrior +:+ nl.

Section carry.
Context (parse_json : string → option json) (parse_time : string → option Z).

Definition read_line (line : string) : option Event :=
  let line := TrimSpace line in
  if decide (line = "") then None else parse_json line ≫= dec_event parse_time.

Definition read_round (raw : string) : Round :=
  foldl (λ r line, match read_line line with Some ev => see_event r ev | None => r end) no_round
    (split_byte "010"%char raw).

Definition ExtractCarry (raw prior head : string) : string :=
  truncateHead (skeleton (read_round raw) head +:+ fold_prior prior) MaxCarryBytes.

(** ** Bounds *)

Lemma slen_str_take n s : slen (str_take n s) ≤ Z.of_nat n.
Proof. unfold slen. pose proof (length_str_take n s). lia. Qed.

Lemma truncateHead_bound s max : 0 ≤ max → slen (truncateHead s max) ≤ max + slen trim_mark.
Proof.
  intros Hm. unfold truncateHead. pose proof (slen_nonneg trim_mark).
  destruct (Z.leb_spec (slen s) max); [lia|]. rewrite slen_app.
  pose proof (slen_str_take (Z.to_nat max) s). lia.
Qed.

Lemma str_take_app_l n s t : (n ≤ String.length s)%nat → str_take n (s +:+ t) = str_take n s.
Proof.
  revert s. induction n as [|n IH]; intros [|c s]; cbn; intros; try done; try lia.
  rewrite app_str_cons. cbn. by rewrite IH by lia.
Qed.

(** The carry is bounded, whatever the transcript, the prior carry and the
    head: at most the cap and the mark of the cut. A carry folded into itself
    round after round keeps the bound. What fits the cap is carried whole: the
    new round's skeleton first, then the prior trace, cut at its own cap. *)
Theorem ExtractCarry_bounded raw prior head :
  slen (ExtractCarry raw prior head) ≤ MaxCarryBytes + slen trim_mark
  ∧ (slen (skeleton (read_round raw) head) + slen (fold_prior prior) ≤ MaxCarryBytes →
     ExtractCarry raw prior head = skeleton (read_round raw) head +:+ fold_prior prior)
  ∧ slen (fold_prior prior) ≤ maxCarryPrior + slen trim_mark + 36.
Proof.
  split_and!.
  - by apply truncateHead_bound.
  - intros H. unfold ExtractCarry, truncateHead. rewrite slen_app.
    by rewrite (proj2 (Z.leb_le _ _) H).
  - unfold fold_prior. destruct (decide _); [by vm_compute|].
    rewrite !slen_app. pose proof (truncateHead_bound (TrimSpace prior) maxCarryPrior ltac:(done)) as H.
    change (slen nl) with 1. change (slen "## Earlier rounds (newest first)") with 32. lia.
Qed.
End carry.

(** The cap itself is exceeded by the mark. *)
Fixpoint str_repeat (n : nat) (s : string) : string := match n with O => "" | S n => s +:+ str_repeat n s end.
Definition long_files : json :=
  JObj [("type", JStr "message");
        ("message", JObj [("role", JStr "assistant");
           ("content", JArr [JObj [("type", JStr "toolCall"); ("name", JStr "edit");
              ("arguments", JObj [("path", JStr (str_repeat 2500 "0123456789"))])]])])].

Lemma carry_exceeds_cap :
  slen (ExtractCarry (λ _, Some long_files) (λ _, None) "x" "" "") = MaxCarryBytes + slen trim_mark.
Proof. vm_compute. reflexivity. Qed.

Example carry_small :
  ExtractCarry (λ _, Some (JObj [("type", JStr "message"); ("message", JObj [("role", JStr "assistant");
      ("content", JArr [JObj [("type", JStr "text"); ("text", JStr " done ")]])])])) (λ _, None) "x" "" "0123456789abcdef"
  = "## This round" +:+ nl +:+ "- head: 0123456789ab" +:+ nl +:+ "- turns: 1 assistant messages, 0 tool calls" +:+ nl
    +:+ nl +:+ "### Closing rationale" +:+ nl +:+ nl +:+ "done" +:+ nl.
Proof. vm_compute. reflexivity. Qed.
