(* ===== verification/Review.v ===== *)
(** * The review engine's data and pure parts ([internal/review/review.go])

    Decisions, evaluations and their codes, hosts, the normalisation and the
    merge of commit statuses and check runs into one state per context, the
    classification of required contexts, and the verdict trailer that a posted
    review leaves in the conversation. *)

From S2P Require Import Prelude GoStrings GoTime.

(** ** Decisions *)

Definition DecisionProceed : string := "proceed".
Definition DecisionWaiting : string := "waiting".
Definition DecisionStanddown : string := "standdown".

Record Envelope := {
  en_Repo : string;
  en_PR : Z;
  en_HeadSHA : string;
  en_Base : string;
  en_Label : string;
  en_RequiredContexts : list string;
  en_GreenContexts : list string;
  en_VerdictURL : string;
  en_VerdictDecision : string;
}.

Record Evaluation := {
  ee_Decision : string;
  ee_Reason : string;
  ee_Code : string;
  ee_Envelope : option Envelope;
}.

(** [ReleaseCode]; "" is a legacy producer. *)
Definition CodePRClosed : string := "pr-closed".
Definition CodeConsumed : string := "consumed".
Definition CodeHorizon : string := "horizon".
Definition CodeHeadMoved : string := "head-moved".
Definition CodeDispatchDead : string := "dispatch-dead".
Definition CodeStanddown : string := "standdown".
Definition CodeVerdictStanding : string := "verdict-standing".

Definition waiting (reason : string) : Evaluation :=
  {| ee_Decision := DecisionWaiting; ee_Reason := reason; ee_Code := ""; ee_Envelope := None |}.

Definition standdown (code reason : string) : Evaluation :=
  {| ee_Decision := DecisionStanddown; ee_Reason := reason; ee_Code := code; ee_Envelope := None |}.

Definition HoldCauseCIPending : string := "ci-pending".
Definition HoldCauseCIRed : string := "ci-red".
Definition HoldCauseLabelAbsent : string := "label-absent".
Definition HoldCauseAPIError : string := "api-error".
Definition HoldCauseVerdictCheck : string := "verdict-check".
Definition HoldCauseDispatched : string := "dispatched".

Definition HoldCauseOf (reason : string) : string :=
  if str_contains reason "ci pending at head" then HoldCauseCIPending
  else if str_contains reason "ci red at head" then HoldCauseCIRed
  else if str_contains reason "the review label is absent" then HoldCauseLabelAbsent
  else if str_contains reason "verdict check failed" then HoldCauseVerdictCheck
  else if str_contains reason "pr fetch failed" then HoldCauseAPIError
  else if str_contains reason "review in flight" then HoldCauseDispatched
  else "".

(** ** What the forge answers *)

Record ReviewThread := {
  th_ID : Z;
  th_Body : string;
  th_Path : string;
  th_Resolved : bool;
  th_IsReply : bool;
}.

Record PullRequest := {
  pl_Number : Z;
  pl_State : string;
  pl_HeadSHA : string;
  pl_Base : string;
  pl_Labels : list string;
}.

Definition HasLabel (pr : PullRequest) (label : string) : bool :=
  existsb (λ l, bool_decide (l = label)) (pl_Labels pr).

Record IssueComment := {
  ic_ID : Z;
  ic_Body : string;
  ic_HTMLURL : string;
}.

(** ** Hosts *)

Definition HostGitHub : string := "github".
Definition HostForgejo : string := "forgejo".

Record Host := {
  hs_Kind : string;
  hs_APIBase : string;
  hs_RepoPath : string;
}.

Definition ResolveHost (repo : string) : result string Host :=
  match split_byte "/" (TrimSpace repo) with
  | [h; o; n] =>
      Ok (if decide (h = "github.com")
          then {| hs_Kind := HostGitHub; hs_APIBase := "https://api.github.com";
                  hs_RepoPath := o +:+ "/" +:+ n |}
          else {| hs_Kind := HostForgejo; hs_APIBase := "https://" +:+ h +:+ "/api/v1";
                  hs_RepoPath := o +:+ "/" +:+ n |})
  | [o; n] => Ok {| hs_Kind := HostGitHub; hs_APIBase := "https://api.github.com";
                    hs_RepoPath := o +:+ "/" +:+ n |}
  | _ => Err ("review: bad repo path " +:+ repo)
  end.

Definition TokenEnvNames (h : Host) : list string :=
  if decide (hs_Kind h = HostGitHub) then ["HARMOSTES_GIT_TOKEN"; "HARMOSTES_GITHUB_TOKEN"]
  else if decide (hs_Kind h = HostForgejo) then
    if str_contains (hs_APIBase h) "codeberg.org"
    then ["HARMOSTES_CODEBERG_TOKEN"; "LLM_WIKI_CODEBERG_TOKEN"]
    else if str_contains (hs_APIBase h) "git.rezus.cloud"
    then ["HARMOSTES_FORGEJO_TOKEN"; "HARMOSTES_RZC_PASSWORD"]
    else ["HARMOSTES_FORGEJO_TOKEN"; "HARMOSTES_GIT_TOKEN"]
  else [].

(** ** One state per context *)

Definition normalizeStatusState (s : string) : string :=
  if decide (s = "success") then "success"
  else if decide (s = "skipped") then "success"
  else if decide (s = "pending") then "pending"
  else "failure".

Definition normalizeCheckRun (status conclusion : string) : string :=
  if bool_decide (status ∈ ["queued"; "in_progress"; "waiting"; "pending"; "running"; "blocked"])
  then "pending"
  else if bool_decide (conclusion ∈ ["success"; "skipped"; "neutral"]) then "success"
  else if bool_decide (conclusion ∈ ["failure"; "cancelled"; "timed_out"; "action_required"])
  then "failure"
  else "pending".

Record StatusRow := { sw_Context : string; sw_State : string; sw_StatusF : string; sw_CreatedAt : string }.
Record CheckRow := { cw_Name : string; cw_Status : string; cw_Conclusion : string }.

(** [state], or [status] when that is empty. *)
Definition row_value (s : StatusRow) : string :=
  if decide (sw_State s = "") then sw_StatusF s else sw_State s.

Notation States := (gmap string string).

Definition first_wins (states : States) (k v : string) : States :=
  match states !! k with Some _ => states | None => <[k := v]> states end.

Definition add_checks (checks : list CheckRow) (states : States) : States :=
  foldl (λ st c, first_wins st (cw_Name c) (normalizeCheckRun (cw_Status c) (cw_Conclusion c)))
    states checks.

Definition github_statuses (rows : list StatusRow) : States :=
  foldl (λ st s, first_wins st (sw_Context s) (normalizeStatusState (sw_State s))) ∅ rows.

Definition forgejo_combined (rows : list StatusRow) : States :=
  foldl (λ st s, first_wins st (sw_Context s) (normalizeStatusState (row_value s))) ∅ rows.

Definition combinedCovered (rows : list StatusRow) : gset string :=
  list_to_set (sw_Context <$> rows).

(** The map [precedence]; a missing key reads as 0. *)
Definition precedence (s : string) : Z := if decide (s = "pending") then 1 else 0.

(** The loop over the raw rows: the states and [curAt]. *)
Definition raw_row (covered : gset string) (acc : States * gmap string string) (s : StatusRow)
    : States * gmap string string :=
  let '(states, curAt) := acc in
  let ctx := sw_Context s in
  if decide (ctx ∈ covered) then acc
  else
    let nv := normalizeStatusState (row_value s) in
    match states !! ctx with
    | None => (<[ctx := nv]> states, <[ctx := sw_CreatedAt s]> curAt)
    | Some cur =>
        let at_ := default "" (curAt !! ctx) in
        let states :=
          if bool_decide (sw_CreatedAt s = at_) && (precedence nv <? precedence cur)
          then <[ctx := nv]> states
          else if String.ltb at_ (sw_CreatedAt s) then <[ctx := nv]> states
          else states in
        (states, <[ctx := sw_CreatedAt s]> curAt)
    end.

Definition raw_rows (covered : gset string) (rows : list StatusRow) (states : States) : States :=
  (foldl (raw_row covered) (states, ∅) rows).1.

Definition github_states (rows : list StatusRow) (checks : list CheckRow) : States :=
  add_checks checks (github_statuses rows).

Definition forgejo_states (combined raw : list StatusRow) (checks : list CheckRow) : States :=
  add_checks checks (raw_rows (combinedCovered combined) raw (forgejo_combined combined)).

(** ** Required contexts *)

Record Buckets := { bk_red : list string; bk_running : list string;
                    bk_missing : list string; bk_green : list string }.

Definition classify_one (states : States) (ctx : string) (b : Buckets) : Buckets :=
  let v := default "" (states !! ctx) in
  if decide (v = "success") then
    {| bk_red := bk_red b; bk_running := bk_running b; bk_missing := bk_missing b;
       bk_green := bk_green b ++ [ctx] |}
  else if decide (v = "failure") then
    {| bk_red := bk_red b ++ [ctx]; bk_running := bk_running b; bk_missing := bk_missing b;
       bk_green := bk_green b |}
  else if decide (v = "pending") then
    {| bk_red := bk_red b; bk_running := bk_running b ++ [ctx]; bk_missing := bk_missing b;
       bk_green := bk_green b |}
  else if decide (v = "skipped") then
    {| bk_red := bk_red b; bk_running := bk_running b; bk_missing := bk_missing b;
       bk_green := bk_green b ++ [ctx] |}
  else
    {| bk_red := bk_red b; bk_running := bk_running b; bk_missing := bk_missing b ++ [ctx];
       bk_green := bk_green b |}.

Definition no_buckets : Buckets :=
  {| bk_red := []; bk_running := []; bk_missing := []; bk_green := [] |}.

Definition classifyRequiredContexts (required : list string) (states : States) : Buckets :=
  foldl (λ b ctx, classify_one states ctx b) no_buckets required.

Definition ciWaitingHead (head : string) : string :=
  if 7 <? slen head then str_take 7 head else head.

(** The contexts observed at the head, this gate's own excepted, sorted. *)
Definition observed_contexts (states : States) : list string :=
  merge_sort String.le (filter (λ c, has_prefix c "pr-review/" = false) (map_to_list states).*1).

(** ** The verdict trailer *)

Definition hex_byte (c : ascii) : bool :=
  is_digit c || ((97 <=? byte_val c) && (byte_val c <=? 102)).

(** [([0-9a-f]{7,40}) -->]. The terminator starts outside the class, so the
    group is the whole run. *)
Definition sha_close (s : string) : option string :=
  let '(h, r) := span hex_byte s in
  if (7 <=? slen h) && (slen h <=? 40) && has_prefix r " -->" then Some h else None.

Definition verdict_decisions : list string := ["APPROVE"; "REQUEST_CHANGES"; "COMMENT"].

Definition trailer_one (s d : string) : option string :=
  strip_prefix ("<!-- pr-review: " +:+ d +:+ " @ ") s ≫= sha_close.

Fixpoint trailer_among (ds : list string) (s : string) : option (string * string) :=
  match ds with
  | [] => None
  | d :: ds => match trailer_one s d with Some h => Some (d, h) | None => trailer_among ds s end
  end.

(** The first position of [s] at which [at_] matches ([FindStringSubmatch]). *)
Fixpoint find_match {A} (at_ : string → option A) (s : string) : option A :=
  match at_ s with
  | Some a => Some a
  | None => match s with String _ s' => find_match at_ s' | "" => None end
  end.

Definition verdictTrailer (body : string) : option (string * string) :=
  find_match (trailer_among verdict_decisions) body.

(** The recorded sha is ASCII hexadecimal, and a prefix of the head only if
    those bytes of the head are: on them [ToLower] is the byte map. *)
Definition ShaPrefixMatch (head recorded : string) : bool :=
  has_prefix (lower_ascii head) (lower_ascii recorded).

Fixpoint standingVerdictAt (comments : list IssueComment) (headSHA : string)
    : option (string * IssueComment) :=
  match comments with
  | [] => None
  | c :: comments =>
      match verdictTrailer (ic_Body c) with
      | None => standingVerdictAt comments headSHA
      | Some (d, h) => if ShaPrefixMatch headSHA h then Some (d, c)
                       else standingVerdictAt comments headSHA
      end
  end.

Definition hasVerdict (comments : list IssueComment) : bool :=
  existsb (λ c, bool_decide (is_Some (verdictTrailer (ic_Body c)))) comments.

Definition armTime (prev now : Z) : Z := if time_IsZero prev then now else prev.

Definition stateWord (s : string) : string := if decide (s = "closed") then "closed" else s.

(** ** Facts *)

Lemma HasLabel_spec pr label : HasLabel pr label = true ↔ label ∈ pl_Labels pr.
Proof.
  unfold HasLabel. rewrite existsb_exists. setoid_rewrite bool_decide_eq_true.
  setoid_rewrite <- list_elem_of_In. naive_solver.
Qed.

Lemma find_match_spec {A} (at_ : string → option A) s a :
  find_match at_ s = Some a ↔
  ∃ x y, s = x +:+ y ∧ at_ y = Some a
         ∧ ∀ x1 x2, x = x1 +:+ x2 → x2 ≠ "" → at_ (x2 +:+ y) = None.
Proof.
  split.
  - revert a. induction s as [|c s IH]; intros a; simpl; destruct (at_ _) as [b|] eqn:Hb; try done.
    + intros [= ->]. exists "", "". split_and!; [done..|]. intros x1 x2 Hx Hne.
      symmetry in Hx. by destruct x1, x2.
    + intros [= ->]. exists "", (String c s). split_and!; [done..|]. intros x1 x2 Hx Hne.
      symmetry in Hx. by destruct x1, x2.
    + intros (x&y&->&Hy&Hmin)%IH. exists (String c x), y. split_and!; [done..|].
      intros [|d x1] x2 Hx Hne.
      * rewrite app_str_nil_l in Hx. subst x2. exact Hb.
      * rewrite app_str_cons in Hx. injection Hx as _ Hx. by eapply Hmin.
  - intros (x&y&->&Hy&Hmin). induction x as [|c x IH].
    + rewrite app_str_nil_l. destruct y; simpl; by rewrite Hy.
    + rewrite app_str_cons. simpl. pose proof (Hmin "" (String c x) eq_refl) as H0.
      rewrite app_str_cons in H0. rewrite H0 by done. apply IH.
      intros x1 x2 -> Hne. by apply (Hmin (String c x1)).
Qed.

Lemma sha_close_spec s h :
  sha_close s = Some h ↔
  ∃ r, s = h +:+ " -->" +:+ r ∧ all_bytes hex_byte h = true ∧ 7 ≤ slen h ≤ 40.
Proof.
  unfold sha_close. split.
  - destruct (span hex_byte s) as [h' r] eqn:Hs. destruct (_ && _) eqn:Hb; [|done].
    intros [= ->]. to_prop. apply span_app in Hs as [-> ?].
    match goal with H : has_prefix _ _ = true |- _ => apply has_prefix_spec in H as [r' ->] end.
    exists r'. split_and!; [done|done|lia|lia].
  - intros (r&->&Hh&Hl). change (" -->" +:+ r) with (String " " ("-->" +:+ r)).
    rewrite (span_stop hex_byte h " " _ Hh eq_refl).
    rewrite (proj2 (Z.leb_le 7 _)), (proj2 (Z.leb_le _ 40)) by lia.
    change (String " " ("-->" +:+ r)) with (" -->" +:+ r). by rewrite has_prefix_refl.
Qed.

(** [s] starts with the trailer of decision [d] at sha [h]. *)
Definition trailer_of (d h : string) (s : string) : Prop :=
  (∃ r, s = "<!-- pr-review: " +:+ d +:+ " @ " +:+ h +:+ " -->" +:+ r)
  ∧ all_bytes hex_byte h = true ∧ 7 ≤ slen h ≤ 40.

Lemma trailer_one_spec s d h : trailer_one s d = Some h ↔ trailer_of d h s.
Proof.
  unfold trailer_one, trailer_of. rewrite bind_Some. setoid_rewrite strip_prefix_Some.
  setoid_rewrite sha_close_spec. setoid_rewrite app_str_assoc. setoid_rewrite app_str_assoc.
  naive_solver.
Qed.

Lemma trailer_among_spec s d h :
  trailer_among verdict_decisions s = Some (d, h) ↔ d ∈ verdict_decisions ∧ trailer_of d h s.
Proof.
  assert (∀ d1 d2 h1 h2, d1 ∈ verdict_decisions → d2 ∈ verdict_decisions →
    trailer_of d1 h1 s → trailer_of d2 h2 s → d1 = d2) as Hone.
  { intros d1 d2 h1 h2 H1 H2 ((r1&E1)&_) ((r2&E2)&_). rewrite E1 in E2. apply app_str_inj in E2.
    unfold verdict_decisions in *. set_unfold. by destruct H1 as [->|[->|[->|?]]], H2 as [->|[->|[->|?]]]. }
  assert (∀ ds, ds ⊆ verdict_decisions → trailer_among ds s = Some (d, h) ↔ d ∈ ds ∧ trailer_of d h s)
    as Hall; [|by apply Hall].
  intros ds Hsub. induction ds as [|e ds IH]; simpl; [set_solver|].
  destruct (trailer_one s e) as [h'|] eqn:He.
  - pose proof He as He'. apply trailer_one_spec in He'. split.
    + intros [= -> ->]. split; [by left|done].
    + intros [Hd Ht]. assert (e = d) as <- by (eapply Hone; [..|done|done]; set_solver).
      apply trailer_one_spec in Ht. congruence.
  - rewrite IH by set_solver. split; [intros [??]; split; [by right|done]|].
    intros [Hd Ht]. apply elem_of_cons in Hd as [->|?]; [|done].
    apply trailer_one_spec in Ht. congruence.
Qed.

(** The trailer a comment carries is the leftmost text of that form. *)
Lemma verdictTrailer_spec body d h :
  verdictTrailer body = Some (d, h) ↔
  ∃ x y, body = x +:+ y ∧ d ∈ verdict_decisions ∧ trailer_of d h y
    ∧ ∀ x1 x2 d' h', x = x1 +:+ x2 → x2 ≠ "" → d' ∈ verdict_decisions → ¬ trailer_of d' h' (x2 +:+ y).
Proof.
  unfold verdictTrailer. rewrite find_match_spec. setoid_rewrite trailer_among_spec. split.
  - intros (x&y&->&[??]&Hmin). exists x, y. split_and!; [done..|]. intros x1 x2 d' h' Hx Hne Hd Ht.
    assert (trailer_among verdict_decisions (x2 +:+ y) = Some (d', h')) as Hs by by apply trailer_among_spec.
    by rewrite (Hmin x1 x2) in Hs.
  - intros (x&y&->&?&?&Hmin). exists x, y. split_and!; [done..|]. intros x1 x2 Hx Hne.
    destruct (trailer_among _ _) as [[d' h']|] eqn:Hs; [|done].
    apply trailer_among_spec in Hs as [??]. exfalso. by eapply (Hmin x1 x2).
Qed.
