(* ===== verification/ReviewRest.v ===== *)
(** * The forge clients ([RESTAPI] of [internal/review/review.go])

    [ReviewAPI] is the source's [API] interface: what one gate evaluation and
    one sweep ask of a forge. [RESTAPI] implements it over HTTP for GitHub and
    Forgejo: the requests it sends, the statuses it accepts, the pages it walks
    and what it makes of the answers. The transport, the JSON text parser, the
    JSON encoder and Go's quoting are parameters. *)

From S2P Require Import Prelude GoStrings GoTime Json Review.

(** ** The interface *)

Class ReviewAPI (W : Type) := {
  GetPullRequest : string → Z → M W string PullRequest;
  ListLabeledOpenPulls : string → string → M W string (list PullRequest);
  RequiredContexts : string → string → M W string (list string);
  ContextStates : string → string → M W string States;
  ListComments : string → Z → Z → M W string (list IssueComment);
  ListCommentsAll : string → Z → M W string (list IssueComment * bool);
  PostComment : string → Z → string → M W string unit;
  DeleteLabel : string → Z → string → M W string unit;
  PostCommitStatus : string → string → string → string → string → M W string unit;
  ListReviewThreads : string → Z → M W string (list ReviewThread);
}.

(** ** HTTP *)

Record HttpRequest := {
  hq_Method : string;
  hq_URL : string;
  hq_Headers : list (string * string);
  hq_Body : string;
}.

Inductive RestErr : Type :=
| errNotFound
| httpError (Status : Z) (Body : string)
| otherError (msg : string).

Definition rest_text (e : RestErr) : string :=
  match e with
  | errNotFound => "review: not found"
  | httpError s b => "review: HTTP " +:+ pretty s +:+ ": " +:+ b
  | otherError msg => msg
  end.

Definition isForbidden (e : RestErr) : bool :=
  match e with httpError s _ => s =? 403 | _ => false end.

Definition is_not_found (e : RestErr) : bool :=
  match e with errNotFound => true | _ => false end.

Definition maxCommentPages : nat := 10.

(** ** What the bodies decode to *)

Definition dec_pull : Decoder PullRequest :=
  dec_struct (λ f,
    state ← field "state" dec_string f;
    sha ← field "head" (dec_struct (field "sha" dec_string)) f;
    ref ← field "base" (dec_struct (field "ref" dec_string)) f;
    labels ← field "labels" (dec_list (dec_struct (field "name" dec_string))) f;
    Some {| pl_Number := 0; pl_State := state; pl_HeadSHA := sha; pl_Base := ref; pl_Labels := labels |}).

Definition dec_open_pull : Decoder (Z * list string) :=
  dec_struct (λ f,
    number ← field "number" dec_int f;
    _ ← field "updated_at" dec_string f;
    labels ← field "labels" (dec_list (dec_struct (field "name" dec_string))) f;
    Some (number, labels)).

Definition dec_comment : Decoder IssueComment :=
  dec_struct (λ f,
    id ← field "id" dec_int f;
    body ← field "body" dec_string f;
    url ← field "html_url" dec_string f;
    Some {| ic_ID := id; ic_Body := body; ic_HTMLURL := url |}).

Definition dec_github_protection : Decoder (list string) :=
  dec_struct (field "required_status_checks" (dec_struct (field "contexts" (dec_list dec_string)))).

Definition dec_forgejo_protection : Decoder (list string) :=
  dec_struct (field "status_check_contexts" (dec_list dec_string)).

Definition dec_github_statuses : Decoder (list StatusRow) :=
  dec_struct (field "statuses" (dec_list (dec_struct (λ f,
    ctx ← field "context" dec_string f;
    state ← field "state" dec_string f;
    Some {| sw_Context := ctx; sw_State := state; sw_StatusF := ""; sw_CreatedAt := "" |})))).

Definition dec_row (dated : bool) : Decoder StatusRow :=
  dec_struct (λ f,
    ctx ← field "context" dec_string f;
    state ← field "state" dec_string f;
    status ← field "status" dec_string f;
    created ← (if dated then field "created_at" dec_string f else Some "");
    Some {| sw_Context := ctx; sw_State := state; sw_StatusF := status; sw_CreatedAt := created |}).

Definition dec_forgejo_combined : Decoder (list StatusRow) :=
  dec_struct (field "statuses" (dec_list (dec_row false))).

Definition dec_check : Decoder CheckRow :=
  dec_struct (λ f,
    name ← field "name" dec_string f;
    status ← field "status" dec_string f;
    conclusion ← field "conclusion" dec_string f;
    Some {| cw_Name := name; cw_Status := status; cw_Conclusion := conclusion |}).

Definition dec_checks (counted : bool) : Decoder (list CheckRow) :=
  dec_struct (λ f,
    _ ← (if counted then field "total_count" dec_int f else Some 0);
    field "check_runs" (dec_list dec_check) f).

Definition dec_forgejo_thread : Decoder ReviewThread :=
  dec_struct (λ f,
    id ← field "id" dec_int f;
    body ← field "body" dec_string f;
    path ← field "path" dec_string f;
    resolver ← field "resolver" dec_map_set f;
    reply ← field "in_reply_to" dec_any_set f;
    Some {| th_ID := id; th_Body := body; th_Path := path; th_Resolved := resolver; th_IsReply := reply |}).

Definition dec_github_thread : Decoder ReviewThread :=
  dec_struct (λ f,
    id ← field "id" dec_int f;
    body ← field "body" dec_string f;
    path ← field "path" dec_string f;
    reply ← field "in_reply_to" dec_int f;
    Some {| th_ID := id; th_Body := body; th_Path := path; th_Resolved := false;
            th_IsReply := negb (reply =? 0) |}).

Record graphqlThreadsResult := {
  gq_hasNext : bool;
  gq_endCursor : string;
  gq_resolved : gset Z;
}.

Definition dec_thread_node : Decoder (bool * list Z) :=
  dec_struct (λ f,
    resolved ← field "isResolved" dec_bool f;
    ids ← field "comments" (dec_struct (field "nodes" (dec_list (dec_struct (field "databaseId" dec_int))))) f;
    Some (resolved, ids)).

Definition dec_review_threads : Decoder graphqlThreadsResult :=
  dec_struct (λ f,
    '(hasNext, cursor) ← field "pageInfo" (dec_struct (λ g,
       h ← field "hasNextPage" dec_bool g; c ← field "endCursor" dec_string g; Some (h, c))) f;
    nodes ← field "nodes" (dec_list dec_thread_node) f;
    Some {| gq_hasNext := hasNext; gq_endCursor := cursor;
            gq_resolved := list_to_set ((filter (λ n : bool * list Z, n.1 = true) nodes) ≫= snd) |}).

(** The type of [payload.Data], which is what the body is decoded into. *)
Definition dec_graphql_data : Decoder graphqlThreadsResult :=
  dec_struct (field "repository" (dec_struct (field "pullRequest"
    (dec_struct (field "reviewThreads" dec_review_threads))))).

Definition graphqlAfter (quote : string → string) (after : string) : string :=
  if decide (after = "") then "" else ", after: " +:+ quote after.

(** ** The client *)

Section rest.
Context {W : Type} (Do : HttpRequest → M W string (Z * string)).
Context (request_error : string → string → option string).
Context (parse_json : string → option json) (json_error : string → string).
Context (marshal : list (string * string) → string) (quote : string → string).
Context (TokenLookup : option (string → string)) (BaseOverride : string).

Definition baseURL (h : Host) : string :=
  if decide (BaseOverride ≠ "") then BaseOverride else hs_APIBase h.

Fixpoint first_token (lookup : string → string) (envs : list string) : string :=
  match envs with
  | [] => ""
  | e :: envs => if decide (lookup e ≠ "") then lookup e else first_token lookup envs
  end.

Definition authorization (scheme : string) (h : Host) : list (string * string) :=
  let token := match TokenLookup with Some l => first_token l (TokenEnvNames h) | None => "" end in
  if decide (token = "") then [] else [("Authorization", scheme +:+ " " +:+ token)].

Definition decode {A} (dec : Decoder A) (body : string) : result RestErr A :=
  match parse_json body ≫= dec with Some a => Ok a | None => Err (otherError (json_error body)) end.

(** Build the request and send it. *)
Definition roundtrip (method url : string) (headers : list (string * string)) (body : string)
    : M W RestErr (Z * string) := λ w,
  match request_error method url with
  | Some e => (Err (otherError e), w)
  | None =>
      match Do {| hq_Method := method; hq_URL := url; hq_Headers := headers; hq_Body := body |} w with
      | (Err e, w) => (Err (otherError e), w)
      | (Ok answer, w) => (Ok answer, w)
      end
  end.

Definition get {A} (dec : Decoder A) (h : Host) (path accept : string) : M W RestErr A :=
  let! answer := roundtrip "GET" (baseURL h +:+ path) (authorization "token" h ++ [("Accept", accept)]) "" in
  let '(status, body) := answer in
  λ w, (if status =? 404 then Err errNotFound
        else if 400 <=? status then Err (httpError status (str_take 512 body))
        else decode dec body, w).

Definition postAuth {A} (out : string → result RestErr A) (h : Host) (path : string)
    (payload : list (string * string)) (authScheme : string) : M W RestErr A :=
  let! answer := roundtrip "POST" (baseURL h +:+ path)
                   (authorization authScheme h ++ [("Content-Type", "application/json")])
                   (marshal payload) in
  let '(status, body) := answer in
  λ w, (if 300 <=? status then Err (httpError status (str_take 512 body)) else out body, w).

Definition post (h : Host) (path : string) (payload : list (string * string)) : M W RestErr unit :=
  postAuth (λ _, Ok tt) h path payload "token".

Definition http_delete (h : Host) (path : string) : M W RestErr unit :=
  let! answer := roundtrip "DELETE" (baseURL h +:+ path) (authorization "token" h) "" in
  let '(status, body) := answer in
  λ w, (if 300 <=? status then Err (httpError status (str_take 512 body)) else Ok tt, w).

(** Every operation resolves its host first. *)
Definition on_host {A} (repo : string) (k : Host → M W RestErr A) : M W RestErr A :=
  match ResolveHost repo with Ok h => k h | Err e => throw (otherError e) end.

(** ** Writes *)

Definition rest_PostComment (repo : string) (number : Z) (body : string) : M W RestErr unit :=
  on_host repo (λ h,
    post h ("/repos/" +:+ hs_RepoPath h +:+ "/issues/" +:+ pretty number +:+ "/comments") [("body", body)]).

Definition rest_DeleteLabel (repo : string) (number : Z) (label : string) : M W RestErr unit :=
  on_host repo (λ h,
    try! r := http_delete h ("/repos/" +:+ hs_RepoPath h +:+ "/issues/" +:+ pretty number +:+ "/labels/"
                             +:+ PathEscape label) in
    match r with
    | Err (httpError s b) => if s =? 404 then ret tt else throw (httpError s b)
    | Err e => throw e
    | Ok _ => ret tt
    end).

Definition rest_PostCommitStatus (repo sha state statusContext description : string) : M W RestErr unit :=
  on_host repo (λ h,
    post h ("/repos/" +:+ hs_RepoPath h +:+ "/statuses/" +:+ sha)
      [("state", state); ("context", statusContext); ("description", description)]).

(** ** Threads *)

Fixpoint forgejo_threads (h : Host) (number : Z) (reviews : list Z) (out : list ReviewThread)
    : M W RestErr (list ReviewThread) :=
  match reviews with
  | [] => ret out
  | r :: reviews =>
      let! cs := get (dec_list dec_forgejo_thread) h
                   ("/repos/" +:+ hs_RepoPath h +:+ "/pulls/" +:+ pretty number +:+ "/reviews/"
                    +:+ pretty r +:+ "/comments") "application/json" in
      forgejo_threads h number reviews (out ++ cs)
  end.

Definition graphqlThreadsPage (h : Host) (query : string) : M W RestErr graphqlThreadsResult :=
  postAuth (decode dec_graphql_data) h "/graphql" [("query", query)] "bearer".

Definition threads_query (owner name : string) (number : Z) (after : string) : string :=
  "{ repository(owner: " +:+ quote owner +:+ ", name: " +:+ quote name +:+ ") { pullRequest(number: "
  +:+ pretty number +:+ ") { reviewThreads(first: 100" +:+ graphqlAfter quote after
  +:+ ") { pageInfo { hasNextPage endCursor } nodes { isResolved comments(first: 100) { nodes { databaseId } } } } } } }".

Fixpoint github_resolved (pages : nat) (h : Host) (owner name : string) (number : Z) (after : string)
    (resolved : gset Z) : M W RestErr (gset Z) :=
  match pages with
  | O => ret resolved
  | S pages =>
      let! page := graphqlThreadsPage h (threads_query owner name number after) in
      let resolved := resolved ∪ gq_resolved page in
      if negb (gq_hasNext page) then ret resolved
      else github_resolved pages h owner name number (gq_endCursor page) resolved
  end.

Definition resolve_thread (resolved : gset Z) (t : ReviewThread) : ReviewThread :=
  {| th_ID := th_ID t; th_Body := th_Body t; th_Path := th_Path t;
     th_Resolved := bool_decide (th_ID t ∈ resolved); th_IsReply := th_IsReply t |}.

Definition rest_ListReviewThreads (repo : string) (number : Z) : M W RestErr (list ReviewThread) :=
  on_host repo (λ h,
    if decide (hs_Kind h = HostForgejo) then
      let! reviews := get (dec_list (dec_struct (field "id" dec_int))) h
                        ("/repos/" +:+ hs_RepoPath h +:+ "/pulls/" +:+ pretty number +:+ "/reviews")
                        "application/json" in
      forgejo_threads h number reviews []
    else
      let! cs := get (dec_list dec_github_thread) h
                   ("/repos/" +:+ hs_RepoPath h +:+ "/pulls/" +:+ pretty number +:+ "/comments?per_page=100")
                   "application/json" in
      let '(owner, name) := default (hs_RepoPath h, "") (cut_first "/" (hs_RepoPath h)) in
      let! resolved := github_resolved 10 h owner name number "" ∅ in
      ret (resolve_thread resolved <$> cs)).

(** ** Reads *)

Definition rest_GetPullRequest (repo : string) (number : Z) : M W RestErr PullRequest :=
  on_host repo (λ h,
    get dec_pull h ("/repos/" +:+ hs_RepoPath h +:+ "/pulls/" +:+ pretty number) "application/json").

Definition comments_base (h : Host) (number : Z) (since : Z) : string :=
  "/repos/" +:+ hs_RepoPath h +:+ "/issues/" +:+ pretty number +:+ "/comments?"
  +:+ (if decide (hs_Kind h = HostGitHub) then "per_page=100" else "limit=100")
  +:+ (if time_IsZero since then "" else "&since=" +:+ format_RFC3339 since).

(** [n] pages from [page] on; the flag says that the last one was full. *)
Fixpoint comment_pages (n : nat) (page : Z) (h : Host) (base : string) (out : list IssueComment)
    : M W RestErr (list IssueComment * bool) :=
  match n with
  | O => ret (out, true)
  | S n =>
      let! batch := get (dec_list dec_comment) h (base +:+ "&page=" +:+ pretty page) "application/json" in
      if (length batch <? 100)%nat then ret (out ++ batch, false)
      else comment_pages n (page + 1) h base (out ++ batch)
  end.

Definition rest_ListComments (repo : string) (number since : Z) : M W RestErr (list IssueComment) :=
  on_host repo (λ h,
    let! r := comment_pages maxCommentPages 1 h (comments_base h number since) [] in ret r.1).

Definition rest_ListCommentsAll (repo : string) (number : Z) : M W RestErr (list IssueComment * bool) :=
  on_host repo (λ h, comment_pages maxCommentPages 1 h (comments_base h number 0) []).

Definition rest_RequiredContexts (repo branch : string) : M W RestErr (list string) :=
  on_host repo (λ h,
    try! r := (if decide (hs_Kind h = HostGitHub)
               then get dec_github_protection h
                      ("/repos/" +:+ hs_RepoPath h +:+ "/branches/" +:+ branch +:+ "/protection")
                      "application/vnd.github+json"
               else get dec_forgejo_protection h
                      ("/repos/" +:+ hs_RepoPath h +:+ "/branch_protections/" +:+ branch)
                      "application/json") in
    match r with
    | Ok l => ret l
    | Err e => if is_not_found e || isForbidden e then ret [] else throw e
    end).

(** The closure [get] of [ContextStates]: a missing surface is empty, any other
    error is remembered and the walk goes on. *)
Definition soft_get {A} (zero : A) (dec : Decoder A) (h : Host) (path accept : string)
    (firstErr : option RestErr) (w : W) : A * option RestErr * W :=
  match get dec h path accept w with
  | (Ok a, w) => (a, firstErr, w)
  | (Err e, w) => (zero, if is_not_found e then firstErr
                         else match firstErr with None => Some e | _ => firstErr end, w)
  end.

(** The states are dropped when an error is returned: no caller reads them. *)
Definition rest_ContextStates (repo sha : string) : M W RestErr States :=
  on_host repo (λ h w,
    let commit := "/repos/" +:+ hs_RepoPath h +:+ "/commits/" +:+ sha in
    let '(states, firstErr, w) :=
      if decide (hs_Kind h = HostGitHub) then
        let '(rows, e, w) := soft_get [] dec_github_statuses h (commit +:+ "/status") "application/json" None w in
        let '(checks, e, w) := soft_get [] (dec_checks true) h (commit +:+ "/check-runs")
                                 "application/vnd.github+json" e w in
        (github_states rows checks, e, w)
      else
        let '(combined, e, w) := soft_get [] dec_forgejo_combined h (commit +:+ "/status") "application/json" None w in
        let '(raw, e, w) := soft_get [] (dec_list (dec_row true)) h (commit +:+ "/statuses") "application/json" e w in
        let '(checks, e, w) := soft_get [] (dec_checks false) h (commit +:+ "/check-runs")
                                 "application/vnd.github+json" e w in
        (forgejo_states combined raw checks, e, w) in
    (match firstErr with Some e => Err e | None => Ok states end, w)).

Definition rest_ListLabeledOpenPulls (repo label : string) : M W RestErr (list PullRequest) :=
  on_host repo (λ h,
    let q := if decide (hs_Kind h = HostGitHub)
             then "state=open&sort=created&direction=asc&per_page=50"
             else "state=open&sort=oldest&limit=50" in
    let! raw := get (dec_list dec_open_pull) h
                  ("/repos/" +:+ hs_RepoPath h +:+ "/pulls?" +:+ q) "application/json" in
    ret ((λ p : Z * list string, {| pl_Number := p.1; pl_State := ""; pl_HeadSHA := ""; pl_Base := ""; pl_Labels := [] |})
         <$> filter (λ p : Z * list string, label ∈ p.2) raw)).

(** ** The instance *)

Definition with_text {A} (m : M W RestErr A) : M W string A := λ w,
  match m w with (Ok a, w) => (Ok a, w) | (Err e, w) => (Err (rest_text e), w) end.

Definition RESTAPI : ReviewAPI W := {|
  GetPullRequest repo n := with_text (rest_GetPullRequest repo n);
  ListLabeledOpenPulls repo l := with_text (rest_ListLabeledOpenPulls repo l);
  RequiredContexts repo b := with_text (rest_RequiredContexts repo b);
  ContextStates repo sha := with_text (rest_ContextStates repo sha);
  ListComments repo n since := with_text (rest_ListComments repo n since);
  ListCommentsAll repo n := with_text (rest_ListCommentsAll repo n);
  PostComment repo n body := with_text (rest_PostComment repo n body);
  DeleteLabel repo n l := with_text (rest_DeleteLabel repo n l);
  PostCommitStatus repo sha st c d := with_text (rest_PostCommitStatus repo sha st c d);
  ListReviewThreads repo n := with_text (rest_ListReviewThreads repo n);
|}.
End rest.
