(* ===== verification/ReviewEval.v ===== *)
(** * The Review-Ready decision ([Evaluate] of [internal/review/review.go])

    One evaluation reads the pull request, its conversation, its merge rules and
    the states of its head from the forge, and decides whether the review may
    start, must wait, or is not to be asked for any more. A forge to run it
    against closes the file. *)

From S2P Require Import Prelude GoStrings GoTime ReviewReady Review ReviewRest.

Record Params := {
  pa_Repo : string;
  pa_PR : Z;
  pa_Label : string;
  pa_Horizon : Z;
  pa_Now : Z;
  pa_ArmedAt : Z;
  pa_ArmedSha : string;
  pa_WakeSHA : string;
  pa_DispatchedAt : Z;
  pa_DispatchTimeout : Z;
  pa_DisarmHint : bool;
}.

Record Result := {
  re_Eval : Evaluation;
  re_NewArmedSha : string;
  re_NewArmedAt : Z;
  re_LabelPresent : bool;
}.

Notation re_Decision r := (ee_Decision (re_Eval r)).

(** The closures [withPresence] and [withoutPresence]. *)
Definition result_at (present : bool) (ev : Evaluation) (armedSha : string) (armedAt : Z) : Result :=
  {| re_Eval := ev; re_NewArmedSha := armedSha; re_NewArmedAt := armedAt; re_LabelPresent := present |}.

Definition verdictSinceSlack : Z := 5 * Minute.

(** The parts of a pending reason, shared by the wait and the hold note. *)
Definition pending_parts (b : Buckets) : string :=
  join "; " ((if bk_running b then [] else ["running: " +:+ join ", " (bk_running b)])
             ++ (if bk_missing b then [] else ["no records at head: " +:+ join ", " (bk_missing b)])).

Section evaluate.
Context {W : Type} `{ReviewAPI W} (clock : W → Z).

Definition nowFrom (p : Params) (w : W) : Z := if time_IsZero (pa_Now p) then clock w else pa_Now p.

Definition labelAbsentHoldNote (p : Params) (pr : PullRequest) (w : W) : string * W :=
  match RequiredContexts (pa_Repo p) (pl_Base pr) w with
  | (Err _, w) | (Ok [], w) => ("ingress may be lost", w)
  | (Ok required, w) =>
      match ContextStates (pa_Repo p) (pl_HeadSHA pr) w with
      | (Err _, w) => ("ingress may be lost", w)
      | (Ok states, w) =>
          let b := classifyRequiredContexts required states in
          let head := ciWaitingHead (pl_HeadSHA pr) in
          (match bk_red b, bk_running b, bk_missing b with
           | _ :: _, _, _ =>
               "ci red at head " +:+ head +:+ " (" +:+ join ", " (bk_red b) +:+ ") — dispatch on green"
           | [], [], [] =>
               "ci green at head " +:+ head +:+ " — the review label is absent, so nothing can dispatch; re-apply it to request the review"
           | [], _, _ =>
               "ci pending at head " +:+ head +:+ " (" +:+ pending_parts b +:+ ") — dispatch on green"
           end, w)
      end
  end.

Definition proceed (p : Params) (pr : PullRequest) (required green : list string) (w : W) : Result :=
  {| re_Eval := {| ee_Decision := DecisionProceed;
                   ee_Reason := "label present, all required contexts green at head";
                   ee_Code := "";
                   ee_Envelope := Some {| en_Repo := pa_Repo p; en_PR := pa_PR p;
                     en_HeadSHA := pl_HeadSHA pr; en_Base := pl_Base pr; en_Label := pa_Label p;
                     en_RequiredContexts := required; en_GreenContexts := green;
                     en_VerdictURL := ""; en_VerdictDecision := "" |} |};
     re_NewArmedSha := pl_HeadSHA pr;
     re_NewArmedAt := armTime (pa_ArmedAt p) (nowFrom p w);
     re_LabelPresent := HasLabel pr (pa_Label p) |}.

(** The head moved since arming. *)
Definition head_moved (p : Params) (pr : PullRequest) : bool :=
  negb (bool_decide (pa_ArmedSha p = "")) && negb (bool_decide (pa_ArmedSha p = pl_HeadSHA pr)).

Definition verdict_since (p : Params) (now : Z) : Z := armTime (pa_ArmedAt p) now - verdictSinceSlack.

(** A head that moved restarts the horizon's clock. *)
Definition armed_clock (p : Params) (pr : PullRequest) (now : Z) : Z :=
  if head_moved p pr then now else armTime (pa_ArmedAt p) now.

(** The label is gone. *)
Definition evaluate_absent (p : Params) (pr : PullRequest) (now : Z) (w : W) : Result * W :=
  match ListComments (pa_Repo p) (pa_PR p) (verdict_since p now) w with
  | (Err e, w) =>
      let keepSha := if decide (pa_ArmedSha p = "") then pl_HeadSHA pr else pa_ArmedSha p in
      (result_at false (waiting ("label absent; verdict check failed: " +:+ e)) keepSha
         (armTime (pa_ArmedAt p) now), w)
  | (Ok comments, w) =>
      if hasVerdict comments
      then (result_at false (standdown CodeConsumed "label absent (verdict posted — consumed)") "" 0, w)
      else
        let armedAt := armed_clock p pr now in
        if pa_Horizon p <? time_Sub now armedAt
        then (result_at false (standdown CodeHorizon
                ("horizon exceeded (label absent, no verdict; pending > "
                 +:+ duration_String (pa_Horizon p) +:+ ")")) "" 0, w)
        else
          let '(note, w) := labelAbsentHoldNote p pr w in
          (result_at (HasLabel pr (pa_Label p))
             (waiting ("label absent, no verdict — " +:+ note +:+ ", staying armed"))
             (pl_HeadSHA pr) armedAt, w)
  end.

(** A review was dispatched. *)
Definition evaluate_dispatched (p : Params) (pr : PullRequest) (now armedAt : Z) (w : W) : Result * W :=
  let present := HasLabel pr (pa_Label p) in
  match ListComments (pa_Repo p) (pa_PR p) (verdict_since p now) w with
  | (Err e, w) =>
      (result_at present (waiting ("in-flight verdict check failed: " +:+ e)) (pl_HeadSHA pr) armedAt, w)
  | (Ok comments, w) =>
      if hasVerdict comments
      then (result_at present (standdown CodeConsumed "verdict posted — consumed") "" 0, w)
      else if head_moved p pr
      then (result_at false (standdown CodeHeadMoved
              ("head moved while review in flight (dispatched at " +:+ pa_ArmedSha p +:+ ", PR now at "
               +:+ pl_HeadSHA pr +:+ ") — verdict could not land")) "" 0, w)
      else if (0 <? pa_DispatchTimeout p) && (pa_DispatchTimeout p <=? time_Sub now (pa_DispatchedAt p))
      then (result_at present (standdown CodeDispatchDead
              ("dispatch presumed dead (no verdict after " +:+ duration_String (pa_DispatchTimeout p)
               +:+ "; run bound " +:+ duration_String OneShotRunBound +:+ ") — backlog will re-arm")) "" 0, w)
      else (result_at present (waiting "review in flight — dispatched, verdict pending") (pl_HeadSHA pr) armedAt, w)
  end.

Definition standing_reason (head verdict : string) : string :=
  "verdict already stands at head " +:+ head +:+ " (" +:+ verdict
  +:+ ") — the gate reviews each head exactly once: push a fix commit (new head), reply on the finding threads (fj review reply <pr> <comment-id>), resolve them (fj review resolve), then re-arm".

Definition standing_refusal (p : Params) (pr : PullRequest) (verdict : string) (src : IssueComment) : Evaluation :=
  {| ee_Decision := DecisionStanddown; ee_Reason := standing_reason (pl_HeadSHA pr) verdict;
     ee_Code := CodeVerdictStanding;
     ee_Envelope := Some {| en_Repo := pa_Repo p; en_PR := pa_PR p; en_HeadSHA := pl_HeadSHA pr;
       en_Base := ""; en_Label := pa_Label p; en_RequiredContexts := []; en_GreenContexts := [];
       en_VerdictURL := ic_HTMLURL src; en_VerdictDecision := verdict |} |}.

(** Without merge rules, every context observed at the head is required. *)
Definition effective_contexts (required : list string) (states : States) : list string :=
  match required with [] => observed_contexts states | _ => required end.

(** The merge rules against the states of the head. *)
Definition evaluate_ci (p : Params) (pr : PullRequest) (armedAt : Z) (w : W) : Result * W :=
  let present := HasLabel pr (pa_Label p) in
  let hold reason := result_at present (waiting reason) (pl_HeadSHA pr) armedAt in
  match RequiredContexts (pa_Repo p) (pl_Base pr) w with
  | (Err e, w) => (hold ("merge-rules fetch failed: " +:+ e), w)
  | (Ok required, w) =>
      match ContextStates (pa_Repo p) (pl_HeadSHA pr) w with
      | (Err e, w) => (hold ("contexts fetch failed: " +:+ e), w)
      | (Ok states, w) =>
          match effective_contexts required states with
          | [] => (proceed p pr [] [] w, w)
          | required =>
              let b := classifyRequiredContexts required states in
              let head := ciWaitingHead (pl_HeadSHA pr) in
              (match bk_red b, bk_running b, bk_missing b with
               | _ :: _, _, _ =>
                   hold ("ci red at head " +:+ head +:+ " (" +:+ join ", " (bk_red b) +:+ ") — staying armed")
               | [], [], [] => proceed p pr required (bk_green b) w
               | [], _, _ => hold ("ci pending at head " +:+ head +:+ " (" +:+ pending_parts b +:+ ")")
               end, w)
          end
      end
  end.

(** No review in flight: is the head reviewed already? *)
Definition evaluate_fresh (p : Params) (pr : PullRequest) (armedAt : Z) (w : W) : Result * W :=
  let present := HasLabel pr (pa_Label p) in
  match ListCommentsAll (pa_Repo p) (pa_PR p) w with
  | (Err e, w) =>
      (result_at present (waiting ("verdict-standing check failed: " +:+ e)) (pl_HeadSHA pr) armedAt, w)
  | (Ok (comments, truncated), w) =>
      if truncated : bool
      then (result_at present (waiting
              "verdict-standing scan inconclusive (conversation exceeds the scan cap) — staying armed")
              (pl_HeadSHA pr) armedAt, w)
      else match standingVerdictAt comments (pl_HeadSHA pr) with
           | Some (verdict, src) =>
               (result_at present (standing_refusal p pr verdict src) (pl_HeadSHA pr) armedAt, w)
           | None => evaluate_ci p pr armedAt w
           end
  end.

(** The pull request in hand. *)
Definition evaluate_pr (p : Params) (pr : PullRequest) (now : Z) (w : W) : Result * W :=
  let present := HasLabel pr (pa_Label p) in
  if decide (pl_State pr ≠ "open") then
    let code := if decide (pl_State pr = "closed") then CodePRClosed else CodeStanddown in
    (result_at present (standdown code ("pull request " +:+ stateWord (pl_State pr))) "" 0, w)
  else if time_IsZero (pa_DispatchedAt p) && head_moved p pr then
    (result_at present (standdown CodeHeadMoved
       ("head moved since arming (armed at " +:+ pa_ArmedSha p +:+ ", PR now at " +:+ pl_HeadSHA pr
        +:+ ") — queued claim released for re-arm at the new head")) "" 0, w)
  else if negb present then evaluate_absent p pr now w
  else
    let armedAt := armed_clock p pr now in
    if pa_Horizon p <? time_Sub now armedAt then
      (result_at present (standdown CodeHorizon
         ("horizon exceeded (CI pending > " +:+ duration_String (pa_Horizon p) +:+ ")")) "" 0, w)
    else if negb (time_IsZero (pa_DispatchedAt p)) then evaluate_dispatched p pr now armedAt w
    else evaluate_fresh p pr armedAt w.

Definition Evaluate (p : Params) (w : W) : Result * W :=
  let now := nowFrom p w in
  if pa_DisarmHint p
  then (result_at false (standdown CodePRClosed "pull request closed") "" 0, w)
  else match GetPullRequest (pa_Repo p) (pa_PR p) w with
       | (Err e, w) =>
           let keepSha := if decide (pa_ArmedSha p = "") then pa_WakeSHA p else pa_ArmedSha p in
           (result_at false (waiting ("pr fetch failed: " +:+ e)) keepSha (armTime (pa_ArmedAt p) now), w)
       | (Ok pr, w) => evaluate_pr p pr now w
       end.
End evaluate.

(** ** A forge on which the engine runs

    An instance of [ReviewAPI]: pull requests, conversations, merge rules,
    states and threads, in maps. Reads leave it alone; the three writes append
    a comment, take a label off, and record a commit status. *)

Record Forge := {
  fg_pulls : gmap (string * Z) PullRequest;
  fg_comments : gmap (string * Z) (list IssueComment);
  fg_required : gmap (string * string) (list string);
  fg_states : gmap (string * string) States;
  fg_threads : gmap (string * Z) (list ReviewThread);
  fg_posted : list (string * string * string * string);
}.

Definition found {A} (o : option A) : result string A :=
  match o with Some a => Ok a | None => Err "review: not found" end.

Definition without_label (label : string) (pr : PullRequest) : PullRequest :=
  {| pl_Number := pl_Number pr; pl_State := pl_State pr; pl_HeadSHA := pl_HeadSHA pr;
     pl_Base := pl_Base pr; pl_Labels := filter (λ l, l ≠ label) (pl_Labels pr) |}.

#[export] Instance forge_api : ReviewAPI Forge := {|
  GetPullRequest repo n f := (found (fg_pulls f !! (repo, n)), f);
  ListLabeledOpenPulls repo label f :=
    (Ok (filter (λ p, pl_State p = "open" ∧ label ∈ pl_Labels p)
           (snd <$> filter (λ kp, kp.1.1 = repo) (map_to_list (fg_pulls f)))), f);
  RequiredContexts repo branch f := (Ok (default [] (fg_required f !! (repo, branch))), f);
  ContextStates repo sha f := (found (fg_states f !! (repo, sha)), f);
  ListComments repo n _ f := (Ok (default [] (fg_comments f !! (repo, n))), f);
  ListCommentsAll repo n f :=
    let cs := default [] (fg_comments f !! (repo, n)) in
    (Ok (take 1000 cs, (1000 <=? length cs)%nat), f);
  PostComment repo n body f :=
    (Ok tt, {| fg_pulls := fg_pulls f;
               fg_comments := <[(repo, n) := default [] (fg_comments f !! (repo, n))
                                 ++ [{| ic_ID := 0; ic_Body := body; ic_HTMLURL := "" |}]]> (fg_comments f);
               fg_required := fg_required f; fg_states := fg_states f; fg_threads := fg_threads f;
               fg_posted := fg_posted f |});
  DeleteLabel repo n label f :=
    (Ok tt, {| fg_pulls := alter (without_label label) (repo, n) (fg_pulls f);
               fg_comments := fg_comments f; fg_required := fg_required f; fg_states := fg_states f;
               fg_threads := fg_threads f; fg_posted := fg_posted f |});
  PostCommitStatus repo sha state ctx desc f :=
    (Ok tt, {| fg_pulls := fg_pulls f; fg_comments := fg_comments f; fg_required := fg_required f;
               fg_states := fg_states f; fg_threads := fg_threads f;
               fg_posted := fg_posted f ++ [(repo, sha, state, ctx)] |});
  ListReviewThreads repo n f := (Ok (default [] (fg_threads f !! (repo, n))), f);
|}.

(** ** A pull request under review *)

Definition head_a : string := "0a1b2c3d4e5f60718293a4b5c6d7e8f901234567".
Definition head_b : string := "ffffffff4e5f60718293a4b5c6d7e8f901234567".

Definition pull_at (state head : string) (labels : list string) : PullRequest :=
  {| pl_Number := 7; pl_State := state; pl_HeadSHA := head; pl_Base := "main"; pl_Labels := labels |}.

Definition comment_of (body : string) : IssueComment :=
  {| ic_ID := 1; ic_Body := body; ic_HTMLURL := "https://forge/7#c1" |}.

Definition forge_with (pr : PullRequest) (bodies : list string) (required : list string)
    (states : list (string * string)) : Forge :=
  {| fg_pulls := {[("h/o/n", 7) := pr]};
     fg_comments := {[("h/o/n", 7) := comment_of <$> bodies]};
     fg_required := {[("h/o/n", "main") := required]};
     fg_states := {[("h/o/n", pl_HeadSHA pr) := list_to_map states]};
     fg_threads := ∅; fg_posted := [] |}.

Definition params_at (now armedAt : Z) (armedSha : string) (dispatchedAt : Z) : Params :=
  {| pa_Repo := "h/o/n"; pa_PR := 7; pa_Label := "needs-review"; pa_Horizon := 6 * Hour; pa_Now := now;
     pa_ArmedAt := armedAt; pa_ArmedSha := armedSha; pa_WakeSHA := ""; pa_DispatchedAt := dispatchedAt;
     pa_DispatchTimeout := 45 * Minute; pa_DisarmHint := false |}.
