(* ===== verification/ReviewProps.v ===== *)
(** * Properties of the review engine

    When an evaluation proceeds, what each kind of stand-down presupposes, how
    long a claim may wait, and what the readings behind the decision are: the
    partition of the required contexts, the merge of the forge's surfaces, the
    verdict trailer and the walk over the conversation. *)

From S2P Require Import Prelude GoStrings GoTime Json ReviewReady Review ReviewRest ReviewEval.

(** ** The required contexts *)

Definition in_state (states : States) (vs : list string) (ctx : string) : Prop :=
  default "" (states !! ctx) ∈ vs.

#[export] Instance in_state_dec states vs ctx : Decision (in_state states vs ctx).
Proof. unfold in_state. apply _. Defined.

Definition green_states : list string := ["success"; "skipped"].

Lemma classify_foldl states required b :
  foldl (λ b ctx, classify_one states ctx b) b required =
  {| bk_red := bk_red b ++ filter (in_state states ["failure"]) required;
     bk_running := bk_running b ++ filter (in_state states ["pending"]) required;
     bk_missing := bk_missing b
       ++ filter (λ c, ¬ in_state states ["success"; "failure"; "pending"; "skipped"] c) required;
     bk_green := bk_green b ++ filter (in_state states green_states) required |}.
Proof.
  revert b. induction required as [|c required IH]; intros b; simpl.
  { rewrite !filter_nil, !app_nil_r. by destruct b. }
  rewrite IH. clear IH. rewrite !filter_cons. unfold classify_one.
  set (v := default "" (states !! c)).
  assert (∀ vs, in_state states vs c ↔ v ∈ vs) as Hin by done.
  clearbody v.
  assert (∀ P Q (A : Type) (x y : A) `{!Decision P}, (P ↔ Q) → Q → (if decide P then x else y) = x) as HT.
  { intros. by rewrite decide_True by tauto. }
  assert (∀ P Q (A : Type) (x y : A) `{!Decision P}, (P ↔ Q) → ¬ Q → (if decide P then x else y) = y) as HF.
  { intros. by rewrite decide_False by tauto. }
  destruct (decide (v = "success")) as [->|H1]; [|destruct (decide (v = "failure")) as [->|H2];
    [|destruct (decide (v = "pending")) as [->|H3]; [|destruct (decide (v = "skipped")) as [->|H4]]]];
    simpl; unfold green_states in *;
    repeat first [ rewrite (HT _ _ _ _ _ _ (Hin _)) by by apply (bool_decide_unpack _)
                 | rewrite (HF _ _ _ _ _ _ (Hin _)) by by apply (bool_decide_unpack _)
                 | rewrite (HT _ _ _ _ _ _ (not_iff_compat (Hin _))) by by apply (bool_decide_unpack _)
                 | rewrite (HF _ _ _ _ _ _ (not_iff_compat (Hin _))) by by apply (bool_decide_unpack _) ].
  1-4: by rewrite <- ?app_assoc.
  assert (∀ vs, vs ⊆ ["success"; "failure"; "pending"; "skipped"] → v ∉ vs) as Hno.
  { intros vs Hsub Hv%Hsub. rewrite !elem_of_cons, elem_of_nil in Hv. tauto. }
  rewrite !(HF _ _ _ _ _ _ (Hin _)) by (apply Hno; by apply (bool_decide_unpack _)).
  rewrite (HT _ _ _ _ _ _ (not_iff_compat (Hin _))) by (by apply Hno).
  by rewrite <- ?app_assoc.
Qed.

Lemma classify_spec states required :
  classifyRequiredContexts required states =
  {| bk_red := filter (in_state states ["failure"]) required;
     bk_running := filter (in_state states ["pending"]) required;
     bk_missing := filter (λ c, ¬ in_state states ["success"; "failure"; "pending"; "skipped"] c) required;
     bk_green := filter (in_state states green_states) required |}.
Proof. unfold classifyRequiredContexts. by rewrite classify_foldl. Qed.

Lemma filter_nil_Forall {A} (P : A → Prop) `{!∀ x, Decision (P x)} l :
  filter P l = [] ↔ Forall (λ x, ¬ P x) l.
Proof.
  induction l as [|x l IH]; [by split|]. rewrite filter_cons, Forall_cons, <- IH.
  case_decide; naive_solver.
Qed.

Lemma filter_all {A} (P : A → Prop) `{!∀ x, Decision (P x)} l : Forall P l → filter P l = l.
Proof. induction 1; [done|]. rewrite filter_cons_True by done. by f_equal. Qed.

(** No red, running or missing context: all are green, in their order. *)
Lemma classify_all_green states required :
  let b := classifyRequiredContexts required states in
  (bk_red b = [] ∧ bk_running b = [] ∧ bk_missing b = []) ↔ Forall (in_state states green_states) required.
Proof.
  cbv zeta. rewrite classify_spec. simpl. rewrite !filter_nil_Forall, !Forall_forall.
  unfold green_states, in_state. set_unfold. split.
  - intros (H1&H2&H3) c Hc. specialize (H1 c Hc). specialize (H2 c Hc). specialize (H3 c Hc).
    destruct (decide (default "" (states !! c) ∈ ["success"; "failure"; "pending"; "skipped"])) as [Hin|Hn];
      set_unfold; [|by destruct H3]. naive_solver.
  - intros Hg. split_and!; intros c Hc; specialize (Hg c Hc); set_unfold; naive_solver congruence.
Qed.

(** ** When an evaluation proceeds *)

Section proceeds.
Context {W : Type} `{ReviewAPI W} (clock : W → Z).

(** The pull request is open, labelled, and not past anything. *)
Definition reviewable (p : Params) (pr : PullRequest) (now : Z) : Prop :=
  pl_State pr = "open" ∧ pa_Label p ∈ pl_Labels pr ∧ pa_DispatchedAt p = 0
  ∧ (pa_ArmedSha p = "" ∨ pa_ArmedSha p = pl_HeadSHA pr)
  ∧ time_Sub now (armTime (pa_ArmedAt p) now) ≤ pa_Horizon p.

Lemma head_moved_spec p pr :
  head_moved p pr = false ↔ pa_ArmedSha p = "" ∨ pa_ArmedSha p = pl_HeadSHA pr.
Proof. unfold head_moved. repeat case_bool_decide; naive_solver. Qed.

Lemma evaluate_ci_proceeds p pr armedAt w r w' :
  evaluate_ci clock p pr armedAt w = (r, w') ∧ re_Decision r = DecisionProceed ↔
  ∃ required w1 states,
    RequiredContexts (pa_Repo p) (pl_Base pr) w = (Ok required, w1)
    ∧ ContextStates (pa_Repo p) (pl_HeadSHA pr) w1 = (Ok states, w')
    ∧ let all := effective_contexts required states in
      Forall (in_state states green_states) all ∧ r = proceed clock p pr all all w'.
Proof.
  unfold evaluate_ci. destruct (RequiredContexts _ _ w) as [[required|e] w1].
  2: { split; [by intros [[= <- <-] ?]|naive_solver]. }
  destruct (ContextStates _ _ w1) as [[states|e] w2] eqn:Hs.
  2: { split; [by intros [[= <- <-] ?]|]. intros (?&?&?&[= <- <-]&?&_). congruence. }
  pose proof (classify_all_green states (effective_contexts required states)) as Hall.
  cbv zeta in Hall. split.
  - intros [Hr Hd]. exists required, w1, states. split; [done|].
    destruct (effective_contexts required states) as [|c cs] eqn:He.
    { injection Hr as <- <-. split_and!; [done|constructor|done]. }
    destruct (bk_red _), (bk_running _), (bk_missing _); injection Hr as <- <-; try done.
    destruct Hall as [Hall _]. split; [done|]. split; [by apply Hall|].
    rewrite classify_spec. simpl. by rewrite filter_all by by apply Hall.
  - intros (?&?&?&[= <- <-]&Hs2&Hg&->). rewrite Hs in Hs2. injection Hs2 as <- <-.
    split; [|done]. destruct Hall as [_ Hall]. destruct (Hall Hg) as (H1&H2&H3).
    destruct (effective_contexts required states) as [|c cs]; [done|]. cbv zeta. rewrite H1, H2, H3.
    rewrite classify_spec. simpl. by rewrite filter_all.
Qed.

Lemma Evaluate_proceeds (p : Params) (w : W) r w' :
  Evaluate clock p w = (r, w') ∧ re_Decision r = DecisionProceed ↔
  pa_DisarmHint p = false ∧
  ∃ pr w1 comments w2 required w3 states,
    GetPullRequest (pa_Repo p) (pa_PR p) w = (Ok pr, w1)
    ∧ reviewable p pr (nowFrom clock p w)
    ∧ ListCommentsAll (pa_Repo p) (pa_PR p) w1 = (Ok (comments, false), w2)
    ∧ standingVerdictAt comments (pl_HeadSHA pr) = None
    ∧ RequiredContexts (pa_Repo p) (pl_Base pr) w2 = (Ok required, w3)
    ∧ ContextStates (pa_Repo p) (pl_HeadSHA pr) w3 = (Ok states, w')
    ∧ let all := effective_contexts required states in
      Forall (in_state states green_states) all ∧ r = proceed clock p pr all all w'.
Proof.
  unfold Evaluate. destruct (pa_DisarmHint p); [naive_solver|].
  destruct (GetPullRequest _ _ w) as [[pr|e] w1]; [|naive_solver].
  unfold evaluate_pr, reviewable, evaluate_absent, evaluate_dispatched. split.
  - intros [Hr Hd]. split; [done|]. exists pr, w1.
    destruct (decide (pl_State pr ≠ "open")) as [|Ho]; [naive_solver|].
    destruct (time_IsZero _ && _) eqn:Hm; [naive_solver|].
    destruct (HasLabel pr (pa_Label p)) eqn:Hl.
    2: { exfalso. cbn [negb] in Hr. repeat split_match Hr; simplify_eq; done. }
    cbn [negb] in Hr. destruct (pa_Horizon p <? _) eqn:Hh; [naive_solver|].
    destruct (time_IsZero (pa_DispatchedAt p)) eqn:Hz; simpl in Hr, Hm.
    2: { exfalso. repeat split_match Hr; simplify_eq; done. }
    unfold evaluate_fresh in Hr.
    destruct (ListCommentsAll _ _ w1) as [[[comments [|]]|e] w2]; [naive_solver| |naive_solver].
    destruct (standingVerdictAt _ _) as [[? ?]|] eqn:Hs; [naive_solver|].
    destruct (proj1 (evaluate_ci_proceeds p pr _ w2 r w') (conj Hr Hd)) as (required&w3&states&?&?&?).
    exists comments, w2, required, w3, states. split; [done|]. split; [|done].
    unfold armed_clock in Hh. rewrite Hm in Hh. apply Z.ltb_ge in Hh.
    split_and!; [by destruct (decide (pl_State pr = "open")) as [|?]; [|destruct Ho]
      |by apply HasLabel_spec|by apply Z.eqb_eq|by apply head_moved_spec|done].
  - intros [_ (pr'&w1'&comments&w2&required&w3&states&[= <- <-]&(Ho&Hl&Hz&Hm&Hh)&Hc&Hs&Hci)].
    apply HasLabel_spec in Hl. apply head_moved_spec in Hm.
    rewrite Ho, decide_False by naive_solver. rewrite Hm, andb_false_r, Hl, Hz.
    unfold armed_clock. rewrite Hm, (proj2 (Z.ltb_ge _ _)) by lia. simpl.
    unfold evaluate_fresh. rewrite Hc, Hs. apply evaluate_ci_proceeds. by exists required, w3, states.
Qed.

(** C3. The gate starts a review exactly when everything it requires held in the
    readings of this one evaluation: no stand-down hint, the pull request read
    open and labelled, no review in flight, the head the claim was armed at
    (when it was armed), the horizon not passed, the whole conversation read
    and in no comment a verdict trailer naming this head, and every required
    context (those the merge rules name or, when they name none, all that were
    observed but the gate's own) green at this head. The envelope then carries
    that head, base and those contexts, and the result keeps the claim armed
    at the head. *)
Theorem Evaluate_proceeds_iff (p : Params) (w : W) r w' :
  Evaluate clock p w = (r, w') ∧ re_Decision r = DecisionProceed ↔
  pa_DisarmHint p = false ∧
  ∃ pr w1 comments w2 required w3 states,
    GetPullRequest (pa_Repo p) (pa_PR p) w = (Ok pr, w1)
    ∧ reviewable p pr (nowFrom clock p w)
    ∧ ListCommentsAll (pa_Repo p) (pa_PR p) w1 = (Ok (comments, false), w2)
    ∧ standingVerdictAt comments (pl_HeadSHA pr) = None
    ∧ RequiredContexts (pa_Repo p) (pl_Base pr) w2 = (Ok required, w3)
    ∧ ContextStates (pa_Repo p) (pl_HeadSHA pr) w3 = (Ok states, w')
    ∧ let all := effective_contexts required states in
      Forall (in_state states green_states) all ∧ r = proceed clock p pr all all w'.
Proof. apply Evaluate_proceeds. Qed.

(** ** When it stands down *)

Definition carries_verdict (c : IssueComment) : Prop := is_Some (verdictTrailer (ic_Body c)).

Lemma hasVerdict_spec comments : hasVerdict comments = true ↔ ∃ c, c ∈ comments ∧ carries_verdict c.
Proof.
  unfold hasVerdict. rewrite existsb_exists. setoid_rewrite bool_decide_eq_true.
  by setoid_rewrite <- list_elem_of_In.
Qed.

Lemma standingVerdictAt_spec comments head d c :
  standingVerdictAt comments head = Some (d, c) →
  c ∈ comments ∧ ∃ h, verdictTrailer (ic_Body c) = Some (d, h) ∧ ShaPrefixMatch head h = true.
Proof.
  induction comments as [|x comments IH]; simpl; [done|].
  destruct (verdictTrailer (ic_Body x)) as [[d' h]|] eqn:Hx.
  - destruct (ShaPrefixMatch head h) eqn:Hm.
    + intros [= -> ->]. split; [by left|]. by exists h.
    + intros [? ?]%IH. split; [by right|done].
  - intros [? ?]%IH. split; [by right|done].
Qed.

(** What a stand-down code presupposes of the pull request read. *)
Definition stood_down (p : Params) (pr : PullRequest) (now : Z) (ev : Evaluation) : Prop :=
  (ee_Code ev = CodePRClosed ∧ pl_State pr = "closed")
  ∨ (ee_Code ev = CodeStanddown ∧ pl_State pr ≠ "open" ∧ pl_State pr ≠ "closed")
  ∨ (pl_State pr = "open" ∧
     ((ee_Code ev = CodeHeadMoved ∧ pa_ArmedSha p ≠ "" ∧ pa_ArmedSha p ≠ pl_HeadSHA pr)
      ∨ (ee_Code ev = CodeConsumed ∧ ∃ wa comments wb c,
           ListComments (pa_Repo p) (pa_PR p) (verdict_since p now) wa = (Ok comments, wb)
           ∧ c ∈ comments ∧ carries_verdict c)
      ∨ (ee_Code ev = CodeHorizon ∧ pa_Horizon p < time_Sub now (armed_clock p pr now))
      ∨ (ee_Code ev = CodeDispatchDead ∧ pa_Label p ∈ pl_Labels pr ∧ pa_DispatchedAt p ≠ 0
         ∧ (pa_ArmedSha p = "" ∨ pa_ArmedSha p = pl_HeadSHA pr)
         ∧ 0 < pa_DispatchTimeout p ≤ time_Sub now (pa_DispatchedAt p)
         ∧ ∃ wa comments wb,
           ListComments (pa_Repo p) (pa_PR p) (verdict_since p now) wa = (Ok comments, wb)
           ∧ ∀ c, c ∈ comments → ¬ carries_verdict c)
      ∨ (ee_Code ev = CodeVerdictStanding ∧ pa_DispatchedAt p = 0 ∧ ∃ wa comments wb c d h env,
           ListCommentsAll (pa_Repo p) (pa_PR p) wa = (Ok (comments, false), wb)
           ∧ c ∈ comments ∧ verdictTrailer (ic_Body c) = Some (d, h)
           ∧ ShaPrefixMatch (pl_HeadSHA pr) h = true
           ∧ ee_Envelope ev = Some env ∧ en_HeadSHA env = pl_HeadSHA pr
           ∧ en_VerdictDecision env = d ∧ en_VerdictURL env = ic_HTMLURL c))).

Lemma time_IsZero_spec t : time_IsZero t = true ↔ t = 0.
Proof. apply Z.eqb_eq. Qed.

Lemma evaluate_absent_stands p pr now w r w' :
  pl_State pr = "open" → evaluate_absent p pr now w = (r, w') →
  re_Decision r = DecisionStanddown → stood_down p pr now (re_Eval r).
Proof.
  intros Ho. unfold evaluate_absent.
  destruct (ListComments _ _ _ w) as [[comments|e] w1] eqn:Hc; [|by intros [= <- <-]].
  destruct (hasVerdict comments) eqn:Hv.
  { intros [= <- <-] _. apply hasVerdict_spec in Hv as (c&?&?). right; right. split; [done|].
    right; left. split; [done|]. by exists w, comments, w1, c. }
  destruct (pa_Horizon p <? _) eqn:Hh.
  - intros [= <- <-] _. apply Z.ltb_lt in Hh. right; right. split; [done|]. right; right; left. done.
  - destruct (labelAbsentHoldNote p pr w1). by intros [= <- <-].
Qed.

Lemma evaluate_dispatched_stands p pr now armedAt w r w' :
  pl_State pr = "open" → HasLabel pr (pa_Label p) = true → time_IsZero (pa_DispatchedAt p) = false →
  evaluate_dispatched p pr now armedAt w = (r, w') →
  re_Decision r = DecisionStanddown → stood_down p pr now (re_Eval r).
Proof.
  intros Ho Hl Hz. unfold evaluate_dispatched.
  destruct (ListComments _ _ _ w) as [[comments|e] w1] eqn:Hc; [|by intros [= <- <-]].
  destruct (hasVerdict comments) eqn:Hv.
  { intros [= <- <-] _. apply hasVerdict_spec in Hv as (c&?&?). right; right. split; [done|].
    right; left. split; [done|]. by exists w, comments, w1, c. }
  destruct (head_moved p pr) eqn:Hm.
  { intros [= <- <-] _. right; right. split; [done|]. left. split; [done|].
    unfold head_moved in Hm. by to_prop. }
  destruct (_ && _) eqn:Ht; [|by intros [= <- <-]].
  intros [= <- <-] _. to_prop. right; right. split; [done|]. right; right; right; left.
  apply HasLabel_spec in Hl. apply head_moved_spec in Hm.
  split_and!; [done|done| |done|lia|lia|].
  - intros Hd. apply time_IsZero_spec in Hd. congruence.
  - exists w, comments, w1. split; [done|]. intros c ? ?.
    assert (hasVerdict comments = true) by (apply hasVerdict_spec; by exists c). congruence.
Qed.

Lemma evaluate_ci_waits p pr armedAt w r w' :
  evaluate_ci clock p pr armedAt w = (r, w') → re_Decision r ≠ DecisionStanddown.
Proof.
  unfold evaluate_ci. intros Hr Hd. repeat split_match Hr; simplify_eq; done.
Qed.

Lemma evaluate_fresh_stands p pr now armedAt w r w' :
  pl_State pr = "open" → pa_DispatchedAt p = 0 →
  evaluate_fresh clock p pr armedAt w = (r, w') →
  re_Decision r = DecisionStanddown → stood_down p pr now (re_Eval r).
Proof.
  intros Ho Hz. unfold evaluate_fresh.
  destruct (ListCommentsAll _ _ w) as [[[comments [|]]|e] w1] eqn:Hc; [by intros [= <- <-]| |by intros [= <- <-]].
  destruct (standingVerdictAt _ _) as [[d c]|] eqn:Hs.
  - intros [= <- <-] _. apply standingVerdictAt_spec in Hs as (?&h&?&?). right; right. split; [done|].
    do 4 right. split; [done|]. split; [done|]. simpl.
    exists w, comments, w1, c, d, h. eexists. by split_and!.
  - intros Hr ?. by apply evaluate_ci_waits in Hr.
Qed.

Lemma Evaluate_stands (p : Params) (w : W) r w' :
  Evaluate clock p w = (r, w') → re_Decision r = DecisionStanddown →
  (pa_DisarmHint p = true ∧ ee_Code (re_Eval r) = CodePRClosed)
  ∨ ∃ pr w1, GetPullRequest (pa_Repo p) (pa_PR p) w = (Ok pr, w1)
      ∧ stood_down p pr (nowFrom clock p w) (re_Eval r).
Proof.
  unfold Evaluate. destruct (pa_DisarmHint p); [intros [= <- <-]; by left|].
  destruct (GetPullRequest _ _ w) as [[pr|e] w1]; [|by intros [= <- <-]].
  intros Hr Hd. right. exists pr, w1. split; [done|]. revert Hr. unfold evaluate_pr.
  destruct (decide (pl_State pr ≠ "open")) as [Ho|Ho].
  { intros [= <- <-]. unfold stood_down. simpl. destruct (decide (pl_State pr = "closed")); [by left|].
    right; by left. }
  apply dec_stable in Ho.
  destruct (time_IsZero (pa_DispatchedAt p)) eqn:Hz; simpl.
  - destruct (head_moved p pr) eqn:Hm.
    { intros [= <- <-]. right; right. split; [done|]. left. split; [done|].
      unfold head_moved in Hm. by to_prop. }
    destruct (HasLabel pr (pa_Label p)); simpl; [|by intros; eapply evaluate_absent_stands].
    destruct (pa_Horizon p <? _) eqn:Hh.
    { intros [= <- <-]. apply Z.ltb_lt in Hh. right; right. split; [done|]. by right; right; left. }
    apply time_IsZero_spec in Hz. intros Hr. by eapply evaluate_fresh_stands.
  - destruct (HasLabel pr (pa_Label p)) eqn:Hl; simpl; [|by intros; eapply evaluate_absent_stands].
    destruct (pa_Horizon p <? _) eqn:Hh.
    { intros [= <- <-]. apply Z.ltb_lt in Hh. right; right. split; [done|]. by right; right; left. }
    intros Hr. by eapply evaluate_dispatched_stands.
Qed.

(** What a stand-down presupposes. An evaluation that stands down was told
    that the pull request closed, or read the pull request and: with a code
    that authorises cancelling the review's Job (closed, head moved), read it
    closed, or open at another head than the one armed; with "consumed", read
    a comment that carries a verdict trailer; with the horizon code, had waited
    longer than the horizon; presumed a dispatch dead only with the label on,
    at the same head, past the dispatch timeout, and with no trailer in the
    comments read; and refused a standing verdict only on a trailer of the
    whole conversation that names this very head, whose decision and link the
    refusal carries. *)
Theorem Evaluate_standdowns (p : Params) (w : W) r w' :
  Evaluate clock p w = (r, w') → re_Decision r = DecisionStanddown →
  (pa_DisarmHint p = true ∧ ee_Code (re_Eval r) = CodePRClosed)
  ∨ ∃ pr w1, GetPullRequest (pa_Repo p) (pa_PR p) w = (Ok pr, w1)
      ∧ stood_down p pr (nowFrom clock p w) (re_Eval r).
Proof. apply Evaluate_stands. Qed.

(** ** How long a claim waits *)

(** No claim waits past its clocks while the forge answers. Once the pull
    request is read and, if the comments are needed, they are read too: a claim
    armed longer ago than the horizon stands down, unless its review is in
    flight at a head that moved; and with the label still on, so does a review
    dispatched at least the dispatch timeout ago, wherever the head is. *)
Theorem Evaluate_releases_in_time (p : Params) (w : W) pr w1 :
  let now := nowFrom clock p w in
  pa_DisarmHint p = false → GetPullRequest (pa_Repo p) (pa_PR p) w = (Ok pr, w1) →
  is_ok (ListComments (pa_Repo p) (pa_PR p) (verdict_since p now) w1).1 = true →
  (pa_Horizon p < time_Sub now (armTime (pa_ArmedAt p) now)
     ∧ (pa_DispatchedAt p = 0 ∨ pa_ArmedSha p = "" ∨ pa_ArmedSha p = pl_HeadSHA pr))
  ∨ (pa_Label p ∈ pl_Labels pr ∧ pa_DispatchedAt p ≠ 0
     ∧ 0 < pa_DispatchTimeout p ≤ time_Sub now (pa_DispatchedAt p)) →
  re_Decision (Evaluate clock p w).1 = DecisionStanddown.
Proof.
  cbv zeta. intros Hd Hp Hok Hout. unfold Evaluate. rewrite Hd, Hp. unfold evaluate_pr.
  destruct (decide (pl_State pr ≠ "open")); [done|].
  destruct (time_IsZero (pa_DispatchedAt p) && head_moved p pr) eqn:Hm; [done|].
  unfold evaluate_absent, evaluate_dispatched, armed_clock.
  destruct (ListComments _ _ _ w1) as [[comments|e] w2]; [|done].
  rewrite <- HasLabel_spec, <- head_moved_spec, <- time_IsZero_spec in Hout.
  destruct (HasLabel pr (pa_Label p)), (time_IsZero (pa_DispatchedAt p)), (head_moved p pr) eqn:Hmv;
    simpl in *; try done;
    repeat match goal with |- context [if ?b then _ else _] => destruct b eqn:?; simpl; try done end;
    exfalso; to_prop; destruct Hout as [[? [?|?]]|(?&?&?)]; try done; try lia;
    rewrite ?andb_false_iff in *; naive_solver lia.
Qed.
End proceeds.

(** ** On a concrete forge *)

Definition labelled : PullRequest := pull_at "open" head_a ["bug"; "needs-review"].
Definition unlabelled (head : string) : PullRequest := pull_at "open" head ["bug"].

Definition decides (p : Params) (f : Forge) : string * string :=
  let r := (Evaluate (λ _, 1) p f).1 in (re_Decision r, ee_Code (re_Eval r)).

Example decides_green :
  decides (params_at (10 * Hour) (9 * Hour) head_a 0)
    (forge_with labelled [] ["ci/build"] [("ci/build", "success"); ("docs", "failure")])
  = (DecisionProceed, "").
Proof. vm_compute. reflexivity. Qed.

Example decides_pending :
  decides (params_at (10 * Hour) (9 * Hour) head_a 0)
    (forge_with labelled [] [] [("ci/build", "pending"); ("pr-review/verdict", "failure")])
  = (DecisionWaiting, "").
Proof. vm_compute. reflexivity. Qed.

Lemma Evaluate_standdowns_witness :
  let p := params_at (10 * Hour) (9 * Hour) head_a 0 in
  let f := forge_with labelled ["LGTM <!-- pr-review: APPROVE @ 0a1b2c3d -->"] [] [] in
  ∃ r w', Evaluate (λ _, 1) p f = (r, w') ∧ re_Decision r = DecisionStanddown
    ∧ ((pa_DisarmHint p = true ∧ ee_Code (re_Eval r) = CodePRClosed)
       ∨ ∃ pr w1, GetPullRequest (pa_Repo p) (pa_PR p) f = (Ok pr, w1)
           ∧ stood_down p pr (nowFrom (λ _, 1) p f) (re_Eval r)).
Proof.
  cbv zeta. set (p := params_at _ _ _ _). set (f := forge_with _ _ _ _).
  exists (Evaluate (λ _, 1) p f).1, (Evaluate (λ _, 1) p f).2.
  assert (Evaluate (λ _, 1) p f = ((Evaluate (λ _, 1) p f).1, (Evaluate (λ _, 1) p f).2)) as He
    by apply surjective_pairing.
  assert (re_Decision (Evaluate (λ _, 1) p f).1 = DecisionStanddown) as Hd by (vm_compute; reflexivity).
  split; [exact He|]. split; [exact Hd|]. exact (Evaluate_standdowns (λ _, 1) p f _ _ He Hd).
Defined.

Lemma Evaluate_releases_in_time_witness :
  let p := params_at (10 * Hour) (9 * Hour) head_a (9 * Hour) in
  let f := forge_with labelled [] [] [] in
  re_Decision (Evaluate (λ _, 1) p f).1 = DecisionStanddown.
Proof.
  cbv zeta.
  apply (Evaluate_releases_in_time (λ _, 1) _ _ labelled (forge_with labelled [] [] [])).
  - reflexivity.
  - vm_compute. reflexivity.
  - vm_compute. reflexivity.
  - right. split; [by right; left|]. split; [discriminate|]. vm_compute. split; congruence.
Defined.

(** The exception of the horizon is real: with the label gone, a review in
    flight whose head moved restarts the horizon's clock at every evaluation,
    and the dispatch timeout is not looked at; it waits at any time. *)
Lemma absent_moved_waits now :
  now ≠ 0 →
  decides (params_at now 1 head_a 1) (forge_with (unlabelled head_b) [] [] [])
  = (DecisionWaiting, "").
Proof.
  intros Hn. unfold decides, Evaluate, nowFrom. simpl.
  assert (time_IsZero now = false) as -> by by apply Z.eqb_neq.
  cbn -[Z.mul time_Sub]. unfold evaluate_pr, evaluate_absent. cbn -[Z.mul time_Sub].
  replace (found _) with (Ok (E:=string) (unlabelled head_b)) by (vm_compute; reflexivity).
  unfold armed_clock. replace (head_moved _ _) with true by (vm_compute; reflexivity).
  replace (time_Sub now now) with 0 by (unfold time_Sub, min_int64, max_int64; lia).
  by vm_compute.
Qed.

(** Only the first trailer of a comment counts: one that quotes an old verdict
    before the new one hides it, and the head is reviewed again. *)
Example second_trailer_hidden :
  standingVerdictAt
    [comment_of "was <!-- pr-review: COMMENT @ ffffffff --> now <!-- pr-review: APPROVE @ 0a1b2c3d -->"]
    head_a = None.
Proof. vm_compute. reflexivity. Qed.
