(* ===== verification/ForgeProps.v ===== *)
(** * Properties of the forge clients

    What state a context gets from the surfaces of a forge, when the walk over a
    conversation is complete, and what becomes of the threads GitHub reports
    resolved. *)

From S2P Require Import Prelude GoStrings GoTime Json Review ReviewRest.

(** ** The state of one context *)

Section states.
Implicit Types (rows raw combined : list StatusRow) (checks : list CheckRow) (ctx : string).

Definition first_row (value : StatusRow → string) ctx rows : option string :=
  value <$> head (filter (λ s, sw_Context s = ctx) rows).

Definition first_check ctx checks : option string :=
  (λ c, normalizeCheckRun (cw_Status c) (cw_Conclusion c)) <$> head (filter (λ c, cw_Name c = ctx) checks).

Lemma first_wins_lookup states k v ctx :
  first_wins states k v !! ctx =
  match states !! ctx with Some x => Some x | None => if decide (k = ctx) then Some v else None end.
Proof.
  unfold first_wins. destruct (states !! k) as [x|] eqn:Hk.
  - destruct (states !! ctx) eqn:Hc; [done|]. case_decide; [congruence|done].
  - destruct (decide (k = ctx)) as [->|]; [by rewrite lookup_insert_eq, Hk|].
    rewrite lookup_insert_ne by done. by destruct (states !! ctx).
Qed.

Lemma foldl_first_wins {A} (key value : A → string) (l : list A) (states : States) ctx :
  foldl (λ st a, first_wins st (key a) (value a)) states l !! ctx =
  match states !! ctx with
  | Some x => Some x
  | None => value <$> head (filter (λ a, key a = ctx) l)
  end.
Proof.
  revert states. induction l as [|a l IH]; intros states; simpl; [by destruct (states !! ctx)|].
  rewrite IH, first_wins_lookup, filter_cons. destruct (states !! ctx); [done|]. by case_decide.
Qed.

(** The raw rows of one context: its state and the date last compared with. *)
Definition raw_step (acc : option (string * string)) (s : StatusRow) : option (string * string) :=
  let nv := normalizeStatusState (row_value s) in
  match acc with
  | None => Some (nv, sw_CreatedAt s)
  | Some (cur, at_) =>
      Some (if bool_decide (sw_CreatedAt s = at_) && (precedence nv <? precedence cur) then nv
            else if String.ltb at_ (sw_CreatedAt s) then nv else cur, sw_CreatedAt s)
  end.

Definition raw_state ctx raw : option string :=
  fst <$> foldl raw_step None (filter (λ s, sw_Context s = ctx) raw).

Lemma raw_row_same covered states curAt s ctx :
  ctx ∉ covered → sw_Context s = ctx →
  let '(states', curAt') := raw_row covered (states, curAt) s in
  states' !! ctx = fst <$> raw_step ((λ v, (v, default "" (curAt !! ctx))) <$> states !! ctx) s
  ∧ curAt' !! ctx = Some (sw_CreatedAt s) ∧ is_Some (states' !! ctx).
Proof.
  intros Hc Hs. unfold raw_row. rewrite Hs, decide_False by done.
  destruct (states !! ctx) as [cur|] eqn:Hst; simpl.
  - do 2 try case_match; simpl; rewrite ?lookup_insert_eq, ?Hst; by eauto.
  - rewrite !lookup_insert_eq. by eauto.
Qed.

Lemma raw_row_other covered states curAt s ctx :
  sw_Context s ≠ ctx →
  let '(states', curAt') := raw_row covered (states, curAt) s in
  states' !! ctx = states !! ctx ∧ curAt' !! ctx = curAt !! ctx.
Proof.
  intros Hs. unfold raw_row. destruct (decide (_ ∈ _)); [done|].
  destruct (states !! sw_Context s); simpl.
  - do 2 try case_match; rewrite !lookup_insert_ne by done; done.
  - by rewrite !lookup_insert_ne by done.
Qed.

Lemma raw_row_covered covered st s : sw_Context s ∈ covered → raw_row covered st s = st.
Proof. intros Hs. unfold raw_row. destruct st. by rewrite decide_True. Qed.

Lemma raw_rows_lookup_from covered raw states curAt ctx :
  ctx ∉ covered → (states !! ctx = None ∨ is_Some (curAt !! ctx)) →
  (foldl (raw_row covered) (states, curAt) raw).1 !! ctx =
  fst <$> foldl raw_step ((λ v, (v, default "" (curAt !! ctx))) <$> states !! ctx)
            (filter (λ s, sw_Context s = ctx) raw).
Proof.
  intros Hc. revert states curAt. induction raw as [|s raw IH]; intros states curAt Hat.
  { simpl. by destruct (states !! ctx). }
  cbn [foldl]. rewrite filter_cons. destruct (decide (sw_Context s = ctx)) as [Hs|Hs].
  - pose proof (raw_row_same covered states curAt s ctx Hc Hs) as H.
    destruct (raw_row covered (states, curAt) s) as [states' curAt']. destruct H as (H1&H2&H3).
    rewrite IH by (right; by rewrite H2). simpl. f_equal. f_equal. rewrite H1, H2. simpl.
    unfold raw_step. by destruct (states !! ctx).
  - pose proof (raw_row_other covered states curAt s ctx Hs) as H.
    destruct (raw_row covered (states, curAt) s) as [states' curAt']. destruct H as (H1&H2).
    rewrite IH by (by rewrite H1, H2). by rewrite H1, H2.
Qed.

Lemma raw_rows_covered covered raw states ctx :
  ctx ∈ covered → raw_rows covered raw states !! ctx = states !! ctx.
Proof.
  intros Hc. unfold raw_rows. generalize (∅ : gmap string string) as curAt.
  revert states. induction raw as [|s raw IH]; intros states curAt; [done|]. cbn [foldl].
  destruct (decide (sw_Context s = ctx)) as [Hs|Hs].
  - rewrite raw_row_covered by by rewrite Hs. apply IH.
  - pose proof (raw_row_other covered states curAt s ctx Hs) as H.
    destruct (raw_row covered (states, curAt) s) as [states' curAt']. destruct H as (<-&_). apply IH.
Qed.

Lemma first_row_None value ctx rows : first_row value ctx rows = None ↔ ctx ∉ combinedCovered rows.
Proof.
  unfold first_row, combinedCovered. rewrite not_elem_of_list_to_set, list_elem_of_fmap.
  induction rows as [|s rows IH]; [set_solver|]. rewrite filter_cons. case_decide; set_solver.
Qed.

(** The state a required context gets. On GitHub, the first status row of
    the context counts, and the first check run of that name when there is no
    status. On Forgejo, the first row of the combined view counts whatever the
    raw rows and check runs say; a context the combined view does not cover
    takes the state its raw rows fold to, in their order, and its first check
    run only when it has no row at all. *)
Theorem context_states_lookup combined raw checks rows ctx :
  github_states rows checks !! ctx =
    match first_row (λ s, normalizeStatusState (sw_State s)) ctx rows with
    | Some v => Some v
    | None => first_check ctx checks
    end
  ∧ forgejo_states combined raw checks !! ctx =
    match first_row (λ s, normalizeStatusState (row_value s)) ctx combined with
    | Some v => Some v
    | None => match raw_state ctx raw with Some v => Some v | None => first_check ctx checks end
    end.
Proof.
  unfold github_states, forgejo_states, add_checks. split.
  - rewrite (foldl_first_wins cw_Name). unfold github_statuses.
    rewrite (foldl_first_wins sw_Context). by rewrite lookup_empty.
  - rewrite (foldl_first_wins cw_Name).
    assert (forgejo_combined combined !! ctx
      = first_row (λ s, normalizeStatusState (row_value s)) ctx combined) as Hcomb.
    { unfold forgejo_combined. rewrite (foldl_first_wins sw_Context). by rewrite lookup_empty. }
    destruct (first_row _ ctx combined) as [v|] eqn:Hf.
    + rewrite raw_rows_covered; [by rewrite Hcomb|].
      apply dec_stable. intros Hn. apply (first_row_None (λ s, normalizeStatusState (row_value s))) in Hn.
      congruence.
    + unfold raw_rows. rewrite raw_rows_lookup_from.
      * by rewrite Hcomb.
      * by apply first_row_None in Hf.
      * by left.
Qed.

(** Rows listed newest first, with distinct dates: the newest counts. *)
Lemma string_ltb_asym a b : String.ltb a b = true → String.ltb b a = false ∧ a ≠ b.
Proof.
  unfold String.ltb. intros H. split.
  - rewrite String.compare_antisym. by destruct (String.compare a b).
  - intros ->. pose proof (String.compare_antisym b b) as E. by destruct (String.compare b b).
Qed.

Lemma raw_state_newest ctx s l raw :
  filter (λ s, sw_Context s = ctx) raw = s :: l →
  Sorted (λ a b, String.ltb (sw_CreatedAt b) (sw_CreatedAt a) = true) (s :: l) →
  raw_state ctx raw = Some (normalizeStatusState (row_value s)).
Proof.
  unfold raw_state. intros -> Hs. cbn [foldl raw_step].
  generalize (normalizeStatusState (row_value s)) as v. intros v. revert s Hs.
  induction l as [|x l IH]; intros s Hs; [done|]. apply Sorted_inv in Hs as [Hs Hr].
  inversion_clear Hr as [|?? Hlt]. apply string_ltb_asym in Hlt as [Hge Hne]. simpl.
  rewrite bool_decide_eq_false_2 by done. simpl. rewrite Hge. by apply IH.
Qed.

(** The same-second tie-break compares with the row read last, not with the row
    whose state is kept: a re-run reported pending in a newer row is overridden
    by two older rows of one second, and the head reads as green. *)
Example stale_success_beats_pending :
  let row state at_ := {| sw_Context := "ci/build"; sw_State := ""; sw_StatusF := state; sw_CreatedAt := at_ |} in
  forgejo_states [] [row "pending" "2026-01-02T10:00:10Z"; row "success" "2026-01-02T10:00:05Z";
                     row "success" "2026-01-02T10:00:05Z"] [] !! "ci/build" = Some "success".
Proof. vm_compute. reflexivity. Qed.

(** A failure missing from [precedence] reads as conclusive as a success. *)
Example failure_beats_pending :
  let row state at_ := {| sw_Context := "ci/build"; sw_State := ""; sw_StatusF := state; sw_CreatedAt := at_ |} in
  forgejo_states [] [row "pending" "t"; row "failure" "t"] [] !! "ci/build" = Some "failure".
Proof. vm_compute. reflexivity. Qed.
End states.

(** ** The walk over a conversation *)

Section walk.
Context {W : Type} (Do : HttpRequest → M W string (Z * string)).
Context (request_error : string → string → option string).
Context (parse_json : string → option json) (json_error : string → string).
Context (marshal : list (string * string) → string) (quote : string → string).
Context (TokenLookup : option (string → string)) (BaseOverride : string).

Notation get := (get Do request_error parse_json json_error TokenLookup BaseOverride).
Notation comment_pages := (comment_pages Do request_error parse_json json_error TokenLookup BaseOverride).
Notation ListCommentsAll := (rest_ListCommentsAll Do request_error parse_json json_error TokenLookup BaseOverride).
Notation ListReviewThreads :=
  (rest_ListReviewThreads Do request_error parse_json json_error marshal quote TokenLookup BaseOverride).

(** The host serves the conversation [cs] in pages of a hundred, oldest first. *)
Definition serves (h : Host) (base : string) (cs : list IssueComment) (w : W) : Prop :=
  ∀ i : nat, get (dec_list dec_comment) h (base +:+ "&page=" +:+ pretty (Z.of_nat i + 1)) "application/json" w
             = (Ok (take 100 (drop (100 * i) cs)), w).

Lemma comment_pages_serves h base cs (w : W) n i out :
  serves h base cs w →
  comment_pages n (Z.of_nat i + 1) h base out w =
  (Ok (out ++ take (100 * n) (drop (100 * i) cs), bool_decide (100 * (i + n) ≤ length cs ∨ n = 0)%nat), w).
Proof.
  intros Hs. revert i out. induction n as [|n IH]; intros i out; cbn [ReviewRest.comment_pages].
  { unfold ret. rewrite take_0, app_nil_r. by rewrite bool_decide_eq_true_2 by (by right). }
  rewrite (bindM_run _ _ _ _ _ (Hs i)). rewrite length_take, length_drop.
  destruct (_ <? 100)%nat eqn:Hl; [apply Nat.ltb_lt in Hl|apply Nat.ltb_ge in Hl].
  - rewrite !take_ge by (rewrite length_drop; lia).
    unfold ret. by rewrite bool_decide_eq_false_2 by lia.
  - replace (Z.of_nat i + 1 + 1) with (Z.of_nat (S i) + 1) by lia. rewrite IH.
    replace (100 * S i)%nat with (100 * i + 100)%nat by lia. rewrite <- drop_drop, <- app_assoc.
    replace (100 * S n)%nat with (100 + 100 * n)%nat by lia. rewrite take_take_drop.
    do 2 f_equal. f_equal. apply bool_decide_ext. lia.
Qed.

(** The standing-verdict scan never mistakes a part of the conversation for
    the whole. Against a host that serves a conversation in pages of a hundred,
    the walk returns all of it, in order and marked complete, when it has fewer
    than a thousand comments, and otherwise its first thousand, marked
    truncated; it asks for no more than ten pages. *)
Theorem ListCommentsAll_complete repo (number : Z) h cs (w : W) :
  ResolveHost repo = Ok h → serves h (comments_base h number 0) cs w →
  ListCommentsAll repo number w = (Ok (take 1000 cs, bool_decide (1000 ≤ length cs)%nat), w).
Proof.
  intros Hh Hs. unfold rest_ListCommentsAll, on_host. rewrite Hh.
  rewrite (comment_pages_serves h _ cs w maxCommentPages 0 []) by done.
  unfold maxCommentPages. rewrite drop_0, app_nil_l. do 2 f_equal. f_equal.
  apply bool_decide_ext. lia.
Qed.

(** ** GitHub threads *)

(** A GraphQL answer wraps its result in "data" (or reports "errors"): its
    top-level object has no "repository". *)
Definition wrapped_answers : Prop :=
  ∀ rq w status body w', Do rq w = (Ok (status, body), w') → hq_Method rq = "POST" →
    ∀ j, parse_json body = Some j → ∃ fields, j = JObj fields ∧ json_field "repository" fields = None.

Lemma graphql_page_empty h q w page w' :
  wrapped_answers →
  graphqlThreadsPage Do request_error parse_json json_error marshal TokenLookup BaseOverride h q w = (Ok page, w') →
  gq_hasNext page = false ∧ gq_resolved page = ∅.
Proof.
  intros Hw. unfold graphqlThreadsPage, postAuth, bindM, roundtrip.
  destruct (request_error _ _); [done|].
  destruct (Do _ w) as [[[status body]|e] w1] eqn:Hd; [|done].
  destruct (300 <=? status); [done|]. unfold decode.
  destruct (parse_json body) as [j|] eqn:Hj; [|done]. simpl.
  destruct (Hw _ _ _ _ _ Hd eq_refl j Hj) as (fields&->&Hf).
  unfold dec_graphql_data, dec_struct, field at 1. rewrite Hf. simpl. by intros [= <- <-].
Qed.

(** The page is decoded into [payload.Data] itself, so nothing of such an answer
    is found: on GitHub no thread is ever listed as resolved. *)
Theorem github_threads_unresolved repo (number : Z) h (w : W) ts w' :
  wrapped_answers → ResolveHost repo = Ok h → hs_Kind h = HostGitHub →
  ListReviewThreads repo number w = (Ok ts, w') → Forall (λ t, th_Resolved t = false) ts.
Proof.
  intros Hw Hh Hk. unfold rest_ListReviewThreads, on_host. rewrite Hh.
  rewrite decide_False by (rewrite Hk; done).
  intros (cs&w1&_&Hr)%bindM_ok_inv. destruct (default (hs_RepoPath h, "") (cut_first "/" (hs_RepoPath h))) as [owner name].
  apply bindM_ok_inv in Hr as (resolved&w2&Hres&[= <- <-]).
  assert (resolved = ∅) as ->.
  { cbn [github_resolved] in Hres. apply bindM_ok_inv in Hres as (page&w3&Hp&Hr).
    apply graphql_page_empty in Hp as [Hn He]; [|done]. rewrite Hn, He in Hr. simpl in Hr.
    injection Hr as <- <-. set_solver. }
  apply Forall_fmap, Forall_forall. intros t _. simpl. by apply bool_decide_eq_false_2.
Qed.
End walk.

Definition one_comment : IssueComment := {| ic_ID := 5; ic_Body := "hi"; ic_HTMLURL := "u" |}.
Definition sample_host : Host :=
  {| hs_Kind := HostForgejo; hs_APIBase := "https://h/api/v1"; hs_RepoPath := "o/n" |}.
Definition sample_base : string := comments_base sample_host 7 0.

(** A server whose body is the URL, of a conversation of one comment. *)
Definition echo (rq : HttpRequest) : M unit string (Z * string) := ret (200, hq_URL rq).
Definition read_echo (body : string) : option json :=
  Some (JArr (if decide (body = "https://h/api/v1" +:+ (sample_base +:+ "&page=" +:+ pretty 1))
              then [JObj [("id", JInt 5); ("body", JStr "hi"); ("html_url", JStr "u")]] else [])).

Lemma ListCommentsAll_complete_witness :
  rest_ListCommentsAll echo (λ _ _, None) read_echo (λ _, "") None "" "h/o/n" 7 tt
  = (Ok ([one_comment], false), tt).
Proof.
  assert (serves echo (λ _ _, None) read_echo (λ _, "") None "" sample_host sample_base [one_comment] tt) as Hs.
  { intros i. unfold get, bindM, roundtrip. cbn [echo ret hq_URL].
    assert (∀ b, decode read_echo (λ _, "") (dec_list dec_comment) b =
      Ok (E:=RestErr) (if decide (b = "https://h/api/v1" +:+ (sample_base +:+ "&page=" +:+ pretty 1))
                       then [one_comment] else [])) as Hdec.
    { intros b. unfold decode, read_echo. by case_decide. }
    cbn -[decode take drop sample_base pretty dec_list]. rewrite Hdec. case_decide as Hb.
    - apply (app_str_inj "https://h/api/v1"), app_str_inj, app_str_inj, (inj pretty) in Hb.
      assert (i = 0%nat) as -> by lia. done.
    - destruct i as [|i]; [done|]. do 2 f_equal. rewrite drop_ge by (simpl; lia). done. }
  exact (ListCommentsAll_complete echo (λ _ _, None) read_echo (λ _, "") None ""
    "h/o/n" 7 sample_host [one_comment] tt eq_refl Hs).
Defined.
