(* ===== verification/Gate.v ===== *)
(** * The gate's vocabulary ([internal/gate/sweep.go], first and last parts)

    Pull request pointers and repository scope, the wake and its candidate,
    human overrides, the classification of stand-downs into release reasons,
    the refusal notice and its marker, and what is emitted to the timeline. *)

From S2P Require Import Prelude GoStrings GoTime Api ReviewReady AttemptName Kube ReviewClaim Json Review ReviewRest ReviewEval ReviewProps.

Definition reDispatchGrace : Z := 5 * Minute.
Definition jobDeathGrace : Z := 2 * Minute.
Definition gateSweepDeadline : Z := 2 * Minute.

(** ** Data *)

Record GateWake := { gk_PR : string; gk_Action : string; gk_Revision : string; gk_Repo : string }.

Record GateDispatch := { gd_Envelope : option Envelope; gd_Attempt : string }.

Record candidate := {
  ca_repo : string;
  ca_pr : Z;
  ca_pointer : string;
  ca_sha : string;
  ca_request : bool;
  ca_labeled : bool;
  ca_granularLabel : bool;
  ca_humanResolved : option bool;
  ca_humanUnknown : bool;
}.

Definition set_resolved (b : bool) (unknown : bool) (c : candidate) : candidate :=
  {| ca_repo := ca_repo c; ca_pr := ca_pr c; ca_pointer := ca_pointer c; ca_sha := ca_sha c;
     ca_request := ca_request c; ca_labeled := ca_labeled c; ca_granularLabel := ca_granularLabel c;
     ca_humanResolved := Some b; ca_humanUnknown := unknown || ca_humanUnknown c |}.

Definition candSha (c : candidate) : string := ca_sha c.

Record ReviewReadyStatus := {
  ry_LiveClaims : Z;
  ry_Capacity : Z;
  ry_LastDecision : string;
  ry_LastReason : string;
  ry_LastSweepAbortAt : option Z;
  ry_LastWake : string;
  ry_Refusals : list ReviewRefusal;
}.

(** ** Pointers: "host/owner/name#N" *)

Definition pointer_of (repo : string) (pr : Z) : string := repo +:+ "#" +:+ pretty pr.

Definition parsePRPointer (s : string) : result string (string * Z) :=
  match cut_last "#" s with
  | None => Err "missing #"
  | Some (repo, number) =>
      match Atoi number with
      | Some n => if n <=? 0 then Err "bad PR number"
                  else if negb (contains_byte repo "/") then Err "bad repo path"
                  else Ok (repo, n)
      | None => Err "bad PR number"
      end
  end.

(** ** Scope *)

Section scope.
Context (parse_json : string → option json).

Definition scopeRepos (wf : Workflow) : list string :=
  let config := wf_Config (wk_Spec wf) in
  if decide (config = "") then []
  else default [] (parse_json config ≫= dec_struct (field "repos" (dec_list dec_string))).

Definition normalizeRepoPointer (repo : string) (wf : Workflow) : string :=
  match split_byte "/" repo with
  | [_; _] =>
      match filter (λ r, length (split_byte "/" r) = 3%nat ∧ has_suffix r ("/" +:+ repo) = true)
              (scopeRepos wf) with
      | r :: _ => r
      | [] => "github.com/" +:+ repo
      end
  | _ => repo
  end.

Definition repoInScope (wf : Workflow) (repo : string) : bool :=
  existsb (λ r, bool_decide (r = repo)
                || (bool_decide (length (split_byte "/" r) = 2%nat) && bool_decide (repo = "github.com/" +:+ r)))
    (scopeRepos wf).

(** [GateDeps.wake]: the trigger event as the scan's leading candidate. *)
Definition wake (w : GateWake) (wf : Workflow) : option candidate :=
  if decide (gk_PR w = "") then None
  else match parsePRPointer (gk_PR w) with
       | Err _ => None
       | Ok (repo, pr) =>
           let repo := normalizeRepoPointer repo wf in
           if negb (repoInScope wf repo) then None
           else
             let action := gk_Action w in
             Some {| ca_repo := repo; ca_pr := pr; ca_pointer := pointer_of repo pr;
                     ca_sha := gk_Revision w;
                     ca_request := RequestShaped action && negb (bool_decide (gk_Revision w = ""));
                     ca_labeled := bool_decide (action = "labeled")
                                   || bool_decide (action = "review_requested");
                     ca_granularLabel := bool_decide (action = "label_updated")
                                         || bool_decide (action = "review_request_removed");
                     ca_humanResolved := None; ca_humanUnknown := false |}
       end.
End scope.

Definition wakeRecord (w : GateWake) (liveAgg : option ReviewReadyStatus) : string :=
  if decide (gk_PR w ≠ "") then gk_PR w +:+ " (" +:+ gk_Action w +:+ ")"
  else if decide (gk_Repo w ≠ "") then
    gk_Repo w +:+ "@" +:+ (if 12 <? slen (gk_Revision w) then str_take 12 (gk_Revision w) else gk_Revision w)
    +:+ " (" +:+ gk_Action w +:+ ")"
  else match liveAgg with Some a => ry_LastWake a | None => "" end.

Definition owns_pointer (pointer : string) (a : Attempt) : bool :=
  match st_Review (at_Status a) with
  | Some r => bool_decide (rv_PR r = pointer) && negb (rv_Released r)
  | None => false
  end.

Definition findClaim (claims : list Attempt) (pointer : string) : option Attempt :=
  head (filter (λ a, owns_pointer pointer a = true) claims).

(** ** Human overrides *)

Definition humanApplied (c : candidate) (labelPresent : bool) : bool :=
  match ca_humanResolved c with Some b => b | None => labelPresent end.

(** The arm sites' composition. *)
Definition human_arm (c : candidate) (labelPresent : bool) : bool :=
  ca_labeled c || (ca_granularLabel c && humanApplied c labelPresent).

Section override.
Context {W : Type} `{ReviewAPI W}.

Definition humanOverride (c : candidate) (label : string) (w : W) : bool * candidate * W :=
  if ca_labeled c then (true, c, w)
  else if negb (ca_granularLabel c) then (false, c, w)
  else match ca_humanResolved c with
       | Some b => (b, c, w)
       | None =>
           match GetPullRequest (ca_repo c) (ca_pr c) w with
           | (Err _, w) => (false, set_resolved false true c, w)
           | (Ok pr, w) => let present := HasLabel pr label in (present, set_resolved present false c, w)
           end
       end.
End override.

(** ** Releases *)

Definition classifyReleaseProse (reason : string) : string :=
  if str_contains reason "consumed" then "consumed"
  else if str_contains reason "presumed dead" then ReleaseReasonDispatchTimeout
  else if str_contains reason "horizon exceeded" then ReleaseReasonHorizon
  else if str_contains reason "head moved" then ReleaseReasonSuperseded
  else if str_contains reason "closed" then ReleaseReasonPRClosed
  else "standdown".

Definition classifyRelease (ev : Evaluation) : string :=
  let code := ee_Code ev in
  if decide (code = CodePRClosed) then ReleaseReasonPRClosed
  else if bool_decide (code = CodeConsumed) || bool_decide (code = CodeVerdictStanding) then "consumed"
  else if decide (code = CodeHorizon) then ReleaseReasonHorizon
  else if decide (code = CodeHeadMoved) then ReleaseReasonSuperseded
  else if decide (code = CodeDispatchDead) then ReleaseReasonDispatchTimeout
  else if decide (code = CodeStanddown) then "standdown"
  else classifyReleaseProse (ee_Reason ev).

(** [errors.Is] of one of the three sentinels, through the wrapping. *)
Fixpoint isIntentionalStop (e : Error) : bool :=
  match e with
  | ESentinel _ => true
  | EWrap _ e | ENoted e _ _ => isIntentionalStop e
  | EKube _ | EText _ => false
  end.

Definition sentinel_text (s : Sentinel) : string :=
  match s with
  | ErrDeadDispatchBreaker deaths sha =>
      "dead-dispatch breaker open: " +:+ pretty deaths +:+ " dispatched reviews of " +:+ sha
      +:+ " died without a verdict — automatic re-arm refused; push a new commit or re-issue an explicit label request to override (on Forgejo any label edit on a labeled PR counts)"
  | ErrRecentlyDismissed sha ago =>
      "recently dismissed by horizon: " +:+ sha +:+ " (dismissed " +:+ duration_String ago
      +:+ " ago) — automatic re-arm refused; re-apply the label to request a fresh review"
  | ErrChurnBudgetExhausted sha n =>
      "dispatch-lost churn budget exhausted: " +:+ sha +:+ " — " +:+ pretty n
      +:+ " consecutive never-dispatched releases within the horizon window (max "
      +:+ pretty MaxDispatchLostReleases
      +:+ "); re-apply the label for a fresh review now, or wait out the horizon and the budget self-clears"
  end.

(** The texts of the API server's errors are its own. *)
Fixpoint error_text (kube_text : KErr → string) (e : Error) : string :=
  match e with
  | EKube k => kube_text k
  | ESentinel s => sentinel_text s
  | EText t => t
  | EWrap context e => context +:+ ": " +:+ error_text kube_text e
  | ENoted e name other =>
      error_text kube_text e +:+ " (cleanup: the created-but-unstamped attempt " +:+ name
      +:+ " could not be deleted: " +:+ kube_text other +:+ ")"
  end.

(** ** The refusal notice *)

Definition refusalNoticeMarkerName : string := "harmostes: review-gate-refusal".

Definition marker_at (s : string) : option string :=
  strip_prefix "<!-- harmostes: review-gate-refusal @ " s ≫= sha_close.

Definition refusalNoticeMarker (body : string) : option string := find_match marker_at body.

Fixpoint refusalNoticeStanding (comments : list IssueComment) (headSHA : string) : bool :=
  match comments with
  | [] => false
  | c :: comments =>
      match refusalNoticeMarker (ic_Body c) with
      | Some h => if ShaPrefixMatch headSHA h then true else refusalNoticeStanding comments headSHA
      | None =>
          let lower := ToLower (ic_Body c) in
          if str_contains lower "review gate (#567): this head" && str_contains lower (ToLower headSHA)
          then true else refusalNoticeStanding comments headSHA
      end
  end.

Definition notice_link (url : string) : string :=
  if decide (url = "") then "" else " The verdict: " +:+ url.

Definition notice_body (r : ReviewRefusal) : string :=
  "Review gate (#567): this head (`" +:+ rf_HeadSHA r
  +:+ "`) was already reviewed — no new review runs at the same SHA." +:+ notice_link (rf_VerdictURL r)
  +:+ " " +:+ rf_Reason r +:+ " <!-- " +:+ refusalNoticeMarkerName +:+ " @ " +:+ rf_HeadSHA r +:+ " -->".

Section notice.
Context {W : Type} `{ReviewAPI W}.

(** The refusal is a pointer in the code: it comes back, marked or not. *)
Definition notifyRefusalHost (r : ReviewRefusal) (w : W) : ReviewRefusal * W :=
  if rf_HostNotified r then (r, w)
  else
    let '(scan, w) := ListCommentsAll (rf_Repo r) (rf_PR r) w in
    if match scan with Ok (comments, _) => refusalNoticeStanding comments (rf_HeadSHA r) | Err _ => false end
    then (set_HostNotified true r, w)
    else match PostComment (rf_Repo r) (rf_PR r) (notice_body r) w with
         | (Err _, w) => (r, w)
         | (Ok _, w) => (set_HostNotified true r, w)
         end.
End notice.

(** ** The timeline *)

Definition KindGateWaiting : string := "gate.waiting".
Definition KindGateProceed : string := "gate.proceed".
Definition KindGateStanddown : string := "gate.standdown".
Definition KindGateCancel : string := "gate.cancel".

Inductive Value : Type := VString (s : string) | VInt (z : Z) | VBool (b : bool).
Notation Payload := (list (string * Value)).

(** The kind a result is emitted under; a repeated waiting state is not a
    transition. *)
Definition gate_kind (agg : option ReviewReadyStatus) (decision reason : string) : option string :=
  if decide (decision = DecisionProceed) then Some KindGateProceed
  else if decide (decision = DecisionStanddown) then Some KindGateStanddown
  else if decide (decision = DecisionWaiting) then
    if match agg with
       | Some a => bool_decide (ry_LastDecision a = DecisionWaiting) && bool_decide (ry_LastReason a = reason)
       | None => false
       end
    then None else Some KindGateWaiting
  else None.

(** ** Properties of the gate's vocabulary

    Pointers parse to what was printed, a posted refusal notice is found again,
    and only a closed pull request or a moved head gives a release the authority
    to cancel. *)

(** ** Pointers *)

Lemma cut_last_pretty a n : 0 ≤ n → cut_last "#" (a +:+ "#" +:+ pretty n) = Some (a, pretty n).
Proof.
  intros Hn. apply cut_last_spec. split; [done|]. by apply pretty_no_byte.
Qed.

Lemma parse_spec s repo pr :
  parsePRPointer s = Ok (repo, pr) ↔
  ∃ number, s = repo +:+ "#" +:+ number ∧ contains_byte number "#" = false
    ∧ Atoi number = Some pr ∧ 0 < pr ∧ contains_byte repo "/" = true.
Proof.
  unfold parsePRPointer. split.
  - destruct (cut_last "#" s) as [[a b]|] eqn:Hc; [|done]. apply cut_last_spec in Hc as [-> Hb].
    destruct (Atoi b) as [n|] eqn:Hn; [|done]. destruct (n <=? 0) eqn:Hz; [done|].
    destruct (contains_byte a "/") eqn:Ha; [|done]. intros [= <- <-].
    exists b. split_and!; [done..|lia|done].
  - intros (b&->&Hb&Hn&Hp&Ha). change (repo +:+ "#" +:+ b) with (repo +:+ String "#" b).
    rewrite (proj2 (cut_last_spec "#" _ repo b) (conj eq_refl Hb)), Hn.
    rewrite (proj2 (Z.leb_gt _ _)) by lia. by rewrite Ha.
Qed.

(** A pointer the gate prints is read back as what it was printed from, for
    every repository path with a slash and every positive pull request number
    of an int; and what any text is read as is printed again to a text that is
    read the same, so the printed form is the canonical name of the claim. *)
Theorem pointer_roundtrip repo pr s :
  (contains_byte repo "/" = true → 0 < pr ≤ max_int64 →
     parsePRPointer (pointer_of repo pr) = Ok (repo, pr))
  ∧ (parsePRPointer s = Ok (repo, pr) → parsePRPointer (pointer_of repo pr) = Ok (repo, pr)).
Proof.
  assert (contains_byte repo "/" = true → 0 < pr ≤ max_int64 →
     parsePRPointer (pointer_of repo pr) = Ok (repo, pr)) as Hprint.
  { intros Hr Hp. apply parse_spec. exists (pretty pr).
    split_and!; [done|apply pretty_no_byte; [lia|done]|apply Atoi_pretty; lia|lia|done]. }
  split; [exact Hprint|]. intros (number&_&_&Hn&?&?)%parse_spec. apply Atoi_range in Hn.
  apply Hprint; [done|lia].
Qed.

Lemma pointer_roundtrip_witness :
  parsePRPointer (pointer_of "h/o/n" 12) = Ok ("h/o/n", 12)
  ∧ parsePRPointer (pointer_of "h/o/n" 7) = Ok ("h/o/n", 7).
Proof.
  split.
  - apply (proj1 (pointer_roundtrip "h/o/n" 12 "")); [reflexivity|unfold max_int64; lia].
  - apply (proj2 (pointer_roundtrip "h/o/n" 7 "h/o/n#+007")). vm_compute. reflexivity.
Defined.

(** ** The refusal notice *)

Definition is_sha (h : string) : Prop := all_bytes hex_byte h = true ∧ 7 ≤ slen h ≤ 40.

Definition marker_open : string := "<!-- harmostes: review-gate-refusal @ ".

Lemma marker_at_spec s h :
  marker_at s = Some h ↔ (∃ r, s = marker_open +:+ h +:+ " -->" +:+ r) ∧ is_sha h.
Proof.
  unfold marker_at, is_sha. rewrite bind_Some. setoid_rewrite strip_prefix_Some.
  setoid_rewrite sha_close_spec. naive_solver.
Qed.

Definition starts_with (c : ascii) (s : string) : bool :=
  match s with String b _ => bool_decide (b = c) | "" => false end.

Fixpoint ends_with (c : ascii) (s : string) : bool :=
  match s with "" => false | String b "" => bool_decide (b = c) | String _ s => ends_with c s end.

Lemma marker_at_head c s : marker_at (String c s) ≠ None → c = "<"%char ∧ starts_with "!" s = true.
Proof.
  unfold marker_at. simpl. destruct (decide _) as [<-|]; [|done]. destruct s as [|d s]; [done|]. simpl.
  destruct (decide _) as [<-|]; [|done]. done.
Qed.

(** A text before the marker that opens no comment is passed over. *)
Lemma find_marker_skip x s : str_contains x "<!" = false →
  (ends_with "<" x = false ∨ starts_with "!" s = false) →
  find_match marker_at (x +:+ s) = find_match marker_at s.
Proof.
  intros Hx Hs. induction x as [|c x IH]; [done|]. rewrite app_str_cons.
  cbn [str_contains] in Hx. apply orb_false_iff in Hx as [Hc Hx]. cbn [find_match].
  assert (marker_at (String c (x +:+ s)) = None) as ->.
  { apply dec_stable. intros [-> Hm]%marker_at_head. destruct x as [|d x].
    - rewrite app_str_nil_l in Hm. simpl in Hs. destruct Hs; [done|congruence].
    - rewrite app_str_cons in Hm. simpl in Hm. apply bool_decide_eq_true in Hm as ->.
      rewrite (proj2 (has_prefix_spec _ _)) in Hc; [done|]. by exists x. }
  apply IH; [done|]. destruct Hs as [Hs|?]; [left|by right]. by destruct x.
Qed.

Lemma hex_no_comment h : all_bytes hex_byte h = true → str_contains h "<!" = false.
Proof.
  induction h as [|c h IH]; [done|]. cbn [all_bytes str_contains]. intros [Hc Hh]%andb_true_iff.
  rewrite IH by done. apply orb_false_iff. split; [|done].
  destruct (has_prefix _ _) eqn:Hp; [|done]. apply has_prefix_spec in Hp as [r Hp].
  injection Hp as -> _. done.
Qed.

Lemma lower_hex h : all_bytes hex_byte h = true → lower_ascii h = h.
Proof.
  induction h as [|c h IH]; [done|]. simpl. intros [Hc Hh]%andb_true_iff. rewrite IH by done.
  f_equal. unfold lower_byte. destruct (is_upper c) eqn:Hu; [|done].
  exfalso. unfold hex_byte, is_digit, is_upper in *. apply orb_true_iff in Hc as [Hc|Hc]; to_prop; lia.
Qed.

Lemma refusalNoticeStanding_here comments c h head :
  c ∈ comments → refusalNoticeMarker (ic_Body c) = Some h → ShaPrefixMatch head h = true →
  refusalNoticeStanding comments head = true.
Proof.
  intros Hin Hm Hp. induction comments as [|d comments IH]; [by apply elem_of_nil in Hin|]. simpl.
  apply elem_of_cons in Hin as [<-|Hin].
  - by rewrite Hm, Hp.
  - specialize (IH Hin). destruct (refusalNoticeMarker (ic_Body d)); [by case_match|]. by case_match.
Qed.

Lemma notice_marker r :
  is_sha (rf_HeadSHA r) → str_contains (rf_Reason r) "<!" = false →
  str_contains (rf_VerdictURL r) "<!" = false →
  refusalNoticeMarker (notice_body r) = Some (rf_HeadSHA r).
Proof.
  intros Hs Hr Hu. unfold refusalNoticeMarker, notice_body.
  set (m := " <!-- " +:+ refusalNoticeMarkerName +:+ " @ " +:+ rf_HeadSHA r +:+ " -->").
  assert (find_match marker_at m = Some (rf_HeadSHA r)) as Hm.
  { assert (∀ t, marker_at t = Some (rf_HeadSHA r) → find_match marker_at (String " " t) = Some (rf_HeadSHA r)) as Hsp.
    { intros [|c t] Ht; [done|]. change (find_match marker_at (String c t) = Some (rf_HeadSHA r)).
      cbn [find_match]. by rewrite Ht. }
    apply Hsp, marker_at_spec. split; [|done]. exists "". reflexivity. }
  rewrite <- Hm. destruct Hs as [Hx Hl].
  rewrite (find_marker_skip "Review gate (#567): this head (`") by (by try left).
  rewrite find_marker_skip; [|by apply hex_no_comment|by right].
  rewrite (find_marker_skip "`) was already reviewed — no new review runs at the same SHA.") by (by try left).
  assert (∀ s, starts_with "!" s = false →
    find_match marker_at (notice_link (rf_VerdictURL r) +:+ s) = find_match marker_at s) as Hlink.
  { intros s Hs. unfold notice_link. case_decide; [done|]. rewrite app_str_assoc.
    rewrite (find_marker_skip " The verdict: ") by (by try left). apply find_marker_skip; [done|by right]. }
  rewrite Hlink by done. rewrite (find_marker_skip " ") by (by try left). apply find_marker_skip; [done|by right].
Qed.

(** A refusal notice is posted once. For a refusal of a real head whose
    reason and link open no HTML comment, the posted body carries the marker of exactly
    that head; so after a post that did not fail, on a host that keeps posted
    comments, every later notification of the same head, its memo lost, finds
    the notice and posts nothing. *)
Theorem notice_posted_once {W} `{ReviewAPI W} (r r2 : ReviewRefusal) (w : W) comments truncated w1 :
  is_sha (rf_HeadSHA r) → str_contains (rf_Reason r) "<!" = false →
  str_contains (rf_VerdictURL r) "<!" = false →
  (rf_Repo r2, rf_PR r2, rf_HeadSHA r2) = (rf_Repo r, rf_PR r, rf_HeadSHA r) →
  ListCommentsAll (rf_Repo r) (rf_PR r) w = (Ok (comments, truncated), w1) →
  notice_body r ∈ ic_Body <$> comments →
  rf_HostNotified r2 = false →
  notifyRefusalHost r2 w = (set_HostNotified true r2, w1).
Proof.
  intros Hs Hr Hu [= H1 H2 H3] Hl Hin Hn. unfold notifyRefusalHost. rewrite Hn, H1, H2, Hl.
  apply list_elem_of_fmap in Hin as (c&Hb&Hin).
  rewrite (refusalNoticeStanding_here comments c (rf_HeadSHA r)); [done|done| |].
  - rewrite <- Hb. by apply notice_marker.
  - rewrite H3. unfold ShaPrefixMatch. apply has_prefix_spec. exists "". by rewrite app_str_nil_r.
Qed.

Definition sample_refusal (notified : bool) : ReviewRefusal :=
  {| rf_Repo := "h/o/n"; rf_PR := 7; rf_HeadSHA := head_a; rf_Reason := standing_reason head_a "APPROVE";
     rf_At := Some 1; rf_VerdictURL := "https://forge/7#c1"; rf_Emitted := true; rf_HostNotified := notified |}.


Lemma notice_posted_once_witness :
  let r := sample_refusal false in
  let f := forge_with (pull_at "open" head_a ["needs-review"]) ["looks good"; notice_body r] [] [] in
  notifyRefusalHost r f = (set_HostNotified true r, f).
Proof.
  cbv zeta. set (r := sample_refusal false).
  apply (notice_posted_once r r _ (comment_of <$> ["looks good"; notice_body r]) false).
  - split; [reflexivity|vm_compute; split; discriminate].
  - vm_compute. reflexivity.
  - reflexivity.
  - reflexivity.
  - vm_compute. reflexivity.
  - apply elem_of_cons. right. by apply list_elem_of_singleton.
  - reflexivity.
Defined.

(** ** The authority to cancel *)

Section authority.
Context {W : Type} `{ReviewAPI W} (clock : W → Z).

(** A release cancels only what can no longer land. When the gate classifies
    the stand-down of an evaluation as a release that authorises deleting the
    review's Job, the evaluation was told that the pull request closed, or read
    it closed, or read it open at another head than the one the claim was armed
    at. No other stand-down does: neither a horizon, a consumed or standing
    verdict, a merged pull request, nor a dispatch presumed dead. *)
Theorem cancellation_authority (p : Params) (w : W) r w' :
  Evaluate clock p w = (r, w') → re_Decision r = DecisionStanddown →
  IsCancellationRelease (classifyRelease (re_Eval r)) = true →
  pa_DisarmHint p = true
  ∨ ∃ pr w1, GetPullRequest (pa_Repo p) (pa_PR p) w = (Ok pr, w1)
      ∧ (pl_State pr = "closed"
         ∨ (pl_State pr = "open" ∧ pa_ArmedSha p ≠ "" ∧ pa_ArmedSha p ≠ pl_HeadSHA pr)).
Proof.
  intros He Hd Hc. apply Evaluate_stands in He as [[? _]|(pr&w1&Hp&Hs)]; [by left| |done].
  right. exists pr, w1. split; [done|]. unfold classifyRelease in Hc.
  destruct Hs as [(_&?)|[(E&_)|(Ho&Hs)]]; [by left|by rewrite E in Hc|]. right. split; [done|].
  destruct Hs as [(_&?)|[(E&_)|[(E&_)|[(E&_)|(E&_)]]]]; [done|rewrite E in Hc; done..].
Qed.
End authority.

Lemma cancellation_authority_witness :
  let p := params_at (10 * Hour) (9 * Hour) head_a 0 in
  let f := forge_with (pull_at "open" head_b ["needs-review"]) [] [] [] in
  pa_DisarmHint p = true
  ∨ ∃ pr w1, GetPullRequest (pa_Repo p) (pa_PR p) f = (Ok pr, w1)
      ∧ (pl_State pr = "closed"
         ∨ (pl_State pr = "open" ∧ pa_ArmedSha p ≠ "" ∧ pa_ArmedSha p ≠ pl_HeadSHA pr)).
Proof.
  cbv zeta. set (p := params_at _ _ _ _). set (f := forge_with _ _ _ _).
  apply (cancellation_authority (λ _, 1) p f (Evaluate (λ _, 1) p f).1 (Evaluate (λ _, 1) p f).2).
  - apply surjective_pairing.
  - vm_compute. reflexivity.
  - vm_compute. reflexivity.
Defined.
