(* ===== verification/Jobs.v ===== *)
(** * Attempt Jobs ([internal/k8s/job.go])

    The Job as far as the source builds and reads it, the client's operations on
    Jobs, the views the gate and the dispatcher take of a workflow's Jobs, and
    the construction of a Job. *)

From S2P Require Import Prelude GoStrings GoPath Sha256 GoTime Api Profile Extensions Lineage ReviewReady Kube AttemptStore.

(** ** Data *)

Record EnvVar := { ex_Name : string; ex_Value : string; ex_FieldPath : string }.

Inductive VolumeSource : Type :=
| EmptyDir
| ClaimVolume (claimName : string)
| ConfigMapVolume (name : string) (defaultMode : Z)
| SecretVolume (secretName : string).

Record Volume := { vo_Name : string; vo_Source : VolumeSource }.

Record VolumeMount := {
  vm_Name : string;
  vm_MountPath : string;
  vm_SubPath : string;
  vm_ReadOnly : bool;
}.

Record Container := {
  ct_Name : string;
  ct_Image : string;
  ct_Command : list string;
  ct_Env : list EnvVar;
  ct_VolumeMounts : list VolumeMount;
}.

Record JobSpec := {
  jp_BackoffLimit : Z;
  jp_ActiveDeadlineSeconds : Z;
  jp_TTLSecondsAfterFinished : option Z;
  jp_ServiceAccountName : string;
  jp_RestartPolicy : string;
  jp_InitContainers : list Container;
  jp_Containers : list Container;
  jp_Volumes : list Volume;
}.

Record OwnerReference := { ow_Kind : string; ow_Name : string; ow_UID : string }.

Record JobCondition := { jn_Type : string; jn_Status : string }.

Record Job := {
  jb_Name : string;
  jb_GenerateName : string;
  jb_Namespace : string;
  jb_Labels : gmap string string;
  jb_Annotations : gmap string string;
  jb_Controller : option OwnerReference;
  jb_DeletionTimestamp : option Z;
  jb_CompletionTime : option Z;
  jb_Conditions : list JobCondition;
  jb_Spec : option JobSpec;
}.

Definition zero_job : Job :=
  {| jb_Name := ""; jb_GenerateName := ""; jb_Namespace := ""; jb_Labels := ∅; jb_Annotations := ∅;
     jb_Controller := None; jb_DeletionTimestamp := None; jb_CompletionTime := None;
     jb_Conditions := []; jb_Spec := None |}.

(** ** The client *)

Class JobClient (W : Type) := {
  jc_list : string → Selector → W → result KErr (list Job) * W;
  (** The answer carries the name the server gave. *)
  jc_create : Job → W → result KErr string * W;
  jc_delete : Key → W → result KErr unit * W;
}.

(** ** Facts *)

Definition JobFailed : string := "Failed".
Definition ConditionTrue : string := "True".

Definition IsJobFailed (j : Job) : bool :=
  existsb (λ c, bool_decide (jn_Type c = JobFailed) && bool_decide (jn_Status c = ConditionTrue))
    (jb_Conditions j).

(** Neither deleted, completed nor failed. *)
Definition job_live (j : Job) : bool :=
  bool_decide (jb_DeletionTimestamp j = None) && bool_decide (jb_CompletionTime j = None)
  && negb (IsJobFailed j).

Definition of_attempt (attemptName : string) (j : Job) : bool :=
  bool_decide (default "" (jb_Labels j !! AttemptLabel) = attemptName).

(** The fact of a claim without a live Job. *)
Definition jobDeath (jobs : list Job) (attemptName : string) : string :=
  let mine := filter (λ j, of_attempt attemptName j = true) jobs in
  if existsb (λ j, bool_decide (is_Some (jb_CompletionTime j)) && negb (IsJobFailed j)) mine
  then "completed"
  else if existsb IsJobFailed mine then "failed"
  else "vanished".

Definition jobAlive (jobs : list Job) (attemptName : string) : bool :=
  existsb (λ j, of_attempt attemptName j && job_live j) jobs.

Section jobs.
Context {W : Type} `{JobClient W}.

Definition ListAttemptJobs (namespace workflow : string) : M W KErr (list Job) :=
  jc_list namespace (λ ls, has_label "app.kubernetes.io/name" "harmostes" ls
                           && has_label "harmostes.dev/workflow" workflow ls).

Definition ListActiveJobs (namespace workflow : string) : M W KErr (list Job) := λ w,
  match ListAttemptJobs namespace workflow w with
  | (Err e, w) => (Err e, w)
  | (Ok all, w) => (Ok (filter (λ j, job_live j = true) all), w)
  end.

(** Foreground propagation is the server's business. *)
Definition DeleteJob (namespace name : string) : M W KErr unit := jc_delete (namespace, name).
End jobs.

(** ** Building attempt Jobs ([BuildJob] of [internal/k8s/job.go])

    The Job of an attempt from its parameters: containers, environment, volumes
    and mounts. [getenv] is the process environment, [now] the instant of the
    build; [None] is the panic on a manifest that does not render. The pod
    template's labels and annotations are the Job's own. *)

(** ** Parameters *)

Definition AttachmentScopeWorkflow : string := "workflow".
Definition AttachmentScopeRepository : string := "repository".
Definition AttachmentScopeAttempt : string := "attempt".

Record ConfigMapMount := { cmm_Name : string; cmm_MountPath : string; cmm_Mode : option Z }.

Record AttemptJobParams := {
  jm_Attempt : Attempt;
  jm_WorkflowName : string;
  jm_Namespace : string;
  jm_Image : string;
  jm_ServiceAccount : string;
  jm_RunBound : Z;
  jm_TTLSecondsAfterFinished : option Z;
  jm_PluginConfigMaps : list string;
  jm_ExtraConfigMapMounts : list ConfigMapMount;
  jm_DaprdImage : string;
  jm_ExtraEnv : list string;
  jm_Cache : option CacheSpec;
  jm_Sessions : option SessionsSpec;
  jm_Attachments : list SharedAttachment;
  jm_TriggerRepo : string;
  jm_AttemptName : string;
  jm_Extensions : list ExtensionPin;
  jm_Harness : option HarnessRef;
  jm_AggregatePlugins : bool;
  jm_PluginLabelValue : string;
  jm_PluginRefs : list string;
}.

(** ** The served skills *)

Definition DefaultSkillsRepo : string := "https://github.com/tibrezus/agents.git".
Definition SkillsTokenMountPath : string := "/var/run/secrets/harmostes-skills".
Definition SkillsTokenKey : string := "token".
Definition quote_mark : string := String (ascii_of_nat 34) "".

Section build.
Context (getenv : string → string).

Definition SkillsRepo : string :=
  if decide (getenv "HARMOSTES_SKILLS_REPO" = "") then DefaultSkillsRepo else getenv "HARMOSTES_SKILLS_REPO".
Definition SkillsRev : string := getenv "HARMOSTES_SKILLS_REV".
Definition SkillsTokenSecret : string := getenv "HARMOSTES_SKILLS_TOKEN_SECRET".

Definition quoted (s : string) : string := quote_mark +:+ s +:+ quote_mark.

Definition skillsSyncCommand (tokenSecret : string) : list string :=
  let cloneArgs :=
    if decide (tokenSecret = "") then "--depth 1"
    else "-c 'credential.helper=!f() { echo username=x-access-token; echo "
         +:+ quoted ("password=$(cat " +:+ SkillsTokenMountPath +:+ "/" +:+ SkillsTokenKey +:+ ")")
         +:+ "; }; f' --depth 1" in
  ["sh"; "-c";
   "git clone " +:+ cloneArgs +:+ " " +:+ quoted "$HARMOSTES_SKILLS_REPO" +:+ " /tmp/agents && { [ -z "
   +:+ quoted "$HARMOSTES_SKILLS_REV" +:+ " ] || { git -C /tmp/agents fetch --depth 1 origin "
   +:+ quoted "$HARMOSTES_SKILLS_REV"
   +:+ " && git -C /tmp/agents checkout --detach FETCH_HEAD; }; } && mkdir -p /skills && cp -r /tmp/agents/skills/. /skills/ && { echo "
   +:+ quoted "[sync-skills] served skills revision: $(git -C /tmp/agents rev-parse HEAD)"
   +:+ "; (find /skills -name 'SKILL.md' | sort | xargs -r sha256sum > /skills/.manifest) || echo "
   +:+ quoted "[sync-skills] manifest write failed (non-fatal)" +:+ "; true; }"].

Definition mount (name path sub : string) (ro : bool) : VolumeMount :=
  {| vm_Name := name; vm_MountPath := path; vm_SubPath := sub; vm_ReadOnly := ro |}.
Definition env_var (name value : string) : EnvVar := {| ex_Name := name; ex_Value := value; ex_FieldPath := "" |}.
Definition volume (name : string) (src : VolumeSource) : Volume := {| vo_Name := name; vo_Source := src |}.

Definition skillsInit (p : AttemptJobParams) : list Container :=
  let tokenSecret := SkillsTokenSecret in
  [{| ct_Name := "sync-skills"; ct_Image := jm_Image p; ct_Command := skillsSyncCommand tokenSecret;
      ct_Env := [env_var "HARMOSTES_SKILLS_REPO" SkillsRepo; env_var "HARMOSTES_SKILLS_REV" SkillsRev];
      ct_VolumeMounts := mount "skills" "/skills" "" false
        :: (if decide (tokenSecret = "") then [] else [mount "skills-token" SkillsTokenMountPath "" true]) |}].

Definition skillsTokenVolumes : list Volume :=
  if decide (SkillsTokenSecret = "") then [] else [volume "skills-token" (SecretVolume SkillsTokenSecret)].

(** ** Attachments *)

Definition AttachmentSubPath (scope workflow repo attempt : string) : option string :=
  if decide (scope = AttachmentScopeRepository) then
    if decide (repo = "") then None
    else Some (SanitizeRepo repo +:+ "-" +:+ EncodeToString (take 4 (Sum256 repo)))
  else if decide (scope = AttachmentScopeAttempt) then
    if decide (attempt = "") then None else Some ("attempt-" +:+ attempt)
  else if decide (workflow = "") then None else Some workflow.

Definition pluginsMountPrefix : string := "/plugins".
Definition ReservedAttemptMountPaths : list string :=
  ["/workspace"; "/skills"; "/cache"; "/sessions"; "/runtime"; pluginsMountPrefix].

Definition runBoundSeconds (p : AttemptJobParams) : Z :=
  if 0 <? jm_RunBound p then jm_RunBound p else OneShotRunBound.

(** ** The parts of the run container: each adds environment, volumes and
    mounts. *)

Record Parts := { pt_Env : list EnvVar; pt_Volumes : list Volume; pt_Mounts : list VolumeMount }.

Definition no_parts : Parts := {| pt_Env := []; pt_Volumes := []; pt_Mounts := [] |}.
Definition join_parts (a b : Parts) : Parts :=
  {| pt_Env := pt_Env a ++ pt_Env b; pt_Volumes := pt_Volumes a ++ pt_Volumes b;
     pt_Mounts := pt_Mounts a ++ pt_Mounts b |}.
Definition all_parts {A} (f : A → Parts) (l : list A) : Parts :=
  {| pt_Env := l ≫= λ x, pt_Env (f x); pt_Volumes := l ≫= λ x, pt_Volumes (f x);
     pt_Mounts := l ≫= λ x, pt_Mounts (f x) |}.

Definition cut_var (kv : string) : list EnvVar :=
  match cut_first "="%char kv with Some (k, v) => [env_var k v] | None => [] end.

Definition base_parts (p : AttemptJobParams) (now : Z) : Parts :=
  {| pt_Env :=
       [env_var "HARMOSTES_WORKFLOW" (jm_WorkflowName p);
        env_var "HARMOSTES_NAMESPACE" (jm_Namespace p);
        {| ex_Name := "POD_NAME"; ex_Value := ""; ex_FieldPath := "metadata.name" |};
        env_var "HARMOSTES_DAPR_REQUIRED" "true";
        env_var "HARMOSTES_WALL_SECONDS" (pretty (runBoundSeconds p / Second));
        env_var "HARMOSTES_RUN_STARTED_MS" (pretty (now / Millisecond))]
       ++ (jm_ExtraEnv p ≫= cut_var);
     pt_Volumes := [volume "workspace" EmptyDir; volume "skills" EmptyDir];
     pt_Mounts := [mount "workspace" "/workspace" "" false; mount "skills" "/skills" "" false] |}.

Definition cache_parts (p : AttemptJobParams) : Parts :=
  match jm_Cache p with
  | Some c =>
      if decide (ca_PVC c = "") then no_parts
      else {| pt_Env := (if ca_Go c then [env_var "GOCACHE" "/cache/go/build"; env_var "GOMODCACHE" "/cache/go/mod"] else [])
                        ++ (if ca_NPM c then [env_var "npm_config_cache" "/cache/npm"] else [])
                        ++ (if ca_Git c then [env_var "XDG_CACHE_HOME" "/cache/xdg"] else []);
              pt_Volumes := [volume "cache" (ClaimVolume (ca_PVC c))];
              pt_Mounts := [mount "cache" "/cache" (jm_WorkflowName p) false] |}
  | None => no_parts
  end.

Definition session_parts (p : AttemptJobParams) : Parts :=
  match jm_Sessions p with
  | Some s =>
      if decide (se_PVC s = "") then no_parts
      else {| pt_Env := [env_var "HARMOSTES_PI_SESSIONS" "/sessions";
                         env_var "HARMOSTES_SESSIONS_TTL" (if decide (se_TTL s = "") then "336h" else se_TTL s)];
              pt_Volumes := [volume "sessions" (ClaimVolume (se_PVC s))];
              pt_Mounts := [mount "sessions" "/sessions" (jm_WorkflowName p) false] |}
  | None => no_parts
  end.

Definition attachment_path (at_ : SharedAttachment) : string :=
  if decide (sa_MountPath at_ = "") then "/attachments/" +:+ sa_Name at_ else sa_MountPath at_.

Definition attachment_parts (p : AttemptJobParams) (at_ : SharedAttachment) : Parts :=
  if decide (sa_PVC at_ = "" ∨ sa_Name at_ = "") then no_parts
  else match AttachmentSubPath (sa_Scope at_) (jm_WorkflowName p) (jm_TriggerRepo p) (jm_AttemptName p) with
  | None => no_parts
  | Some sub =>
      let volName := "attach-" +:+ sa_Name at_ in
      {| pt_Env := if decide (sa_Name at_ = "sol-pi" ∧ sa_Scope at_ = AttachmentScopeRepository)
                   then [env_var "HARMOSTES_SOL_PI_STORE" (attachment_path at_)] else [];
         pt_Volumes := [volume volName (ClaimVolume (sa_PVC at_))];
         pt_Mounts := [mount volName (attachment_path at_) sub false] |}
  end.

Definition extra_parts (m : ConfigMapMount) : Parts :=
  let vol := "extra-cm-" +:+ cmm_Name m in
  {| pt_Env := [];
     pt_Volumes := [volume vol (ConfigMapVolume (cmm_Name m) (default 493 (cmm_Mode m)))];
     pt_Mounts := [mount vol (cmm_MountPath m) "" true] |}.

Definition plugin_parts (cm : string) : Parts :=
  let vol := "plugin-cm-" +:+ cm in
  {| pt_Env := [];
     pt_Volumes := [volume vol (ConfigMapVolume cm 493)];
     pt_Mounts := [mount vol (pluginsMountPrefix +:+ "/" +:+ cm) "" true] |}.

Definition wantRuntimeMount (p : AttemptJobParams) : bool :=
  negb (bool_decide (jm_Extensions p = [])) || bool_decide (is_Some (jm_Harness p)).
Definition wantPlugins (p : AttemptJobParams) : bool :=
  jm_AggregatePlugins p || negb (bool_decide (jm_PluginRefs p = [])).

Definition runtime_parts (p : AttemptJobParams) : Parts :=
  if wantRuntimeMount p
  then {| pt_Env := []; pt_Volumes := [volume "runtime" EmptyDir]; pt_Mounts := [mount "runtime" "/runtime" "" true] |}
  else no_parts.

Definition refs_env (p : AttemptJobParams) : list EnvVar :=
  match jm_PluginRefs p with [] => [] | refs => [env_var "HARMOSTES_PLUGIN_REFS" (join "," refs)] end.

Definition projected_parts (p : AttemptJobParams) : Parts :=
  {| pt_Env := refs_env p;
     pt_Volumes := if wantPlugins p then [volume "plugins" EmptyDir] else [];
     pt_Mounts := if wantPlugins p then [mount "plugins" pluginsMountPrefix "" true] else [] |}.

(** ** The Job *)

Context `{ManifestCodec}.

(** The environment both the init container and the run get; [None]: panic. *)
Definition manifest_env (p : AttemptJobParams) : option (list EnvVar) :=
  ext ← match jm_Extensions p with
        | [] => Some []
        | pins => match RenderExtensionManifest pins with
                  | Ok raw => Some [env_var "HARMOSTES_EXTENSION_MANIFEST" raw]
                  | Err _ => None
                  end
        end;
  har ← match jm_Harness p with
        | None => Some []
        | Some h => match RenderHarnessManifest h with
                    | Ok raw => Some [env_var "HARMOSTES_HARNESS_MANIFEST" raw]
                    | Err _ => None
                    end
        end;
  Some (ext ++ har).

Definition materializeInit (p : AttemptJobParams) (manifests : list EnvVar) : list Container :=
  if wantRuntimeMount p || wantPlugins p then
    [{| ct_Name := "materialize"; ct_Image := jm_Image p;
        ct_Command := ["/usr/local/bin/harmostes-worker"; "init-runtime"];
        ct_Env := [env_var "HARMOSTES_NAMESPACE" (jm_Namespace p)] ++ manifests
          ++ (if jm_AggregatePlugins p
              then [env_var "HARMOSTES_AGGREGATE_PLUGINS" "true";
                    env_var "HARMOSTES_PLUGIN_LABEL_VALUE" (jm_PluginLabelValue p)] else [])
          ++ refs_env p;
        ct_VolumeMounts := (if wantRuntimeMount p then [mount "runtime" "/runtime" "" false] else [])
          ++ (if wantPlugins p then [mount "plugins" pluginsMountPrefix "" false] else []) |}]
  else [].

Definition job_parts (p : AttemptJobParams) (now : Z) (manifests : list EnvVar) : Parts :=
  foldr join_parts no_parts
    [base_parts p now; cache_parts p; session_parts p; all_parts (attachment_parts p) (jm_Attachments p);
     all_parts extra_parts (jm_ExtraConfigMapMounts p); all_parts plugin_parts (jm_PluginConfigMaps p);
     {| pt_Env := manifests; pt_Volumes := []; pt_Mounts := [] |}; runtime_parts p; projected_parts p].

Definition job_labels (p : AttemptJobParams) : gmap string string :=
  {["app.kubernetes.io/name" := "harmostes"; "app.kubernetes.io/component" := "attempt-runner";
    "harmostes.dev/workflow" := jm_WorkflowName p; "harmostes.dev/attempt" := om_Name (at_Meta (jm_Attempt p))]}.

Definition job_annotations (p : AttemptJobParams) : gmap string string :=
  (if decide (jm_DaprdImage p = "") then id
   else λ m, <["dapr.io/env" := "OTEL_EXPORTER_OTLP_INSECURE=true"]>
               (<["dapr.io/sidecar-image" := jm_DaprdImage p]> m))
    {["dapr.io/enabled" := "true"; "dapr.io/app-id" := om_Name (at_Meta (jm_Attempt p));
      "dapr.io/config" := "harmostes-config"]}.

Definition BuildJob (p : AttemptJobParams) (now : Z) : option Job :=
  manifests ← manifest_env p;
  let parts := job_parts p now manifests in
  let attemptName := om_Name (at_Meta (jm_Attempt p)) in
  Some
    {| jb_Name := ""; jb_GenerateName := attemptName +:+ "-"; jb_Namespace := jm_Namespace p;
       jb_Labels := job_labels p; jb_Annotations := job_annotations p;
       jb_Controller := Some {| ow_Kind := "Attempt"; ow_Name := attemptName; ow_UID := om_UID (at_Meta (jm_Attempt p)) |};
       jb_DeletionTimestamp := None; jb_CompletionTime := None; jb_Conditions := [];
       jb_Spec := Some
         {| jp_BackoffLimit := 0;
            jp_ActiveDeadlineSeconds := runBoundSeconds p / Second;
            jp_TTLSecondsAfterFinished := jm_TTLSecondsAfterFinished p;
            jp_ServiceAccountName := jm_ServiceAccount p;
            jp_RestartPolicy := "Never";
            jp_InitContainers := materializeInit p manifests ++ skillsInit p;
            jp_Containers := [{| ct_Name := "run"; ct_Image := jm_Image p;
                                 ct_Command := ["/usr/local/bin/harmostes-worker"; "run"];
                                 ct_Env := pt_Env parts; ct_VolumeMounts := pt_Mounts parts |}];
            jp_Volumes := pt_Volumes parts ++ skillsTokenVolumes |} |}.
End build.
