(* ===== verification/DispatchConfig.v ===== *)
(** * The dispatcher's configuration and validation ([internal/worker/dispatch.go])

    The fleet's half of a Job's shape, parsed from the environment and validated;
    the declarations of a workflow validated at the merged spec; the environment
    a Job is given. [environ] is the process environment ([os.Environ]);
    Kubernetes' label validator is a parameter that answers its messages. An
    error is the value its text prints; log lines are left out. *)

From S2P Require Import Prelude GoStrings GoPath Sha256 GoTime Json Api ReviewReady Kube AttemptStore Profile Extensions Review Lineage Jobs.

(** ** Environment *)

(** [os.Getenv] of an environment as [os.Environ] lists it. *)
Fixpoint Getenv (environ : list string) (name : string) : string :=
  match environ with
  | [] => ""
  | kv :: environ =>
      match cut_first "="%char kv with
      | Some (k, v) => if decide (k = name) then v else Getenv environ name
      | None => Getenv environ name
      end
  end.

(** [strconv.ParseBool]. *)
Definition ParseBool (s : string) : option bool :=
  if decide (s ∈ ["1"; "t"; "T"; "true"; "TRUE"; "True"]) then Some true
  else if decide (s ∈ ["0"; "f"; "F"; "false"; "FALSE"; "False"]) then Some false else None.

(** [strconv.ParseInt(s, 8, 32)]: an optional sign, octal digits, within int32. *)
Fixpoint octal_val (acc : Z) (s : string) : option Z :=
  match s with
  | "" => Some acc
  | String c s => if (48 <=? byte_val c) && (byte_val c <=? 55) then octal_val (acc * 8 + (byte_val c - 48)) s
                  else None
  end.

Definition ParseOctal32 (s : string) : option Z :=
  let '(neg, ds) :=
    match s with
    | String "-" r => (true, r)
    | String "+" r => (false, r)
    | _ => (false, s)
    end in
  match ds with
  | "" => None
  | _ => match octal_val 0 ds with
         | Some n => let n := if (neg : bool) then - n else n in
                     if (-2147483648 <=? n) && (n <=? 2147483647) then Some n else None
         | None => None
         end
  end.

(** The conversion [int32(n)]. *)
Definition i32 (z : Z) : Z := (z + 2147483648) `mod` 4294967296 - 2147483648.

(** ** Errors *)

Inductive ConfigError : Type :=
| BadEnv (name value : string)
| MalformedMount (entry : string)
| BadMode (entry : string)
| ImageRequired
| EmptyPluginName
| InvalidMount (spec : string).

Inductive AttachmentError : Type :=
| ReservedWorkflow (workflow : string)
| DuplicateName (name : string)
| VolumeNotLabel (name volume : string) (msgs : list string)
| PVCRequired (name : string)
| PVCNotLabel (name pvc : string) (msgs : list string)
| MountNotAbsolute (name path : string)
| MountIsRoot (name path : string)
| MountCollides (name path : string)
| MountShadows (name path reserved : string).

(** ** The fleet's configuration *)

Record DispatchConfig := {
  dc_FleetMaxConcurrent : Z;
  dc_DisableCancelOnSupersede : bool;
  dc_JobImage : string;
  dc_ServiceAccount : string;
  dc_JobTTLSeconds : option Z;
  dc_DaprdImage : string;
  dc_PluginConfigMaps : list string;
  dc_ExtraConfigMapMounts : list ConfigMapMount;
  dc_AggregatePlugins : bool;
  dc_PluginLabelValue : string;
}.

Definition CancelOnSupersedeFromEnv (environ : list string) : result ConfigError bool :=
  let v := Getenv environ "HARMOSTES_CANCEL_ON_SUPERSEDE" in
  if decide (v = "") then Ok true
  else match ParseBool v with Some b => Ok b | None => Err (BadEnv "HARMOSTES_CANCEL_ON_SUPERSEDE" v) end.

Definition cancelOnSupersedeDisabledFromEnv (environ : list string) : result ConfigError bool :=
  match CancelOnSupersedeFromEnv environ with Ok on => Ok (negb on) | Err e => Err e end.

Definition pluginConfigMapsFromEnv (environ : list string) : list string :=
  let raw := Getenv environ "HARMOSTES_PLUGIN_CONFIGMAPS" in
  if decide (raw = "") then []
  else filter (λ name, name ≠ "") (TrimSpace <$> split_byte ","%char raw).

Definition parse_mount (pair : string) : result ConfigError ConfigMapMount :=
  match split_byte "="%char pair with
  | name :: path :: rest =>
      if decide (name = "" ∨ has_prefix path "/" = false) then Err (MalformedMount pair)
      else match rest with
      | [] => Ok {| cmm_Name := name; cmm_MountPath := path; cmm_Mode := None |}
      | mode :: _ =>
          match ParseOctal32 mode with
          | Some m => Ok {| cmm_Name := name; cmm_MountPath := path; cmm_Mode := Some m |}
          | None => Err (BadMode pair)
          end
      end
  | _ => Err (MalformedMount pair)
  end.

Fixpoint parse_mounts (pairs : list string) : result ConfigError (list ConfigMapMount) :=
  match pairs with
  | [] => Ok []
  | p :: pairs =>
      match parse_mount p with
      | Err e => Err e
      | Ok m => match parse_mounts pairs with Ok ms => Ok (m :: ms) | Err e => Err e end
      end
  end.

Definition extraConfigMapMountsFromEnv (environ : list string) : result ConfigError (list ConfigMapMount) :=
  let raw := Getenv environ "HARMOSTES_EXTRA_CONFIGMAP_MOUNTS" in
  if decide (raw = "") then Ok [] else parse_mounts (split_byte ","%char raw).

Definition bad_mount (m : ConfigMapMount) : bool :=
  bool_decide (cmm_Name m = "") || negb (has_prefix (cmm_MountPath m) "/").

Definition Validate (c : DispatchConfig) : option ConfigError :=
  if decide (dc_JobImage c = "") then Some ImageRequired
  else if existsb (λ cm, bool_decide (cm = "")) (dc_PluginConfigMaps c) then Some EmptyPluginName
  else match List.find bad_mount (dc_ExtraConfigMapMounts c) with
  | Some m => Some (InvalidMount (cmm_Name m +:+ "=" +:+ cmm_MountPath m))
  | None => None
  end.

(** A number of at least [low] in a variable that has a default. *)
Definition int_env (environ : list string) (name : string) (low dflt : Z) : result ConfigError Z :=
  let v := Getenv environ name in
  if decide (v = "") then Ok dflt
  else match Atoi v with
  | Some n => if n <? low then Err (BadEnv name v) else Ok n
  | None => Err (BadEnv name v)
  end.

Definition bool_env (environ : list string) (name : string) : result ConfigError bool :=
  let v := Getenv environ name in
  if decide (v = "") then Ok false
  else match ParseBool v with Some b => Ok b | None => Err (BadEnv name v) end.

Definition DispatchConfigFromEnv (environ : list string) : result ConfigError DispatchConfig :=
  match extraConfigMapMountsFromEnv environ with
  | Err e => Err e
  | Ok mounts =>
  match bool_env environ "HARMOSTES_AGGREGATE_PLUGINS" with
  | Err e => Err e
  | Ok aggregate =>
  match int_env environ "HARMOSTES_MAX_CONCURRENT" 1 3 with
  | Err e => Err e
  | Ok maxc =>
  match cancelOnSupersedeDisabledFromEnv environ with
  | Err e => Err e
  | Ok disable =>
  match int_env environ "HARMOSTES_JOB_TTL_SECONDS" 0 3600 with
  | Err e => Err e
  | Ok ttl =>
      let label := Getenv environ "HARMOSTES_PLUGIN_LABEL_VALUE" in
      let cfg :=
        {| dc_FleetMaxConcurrent := maxc; dc_DisableCancelOnSupersede := disable;
           dc_JobImage := Getenv environ "HARMOSTES_WORKER_IMAGE";
           dc_ServiceAccount := Getenv environ "HARMOSTES_SERVICE_ACCOUNT";
           dc_JobTTLSeconds := Some (i32 ttl); dc_DaprdImage := Getenv environ "HARMOSTES_DAPRD_IMAGE";
           dc_PluginConfigMaps := pluginConfigMapsFromEnv environ; dc_ExtraConfigMapMounts := mounts;
           dc_AggregatePlugins := aggregate;
           dc_PluginLabelValue := if decide (label = "") then "true" else label |} in
      match Validate cfg with Some e => Err e | None => Ok cfg end
  end end end end end.

Definition JobParams (c : DispatchConfig) (at_ : Attempt) (workflow namespace : string) (runBound : Z)
    (cache : option CacheSpec) (sessions : option SessionsSpec) (attachments : list SharedAttachment)
    (triggerRepo : string) (extraEnv : list string) (extensions : list ExtensionPin)
    (harness : option HarnessRef) (pluginRefs : list string) : AttemptJobParams :=
  {| jm_Attempt := at_; jm_WorkflowName := workflow; jm_Namespace := namespace; jm_Image := dc_JobImage c;
     jm_ServiceAccount := dc_ServiceAccount c; jm_RunBound := runBound;
     jm_TTLSecondsAfterFinished := dc_JobTTLSeconds c; jm_PluginConfigMaps := dc_PluginConfigMaps c;
     jm_ExtraConfigMapMounts := dc_ExtraConfigMapMounts c; jm_DaprdImage := dc_DaprdImage c;
     jm_ExtraEnv := extraEnv; jm_Cache := cache; jm_Sessions := sessions; jm_Attachments := attachments;
     jm_TriggerRepo := triggerRepo; jm_AttemptName := om_Name (at_Meta at_); jm_Extensions := extensions;
     jm_Harness := harness; jm_AggregatePlugins := dc_AggregatePlugins c;
     jm_PluginLabelValue := dc_PluginLabelValue c; jm_PluginRefs := pluginRefs |}.

(** ** Declarations of the merged spec *)

(** [json.Unmarshal] of the config into a map, as far as its key [repoWiki];
    [Some] is the type the error prints, by its JSON value. *)
Definition ValidateRepoWikiConfig (parse_json : string → option json) (cfg : string) : option json :=
  if decide (cfg = "") then None
  else match parse_json cfg with
  | Some (JObj fields) =>
      match foldl (λ acc kv, if decide (kv.1 = "repoWiki") then Some kv.2 else acc) None fields with
      | None | Some JNull | Some (JStr _) => None
      | Some v => Some v
      end
  | _ => None
  end.

Section attachments.
Context (IsDNS1123Label : string → list string).

Definition effective_path (at_ : SharedAttachment) : string := Clean (attachment_path at_).

Definition validate_attachment (seenNames seenPaths : gset string) (at_ : SharedAttachment)
    : option AttachmentError :=
  let name := sa_Name at_ in
  let vol := "attach-" +:+ name in
  if decide (name ∈ seenNames) then Some (DuplicateName name)
  else match IsDNS1123Label vol with
  | (_ :: _) as msgs => Some (VolumeNotLabel name vol msgs)
  | [] =>
  if decide (sa_PVC at_ = "") then Some (PVCRequired name)
  else match IsDNS1123Label (sa_PVC at_) with
  | (_ :: _) as msgs => Some (PVCNotLabel name (sa_PVC at_) msgs)
  | [] =>
  if decide (sa_MountPath at_ ≠ "" ∧ IsAbs (sa_MountPath at_) = false)
  then Some (MountNotAbsolute name (sa_MountPath at_))
  else
    let effective := effective_path at_ in
    if decide (effective = "/") then Some (MountIsRoot name (sa_MountPath at_))
    else if decide (effective ∈ seenPaths) then Some (MountCollides name effective)
    else MountShadows name effective <$> List.find (λ r, at_or_under r effective) ReservedAttemptMountPaths
  end end.

Fixpoint validate_attachments (seenNames seenPaths : gset string) (atts : list SharedAttachment)
    : option AttachmentError :=
  match atts with
  | [] => None
  | at_ :: atts =>
      match validate_attachment seenNames seenPaths at_ with
      | Some e => Some e
      | None => validate_attachments ({[sa_Name at_]} ∪ seenNames) ({[effective_path at_]} ∪ seenPaths) atts
      end
  end.

Definition ValidateAttachments (atts : list SharedAttachment) (workflow : string) : option AttachmentError :=
  if existsb (λ at_, bool_decide (sa_Scope at_ = AttachmentScopeRepository)) atts && IsReservedStoreName workflow
  then Some (ReservedWorkflow workflow)
  else validate_attachments ∅ ∅ atts.
End attachments.
