(* ===== verification/JobEnv.v ===== *)
(** * The environment of a Job ([internal/worker/dispatch.go])

    What crosses from the dispatcher's process to an attempt's Job: the
    allowlisted variables, the turn budget, the trigger. An iteration over a Go
    map is in the order a parameter chooses; the JSON text of an envelope is a
    parameter. *)

From S2P Require Import Prelude GoStrings GoTime Api Template Review Jobs.

(** [RunRequest] of [consumer.go]. *)
Record RunRequest := {
  rq_Workflow : string; rq_Namespace : string; rq_Source : string; rq_Attempt : string;
  rq_Traceparent : string; rq_Pr : string; rq_Action : string; rq_Revision : string; rq_PrTitle : string;
  rq_Repo : string;
}.

Definition jobEnvAllowlist : list string :=
  ["HARMOSTES_FORGEJO_TOKEN"; "HARMOSTES_AGENT_PROFILE"; "FORGEJO_TOKEN"; "GH_TOKEN"; "HARMOSTES_GIT_TOKEN";
   "HARMOSTES_CODEBERG_TOKEN"; "HARMOSTES_RZC_USERNAME"; "HARMOSTES_RZC_PASSWORD"; "LITELLM_API_KEY";
   "LITELLM_URL"; "LITELLM_FALLBACKS"; "HARMOSTES_REVIEW_POST_TOKEN"; "HARMOSTES_SOL_PI_STORE";
   "PI_TOOL_BUDGET"; "PI_TOOL_BUDGET_ALLOW"; "PI_TOOL_BUDGET_NUDGE"].

Definition spawnSafeEnv : list string :=
  ["LITELLM_URL"; "LITELLM_API_KEY"; "LITELLM_FALLBACKS"; "PI_TOOL_BUDGET"; "PI_TOOL_BUDGET_ALLOW";
   "PI_TOOL_BUDGET_NUDGE"; "HARMOSTES_SKILLS_REPO"; "HARMOSTES_SKILLS_REV"; "HARMOSTES_REVIEW_POST_TOKEN";
   "HARMOSTES_SOL_PI_STORE"; "FORGEJO_TOKEN"; "GH_TOKEN"; "HARMOSTES_FORGEJO_TOKEN"].

Definition SpawnSafeEnv (name : string) : bool := bool_decide (name ∈ spawnSafeEnv).
Definition EnvAllowlistNames : list string := jobEnvAllowlist.

(** ** The turn budget. A nil policy, workflow or attempt decides nothing. *)

Record budgetPolicy := { bp_workflow : option Workflow; bp_attempt : option Attempt }.

Definition budgetTrio : list string := ["PI_TOOL_BUDGET"; "PI_TOOL_BUDGET_ALLOW"; "PI_TOOL_BUDGET_NUDGE"].

Definition tool_budget (p : option budgetPolicy) : option Z :=
  match p with
  | Some p => match bp_workflow p with Some wf => ag_ToolBudget (wf_Agent (wk_Spec wf)) | None => None end
  | None => None
  end.

Definition isReviewAttempt (p : option budgetPolicy) : bool :=
  match p with
  | Some p => match bp_attempt p with
              | Some a => bool_decide (ob_Kind (as_Objective (at_Spec a)) = ObjectiveKindPRReview)
              | None => false
              end
  | None => false
  end.

Definition dropFromAllowlist (p : option budgetPolicy) (name : string) : bool :=
  bool_decide (tool_budget p = Some 0) && bool_decide (name ∈ budgetTrio).

Definition overrides (p : option budgetPolicy) : gmap string string :=
  match tool_budget p with
  | Some n => if decide (n = 0) then ∅
              else {["PI_TOOL_BUDGET" := pretty n; "PI_TOOL_BUDGET_NUDGE" := pretty (Z.quot n 2)]}
  | None => ∅
  end.

(** ** The forwarded environment *)

Section env.
Context (map_order : gmap string string → list (string * string)).

Definition post_tokens : list string := ["HARMOSTES_REVIEW_POST_TOKEN"; "HARMOSTES_REVIEW_POST_TOKEN_FJ"].

Definition wanted (p : option budgetPolicy) (name : string) : bool :=
  bool_decide (name ∈ jobEnvAllowlist) && negb (dropFromAllowlist p name)
  && (isReviewAttempt p || negb (bool_decide (name ∈ post_tokens))).

(** A variable with a name, wanted and not empty. *)
Definition forwarded (p : option budgetPolicy) (kv : string) : bool :=
  match cut_first "="%char kv with
  | Some ("", _) | None | Some (_, "") => false
  | Some (k, _) => wanted p k
  end.

Definition jobCredentialEnv (environ : list string) (p : option budgetPolicy) : list string :=
  filter (λ kv, forwarded p kv = true) environ
  ++ ((λ kv, kv.1 +:+ "=" +:+ kv.2) <$> map_order (overrides p))
  ++ (if isReviewAttempt p then ["PI_LOOP_BREAKER=1"] else []).

Context (marshal_envelope : Envelope → string).

Definition EnvelopeEnv (env : Envelope) : list string :=
  ["HARMOSTES_TRIGGER_REPO=" +:+ en_Repo env;
   "HARMOSTES_TRIGGER_PR=" +:+ pretty (en_PR env);
   "HARMOSTES_TRIGGER_SHA=" +:+ en_HeadSHA env;
   "HARMOSTES_TRIGGER_BASE=" +:+ en_Base env;
   "HARMOSTES_TRIGGER_LABEL=" +:+ en_Label env;
   "HARMOSTES_TRIGGER_CONTEXTS=" +:+ marshal_envelope env].

Definition set_var (name value : string) : list string :=
  if decide (value = "") then [] else [name +:+ "=" +:+ value].

Definition dispatchEnv (req : RunRequest) (at_ : Attempt) (env : option Envelope) : list string :=
  let name := om_Name (at_Meta at_) in
  ["HARMOSTES_ATTEMPT=" +:+ name; "HARMOSTES_DISPATCHED_ATTEMPT=" +:+ name]
  ++ set_var "HARMOSTES_SOURCE" (rq_Source req)
  ++ set_var "HARMOSTES_TRACEPARENT" (rq_Traceparent req)
  ++ match env with
     | Some env => EnvelopeEnv env
     | None =>
         set_var "HARMOSTES_TRIGGER_PR" (rq_Pr req)
         ++ set_var "HARMOSTES_TRIGGER_ACTION" (rq_Action req)
         ++ set_var "HARMOSTES_TRIGGER_REVISION" (rq_Revision req)
         ++ set_var "HARMOSTES_TRIGGER_TITLE" (rq_PrTitle req)
     end.
End env.

(** ** What a Job sees *)

Definition var_name (kv : string) : string := match cut_first "="%char kv with Some (k, _) => k | None => "" end.

(** The value of a variable: a later entry wins. *)
Definition value_of (name : string) (env : list string) : option string :=
  foldl (λ acc kv, match cut_first "="%char kv with
                   | Some (k, v) => if decide (k = name) then Some v else acc
                   | None => acc
                   end) None env.


Lemma value_of_app name l l' :
  value_of name (l ++ l') = match value_of name l' with Some v => Some v | None => value_of name l end.
Proof.
  unfold value_of. rewrite foldl_app. generalize (foldl (λ acc kv, match cut_first "=" kv with
    | Some (k, v) => if decide (k = name) then Some v else acc | None => acc end) None l). intros acc.
  revert acc. induction l' as [|kv l' IH] using rev_ind; intros acc; [done|].
  rewrite !foldl_app. cbn. destruct (cut_first _ kv) as [[k v]|]; [|apply IH].
  destruct (decide (k = name)); [done|apply IH].
Qed.

Lemma value_of_none name l : name ∉ var_name <$> l → value_of name l = None.
Proof.
  induction l as [|kv l IH] using rev_ind; [done|]. rewrite fmap_app. intros Hn.
  rewrite value_of_app, IH by set_solver. unfold value_of. cbn.
  destruct (cut_first _ kv) as [[k v]|] eqn:E; [|done]. rewrite decide_False; [done|].
  intros ->. apply Hn, elem_of_app. right. cbn. unfold var_name. rewrite E. set_solver.
Qed.

Lemma value_of_unique name v l :
  name +:+ "=" +:+ v ∈ l → contains_byte name "="%char = false →
  (∀ kv v', kv ∈ l → cut_first "="%char kv = Some (name, v') → v' = v) → value_of name l = Some v.
Proof.
  intros Hin Hn. induction l as [|kv l IH] using rev_ind; [by apply not_elem_of_nil in Hin|]. intros Hall.
  assert (cut_first "="%char (name +:+ String "=" v) = Some (name, v)) as E1 by by apply cut_first_spec.
  assert (cut_first "="%char kv ≠ Some (name, v) → value_of name l = Some v) as Hl.
  { intros Hne. apply IH; [|intros; eapply Hall; [apply elem_of_app; by left|done]].
    apply elem_of_app in Hin as [?|Hkv%list_elem_of_singleton]; [done|]. by rewrite <- Hkv in Hne. }
  rewrite value_of_app. unfold value_of at 1. cbn [foldl].
  destruct (cut_first "="%char kv) as [[k u]|] eqn:E; [|by apply Hl].
  destruct (decide (k = name)) as [->|Hk]; [f_equal; eapply Hall; [apply elem_of_app; right; by left|done]|].
  apply Hl. congruence.
Qed.

Section seen.
Context (map_order : gmap string string → list (string * string)).
Context (Horder : ∀ m, map_order m ≡ₚ map_to_list m).

Lemma overrides_names p kv :
  kv ∈ (λ kv, kv.1 +:+ "=" +:+ kv.2) <$> map_order (overrides p) →
  ∃ n, tool_budget p = Some n ∧ n ≠ 0
  ∧ (kv = "PI_TOOL_BUDGET=" +:+ pretty n ∨ kv = "PI_TOOL_BUDGET_NUDGE=" +:+ pretty (Z.quot n 2)).
Proof.
  intros ([k v] & -> & Hin)%list_elem_of_fmap. rewrite Horder in Hin. apply elem_of_map_to_list in Hin.
  unfold overrides in Hin. destruct (tool_budget p) as [n|]; [|done].
  destruct (decide (n = 0)); [done|]. exists n. split_and!; [done..|].
  apply lookup_insert_Some in Hin as [[<- <-]|[_ [<- <-]%lookup_singleton_Some]]; [by left|by right].
Qed.

(** What a Job is given of the dispatcher's environment: only allowlisted
    variables that are set and not empty, the budget the workflow declares and
    the review's loop breaker; a posting token reaches review attempts only;
    and an uncapped workflow sees no budget at all. *)
Theorem jobCredentialEnv_forwards environ p kv :
  kv ∈ jobCredentialEnv map_order environ p →
  (kv ∈ environ ∧ var_name kv ∈ jobEnvAllowlist ∧ (∃ v, v ≠ "" ∧ kv = var_name kv +:+ "=" +:+ v)
    ∧ (var_name kv ∈ post_tokens → isReviewAttempt p = true)
    ∧ (tool_budget p = Some 0 → var_name kv ∉ budgetTrio))
  ∨ (∃ n, tool_budget p = Some n ∧ n ≠ 0
     ∧ (kv = "PI_TOOL_BUDGET=" +:+ pretty n ∨ kv = "PI_TOOL_BUDGET_NUDGE=" +:+ pretty (Z.quot n 2)))
  ∨ (kv = "PI_LOOP_BREAKER=1" ∧ isReviewAttempt p = true).
Proof.
  unfold jobCredentialEnv. rewrite !elem_of_app. intros [Hf|[Ho|Hl]].
  - left. apply list_elem_of_filter in Hf as [Hf Hin]. unfold forwarded, var_name in *.
    destruct (cut_first _ kv) as [[[|c k] [|d v]]|] eqn:E; try done.
    apply cut_first_spec in E as [-> _]. unfold wanted in Hf.
    rewrite !andb_true_iff, orb_true_iff, !negb_true_iff, !bool_decide_eq_true in Hf.
    destruct Hf as [[Ha Hd] Hp]. split_and!; [done|done|by exists (String d v)| |].
    + intros Ht. destruct Hp as [?|Hp]; [done|]. by apply bool_decide_eq_false in Hp.
    + intros H0 Ht. unfold dropFromAllowlist in Hd. by rewrite !bool_decide_eq_true_2 in Hd.
  - right. left. by apply overrides_names.
  - right. right. destruct (isReviewAttempt p); set_solver.
Qed.

Definition trigger_names : list string :=
  ["HARMOSTES_ATTEMPT"; "HARMOSTES_DISPATCHED_ATTEMPT"; "HARMOSTES_SOURCE"; "HARMOSTES_TRACEPARENT";
   "HARMOSTES_TRIGGER_REPO"; "HARMOSTES_TRIGGER_PR"; "HARMOSTES_TRIGGER_SHA"; "HARMOSTES_TRIGGER_BASE";
   "HARMOSTES_TRIGGER_LABEL"; "HARMOSTES_TRIGGER_CONTEXTS"; "HARMOSTES_TRIGGER_ACTION";
   "HARMOSTES_TRIGGER_REVISION"; "HARMOSTES_TRIGGER_TITLE"].

Lemma dispatchEnv_names marshal req at_ env :
  Forall (λ kv, existsb (String.eqb (var_name kv)) trigger_names = true) (dispatchEnv marshal req at_ env).
Proof.
  unfold dispatchEnv, EnvelopeEnv, set_var. rewrite !Forall_app.
  split_and!; repeat case_match; rewrite ?Forall_app; repeat split; repeat case_match; by repeat constructor.
Qed.

Lemma dispatchEnv_silent marshal req at_ env name :
  existsb (String.eqb name) trigger_names = false → value_of name (dispatchEnv marshal req at_ env) = None.
Proof.
  intros Hn. apply value_of_none. intros (kv & -> & Hkv)%list_elem_of_fmap.
  pose proof (dispatchEnv_names marshal req at_ env) as H. rewrite Forall_forall in H.
  by rewrite (H kv Hkv) in Hn.
Qed.

Lemma loop_breaker_silent p name :
  name ≠ "PI_LOOP_BREAKER" → value_of name (if isReviewAttempt p then ["PI_LOOP_BREAKER=1"] else []) = None.
Proof. intros Hn. destruct (isReviewAttempt p); [|done]. apply value_of_none. by intros ?%list_elem_of_singleton. Qed.

Lemma value_of_overrides p n name v :
  tool_budget p = Some n → n ≠ 0 →
  (name, v) ∈ [("PI_TOOL_BUDGET", pretty n); ("PI_TOOL_BUDGET_NUDGE", pretty (Z.quot n 2))] →
  value_of name ((λ kv, kv.1 +:+ "=" +:+ kv.2) <$> map_order (overrides p)) = Some v.
Proof.
  intros Hb Hn Hin. apply value_of_unique.
  - apply list_elem_of_fmap. exists (name, v). split; [done|]. rewrite Horder. apply elem_of_map_to_list.
    unfold overrides. rewrite Hb, decide_False by done. apply lookup_insert_Some.
    apply elem_of_cons in Hin as [[= -> ->]|[= -> ->]%list_elem_of_singleton]; [by left|].
    right. split; [done|]. apply lookup_insert_eq.
  - by apply elem_of_cons in Hin as [[= -> ->]|[= -> ->]%list_elem_of_singleton].
  - intros kv v' (n' & Hn' & _ & Hkv)%overrides_names E. rewrite Hb in Hn'. injection Hn' as <-.
    apply elem_of_cons in Hin as [[= -> ->]|[= -> ->]%list_elem_of_singleton];
      destruct Hkv as [-> | ->]; cbv in E; first [by injection E|done].
Qed.

(** The budget a workflow declares is the one its Job sees, whatever the
    fleet's environment: an override wins over every forwarded value and brings
    its own nudge, and a budget of zero removes all three variables. *)
Theorem tool_budget_effective marshal environ p req at_ env n :
  tool_budget p = Some n →
  let seen name := value_of name (jobCredentialEnv map_order environ p ++ dispatchEnv marshal req at_ env) in
  if decide (n = 0) then Forall (λ name, seen name = None) budgetTrio
  else seen "PI_TOOL_BUDGET" = Some (pretty n) ∧ seen "PI_TOOL_BUDGET_NUDGE" = Some (pretty (Z.quot n 2)).
Proof.
  intros Hb seen.
  assert (∀ name, name ∈ budgetTrio → seen name = value_of name (jobCredentialEnv map_order environ p)) as Hs.
  { intros name Hn. unfold seen. rewrite value_of_app, dispatchEnv_silent; [done|]. revert name Hn.
    apply Forall_forall. by repeat constructor. }
  destruct (decide (n = 0)) as [->|Hn].
  - apply Forall_forall. intros name Hin. rewrite Hs by done. apply value_of_none.
    intros (kv & -> & Hkv)%list_elem_of_fmap.
    destruct (jobCredentialEnv_forwards environ p kv Hkv) as [(_ & _ & _ & _ & H)|[(n & Hn & H0 & _)|[-> _]]].
    + by apply H.
    + congruence.
    + revert Hin. apply (bool_decide_unpack _). vm_compute. exact I.
  - unfold jobCredentialEnv in Hs.
    rewrite !Hs by (unfold budgetTrio; set_solver).
    rewrite !value_of_app, !loop_breaker_silent by done.
    by rewrite (value_of_overrides p n "PI_TOOL_BUDGET" (pretty n)),
      (value_of_overrides p n "PI_TOOL_BUDGET_NUDGE" (pretty (Z.quot n 2))) by set_solver.
Qed.
End seen.

(** ** A workflow with a budget *)

Definition budgeted (n : option Z) : Workflow :=
  let s := plain_spec "" "" in
  let a := wf_Agent s in
  {| wk_Meta := plain_meta "docs";
     wk_Spec :=
       {| wf_Source := wf_Source s; wf_TemplateRef := wf_TemplateRef s; wf_Config := wf_Config s;
          wf_WorkspaceRepo := wf_WorkspaceRepo s; wf_Prepare := wf_Prepare s;
          wf_Agent :=
            {| ag_Enabled := ag_Enabled a; ag_Model := ag_Model a; ag_Models := ag_Models a; ag_Skill := ag_Skill a;
               ag_Tools := ag_Tools a; ag_Extensions := ag_Extensions a; ag_ExcludeTools := ag_ExcludeTools a;
               ag_NoMCP := ag_NoMCP a; ag_Thinking := ag_Thinking a; ag_ToolBudget := n;
               ag_TaskTemplate := ag_TaskTemplate a; ag_Gate := ag_Gate a; ag_MaxFixes := ag_MaxFixes a;
               ag_Timeout := ag_Timeout a; ag_Scope := ag_Scope a |};
          wf_Deploy := wf_Deploy s; wf_Graph := wf_Graph s; wf_ReviewReady := wf_ReviewReady s;
          wf_Bindings := wf_Bindings s; wf_Events := wf_Events s; wf_Cache := wf_Cache s;
          wf_Sessions := wf_Sessions s; wf_Attachments := wf_Attachments s;
          wf_PluginsConfigMapRef := wf_PluginsConfigMapRef s; wf_Scaling := wf_Scaling s;
          wf_Disabled := wf_Disabled s |} |}.

Definition pool_environ : list string :=
  ["PATH=/bin"; "GH_TOKEN="; "PI_TOOL_BUDGET=32"; "PI_TOOL_BUDGET_NUDGE=16"; "HARMOSTES_REVIEW_POST_TOKEN=s"].
Definition policy (n : option Z) : option budgetPolicy :=
  Some {| bp_workflow := Some (budgeted n); bp_attempt := None |}.
Definition plain_request : RunRequest :=
  {| rq_Workflow := "docs"; rq_Namespace := "ns"; rq_Source := ""; rq_Attempt := ""; rq_Traceparent := ""; rq_Pr := "";
     rq_Action := ""; rq_Revision := ""; rq_PrTitle := ""; rq_Repo := "" |}.
Definition plain_attempt : Attempt :=
  {| at_Meta := plain_meta "docs-1";
     at_Spec := {| as_Objective := {| ob_Kind := ""; ob_PrimarySubject := {| sj_Binding := ""; sj_Object := "" |};
                                      ob_RelatedSubjects := []; ob_DesiredOutcome := ""; ob_TargetedState := "" |};
                   as_WorkflowRef := ""; as_Bindings := []; as_Owner := "" |};
     at_Status := zero_status |}.

Lemma jobCredentialEnv_forwards_witness :
  jobCredentialEnv map_to_list pool_environ (policy None) = ["PI_TOOL_BUDGET=32"; "PI_TOOL_BUDGET_NUDGE=16"]
  ∧ "PI_TOOL_BUDGET" ∈ jobEnvAllowlist.
Proof.
  split; [vm_compute; reflexivity|].
  destruct (jobCredentialEnv_forwards map_to_list (λ m, reflexivity _) pool_environ (policy None) "PI_TOOL_BUDGET=32")
    as [(_ & H & _)|[(n & Hn & _)|[H _]]].
  - vm_compute. left.
  - exact H.
  - discriminate Hn.
  - discriminate H.
Defined.

Lemma tool_budget_effective_witness :
  value_of "PI_TOOL_BUDGET"
    (jobCredentialEnv map_to_list pool_environ (policy (Some 100)) ++ dispatchEnv (λ _, "") plain_request plain_attempt None)
  = Some "100".
Proof.
  apply (tool_budget_effective map_to_list (λ m, reflexivity _) (λ _, "") pool_environ (policy (Some 100))
    plain_request plain_attempt None 100). reflexivity.
Defined.
