(* ===== verification/JobProps.v ===== *)
(** * A built Job is well formed

    What Kubernetes requires of a pod's volumes and mounts, proved of every Job
    that [BuildJob] makes from validated attachments. *)

From S2P Require Import Prelude GoStrings GoPath Sha256 GoTime Json Api ReviewReady Kube AttemptStore Profile Extensions Review Lineage Jobs DispatchConfig.

(** ** What a pod must satisfy *)

Definition backed (volumes : list Volume) (c : Container) : Prop :=
  Forall (λ m, vm_Name m ∈ vo_Name <$> volumes) (ct_VolumeMounts c).

(** Volume names are distinct; in every container, mounts name volumes and
    mount paths are distinct. *)
Record pod_wf (j : JobSpec) : Prop := {
  wf_volumes : NoDup (vo_Name <$> jp_Volumes j);
  wf_backed : Forall (backed (jp_Volumes j)) (jp_InitContainers j ++ jp_Containers j);
  wf_paths : Forall (λ c, NoDup (vm_MountPath <$> ct_VolumeMounts c)) (jp_InitContainers j ++ jp_Containers j);
}.

(** The parts of the fleet's configuration nothing validates: distinct names,
    and paths that meet no other mount. *)
Record config_wf (p : AttemptJobParams) : Prop := {
  cw_extra_names : NoDup (cmm_Name <$> jm_ExtraConfigMapMounts p);
  cw_plugin_names : NoDup (jm_PluginConfigMaps p);
  cw_plugins_plain : Forall plain (jm_PluginConfigMaps p);
  cw_extra_paths : NoDup (cmm_MountPath <$> jm_ExtraConfigMapMounts p);
  cw_extra_free : Forall (λ m, cmm_MountPath m ∉ ReservedAttemptMountPaths
    ∧ cmm_MountPath m ∉ attachment_path <$> jm_Attachments p
    ∧ cmm_MountPath m ∉ (λ cm, pluginsMountPrefix +:+ "/" +:+ cm) <$> jm_PluginConfigMaps p)
    (jm_ExtraConfigMapMounts p);
}.

(** ** Validated attachments *)

Section validated.
Context (IsDNS1123Label : string → list string).

(** What the set of attachments satisfies once validated. *)
Definition free_path (at_ : SharedAttachment) : Prop :=
  IsAbs (attachment_path at_) = true
  ∧ ∀ r, r ∈ ReservedAttemptMountPaths → at_or_under r (effective_path at_) = false.

Lemma attachment_path_abs at_ :
  ¬ (sa_MountPath at_ ≠ "" ∧ IsAbs (sa_MountPath at_) = false) → IsAbs (attachment_path at_) = true.
Proof.
  intros H. unfold attachment_path. destruct (decide (sa_MountPath at_ = "")); [done|].
  destruct (IsAbs (sa_MountPath at_)) eqn:E; [done|]. by destruct H.
Qed.

Lemma validate_attachment_ok seenN seenP at_ :
  validate_attachment IsDNS1123Label seenN seenP at_ = None →
  sa_Name at_ ∉ seenN ∧ effective_path at_ ∉ seenP ∧ free_path at_.
Proof.
  unfold validate_attachment. destruct (decide (sa_Name at_ ∈ seenN)); [done|].
  destruct (IsDNS1123Label _); [|done]. destruct (decide (sa_PVC at_ = "")); [done|].
  destruct (IsDNS1123Label (sa_PVC at_)); [|done].
  destruct (decide (sa_MountPath at_ ≠ "" ∧ _)); [done|].
  destruct (decide (effective_path at_ = "/")); [done|].
  destruct (decide (effective_path at_ ∈ seenP)); [done|].
  destruct (List.find _ _) eqn:Hf; [done|]. intros _. split_and!; [done..|].
  split; [by apply attachment_path_abs|]. intros r Hr.
  apply (List.find_none _ _ Hf). by apply list_elem_of_In.
Qed.

Lemma validate_attachments_ok seenN seenP atts :
  validate_attachments IsDNS1123Label seenN seenP atts = None →
  NoDup (sa_Name <$> atts) ∧ NoDup (effective_path <$> atts) ∧ Forall free_path atts
  ∧ (∀ at_, at_ ∈ atts → sa_Name at_ ∉ seenN ∧ effective_path at_ ∉ seenP).
Proof.
  revert seenN seenP. induction atts as [|at_ atts IH]; intros seenN seenP; cbn.
  - intros _. split_and!; [constructor..|]. set_solver.
  - destruct (validate_attachment _ _ _ at_) eqn:E; [done|].
    apply validate_attachment_ok in E as (Hn & Hp & Hf).
    intros (Hns & Hps & Hfs & Hall)%IH. split_and!.
    + constructor; [|done]. intros (y & Hy & Hin)%list_elem_of_fmap. apply Hall in Hin. set_solver.
    + constructor; [|done]. intros (y & Hy & Hin)%list_elem_of_fmap. apply Hall in Hin. set_solver.
    + by constructor.
    + intros y [->|Hy]%elem_of_cons; [done|]. apply Hall in Hy. set_solver.
Qed.

Lemma ValidateAttachments_ok atts workflow :
  ValidateAttachments IsDNS1123Label atts workflow = None →
  NoDup (sa_Name <$> atts) ∧ NoDup (effective_path <$> atts) ∧ Forall free_path atts.
Proof.
  unfold ValidateAttachments. destruct (_ && _); [done|]. intros H%validate_attachments_ok. naive_solver.
Qed.
End validated.

(** ** Volumes *)

Definition names (ps : Parts) : list string := vo_Name <$> pt_Volumes ps.
Definition paths (ps : Parts) : list string := vm_MountPath <$> pt_Mounts ps.
Definition parts_backed (ps : Parts) : Prop := Forall (λ m, vm_Name m ∈ names ps) (pt_Mounts ps).

Lemma join_backed a b : parts_backed a → parts_backed b → parts_backed (join_parts a b).
Proof.
  unfold parts_backed, names, join_parts. cbn. rewrite fmap_app, Forall_app. intros Ha Hb.
  split; [eapply Forall_impl; [exact Ha|]|eapply Forall_impl; [exact Hb|]]; intros m Hm; set_solver.
Qed.

Lemma all_backed {A} (f : A → Parts) l : (∀ x, parts_backed (f x)) → parts_backed (all_parts f l).
Proof.
  intros Hf. unfold parts_backed, names, all_parts. cbn. apply Forall_bind, Forall_forall. intros x Hx.
  eapply Forall_impl; [apply Hf|]. intros m (v & Hv & Hin)%list_elem_of_fmap.
  apply list_elem_of_fmap. exists v. split; [done|]. apply list_elem_of_bind. by exists x.
Qed.

Lemma one_backed env name src path sub ro :
  parts_backed {| pt_Env := env; pt_Volumes := [volume name src]; pt_Mounts := [mount name path sub ro] |}.
Proof. apply Forall_singleton. by left. Qed.

Lemma no_backed : parts_backed no_parts.
Proof. constructor. Qed.

#[local] Hint Resolve join_backed all_backed one_backed no_backed : job.

Lemma job_parts_backed p now manifests : parts_backed (job_parts p now manifests).
Proof.
  unfold job_parts. cbn [foldr].
  repeat apply join_backed; [..|apply no_backed]; try apply all_backed.
  - unfold parts_backed. repeat constructor; set_solver.
  - unfold cache_parts. destruct (jm_Cache p); [|auto with job]. destruct (decide _); auto with job.
  - unfold session_parts. destruct (jm_Sessions p); [|auto with job]. destruct (decide _); auto with job.
  - intros x. unfold attachment_parts. destruct (decide _); [auto with job|].
    destruct (AttachmentSubPath _ _ _ _); auto with job.
  - intros x. apply one_backed.
  - intros x. apply one_backed.
  - unfold parts_backed. constructor.
  - unfold runtime_parts. destruct (wantRuntimeMount p); auto with job.
  - unfold projected_parts, parts_backed. destruct (wantPlugins p); repeat constructor.
Qed.

(** ** Distinctness *)

Section tagged.
Context {A : Type} (tag : A → Z).

(** Lists of distinct tags, each without duplicates, do not meet. *)
Lemma NoDup_tagged (ls : list (Z * list A)) :
  NoDup ls.*1 → Forall (λ p, NoDup p.2 ∧ Forall (λ x, tag x = p.1) p.2) ls → NoDup (ls ≫= snd).
Proof.
  intros Hd H. induction H as [|[i l] ls [Hl Ht] Hls IH]; [constructor|].
  cbn in *. apply NoDup_cons in Hd as [Hi Hd]. apply NoDup_app. split_and!; [done| |by apply IH].
  intros x Hx ([j l'] & Hx' & Hin)%list_elem_of_bind. cbn in Hx'.
  rewrite Forall_forall in Ht. rewrite Forall_forall in Hls. apply Ht in Hx. destruct (Hls _ Hin) as [_ Hj].
  rewrite Forall_forall in Hj. apply Hj in Hx'. cbn in Hx'. apply Hi, list_elem_of_fmap.
  exists (j, l'). cbn. split; [congruence|done].
Qed.
End tagged.

Lemma sublist_bind {A B} (f : A → B) (g : A → list B) l :
  (∀ x, g x = [] ∨ g x = [f x]) → (l ≫= g) `sublist_of` (f <$> l).
Proof.
  intros Hg. induction l as [|x l IH]; [done|]. cbn. destruct (Hg x) as [-> | ->]; cbn.
  - by apply sublist_cons.
  - by apply sublist_skip.
Qed.

Lemma fmap_bind_parts {A B C} (h : B → C) (f : A → list B) l : h <$> (l ≫= f) = l ≫= λ x, h <$> f x.
Proof. induction l as [|x l IH]; [done|]. cbn. by rewrite fmap_app, IH. Qed.

Lemma attachment_parts_shape p at_ :
  (names (attachment_parts p at_) = [] ∨ names (attachment_parts p at_) = ["attach-" +:+ sa_Name at_])
  ∧ (paths (attachment_parts p at_) = [] ∨ paths (attachment_parts p at_) = [attachment_path at_]).
Proof.
  unfold attachment_parts. destruct (decide _); [split; by left|].
  destruct (AttachmentSubPath _ _ _ _); split; auto.
Qed.

Definition name_tag (n : string) : Z :=
  if has_prefix n "attach-" then 1 else if has_prefix n "extra-cm-" then 2
  else if has_prefix n "plugin-cm-" then 3
  else match list_find (λ m, m = n) ["workspace"; "skills"; "cache"; "sessions"; "runtime"; "plugins"; "skills-token"] with
       | Some (i, _) => 10 + Z.of_nat i
       | None => 0
       end.

Lemma prefixed_NoDup pre l : NoDup l → NoDup ((λ n, pre +:+ n) <$> l).
Proof. apply NoDup_fmap_2. intros a b. apply app_str_inj. Qed.

Lemma tag_attach n : name_tag ("attach-" +:+ n) = 1.
Proof. unfold name_tag. by rewrite has_prefix_refl. Qed.
Lemma tag_extra n : name_tag ("extra-cm-" +:+ n) = 2.
Proof. unfold name_tag. by rewrite has_prefix_refl. Qed.
Lemma tag_plugin n : name_tag ("plugin-cm-" +:+ n) = 3.
Proof. unfold name_tag. by rewrite has_prefix_refl. Qed.

Definition cache_on (p : AttemptJobParams) : bool :=
  match jm_Cache p with Some c => negb (bool_decide (ca_PVC c = "")) | None => false end.
Definition sessions_on (p : AttemptJobParams) : bool :=
  match jm_Sessions p with Some s => negb (bool_decide (se_PVC s = "")) | None => false end.
Definition when_ {A} (b : bool) (l : list A) : list A := if b then l else [].

Definition job_names (getenv : string → string) (p : AttemptJobParams) : list (Z * list string) :=
  [(10, ["workspace"]); (11, ["skills"]); (12, when_ (cache_on p) ["cache"]);
   (13, when_ (sessions_on p) ["sessions"]);
   (1, jm_Attachments p ≫= λ a, names (attachment_parts p a));
   (2, (λ m, "extra-cm-" +:+ cmm_Name m) <$> jm_ExtraConfigMapMounts p);
   (3, (λ cm, "plugin-cm-" +:+ cm) <$> jm_PluginConfigMaps p);
   (14, when_ (wantRuntimeMount p) ["runtime"]); (15, when_ (wantPlugins p) ["plugins"]);
   (16, when_ (negb (bool_decide (SkillsTokenSecret getenv = ""))) ["skills-token"])].

Definition job_paths (p : AttemptJobParams) : list (Z * list string) :=
  [(10, ["/workspace"]); (11, ["/skills"]); (12, when_ (cache_on p) ["/cache"]);
   (13, when_ (sessions_on p) ["/sessions"]);
   (1, jm_Attachments p ≫= λ a, paths (attachment_parts p a));
   (2, cmm_MountPath <$> jm_ExtraConfigMapMounts p);
   (3, (λ cm, pluginsMountPrefix +:+ "/" +:+ cm) <$> jm_PluginConfigMaps p);
   (14, when_ (wantRuntimeMount p) ["/runtime"]); (15, when_ (wantPlugins p) [pluginsMountPrefix])].

Lemma bind_single {A B} (f : A → B) l : (l ≫= λ x, [f x]) = f <$> l.
Proof. induction l as [|x l IH]; [done|]. cbn. by rewrite IH. Qed.

Lemma cache_shape p :
  names (cache_parts p) = when_ (cache_on p) ["cache"] ∧ paths (cache_parts p) = when_ (cache_on p) ["/cache"].
Proof.
  unfold cache_parts, cache_on. destruct (jm_Cache p) as [c|]; [|done]. by destruct (decide (ca_PVC c = "")) as [->|];
    [|rewrite bool_decide_eq_false_2].
Qed.

Lemma session_shape p :
  names (session_parts p) = when_ (sessions_on p) ["sessions"]
  ∧ paths (session_parts p) = when_ (sessions_on p) ["/sessions"].
Proof.
  unfold session_parts, sessions_on. destruct (jm_Sessions p) as [c|]; [|done].
  by destruct (decide (se_PVC c = "")) as [->|]; [|rewrite bool_decide_eq_false_2].
Qed.

Lemma names_join a b : names (join_parts a b) = names a ++ names b.
Proof. unfold names. cbn. by rewrite fmap_app. Qed.
Lemma paths_join a b : paths (join_parts a b) = paths a ++ paths b.
Proof. unfold paths. cbn. by rewrite fmap_app. Qed.
Lemma names_all {A} (f : A → Parts) l : names (all_parts f l) = l ≫= λ x, names (f x).
Proof. unfold names. cbn. by rewrite fmap_bind_parts. Qed.
Lemma paths_all {A} (f : A → Parts) l : paths (all_parts f l) = l ≫= λ x, paths (f x).
Proof. unfold paths. cbn. by rewrite fmap_bind_parts. Qed.

Lemma runtime_shape p :
  names (runtime_parts p) = when_ (wantRuntimeMount p) ["runtime"]
  ∧ paths (runtime_parts p) = when_ (wantRuntimeMount p) ["/runtime"].
Proof. unfold runtime_parts. by destruct (wantRuntimeMount p). Qed.
Lemma projected_shape p :
  names (projected_parts p) = when_ (wantPlugins p) ["plugins"]
  ∧ paths (projected_parts p) = when_ (wantPlugins p) [pluginsMountPrefix].
Proof. unfold projected_parts, names, paths. cbn. by destruct (wantPlugins p). Qed.

Lemma names_eq getenv p now manifests :
  vo_Name <$> pt_Volumes (job_parts p now manifests) ++ skillsTokenVolumes getenv = job_names getenv p ≫= snd.
Proof.
  rewrite fmap_app. change (vo_Name <$> pt_Volumes (job_parts p now manifests)) with (names (job_parts p now manifests)).
  unfold job_parts. cbn [foldr]. rewrite !names_join, !names_all.
  rewrite (proj1 (cache_shape p)), (proj1 (session_shape p)), (proj1 (runtime_shape p)), (proj1 (projected_shape p)).
  assert (vo_Name <$> skillsTokenVolumes getenv
          = when_ (negb (bool_decide (SkillsTokenSecret getenv = ""))) ["skills-token"]) as ->.
  { unfold skillsTokenVolumes. destruct (decide (SkillsTokenSecret getenv = "")) as [->|];
      [done|by rewrite bool_decide_eq_false_2]. }
  unfold job_names. cbn [mbind list_bind snd].
  change (λ x, names (extra_parts x)) with (λ x, ["extra-cm-" +:+ cmm_Name x]).
  change (λ x, names (plugin_parts x)) with (λ x, ["plugin-cm-" +:+ x]).
  rewrite !(bind_single (λ x, "extra-cm-" +:+ cmm_Name x)), !(bind_single (λ x, "plugin-cm-" +:+ x)).
  change (names (base_parts p now)) with (["workspace"] ++ ["skills"]).
  change (names {| pt_Env := manifests; pt_Volumes := []; pt_Mounts := [] |}) with (@nil string).
  change (names no_parts) with (@nil string). by rewrite app_nil_r, app_nil_l, app_nil_r, <- !app_assoc.
Qed.

Lemma paths_eq p now manifests :
  vm_MountPath <$> pt_Mounts (job_parts p now manifests) = job_paths p ≫= snd.
Proof.
  change (vm_MountPath <$> pt_Mounts (job_parts p now manifests)) with (paths (job_parts p now manifests)).
  unfold job_parts. cbn [foldr]. rewrite !paths_join, !paths_all.
  rewrite (proj2 (cache_shape p)), (proj2 (session_shape p)), (proj2 (runtime_shape p)), (proj2 (projected_shape p)).
  unfold job_paths. cbn [mbind list_bind snd].
  change (λ x, paths (extra_parts x)) with (λ x, [cmm_MountPath x]).
  change (λ x, paths (plugin_parts x)) with (λ x, [pluginsMountPrefix +:+ "/" +:+ x]).
  rewrite !(bind_single cmm_MountPath), !(bind_single (λ x, pluginsMountPrefix +:+ "/" +:+ x)).
  change (paths (base_parts p now)) with (["/workspace"] ++ ["/skills"]).
  change (paths {| pt_Env := manifests; pt_Volumes := []; pt_Mounts := [] |}) with (@nil string).
  change (paths no_parts) with (@nil string). by rewrite app_nil_l, <- !app_assoc.
Qed.

Lemma when_NoDup {A} (b : bool) (x : A) : NoDup (when_ b [x]).
Proof. destruct b; [apply NoDup_singleton|constructor]. Qed.
Lemma when_tag {A} (tag : A → Z) (b : bool) (x : A) i : tag x = i → Forall (λ x, tag x = i) (when_ b [x]).
Proof. intros H. destruct b; [by apply Forall_singleton|constructor]. Qed.

Lemma volumes_distinct getenv p :
  NoDup (sa_Name <$> jm_Attachments p) → config_wf p → NoDup (job_names getenv p ≫= snd).
Proof.
  intros Ha Hc. apply (NoDup_tagged name_tag); [apply (bool_decide_unpack _); vm_compute; exact I|].
  unfold job_names. repeat (apply Forall_cons; split); [..|apply Forall_nil; done]; cbn [fst snd];
    try (split; [apply (when_NoDup true)|by apply (when_tag _ true)]);
    try (split; [apply when_NoDup|by apply when_tag]).
  - split.
    + eapply sublist_NoDup; [by apply (prefixed_NoDup "attach-"), Ha|]. rewrite <- list_fmap_compose.
      apply (sublist_bind (λ a, "attach-" +:+ sa_Name a)). intros x. apply attachment_parts_shape.
    + apply Forall_bind, Forall_true. intros x. unfold compose. destruct (proj1 (attachment_parts_shape p x)) as [-> | ->]; [constructor|].
      apply Forall_singleton, tag_attach.
  - split; [|apply Forall_fmap, Forall_true; intros x; apply tag_extra].
    rewrite (list_fmap_compose cmm_Name (λ n, "extra-cm-" +:+ n)). apply prefixed_NoDup, Hc.
  - split; [|apply Forall_fmap, Forall_true; intros x; apply tag_plugin]. apply prefixed_NoDup, Hc.
Qed.

(** ** Paths *)

Lemma reserved_clean r : r ∈ ReservedAttemptMountPaths → Clean r = r ∧ at_or_under r r = true.
Proof. revert r. apply Forall_forall. repeat (apply Forall_cons; split); [by vm_compute..|constructor]. Qed.

Lemma free_not_reserved at_ : free_path at_ → attachment_path at_ ∉ ReservedAttemptMountPaths.
Proof.
  intros [_ Hf] Hin. destruct (reserved_clean _ Hin) as [Hc Hu]. specialize (Hf _ Hin).
  unfold effective_path in Hf. rewrite Hc in Hf. congruence.
Qed.

Lemma free_not_plugin at_ cm : free_path at_ → plain cm → attachment_path at_ ≠ pluginsMountPrefix +:+ "/" +:+ cm.
Proof.
  intros [Ha Hf] Hc E. specialize (Hf pluginsMountPrefix ltac:(set_solver)).
  apply not_true_iff_false in Hf. apply Hf. unfold effective_path, pluginsMountPrefix in *.
  apply (at_or_under_top "plugins"); [done|done|]. rewrite E.
  destruct (Join_child "/plugins" cm) as [_ Hj]; [done|done|]. unfold Join in Hj.
  rewrite decide_False in Hj by done. rewrite decide_False in Hj by apply Hc.
  rewrite components_Clean in Hj. exists [cm]. exact Hj.
Qed.

Definition path_tag (p : AttemptJobParams) (x : string) : Z :=
  match list_find (λ m, m = x) ["/workspace"; "/skills"; "/cache"; "/sessions"; "/runtime"; pluginsMountPrefix] with
  | Some (i, _) => 10 + Z.of_nat i
  | None =>
      if decide (x ∈ cmm_MountPath <$> jm_ExtraConfigMapMounts p) then 2
      else if decide (x ∈ (λ cm, pluginsMountPrefix +:+ "/" +:+ cm) <$> jm_PluginConfigMaps p) then 3
      else 1
  end.

Lemma path_tag_free p x :
  x ∉ ReservedAttemptMountPaths →
  path_tag p x = if decide (x ∈ cmm_MountPath <$> jm_ExtraConfigMapMounts p) then 2
      else if decide (x ∈ (λ cm, pluginsMountPrefix +:+ "/" +:+ cm) <$> jm_PluginConfigMaps p) then 3 else 1.
Proof.
  intros Hx. unfold path_tag. destruct (list_find _ _) as [[i y]|] eqn:E; [|done].
  apply list_find_Some in E as (Hi & -> & _). apply list_elem_of_lookup_2 in Hi. by destruct Hx.
Qed.

Lemma paths_distinct p :
  NoDup (effective_path <$> jm_Attachments p) → Forall free_path (jm_Attachments p) → config_wf p →
  NoDup (job_paths p ≫= snd).
Proof.
  intros Hn Hf Hc. apply (NoDup_tagged (path_tag p)); [apply (bool_decide_unpack _); vm_compute; exact I|].
  pose proof (cw_extra_free _ Hc) as Hx. pose proof (cw_plugins_plain _ Hc) as Hp. rewrite Forall_forall in Hf. rewrite Forall_forall in Hx. rewrite Forall_forall in Hp.
  unfold job_paths. repeat (apply Forall_cons; split); [..|apply Forall_nil; done]; cbn [fst snd];
    try (split; [apply (when_NoDup true)|by apply (when_tag _ true)]);
    try (split; [apply when_NoDup|by apply when_tag]).
  - split.
    + assert (NoDup (attachment_path <$> jm_Attachments p)) as Hd
        by (apply (NoDup_fmap_1 Clean); rewrite <- list_fmap_compose; exact Hn).
      eapply sublist_NoDup; [exact Hd|].
      apply sublist_bind. intros x. apply attachment_parts_shape.
    + apply Forall_bind, Forall_forall. intros x Hin. unfold compose.
      destruct (proj2 (attachment_parts_shape p x)) as [-> | ->]; [constructor|]. apply Forall_singleton.
      rewrite path_tag_free by by apply free_not_reserved, Hf.
      rewrite decide_False, decide_False; [done| |].
      * intros (cm & Hcm & Hi)%list_elem_of_fmap. by eapply free_not_plugin; [apply Hf|apply Hp|].
      * intros (m & Hm & Hi)%list_elem_of_fmap. destruct (Hx m Hi) as (_ & Hna & _). apply Hna.
        rewrite <- Hm. by apply list_elem_of_fmap_2.
  - split; [apply Hc|]. apply Forall_fmap, Forall_forall. intros m Hi. cbn.
    destruct (Hx m Hi) as (Hr & _ & _). rewrite path_tag_free by done.
    rewrite decide_True; [done|]. by apply list_elem_of_fmap_2.
  - split.
    + apply NoDup_fmap_2; [|apply Hc]. intros a b E. by apply app_str_inj, app_str_inj in E.
    + apply Forall_fmap, Forall_forall. intros cm Hi. cbn.
      rewrite path_tag_free.
      2:{ unfold ReservedAttemptMountPaths, pluginsMountPrefix.
          intros Hin. repeat (apply elem_of_cons in Hin as [Hin|Hin]; [discriminate|]). by apply elem_of_nil in Hin. }
      rewrite decide_False, decide_True; [done|apply list_elem_of_fmap; by exists cm|].
      intros (m & Hm & Hmi)%list_elem_of_fmap. destruct (Hx m Hmi) as (_ & _ & Hnp). apply Hnp.
      apply list_elem_of_fmap. by exists cm.
Qed.

(** ** The Job *)

Lemma materialize_wf `{ManifestCodec} p manifests volumes :
  (wantRuntimeMount p = true → "runtime" ∈ vo_Name <$> volumes) →
  (wantPlugins p = true → "plugins" ∈ vo_Name <$> volumes) →
  Forall (backed volumes) (materializeInit p manifests)
  ∧ Forall (λ c, NoDup (vm_MountPath <$> ct_VolumeMounts c)) (materializeInit p manifests).
Proof.
  intros Hr Hp. unfold materializeInit. destruct (wantRuntimeMount p || wantPlugins p); [|split; constructor].
  split; apply Forall_singleton; unfold backed; cbn; destruct (wantRuntimeMount p), (wantPlugins p); cbn;
    first [by repeat constructor; auto | apply (bool_decide_unpack _); vm_compute; exact I].
Qed.

Lemma skills_wf getenv p volumes :
  "skills" ∈ vo_Name <$> volumes → Forall (λ v, v ∈ volumes) (skillsTokenVolumes getenv) →
  Forall (backed volumes) (skillsInit getenv p)
  ∧ Forall (λ c, NoDup (vm_MountPath <$> ct_VolumeMounts c)) (skillsInit getenv p).
Proof.
  intros Hs Ht. unfold skillsInit, skillsTokenVolumes in *.
  split; apply Forall_singleton; unfold backed; cbn; destruct (decide (SkillsTokenSecret getenv = "")); cbn.
  - by repeat constructor.
  - rewrite Forall_singleton in Ht. repeat constructor; [done|]. apply list_elem_of_fmap. eexists. split; [|exact Ht]. done.
  - apply NoDup_singleton.
  - apply (bool_decide_unpack _). vm_compute. exact I.
Qed.

(** C6. A Job that is built for attachments the dispatcher validated, under a
    fleet configuration whose own volume names and mount paths do not collide
    ([config_wf], which the program does not check: [collisions_validated]), is
    one Kubernetes accepts the shape of: its volumes are distinct, every mount
    of every container names one of them, and no two mounts of a container
    share a path. *)
Theorem BuildJob_pod_wf `{ManifestCodec} IsDNS1123Label getenv p now j spec :
  ValidateAttachments IsDNS1123Label (jm_Attachments p) (jm_WorkflowName p) = None →
  config_wf p →
  BuildJob getenv p now = Some j → jb_Spec j = Some spec →
  pod_wf spec.
Proof.
  intros (Hn & He & Hf)%ValidateAttachments_ok Hc HB Hs. unfold BuildJob in HB.
  destruct (manifest_env p) as [manifests|]; [|done]. cbn [mbind option_bind] in HB.
  apply (inj Some) in HB. subst j. cbn [jb_Spec] in Hs. apply (inj Some) in Hs. subst spec.
  pose proof (names_eq getenv p now manifests) as Hnames.
  assert (∀ x l, (x, l) ∈ job_names getenv p → ∀ n, n ∈ l →
            n ∈ vo_Name <$> pt_Volumes (job_parts p now manifests) ++ skillsTokenVolumes getenv) as Hin.
  { intros x l Hx n Hl. rewrite Hnames. apply list_elem_of_bind. by exists (x, l). }
  pose proof (job_parts_backed p now manifests) as Hb.
  assert (Forall (backed (pt_Volumes (job_parts p now manifests) ++ skillsTokenVolumes getenv))
            (materializeInit p manifests ++ skillsInit getenv p)
    ∧ Forall (λ c, NoDup (vm_MountPath <$> ct_VolumeMounts c)) (materializeInit p manifests ++ skillsInit getenv p))
    as [Hi1 Hi2].
  { rewrite !Forall_app.
    destruct (materialize_wf p manifests (pt_Volumes (job_parts p now manifests) ++ skillsTokenVolumes getenv)) as [??].
    - intros E. apply (Hin 14 ["runtime"]); [unfold job_names; rewrite E; set_solver|by left].
    - intros E. apply (Hin 15 ["plugins"]); [unfold job_names; rewrite E; set_solver|by left].
    - destruct (skills_wf getenv p (pt_Volumes (job_parts p now manifests) ++ skillsTokenVolumes getenv)) as [??]; [| |done].
      + apply (Hin 11 ["skills"]); [unfold job_names; set_solver|by left].
      + apply Forall_forall. set_solver. }
  split; cbn [jp_Volumes jp_InitContainers jp_Containers].
  - rewrite Hnames. by apply volumes_distinct.
  - apply Forall_app. split; [done|]. apply Forall_singleton. unfold backed. cbn [ct_VolumeMounts].
    eapply Forall_impl; [exact Hb|]. intros m Hm. rewrite fmap_app. apply elem_of_app. by left.
  - apply Forall_app. split; [done|]. apply Forall_singleton. cbn [ct_VolumeMounts]. rewrite paths_eq. by apply paths_distinct.
Qed.

(** ** A review's Job *)

Definition sample_attempt : Attempt :=
  {| at_Meta := {| om_Name := "docs-1"; om_Namespace := "ns"; om_Labels := ∅; om_CreationTimestamp := 0;
                   om_ResourceVersion := 1; om_UID := "u1" |};
     at_Spec := {| as_Objective := {| ob_Kind := ObjectiveKindPRReview;
                                      ob_PrimarySubject := {| sj_Binding := ""; sj_Object := "" |};
                                      ob_RelatedSubjects := []; ob_DesiredOutcome := ""; ob_TargetedState := "" |};
                   as_WorkflowRef := ""; as_Bindings := []; as_Owner := "" |};
     at_Status := zero_status |}.

Definition sample_cfg (plugins : list string) (mounts : list ConfigMapMount) : DispatchConfig :=
  {| dc_FleetMaxConcurrent := 3; dc_DisableCancelOnSupersede := false; dc_JobImage := "img"; dc_ServiceAccount := "sa";
     dc_JobTTLSeconds := Some 3600; dc_DaprdImage := ""; dc_PluginConfigMaps := plugins;
     dc_ExtraConfigMapMounts := mounts; dc_AggregatePlugins := true; dc_PluginLabelValue := "true" |}.

Definition sol_pi : SharedAttachment :=
  {| sa_Name := "sol-pi"; sa_Scope := AttachmentScopeRepository; sa_PVC := "shared"; sa_MountPath := "" |}.
Definition scripts (path : string) : ConfigMapMount :=
  {| cmm_Name := "scripts"; cmm_MountPath := path; cmm_Mode := None |}.

Definition sample_params (plugins : list string) (mounts : list ConfigMapMount) : AttemptJobParams :=
  JobParams (sample_cfg plugins mounts) sample_attempt "docs" "ns" 0
    (Some {| ca_PVC := "cache"; ca_Git := false; ca_Go := true; ca_NPM := false |}) None [sol_pi] "h/o/n"
    ["GH_TOKEN=t"] [pin "a" "a@1.0.0" sample_sri] None [].

Definition sample_env (name : string) : string := if decide (name = "HARMOSTES_SKILLS_TOKEN_SECRET") then "tok" else "".
Definition sample_job (plugins : list string) (mounts : list ConfigMapMount) : option JobSpec :=
  j ← BuildJob sample_env (sample_params plugins mounts) 0; jb_Spec j.

Lemma BuildJob_pod_wf_witness :
  ∃ spec, sample_job ["wiki"] [scripts "/workspace/scripts"] = Some spec ∧ pod_wf spec
  ∧ (vo_Name <$> jp_Volumes spec)
    = ["workspace"; "skills"; "cache"; "attach-sol-pi"; "extra-cm-scripts"; "plugin-cm-wiki"; "runtime"; "plugins"; "skills-token"].
Proof.
  destruct (BuildJob sample_env (sample_params ["wiki"] [scripts "/workspace/scripts"]) 0) as [j|] eqn:E;
    [|vm_compute in E; discriminate].
  destruct (jb_Spec j) as [spec|] eqn:Es; [|exfalso; vm_compute in E; injection E as <-; discriminate].
  exists spec. split_and!.
  - unfold sample_job. rewrite E. exact Es.
  - apply (BuildJob_pod_wf (λ _, []) sample_env (sample_params ["wiki"] [scripts "/workspace/scripts"]) 0 j spec);
      [vm_compute; reflexivity| |exact E|exact Es].
    split; apply (bool_decide_unpack _); vm_compute; exact I.
  - vm_compute in E. injection E as <-. injection Es as <-. reflexivity.
Defined.

(** What [Validate] lets through: a ConfigMap mounted twice is two volumes of one
    name, and a mount at an attachment's path is two mounts of one path. *)
Lemma collisions_validated :
  Validate (sample_cfg [] [scripts "/a"; scripts "/b"]) = None
  ∧ (length ∘ filter (λ n, n = "extra-cm-scripts") ∘ fmap vo_Name ∘ jp_Volumes)
      <$> sample_job [] [scripts "/a"; scripts "/b"] = Some 2%nat
  ∧ Validate (sample_cfg [] [scripts "/attachments/sol-pi"]) = None
  ∧ (λ s, length (filter (λ n, n = "/attachments/sol-pi") (vm_MountPath <$> (jp_Containers s ≫= ct_VolumeMounts))))
      <$> sample_job [] [scripts "/attachments/sol-pi"] = Some 2%nat.
Proof. vm_compute. done. Qed.

(** A lifetime that does not fit 32 bits wraps, and the text after an octal mode
    is ignored. *)
Lemma ttl_wraps :
  dc_JobTTLSeconds <$> (match DispatchConfigFromEnv ["HARMOSTES_WORKER_IMAGE=img"; "HARMOSTES_JOB_TTL_SECONDS=4294967296"] with
                        | Ok c => Some c | Err _ => None end) = Some (Some 0)
  ∧ dc_JobTTLSeconds <$> (match DispatchConfigFromEnv ["HARMOSTES_WORKER_IMAGE=img"; "HARMOSTES_JOB_TTL_SECONDS=2147483648"] with
                        | Ok c => Some c | Err _ => None end) = Some (Some (-2147483648))
  ∧ is_ok (parse_mount "scripts=/workspace/scripts=755=junk") = true.
Proof. vm_compute. done. Qed.
