(* ===== verification/Sweep.v ===== *)
(** * The Review-Ready sweep ([runGate] of [internal/gate/sweep.go])

    One sweep re-evaluates the claims a workflow holds, releases those whose
    review ended, died or was never started, arms and accepts candidates while
    a slot is free, cancels the Jobs of cancelled claims, and records its
    aggregates. The locals its closures assign are the record [Locals]; each
    pass is a definition over [Locals] and the world. Log lines and metrics are
    left out. *)

From S2P Require Import Prelude GoStrings GoTime Json Api ReviewReady AttemptName Kube AttemptStore ReviewClaim Review ReviewRest ReviewEval Gate Jobs.

(** ** Collaborators *)

(** [StatusPatcher] (the part of the status the gate reads and writes), the
    timeline writer, and the sweep's context. *)
Class GateWorld (W : Type) := {
  gw_ctx_err : W → option string;
  gw_GetStatus : string → M W Error (option ReviewReadyStatus);
  gw_PatchStatus : string → (option ReviewReadyStatus → option ReviewReadyStatus) → M W Error unit;
  gw_Emit : string → Payload → M W string unit;
}.

(** [gp_Scheme] and [gp_TL] say that the field is not nil. *)
Record GateDeps := {
  gp_Scheme : bool;
  gp_FleetMaxConcurrent : Z;
  gp_DisableCancelOnSupersede : bool;
  gp_TL : bool;
  gp_Wake : GateWake;
}.

(** ** The sweep's locals *)

Record Locals := {
  lo_refusals : list ReviewRefusal;
  lo_decision : string;
  lo_reason : string;
  lo_held : bool;
  lo_converged : gset string;
  lo_jobs : option (result KErr (list Job));
  lo_liveDispatched : Z;
  lo_liveOn : gset string;
  lo_keepArmed : gset string;
  lo_released : gset string;
  lo_newlyArmed : gmap string string;
  lo_out : list GateDispatch;
  lo_free : Z;
  lo_capacityFull : bool;
  lo_panicked : bool;
}.

Definition set_refusals (x : list ReviewRefusal) (s : Locals) : Locals :=
  {| lo_refusals := x; lo_decision := lo_decision s; lo_reason := lo_reason s;
     lo_held := lo_held s; lo_converged := lo_converged s; lo_jobs := lo_jobs s;
     lo_liveDispatched := lo_liveDispatched s; lo_liveOn := lo_liveOn s;
     lo_keepArmed := lo_keepArmed s; lo_released := lo_released s;
     lo_newlyArmed := lo_newlyArmed s; lo_out := lo_out s; lo_free := lo_free s;
     lo_capacityFull := lo_capacityFull s; lo_panicked := lo_panicked s |}.

Definition set_decision (x : string) (s : Locals) : Locals :=
  {| lo_refusals := lo_refusals s; lo_decision := x; lo_reason := lo_reason s;
     lo_held := lo_held s; lo_converged := lo_converged s; lo_jobs := lo_jobs s;
     lo_liveDispatched := lo_liveDispatched s; lo_liveOn := lo_liveOn s;
     lo_keepArmed := lo_keepArmed s; lo_released := lo_released s;
     lo_newlyArmed := lo_newlyArmed s; lo_out := lo_out s; lo_free := lo_free s;
     lo_capacityFull := lo_capacityFull s; lo_panicked := lo_panicked s |}.

Definition set_reason (x : string) (s : Locals) : Locals :=
  {| lo_refusals := lo_refusals s; lo_decision := lo_decision s; lo_reason := x;
     lo_held := lo_held s; lo_converged := lo_converged s; lo_jobs := lo_jobs s;
     lo_liveDispatched := lo_liveDispatched s; lo_liveOn := lo_liveOn s;
     lo_keepArmed := lo_keepArmed s; lo_released := lo_released s;
     lo_newlyArmed := lo_newlyArmed s; lo_out := lo_out s; lo_free := lo_free s;
     lo_capacityFull := lo_capacityFull s; lo_panicked := lo_panicked s |}.

Definition set_held (x : bool) (s : Locals) : Locals :=
  {| lo_refusals := lo_refusals s; lo_decision := lo_decision s; lo_reason := lo_reason s;
     lo_held := x; lo_converged := lo_converged s; lo_jobs := lo_jobs s;
     lo_liveDispatched := lo_liveDispatched s; lo_liveOn := lo_liveOn s;
     lo_keepArmed := lo_keepArmed s; lo_released := lo_released s;
     lo_newlyArmed := lo_newlyArmed s; lo_out := lo_out s; lo_free := lo_free s;
     lo_capacityFull := lo_capacityFull s; lo_panicked := lo_panicked s |}.

Definition set_converged (x : gset string) (s : Locals) : Locals :=
  {| lo_refusals := lo_refusals s; lo_decision := lo_decision s; lo_reason := lo_reason s;
     lo_held := lo_held s; lo_converged := x; lo_jobs := lo_jobs s;
     lo_liveDispatched := lo_liveDispatched s; lo_liveOn := lo_liveOn s;
     lo_keepArmed := lo_keepArmed s; lo_released := lo_released s;
     lo_newlyArmed := lo_newlyArmed s; lo_out := lo_out s; lo_free := lo_free s;
     lo_capacityFull := lo_capacityFull s; lo_panicked := lo_panicked s |}.

Definition set_jobs (x : option (result KErr (list Job))) (s : Locals) : Locals :=
  {| lo_refusals := lo_refusals s; lo_decision := lo_decision s; lo_reason := lo_reason s;
     lo_held := lo_held s; lo_converged := lo_converged s; lo_jobs := x;
     lo_liveDispatched := lo_liveDispatched s; lo_liveOn := lo_liveOn s;
     lo_keepArmed := lo_keepArmed s; lo_released := lo_released s;
     lo_newlyArmed := lo_newlyArmed s; lo_out := lo_out s; lo_free := lo_free s;
     lo_capacityFull := lo_capacityFull s; lo_panicked := lo_panicked s |}.

Definition set_liveDispatched (x : Z) (s : Locals) : Locals :=
  {| lo_refusals := lo_refusals s; lo_decision := lo_decision s; lo_reason := lo_reason s;
     lo_held := lo_held s; lo_converged := lo_converged s; lo_jobs := lo_jobs s;
     lo_liveDispatched := x; lo_liveOn := lo_liveOn s; lo_keepArmed := lo_keepArmed s;
     lo_released := lo_released s; lo_newlyArmed := lo_newlyArmed s; lo_out := lo_out s;
     lo_free := lo_free s; lo_capacityFull := lo_capacityFull s; lo_panicked := lo_panicked s |}.

Definition set_liveOn (x : gset string) (s : Locals) : Locals :=
  {| lo_refusals := lo_refusals s; lo_decision := lo_decision s; lo_reason := lo_reason s;
     lo_held := lo_held s; lo_converged := lo_converged s; lo_jobs := lo_jobs s;
     lo_liveDispatched := lo_liveDispatched s; lo_liveOn := x; lo_keepArmed := lo_keepArmed s;
     lo_released := lo_released s; lo_newlyArmed := lo_newlyArmed s; lo_out := lo_out s;
     lo_free := lo_free s; lo_capacityFull := lo_capacityFull s; lo_panicked := lo_panicked s |}.

Definition set_keepArmed (x : gset string) (s : Locals) : Locals :=
  {| lo_refusals := lo_refusals s; lo_decision := lo_decision s; lo_reason := lo_reason s;
     lo_held := lo_held s; lo_converged := lo_converged s; lo_jobs := lo_jobs s;
     lo_liveDispatched := lo_liveDispatched s; lo_liveOn := lo_liveOn s; lo_keepArmed := x;
     lo_released := lo_released s; lo_newlyArmed := lo_newlyArmed s; lo_out := lo_out s;
     lo_free := lo_free s; lo_capacityFull := lo_capacityFull s; lo_panicked := lo_panicked s |}.

Definition set_released (x : gset string) (s : Locals) : Locals :=
  {| lo_refusals := lo_refusals s; lo_decision := lo_decision s; lo_reason := lo_reason s;
     lo_held := lo_held s; lo_converged := lo_converged s; lo_jobs := lo_jobs s;
     lo_liveDispatched := lo_liveDispatched s; lo_liveOn := lo_liveOn s;
     lo_keepArmed := lo_keepArmed s; lo_released := x; lo_newlyArmed := lo_newlyArmed s;
     lo_out := lo_out s; lo_free := lo_free s; lo_capacityFull := lo_capacityFull s;
     lo_panicked := lo_panicked s |}.

Definition set_newlyArmed (x : gmap string string) (s : Locals) : Locals :=
  {| lo_refusals := lo_refusals s; lo_decision := lo_decision s; lo_reason := lo_reason s;
     lo_held := lo_held s; lo_converged := lo_converged s; lo_jobs := lo_jobs s;
     lo_liveDispatched := lo_liveDispatched s; lo_liveOn := lo_liveOn s;
     lo_keepArmed := lo_keepArmed s; lo_released := lo_released s; lo_newlyArmed := x;
     lo_out := lo_out s; lo_free := lo_free s; lo_capacityFull := lo_capacityFull s;
     lo_panicked := lo_panicked s |}.

Definition set_out (x : list GateDispatch) (s : Locals) : Locals :=
  {| lo_refusals := lo_refusals s; lo_decision := lo_decision s; lo_reason := lo_reason s;
     lo_held := lo_held s; lo_converged := lo_converged s; lo_jobs := lo_jobs s;
     lo_liveDispatched := lo_liveDispatched s; lo_liveOn := lo_liveOn s;
     lo_keepArmed := lo_keepArmed s; lo_released := lo_released s;
     lo_newlyArmed := lo_newlyArmed s; lo_out := x; lo_free := lo_free s;
     lo_capacityFull := lo_capacityFull s; lo_panicked := lo_panicked s |}.

Definition set_free (x : Z) (s : Locals) : Locals :=
  {| lo_refusals := lo_refusals s; lo_decision := lo_decision s; lo_reason := lo_reason s;
     lo_held := lo_held s; lo_converged := lo_converged s; lo_jobs := lo_jobs s;
     lo_liveDispatched := lo_liveDispatched s; lo_liveOn := lo_liveOn s;
     lo_keepArmed := lo_keepArmed s; lo_released := lo_released s;
     lo_newlyArmed := lo_newlyArmed s; lo_out := lo_out s; lo_free := x;
     lo_capacityFull := lo_capacityFull s; lo_panicked := lo_panicked s |}.

Definition set_capacityFull (x : bool) (s : Locals) : Locals :=
  {| lo_refusals := lo_refusals s; lo_decision := lo_decision s; lo_reason := lo_reason s;
     lo_held := lo_held s; lo_converged := lo_converged s; lo_jobs := lo_jobs s;
     lo_liveDispatched := lo_liveDispatched s; lo_liveOn := lo_liveOn s;
     lo_keepArmed := lo_keepArmed s; lo_released := lo_released s;
     lo_newlyArmed := lo_newlyArmed s; lo_out := lo_out s; lo_free := lo_free s;
     lo_capacityFull := x; lo_panicked := lo_panicked s |}.

Definition set_panicked (x : bool) (s : Locals) : Locals :=
  {| lo_refusals := lo_refusals s; lo_decision := lo_decision s; lo_reason := lo_reason s;
     lo_held := lo_held s; lo_converged := lo_converged s; lo_jobs := lo_jobs s;
     lo_liveDispatched := lo_liveDispatched s; lo_liveOn := lo_liveOn s;
     lo_keepArmed := lo_keepArmed s; lo_released := lo_released s;
     lo_newlyArmed := lo_newlyArmed s; lo_out := lo_out s; lo_free := lo_free s;
     lo_capacityFull := lo_capacityFull s; lo_panicked := x |}.

Definition lo_start (refusals : list ReviewRefusal) : Locals :=
  {| lo_refusals := refusals; lo_decision := DecisionWaiting;
     lo_reason := "nothing to evaluate this cycle"; lo_held := false; lo_converged := ∅;
     lo_jobs := None; lo_liveDispatched := 0; lo_liveOn := ∅; lo_keepArmed := ∅; lo_released := ∅;
     lo_newlyArmed := ∅; lo_out := []; lo_free := 0; lo_capacityFull := false; lo_panicked := false |}.

Definition set_last (decision reason : string) (s : Locals) : Locals :=
  set_reason reason (set_decision decision s).

Definition add_keepArmed (p : string) (s : Locals) : Locals := set_keepArmed ({[p]} ∪ lo_keepArmed s) s.
Definition add_released (n : string) (s : Locals) : Locals := set_released ({[n]} ∪ lo_released s) s.
Definition drop_liveOn (p : string) (s : Locals) : Locals := set_liveOn (lo_liveOn s ∖ {[p]}) s.
Definition add_newlyArmed (p sha : string) (s : Locals) : Locals :=
  set_newlyArmed (<[p := sha]> (lo_newlyArmed s)) s.
Definition add_out (d : GateDispatch) (s : Locals) : Locals := set_out (lo_out s ++ [d]) s.

Definition set_Emitted (r : ReviewRefusal) : ReviewRefusal :=
  {| rf_Repo := rf_Repo r; rf_PR := rf_PR r; rf_HeadSHA := rf_HeadSHA r; rf_Reason := rf_Reason r;
     rf_At := rf_At r; rf_VerdictURL := rf_VerdictURL r; rf_Emitted := true;
     rf_HostNotified := rf_HostNotified r |}.

(** A write through the pointer [ReviewRefusalFor] returned. *)
Fixpoint update_refusal (repo : string) (pr : Z) (r : ReviewRefusal) (l : list ReviewRefusal)
    : list ReviewRefusal :=
  match l with
  | [] => []
  | e :: l => if bool_decide (rf_Repo e = repo) && (rf_PR e =? pr) then r :: l
              else e :: update_refusal repo pr r l
  end.

(** What a failed job list leaves in the snapshot. *)
Definition snapshot (r : result KErr (list Job)) : list Job := match r with Ok l => l | Err _ => [] end.

Section sweep.
Context {W : Type} `{KubeClient W} `{RetryOnConflict} `{ReviewAPI W} `{JobClient W} `{GateWorld W}.
Context (parse_json : string → option json) (kube_text : KErr → string).
Context (label_error url_path : string → option string) (owner_error : Workflow → string → option string).
Context (deps : GateDeps) (wf : Workflow) (rr : ReviewReadySpec) (now : Z) (liveAgg : option ReviewReadyStatus).

Definition namespace_of : string := om_Namespace (wk_Meta wf).
Definition label_of : string := EffectiveLabel (Some rr).
Definition the_wake : option candidate := wake parse_json (gp_Wake deps) wf.

(** ** Steps the passes share *)

Definition emit (kind : string) (payload : Payload) (w : W) : W :=
  if gp_TL deps then (gw_Emit kind payload w).2 else w.

Definition emitGate (decision reason repo : string) (pr : Z) (w : W) : W :=
  match gate_kind liveAgg decision reason with
  | Some kind => emit kind [("reason", VString reason); ("pr", VInt pr); ("repo", VString repo)] w
  | None => w
  end.

Definition emit_result (res : Result) (repo : string) (pr : Z) (w : W) : W :=
  emitGate (re_Decision res) (ee_Reason (re_Eval res)) repo pr w.

Definition releaseClaim (c : Attempt) (reason : string) (w : W) : W :=
  (ReleaseClaim (om_Namespace (at_Meta c)) (om_Name (at_Meta c)) reason w).2.

Definition releaseDeadClaim (c : Attempt) (reason : string) (w : W) : W :=
  (ReleaseClaimDead (om_Namespace (at_Meta c)) (om_Name (at_Meta c)) reason w).2.

Definition hold (c : Attempt) (note cause : string) (w : W) : W :=
  (SetClaimHold (om_Namespace (at_Meta c)) (om_Name (at_Meta c)) note cause w).2.

Definition standDown (repo : string) (pr : Z) (err : string) (s : Locals) (w : W) : Locals * W :=
  (if lo_held s then s else set_last DecisionStanddown err s, emitGate DecisionStanddown err repo pr w).

(** The closure [activeJobs]: one list per sweep, its error latched. *)
Definition activeJobs (s : Locals) (w : W) : result KErr (list Job) * Locals * W :=
  match lo_jobs s with
  | Some r => (r, s, w)
  | None => let '(r, w) := ListAttemptJobs namespace_of (om_Name (wk_Meta wf)) w in
            (r, set_jobs (Some r) s, w)
  end.

(** ** A. The claims in flight *)

Definition claim_params (c : Attempt) (r : ReviewClaimStatus) (repo : string) (pr dispatchedAt : Z) : Params :=
  {| pa_Repo := repo; pa_PR := pr; pa_Label := rv_Label r; pa_Horizon := HorizonDuration (Some rr);
     pa_Now := now; pa_ArmedAt := default 0 (rv_ArmedSince r); pa_ArmedSha := rv_HeadSHA r;
     pa_WakeSHA := ""; pa_DispatchedAt := dispatchedAt;
     pa_DispatchTimeout := DispatchTimeoutDuration (Some rr); pa_DisarmHint := false |}.

Definition envelope_sha (res : Result) : string :=
  match ee_Envelope (re_Eval res) with Some e => en_HeadSHA e | None => "" end.

Definition wake_owns (pointer : string) : bool :=
  match the_wake with
  | Some c => bool_decide (ca_pointer c = pointer) && ca_request c
  | None => false
  end.

Definition churn_text (r : ReviewClaimStatus) : string :=
  "dispatch-lost churn budget exhausted: " +:+ rv_HeadSHA r +:+ " — " +:+ pretty (rv_DispatchLostReleases r)
  +:+ " consecutive never-dispatched releases (max " +:+ pretty MaxDispatchLostReleases
  +:+ "); re-apply the label to request a fresh review".

(** Armed, not dispatched: the evaluation is its dispatch path. *)
Definition queued_claim (c : Attempt) (r : ReviewClaimStatus) (s : Locals) (w : W) : Locals * W :=
  let name := om_Name (at_Meta c) in
  match parsePRPointer (rv_PR r) with
  | Err _ => (add_released name s, releaseClaim c ReleaseReasonPointerInvalid w)
  | Ok (repo, pr) =>
      let '(res, w) := Evaluate kc_now (claim_params c r repo pr 0) w in
      if wake_owns (rv_PR r) then (add_keepArmed (rv_PR r) s, emit_result res repo pr w)
      else if decide (re_Decision res = DecisionProceed) then
        if decide (envelope_sha res ≠ rv_HeadSHA r) then
          let w := releaseClaim c ReleaseReasonSuperseded w in
          (drop_liveOn (rv_PR r) (add_released name s), emit_result res repo pr w)
        else if (MaxDispatchLostReleases <=? rv_DispatchLostReleases r)
                && DispatchLostWindowOpen (kc_now w) (Some r) (claim_age (kc_now w) c) (HorizonDuration (Some rr))
        then
          let '(s, w) := standDown repo pr (churn_text r) s w in
          (add_keepArmed (rv_PR r) (add_released name s), w)
        else
          let s := add_keepArmed (rv_PR r)
                     (add_out {| gd_Envelope := ee_Envelope (re_Eval res); gd_Attempt := name |} s) in
          let w := emit_result res repo pr w in
          (s, hold c "" HoldCauseDispatched w)
      else if decide (re_Decision res = DecisionStanddown) then
        let w := releaseClaim c (classifyRelease (re_Eval res)) w in
        let s := add_released name s in
        let s := if decide (ee_Code (re_Eval res) = CodeHeadMoved) then drop_liveOn (rv_PR r) s else s in
        (s, emit_result res repo pr w)
      else
        let w := emit_result res repo pr w in
        let reason := ee_Reason (re_Eval res) in
        (add_keepArmed (rv_PR r) s, hold c reason (HoldCauseOf reason) w)
  end.

(** Dispatched: consumed, expired, or left alone. *)
Definition dispatched_claim (c : Attempt) (r : ReviewClaimStatus) (dispatchedAt : Z) (s : Locals) (w : W)
    : Locals * W :=
  let s := set_liveDispatched (lo_liveDispatched s + 1) s in
  match parsePRPointer (rv_PR r) with
  | Err _ => (s, releaseClaim c ReleaseReasonPointerInvalid w)
  | Ok (repo, pr) =>
      let '(res, w) := Evaluate kc_now (claim_params c r repo pr dispatchedAt) w in
      if decide (re_Decision res ≠ DecisionStanddown) then (s, w)
      else
        let reason := classifyRelease (re_Eval res) in
        let timed_out := bool_decide (reason = ReleaseReasonDispatchTimeout) in
        let '(alive, s, w) :=
          if timed_out
          then let '(jobs, s, w) := activeJobs s w in (jobAlive (snapshot jobs) (om_Name (at_Meta c)), s, w)
          else (false, s, w) in
        if timed_out && alive then
          let heldReason := ee_Reason (re_Eval res) +:+ " (held: Job still alive)" in
          let s := if decide (lo_decision s ≠ re_Decision res) then set_last (re_Decision res) heldReason s else s in
          let s := set_held true s in
          let fresh := match liveAgg with
                       | Some a => negb (bool_decide (ry_LastReason a = heldReason))
                       | None => true
                       end in
          (s, if fresh then emit KindGateStanddown
                 [("reason", VString heldReason); ("pr", VInt pr); ("repo", VString repo); ("jobAlive", VBool true)] w
              else w)
        else
          let w := if timed_out then releaseDeadClaim c reason w else releaseClaim c reason w in
          (set_liveDispatched (lo_liveDispatched s - 1) s, emit_result res repo pr w)
  end.

Fixpoint claims_pass (claims : list Attempt) (s : Locals) (w : W) : Locals * W :=
  match claims with
  | [] => (s, w)
  | c :: claims =>
      match st_Review (at_Status c) with
      | None => claims_pass claims s w (* the live list has a claim on each *)
      | Some r =>
          let s := set_liveOn ({[rv_PR r]} ∪ lo_liveOn s) s in
          let '(s, w) := match rv_DispatchedAt r with
                         | None => queued_claim c r s w
                         | Some t => dispatched_claim c r t s w
                         end in
          claims_pass claims s w
      end
  end.

(** ** Deaths by fact *)

Definition past_death_grace (w : W) (c : Attempt) : bool :=
  match st_Review (at_Status c) with
  | Some r => match rv_DispatchedAt r with
              | Some t => jobDeathGrace <? time_Sub (kc_now w) t
              | None => false
              end
  | None => false
  end.

Fixpoint death_loop (jobs : list Job) (claims : list Attempt) (w : W) : W :=
  match claims with
  | [] => w
  | c :: claims =>
      let name := om_Name (at_Meta c) in
      if past_death_grace w c && negb (jobAlive jobs name)
         && negb (bool_decide (jobDeath jobs name = "completed"))
      then death_loop jobs claims (releaseDeadClaim c ReleaseReasonDispatchLost w)
      else death_loop jobs claims w
  end.

Definition death_pass (claims : list Attempt) (s : Locals) (w : W) : Locals * W :=
  if existsb (past_death_grace w) claims then
    let '(r, s, w) := activeJobs s w in
    match r with
    | Ok jobs => (s, death_loop jobs claims w)
    | Err _ => (s, w)
    end
  else (s, w).

(** ** Armed and never dispatched *)

Definition abort_recent (w : W) : bool :=
  match liveAgg with
  | Some a => match ry_LastSweepAbortAt a with
              | Some t => time_Sub (kc_now w) t <=? reDispatchGrace
              | None => false
              end
  | None => false
  end.

(** The guards of the loop: the claim is stranded. *)
Definition stranded (jobs : list Job) (s : Locals) (w : W) (c : Attempt) : bool :=
  negb (bool_decide (om_Name (at_Meta c) ∈ lo_released s)) &&
  match st_Review (at_Status c) with
  | Some r =>
      bool_decide (rv_DispatchedAt r = None) && negb (jobAlive jobs (om_Name (at_Meta c)))
      && negb (bool_decide (rv_PR r ∈ lo_keepArmed s))
      && match rv_ArmedSince r with
         | Some arm => negb (time_Sub (kc_now w) arm <=? reDispatchGrace)
         | None => false
         end
  | None => false
  end.

Fixpoint stranded_loop (jobs : list Job) (claims : list Attempt) (s : Locals) (w : W) : W :=
  match claims with
  | [] => w
  | c :: claims =>
      if stranded jobs s w c
      then stranded_loop jobs claims s
             (releaseClaim c (if abort_recent w then "sweep-aborted" else ReleaseReasonDispatchLost) w)
      else stranded_loop jobs claims s w
  end.

Definition stranded_pass (claims : list Attempt) (s : Locals) (w : W) : Locals * W :=
  match gw_ctx_err w with
  | Some _ => (s, w)
  | None =>
      let '(r, s, w) := activeJobs s w in
      match r with
      | Err _ => (s, w)
      | Ok jobs => (s, stranded_loop jobs claims s w)
      end
  end.

(** ** B. Candidates *)

(** The locals after the second list. *)
Definition recount (claims : list Attempt) (s : Locals) : Locals :=
  let dispatched := filter (λ c, bool_decide (is_Some (st_Review (at_Status c) ≫= rv_DispatchedAt)) = true) claims in
  let live := Z.of_nat (length dispatched) in
  let s := set_liveOn (list_to_set (omap (λ c, rv_PR <$> st_Review (at_Status c)) claims)) s in
  let s := set_liveDispatched live s in
  set_capacityFull false
    (set_free (EffectiveMaxConcurrent (Some rr) (gp_FleetMaxConcurrent deps) - live) s).

Definition scan_candidate (repo : string) (pr : PullRequest) : candidate :=
  {| ca_repo := repo; ca_pr := pl_Number pr; ca_pointer := pointer_of repo (pl_Number pr); ca_sha := "";
     ca_request := false; ca_labeled := false; ca_granularLabel := false; ca_humanResolved := None;
     ca_humanUnknown := false |}.

Definition addCand (c : candidate) (cands : list candidate) : list candidate :=
  if bool_decide (ca_pointer c ∈ ca_pointer <$> cands) then cands else cands ++ [c].

Fixpoint scan (repos : list string) (cands : list candidate) (s : Locals) (w : W)
    : list candidate * Locals * W :=
  match repos with
  | [] => (cands, s, w)
  | repo :: repos =>
      let norm := normalizeRepoPointer parse_json repo wf in
      match ListLabeledOpenPulls norm label_of w with
      | (Err e, w) =>
          let s := if negb (lo_held s) && bool_decide (lo_reason s = "nothing to evaluate this cycle")
                   then set_last DecisionWaiting
                          ("labeled scan " +:+ norm +:+ " failed: " +:+ e +:+ " — labeled PRs unevaluated this sweep") s
                   else s in
          scan repos cands s w
      | (Ok pulls, w) =>
          scan repos (foldl (λ cs p, addCand (scan_candidate norm p) cs) cands pulls) s w
      end
  end.

Definition candidates (wakeOnly : bool) (s : Locals) (w : W) : list candidate * Locals * W :=
  let cands := match the_wake with Some c => [c] | None => [] end in
  if wakeOnly then (cands, s, w)
  else if lo_free s <=? 0 then (cands, set_capacityFull true s, w)
  else scan (scopeRepos parse_json wf) cands s w.

(** ** Consuming a standing verdict *)

Definition open_roots (threads : list ReviewThread) : Z :=
  Z.of_nat (length (filter (λ t, th_IsReply t = false ∧ th_Resolved t = false) threads)).

(** The state and description posted for the merge. *)
Definition merge_status (decision : string) (openRoots : Z) : string * string :=
  if bool_decide (decision = "APPROVE") && (openRoots =? 0)
  then ("success", "reviewed: APPROVE, all threads closed")
  else ("failure", "reviewed: " +:+ decision +:+ " — open threads must be resolved/carried").

(** The log lines slice the head to eight bytes, which panics on a shorter one. *)
Definition convergeConsume (env : option Envelope) (s : Locals) (w : W) : Locals * W :=
  match env with
  | None => (s, w)
  | Some env =>
      if bool_decide (en_VerdictDecision env = "") || bool_decide (en_Label env = "") then (s, w)
      else
        let key := en_Repo env +:+ "/" +:+ pretty (en_PR env) +:+ "/" +:+ en_HeadSHA env in
        if bool_decide (key ∈ lo_converged s) then (s, w)
        else
          let s := set_converged ({[key]} ∪ lo_converged s) s in
          let '(r, w) := DeleteLabel (en_Repo env) (en_PR env) (en_Label env) w in
          if is_ok r && (slen (en_HeadSHA env) <? 8) then (set_panicked true s, w)
          else match ListReviewThreads (en_Repo env) (en_PR env) w with
               | (Err _, w) => (s, w)
               | (Ok threads, w) =>
                   let '(state, desc) := merge_status (en_VerdictDecision env) (open_roots threads) in
                   match PostCommitStatus (en_Repo env) (en_HeadSHA env) state "pr-review/verdict" desc w with
                   | (Err _, w) => (s, w)
                   | (Ok _, w) => (if slen (en_HeadSHA env) <? 8 then set_panicked true s else s, w)
                   end
               end
  end.

(** ** C. Evaluate and drain *)

(** The memo's refusal of a candidate; [None] lets it through. *)
Definition memo_refuses (cand : candidate) (s : Locals) (w : W)
    : option ReviewRefusal * candidate * W :=
  match ReviewRefusalFor (lo_refusals s) (ca_repo cand) (ca_pr cand) with
  | None => (None, cand, w)
  | Some ref =>
      let '(head, w) :=
        if decide (candSha cand = "") then
          match GetPullRequest (ca_repo cand) (ca_pr cand) w with
          | (Ok p, w) => (pl_HeadSHA p, w)
          | (Err _, w) => ("", w)
          end
        else (candSha cand, w) in
      let '(humanRequest, cand, w) :=
        if negb (ca_labeled cand) && ca_granularLabel cand then
          let '(_, cand, w) := humanOverride cand label_of w in
          (ca_humanUnknown cand || humanApplied cand false, cand, w)
        else (ca_labeled cand, cand, w) in
      (if negb humanRequest && Matches ref head then Some ref else None, cand, w)
  end.

Definition memo_skip (cand : candidate) (ref : ReviewRefusal) (s : Locals) (w : W) : Locals * W :=
  let reason := "verdict standing at " +:+ rf_HeadSHA ref +:+ " — memo (#567): push a fix commit to re-review" in
  let s := set_last DecisionStanddown reason s in
  let w := if rf_Emitted ref then w else emitGate DecisionStanddown reason (ca_repo cand) (ca_pr cand) w in
  let '(ref, w) := notifyRefusalHost (set_Emitted ref) w in
  (set_refusals (update_refusal (ca_repo cand) (ca_pr cand) ref (lo_refusals s)) s, w).

(** The pointer is claimed: leave the claim alone, or supersede it. [false]
    drops the candidate. *)
Definition supersede_claim (claims : list Attempt) (cand : candidate) (s : Locals) (w : W)
    : bool * candidate * Locals * W :=
  if negb (bool_decide (ca_pointer cand ∈ lo_liveOn s)) then (true, cand, s, w)
  else if negb (ca_request cand) then (false, cand, s, w)
  else
    match findClaim claims (ca_pointer cand) with
    | None => (true, cand, s, w)
    | Some c =>
        let r := review_of (at_Status c) in
        let '(stop, cand, w) :=
          if decide (rv_HeadSHA r = candSha cand) then
            let '(human, cand, w) := humanOverride cand label_of w in
            (negb human || (rv_DeadDispatches r =? 0), cand, w)
          else (false, cand, w) in
        if stop : bool then (false, cand, s, w)
        else match ReleaseClaim namespace_of (om_Name (at_Meta c)) ReleaseReasonSuperseded w with
             | (Err _, w) => (false, cand, s, w)
             | (Ok _, w) =>
                 let s := drop_liveOn (ca_pointer cand) s in
                 let s := match rv_DispatchedAt r with
                          | Some _ => set_free (lo_free s + 1) (set_liveDispatched (lo_liveDispatched s - 1) s)
                          | None => s
                          end in
                 (true, cand, s, w)
             end
    end.

Definition cand_params (cand : candidate) : Params :=
  {| pa_Repo := ca_repo cand; pa_PR := ca_pr cand; pa_Label := label_of;
     pa_Horizon := HorizonDuration (Some rr); pa_Now := now; pa_ArmedAt := 0; pa_ArmedSha := "";
     pa_WakeSHA := candSha cand; pa_DispatchedAt := 0;
     pa_DispatchTimeout := DispatchTimeoutDuration (Some rr); pa_DisarmHint := false |}.

Definition arm (cand : candidate) (sha : string) (human : bool) : M W Error Attempt :=
  ArmClaim label_error url_path owner_error (gp_Scheme deps) wf (ca_pointer cand) sha label_of human.

(** The arm failed. *)
Definition arm_failed (cand : candidate) (e : Error) (res : Result) (s : Locals) (w : W) : Locals * W :=
  if isIntentionalStop e then standDown (ca_repo cand) (ca_pr cand) (error_text kube_text e) s w
  else (set_last (re_Decision res) (ee_Reason (re_Eval res)) s, w).

Definition accept (cand : candidate) (res : Result) (s : Locals) (w : W) : Locals * W :=
  let sha := envelope_sha res in
  match arm cand sha (human_arm cand (re_LabelPresent res)) w with
  | (Err e, w) => arm_failed cand e res s w
  | (Ok a, w) =>
      let s := add_out {| gd_Envelope := ee_Envelope (re_Eval res); gd_Attempt := om_Name (at_Meta a) |} s in
      let s := set_free (lo_free s - 1) (add_newlyArmed (ca_pointer cand) sha s) in
      (set_last (re_Decision res) (ee_Reason (re_Eval res)) s, emit_result res (ca_repo cand) (ca_pr cand) w)
  end.

Definition queue (cand : candidate) (res : Result) (s : Locals) (w : W) : Locals * W :=
  let human := human_arm cand (re_LabelPresent res) in
  let done s w := (set_last (re_Decision res) (ee_Reason (re_Eval res)) s,
                   emit_result res (ca_repo cand) (ca_pr cand) w) in
  if negb (re_LabelPresent res) && negb human then done s w
  else
    let sha := if decide (re_NewArmedSha res = "") then candSha cand else re_NewArmedSha res in
    match arm cand sha human w with
    | (Err e, w) => arm_failed cand e res s w
    | (Ok _, w) => done (add_newlyArmed (ca_pointer cand) sha s) w
    end.

Definition refusal_of (cand : candidate) (env : Envelope) (reason : string) : ReviewRefusal :=
  {| rf_Repo := ca_repo cand; rf_PR := ca_pr cand; rf_HeadSHA := en_HeadSHA env; rf_Reason := reason;
     rf_At := Some now; rf_VerdictURL := en_VerdictURL env; rf_Emitted := true; rf_HostNotified := false |}.

Definition refuse (cand : candidate) (res : Result) (s : Locals) (w : W) : Locals * W :=
  let '(s, w) :=
    match ee_Envelope (re_Eval res) with
    | Some env =>
        if decide (ee_Code (re_Eval res) = CodeVerdictStanding) then
          let s := set_refusals (RecordReviewRefusal (lo_refusals s)
                                   (refusal_of cand env (ee_Reason (re_Eval res)))) s in
          let '(s, w) := convergeConsume (Some env) s w in
          if lo_panicked s then (s, w)
          else match ReviewRefusalFor (lo_refusals s) (ca_repo cand) (ca_pr cand) with
               | Some fresh =>
                   let '(fresh, w) := notifyRefusalHost fresh w in
                   (set_refusals (update_refusal (ca_repo cand) (ca_pr cand) fresh (lo_refusals s)) s, w)
               | None => (s, w)
               end
        else (s, w)
    | None => (s, w)
    end in
  if lo_panicked s then (s, w)
  else (set_last (re_Decision res) (ee_Reason (re_Eval res)) s, emit_result res (ca_repo cand) (ca_pr cand) w).

Fixpoint drain (claims : list Attempt) (cands : list candidate) (s : Locals) (w : W) : Locals * W :=
  match cands with
  | [] => (s, w)
  | cand :: cands =>
      if lo_panicked s then (s, w)
      else
        let '(ref, cand, w) := memo_refuses cand s w in
        match ref with
        | Some ref => let '(s, w) := memo_skip cand ref s w in drain claims cands s w
        | None =>
            let '(go, cand, s, w) := supersede_claim claims cand s w in
            if negb go then drain claims cands s w
            else if lo_free s <=? 0 then (set_capacityFull true s, w)
            else
              let '(res, w) := Evaluate kc_now (cand_params cand) w in
              let '(s, w) :=
                if decide (re_Decision res = DecisionProceed) then accept cand res s w
                else if decide (re_Decision res = DecisionWaiting) then queue cand res s w
                else refuse cand res s w in
              drain claims cands s w
        end
  end.

(** ** Cancel on supersede *)

(** The Job is the controller-owned child of the attempt it names. *)
Definition owned_by (j : Job) (a : Attempt) : bool :=
  match jb_Controller j with
  | Some o => bool_decide (ow_Kind o = "Attempt") && bool_decide (ow_UID o = om_UID (at_Meta a))
  | None => false
  end.

Definition cancelled (a : Attempt) : option ReviewClaimStatus :=
  match st_Review (at_Status a) with
  | Some r => if rv_Released r && IsCancellationRelease (rv_ReleaseReason r) then Some r else None
  | None => None
  end.

Definition cancel_payload (s : Locals) (j : Job) (r : ReviewClaimStatus) : Payload :=
  [("reason", VString (rv_ReleaseReason r)); ("pr", VString (rv_PR r));
   ("repo", VString (match parsePRPointer (rv_PR r) with Ok (repo, _) => repo | Err _ => "" end));
   ("job", VString (jb_Name j)); ("headSha", VString (rv_HeadSHA r));
   ("successorSha", VString (default "" (lo_newlyArmed s !! rv_PR r)))].

Definition cancel_job (s : Locals) (j : Job) (w : W) : W :=
  let name := default "" (jb_Labels j !! AttemptLabel) in
  if decide (name = "") then w
  else match kc_get (namespace_of, name) w with
       | (Err _, w) => w
       | (Ok a, w) =>
           match cancelled a with
           | None => w
           | Some r =>
               if negb (owned_by j a) then w
               else match DeleteJob namespace_of (jb_Name j) w with
                    | (Err e, w) =>
                        if negb (IsNotFound e) then w
                        else emit KindGateCancel (cancel_payload s j r)
                               (FinalizeCancelledClaim namespace_of name (rv_ReleaseReason r) w).2
                    | (Ok _, w) =>
                        emit KindGateCancel (cancel_payload s j r)
                          (FinalizeCancelledClaim namespace_of name (rv_ReleaseReason r) w).2
                    end
           end
       end.

Fixpoint cancel_loop (s : Locals) (jobs : list Job) (w : W) : W :=
  match jobs with
  | [] => w
  | j :: jobs => match gw_ctx_err w with
                 | Some _ => w
                 | None => cancel_loop s jobs (cancel_job s j w)
                 end
  end.

Definition cancel_pass (s : Locals) (w : W) : Locals * W :=
  if gp_DisableCancelOnSupersede deps then (s, w)
  else match gw_ctx_err w with
       | Some _ => (s, w)
       | None =>
           let '(r, s, w) := activeJobs s w in
           match r with
           | Err _ => (s, w)
           | Ok jobs => (s, cancel_loop s (filter (λ j, job_live j = true) jobs) w)
           end
       end.

(** ** D. Aggregates *)

Definition headline (s : Locals) (w : W) : Locals :=
  if lo_held s then s
  else match gw_ctx_err w with
       | Some e => set_last DecisionWaiting ("sweep aborted before completion: " +:+ e) s
       | None =>
           if lo_capacityFull s
           then set_last DecisionWaiting
                  ("capacity full (live=" +:+ pretty (lo_liveDispatched s) +:+ "/cap="
                   +:+ pretty (EffectiveMaxConcurrent (Some rr) (gp_FleetMaxConcurrent deps))
                   +:+ ") — labeled PRs queue for the next sweep") s
           else s
       end.

Definition aggregates (s : Locals) (w : W) : Locals * W :=
  let abortAt := match gw_ctx_err w with Some _ => Some (kc_now w) | None => None end in
  let s := headline s w in
  let status := {| ry_LiveClaims := lo_liveDispatched s;
                   ry_Capacity := EffectiveMaxConcurrent (Some rr) (gp_FleetMaxConcurrent deps);
                   ry_LastDecision := lo_decision s; ry_LastReason := lo_reason s;
                   ry_LastSweepAbortAt := abortAt;
                   ry_LastWake := wakeRecord (gp_Wake deps) liveAgg;
                   ry_Refusals := lo_refusals s |} in
  (s, (gw_PatchStatus (om_Name (wk_Meta wf)) (λ _, Some status) w).2).
End sweep.

(** ** The whole sweep *)

Inductive GateOutcome : Type :=
| GateDone (out : list GateDispatch)
| GateError (e : Error)
| GatePanic.

Section gate.
Context {W : Type} `{KubeClient W} `{RetryOnConflict} `{ReviewAPI W} `{JobClient W} `{GateWorld W}.
Context (parse_json : string → option json) (kube_text : KErr → string).
Context (label_error url_path : string → option string) (owner_error : Workflow → string → option string).

(** From the second list on: drain, cancel, record. *)
Definition fill (deps : GateDeps) (wf : Workflow) (rr : ReviewReadySpec) (wakeOnly : bool) (now : Z)
    (agg : option ReviewReadyStatus) (claims : list Attempt) (s : Locals) (w : W) : GateOutcome * Locals * W :=
  let s := recount deps rr claims s in
  let '(cands, s, w) := candidates parse_json deps wf rr wakeOnly s w in
  let '(s, w) := drain kube_text label_error url_path owner_error deps wf rr now agg claims cands s w in
  if lo_panicked s then (GatePanic, s, w)
  else
    let '(s, w) := cancel_pass deps wf s w in
    let '(s, w) := aggregates deps wf rr agg s w in
    (GateDone (lo_out s), s, w).

(** The passes over the claims listed first. *)
Definition settle (deps : GateDeps) (wf : Workflow) (rr : ReviewReadySpec) (now : Z)
    (agg : option ReviewReadyStatus) (claims : list Attempt) (s : Locals) (w : W) : Locals * W :=
  let '(s, w) := claims_pass parse_json deps wf rr now agg claims s w in
  let '(s, w) := death_pass wf claims s w in
  stranded_pass wf agg claims s w.

Definition sweep (deps : GateDeps) (wf : Workflow) (wakeOnly : bool) (w : W) : GateOutcome * Locals * W :=
  match wf_ReviewReady (wk_Spec wf) with
  | None => (GateDone [], lo_start [], w)
  | Some rr =>
      let now := kc_now w in
      let '(st, w) := gw_GetStatus (om_Name (wk_Meta wf)) w in
      let agg := match st with Ok a => a | Err _ => None end in
      let s := lo_start (match agg with Some a => ry_Refusals a | None => [] end) in
      match LiveReviewClaims label_error wf w with
      | (Err e, w) => (GateError (EWrap "list claims" e), s, w)
      | (Ok claims, w) =>
          let '(s, w) := settle deps wf rr now agg claims s w in
          match LiveReviewClaims label_error wf w with
          | (Err e, w) => (GateError (EWrap "re-list claims" e), s, w)
          | (Ok claims, w) => fill deps wf rr wakeOnly now agg claims s w
          end
      end
  end.

Definition runGate (deps : GateDeps) (wf : Workflow) (wakeOnly : bool) (w : W) : GateOutcome * W :=
  let '(o, _, w) := sweep deps wf wakeOnly w in (o, w).

Definition RunReviewGateSweep (deps : GateDeps) (wf : Workflow) : W → GateOutcome * W := runGate deps wf false.
Definition RunReviewGateWake (deps : GateDeps) (wf : Workflow) : W → GateOutcome * W := runGate deps wf true.
End gate.
