(* ===== verification/SweepModel.v ===== *)
(** * A fleet on which the sweep runs

    The concrete cluster, the concrete forge, a list of Jobs, the gate's status
    and its timeline in one world, with the instances of every interface the
    sweep uses: the sweep's theorems run on it, and its examples do. *)

From S2P Require Import Prelude GoStrings GoTime Json Api ReviewReady AttemptName Template Kube AttemptStore ReviewClaim Review ReviewRest ReviewEval Gate Jobs Sweep.

Record Fleet := {
  fl_cluster : Cluster;
  fl_forge : Forge;
  fl_jobs : list Job;
  fl_deleted : list string;
  fl_status : option ReviewReadyStatus;
  fl_timeline : list string;
  fl_ctx : option string;
  fl_specs : gmap Key Workflow;
}.

Definition set_cluster (c : Cluster) (f : Fleet) : Fleet :=
  {| fl_cluster := c; fl_forge := fl_forge f; fl_jobs := fl_jobs f; fl_deleted := fl_deleted f;
     fl_status := fl_status f; fl_timeline := fl_timeline f; fl_ctx := fl_ctx f; fl_specs := fl_specs f |}.

Definition set_forge (g : Forge) (f : Fleet) : Fleet :=
  {| fl_cluster := fl_cluster f; fl_forge := g; fl_jobs := fl_jobs f; fl_deleted := fl_deleted f;
     fl_status := fl_status f; fl_timeline := fl_timeline f; fl_ctx := fl_ctx f; fl_specs := fl_specs f |}.

Definition set_fleet_jobs (l : list Job) (deleted : list string) (f : Fleet) : Fleet :=
  {| fl_cluster := fl_cluster f; fl_forge := fl_forge f; fl_jobs := l; fl_deleted := deleted;
     fl_status := fl_status f; fl_timeline := fl_timeline f; fl_ctx := fl_ctx f; fl_specs := fl_specs f |}.

Definition set_gate (st : option ReviewReadyStatus) (tl : list string) (f : Fleet) : Fleet :=
  {| fl_cluster := fl_cluster f; fl_forge := fl_forge f; fl_jobs := fl_jobs f; fl_deleted := fl_deleted f;
     fl_status := st; fl_timeline := tl; fl_ctx := fl_ctx f; fl_specs := fl_specs f |}.

(** An operation of a part, as one of the whole. *)
Definition on_cluster {A} (m : Cluster → A * Cluster) (f : Fleet) : A * Fleet :=
  let '(a, c) := m (fl_cluster f) in (a, set_cluster c f).
Definition on_forge {A} (m : Forge → A * Forge) (f : Fleet) : A * Fleet :=
  let '(a, g) := m (fl_forge f) in (a, set_forge g f).

#[export] Instance fleet_client : KubeClient Fleet := {|
  kc_now f := kc_now (fl_cluster f);
  kc_get k := on_cluster (kc_get k);
  kc_create a := on_cluster (kc_create a);
  kc_delete k := on_cluster (kc_delete k);
  kc_list ns sel := on_cluster (kc_list ns sel);
  kc_patch_status base st := on_cluster (kc_patch_status base st);
  kc_patch_labels base ls := on_cluster (kc_patch_labels base ls);
|}.

#[export] Instance fleet_api : ReviewAPI Fleet := {|
  GetPullRequest repo n := on_forge (GetPullRequest repo n);
  ListLabeledOpenPulls repo label := on_forge (ListLabeledOpenPulls repo label);
  RequiredContexts repo branch := on_forge (RequiredContexts repo branch);
  ContextStates repo sha := on_forge (ContextStates repo sha);
  ListComments repo n limit := on_forge (ListComments repo n limit);
  ListCommentsAll repo n := on_forge (ListCommentsAll repo n);
  PostComment repo n body := on_forge (PostComment repo n body);
  DeleteLabel repo n label := on_forge (DeleteLabel repo n label);
  PostCommitStatus repo sha state ctx desc := on_forge (PostCommitStatus repo sha state ctx desc);
  ListReviewThreads repo n := on_forge (ListReviewThreads repo n);
|}.

(** The server names a Job that only carries a prefix. *)
Definition server_name (j : Job) (f : Fleet) : string :=
  if decide (jb_Name j = "") then jb_GenerateName j +:+ pretty (length (fl_jobs f)) else jb_Name j.
Definition name_job (name : string) (j : Job) : Job :=
  {| jb_Name := name; jb_GenerateName := jb_GenerateName j; jb_Namespace := jb_Namespace j; jb_Labels := jb_Labels j;
     jb_Annotations := jb_Annotations j; jb_Controller := jb_Controller j;
     jb_DeletionTimestamp := jb_DeletionTimestamp j; jb_CompletionTime := jb_CompletionTime j;
     jb_Conditions := jb_Conditions j; jb_Spec := jb_Spec j |}.

#[export] Instance fleet_jobs : JobClient Fleet := {|
  jc_list ns sel f := (Ok (filter (λ j, jb_Namespace j = ns ∧ sel (jb_Labels j) = true) (fl_jobs f)), f);
  jc_create j f := (Ok (server_name j f), set_fleet_jobs (fl_jobs f ++ [name_job (server_name j f) j]) (fl_deleted f) f);
  jc_delete k f := (Ok tt, set_fleet_jobs (filter (λ j, jb_Name j ≠ k.2) (fl_jobs f)) (fl_deleted f ++ [k.2]) f);
|}.

#[export] Instance fleet_gate : GateWorld Fleet := {|
  gw_ctx_err := fl_ctx;
  gw_GetStatus _ f := (Ok (fl_status f), f);
  gw_PatchStatus _ g f := (Ok tt, set_gate (g (fl_status f)) (fl_timeline f) f);
  gw_Emit kind _ f := (Ok tt, set_gate (fl_status f) (fl_timeline f ++ [kind]) f);
|}.

(** ** A workflow with a gate *)

Definition gate_spec (cap : Z) : ReviewReadySpec :=
  {| rs_Label := ""; rs_Horizon := ""; rs_DispatchTimeout := ""; rs_MaxConcurrent := cap; rs_RunBound := "" |}.

Definition gated_spec (cap : Z) (s : WorkflowSpec) : WorkflowSpec :=
  {| wf_Source := wf_Source s; wf_TemplateRef := wf_TemplateRef s; wf_Config := wf_Config s;
     wf_WorkspaceRepo := wf_WorkspaceRepo s; wf_Prepare := wf_Prepare s; wf_Agent := wf_Agent s;
     wf_Deploy := wf_Deploy s; wf_Graph := wf_Graph s; wf_ReviewReady := Some (gate_spec cap);
     wf_Bindings := wf_Bindings s; wf_Events := wf_Events s; wf_Cache := wf_Cache s;
     wf_Sessions := wf_Sessions s; wf_Attachments := wf_Attachments s;
     wf_PluginsConfigMapRef := wf_PluginsConfigMapRef s; wf_Scaling := wf_Scaling s;
     wf_Disabled := wf_Disabled s |}.

Definition gated (cap : Z) : Workflow :=
  {| wk_Meta := plain_meta "docs"; wk_Spec := gated_spec cap (plain_spec "{repos}" "") |}.

Definition scope_json (s : string) : option json :=
  if decide (s = "{repos}") then Some (JObj [("repos", JArr [JStr "h/o/n"])]) else None.

Definition no_wake : GateWake := {| gk_PR := ""; gk_Action := ""; gk_Revision := ""; gk_Repo := "" |}.

Definition gate_deps : GateDeps :=
  {| gp_Scheme := false; gp_FleetMaxConcurrent := 2; gp_DisableCancelOnSupersede := false; gp_TL := true;
     gp_Wake := no_wake |}.

Definition run_gate (cap : Z) (f : Fleet) : GateOutcome * Locals * Fleet :=
  sweep scope_json (λ _, "") (λ _, None) (λ _, None) (λ _ _, None) gate_deps (gated cap) false f.

(** Two labelled pull requests, green, without a verdict. *)
Definition pull_n (n : Z) (head : string) : PullRequest :=
  {| pl_Number := n; pl_State := "open"; pl_HeadSHA := head; pl_Base := "main"; pl_Labels := ["needs-review"] |}.

Definition two_pulls : Forge :=
  {| fg_pulls := {[("h/o/n", 7) := pull_n 7 head_a; ("h/o/n", 8) := pull_n 8 head_b]};
     fg_comments := ∅; fg_required := {[("h/o/n", "main") := ["ci"]]};
     fg_states := {[("h/o/n", head_a) := {["ci" := "success"]}; ("h/o/n", head_b) := {["ci" := "success"]}]};
     fg_threads := ∅; fg_posted := [] |}.

Definition gate_name (cap : Z) (sha : string) : string :=
  AttemptName "docs" (Identity (claim_objective (λ _, None) (gated cap) sha)).

Definition gate_claim (pr head : string) (at_ : option Z) : ReviewClaimStatus :=
  {| rv_PR := pr; rv_HeadSHA := head; rv_Label := "needs-review"; rv_ArmedSince := Some (40 * Hour);
     rv_DispatchedAt := at_; rv_DispatchedJob := ""; rv_Released := false;
     rv_ReleaseReason := ""; rv_DeadDispatches := 0; rv_DispatchLostReleases := 0;
     rv_LastDispatchLostAt := None; rv_DismissedAt := None; rv_HoldNote := ""; rv_HoldCause := "" |}.

Definition gate_attempt (cap : Z) (pr head : string) (at_ : option Z) : Attempt :=
  {| at_Meta := {| om_Name := gate_name cap head; om_Namespace := "ns";
                   om_Labels := {[WorkflowLabel := "docs"; ObjectiveKindLabel := DeriveKind (gated cap)]};
                   om_CreationTimestamp := 40 * Hour; om_ResourceVersion := 1; om_UID := "u" +:+ pr |};
     at_Spec := {| as_Objective := sample_objective head; as_WorkflowRef := "ns/docs";
                   as_Bindings := []; as_Owner := "" |};
     at_Status := set_Review (Some (gate_claim pr head at_)) reconciling |}.

Definition fleet_of (l : list Attempt) (g : Forge) (jobs : list Job) : Fleet :=
  {| fl_cluster := sample_cluster (40 * Hour + Minute) [] l; fl_forge := g; fl_jobs := jobs; fl_deleted := [];
     fl_status := None; fl_timeline := []; fl_ctx := None; fl_specs := ∅ |}.

Definition outs (o : GateOutcome) : option (list (string * option (Z * string))) :=
  match o with
  | GateDone l => Some ((λ d, (gd_Attempt d, (λ e, (en_PR e, en_HeadSHA e)) <$> gd_Envelope d)) <$> l)
  | _ => None
  end.
Definition fresh_fleet : Fleet := fleet_of [] two_pulls [].
Definition queued_fleet (cap : Z) : Fleet :=
  fleet_of [gate_attempt cap "h/o/n#7" head_a None; gate_attempt cap "h/o/n#8" head_b None] two_pulls [].
