(* ===== verification/SweepProps.v ===== *)
(** * Properties of the sweep: what it dispatches, and how much

    Every dispatch a sweep returns is backed by an evaluation that proceeded and
    by a claim at the head it read; what it accepts fits the free slots. *)

From S2P Require Import Prelude GoStrings GoTime Json Api ReviewReady AttemptName Kube AttemptStore ReviewClaim Review ReviewRest ReviewProps ReviewEval Gate Jobs Sweep SweepModel.

(** Take every [let], [if] and [match] of a hypothesis apart. *)
Ltac take_apart H := repeat (split_match H; simplify_eq/=); simplify_eq/=.

(** ** What the passes leave alone *)

(** The accounting of slots and the accepted dispatches. *)
Definition same_slots (s s' : Locals) : Prop :=
  lo_out s' = lo_out s ∧ lo_free s' = lo_free s ∧ lo_liveDispatched s' = lo_liveDispatched s.

#[export] Instance same_slots_preorder : PreOrder same_slots.
Proof. split; [done|]. intros s1 s2 s3 (?&?&?) (?&?&?). by split_and!; etrans. Qed.

Section passes.
Context {W : Type} `{kube : KubeClient W} `{rc : RetryOnConflict} `{api : ReviewAPI W}
  `{jc : JobClient W} `{gw : GateWorld W}.
Context (parse_json : string → option json) (kube_text : KErr → string).
Context (label_error url_path : string → option string) (owner_error : Workflow → string → option string).
Context (deps : GateDeps) (wf : Workflow) (rr : ReviewReadySpec) (now : Z) (liveAgg : option ReviewReadyStatus).

Notation standDown := (standDown deps liveAgg).
Notation queued_claim := (queued_claim parse_json deps wf rr now liveAgg).
Notation dispatched_claim := (dispatched_claim deps wf rr now liveAgg).
Notation claims_pass := (claims_pass parse_json deps wf rr now liveAgg).
Notation claim_params := (claim_params rr now).
Notation cand_params := (cand_params rr now).
Notation arm := (arm label_error url_path owner_error deps wf rr).
Notation accept := (accept kube_text label_error url_path owner_error deps wf rr liveAgg).
Notation queue := (queue kube_text label_error url_path owner_error deps wf rr liveAgg).
Notation refuse := (refuse deps now liveAgg).
Notation drain := (drain kube_text label_error url_path owner_error deps wf rr now liveAgg).

Lemma activeJobs_slots s (w : W) r s' w' : activeJobs wf s w = (r, s', w') → same_slots s s'.
Proof. unfold activeJobs. intros Hr. take_apart Hr; done. Qed.

Lemma standDown_slots repo pr e s (w : W) s' w' : standDown repo pr e s w = (s', w') → same_slots s s'.
Proof. unfold Sweep.standDown. intros [= <- _]. by destruct (lo_held s). Qed.

(** ** Re-dispatches *)

(** A dispatch of a claim that was armed and not dispatched. *)
Definition Redispatched (claims : list Attempt) (d : GateDispatch) : Prop :=
  ∃ c r repo pr w0 res w1, c ∈ claims ∧ st_Review (at_Status c) = Some r ∧ rv_DispatchedAt r = None
    ∧ parsePRPointer (rv_PR r) = Ok (repo, pr)
    ∧ Evaluate kc_now (claim_params c r repo pr 0) w0 = (res, w1) ∧ re_Decision res = DecisionProceed
    ∧ envelope_sha res = rv_HeadSHA r
    ∧ d = {| gd_Envelope := ee_Envelope (re_Eval res); gd_Attempt := om_Name (at_Meta c) |}.

Lemma queued_claim_out c r s (w : W) s' w' :
  st_Review (at_Status c) = Some r → rv_DispatchedAt r = None → queued_claim c r s w = (s', w') →
  lo_out s' = lo_out s ∨ ∃ d, lo_out s' = lo_out s ++ [d] ∧ Redispatched [c] d.
Proof.
  intros Hr Hd. unfold Sweep.queued_claim.
  destruct (parsePRPointer (rv_PR r)) as [[repo pr]|e] eqn:Hp; [|intros [= <- _]; by left].
  destruct (Evaluate kc_now _ w) as [res w1] eqn:He.
  destruct (wake_owns _ _ _ _); [intros [= <- _]; by left|].
  destruct (decide (re_Decision res = DecisionProceed)) as [Hpr|].
  - destruct (decide (envelope_sha res ≠ rv_HeadSHA r)) as [|Hsha]; [intros [= <- _]; by left|].
    destruct (_ && _).
    + intros [= <- _]. left. unfold add_keepArmed, add_released. simpl. by destruct (lo_held s).
    + intros [= <- _]. right. eexists. split; [done|]. apply dec_stable in Hsha.
      exists c, r, repo, pr, w, res, w1. split_and!; try done. set_solver.
  - destruct (decide (_ = DecisionStanddown)); intros [= <- _]; left; [by case_decide|done].
Qed.

Lemma dispatched_claim_out c r t s (w : W) s' w' :
  dispatched_claim c r t s w = (s', w') → lo_out s' = lo_out s.
Proof.
  unfold Sweep.dispatched_claim. destruct (parsePRPointer _) as [[repo pr]|e]; [|by intros [= <- _]].
  destruct (Evaluate kc_now _ w) as [res w1]. destruct (decide _); [by intros [= <- _]|].
  destruct (if bool_decide _ then _ else _) as [[alive s1] w2] eqn:Ha.
  assert (lo_out s1 = lo_out s) as Hs.
  { destruct (bool_decide _); [|by injection Ha as _ <- _].
    destruct (activeJobs wf _ w1) as [[jobs s2] w3] eqn:Hj. injection Ha as _ <- _.
    apply activeJobs_slots in Hj as (Hj&_). by rewrite Hj. }
  destruct (_ && alive); intros [= <- _]; [destruct (decide (lo_decision _ ≠ _))|]; exact Hs.
Qed.

Lemma Redispatched_mono claims claims' d :
  claims ⊆ claims' → Redispatched claims d → Redispatched claims' d.
Proof. intros Hs (c&Hd). exists c. destruct Hd as (r&repo&pr&w0&res&w1&?&?). exists r, repo, pr, w0, res, w1. set_solver. Qed.

Definition queued (c : Attempt) : bool :=
  match st_Review (at_Status c) with Some r => bool_decide (rv_DispatchedAt r = None) | None => false end.

Lemma claims_pass_out claims s (w : W) s' w' :
  claims_pass claims s w = (s', w') →
  ∃ l, lo_out s' = lo_out s ++ l ∧ Forall (Redispatched claims) l
       ∧ (length l ≤ length (filter (λ c, queued c = true) claims))%nat.
Proof.
  revert s w. induction claims as [|c claims IH]; intros s w; cbn [Sweep.claims_pass].
  { intros [= <- _]. exists []. rewrite app_nil_r. split_and!; [done|constructor|done]. }
  rewrite filter_cons.
  destruct (st_Review (at_Status c)) as [r|] eqn:Hr.
  2: { rewrite decide_False by (unfold queued; by rewrite Hr). intros (l&?&Hf&?)%IH. exists l. split_and!; [done| |done].
       eapply Forall_impl; [exact Hf|]. intros d. apply Redispatched_mono. set_solver. }
  set (s0 := set_liveOn _ s).
  destruct (match rv_DispatchedAt r with Some _ => _ | None => _ end) as [s1 w1] eqn:Hc.
  intros (l&Hl&Hf0&Hn)%IH.
  assert (Forall (Redispatched (c :: claims)) l) as Hf.
  { eapply Forall_impl; [exact Hf0|]. intros d. apply Redispatched_mono. set_solver. }
  assert (lo_out s0 = lo_out s) as Hs0 by done.
  destruct (rv_DispatchedAt r) as [t|] eqn:Hd.
  - rewrite decide_False by (unfold queued; rewrite Hr, Hd; by rewrite bool_decide_eq_false_2).
    apply dispatched_claim_out in Hc. exists l. rewrite Hl, Hc. done.
  - rewrite decide_True by (unfold queued; rewrite Hr, Hd; by rewrite bool_decide_eq_true_2). csimpl.
    apply queued_claim_out in Hc as [Hc|(d&Hc&Hd')]; [| |done|done].
    + exists l. rewrite Hl, Hc. split_and!; [done|done|lia].
    + exists (d :: l). rewrite Hl, Hc, <- app_assoc. split_and!; [done| |simpl; lia].
      constructor; [|done]. eapply Redispatched_mono; [|exact Hd']. set_solver.
Qed.

Lemma settle_out claims s (w : W) s' w' :
  settle parse_json deps wf rr now liveAgg claims s w = (s', w') →
  ∃ l, lo_out s' = lo_out s ++ l ∧ Forall (Redispatched claims) l
       ∧ (length l ≤ length (filter (λ c, queued c = true) claims))%nat.
Proof.
  unfold settle. destruct (claims_pass claims s w) as [s1 w1] eqn:Hc.
  apply claims_pass_out in Hc as (l&Hl&?). intros Hr. exists l. split; [|done].
  destruct (death_pass wf claims s1 w1) as [s2 w2] eqn:Hd.
  assert (lo_out s2 = lo_out s1) as H2.
  { revert Hd. unfold death_pass. destruct (existsb _ _); [|by intros [= <- _]].
    destruct (activeJobs wf s1 w1) as [[r s3] w3] eqn:Hj. apply activeJobs_slots in Hj as (<-&_).
    destruct r; by intros [= <- _]. }
  revert Hr. unfold stranded_pass. destruct (gw_ctx_err w2); [intros [= <- _]; congruence|].
  destruct (activeJobs wf s2 w2) as [[r s3] w3] eqn:Hj. apply activeJobs_slots in Hj as (H3&_).
  destruct r; intros [= <- _]; congruence.
Qed.

(** ** Acceptances *)

(** A dispatch of a candidate whose claim was armed at the head read. *)
Definition Accepted (d : GateDispatch) : Prop :=
  ∃ cand w0 res w1 human a w2,
    Evaluate kc_now (cand_params cand) w0 = (res, w1) ∧ re_Decision res = DecisionProceed
    ∧ arm cand (envelope_sha res) human w1 = (Ok a, w2)
    ∧ d = {| gd_Envelope := ee_Envelope (re_Eval res); gd_Attempt := om_Name (at_Meta a) |}.

(** [l] was accepted: it took as many slots, and only free ones. *)
Definition took (l : list GateDispatch) (s s' : Locals) : Prop :=
  lo_out s' = lo_out s ++ l ∧ Forall Accepted l
  ∧ lo_free s' + lo_liveDispatched s' + Z.of_nat (length l) = lo_free s + lo_liveDispatched s
  ∧ (l = [] ∨ 0 ≤ lo_free s') ∧ lo_free s - Z.of_nat (length l) ≤ lo_free s'.

Lemma took_same s s' : same_slots s s' → took [] s s'.
Proof.
  intros (?&?&?). unfold took. rewrite app_nil_r. split_and!; [done|constructor|simpl; lia|by left|simpl; lia].
Qed.

Lemma took_trans l1 l2 s1 s2 s3 : took l1 s1 s2 → took l2 s2 s3 → took (l1 ++ l2) s1 s3.
Proof.
  intros (Ho1&?&?&[->|?]&?) (Ho2&?&?&Hl2&?); unfold took; rewrite Ho2, Ho1, length_app, <- app_assoc;
    (split_and!; [done|by apply Forall_app|lia| |lia]).
  - destruct Hl2 as [->|?]; [by left|by right].
  - right. destruct Hl2 as [->|?]; [simpl in *; lia|lia].
Qed.

Lemma memo_skip_took cand ref s (w : W) s' w' :
  memo_skip deps liveAgg cand ref s w = (s', w') → same_slots s s'.
Proof.
  unfold memo_skip. destruct (notifyRefusalHost _ _). by intros [= <- _].
Qed.

Lemma supersede_claim_took claims cand s (w : W) go cand' s' w' :
  supersede_claim wf rr claims cand s w = (go, cand', s', w') → took [] s s'.
Proof.
  assert (∀ s, took [] s s) as Hrefl by (intros; by apply took_same).
  unfold supersede_claim. destruct (negb _); [intros [= _ _ <- _]; apply Hrefl|].
  destruct (negb _); [intros [= _ _ <- _]; apply Hrefl|].
  destruct (findClaim _ _) as [c|]; [|intros [= _ _ <- _]; apply Hrefl].
  destruct (if decide _ then _ else _) as [[[|] c1] w1]; [intros [= _ _ <- _]; apply Hrefl|].
  destruct (ReleaseClaim _ _ _ w1) as [[[]|e] w2]; [|intros [= _ _ <- _]; apply Hrefl].
  intros [= _ _ <- _]. destruct (rv_DispatchedAt _); [|by apply took_same]. unfold took. simpl. rewrite app_nil_r.
  split_and!; [done|constructor|lia|by left|lia].
Qed.

Lemma arm_failed_slots cand e res s (w : W) s' w' :
  arm_failed kube_text deps liveAgg cand e res s w = (s', w') → same_slots s s'.
Proof.
  unfold arm_failed. destruct (isIntentionalStop e); [apply standDown_slots|by intros [= <- _]].
Qed.

Lemma accept_took cand res s (w0 w : W) s' w' :
  Evaluate kc_now (cand_params cand) w0 = (res, w) → re_Decision res = DecisionProceed → 0 < lo_free s →
  accept cand res s w = (s', w') → ∃ l, took l s s'.
Proof.
  intros He Hd Hf. unfold Sweep.accept.
  destruct (Sweep.arm _ _ _ _ _ _ _ _ _ w) as [[a|e] w1] eqn:Ha.
  - intros [= <- _]. eexists [_]. unfold took. simpl.
    split_and!; [done| |lia|right; lia|lia]. constructor; [|constructor].
    by exists cand, w0, res, w, (human_arm cand (re_LabelPresent res)), a, w1.
  - intros Hr. apply arm_failed_slots in Hr. exists []. by apply took_same.
Qed.

Lemma queue_slots cand res s (w : W) s' w' : queue cand res s w = (s', w') → same_slots s s'.
Proof.
  unfold Sweep.queue. destruct (_ && _); [by intros [= <- _]|].
  destruct (Sweep.arm _ _ _ _ _ _ _ _ _ w) as [[a|e] w1]; [by intros [= <- _]|apply arm_failed_slots].
Qed.

Lemma convergeConsume_slots env s (w : W) s' w' : convergeConsume env s w = (s', w') → same_slots s s'.
Proof.
  unfold convergeConsume. intros Hr. destruct env as [env|]; [|by simplify_eq].
  destruct (_ || _); [by simplify_eq|]. destruct (bool_decide _); [by simplify_eq|].
  destruct (DeleteLabel _ _ _ w) as [r w1]. destruct (_ && _); [by simplify_eq|].
  destruct (ListReviewThreads _ _ w1) as [[ts|e] w2]; [|by simplify_eq].
  destruct (merge_status _ _). destruct (PostCommitStatus _ _ _ _ _ w2) as [[|] w3]; simplify_eq; [|done].
  by destruct (_ <? _).
Qed.

Lemma refuse_slots cand res s (w : W) s' w' : refuse cand res s w = (s', w') → same_slots s s'.
Proof.
  unfold Sweep.refuse. destruct (match ee_Envelope _ with Some _ => _ | None => _ end) as [s1 w1] eqn:Hb.
  assert (same_slots s s1) as Hs.
  { destruct (ee_Envelope (re_Eval res)) as [env|]; [|by simplify_eq].
    destruct (decide _); [|by simplify_eq].
    destruct (convergeConsume _ _ w) as [s2 w2] eqn:Hc. apply convergeConsume_slots in Hc.
    destruct (lo_panicked s2); [by simplify_eq|].
    destruct (ReviewRefusalFor _ _ _); [|by simplify_eq].
    destruct (notifyRefusalHost _ w2). by simplify_eq. }
  destruct (lo_panicked s1); by intros [= <- _].
Qed.

Lemma drain_took claims cands s (w : W) s' w' :
  drain claims cands s w = (s', w') → ∃ l, took l s s'.
Proof.
  revert s w. induction cands as [|cand cands IH]; intros s w; cbn [Sweep.drain].
  { intros [= <- _]. exists []. by apply took_same. }
  destruct (lo_panicked s); [intros [= <- _]; exists []; by apply took_same|].
  destruct (memo_refuses rr cand s w) as [[[ref|] cand1] w1].
  { destruct (memo_skip _ _ _ _ s w1) as [s1 w2] eqn:Hm. apply memo_skip_took, took_same in Hm.
    intros (l&Hl)%IH. exists l. by apply (took_trans [] l _ s1). }
  destruct (supersede_claim wf rr claims cand1 s w1) as [[[go cand2] s1] w2] eqn:Hs.
  apply supersede_claim_took in Hs. destruct go; simpl.
  2: { intros (l&Hl)%IH. exists l. by apply (took_trans [] l _ s1). }
  destruct (lo_free s1 <=? 0) eqn:Hf.
  { intros [= <- _]. exists []. eapply (took_trans [] []); [exact Hs|]. by apply took_same. }
  apply Z.leb_gt in Hf. destruct (Evaluate kc_now _ w2) as [res w3] eqn:He.
  destruct (if decide _ then _ else _) as [s2 w4] eqn:Hb. intros (l&Hl)%IH.
  assert (∃ l1, took l1 s1 s2) as (l1&Hl1).
  { destruct (decide (re_Decision res = DecisionProceed)); [by eapply accept_took|].
    exists []. apply took_same. destruct (decide _); [by eapply queue_slots|by eapply refuse_slots]. }
  exists (l1 ++ l). eapply (took_trans [] (l1 ++ l)); [exact Hs|]. by eapply took_trans.
Qed.

Lemma candidates_slots wakeOnly s (w : W) cands s' w' :
  candidates parse_json deps wf rr wakeOnly s w = (cands, s', w') → same_slots s s'.
Proof.
  unfold candidates. destruct wakeOnly; [by intros [= _ <- _]|].
  destruct (lo_free s <=? 0); [by intros [= _ <- _]|].
  generalize (match the_wake parse_json deps wf with Some c => [c] | None => [] end) as cs.
  revert s w. induction (scopeRepos parse_json wf) as [|repo repos IH]; intros s w cs; cbn [scan].
  { by intros [= _ <- _]. }
  destruct (ListLabeledOpenPulls _ _ w) as [[pulls|e] w1]; intros Hr; apply IH in Hr; [done|].
  etrans; [|exact Hr]. by destruct (_ && _).
Qed.

Lemma headline_slots s (w : W) : same_slots s (headline deps rr s w).
Proof. unfold headline. destruct (lo_held s); [done|]. destruct (gw_ctx_err w); [done|]. by destruct (lo_capacityFull s). Qed.

Lemma fill_took wakeOnly claims s (w : W) out s' w' :
  fill parse_json kube_text label_error url_path owner_error deps wf rr wakeOnly now liveAgg claims s w
    = (GateDone out, s', w') →
  ∃ l, out = lo_out s ++ l ∧ Forall Accepted l
    ∧ (l = [] ∨ lo_liveDispatched s' + Z.of_nat (length l)
                ≤ EffectiveMaxConcurrent (Some rr) (gp_FleetMaxConcurrent deps)).
Proof.
  unfold fill.
  destruct (candidates _ _ _ _ _ _ w) as [[cands s1] w1] eqn:Hc. apply candidates_slots in Hc.
  destruct (Sweep.drain _ _ _ _ _ _ _ _ _ claims cands s1 w1) as [s2 w2] eqn:Hd.
  apply drain_took in Hd as (l&Hout&Hf&Hsum&Hfree&_).
  destruct (lo_panicked s2); [done|].
  destruct (cancel_pass deps wf s2 w2) as [s3 w3] eqn:Hcan.
  assert (same_slots s2 s3) as (H3o&H3f&H3l).
  { revert Hcan. unfold cancel_pass. destruct (gp_DisableCancelOnSupersede deps); [by intros [= <- _]|].
    destruct (gw_ctx_err w2); [by intros [= <- _]|].
    destruct (activeJobs wf s2 w2) as [[r s4] w4] eqn:Hj. apply activeJobs_slots in Hj.
    destruct r; by intros [= <- _]. }
  unfold aggregates. pose proof (headline_slots s3 w3) as (H4o&H4f&H4l).
  intros [= <- <- <-]. destruct Hc as (H1o&H1f&H1l). exists l.
  rewrite H4o, H3o, Hout, H1o. simpl. split; [done|]. split; [done|].
  destruct Hfree as [->|Hfree]; [by left|right]. rewrite H4l, H3l.
  rewrite H1f, H1l in Hsum. simpl in Hsum. lia.
Qed.
End passes.

(** ** The whole sweep *)

Section whole.
Context {W : Type} `{kube : KubeClient W} `{rc : RetryOnConflict} `{api : ReviewAPI W}
  `{jc : JobClient W} `{gw : GateWorld W}.
Context (parse_json : string → option json) (kube_text : KErr → string).
Context (label_error url_path : string → option string) (owner_error : Workflow → string → option string).

Notation sweep := (sweep parse_json kube_text label_error url_path owner_error).

(** The readings of one evaluation that let the review of [env] start. *)
Definition ReadyFor (env : Envelope) : Prop :=
  ∃ pr (w0 w1 : W) comments w2 w3 required w4 states w5,
    GetPullRequest (en_Repo env) (en_PR env) w0 = (Ok pr, w1)
    ∧ pl_State pr = "open" ∧ en_Label env ∈ pl_Labels pr ∧ en_HeadSHA env = pl_HeadSHA pr
    ∧ ListCommentsAll (en_Repo env) (en_PR env) w2 = (Ok (comments, false), w3)
    ∧ standingVerdictAt comments (en_HeadSHA env) = None
    ∧ RequiredContexts (en_Repo env) (en_Base env) w3 = (Ok required, w4)
    ∧ ContextStates (en_Repo env) (en_HeadSHA env) w4 = (Ok states, w5)
    ∧ Forall (in_state states green_states) (effective_contexts required states).

Lemma proceeds_ready p (w : W) res w' :
  Evaluate kc_now p w = (res, w') → re_Decision res = DecisionProceed →
  ∃ env, ee_Envelope (re_Eval res) = Some env ∧ ReadyFor env
    ∧ en_Repo env = pa_Repo p ∧ en_PR env = pa_PR p ∧ en_Label env = pa_Label p
    ∧ en_HeadSHA env = envelope_sha res.
Proof.
  intros He Hd.
  destruct (proj1 (Evaluate_proceeds kc_now p w res w') (conj He Hd))
    as (_&pr&w1&cs&w2&req&w3&sts&Hp&(Ho&Hl&_)&Hc&Hs&Hr&Hst&Hg&->).
  eexists. split; [reflexivity|]. split_and!; [|done..].
  exists pr, w, w1, cs, w1, w2, req, w3, sts, w'. by split_and!.
Qed.

(** The world the sweep first lists the claims in. *)
Definition listing (wf : Workflow) (w : W) : W := (gw_GetStatus (om_Name (wk_Meta wf)) w).2.

(** What [sweep] is when it returns dispatches. *)
Lemma sweep_done deps wf wakeOnly (w : W) rr out s' w' :
  wf_ReviewReady (wk_Spec wf) = Some rr → sweep deps wf wakeOnly w = (GateDone out, s', w') →
  ∃ now agg s claims w2 claims2 s2 w3 w4,
    LiveReviewClaims label_error wf (listing wf w) = (Ok claims, w2) ∧ lo_out s = []
    ∧ settle parse_json deps wf rr now agg claims s w2 = (s2, w3)
    ∧ LiveReviewClaims label_error wf w3 = (Ok claims2, w4)
    ∧ fill parse_json kube_text label_error url_path owner_error deps wf rr wakeOnly now agg claims2 s2 w4
      = (GateDone out, s', w').
Proof.
  intros Hrr. unfold Sweep.sweep, listing. rewrite Hrr.
  destruct (gw_GetStatus _ w) as [st w1]. simpl.
  destruct (LiveReviewClaims label_error wf w1) as [[claims|e] w2] eqn:Hl; [|done].
  destruct (settle _ _ _ _ _ _ claims _ w2) as [s2 w3] eqn:Hset.
  destruct (LiveReviewClaims label_error wf w3) as [[claims2|e] w4] eqn:Hl2; [|done].
  intros Hf. do 9 eexists. split_and!; [exact eq_refl| |exact Hset|exact Hl2|exact Hf]. done.
Qed.

(** C5. Every review a sweep starts was ready, and is the review of a claim at
    the head that was. For each dispatch returned, one evaluation of this sweep
    read the pull request of the envelope open and labelled at the envelope's
    head, read its whole conversation without a verdict on that head, and read
    every required context green at that head; and the attempt dispatched is
    either one of the claims live when the sweep began, armed at that very head
    and never dispatched, or the attempt that arming a candidate's claim on that
    pull request at that head returned. *)
Theorem sweep_dispatches_ready deps wf wakeOnly (w : W) rr out s' w' :
  wf_ReviewReady (wk_Spec wf) = Some rr → sweep deps wf wakeOnly w = (GateDone out, s', w') →
  ∃ claims w2, LiveReviewClaims label_error wf (listing wf w) = (Ok claims, w2) ∧
  ∀ d, d ∈ out → ∃ env, gd_Envelope d = Some env ∧ ReadyFor env ∧
    ((∃ c r, c ∈ claims ∧ gd_Attempt d = om_Name (at_Meta c) ∧ st_Review (at_Status c) = Some r
        ∧ rv_DispatchedAt r = None ∧ parsePRPointer (rv_PR r) = Ok (en_Repo env, en_PR env)
        ∧ rv_HeadSHA r = en_HeadSHA env)
     ∨ (∃ cand human a w3 w4, ca_repo cand = en_Repo env ∧ ca_pr cand = en_PR env
          ∧ arm label_error url_path owner_error deps wf rr cand (en_HeadSHA env) human w3 = (Ok a, w4)
          ∧ gd_Attempt d = om_Name (at_Meta a))).
Proof.
  intros Hrr Hs.
  destruct (sweep_done deps wf wakeOnly w rr out s' w' Hrr Hs)
    as (now&agg&s&claims&w2&claims2&s2&w3&w4&Hl&Hs0&Hset&_&Hfill).
  exists claims, w2. split; [done|]. apply (settle_out parse_json label_error url_path owner_error) in Hset as (red&Hred&Hfred&_).
  apply fill_took in Hfill as (acc&->&Hfacc&_). rewrite Hred, Hs0, app_nil_l.
  intros d [Hd|Hd]%elem_of_app.
  - rewrite Forall_forall in Hfred.
    destruct (Hfred d Hd) as (c&r&repo&pr&wa&res&wb&Hc&Hr&Hda&Hp&He&Hdec&Hsha&->).
    destruct (proceeds_ready _ _ _ _ He Hdec) as (env&Henv&Hready&Hrepo&Hpr&_&Hh).
    exists env. split; [done|]. split; [done|]. left. exists c, r. simpl in Hrepo, Hpr.
    rewrite Hrepo, Hpr, Hh, Hsha. by split_and!.
  - rewrite Forall_forall in Hfacc.
    destruct (Hfacc d Hd) as (cand&wa&res&wb&human&a&wc&He&Hdec&Ha&->).
    destruct (proceeds_ready _ _ _ _ He Hdec) as (env&Henv&Hready&Hrepo&Hpr&_&Hh).
    exists env. split; [done|]. split; [done|]. right. exists cand, human, a, wb, wc.
    rewrite Hrepo, Hpr, Hh. by split_and!.
Qed.

(** C30. How many reviews a sweep starts. The dispatches returned are those of
    claims queued by earlier sweeps, at most one for each claim that was live
    and not dispatched when the sweep began, followed by those of candidates it
    accepted; and whenever it accepted any, the reviews left in flight together
    with the accepted ones are within the effective capacity. *)
Theorem sweep_capacity deps wf wakeOnly (w : W) rr out s' w' :
  wf_ReviewReady (wk_Spec wf) = Some rr → sweep deps wf wakeOnly w = (GateDone out, s', w') →
  ∃ claims w2 red acc, LiveReviewClaims label_error wf (listing wf w) = (Ok claims, w2)
    ∧ out = red ++ acc
    ∧ (length red ≤ length (filter (λ c, queued c = true) claims))%nat
    ∧ (acc = [] ∨ lo_liveDispatched s' + Z.of_nat (length acc)
                  ≤ EffectiveMaxConcurrent (Some rr) (gp_FleetMaxConcurrent deps)).
Proof.
  intros Hrr Hs.
  destruct (sweep_done deps wf wakeOnly w rr out s' w' Hrr Hs)
    as (now&agg&s&claims&w2&claims2&s2&w3&w4&Hl&Hs0&Hset&_&Hfill).
  apply (settle_out parse_json label_error url_path owner_error) in Hset as (red&Hred&_&Hn). apply fill_took in Hfill as (acc&->&_&Hacc).
  exists claims, w2, red, acc. split_and!; [done| |done|done]. by rewrite Hred, Hs0.
Qed.
End whole.

(** ** Sweeps of a concrete fleet *)

Definition dispatched (cap : Z) (f : Fleet) : option (list (string * option (Z * string))) :=
  outs (run_gate cap f).1.1.

(** One slot and two ready pull requests: the second one queues. *)
Example one_slot_one_review : dispatched 1 fresh_fleet = Some [(gate_name 1 head_a, Some (7, head_a))].
Proof. vm_compute. reflexivity. Qed.

(** One slot and two queued claims, both ready: both are dispatched. The path of
    a claim that is already armed never looks at the free slots. *)
Example queued_claims_exceed_capacity :
  dispatched 1 (queued_fleet 1)
    = Some [(gate_name 1 head_a, Some (7, head_a)); (gate_name 1 head_b, Some (8, head_b))]
  ∧ EffectiveMaxConcurrent (Some (gate_spec 1)) (gp_FleetMaxConcurrent gate_deps) = 1.
Proof. split; vm_compute; reflexivity. Qed.

Lemma sweep_dispatches_ready_witness :
  ∃ out s w' d env, run_gate 1 fresh_fleet = (GateDone out, s, w') ∧ d ∈ out
    ∧ gd_Envelope d = Some env ∧ ReadyFor (W := Fleet) env.
Proof.
  pose proof (sweep_dispatches_ready scope_json (λ _, "") (λ _, None) (λ _, None) (λ _ _, None) gate_deps
    (gated 1) false fresh_fleet (gate_spec 1)) as Hp.
  change (sweep _ _ _ _ _ _ _ _ fresh_fleet) with (run_gate 1 fresh_fleet) in Hp.
  destruct (run_gate 1 fresh_fleet) as [[o s] w'] eqn:Hr.
  assert (outs (run_gate 1 fresh_fleet).1.1 = Some [(gate_name 1 head_a, Some (7, head_a))]) as Hv
    by (vm_compute; reflexivity).
  rewrite Hr in Hv. clear Hr. destruct o as [[|d [|]]| |]; try discriminate Hv.
  destruct (Hp [d] s w' eq_refl eq_refl) as (claims&w2&_&Hd).
  destruct (Hd d (list_elem_of_here d [])) as (env&He&Hready&_).
  exists [d], s, w', d, env. split_and!; [done| |done|done]. apply list_elem_of_here.
Defined.

Lemma sweep_capacity_witness :
  ∃ d s w' red acc, run_gate 1 fresh_fleet = (GateDone [d], s, w') ∧ [d] = red ++ acc ∧ red = []
    ∧ lo_liveDispatched s + Z.of_nat (length acc) ≤ 1.
Proof.
  pose proof (sweep_capacity scope_json (λ _, "") (λ _, None) (λ _, None) (λ _ _, None) gate_deps
    (gated 1) false fresh_fleet (gate_spec 1)) as Hp.
  change (sweep _ _ _ _ _ _ _ _ fresh_fleet) with (run_gate 1 fresh_fleet) in Hp.
  destruct (run_gate 1 fresh_fleet) as [[o s] w'] eqn:Hr.
  assert (outs (run_gate 1 fresh_fleet).1.1 = Some [(gate_name 1 head_a, Some (7, head_a))]) as Hv
    by (vm_compute; reflexivity).
  rewrite Hr in Hv. clear Hr. destruct o as [[|d [|]]| |]; try discriminate Hv.
  destruct (Hp [d] s w' eq_refl eq_refl) as (claims&w2&red&acc&Hl&Hout&Hn&Hc).
  assert (red = []) as ->.
  { apply nil_length_inv, Nat.le_0_r. etrans; [exact Hn|].
    vm_compute in Hl. injection Hl as <- _. reflexivity. }
  exists d, s, w', [], acc. split_and!; [done..|]. destruct Hc as [->|Hc]; [discriminate Hout|exact Hc].
Defined.
