(* ===== verification/SweepFrame.v ===== *)
(** * What the sweep leaves alone, and the Jobs it deletes

    A frame rule for the sweep: a property of the world that every call it makes
    keeps is kept by the sweep, Jobs deleted included. Creating a Job is not
    among the calls; deleting one is, under conditions the last theorem states. *)

From S2P Require Import Prelude GoStrings GoTime Json Api ReviewReady AttemptName Kube AttemptStore ReviewClaim LedgerFrame Review ReviewRest ReviewEval Gate Jobs Sweep SweepModel SweepProps.

(** The calls of the sweep, Job creation and deletion apart, keep [I]. *)
Record Frame {W : Type} `{KubeClient W} `{ReviewAPI W} `{JobClient W} `{GateWorld W} (I : W → Prop) : Prop := {
  fr_ledger : LedgerFrame I;
  fr_pull repo n (w : W) r w' : GetPullRequest repo n w = (r, w') → I w → I w';
  fr_pulls repo l (w : W) r w' : ListLabeledOpenPulls repo l w = (r, w') → I w → I w';
  fr_required repo b (w : W) r w' : RequiredContexts repo b w = (r, w') → I w → I w';
  fr_states repo b (w : W) r w' : ContextStates repo b w = (r, w') → I w → I w';
  fr_comments repo n t (w : W) r w' : ListComments repo n t w = (r, w') → I w → I w';
  fr_all repo n (w : W) r w' : ListCommentsAll repo n w = (r, w') → I w → I w';
  fr_comment repo n b (w : W) r w' : PostComment repo n b w = (r, w') → I w → I w';
  fr_label repo n l (w : W) r w' : DeleteLabel repo n l w = (r, w') → I w → I w';
  fr_post repo sha st ctx d (w : W) r w' : PostCommitStatus repo sha st ctx d w = (r, w') → I w → I w';
  fr_threads repo n (w : W) r w' : ListReviewThreads repo n w = (r, w') → I w → I w';
  fr_jobs ns sel (w : W) r w' : jc_list ns sel w = (r, w') → I w → I w';
  fr_getstatus n (w : W) r w' : gw_GetStatus n w = (r, w') → I w → I w';
  fr_patchstatus n f (w : W) r w' : gw_PatchStatus n f w = (r, w') → I w → I w';
  fr_emit k p (w : W) r w' : gw_Emit k p w = (r, w') → I w → I w';
}.

Section frame.
Context {W : Type} `{kube : KubeClient W} `{rc : RetryOnConflict} `{!RetryLaws} `{api : ReviewAPI W}
  `{jc : JobClient W} `{gw : GateWorld W}.
Context (I : W → Prop) (F : Frame I).

Let L := fr_ledger I F.
Let k_get := lf_get I L.
Let k_create := lf_create I L.
Let k_delete := lf_delete I L.
Let k_list := lf_list I L.
Let k_status := lf_status I L.
Let k_labels := lf_labels I L.
Let k_ReleaseClaim := keep_ReleaseClaim I L.
Let k_ReleaseClaimDead := keep_ReleaseClaimDead I L.
Let k_cancel := keep_cancel I L.
Let k_hold := keep_hold I L.
Let k_live := keep_live I L.
Let k_ArmClaim := keep_ArmClaim I L.
Let k_pull := fr_pull I F.
Let k_pulls := fr_pulls I F.
Let k_required := fr_required I F.
Let k_states := fr_states I F.
Let k_comments := fr_comments I F.
Let k_all := fr_all I F.
Let k_comment := fr_comment I F.
Let k_label := fr_label I F.
Let k_post := fr_post I F.
Let k_threads := fr_threads I F.
Let k_jobs := fr_jobs I F.
Let k_getstatus := fr_getstatus I F.
Let k_patchstatus := fr_patchstatus I F.
Let k_emit := fr_emit I F.
#[local] Hint Resolve k_get k_create k_delete k_list k_status k_labels k_ReleaseClaim k_ReleaseClaimDead k_cancel k_hold k_live k_ArmClaim k_pull k_pulls k_required k_states k_comments k_all k_comment k_label k_post k_threads k_jobs k_getstatus k_patchstatus k_emit : frame.

(** ** The engine and the notice *)

Lemma keep_hold_note p pr (w : W) r w' : labelAbsentHoldNote p pr w = (r, w') → I w → I w'.
Proof. intros Hr. unfold labelAbsentHoldNote in Hr. keep Hr. Qed.
#[local] Hint Resolve keep_hold_note : frame.

Lemma keep_absent p pr now (w : W) r w' : evaluate_absent p pr now w = (r, w') → I w → I w'.
Proof. intros Hr. unfold evaluate_absent in Hr. keep Hr. Qed.

Lemma keep_dispatched p pr now at_ (w : W) r w' : evaluate_dispatched p pr now at_ w = (r, w') → I w → I w'.
Proof. intros Hr. unfold evaluate_dispatched in Hr. keep Hr. Qed.

Lemma keep_ci clock p pr at_ (w : W) r w' : evaluate_ci clock p pr at_ w = (r, w') → I w → I w'.
Proof. intros Hr. unfold evaluate_ci in Hr. keep Hr. Qed.
#[local] Hint Resolve keep_absent keep_dispatched keep_ci : frame.

Lemma keep_fresh clock p pr at_ (w : W) r w' : evaluate_fresh clock p pr at_ w = (r, w') → I w → I w'.
Proof. intros Hr. unfold evaluate_fresh in Hr. keep Hr. Qed.
#[local] Hint Resolve keep_fresh : frame.

Lemma keep_Evaluate clock p (w : W) r w' : Evaluate clock p w = (r, w') → I w → I w'.
Proof.
  intros Hr. unfold Evaluate in Hr. destruct (pa_DisarmHint p); [keep Hr|].
  destruct (GetPullRequest _ _ w) as [[pr|e] w1] eqn:Hp; [|keep Hr].
  unfold evaluate_pr in Hr. keep Hr.
Qed.

Lemma keep_override c label (w : W) b c' w' : humanOverride c label w = (b, c', w') → I w → I w'.
Proof. intros Hr. unfold humanOverride in Hr. keep Hr. Qed.

Lemma keep_notify ref (w : W) r w' : notifyRefusalHost ref w = (r, w') → I w → I w'.
Proof. intros Hr. unfold notifyRefusalHost in Hr. keep Hr. Qed.
#[local] Hint Resolve keep_Evaluate keep_override keep_notify : frame.

(** ** The passes *)

Context (parse_json : string → option json) (kube_text : KErr → string).
Context (label_error url_path : string → option string) (owner_error : Workflow → string → option string).
Context (deps : GateDeps) (wf : Workflow) (rr : ReviewReadySpec) (now : Z) (liveAgg : option ReviewReadyStatus).

(** The snapshot, if it was taken and answered, is a list this sweep read. *)
Definition Listed (s : Locals) : Prop :=
  ∀ l, lo_jobs s = Some (Ok l) →
    ∃ w0 w1 : W, I w0 ∧ ListAttemptJobs (om_Namespace (wk_Meta wf)) (om_Name (wk_Meta wf)) w0 = (Ok l, w1).

(** What the passes hand on. *)
Definition Sound (s : Locals) (w : W) : Prop := Listed s ∧ I w.

Lemma Listed_jobs s s' : lo_jobs s' = lo_jobs s → Listed s → Listed s'.
Proof. unfold Listed. by intros ->. Qed.

Lemma keep_emit kind payload (w : W) : I w → I (emit deps kind payload w).
Proof. unfold emit. destruct (gp_TL deps); [|done]. destruct (gw_Emit kind payload w) eqn:He. simpl. eauto with frame. Qed.

Lemma keep_emitGate d reason repo pr (w : W) : I w → I (emitGate deps liveAgg d reason repo pr w).
Proof. unfold emitGate. destruct (gate_kind _ _ _); [apply keep_emit|done]. Qed.

Lemma keep_emit_result res repo pr (w : W) : I w → I (emit_result deps liveAgg res repo pr w).
Proof. apply keep_emitGate. Qed.

Lemma keep_release c reason (w : W) : I w → I (releaseClaim c reason w).
Proof. unfold releaseClaim. destruct (ReleaseClaim _ _ _ w) eqn:Hr. simpl. eauto with frame. Qed.

Lemma keep_release_dead c reason (w : W) : I w → I (releaseDeadClaim c reason w).
Proof. unfold releaseDeadClaim. destruct (ReleaseClaimDead _ _ _ w) eqn:Hr. simpl. eauto with frame. Qed.

Lemma keep_hold_claim c note cause (w : W) : I w → I (hold c note cause w).
Proof. unfold hold. destruct (SetClaimHold _ _ _ _ w) eqn:Hr. simpl. eauto with frame. Qed.
#[local] Hint Resolve keep_emit keep_emitGate keep_emit_result keep_release keep_release_dead keep_hold_claim : frame.

Lemma sound_activeJobs s (w : W) r s' w' :
  activeJobs wf s w = (r, s', w') → Sound s w → Sound s' w' ∧ lo_jobs s' = Some r.
Proof.
  unfold activeJobs, Sound. intros Hr [Hl Hi]. destruct (lo_jobs s) as [r0|] eqn:Hs; [simplify_eq; done|].
  destruct (ListAttemptJobs _ _ w) as [r1 w1] eqn:Hj. simplify_eq. split; [|done].
  split; [|unfold ListAttemptJobs in Hj; eauto with frame]. intros l [= ->]. by exists w, w'.
Qed.

Lemma sound_standDown repo pr e s (w : W) s' w' :
  standDown deps liveAgg repo pr e s w = (s', w') → Sound s w → Sound s' w'.
Proof.
  unfold standDown. intros [= <- <-] [Hl Hi]. split; [|by apply keep_emitGate]. by destruct (lo_held s).
Qed.

(** A pass that leaves the snapshot alone. *)
Ltac sound := match goal with
  | |- Sound _ _ → _ => intros [? ?]; sound
  | |- Sound _ _ => split; [eapply Listed_jobs; [|eassumption]; simpl; repeat case_decide; done|eauto 20 with frame]
  end.

Lemma sound_queued c r s (w : W) s' w' :
  queued_claim parse_json deps wf rr now liveAgg c r s w = (s', w') → Sound s w → Sound s' w'.
Proof.
  unfold queued_claim. destruct (parsePRPointer (rv_PR r)) as [[repo pr]|e]; [|intros [= <- <-]; sound].
  destruct (Evaluate kc_now _ w) as [res w1] eqn:He.
  destruct (wake_owns _ _ _ _); [intros [= <- <-]; sound|].
  destruct (decide (re_Decision res = DecisionProceed)).
  - destruct (decide (envelope_sha res ≠ rv_HeadSHA r)); [intros [= <- <-]; sound|].
    destruct (_ && _); [|intros [= <- <-]; sound].
    destruct (standDown _ _ _ _ _ s w1) as [s1 w2] eqn:Hs. intros [= <- <-] [Hl Hi].
    apply sound_standDown in Hs as [Hl1 Hi1]; [|split; eauto with frame]. by split.
  - destruct (decide (_ = DecisionStanddown)); intros [= <- <-]; sound.
Qed.

Lemma sound_dispatched c r t s (w : W) s' w' :
  dispatched_claim deps wf rr now liveAgg c r t s w = (s', w') → Sound s w → Sound s' w'.
Proof.
  unfold dispatched_claim. destruct (parsePRPointer _) as [[repo pr]|e]; [|intros [= <- <-]; sound].
  destruct (Evaluate kc_now _ w) as [res w1] eqn:He. destruct (decide _); [intros [= <- <-]; sound|].
  destruct (if bool_decide _ then _ else _) as [[alive s1] w2] eqn:Ha. intros Hr [Hl Hi].
  assert (Sound s1 w2) as [Hl1 Hi1].
  { destruct (bool_decide _); [|injection Ha as _ <- <-; split; eauto with frame].
    destruct (activeJobs wf _ w1) as [[jobs s2] w3] eqn:Hj. injection Ha as _ <- <-.
    apply sound_activeJobs in Hj as [? _]; [done|]. split; eauto with frame. }
  destruct (bool_decide _ && alive); injection Hr as <- <-.
  - split; [eapply Listed_jobs; [|exact Hl1]; by destruct (decide (lo_decision s1 ≠ _))|].
    destruct (match liveAgg with Some _ => _ | None => _ end); eauto with frame.
  - split; [done|]. destruct (bool_decide _); eauto with frame.
Qed.

Lemma sound_claims claims s (w : W) s' w' :
  claims_pass parse_json deps wf rr now liveAgg claims s w = (s', w') → Sound s w → Sound s' w'.
Proof.
  revert s w. induction claims as [|c claims IH]; intros s w; cbn [claims_pass]; [by intros [= <- <-]|].
  destruct (st_Review (at_Status c)) as [r|]; [|apply IH]. set (s0 := set_liveOn _ s).
  destruct (match rv_DispatchedAt r with Some _ => _ | None => _ end) as [s1 w1] eqn:Hc.
  intros Hr Hs. apply IH in Hr; [done|].
  destruct (rv_DispatchedAt r); [eapply sound_dispatched in Hc|eapply sound_queued in Hc]; done.
Qed.

Lemma keep_death_loop jobs claims (w : W) : I w → I (death_loop jobs claims w).
Proof.
  revert w. induction claims as [|c claims IH]; intros w Hi; cbn [death_loop]; [done|].
  destruct (_ && _); eauto with frame.
Qed.

Lemma keep_stranded_loop jobs claims s (w : W) : I w → I (stranded_loop liveAgg jobs claims s w).
Proof.
  revert w. induction claims as [|c claims IH]; intros w Hi; cbn [stranded_loop]; [done|].
  destruct (stranded _ _ _ _); eauto with frame.
Qed.

Lemma sound_settle claims s (w : W) s' w' :
  settle parse_json deps wf rr now liveAgg claims s w = (s', w') → Sound s w → Sound s' w'.
Proof.
  unfold settle. destruct (claims_pass _ _ _ _ _ _ claims s w) as [s1 w1] eqn:H1.
  destruct (death_pass wf claims s1 w1) as [s2 w2] eqn:H2. intros H3 Hs. apply sound_claims in H1; [|done].
  assert (Sound s2 w2) as Hs2.
  { revert H2. unfold death_pass. destruct (existsb _ _); [|by intros [= <- <-]].
    destruct (activeJobs wf s1 w1) as [[r s3] w3] eqn:Hj. apply sound_activeJobs in Hj as [[? ?] _]; [|done].
    destruct r; intros [= <- <-]; split; auto using keep_death_loop. }
  revert H3. unfold stranded_pass. destruct (gw_ctx_err w2); [by intros [= <- <-]|].
  destruct (activeJobs wf s2 w2) as [[r s3] w3] eqn:Hj. apply sound_activeJobs in Hj as [[? ?] _]; [|done].
  destruct r; intros [= <- <-]; split; auto using keep_stranded_loop.
Qed.

Lemma sound_scan repos cands s (w : W) cands' s' w' :
  scan parse_json wf rr repos cands s w = (cands', s', w') → Sound s w → Sound s' w'.
Proof.
  revert cands s w. induction repos as [|repo repos IH]; intros cands s w; cbn [scan]; [by intros [= _ <- <-]|].
  destruct (ListLabeledOpenPulls _ _ w) as [[pulls|e] w1] eqn:Hp; intros Hr [Hl Hi]; (apply IH in Hr; [done|]).
  - split; eauto with frame.
  - split; [|eauto with frame]. eapply Listed_jobs; [|exact Hl]. by destruct (_ && _).
Qed.

Lemma sound_candidates wakeOnly s (w : W) cands s' w' :
  candidates parse_json deps wf rr wakeOnly s w = (cands, s', w') → Sound s w → Sound s' w'.
Proof.
  unfold candidates. destruct wakeOnly; [by intros [= _ <- <-]|].
  destruct (lo_free s <=? 0); [intros [= _ <- <-]; sound|apply sound_scan].
Qed.

Lemma sound_converge env s (w : W) s' w' : convergeConsume env s w = (s', w') → Sound s w → Sound s' w'.
Proof.
  unfold convergeConsume. intros Hr [Hl Hi].
  repeat (split_match Hr; simplify_eq); simplify_eq;
    (split; [eapply Listed_jobs; [|exact Hl]; by repeat case_match|eauto 20 with frame]).
Qed.

Lemma keep_memo_refuses cand s (w : W) ref cand' w' :
  memo_refuses rr cand s w = (ref, cand', w') → I w → I w'.
Proof.
  unfold memo_refuses. destruct (ReviewRefusalFor _ _ _); [|intros Hr; keep Hr].
  destruct (if decide _ then _ else _) as [head w1] eqn:Hh.
  destruct (if negb _ && _ then _ else _) as [[human c1] w2] eqn:Hc.
  intros [= _ _ <-] Hi. assert (I w1) by keep Hh. keep Hc.
Qed.

Lemma sound_memo_skip cand ref s (w : W) s' w' :
  memo_skip deps liveAgg cand ref s w = (s', w') → Sound s w → Sound s' w'.
Proof.
  unfold memo_skip. destruct (notifyRefusalHost _ _) as [ref' w1] eqn:Hn. intros [= <- <-] [Hl Hi].
  split; [done|]. apply keep_notify in Hn; [done|]. destruct (rf_Emitted ref); eauto with frame.
Qed.

Lemma sound_supersede claims cand s (w : W) go cand' s' w' :
  supersede_claim wf rr claims cand s w = (go, cand', s', w') → Sound s w → Sound s' w'.
Proof.
  unfold supersede_claim. intros Hr [Hl Hi].
  destruct (negb (bool_decide _)); [by simplify_eq|]. destruct (negb (ca_request cand)); [by simplify_eq|].
  destruct (findClaim _ _) as [c|]; [|by simplify_eq].
  destruct (if decide _ then _ else _) as [[stop c1] w1] eqn:Hc. assert (I w1) by keep Hc. destruct stop; [by simplify_eq|].
  destruct (ReleaseClaim _ _ _ w1) as [[[]|e] w2] eqn:Hrel; [|simplify_eq; split; eauto with frame].
  injection Hr as _ _ <- <-. split; [|eauto with frame]. by destruct (rv_DispatchedAt _).
Qed.

Lemma sound_arm_failed cand e res s (w : W) s' w' :
  arm_failed kube_text deps liveAgg cand e res s w = (s', w') → Sound s w → Sound s' w'.
Proof. unfold arm_failed. destruct (isIntentionalStop e); [apply sound_standDown|intros [= <- <-]; sound]. Qed.

Lemma sound_accept cand res s (w : W) s' w' :
  accept kube_text label_error url_path owner_error deps wf rr liveAgg cand res s w = (s', w') →
  Sound s w → Sound s' w'.
Proof.
  unfold accept, arm. destruct (ArmClaim _ _ _ _ _ _ _ _ _ w) as [[a|e] w1] eqn:Ha; intros Hr [Hl Hi].
  - injection Hr as <- <-. split; eauto with frame.
  - apply sound_arm_failed in Hr; [done|]. split; eauto with frame.
Qed.

Lemma sound_queue cand res s (w : W) s' w' :
  queue kube_text label_error url_path owner_error deps wf rr liveAgg cand res s w = (s', w') →
  Sound s w → Sound s' w'.
Proof.
  unfold queue, arm. destruct (_ && _); [intros [= <- <-]; sound|].
  destruct (ArmClaim _ _ _ _ _ _ _ _ _ w) as [[a|e] w1] eqn:Ha; intros Hr [Hl Hi].
  - injection Hr as <- <-. split; eauto with frame.
  - apply sound_arm_failed in Hr; [done|]. split; eauto with frame.
Qed.

Lemma sound_refuse cand res s (w : W) s' w' :
  refuse deps now liveAgg cand res s w = (s', w') → Sound s w → Sound s' w'.
Proof.
  unfold refuse. destruct (match ee_Envelope _ with Some _ => _ | None => _ end) as [s1 w1] eqn:Hm.
  intros Hr Hs. assert (Sound s1 w1) as [Hl1 Hi1].
  { destruct (ee_Envelope _) as [env|]; [|by injection Hm as <- <-].
    case_decide; [|by injection Hm as <- <-].
    destruct (convergeConsume _ _ w) as [s2 w2] eqn:Hc. apply sound_converge in Hc as [Hl2 Hi2]; [|done].
    destruct (lo_panicked s2); [by injection Hm as <- <-|].
    destruct (ReviewRefusalFor _ _ _); [|by injection Hm as <- <-].
    destruct (notifyRefusalHost _ w2) as [ref w3] eqn:Hn. injection Hm as <- <-. split; eauto with frame. }
  destruct (lo_panicked s1); injection Hr as <- <-; split; eauto with frame.
Qed.

Lemma sound_drain claims cands s (w : W) s' w' :
  drain kube_text label_error url_path owner_error deps wf rr now liveAgg claims cands s w = (s', w') →
  Sound s w → Sound s' w'.
Proof.
  revert s w. induction cands as [|cand cands IH]; intros s w; cbn [drain]; [by intros [= <- <-]|].
  destruct (lo_panicked s); [by intros [= <- <-]|].
  destruct (memo_refuses rr cand s w) as [[ref cand1] w1] eqn:Hm. intros Hr [Hl Hi].
  apply keep_memo_refuses in Hm; [|done]. destruct ref as [ref|].
  { destruct (memo_skip _ _ _ ref s w1) as [s2 w2] eqn:Hk. apply IH in Hr; [done|].
    eapply sound_memo_skip; [exact Hk|by split]. }
  destruct (supersede_claim _ _ claims cand1 s w1) as [[[go cand2] s2] w2] eqn:Hsu.
  apply sound_supersede in Hsu; [|by split]. destruct go; simpl in Hr; [|by apply IH in Hr].
  destruct (lo_free s2 <=? 0); [injection Hr as <- <-; by destruct Hsu|].
  destruct (Evaluate kc_now _ w2) as [res w3] eqn:He. destruct Hsu as [Hl2 Hi2].
  apply keep_Evaluate in He; [|done].
  destruct (if decide _ then _ else _) as [s4 w4] eqn:Hd. apply IH in Hr; [done|].
  repeat case_decide; [eapply sound_accept|eapply sound_queue|eapply sound_refuse]; (exact Hd || by split).
Qed.

(** ** Deletions *)

(** What the sweep has seen when it deletes the Job [j] in [w]: the cancel pass
    is on, a list of this workflow's attempt Jobs had [j], which is live; the
    attempt [j] names, just read, has its claim released by a cancellation and
    is the controller of [j]. *)
Definition MayDelete (j : Job) (w : W) : Prop :=
  gp_DisableCancelOnSupersede deps = false ∧ job_live j = true
  ∧ (∃ l w0 w1, I w0 ∧ j ∈ l
       ∧ ListAttemptJobs (om_Namespace (wk_Meta wf)) (om_Name (wk_Meta wf)) w0 = (Ok l, w1))
  ∧ ∃ name a r o w0, jb_Labels j !! AttemptLabel = Some name ∧ name ≠ ""
      ∧ I w0 ∧ kc_get (om_Namespace (wk_Meta wf), name) w0 = (Ok a, w)
      ∧ st_Review (at_Status a) = Some r ∧ rv_Released r = true
      ∧ (rv_ReleaseReason r = "superseded" ∨ rv_ReleaseReason r = "pr-closed")
      ∧ jb_Controller j = Some o ∧ ow_Kind o = "Attempt" ∧ ow_UID o = om_UID (at_Meta a).

Context (Hdelete : ∀ j (w : W) r w', MayDelete j w → I w →
  jc_delete (om_Namespace (wk_Meta wf), jb_Name j) w = (r, w') → I w').

Lemma cancelled_spec a r : cancelled a = Some r →
  st_Review (at_Status a) = Some r ∧ rv_Released r = true
  ∧ (rv_ReleaseReason r = "superseded" ∨ rv_ReleaseReason r = "pr-closed").
Proof.
  unfold cancelled. destruct (st_Review (at_Status a)) as [r0|]; [|done].
  destruct (rv_Released r0) eqn:Hr; [|done]. simpl. destruct (IsCancellationRelease _) eqn:Hc; [|done].
  intros [= <-]. split_and!; [done..|]. unfold IsCancellationRelease in Hc.
  apply orb_true_iff in Hc as [Hc|Hc]; apply bool_decide_eq_true in Hc; auto.
Qed.

Lemma keep_cancel_job s j l w0 w1 (w : W) :
  gp_DisableCancelOnSupersede deps = false → job_live j = true → j ∈ l → I w0 →
  ListAttemptJobs (om_Namespace (wk_Meta wf)) (om_Name (wk_Meta wf)) w0 = (Ok l, w1) →
  I w → I (cancel_job deps wf s j w).
Proof.
  intros Hd Hj Hin Hw0 Hl Hi. unfold cancel_job.
  destruct (jb_Labels j !! AttemptLabel) as [name|] eqn:Hname; simpl; [|done].
  destruct (decide (name = "")) as [|Hne]; [done|].
  destruct (kc_get _ w) as [[a|e] w2] eqn:Hg; [|eauto with frame].
  destruct (cancelled a) as [r|] eqn:Hc; [|eauto with frame].
  apply cancelled_spec in Hc as (Hrev&Hrel&Hreason).
  destruct (owned_by j a) eqn:Ho; simpl; [|eauto with frame]. unfold owned_by in Ho.
  destruct (jb_Controller j) as [o|] eqn:Hctl; [|done]. apply andb_true_iff in Ho as [Hkind Huid].
  apply bool_decide_eq_true in Hkind, Huid.
  destruct (DeleteJob _ _ w2) as [r1 w3] eqn:Hdel.
  assert (I w3) as Hi3.
  { eapply (Hdelete j w2); [|eauto with frame|exact Hdel]. split_and!; [done|done|by exists l, w0, w1|].
    by exists name, a, r, o, w. }
  assert (I (emit deps KindGateCancel (cancel_payload s j r)
    (FinalizeCancelledClaim (namespace_of wf) name (rv_ReleaseReason r) w3).2)) as Hfin.
  { destruct (FinalizeCancelledClaim _ _ _ w3) eqn:Hf. simpl. eauto with frame. }
  destruct r1 as [[]|e]; [exact Hfin|]. by destruct (negb (IsNotFound e)).
Qed.

Lemma keep_cancel_loop s jobs l w0 w1 (w : W) :
  gp_DisableCancelOnSupersede deps = false → Forall (λ j, job_live j = true) jobs → jobs ⊆ l → I w0 →
  ListAttemptJobs (om_Namespace (wk_Meta wf)) (om_Name (wk_Meta wf)) w0 = (Ok l, w1) →
  I w → I (cancel_loop deps wf s jobs w).
Proof.
  intros Hd Hf Hsub Hw0 Hl. revert w. induction Hf as [|j jobs Hj Hf IH]; intros w Hi; cbn [cancel_loop]; [done|].
  destruct (gw_ctx_err w); [done|]. apply IH; [set_solver|]. apply (keep_cancel_job s j l w0 w1); [done|done| |done..].
  set_solver.
Qed.

Lemma sound_cancel_pass s (w : W) s' w' : cancel_pass deps wf s w = (s', w') → Sound s w → Sound s' w'.
Proof.
  unfold cancel_pass. destruct (gp_DisableCancelOnSupersede deps) eqn:Hd; [by intros [= <- <-]|].
  destruct (gw_ctx_err w); [by intros [= <- <-]|].
  destruct (activeJobs wf s w) as [[r s1] w1] eqn:Hj. intros Hr Hs.
  apply sound_activeJobs in Hj as [[Hl Hi] Hjobs]; [|done]. destruct r as [jobs|e]; injection Hr as <- <-; [|done].
  destruct (Hl _ Hjobs) as (w2&w3&Hw2&Hlist). split; [done|].
  eapply keep_cancel_loop; [done| | |exact Hw2|exact Hlist|done].
  - apply Forall_forall. by intros j [? _]%list_elem_of_filter.
  - by intros j [_ ?]%list_elem_of_filter.
Qed.

Lemma keep_aggregates s (w : W) : I w → I (aggregates deps wf rr liveAgg s w).2.
Proof. unfold aggregates. destruct (gw_PatchStatus _ _ w) eqn:Hp. simpl. eauto with frame. Qed.

Lemma keep_fill wakeOnly claims s (w : W) o s' w' :
  fill parse_json kube_text label_error url_path owner_error deps wf rr wakeOnly now liveAgg claims s w
    = (o, s', w') → Sound s w → I w'.
Proof.
  unfold fill. intros Hr Hs. assert (Sound (recount deps rr claims s) w) as Hs0 by done.
  destruct (candidates _ _ _ _ _ _ w) as [[cands s1] w1] eqn:Hc. apply sound_candidates in Hc; [|done].
  destruct (drain _ _ _ _ _ _ _ _ _ claims cands s1 w1) as [s2 w2] eqn:Hd. apply sound_drain in Hd; [|done].
  destruct (lo_panicked s2); [simplify_eq; by destruct Hd|].
  destruct (cancel_pass _ _ s2 w2) as [s3 w3] eqn:Hp. apply sound_cancel_pass in Hp as [_ Hi]; [|done].
  pose proof (keep_aggregates s3 w3 Hi) as Ha. destruct (aggregates _ _ _ _ s3 w3) as [s4 w4]. by simplify_eq.
Qed.
End frame.

Lemma keep_sweep {W : Type} `{kube : KubeClient W} `{rc : RetryOnConflict} `{!RetryLaws}
    `{api : ReviewAPI W} `{jc : JobClient W} `{gw : GateWorld W} (I : W → Prop)
    parse_json kube_text label_error url_path owner_error deps wf wakeOnly (w : W) o s w' :
  Frame I →
  (∀ j w r w', MayDelete I deps wf j w → I w →
     jc_delete (om_Namespace (wk_Meta wf), jb_Name j) w = (r, w') → I w') →
  sweep parse_json kube_text label_error url_path owner_error deps wf wakeOnly w = (o, s, w') → I w → I w'.
Proof.
  intros F Hdel Hs Hi. unfold sweep in Hs. destruct (wf_ReviewReady (wk_Spec wf)) as [rr|]; [|by simplify_eq].
  destruct (gw_GetStatus _ w) as [st w1] eqn:Hst. apply (fr_getstatus I F) in Hst; [|done].
  set (agg := match st with Ok a => a | Err _ => None end) in Hs.
  destruct (LiveReviewClaims _ _ w1) as [r1 w2] eqn:Hl. apply (keep_live I (fr_ledger I F)) in Hl; [|done].
  destruct r1 as [claims|e]; [|by simplify_eq].
  destruct (settle _ _ _ _ _ _ claims _ w2) as [s2 w3] eqn:Hset.
  eapply sound_settle in Hset as [Hl3 Hi3]; [|exact F|by split].
  destruct (LiveReviewClaims _ _ w3) as [r2 w4] eqn:Hl2. apply (keep_live I (fr_ledger I F)) in Hl2; [|done].
  destruct r2 as [claims2|e]; [|by simplify_eq].
  eapply keep_fill in Hs; [done|exact F|exact Hdel|by split].
Qed.

(** The sweep creates no Job and deletes only those of cancelled claims. Let
    [I] be any property of the world that every other call of the sweep keeps
    (nothing is asked of Job creation), and that deleting a Job keeps whenever
    the deletion is allowed: the cancel pass is on, a list of this workflow's
    attempt Jobs taken in this sweep had the Job, neither deleted, completed nor
    failed; and the attempt its label names, read immediately before, was
    released as superseded or because the pull request was closed, and is the
    Job's controller by kind and UID. Then the whole sweep keeps [I], whatever
    its outcome. *)
Theorem sweep_deletes_only_cancelled {W : Type} `{kube : KubeClient W} `{rc : RetryOnConflict} `{!RetryLaws}
    `{api : ReviewAPI W} `{jc : JobClient W} `{gw : GateWorld W} (I : W → Prop)
    parse_json kube_text label_error url_path owner_error deps wf wakeOnly (w : W) o s w' :
  Frame I →
  (∀ j w r w', MayDelete I deps wf j w → I w →
     jc_delete (om_Namespace (wk_Meta wf), jb_Name j) w = (r, w') → I w') →
  sweep parse_json kube_text label_error url_path owner_error deps wf wakeOnly w = (o, s, w') → I w → I w'.
Proof. apply keep_sweep. Qed.

(** ** A fleet with two Jobs of a superseded claim, one of them foreign *)

Definition job_labels (attempt : string) : gmap string string :=
  {["app.kubernetes.io/name" := "harmostes"; "harmostes.dev/workflow" := "docs"; AttemptLabel := attempt]}.

Definition attempt_job (name attempt : string) (owner : option OwnerReference) : Job :=
  {| jb_Name := name; jb_GenerateName := ""; jb_Namespace := "ns"; jb_Labels := job_labels attempt;
     jb_Annotations := ∅; jb_Controller := owner; jb_DeletionTimestamp := None; jb_CompletionTime := None;
     jb_Conditions := []; jb_Spec := None |}.

Definition superseded_attempt : Attempt :=
  set_Status (set_Review (Some (set_release true "superseded"
      (gate_claim "h/o/n#7" head_b (Some (40 * Hour))))) reconciling)
    (gate_attempt 1 "h/o/n#7" head_b None).

Definition own_job : Job :=
  attempt_job "own" (gate_name 1 head_b)
    (Some {| ow_Kind := "Attempt"; ow_Name := gate_name 1 head_b; ow_UID := "uh/o/n#7" |}).
Definition foreign_job : Job := attempt_job "foreign" (gate_name 1 head_b) None.

Definition superseded_fleet : Fleet := fleet_of [superseded_attempt] two_pulls [own_job; foreign_job].

(** The foreign Job is there, alone under its name. *)
Definition foreign_kept (f : Fleet) : Prop :=
  foreign_job ∈ fl_jobs f ∧ ∀ j, j ∈ fl_jobs f → jb_Name j = "foreign" → j = foreign_job.

Lemma foreign_frame : Frame foreign_kept.
Proof.
  assert (∀ A (m : Cluster → A * Cluster) f r f', on_cluster m f = (r, f') → foreign_kept f → foreign_kept f') as Hc.
  { intros A m f r f'. unfold on_cluster. destruct (m _). by intros [= _ <-]. }
  assert (∀ A (m : Forge → A * Forge) f r f', on_forge m f = (r, f') → foreign_kept f → foreign_kept f') as Hg.
  { intros A m f r f'. unfold on_forge. destruct (m _). by intros [= _ <-]. }
  split; [split; [split|..]|..]; intros; simpl in *; first [by eapply Hc | by eapply Hg | by simplify_eq].
Qed.

Lemma sweep_deletes_only_cancelled_witness :
  fl_deleted (run_gate 1 superseded_fleet).2 = ["own"] ∧ foreign_kept (run_gate 1 superseded_fleet).2.
Proof.
  split; [vm_compute; reflexivity|].
  pose proof (sweep_deletes_only_cancelled foreign_kept scope_json (λ _, "") (λ _, None) (λ _, None)
    (λ _ _, None) gate_deps (gated 1) false superseded_fleet) as Hp.
  change (sweep _ _ _ _ _ _ _ _ superseded_fleet) with (run_gate 1 superseded_fleet) in Hp.
  destruct (run_gate 1 superseded_fleet) as [[o s] w'].
  apply (Hp o s w'); [exact foreign_frame| |reflexivity|].
  - intros j w r w2 (_&_&(l&w0&w1&[_ Hone]&Hin&Hl)&Hread) [Hi Hu] Hdel.
    assert (jb_Name j ≠ "foreign") as Hne.
    { intros Hn. simpl in Hl. injection Hl as Hl _. rewrite <- Hl in Hin.
      apply list_elem_of_filter in Hin as [_ Hin]. rewrite (Hone j Hin Hn) in Hread.
      destruct Hread as (name&a&r0&ow&w3&_&_&_&_&_&_&_&Ho&_). discriminate Ho. }
    simpl in Hdel. injection Hdel as _ <-. split; simpl.
    + apply list_elem_of_filter. split; [|exact Hi]. intros Hn. by apply Hne.
    + intros j' [_ Hj']%list_elem_of_filter. by apply Hu.
  - split; [simpl; set_solver|]. intros j Hj Hn. simpl in Hj.
    apply elem_of_cons in Hj as [->|Hj]; [discriminate Hn|]. by apply list_elem_of_singleton in Hj.
Defined.
