(* ===== verification/Dispatch.v ===== *)
(** * The dispatcher ([Dispatch] of [internal/worker/dispatch.go])

    One trigger, from the merged workflow through the gate to the Jobs: intent,
    then Job, then edge. The reads of workflows, templates and profiles are the
    class [SpecWorld]; [environ] is the process environment. The lock that
    serializes the creation is not a state: other processes act between any two
    calls anyway, through the worlds. Log lines are left out. *)

From S2P Require Import Prelude GoStrings GoPath GoTime Api Profile Extensions ReviewReady Template AttemptName Ledger Kube AttemptStore ReviewClaim LedgerFrame Json Review ReviewRest ReviewEval Gate Jobs DispatchConfig JobEnv Sweep SweepModel SweepProps SweepFrame.

Class SpecWorld (W : Type) := {
  sw_GetWorkflow : Key → W → result KErr Workflow * W;
  sw_GetTemplate : Key → W → result KErr WorkflowTemplate * W;
  sw_GetProfile : Key → W → result KErr AgentProfile * W;
  sw_ListWorkflows : string → W → result KErr (list Workflow) * W;
}.

(** ** Outcomes *)

Inductive RuntimeError : Type :=
| ProfileError (namespace name : string) (e : KErr)
| PinsError (workflow : string) (e : PinError).

Inductive DispatchError : Type :=
| GetWorkflowError (namespace name : string) (e : KErr)
| GetTemplateError (namespace name : string) (e : KErr)
| AttachmentsInvalid (workflow : string) (e : AttachmentError)
| ConfigInvalid (workflow : string) (repoWiki : json)
| GateFailed (e : Error)
| ResolveFailed (e : Error)
| ListJobsFailed (e : KErr)
| GetAttemptFailed (name : string) (e : KErr)
| RuntimeFailed (e : RuntimeError)
| IntentFailed (name : string) (e : Error)
| CreateFailed (e : KErr)
| EdgeFailed (name : string) (e : Error).

Inductive Outcome (A : Type) : Type :=
| Returns (a : A)
| Fails (e : DispatchError)
| Panics.
Arguments Returns {A} a.
Arguments Fails {A} e.
Arguments Panics {A}.

Definition set_spec (s : WorkflowSpec) (wf : Workflow) : Workflow := {| wk_Meta := wk_Meta wf; wk_Spec := s |}.

(** One ConfigMap name, trimmed. *)
Definition pluginRefsFrom (wf : Workflow) : list string :=
  let ref := TrimSpace (wf_PluginsConfigMapRef (wk_Spec wf)) in
  if decide (ref = "") then [] else [ref].

Section dispatch.
Context {W : Type} `{KubeClient W} `{RetryOnConflict} `{ReviewAPI W} `{JobClient W} `{GateWorld W} `{SpecWorld W}.
Context {J : Type} `{JsonMap J} `{Semver} `{ManifestCodec}.
Context (environ : list string) (map_order : gmap string string → list (string * string)).
Context (marshal_envelope : Envelope → string) (IsDNS1123Label : string → list string).
Context (parse_json : string → option json) (kube_text : KErr → string).
Context (label_error url_path : string → option string) (owner_error : Workflow → string → option string).
Context (cfg : DispatchConfig).

Definition FetchWorkflow (namespace name : string) (w : W) : Outcome Workflow * W :=
  match sw_GetWorkflow (namespace, name) w with
  | (Err e, w) => (Fails (GetWorkflowError namespace name e), w)
  | (Ok wf, w) =>
      let ref := wf_TemplateRef (wk_Spec wf) in
      if decide (ref = "") then (Returns wf, w)
      else match sw_GetTemplate (namespace, ref) w with
      | (Err e, w) => (Fails (GetTemplateError namespace ref e), w)
      | (Ok tmpl, w) =>
          match ApplyTemplateDefaults (Some wf) (Some tmpl) with
          | Some (Some wf) => (Returns wf, w)
          | Some None => (Returns wf, w)
          | None => (Panics, w)
          end
      end
  end.

Definition FetchAgentProfile (namespace name : string) (w : W) : result RuntimeError AgentProfile * W :=
  match sw_GetProfile (namespace, name) w with
  | (Err e, w) => (Err (ProfileError namespace name e), w)
  | (Ok p, w) => (Ok p, w)
  end.

Definition no_harness : HarnessRef := {| hr_Runtime := ""; hr_Source := ""; hr_Integrity := "" |}.

Definition composeRuntime (namespace : string) (wf : Workflow) (w : W)
    : result RuntimeError (list ExtensionPin * option HarnessRef) * W :=
  let ref := AgentProfileRefFromEnv (Getenv environ) in
  let '(p, w) :=
    if decide (ref = "") then (Ok ([], no_harness), w)
    else match FetchAgentProfile namespace ref w with
         | (Err e, w) => (Err e, w)
         | (Ok p, w) => (Ok (ap_Extensions (pf_Spec p), ap_Harness (pf_Spec p)), w)
         end in
  match p with
  | Err e => (Err e, w)
  | Ok (universal, harness) =>
      match ComposeRuntime universal (ag_Extensions (wf_Agent (wk_Spec wf))) harness with
      | Err e => (Err (PinsError (om_Name (wk_Meta wf)) e), w)
      | Ok c => (Ok c, w)
      end
  end.

(** ** The Jobs of the dispatches *)

Definition job_of (req : RunRequest) (wf : Workflow) (g : GateDispatch) (a : Attempt)
    (runtime : list ExtensionPin * option HarnessRef) (now : Z) : option Job :=
  BuildJob (Getenv environ)
    (JobParams cfg a (rq_Workflow req) (rq_Namespace req) (RunBoundDuration (wf_ReviewReady (wk_Spec wf)))
       (wf_Cache (wk_Spec wf)) (wf_Sessions (wk_Spec wf)) (wf_Attachments (wk_Spec wf))
       (match gd_Envelope g with Some e => en_Repo e | None => "" end)
       (jobCredentialEnv map_order environ (Some {| bp_workflow := Some wf; bp_attempt := Some a |})
        ++ dispatchEnv marshal_envelope req a (gd_Envelope g))
       runtime.1 runtime.2 (pluginRefsFrom wf))
    now.

Definition create_one (req : RunRequest) (wf : Workflow) (g : GateDispatch) (w : W) : Outcome unit * W :=
  let ns := rq_Namespace req in
  match kc_get (ns, gd_Attempt g) w with
  | (Err e, w) => (Fails (GetAttemptFailed (gd_Attempt g) e), w)
  | (Ok a, w) =>
  match composeRuntime ns wf w with
  | (Err e, w) => (Fails (RuntimeFailed e), w)
  | (Ok runtime, w) =>
  match job_of req wf g a runtime (kc_now w) with
  | None => (Panics, w)
  | Some job =>
  match MarkDispatchIntent ns (om_Name (at_Meta a)) w with
  | (Err e, w) => (Fails (IntentFailed (om_Name (at_Meta a)) e), w)
  | (Ok _, w) =>
  match jc_create job w with
  | (Err e, w) => if IsAlreadyExists e then (Returns tt, w) else (Fails (CreateFailed e), w)
  | (Ok jobName, w) =>
      match MarkClaimDispatched ns (om_Name (at_Meta a)) jobName w with
      | (Err e, w) => (Fails (EdgeFailed (om_Name (at_Meta a)) e), w)
      | (Ok _, w) => (Returns tt, w)
      end
  end end end end end.

Fixpoint create_jobs (req : RunRequest) (wf : Workflow) (live : list Job) (dispatches : list GateDispatch) (w : W)
    : Outcome unit * W :=
  match dispatches with
  | [] => (Returns tt, w)
  | g :: dispatches =>
      match List.find (of_attempt (gd_Attempt g)) live with
      | Some j =>
          let '(_, w) := CompleteDispatchEdge (rq_Namespace req) (gd_Attempt g) (jb_Name j) w in
          create_jobs req wf live dispatches w
      | None =>
          match create_one req wf g w with
          | (Returns _, w) => create_jobs req wf live dispatches w
          | r => r
          end
      end
  end.

(** ** One trigger *)

Definition gate_deps_of (req : RunRequest) : GateDeps :=
  {| gp_Scheme := true; gp_FleetMaxConcurrent := dc_FleetMaxConcurrent cfg;
     gp_DisableCancelOnSupersede := dc_DisableCancelOnSupersede cfg; gp_TL := true;
     gp_Wake := {| gk_PR := rq_Pr req; gk_Action := rq_Action req; gk_Revision := rq_Revision req; gk_Repo := rq_Repo req |} |}.

(** What the gate hands out, or the one attempt of a workflow without a gate. *)
Definition dispatches_of (req : RunRequest) (wf : Workflow) (w : W) : Outcome (list GateDispatch) * W :=
  match wf_ReviewReady (wk_Spec wf) with
  | Some _ =>
      match RunReviewGateSweep parse_json kube_text label_error url_path owner_error (gate_deps_of req) wf w with
      | (GateDone l, w) => (Returns l, w)
      | (GateError e, w) => (Fails (GateFailed e), w)
      | (GatePanic, w) => (Panics, w)
      end
  | None =>
      let obj := DeriveObjective url_path wf {| tc_Revision := rq_Revision req; tc_Source := "webhook" |} in
      match ResolveOrCreate owner_error obj
              {| op_Namespace := rq_Namespace req;
                 op_WorkflowRef := rq_Namespace req +:+ "/" +:+ rq_Workflow req;
                 op_Owner := Some wf; op_Scheme := true |} w with
      | (Err e, w) => (Fails (ResolveFailed e), w)
      | (Ok (a, _), w) => (Returns [{| gd_Envelope := None; gd_Attempt := om_Name (at_Meta a) |}], w)
      end
  end.

Definition Dispatch (req : RunRequest) (w : W) : Outcome unit * W :=
  match FetchWorkflow (rq_Namespace req) (rq_Workflow req) w with
  | (Fails e, w) => (Fails e, w)
  | (Panics, w) => (Panics, w)
  | (Returns wf, w) =>
  match ValidateAttachments IsDNS1123Label (wf_Attachments (wk_Spec wf)) (rq_Workflow req) with
  | Some e => (Fails (AttachmentsInvalid (rq_Workflow req) e), w)
  | None =>
  match ValidateRepoWikiConfig parse_json (wf_Config (wk_Spec wf)) with
  | Some v => (Fails (ConfigInvalid (rq_Workflow req) v), w)
  | None =>
  match dispatches_of req wf w with
  | (Fails e, w) => (Fails e, w)
  | (Panics, w) => (Panics, w)
  | (Returns [], w) => (Returns tt, w)
  | (Returns dispatches, w) =>
      match ListActiveJobs (rq_Namespace req) (rq_Workflow req) w with
      | (Err e, w) => (Fails (ListJobsFailed e), w)
      | (Ok live, w) => create_jobs req wf live dispatches w
      end
  end end end end.

(** ** The queue the fast poll drives *)

Fixpoint armed_waiting (wfs : list Workflow) (w : W) : list string * W :=
  match wfs with
  | [] => ([], w)
  | wf :: wfs =>
      match wf_ReviewReady (wk_Spec wf) with
      | None => armed_waiting wfs w
      | Some _ =>
          match LiveReviewClaims label_error wf w with
          | (Err _, w) => armed_waiting wfs w
          | (Ok claims, w) =>
              let '(out, w) := armed_waiting wfs w in
              (if existsb (λ c, match st_Review (at_Status c) with
                                | Some r => bool_decide (rv_DispatchedAt r = None)
                                | None => false
                                end) claims
               then om_Name (wk_Meta wf) :: out else out, w)
          end
      end
  end.

Definition ArmedWaitingWorkflows (namespace : string) (w : W) : list string * W :=
  match sw_ListWorkflows namespace w with
  | (Err _, w) => ([], w)
  | (Ok wfs, w) => armed_waiting wfs w
  end.
End dispatch.

(** ** Properties of the dispatcher

    Jobs are created after their intent and never beside a live one; invalid
    declarations are refused before the gate and before any write. *)

(** Reading workflows, templates and profiles keeps [I]. *)
Record SpecFrame {W : Type} `{SpecWorld W} (I : W → Prop) : Prop := {
  sf_workflow k (w : W) r w' : sw_GetWorkflow k w = (r, w') → I w → I w';
  sf_template k (w : W) r w' : sw_GetTemplate k w = (r, w') → I w → I w';
  sf_profile k (w : W) r w' : sw_GetProfile k w = (r, w') → I w → I w';
}.

Section frame.
Context {W : Type} `{kube : KubeClient W} `{rc : RetryOnConflict} `{!RetryLaws} `{api : ReviewAPI W}
  `{jc : JobClient W} `{gw : GateWorld W} `{sw : SpecWorld W}.
Context {J : Type} `{JsonMap J} `{Semver} `{ManifestCodec}.
Context (environ : list string) (map_order : gmap string string → list (string * string)).
Context (marshal_envelope : Envelope → string) (IsDNS1123Label : string → list string).
Context (parse_json : string → option json) (kube_text : KErr → string).
Context (label_error url_path : string → option string) (owner_error : Workflow → string → option string).
Context (cfg : DispatchConfig) (req : RunRequest).
Context (I : W → Prop) (F : Frame I) (SF : SpecFrame I).

(** The state in which the dispatcher creates a Job: a list of the workflow's
    live Jobs taken in this dispatch has none of the attempt; the Job is the one
    built from that attempt, read in this dispatch, with a validated runtime;
    and the call immediately before committed the intent on that attempt. *)
Definition MayCreate (wf : Workflow) (job : Job) (w : W) : Prop :=
  ∃ g a runtime now live w0 w1 w2 w3 w4 w5 w6,
    I w0 ∧ ListActiveJobs (rq_Namespace req) (rq_Workflow req) w0 = (Ok live, w1)
    ∧ Forall (λ j, of_attempt (gd_Attempt g) j = false) live
    ∧ I w2 ∧ kc_get (rq_Namespace req, gd_Attempt g) w2 = (Ok a, w3)
    ∧ I w4 ∧ composeRuntime environ (rq_Namespace req) wf w4 = (Ok runtime, w5)
    ∧ job_of environ map_order marshal_envelope cfg req wf g a runtime now = Some job
    ∧ I w6 ∧ MarkDispatchIntent (rq_Namespace req) (om_Name (at_Meta a)) w6 = (Ok tt, w).

Lemma keep_fetch (w : W) o w' :
  FetchWorkflow (rq_Namespace req) (rq_Workflow req) w = (o, w') → I w → I w'.
Proof.
  unfold FetchWorkflow. intros Hr Hi. destruct (sw_GetWorkflow _ w) as [r w1] eqn:Hg.
  pose proof (sf_workflow I SF _ _ _ _ Hg Hi) as Hk. destruct r as [wf|e]; [|by simplify_eq].
  destruct (decide _); [by simplify_eq|].
  destruct (sw_GetTemplate _ w1) as [r w2] eqn:Ht.
  pose proof (sf_template I SF _ _ _ _ Ht Hk) as Ht'. destruct r as [t|e].
  - destruct (ApplyTemplateDefaults _ _) as [[?|]|]; by simplify_eq.
  - by simplify_eq.
Qed.

Lemma keep_compose wf (w : W) r w' : composeRuntime environ (rq_Namespace req) wf w = (r, w') → I w → I w'.
Proof.
  unfold composeRuntime, FetchAgentProfile. intros Hr Hi. destruct (decide _).
  - destruct (ComposeRuntime _ _ _); by simplify_eq.
  - destruct (sw_GetProfile _ w) as [r1 w1] eqn:Hp. apply (sf_profile I SF) in Hp; [|done].
    destruct r1 as [p|e]; [destruct (ComposeRuntime _ _ _)|]; by simplify_eq.
Qed.

Lemma keep_active ns name (w : W) r w' : ListActiveJobs ns name w = (r, w') → I w → I w'.
Proof.
  unfold ListActiveJobs, ListAttemptJobs. intros Hr Hi. destruct (jc_list _ _ w) as [r1 w1] eqn:Hl.
  apply (fr_jobs I F) in Hl; [|done]. destruct r1; by simplify_eq.
Qed.

Section creation.
Context (wf : Workflow).
Context (Hcreate : ∀ job (w : W) r w', MayCreate wf job w → I w → jc_create job w = (r, w') → I w').

Lemma keep_create_one g live w0 w1 (w : W) o w' :
  I w0 → ListActiveJobs (rq_Namespace req) (rq_Workflow req) w0 = (Ok live, w1) →
  Forall (λ j, of_attempt (gd_Attempt g) j = false) live →
  create_one environ map_order marshal_envelope cfg req wf g w = (o, w') → I w → I w'.
Proof.
  intros Hi0 Hl Hf Hr Hi. unfold create_one in Hr.
  destruct (kc_get _ w) as [r3 w3] eqn:Hg. pose proof (lf_get I (fr_ledger I F) _ _ _ _ Hg Hi) as Hi3.
  destruct r3 as [a|e]; [|by simplify_eq].
  destruct (composeRuntime _ _ _ w3) as [r5 w5] eqn:Hc. pose proof (keep_compose _ _ _ _ Hc Hi3) as Hi5.
  destruct r5 as [rt|e]; [|by simplify_eq].
  destruct (job_of _ _ _ _ _ _ _ _ _ _) as [job|] eqn:Hj; [|by simplify_eq].
  destruct (MarkDispatchIntent _ _ w5) as [r6 w6] eqn:Hm. pose proof (keep_intent I (fr_ledger I F) _ _ _ _ _ Hm Hi5) as Hi6.
  destruct r6 as [[]|e]; [|by simplify_eq].
  destruct (jc_create job w6) as [r7 w7] eqn:Hk.
  assert (I w7) as Hi7 by (eapply Hcreate; [|exact Hi6|exact Hk]; by exists g, a, rt, (kc_now w5), live, w0, w1, w, w3, w3, w5, w5).
  destruct r7 as [name|e].
  - destruct (MarkClaimDispatched _ _ _ w7) as [r8 w8] eqn:He. apply (keep_edge I (fr_ledger I F)) in He; [|done].
    destruct r8; by simplify_eq.
  - destruct (IsAlreadyExists e); by simplify_eq.
Qed.

Lemma keep_create_jobs ds live w0 w1 (w : W) o w' :
  I w0 → ListActiveJobs (rq_Namespace req) (rq_Workflow req) w0 = (Ok live, w1) →
  create_jobs environ map_order marshal_envelope cfg req wf live ds w = (o, w') → I w → I w'.
Proof.
  intros Hi0 Hl. revert w. induction ds as [|g ds IH]; intros w Hr Hi; cbn [create_jobs] in Hr; [by simplify_eq|].
  destruct (List.find _ live) as [j|] eqn:Hf.
  - destruct (CompleteDispatchEdge _ _ _ w) as [r w2] eqn:He. apply (keep_complete I (fr_ledger I F)) in He; [|done]. by eapply IH.
  - destruct (create_one _ _ _ _ _ _ g w) as [o1 w2] eqn:Hone.
    assert (I w2) as Hi2.
    { eapply keep_create_one; [exact Hi0|exact Hl| |exact Hone|done]. apply Forall_forall. intros j Hj.
      apply (List.find_none _ _ Hf). by apply list_elem_of_In. }
    destruct o1; [by eapply IH|by simplify_eq..].
Qed.
End creation.

Lemma keep_dispatches wf (w : W) o w' :
  (∀ j w r w', MayDelete I (gate_deps_of cfg req) wf j w → I w →
     jc_delete (om_Namespace (wk_Meta wf), jb_Name j) w = (r, w') → I w') →
  dispatches_of parse_json kube_text label_error url_path owner_error cfg req wf w = (o, w') → I w → I w'.
Proof.
  intros Hdel Hr Hi. unfold dispatches_of in Hr. destruct (wf_ReviewReady (wk_Spec wf)).
  - unfold RunReviewGateSweep, runGate in Hr. destruct (sweep _ _ _ _ _ _ _ _ w) as [[o1 s] w1] eqn:Hs.
    pose proof (keep_sweep I parse_json kube_text label_error url_path owner_error (gate_deps_of cfg req) wf false
      w o1 s w1 F Hdel Hs Hi). destruct o1; by simplify_eq.
  - destruct (ResolveOrCreate _ _ _ w) as [r w1] eqn:Hs. apply (keep_resolve I (fr_ledger I F)) in Hs; [|done].
    destruct r as [[a b]|e]; by simplify_eq.
Qed.
End frame.

(** C2. The dispatcher records before it acts. Let [I] be any property of the
    world that every call of the dispatch keeps, Jobs apart; that deleting a Job
    keeps under the sweep's own conditions; and that creating a Job keeps
    whenever the creation is allowed: the Job is the one built from an attempt
    read in this dispatch with a validated runtime, a list of the workflow's
    live Jobs taken in this dispatch has none of that attempt, and the call
    immediately before committed the dispatch intent on that attempt. Then the
    whole dispatch keeps [I], whatever its outcome: an error, a panic, or a gate
    that hands out nothing. *)
Theorem dispatch_intent_first {W : Type} `{kube : KubeClient W} `{rc : RetryOnConflict} `{!RetryLaws}
    `{api : ReviewAPI W} `{jc : JobClient W} `{gw : GateWorld W} `{sw : SpecWorld W}
    {J : Type} `{JsonMap J} `{Semver} `{ManifestCodec} (I : W → Prop)
    environ map_order marshal_envelope IsDNS1123Label parse_json kube_text label_error url_path owner_error
    cfg req (w : W) o w' :
  Frame I → SpecFrame I →
  (∀ wf j w r w', MayDelete I (gate_deps_of cfg req) wf j w → I w →
     jc_delete (om_Namespace (wk_Meta wf), jb_Name j) w = (r, w') → I w') →
  (∀ wf job w r w', MayCreate environ map_order marshal_envelope cfg req I wf job w → I w →
     jc_create job w = (r, w') → I w') →
  Dispatch environ map_order marshal_envelope IsDNS1123Label parse_json kube_text label_error url_path owner_error
    cfg req w = (o, w') → I w → I w'.
Proof.
  intros F SF Hdel Hcr Hr Hi. unfold Dispatch in Hr.
  destruct (FetchWorkflow _ _ w) as [r1 w1] eqn:Hf. apply (keep_fetch req I SF) in Hf; [|done].
  destruct r1 as [wf|e|]; [|by simplify_eq..].
  destruct (ValidateAttachments _ _ _); [by simplify_eq|].
  destruct (ValidateRepoWikiConfig _ _); [by simplify_eq|].
  destruct (dispatches_of _ _ _ _ _ _ _ wf w1) as [r2 w2] eqn:Hd.
  pose proof (keep_dispatches parse_json kube_text label_error url_path owner_error cfg req I F wf w1 r2 w2
    (Hdel wf) Hd Hf) as Hi2.
  destruct r2 as [[|g ds]|e|]; [by simplify_eq| |by simplify_eq..].
  destruct (ListActiveJobs _ _ w2) as [r3 w3] eqn:Hl. pose proof (keep_active I F _ _ _ _ _ Hl Hi2) as Hi3.
  destruct r3 as [live|e]; [|by simplify_eq].
  exact (keep_create_jobs environ map_order marshal_envelope cfg req I F SF wf (Hcr wf) (g :: ds) live w2 w3 w3 o w'
    Hi2 Hl Hr Hi3).
Qed.

(** C21. Invalid declarations stop a dispatch before its gate: attachments or a
    wiki source that do not validate are answered with their error, and the
    world is as the reads of the workflow and its template left it. Once
    they validate, no later error of the dispatch is one of the fetch or of the
    validation. *)
Theorem dispatch_validates_first {W : Type} `{kube : KubeClient W} `{rc : RetryOnConflict}
    `{api : ReviewAPI W} `{jc : JobClient W} `{gw : GateWorld W} `{sw : SpecWorld W}
    {J : Type} `{JsonMap J} `{Semver} `{ManifestCodec}
    environ map_order marshal_envelope IsDNS1123Label parse_json kube_text label_error url_path owner_error
    cfg req (w : W) wf w1 :
  FetchWorkflow (rq_Namespace req) (rq_Workflow req) w = (Returns wf, w1) →
  let run := Dispatch environ map_order marshal_envelope IsDNS1123Label parse_json kube_text label_error url_path
    owner_error cfg req w in
  match ValidateAttachments IsDNS1123Label (wf_Attachments (wk_Spec wf)) (rq_Workflow req),
        ValidateRepoWikiConfig parse_json (wf_Config (wk_Spec wf)) with
  | Some e, _ => run = (Fails (AttachmentsInvalid (rq_Workflow req) e), w1)
  | None, Some v => run = (Fails (ConfigInvalid (rq_Workflow req) v), w1)
  | None, None =>
      (∀ e, run.1 = Fails e → match e with
         | GetWorkflowError _ _ _ | GetTemplateError _ _ _ | AttachmentsInvalid _ _ | ConfigInvalid _ _ => False
         | _ => True
         end)
  end.
Proof.
  intros Hf. cbn zeta. unfold Dispatch. rewrite Hf.
  destruct (ValidateAttachments _ _ _); [done|]. destruct (ValidateRepoWikiConfig _ _); [done|].
  assert (∀ g (w : W) e, (create_one environ map_order marshal_envelope cfg req wf g w).1 = Fails e →
    match e with GetWorkflowError _ _ _ | GetTemplateError _ _ _ | AttachmentsInvalid _ _ | ConfigInvalid _ _ => False
    | _ => True end) as Hone.
  { intros g w2 e. unfold create_one. repeat (case_match; simplify_eq/=); intros [= <-]; done. }
  intros e. destruct (dispatches_of _ _ _ _ _ _ _ wf w1) as [[l|e'|] w2] eqn:Hd; cbn; [|intros [= <-]|done].
  - destruct l as [|g l]; [done|]. destruct (ListActiveJobs _ _ w2) as [[live|k] w3]; [|by intros [= <-]].
    revert w3. generalize (g :: l). intros ds. induction ds as [|d ds IH]; intros w3; cbn [create_jobs]; [done|].
    destruct (List.find _ live) as [j|]; [destruct (CompleteDispatchEdge _ _ _ w3); apply IH|].
    destruct (create_one _ _ _ _ _ _ d w3) as [[?|e'|] w4] eqn:Ho; [apply IH| |done].
    cbn. intros [= <-]. apply (Hone d w3). by rewrite Ho.
  - unfold dispatches_of in Hd. repeat case_match; by simplify_eq.
Qed.

(** ** A fleet that dispatches *)

#[export] Instance fleet_specs : SpecWorld Fleet := {|
  sw_GetWorkflow k f := (match fl_specs f !! k with Some wf => Ok wf | None => Err NotFound end, f);
  sw_GetTemplate k f := (Err NotFound, f);
  sw_GetProfile k f := (Err NotFound, f);
  sw_ListWorkflows ns f := (Ok ((map_to_list (fl_specs f)).*2), f);
|}.

Definition without_template (s : WorkflowSpec) : WorkflowSpec :=
  {| wf_Source := wf_Source s; wf_TemplateRef := ""; wf_Config := wf_Config s;
     wf_WorkspaceRepo := wf_WorkspaceRepo s; wf_Prepare := wf_Prepare s; wf_Agent := wf_Agent s;
     wf_Deploy := wf_Deploy s; wf_Graph := wf_Graph s; wf_ReviewReady := wf_ReviewReady s;
     wf_Bindings := wf_Bindings s; wf_Events := wf_Events s; wf_Cache := wf_Cache s;
     wf_Sessions := wf_Sessions s; wf_Attachments := wf_Attachments s;
     wf_PluginsConfigMapRef := wf_PluginsConfigMapRef s; wf_Scaling := wf_Scaling s;
     wf_Disabled := wf_Disabled s |}.

Definition ready_workflow (cap : Z) : Workflow := set_spec (without_template (wk_Spec (gated cap))) (gated cap).

Definition with_specs (specs : gmap Key Workflow) (f : Fleet) : Fleet :=
  {| fl_cluster := fl_cluster f; fl_forge := fl_forge f; fl_jobs := fl_jobs f; fl_deleted := fl_deleted f;
     fl_status := fl_status f; fl_timeline := fl_timeline f; fl_ctx := fl_ctx f; fl_specs := specs |}.

Definition fleet_cfg : DispatchConfig :=
  {| dc_FleetMaxConcurrent := 2; dc_DisableCancelOnSupersede := false; dc_JobImage := "img"; dc_ServiceAccount := "sa";
     dc_JobTTLSeconds := Some 3600; dc_DaprdImage := ""; dc_PluginConfigMaps := [];
     dc_ExtraConfigMapMounts := []; dc_AggregatePlugins := false; dc_PluginLabelValue := "true" |}.

Definition run_dispatch (f : Fleet) : Outcome unit * Fleet :=
  Dispatch [] map_to_list (λ _, "{}") (λ _, []) scope_json (λ _, "") (λ _, None) (λ _, None) (λ _ _, None)
    fleet_cfg plain_request f.

Definition two_fleet (head1 head2 : string) : Fleet :=
  with_specs {[("ns", "docs") := ready_workflow 2]}
    (fleet_of []
      {| fg_pulls := {[("h/o/n", 7) := pull_n 7 head1; ("h/o/n", 8) := pull_n 8 head2]};
         fg_comments := ∅; fg_required := {[("h/o/n", "main") := ["ci"]]};
         fg_states := {[("h/o/n", head_a) := {["ci" := "success"]}; ("h/o/n", head_b) := {["ci" := "success"]}]};
         fg_threads := ∅; fg_posted := [] |} []).

(** Every Job belongs to an Attempt and to the workflow. *)
Definition owned_jobs (f : Fleet) : Prop :=
  Forall (λ j, jb_Labels j !! "harmostes.dev/workflow" = Some "docs"
               ∧ ∃ o, jb_Controller j = Some o ∧ ow_Kind o = "Attempt") (fl_jobs f).

Lemma owned_frame : Frame owned_jobs.
Proof.
  assert (∀ A (m : Cluster → A * Cluster) f r f', on_cluster m f = (r, f') → owned_jobs f → owned_jobs f') as Hc.
  { intros A m f r f'. unfold on_cluster. destruct (m _). by intros [= _ <-]. }
  assert (∀ A (m : Forge → A * Forge) f r f', on_forge m f = (r, f') → owned_jobs f → owned_jobs f') as Hg.
  { intros A m f r f'. unfold on_forge. destruct (m _). by intros [= _ <-]. }
  split; [split; [split|..]|..]; intros; simpl in *; first [by eapply Hc | by eapply Hg | by simplify_eq].
Qed.

Lemma owned_specs : SpecFrame owned_jobs.
Proof. split; intros; simpl in *; by simplify_eq. Qed.

Definition heads_ab : Fleet := two_fleet head_a head_b.

Lemma BuildJob_labels `{ManifestCodec} getenv p now j :
  BuildJob getenv p now = Some j →
  jb_Labels j = Jobs.job_labels p
  ∧ jb_Controller j = Some {| ow_Kind := "Attempt"; ow_Name := om_Name (at_Meta (jm_Attempt p));
                              ow_UID := om_UID (at_Meta (jm_Attempt p)) |}.
Proof. unfold BuildJob. destruct (manifest_env p) as [m|]; [|done]. by intros [= <-]. Qed.

Lemma dispatch_intent_first_witness :
  (run_dispatch heads_ab).1 = Returns tt ∧ length (fl_jobs (run_dispatch heads_ab).2) = 2%nat
  ∧ owned_jobs (run_dispatch heads_ab).2.
Proof.
  split; [vm_compute; reflexivity|]. split; [vm_compute; reflexivity|].
  apply (dispatch_intent_first owned_jobs [] map_to_list (λ _, "{}") (λ _, []) scope_json (λ _, "") (λ _, None)
    (λ _, None) (λ _ _, None) fleet_cfg plain_request heads_ab (run_dispatch heads_ab).1 (run_dispatch heads_ab).2).
  - exact owned_frame.
  - exact owned_specs.
  - intros wf j w r w' _ Hi Hd. simpl in Hd. injection Hd as _ <-. unfold owned_jobs. simpl.
    apply Forall_forall. intros x [_ Hx]%list_elem_of_filter. by apply (proj1 (Forall_forall _ _) Hi).
  - intros wf job w r w' (g&a&rt&now&live&w0&w1&w2&w3&w4&w5&w6&_&_&_&_&_&_&_&Hj&_) Hi Hc.
    simpl in Hc. injection Hc as _ <-. unfold owned_jobs. simpl. apply Forall_app. split; [exact Hi|].
    apply Forall_singleton. unfold job_of in Hj. apply BuildJob_labels in Hj as [Hl Ho].
    simpl. rewrite Hl, Ho. split; [reflexivity|]. eexists. split; [reflexivity|reflexivity].
  - unfold run_dispatch. apply surjective_pairing.
  - constructor.
Defined.

Definition bad_attachment : SharedAttachment :=
  {| sa_Name := "x"; sa_Scope := "workflow"; sa_PVC := "p"; sa_MountPath := "/workspace/../skills/y" |}.
Definition shadowing : Workflow :=
  let s := without_template (wk_Spec (gated 2)) in
  set_spec
    {| wf_Source := wf_Source s; wf_TemplateRef := wf_TemplateRef s; wf_Config := wf_Config s;
       wf_WorkspaceRepo := wf_WorkspaceRepo s; wf_Prepare := wf_Prepare s; wf_Agent := wf_Agent s;
       wf_Deploy := wf_Deploy s; wf_Graph := wf_Graph s; wf_ReviewReady := wf_ReviewReady s;
       wf_Bindings := wf_Bindings s; wf_Events := wf_Events s; wf_Cache := wf_Cache s;
       wf_Sessions := wf_Sessions s; wf_Attachments := [bad_attachment];
       wf_PluginsConfigMapRef := wf_PluginsConfigMapRef s; wf_Scaling := wf_Scaling s;
       wf_Disabled := wf_Disabled s |} (gated 2).

Lemma dispatch_validates_first_witness :
  let f := with_specs {[("ns", "docs") := shadowing]} heads_ab in
  run_dispatch f = (Fails (AttachmentsInvalid "docs" (MountShadows "x" "/skills/y" "/skills")), f).
Proof.
  intros f.
  exact (dispatch_validates_first [] map_to_list (λ _, "{}") (λ _, []) scope_json (λ _, "") (λ _, None)
    (λ _, None) (λ _ _, None) fleet_cfg plain_request f shadowing f eq_refl).
Defined.

(** Two pull requests at one head share an attempt; the live list is read once,
    so one dispatch creates two Jobs for it. *)
Lemma one_attempt_two_jobs :
  let r := run_dispatch (two_fleet head_a head_a) in
  r.1 = Returns tt
  ∧ (λ j, jb_Labels j !! AttemptLabel) <$> fl_jobs r.2
    = [Some (gate_name 2 head_a); Some (gate_name 2 head_a)].
Proof. vm_compute. done. Qed.

(** A second trigger finds both attempts with their live Jobs and creates none. *)
Lemma second_trigger_dedupes :
  let f := (run_dispatch heads_ab).2 in fl_jobs (run_dispatch f).2 = fl_jobs f.
Proof. vm_compute. done. Qed.
