(* ===== verification/WorkflowState.v ===== *)
(** * Workflow objects and their status ([internal/k8s/k8s.go])

    A Workflow as the API server keeps it: spec, annotations, generation and
    status. [WorkflowClient] is the client's reads and conditional patches;
    [WorkflowLaws] their documented behaviour, with reads that may come from an
    informer's cache: they answer with a state of the past. [StatusPatcher] is
    the read-modify-write the gate and the pipeline use. *)

From S2P Require Import Prelude GoTime Api ReviewReady Kube AttemptStore Review Gate Sweep.

(** ** Data *)

(** [metav1.Condition], whole. *)
Record StatusCondition := {
  sc_Type : string;
  sc_Status : string;
  sc_Reason : string;
  sc_Message : string;
  sc_ObservedGeneration : Z;
  sc_LastTransitionTime : Z;
}.

Record WorkflowStatus := {
  ws_ObservedGeneration : Z;
  ws_LastProcessedRevision : string;
  ws_LastAgentCommit : string;
  ws_LastRigHash : string;
  ws_GateStatus : string;
  ws_ReviewReady : option ReviewReadyStatus;
  ws_LastRunAt : Z;
  ws_Message : string;
  ws_Conditions : list StatusCondition;
}.

Definition zero_wstatus : WorkflowStatus :=
  {| ws_ObservedGeneration := 0; ws_LastProcessedRevision := ""; ws_LastAgentCommit := "";
     ws_LastRigHash := ""; ws_GateStatus := ""; ws_ReviewReady := None; ws_LastRunAt := 0;
     ws_Message := ""; ws_Conditions := [] |}.

Definition set_LastRun (t : Z) (s : WorkflowStatus) : WorkflowStatus :=
  {| ws_ObservedGeneration := ws_ObservedGeneration s;
     ws_LastProcessedRevision := ws_LastProcessedRevision s;
     ws_LastAgentCommit := ws_LastAgentCommit s; ws_LastRigHash := ws_LastRigHash s;
     ws_GateStatus := ws_GateStatus s; ws_ReviewReady := ws_ReviewReady s; ws_LastRunAt := t;
     ws_Message := ws_Message s; ws_Conditions := ws_Conditions s |}.

Definition set_observed (g : Z) (l : list StatusCondition) (s : WorkflowStatus) : WorkflowStatus :=
  {| ws_ObservedGeneration := g; ws_LastProcessedRevision := ws_LastProcessedRevision s;
     ws_LastAgentCommit := ws_LastAgentCommit s; ws_LastRigHash := ws_LastRigHash s;
     ws_GateStatus := ws_GateStatus s; ws_ReviewReady := ws_ReviewReady s;
     ws_LastRunAt := ws_LastRunAt s; ws_Message := ws_Message s; ws_Conditions := l |}.

Definition set_ReviewReady (r : option ReviewReadyStatus) (s : WorkflowStatus) : WorkflowStatus :=
  {| ws_ObservedGeneration := ws_ObservedGeneration s;
     ws_LastProcessedRevision := ws_LastProcessedRevision s;
     ws_LastAgentCommit := ws_LastAgentCommit s; ws_LastRigHash := ws_LastRigHash s;
     ws_GateStatus := ws_GateStatus s; ws_ReviewReady := r; ws_LastRunAt := ws_LastRunAt s;
     ws_Message := ws_Message s; ws_Conditions := ws_Conditions s |}.

Record WorkflowObject := {
  wo_Workflow : Workflow;
  wo_Annotations : gmap string string;
  wo_Generation : Z;
  wo_Status : WorkflowStatus;
}.

Definition wo_Meta (o : WorkflowObject) : ObjectMeta := wk_Meta (wo_Workflow o).
Definition wo_Spec (o : WorkflowObject) : WorkflowSpec := wk_Spec (wo_Workflow o).
Definition wkey (o : WorkflowObject) : Key := (om_Namespace (wo_Meta o), om_Name (wo_Meta o)).
Definition wrv (o : WorkflowObject) : Z := om_ResourceVersion (wo_Meta o).

(** A missing annotation reads as the empty text. *)
Definition annotation (key : string) (o : WorkflowObject) : string := default "" (wo_Annotations o !! key).

Definition set_wrv (rv : Z) (o : WorkflowObject) : WorkflowObject :=
  let m := wo_Meta o in
  {| wo_Workflow := {| wk_Meta := {| om_Name := om_Name m; om_Namespace := om_Namespace m;
                                     om_Labels := om_Labels m;
                                     om_CreationTimestamp := om_CreationTimestamp m;
                                     om_ResourceVersion := rv; om_UID := om_UID m |};
                       wk_Spec := wo_Spec o |};
     wo_Annotations := wo_Annotations o; wo_Generation := wo_Generation o; wo_Status := wo_Status o |}.

Definition set_WStatus (s : WorkflowStatus) (o : WorkflowObject) : WorkflowObject :=
  {| wo_Workflow := wo_Workflow o; wo_Annotations := wo_Annotations o;
     wo_Generation := wo_Generation o; wo_Status := s |}.

Definition set_Annotations (m : gmap string string) (o : WorkflowObject) : WorkflowObject :=
  {| wo_Workflow := wo_Workflow o; wo_Annotations := m; wo_Generation := wo_Generation o;
     wo_Status := wo_Status o |}.

(** ** What a stored status keeps

    [metav1.Time] is written with whole seconds. *)

Definition whole_seconds (t : Z) : Z := t - t `mod` Second.

Definition stored_refusal (r : ReviewRefusal) : ReviewRefusal :=
  {| rf_Repo := rf_Repo r; rf_PR := rf_PR r; rf_HeadSHA := rf_HeadSHA r; rf_Reason := rf_Reason r;
     rf_At := whole_seconds <$> rf_At r; rf_VerdictURL := rf_VerdictURL r; rf_Emitted := rf_Emitted r;
     rf_HostNotified := rf_HostNotified r |}.

Definition stored_ready (r : ReviewReadyStatus) : ReviewReadyStatus :=
  {| ry_LiveClaims := ry_LiveClaims r; ry_Capacity := ry_Capacity r;
     ry_LastDecision := ry_LastDecision r; ry_LastReason := ry_LastReason r;
     ry_LastSweepAbortAt := whole_seconds <$> ry_LastSweepAbortAt r; ry_LastWake := ry_LastWake r;
     ry_Refusals := stored_refusal <$> ry_Refusals r |}.

Definition stored_condition (c : StatusCondition) : StatusCondition :=
  {| sc_Type := sc_Type c; sc_Status := sc_Status c; sc_Reason := sc_Reason c;
     sc_Message := sc_Message c; sc_ObservedGeneration := sc_ObservedGeneration c;
     sc_LastTransitionTime := whole_seconds (sc_LastTransitionTime c) |}.

Definition stored (s : WorkflowStatus) : WorkflowStatus :=
  {| ws_ObservedGeneration := ws_ObservedGeneration s;
     ws_LastProcessedRevision := ws_LastProcessedRevision s;
     ws_LastAgentCommit := ws_LastAgentCommit s; ws_LastRigHash := ws_LastRigHash s;
     ws_GateStatus := ws_GateStatus s; ws_ReviewReady := stored_ready <$> ws_ReviewReady s;
     ws_LastRunAt := whole_seconds (ws_LastRunAt s); ws_Message := ws_Message s;
     ws_Conditions := stored_condition <$> ws_Conditions s |}.

Lemma whole_seconds_bounds t : whole_seconds t ≤ t < whole_seconds t + Second.
Proof. unfold whole_seconds, Second. pose proof (Z.mod_pos_bound t 1000000000). lia. Qed.

(** ** The client *)

Class WorkflowClient (W : Type) := {
  wc_get : Key → W → result KErr WorkflowObject * W;
  (** Merge patches under a resource version: the object read, what it becomes. *)
  wc_patch_status : WorkflowObject → WorkflowStatus → W → result KErr unit * W;
  wc_patch_annotations : WorkflowObject → gmap string string → W → result KErr unit * W;
}.

(** [wc_past] relates a state to those our own requests and others lead to. *)
Class WorkflowLaws (W : Type) `{ClientLaws W} `{WorkflowClient W} := {
  wc_obj : W → Key → option WorkflowObject;
  wc_past : W → W → Prop;
  past_trans :: Transitive wc_past;
  past_env : ∀ w w', kc_env w w' → wc_past w w';
  wobj_key : ∀ w k o, wc_obj w k = Some o → wkey o = k;
  wrv_content : ∀ w w' k a b, wc_past w w' → wc_obj w k = Some a → wc_obj w' k = Some b →
    wrv a = wrv b → a = b;
  wget_law : ∀ k w r w', wc_get k w = (r, w') →
    kc_env w w' ∧ match r with
                  | Ok o => ∃ w0, wc_past w0 w' ∧ wc_obj w0 k = Some o
                  | Err e => e ≠ Conflict
                  end;
  wstatus_law : ∀ base st w r w', wc_patch_status base st w = (r, w') →
    let done := ∃ cur rv, wrv cur = wrv base
      ∧ Commit wc_obj kc_env (wkey base) (Some cur) (Some (set_wrv rv (set_WStatus (stored st) cur))) w w' in
    match r with
    | Ok _ => done
    | Err Conflict | Err NotFound => kc_env w w'
    | Err _ => kc_env w w' ∨ done
    end;
  wannotations_law : ∀ base m w r w', wc_patch_annotations base m w = (r, w') →
    let done := ∃ cur rv, wrv cur = wrv base
      ∧ Commit wc_obj kc_env (wkey base) (Some cur) (Some (set_wrv rv (set_Annotations m cur))) w w' in
    match r with
    | Ok _ => done
    | Err Conflict | Err NotFound => kc_env w w'
    | Err _ => kc_env w w' ∨ done
    end;
}.

(** ** [StatusPatcher] *)

Section patcher.
Context {W : Type} `{WorkflowClient W} `{RetryOnConflict}.

Definition GetStatus (namespace name : string) : M W Error WorkflowStatus := λ w,
  match wc_get (namespace, name) w with
  | (Err e, w) => (Err (EWrap ("get workflow " +:+ name) (EKube e)), w)
  | (Ok wf, w) => (Ok (wo_Status wf), w)
  end.

Definition PatchStatus_body (namespace name : string) (mutate : WorkflowStatus → WorkflowStatus)
    : M W Error unit := λ w,
  match wc_get (namespace, name) w with
  | (Err e, w) => (Err (EWrap ("get workflow " +:+ name) (EKube e)), w)
  | (Ok wf, w) =>
      match wc_patch_status wf (mutate (wo_Status wf)) w with
      | (Err e, w) => (Err (EWrap ("patch workflow " +:+ name +:+ " status") (EKube e)), w)
      | (Ok _, w) => (Ok tt, w)
      end
  end.

Definition PatchStatus (namespace name : string) (mutate : WorkflowStatus → WorkflowStatus) : M W Error unit :=
  retry (PatchStatus_body namespace name mutate).

(** The gate's collaborators over a [StatusPatcher]: it reads and writes the
    part of the status that is its own. *)
Definition patcher_gate (ctx_err : W → option string) (emit : string → Payload → M W string unit)
    (namespace : string) : GateWorld W := {|
  gw_ctx_err := ctx_err;
  gw_GetStatus name w := match GetStatus namespace name w with
                         | (Ok s, w) => (Ok (ws_ReviewReady s), w)
                         | (Err e, w) => (Err e, w)
                         end;
  gw_PatchStatus name f := PatchStatus namespace name (λ s, set_ReviewReady (f (ws_ReviewReady s)) s);
  gw_Emit := emit;
|}.
End patcher.

(** ** Laws *)

Section laws.
Context {W : Type} `{HK : KubeClient W} `{!ClientLaws W} `{HC : WorkflowClient W} `{HL : !WorkflowLaws W}
  `{HR : RetryOnConflict} `{!RetryLaws}.

Notation wrote := (Wrote wc_obj kc_env).

(** What a read gives a later conditional write: the object of its version. *)
Definition read_in_past (o : WorkflowObject) (w : W) : Prop :=
  ∃ w0, wc_past w0 w ∧ wc_obj w0 (wkey o) = Some o.

Lemma read_env o (w w' : W) : kc_env w w' → read_in_past o w → read_in_past o w'.
Proof. intros He (w0&Hp&Ho). exists w0. split; [etransitivity; [done|by apply past_env]|done]. Qed.

Lemma wget_read k (w : W) o w' :
  wc_get k w = (Ok o, w') → kc_env w w' ∧ wkey o = k ∧ read_in_past o w'.
Proof.
  intros Hg. apply wget_law in Hg as (He&w0&Hp&Ho). assert (wkey o = k) as Hk by by eapply wobj_key.
  split_and!; [done|done|]. exists w0. by rewrite Hk.
Qed.

(** A conditional patch commits on the very object it was computed from. *)
Lemma commit_on_read o f (w w' : W) cur rv :
  read_in_past o w → wrv cur = wrv o →
  Commit wc_obj kc_env (wkey o) (Some cur) (Some (set_wrv rv (f cur))) w w' →
  wrote [(wkey o, Some o, Some (set_wrv rv (f o)))] w w'.
Proof.
  intros (w0&Hp&Ho) Hrv HC1. assert (o = cur) as <-.
  { destruct HC1 as (wa&wb&Ha&Hcur&_). eapply (wrv_content w0 wa); [|done..].
    etransitivity; [done|by apply past_env]. }
  by apply Wrote_one; [exact _|].
Qed.

Lemma status_patch o st (w : W) r w' :
  read_in_past o w → wc_patch_status o st w = (r, w') →
  ∃ tr, wrote tr w w' ∧
    (tr = [] ∧ is_ok r = false
     ∨ r ≠ Err Conflict ∧ ∃ rv, tr = [(wkey o, Some o, Some (set_wrv rv (set_WStatus (stored st) o)))]).
Proof.
  intros Hr Hp. apply wstatus_law in Hp. cbv zeta in Hp.
  assert (kc_env w w' ∧ is_ok r = false ∨ r ≠ Err Conflict ∧ ∃ cur rv, wrv cur = wrv o
    ∧ Commit wc_obj kc_env (wkey o) (Some cur) (Some (set_wrv rv (set_WStatus (stored st) cur))) w w') as Hcases.
  { destruct r as [|[]]; try (by left); [by right|..]; (destruct Hp; [by left|by right]). }
  destruct Hcases as [[? ?]|(?&cur&rv&Hrv&HC1)].
  - exists []. split; [by apply wrote_none|by left].
  - eexists. split; [by eapply (commit_on_read _ (set_WStatus (stored st)))|]. right. split; [done|by eexists].
Qed.

Lemma annotations_patch o m (w : W) r w' :
  read_in_past o w → wc_patch_annotations o m w = (r, w') →
  ∃ tr, wrote tr w w' ∧
    (tr = [] ∧ is_ok r = false
     ∨ r ≠ Err Conflict ∧ ∃ rv, tr = [(wkey o, Some o, Some (set_wrv rv (set_Annotations m o)))]).
Proof.
  intros Hr Hp. apply wannotations_law in Hp. cbv zeta in Hp.
  assert (kc_env w w' ∧ is_ok r = false ∨ r ≠ Err Conflict ∧ ∃ cur rv, wrv cur = wrv o
    ∧ Commit wc_obj kc_env (wkey o) (Some cur) (Some (set_wrv rv (set_Annotations m cur))) w w') as Hcases.
  { destruct r as [|[]]; try (by left); [by right|..]; (destruct Hp; [by left|by right]). }
  destruct Hcases as [[? ?]|(?&cur&rv&Hrv&HC1)].
  - exists []. split; [by apply wrote_none|by left].
  - eexists. split; [by eapply (commit_on_read _ (set_Annotations m))|]. right. split; [done|by eexists].
Qed.

(** A status write of [PatchStatus]: the mutation of the status it replaced. *)
Definition mutated (k : Key) (f : WorkflowStatus → WorkflowStatus)
    (tr : list (Key * option WorkflowObject * option WorkflowObject)) : Prop :=
  ∃ o rv, tr = [(k, Some o, Some (set_wrv rv (set_WStatus (stored (f (wo_Status o))) o)))].

(** A status patch is one read-modify-write of the status it replaced, however
    often it conflicts and however stale the cache it read. *)
Theorem PatchStatus_atomic namespace name f (w : W) r w' :
  PatchStatus namespace name f w = (r, w') →
  ∃ tr, wrote tr w w' ∧ (mutated (namespace, name) f tr ∨ tr = [] ∧ is_ok r = false).
Proof.
  unfold PatchStatus. intros Hr.
  eapply (retry_wrote _ _ _ (λ r _ tr _, mutated (namespace, name) f tr ∨ tr = [] ∧ is_ok r = false)) in Hr;
    [done|auto|].
  clear w r w' Hr. intros w r w' Hr. unfold PatchStatus_body in Hr.
  destruct (wc_get _ w) as [[o|e] w1] eqn:Hg.
  - apply wget_read in Hg as (He&Hk&Hrd).
    destruct (wc_patch_status _ _ w1) as [r2 w2] eqn:Hp. apply status_patch in Hp as (tr&Hw&Htr); [|done].
    exists tr. rewrite Hk in Htr. destruct r2 as [[]|e]; simplify_eq.
    + split_and!; [by eapply Wrote_env_l; [exact _|..]|destruct Htr as [[? ?]|(_&rv&->)]; [done|left; by exists o, rv]|done].
    + split_and!; [by eapply Wrote_env_l; [exact _|..]|destruct Htr as [[? ?]|(_&rv&->)]; [by right|left; by exists o, rv]|].
      intros e' [= <-] Hc. simpl in Hc. destruct e; try done. destruct Htr as [[? ?]|(?&_)]; done.
  - apply wget_law in Hg as (He&Hne). simplify_eq. exists []. split_and!; [by apply wrote_none|by right|done].
Qed.
End laws.
