(* ===== verification/Controller.v ===== *)
(** * The controller ([internal/controller])

    First the pure part of the controller: [isDue] and the reasons it publishes
    (workflow_controller.go, trigger.go), the predicate that lets a finished run
    wake its workflow (attempt_trigger.go), and the merge of conditions. The
    cron library is a parameter: the next activation strictly after an instant,
    or a parse error. Then the reconciler. *)

From S2P Require Import Prelude GoStrings GoTime Api Profile ReviewReady AttemptName Ledger Kube AttemptStore ReviewClaim LedgerFrame Review Gate Sweep Dispatch WorkflowState.

(** ** Keys and intervals *)

Definition TriggerRevisionAnnotation : string := "harmostes.dev/trigger-revision".
Definition TriggerRepoAnnotation : string := "harmostes.dev/trigger-repo".
Definition TriggerPRAnnotation : string := "harmostes.dev/trigger-pr".
Definition TriggerActionAnnotation : string := "harmostes.dev/trigger-action".
Definition TriggerTitleAnnotation : string := "harmostes.dev/trigger-title".
Definition ManualTriggerPrefix : string := "manual-".

Definition webhookMinTriggerInterval : Z := 10 * Second.
Definition invalidScheduleRetry : Z := 5 * Minute.
Definition minScheduleRequeue : Z := Minute.

(** A wake that has not been processed yet. *)
Definition unprocessed_wake (o : WorkflowObject) : bool :=
  let rev := annotation TriggerRevisionAnnotation o in
  negb (bool_decide (rev = "")) && negb (bool_decide (rev = ws_LastProcessedRevision (wo_Status o))).

(** A gate with something in flight, or waiting for CI. *)
Definition gate_armed (s : WorkflowStatus) : bool :=
  match ws_ReviewReady s with
  | Some rr => (0 <? ry_LiveClaims rr) || bool_decide (ry_LastDecision rr = "waiting")
  | None => false
  end.

Section due.
Context (cron_next : string → Z → result string Z).
Context (PollInterval : Z).

(** [cron.ParseStandard] and [Next]. *)
Definition nextCronActivation (spec : string) (last : Z) : result string Z := cron_next spec last.

Definition isDue (o : WorkflowObject) (now : Z) : bool * Z :=
  let s := wo_Status o in
  if unprocessed_wake o then (true, 0)
  else if negb (ws_ObservedGeneration s =? wo_Generation o) then (true, PollInterval)
  else if gate_armed s then (true, PollInterval)
  else if decide (so_Kind (wf_Source (wo_Spec o)) = "webhook") then (false, PollInterval)
  else
    let sched := TrimSpace (so_Schedule (wf_Source (wo_Spec o))) in
    if decide (sched ≠ "") then
      match nextCronActivation sched (ws_LastRunAt s) with
      | Err _ => (false, invalidScheduleRetry)
      | Ok next =>
          let requeue := time_Sub next now in
          if 0 <? requeue then (false, Z.max requeue minScheduleRequeue) else (true, PollInterval)
      end
    else if negb (time_IsZero (ws_LastRunAt s)) then
      let elapsed := time_Sub now (ws_LastRunAt s) in
      if elapsed <? PollInterval then (false, i64 (PollInterval - elapsed)) else (true, PollInterval)
    else (true, PollInterval).
End due.

Definition dueReason (o : WorkflowObject) : string :=
  let rev := annotation TriggerRevisionAnnotation o in
  if decide (rev ≠ "") then (if has_prefix rev ManualTriggerPrefix then "manual" else "webhook")
  else if negb (ws_ObservedGeneration (wo_Status o) =? wo_Generation o) then "spec changed"
  else "schedule".

(** Of trigger.go; the reconciler publishes [dueReason]. *)
Definition triggerReason (o : WorkflowObject) : string :=
  let rev := annotation TriggerRevisionAnnotation o in
  if bool_decide (rev ≠ "") && has_prefix rev ManualTriggerPrefix then "manual"
  else if bool_decide (rev ≠ "") && negb (bool_decide (rev = ws_LastProcessedRevision (wo_Status o)))
  then "webhook"
  else if negb (ws_ObservedGeneration (wo_Status o) =? wo_Generation o) then "spec-change"
  else "schedule".

Definition triggerSourceOf (o : WorkflowObject) : string :=
  if decide (annotation TriggerRevisionAnnotation o ≠ "") then "webhook"
  else if decide (so_Schedule (wf_Source (wo_Spec o)) ≠ "") then "schedule"
  else "controller".

(** ** Finished runs *)

Definition run_ended (r : RunRecord) : bool := RunTerminalPhase (rr_Phase r) && negb (time_IsZero (rr_EndedAt r)).

(** [runTerminalPredicate]. Creations, deletions and generic events never pass. *)
Definition terminal_update (oldA newA : Attempt) : bool :=
  let terminalBefore := list_to_set (C := gset string) (rr_Name <$> filter (λ r, run_ended r = true) (st_Runs (at_Status oldA))) in
  existsb (λ r, run_ended r && negb (bool_decide (rr_Name r ∈ terminalBefore))) (st_Runs (at_Status newA)).

Definition attemptTerminalToWorkflow (a : Attempt) : list Key :=
  match cut_first "/"%char (as_WorkflowRef (at_Spec a)) with
  | Some (ns, name) => if decide (ns = "" ∨ name = "") then [] else [(ns, name)]
  | None => []
  end.

Definition ended_after (last : Z) (a : Attempt) : bool :=
  existsb (λ r, run_ended r && time_After (rr_EndedAt r) last) (st_Runs (at_Status a)).

(** ** Conditions *)

Fixpoint setCondition (now : Z) (conds : list StatusCondition) (c : StatusCondition) : list StatusCondition :=
  match conds with
  | [] => [ {| sc_Type := sc_Type c; sc_Status := sc_Status c; sc_Reason := sc_Reason c;
               sc_Message := sc_Message c; sc_ObservedGeneration := sc_ObservedGeneration c;
               sc_LastTransitionTime := now |} ]
  | existing :: conds =>
      if decide (sc_Type existing = sc_Type c) then
        (if decide (sc_Status existing = sc_Status c) then
           {| sc_Type := sc_Type existing; sc_Status := sc_Status existing; sc_Reason := sc_Reason c;
              sc_Message := sc_Message c; sc_ObservedGeneration := sc_ObservedGeneration existing;
              sc_LastTransitionTime := sc_LastTransitionTime existing |}
         else {| sc_Type := sc_Type c; sc_Status := sc_Status c; sc_Reason := sc_Reason c;
                 sc_Message := sc_Message c; sc_ObservedGeneration := sc_ObservedGeneration c;
                 sc_LastTransitionTime := now |}) :: conds
      else existing :: setCondition now conds c
  end.

(** ** The event *)

Record TriggerEvent := {
  te_Workflow : string; te_Namespace : string; te_Revision : string; te_Source : string;
  te_TriggerType : string; te_Traceparent : string; te_AttemptName : string;
  te_Pr : string; te_PrTitle : string; te_Action : string; te_Repo : string;
}.

Definition trigger_event (o : WorkflowObject) (triggerType revision traceparent attemptName : string) : TriggerEvent :=
  {| te_Workflow := om_Name (wo_Meta o); te_Namespace := om_Namespace (wo_Meta o); te_Revision := revision;
     te_Source := so_Revision (wf_Source (wo_Spec o)); te_TriggerType := triggerType;
     te_Traceparent := traceparent; te_AttemptName := attemptName;
     te_Pr := annotation TriggerPRAnnotation o; te_PrTitle := annotation TriggerTitleAnnotation o;
     te_Action := annotation TriggerActionAnnotation o; te_Repo := annotation TriggerRepoAnnotation o |}.

(** The wake's annotations, removed once it is scheduled. *)
Definition clear_wake (m : gmap string string) : gmap string string :=
  delete TriggerRepoAnnotation (delete TriggerTitleAnnotation (delete TriggerActionAnnotation
    (delete TriggerPRAnnotation (delete TriggerRevisionAnnotation m)))).

(** ** The workflow reconciler ([internal/controller/workflow_controller.go])

    One reconciliation of a Workflow: whether it is due, the profile guard, the
    trigger slot, the attempt, the event, the clearing of the wake and the
    observed generation. The event bus and the event recorder are [EventBus];
    telemetry and log lines are left out. *)

Class EventBus (W : Type) := {
  (** [dapr.Client.Publish] of a payload on a topic of a pub/sub component. *)
  eb_Publish : string → string → string → M W string unit;
  (** A warning event on a workflow. *)
  eb_Refuse : WorkflowObject → string → W → W;
}.

(** The reconciler's fields; [rc_DaprClient] and [rc_Recorder] say that they are set. *)
Record Reconciler := {
  rc_Recorder : bool;
  rc_KernelVersion : string;
  rc_Scheme : bool;
  rc_PollInterval : Z;
  rc_DaprClient : bool;
  rc_TriggerTopic : string;
}.

Record ReconcileResult := { re_RequeueAfter : Z; re_err : option KErr }.

Definition requeue (d : Z) : ReconcileResult := {| re_RequeueAfter := d; re_err := None |}.

Definition errTriggerCooldown : Error := EText "trigger slot on cooldown".
Definition is_cooldown (e : Error) : bool :=
  match e with EText s => bool_decide (s = "trigger slot on cooldown") | _ => false end.

Section controller.
Context {W : Type} `{KubeClient W} `{RetryOnConflict} `{WorkflowClient W} `{SpecWorld W} `{EventBus W}.
Context `{Semver} (quote : string → string) (kube_text : KErr → string).
Context (label_error url_path : string → option string) (owner_error : Workflow → string → option string).
Context (cron_next : string → Z → result string Z) (getenv : string → string) (Version traceparent : string).
Context (marshal_event : TriggerEvent → string).
Context (r : Reconciler).

Definition terminalRunPending (o : WorkflowObject) (w : W) : bool * W :=
  let last := ws_LastRunAt (wo_Status o) in
  match ws_ReviewReady (wo_Status o) with
  | None => (false, w)
  | Some _ =>
      if time_IsZero last then (false, w)
      else match LiveReviewClaims label_error (wo_Workflow o) w with
           | (Err _, w) => (false, w)
           | (Ok attempts, w) => (existsb (ended_after last) attempts, w)
           end
  end.

(** ** The trigger slot *)

(** The cooldown of the object read: the webhook floor for a wake or a finished
    run, the schedule's for anything else. *)
Definition slot_interval (fresh : WorkflowObject) (scheduleInterval webhookInterval : Z) (w : W) : Z * W :=
  let minInterval := if unprocessed_wake fresh then webhookInterval else scheduleInterval in
  if minInterval =? scheduleInterval then
    let '(pending, w) := terminalRunPending fresh w in
    (if pending : bool then webhookInterval else minInterval, w)
  else (minInterval, w).

(** Within the cooldown of the last stamp. *)
Definition cooling (fresh : WorkflowObject) (minInterval now : Z) : bool :=
  let last := ws_LastRunAt (wo_Status fresh) in
  negb (time_IsZero last) && (time_Sub now last <? minInterval).

Definition slot_body (key : Key) (scheduleInterval webhookInterval : Z) (s : bool * W)
    : result Error unit * (bool * W) :=
  let '(won, w) := s in
  match wc_get key w with
  | (Err e, w) => (Err (EKube e), (won, w))
  | (Ok fresh, w) =>
      let '(minInterval, w) := slot_interval fresh scheduleInterval webhookInterval w in
      if cooling fresh minInterval (kc_now w) then (Err errTriggerCooldown, (won, w))
      else match wc_patch_status fresh (set_LastRun (kc_now w) (wo_Status fresh)) w with
           | (Err e, w) => (Err (EKube e), (won, w))
           | (Ok _, w) => (Ok tt, (true, w))
           end
  end.

Definition claimTriggerSlot (key : Key) (scheduleInterval webhookInterval : Z) : M W Error bool := λ w,
  match retry (slot_body key scheduleInterval webhookInterval) (false, w) with
  | (Ok _, (won, w)) => (Ok won, w)
  | (Err e, (_, w)) => if is_cooldown e then (Ok false, w) else (Err e, w)
  end.

(** ** The profile guard *)

Definition runningKernelVersion : string :=
  if decide (rc_KernelVersion r ≠ "") then rc_KernelVersion r else Version.

Definition profileCompat (namespace : string) (w : W) : bool * string * W :=
  let ref := AgentProfileRefFromEnv getenv in
  if decide (ref = "") then (false, "", w)
  else match sw_GetProfile (namespace, ref) w with
       | (Err e, w) =>
           (true, "agent profile " +:+ namespace +:+ "/" +:+ ref
                  +:+ " is wired (HARMOSTES_AGENT_PROFILE) but cannot be read: " +:+ kube_text e
                  +:+ " — fix the profile or unset the env", w)
       | (Ok p, w) =>
           let cause := CompatibilityCause quote (pf_Spec p) runningKernelVersion in
           if decide (cause ≠ "") then (true, cause, w) else (false, "", w)
       end.

(** ** The attempt and the event *)

Definition objective_of_wake (o : WorkflowObject) : ObjectiveSpec :=
  DeriveObjective url_path (wo_Workflow o)
    {| tc_Revision := annotation TriggerRevisionAnnotation o; tc_Source := triggerSourceOf o |}.

Definition resolveAttempt (o : WorkflowObject) (w : W) : string * W :=
  let ns := om_Namespace (wo_Meta o) in
  let name := om_Name (wo_Meta o) in
  match ResolveOrCreate owner_error (objective_of_wake o)
          {| op_Namespace := ns; op_WorkflowRef := ns +:+ "/" +:+ name;
             op_Owner := Some (wo_Workflow o); op_Scheme := rc_Scheme r |} w with
  | (Err _, w) => ("", w)
  | (Ok (att, _), w) =>
      if decide (annotation TriggerRevisionAnnotation o ≠ "") then
        let '(_, w) := SupersedePriorAttempts ns name (Some att) w in (om_Name (at_Meta att), w)
      else (om_Name (at_Meta att), w)
  end.

Definition publishTrigger (o : WorkflowObject) (triggerType revision attemptName : string) : M W string unit := λ w,
  if negb (rc_DaprClient r) then (Ok tt, w)
  else
    let topic := if decide (rc_TriggerTopic r = "") then "harmostes-triggers" else rc_TriggerTopic r in
    let payload := marshal_event (trigger_event o triggerType revision traceparent attemptName) in
    match eb_Publish "pubsub" topic payload w with
    | (Err e, w) => (Err ("publish trigger to " +:+ topic +:+ ": " +:+ e), w)
    | (Ok _, w) => (Ok tt, w)
    end.

(** ** After the event *)

Definition clear_body (key : Key) : M W Error unit := λ w,
  match wc_get key w with
  | (Err e, w) => (Err (EKube e), w)
  | (Ok fresh, w) =>
      if decide (annotation TriggerRevisionAnnotation fresh = "") then (Ok tt, w)
      else let '(res, w) := wc_patch_annotations fresh (clear_wake (wo_Annotations fresh)) w in
           (kube_err res, w)
  end.

Definition clear_trigger (key : Key) : M W Error unit := retry (clear_body key).

Definition Scheduled (generation : Z) : StatusCondition :=
  {| sc_Type := "Scheduled"; sc_Status := "True"; sc_Reason := "TriggerPublished";
     sc_Message := "monitor controller published a trigger event";
     sc_ObservedGeneration := generation; sc_LastTransitionTime := 0 |}.

Definition observed_status (generation now : Z) (s : WorkflowStatus) : WorkflowStatus :=
  set_observed generation (setCondition now (ws_Conditions s) (Scheduled generation)) (set_LastRun now s).

Definition observe_body (o : WorkflowObject) : M W Error unit := λ w,
  match wc_get (wkey o) w with
  | (Err e, w) => (Err (EKube e), w)
  | (Ok fresh, w) =>
      let '(res, w) := wc_patch_status fresh (observed_status (wo_Generation o) (kc_now w) (wo_Status fresh)) w in
      (kube_err res, w)
  end.

Definition observeGeneration (o : WorkflowObject) : M W Error unit := retry (observe_body o).

(** ** Reconciliation *)

(** What follows a won slot. *)
Definition schedule_run (o : WorkflowObject) (reason : string) (w : W) : W :=
  let '(attemptName, w) := resolveAttempt o w in
  let rev := annotation TriggerRevisionAnnotation o in
  let wakeRev := if decide (rev = "") then ws_LastProcessedRevision (wo_Status o) else rev in
  let '(_, w) := publishTrigger o reason wakeRev attemptName w in
  let w := if decide (rev ≠ "") then (clear_trigger (wkey o) w).2 else w in
  (observeGeneration o w).2.

Definition Reconcile (key : Key) (w : W) : ReconcileResult * W :=
  let poll := rc_PollInterval r in
  match wc_get key w with
  | (Err e, w) => ({| re_RequeueAfter := 0; re_err := if IsNotFound e then None else Some e |}, w)
  | (Ok wf, w) =>
      if wf_Disabled (wo_Spec wf) then (requeue poll, w)
      else
        let '(terminalWake, w) := terminalRunPending wf w in
        let '(due, requeueAfter) := isDue cron_next poll wf (kc_now w) in
        let '(due, requeueAfter) := if terminalWake : bool then (true, 0) else (due, requeueAfter) in
        let reason := if terminalWake then "run-terminal" else dueReason wf in
        if negb due then (requeue requeueAfter, w)
        else
          let '(blocked, cause, w) := profileCompat (om_Namespace (wo_Meta wf)) w in
          if blocked : bool then
            (requeue poll, if rc_Recorder r then eb_Refuse wf cause w else w)
          else
            match claimTriggerSlot (wkey wf) poll webhookMinTriggerInterval w with
            | (Err _, w) => (requeue poll, w)
            | (Ok false, w) => (requeue (if requeueAfter =? 0 then webhookMinTriggerInterval else requeueAfter), w)
            | (Ok true, w) => (requeue poll, schedule_run wf reason w)
            end
  end.
End controller.

(** What this process asked the bus to publish; no other call adds to it. *)
Class BusLaws (W : Type) `{KubeClient W} `{WorkflowClient W} `{SpecWorld W} `{EventBus W} := {
  bus_sent : W → list (string * string * string);
  sent_publish p t x w r w' : eb_Publish p t x w = (r, w') → bus_sent w' = bus_sent w ++ [(p, t, x)];
  sent_refuse o cause w : bus_sent (eb_Refuse o cause w) = bus_sent w;
  sent_ledger l : LedgerFrame (λ w, bus_sent w = l);
  sent_wget k w r w' : wc_get k w = (r, w') → bus_sent w' = bus_sent w;
  sent_wstatus o s w r w' : wc_patch_status o s w = (r, w') → bus_sent w' = bus_sent w;
  sent_wannotations o m w r w' : wc_patch_annotations o m w = (r, w') → bus_sent w' = bus_sent w;
  sent_profile k w r w' : sw_GetProfile k w = (r, w') → bus_sent w' = bus_sent w;
}.
