(* ===== verification/ControllerModel.v ===== *)
(** * A concrete control plane

    A cluster of attempts ([Kube]), Workflow objects with the turns of
    their other writers, one before each request, profiles, and the log of what
    the controller published and refused: the world on which the controller's
    theorems are run. *)

From S2P Require Import Prelude GoTime Api AttemptName Template Kube AttemptStore Review Gate Profile Jobs Sweep Dispatch WorkflowState Controller.

(** ** The state *)

Inductive OtherWf : Type :=
| WfIdle
| WfAnnotate (k : Key) (m : gmap string string)
| WfStatus (k : Key) (s : WorkflowStatus).

Record Desk := {
  dk_cluster : Cluster;
  dk_wfs : gmap Key WorkflowObject;
  dk_others : list OtherWf;
  dk_profiles : gmap Key AgentProfile;
  dk_sent : list (string * string * string);
  dk_refused : list string;
}.

Definition set_cluster (c : Cluster) (d : Desk) : Desk :=
  {| dk_cluster := c; dk_wfs := dk_wfs d; dk_others := dk_others d; dk_profiles := dk_profiles d;
     dk_sent := dk_sent d; dk_refused := dk_refused d |}.
Definition set_wfs (m : gmap Key WorkflowObject) (l : list OtherWf) (d : Desk) : Desk :=
  {| dk_cluster := dk_cluster d; dk_wfs := m; dk_others := l; dk_profiles := dk_profiles d;
     dk_sent := dk_sent d; dk_refused := dk_refused d |}.
Definition set_sent (l : list (string * string * string)) (d : Desk) : Desk :=
  {| dk_cluster := dk_cluster d; dk_wfs := dk_wfs d; dk_others := dk_others d; dk_profiles := dk_profiles d;
     dk_sent := l; dk_refused := dk_refused d |}.
Definition set_refused (l : list string) (d : Desk) : Desk :=
  {| dk_cluster := dk_cluster d; dk_wfs := dk_wfs d; dk_others := dk_others d; dk_profiles := dk_profiles d;
     dk_sent := dk_sent d; dk_refused := l |}.

Definition desk_obj (d : Desk) (k : Key) : option WorkflowObject :=
  o ← dk_wfs d !! k; if decide (wkey o = k) then Some o else None.

(** Every write raises the version. *)
Definition update_wf (k : Key) (f : WorkflowObject → WorkflowObject) (d : Desk) : Desk :=
  match desk_obj d k with
  | Some o => set_wfs (<[k := set_wrv (wrv o + 1) (f o)]> (dk_wfs d)) (dk_others d) d
  | None => d
  end.

(** The others of this desk never move the last run back. *)
Definition other_status (s : WorkflowStatus) (o : WorkflowObject) : WorkflowObject :=
  set_WStatus (set_LastRun (Z.max (ws_LastRunAt (wo_Status o)) (ws_LastRunAt s)) s) o.

Definition desk_turn (d : Desk) : Desk :=
  match dk_others d with
  | [] => d
  | x :: l =>
      let d := set_wfs (dk_wfs d) l d in
      match x with
      | WfIdle => d
      | WfAnnotate k m => update_wf k (set_Annotations m) d
      | WfStatus k s => update_wf k (other_status s) d
      end
  end.

Definition patch_wf (f : WorkflowObject → WorkflowObject) (base : WorkflowObject) (d : Desk) : result KErr unit * Desk :=
  let d := desk_turn d in
  match desk_obj d (wkey base) with
  | None => (Err NotFound, d)
  | Some cur => if decide (wrv cur = wrv base) then (Ok tt, update_wf (wkey base) f d) else (Err Conflict, d)
  end.

#[export] Instance desk_workflows : WorkflowClient Desk := {|
  wc_get k d := let d := desk_turn d in
                (match desk_obj d k with Some o => Ok o | None => Err NotFound end, d);
  wc_patch_status base st := patch_wf (set_WStatus (stored st)) base;
  wc_patch_annotations base m := patch_wf (set_Annotations m) base;
|}.

(** A request of the attempts' client, on the cluster of a desk. *)
Definition on_cluster {A} (f : Cluster → A * Cluster) (d : Desk) : A * Desk :=
  let '(a, c) := f (dk_cluster d) in (a, set_cluster c d).

#[export] Instance desk_client : KubeClient Desk := {|
  kc_now d := Z.max Hour (cs_clock (dk_cluster d));
  kc_get k := on_cluster (kc_get k);
  kc_create a := on_cluster (kc_create a);
  kc_delete k := on_cluster (kc_delete k);
  kc_list ns sel := on_cluster (kc_list ns sel);
  kc_patch_status a s := on_cluster (kc_patch_status a s);
  kc_patch_labels a ls := on_cluster (kc_patch_labels a ls);
|}.

#[export] Instance desk_specs : SpecWorld Desk := {|
  sw_GetWorkflow k d := (match desk_obj d k with Some o => Ok (wo_Workflow o) | None => Err NotFound end, d);
  sw_GetTemplate k d := (Err NotFound, d);
  sw_GetProfile k d := (match dk_profiles d !! k with Some p => Ok p | None => Err NotFound end, d);
  sw_ListWorkflows ns d := (Ok [], d);
|}.

#[export] Instance desk_bus : EventBus Desk := {|
  eb_Publish pubsub topic payload d := (Ok tt, set_sent (dk_sent d ++ [(pubsub, topic, payload)]) d);
  eb_Refuse o cause d := set_refused (dk_refused d ++ [cause]) d;
|}.

(** ** Laws of the attempts' client *)

(** Others write the two parts independently. *)
Definition desk_env (d d' : Desk) : Prop :=
  ∃ c n, cluster_env (dk_cluster d) c ∧ d' = set_cluster c (Nat.iter n desk_turn d).

Lemma turn_cluster d : dk_cluster (desk_turn d) = dk_cluster d.
Proof.
  unfold desk_turn, update_wf. destruct (dk_others d) as [|[|k m|k s] l]; try done; by destruct (desk_obj _ k).
Qed.

Lemma turns_cluster n d : dk_cluster (Nat.iter n desk_turn d) = dk_cluster d.
Proof. induction n as [|n IH]; [done|]. cbn [Nat.iter nat_rect]. by rewrite turn_cluster. Qed.

Lemma set_set_cluster c c' d : set_cluster c (set_cluster c' d) = set_cluster c d.
Proof. done. Qed.

Lemma set_own_cluster d : set_cluster (dk_cluster d) d = d.
Proof. by destruct d. Qed.

Lemma turn_set_cluster c d : desk_turn (set_cluster c d) = set_cluster c (desk_turn d).
Proof.
  unfold desk_turn, update_wf. change (dk_others (set_cluster c d)) with (dk_others d).
  destruct (dk_others d) as [|[|k m|k s] l]; try done;
    change (desk_obj (set_wfs (dk_wfs (set_cluster c d)) l (set_cluster c d)) k)
      with (desk_obj (set_wfs (dk_wfs d) l d) k); by destruct (desk_obj _ k).
Qed.

Lemma turns_set_cluster n c d : Nat.iter n desk_turn (set_cluster c d) = set_cluster c (Nat.iter n desk_turn d).
Proof. induction n as [|n IH]; [done|]. cbn [Nat.iter nat_rect]. rewrite <- turn_set_cluster. f_equal. exact IH. Qed.

#[export] Instance desk_env_refl : Reflexive desk_env.
Proof. intros d. exists (dk_cluster d), O. split; [reflexivity|]. simpl. by rewrite set_own_cluster. Qed.

#[export] Instance desk_env_trans : Transitive desk_env.
Proof.
  intros d d1 d2 (c1&n1&H1&->) (c2&n2&H2&->). exists c2, (n2 + n1)%nat. split.
  - etransitivity; [exact H1|exact H2].
  - rewrite turns_set_cluster, set_set_cluster. f_equal. by rewrite Nat.iter_add.
Qed.

Lemma cluster_env_desk d c : cluster_env (dk_cluster d) c → desk_env d (set_cluster c d).
Proof. intros He. by exists c, O. Qed.

Lemma turn_env d : desk_env d (desk_turn d).
Proof.
  exists (dk_cluster d), 1%nat. split; [reflexivity|]. cbn [Nat.iter nat_rect].
  by rewrite <- (turn_cluster d), set_own_cluster.
Qed.

Lemma desk_env_cluster d d' : desk_env d d' → cluster_env (dk_cluster d) (dk_cluster d').
Proof. by intros (c&n&He&->). Qed.

Definition attempts_of (d : Desk) : Key → option Attempt := cluster_obj (dk_cluster d).

Lemma lift_commit k b a d c' :
  Commit cluster_obj cluster_env k b a (dk_cluster d) c' → Commit attempts_of desk_env k b a d (set_cluster c' d).
Proof.
  intros (c1&c2&H1&Hb&Ha&Hk&H2). exists (set_cluster c1 d), (set_cluster c2 d).
  split_and!; [by apply cluster_env_desk|exact Hb|exact Ha|exact Hk|].
  by apply (cluster_env_desk (set_cluster c2 d)).
Qed.

Lemma on_cluster_run {A} (f : Cluster → A * Cluster) d a d' :
  on_cluster f d = (a, d') → ∃ c', f (dk_cluster d) = (a, c') ∧ d' = set_cluster c' d.
Proof. unfold on_cluster. destruct (f (dk_cluster d)) as [a1 c']. intros [= <- <-]. by exists c'. Qed.

(** The write laws of the cluster, read on the desk. *)
Ltac lifted :=
  repeat match goal with
  | H : kc_env (dk_cluster _) _ |- desk_env _ _ => by apply cluster_env_desk
  | H : _ ∧ _ |- _ => destruct H
  | H : ∃ _, _ |- _ => destruct H
  | H : Commit _ _ _ _ _ (dk_cluster _) _ |- _ => apply lift_commit in H
  | H : _ ∨ _ |- _ => destruct H; [left|right]
  end; eauto 10.

#[export] Program Instance desk_laws : ClientLaws Desk := { kc_obj := attempts_of; kc_env := desk_env }.
Next Obligation. intros d k a. apply cluster_obj_key. Qed.
Next Obligation. intros d d' k a b He. unfold attempts_of. exact (rv_content (ClientLaws := cluster_laws) _ _ k a b (desk_env_cluster _ _ He)). Qed.
Next Obligation.
  intros k d r d' (c'&Hg&->)%on_cluster_run. apply (get_law (W := Cluster)) in Hg. destruct r as [a|e].
  - destruct Hg as (c1&H1&Ho&H2). exists (set_cluster c1 d). split_and!; [by apply cluster_env_desk|exact Ho|].
    by apply (cluster_env_desk (set_cluster c1 d)).
  - destruct Hg as (He&Hc&Hn). split_and!; [by apply cluster_env_desk|done|]. intros Hne.
    destruct (Hn Hne) as (c1&H1&Ho&H2). exists (set_cluster c1 d).
    split_and!; [by apply cluster_env_desk|exact Ho|]. by apply (cluster_env_desk (set_cluster c1 d)).
Qed.
Next Obligation.
  intros ns sel d r d' (c'&Hg&->)%on_cluster_run. apply (list_law (W := Cluster)) in Hg. destruct r as [l|e].
  - destruct Hg as (c1&H1&H2&Hnd&Hl). exists (set_cluster c1 d).
    split_and!; [by apply cluster_env_desk|by apply (cluster_env_desk (set_cluster c1 d))|done|exact Hl].
  - by apply cluster_env_desk.
Qed.
Next Obligation.
  intros base st d r d' (c'&Hp&->)%on_cluster_run. apply (status_law (W := Cluster)) in Hp. cbv zeta in Hp |- *.
  destruct r as [[]|[]]; lifted.
Qed.
Next Obligation.
  intros base ls d r d' (c'&Hp&->)%on_cluster_run. apply (labels_law (W := Cluster)) in Hp. cbv zeta in Hp |- *.
  destruct r as [[]|[]]; lifted.
Qed.
Next Obligation.
  intros a d r d' (c'&Hp&->)%on_cluster_run. apply (create_law (W := Cluster)) in Hp. cbv zeta in Hp |- *.
  destruct r as [b|[]]; lifted.
Qed.
Next Obligation.
  intros k d r d' (c'&Hp&->)%on_cluster_run. apply (delete_law (W := Cluster)) in Hp. cbv zeta in Hp |- *.
  destruct r as [[]|[]]; lifted.
Qed.

(** ** Laws of the workflows' client *)

(** A workflow keeps its version or gets a greater one. *)
Definition wf_newer (o o' : option WorkflowObject) : Prop :=
  match o, o' with
  | Some a, Some b => a = b ∨ wrv a < wrv b
  | None, None => True
  | _, _ => False
  end.

Definition desk_past (d d' : Desk) : Prop := ∀ k, wf_newer (desk_obj d k) (desk_obj d' k).

Lemma wf_newer_refl o : wf_newer o o.
Proof. destruct o; simpl; auto. Qed.

#[export] Instance desk_past_trans : Transitive desk_past.
Proof.
  intros d d1 d2 H1 H2 k. specialize (H1 k). specialize (H2 k). unfold wf_newer in *.
  destruct (desk_obj d k), (desk_obj d1 k), (desk_obj d2 k); try done.
  destruct H1 as [->|?], H2 as [->|?]; auto. right. lia.
Qed.

Lemma desk_obj_key d k o : desk_obj d k = Some o → wkey o = k.
Proof. unfold desk_obj. destruct (dk_wfs d !! k); simpl; [|done]. case_decide; congruence. Qed.

Lemma update_wf_same k f d o :
  (∀ o, wkey (f o) = wkey o) → desk_obj d k = Some o →
  desk_obj (update_wf k f d) k = Some (set_wrv (wrv o + 1) (f o)).
Proof.
  intros Hf Ho. unfold update_wf. rewrite Ho. unfold desk_obj. simpl. rewrite lookup_insert_eq. simpl.
  rewrite decide_True; [done|]. change (wkey (f o) = k). rewrite Hf. by eapply desk_obj_key.
Qed.

Lemma update_wf_other k k' f d : k' ≠ k → desk_obj (update_wf k f d) k' = desk_obj d k'.
Proof.
  intros Hk. unfold update_wf. destruct (desk_obj d k); [|done]. unfold desk_obj. simpl.
  by rewrite lookup_insert_ne.
Qed.

Lemma update_wf_past k f d : (∀ o, wkey (f o) = wkey o) → desk_past d (update_wf k f d).
Proof.
  intros Hf k'. destruct (decide (k' = k)) as [->|Hk]; [|rewrite update_wf_other by done; apply wf_newer_refl].
  destruct (desk_obj d k) as [o|] eqn:Ho.
  - rewrite (update_wf_same _ _ _ o) by done. right. unfold wrv. simpl. lia.
  - unfold update_wf. rewrite Ho. by rewrite Ho.
Qed.

Lemma turn_past d : desk_past d (desk_turn d).
Proof.
  unfold desk_turn. destruct (dk_others d) as [|[|k m|k s] l]; try (intros k'; apply wf_newer_refl).
  - exact (update_wf_past k (set_Annotations m) (set_wfs (dk_wfs d) l d) (λ o, eq_refl)).
  - exact (update_wf_past k (other_status s) (set_wfs (dk_wfs d) l d) (λ o, eq_refl)).
Qed.

Lemma env_past d d' : desk_env d d' → desk_past d d'.
Proof.
  intros (c&n&_&->) k. change (wf_newer (desk_obj d k) (desk_obj (Nat.iter n desk_turn d) k)). revert k.
  induction n as [|n IH]; [intros k; apply wf_newer_refl|]. cbn [Nat.iter nat_rect].
  exact (desk_past_trans _ _ _ IH (turn_past _)).
Qed.

Lemma patch_wf_law f base d r d' :
  (∀ o, wkey (f o) = wkey o) → patch_wf f base d = (r, d') →
  match r with
  | Ok _ => ∃ cur rv, wrv cur = wrv base
      ∧ Commit desk_obj desk_env (wkey base) (Some cur) (Some (set_wrv rv (f cur))) d d'
  | Err _ => desk_env d d'
  end.
Proof.
  intros Hf. unfold patch_wf. destruct (desk_obj (desk_turn d) (wkey base)) as [cur|] eqn:Hc.
  2: { intros [= <- <-]. apply turn_env. }
  destruct (decide _) as [Hrv|_]; intros [= <- <-]; [|apply turn_env].
  exists cur, (wrv cur + 1). split; [done|]. eexists (desk_turn d), _.
  split_and!; [apply turn_env|done|by apply update_wf_same| |reflexivity].
  intros k' Hk. by apply update_wf_other.
Qed.

#[export] Program Instance desk_wf_laws : WorkflowLaws Desk := { wc_obj := desk_obj; wc_past := desk_past }.
Next Obligation. apply env_past. Qed.
Next Obligation. apply desk_obj_key. Qed.
Next Obligation.
  intros d d' k a b Hp Ha Hb Hrv. specialize (Hp k). unfold wf_newer in Hp. rewrite Ha, Hb in Hp.
  destruct Hp; [done|lia].
Qed.
Next Obligation.
  intros k d r d' [= <- <-]. split; [apply turn_env|]. destruct (desk_obj (desk_turn d) k) as [o|] eqn:Ho; [|done].
  exists (desk_turn d). split; [intros k'; apply wf_newer_refl|done].
Qed.
Next Obligation.
  intros base st d r d' Hp. apply patch_wf_law in Hp; [|done].
  destruct r as [[]|[]]; first [exact Hp | left; exact Hp].
Qed.
Next Obligation.
  intros base m d r d' Hp. apply patch_wf_law in Hp; [|done].
  destruct r as [[]|[]]; first [exact Hp | left; exact Hp].
Qed.

(** ** Sample desks *)

Definition wf_object (name : string) (s : WorkflowStatus) (m : gmap string string) : WorkflowObject :=
  {| wo_Workflow := {| wk_Meta := plain_meta name; wk_Spec := plain_spec "" "" |};
     wo_Annotations := m; wo_Generation := 1; wo_Status := s |}.

Definition seen_status (last : Z) (processed : string) : WorkflowStatus :=
  {| ws_ObservedGeneration := 1; ws_LastProcessedRevision := processed; ws_LastAgentCommit := "";
     ws_LastRigHash := ""; ws_GateStatus := ""; ws_ReviewReady := None; ws_LastRunAt := last;
     ws_Message := ""; ws_Conditions := [] |}.

Definition desk_of (clock : Z) (l : list Attempt) (wfs : list WorkflowObject) (others : list OtherWf) : Desk :=
  {| dk_cluster := sample_cluster clock [] l; dk_wfs := list_to_map ((λ o, (wkey o, o)) <$> wfs);
     dk_others := others; dk_profiles := ∅; dk_sent := []; dk_refused := [] |}.

Definition plain_reconciler : Reconciler :=
  {| rc_Recorder := true; rc_KernelVersion := "1.4.1"; rc_Scheme := false; rc_PollInterval := 5 * Minute;
     rc_DaprClient := true; rc_TriggerTopic := "" |}.

Lemma update_wf_last key k f d :
  (∀ o, wkey (f o) = wkey o) → (∀ o, ws_LastRunAt (wo_Status o) ≤ ws_LastRunAt (wo_Status (f o))) →
  match desk_obj d key with Some o => ws_LastRunAt (wo_Status o) | None => 0 end
  ≤ match desk_obj (update_wf k f d) key with Some o => ws_LastRunAt (wo_Status o) | None => 0 end.
Proof.
  intros Hf Hl. destruct (decide (key = k)) as [->|Hk]; [|by rewrite update_wf_other].
  destruct (desk_obj d k) as [o|] eqn:Ho; [rewrite (update_wf_same _ _ _ o) by done; apply Hl|].
  unfold update_wf. by rewrite Ho, Ho.
Qed.

Lemma env_last key d d' : desk_env d d' →
  match desk_obj d key with Some o => ws_LastRunAt (wo_Status o) | None => 0 end
  ≤ match desk_obj d' key with Some o => ws_LastRunAt (wo_Status o) | None => 0 end.
Proof.
  intros (c&n&_&->). change (desk_obj (set_cluster c ?x) key) with (desk_obj x key).
  induction n as [|n IH]; [done|]. cbn [Nat.iter nat_rect]. etransitivity; [exact IH|].
  set (e := Nat.iter n desk_turn d). change (nat_rect _ _ _ n) with e. unfold desk_turn.
  destruct (dk_others e) as [|[|k m|k s] l]; [done..| |].
  - by apply (update_wf_last key k (set_Annotations m) (set_wfs (dk_wfs e) l e)).
  - apply (update_wf_last key k (other_status s) (set_wfs (dk_wfs e) l e)); [done|]. intros o. simpl. lia.
Qed.

Lemma turn_sent d : dk_sent (desk_turn d) = dk_sent d.
Proof.
  unfold desk_turn, update_wf. destruct (dk_others d) as [|[|k' m|k' s] l]; try done; by destruct (desk_obj _ _).
Qed.

Lemma patch_wf_sent f base d r d' : patch_wf f base d = (r, d') → dk_sent d' = dk_sent d.
Proof.
  rewrite <- (turn_sent d). unfold patch_wf, update_wf. destruct (desk_obj (desk_turn d) (wkey base)) as [o|]; [|by intros [= _ <-]].
  destruct (decide _); by intros [= _ <-].
Qed.

#[export] Instance desk_bus_laws : BusLaws Desk.
Proof.
  refine {| bus_sent := dk_sent |}.
  - by intros p t x d r d' [= _ <-].
  - done.
  - intros l. split; [split|..]; intros *; intros (c'&_&->)%on_cluster_run; exact id.
  - intros k d r d' [= _ <-]. apply turn_sent.
  - intros o s d r d'. apply patch_wf_sent.
  - intros o m d r d'. apply patch_wf_sent.
  - by intros k d r d' [= _ <-].
Defined.
