(* ===== verification/ControllerProps.v ===== *)
(** * Properties of the controller

    The trigger slot is one conditional stamp, and stamps are spaced; a
    reconciliation publishes at most one event, after its slot; the wake of a
    finished run; what the code does not close: a wake cleared unseen, a cron
    that never fires, a tick with two attempts. *)

From S2P Require Import Prelude GoStrings GoTime Api ReviewReady AttemptName Ledger Kube AttemptStore ReviewClaim LedgerFrame Review Gate Profile Extensions Sweep Dispatch WorkflowState Controller ControllerModel.

(** ** The trigger slot *)

Section slot.
Context {W : Type} `{HK : KubeClient W} `{!ClientLaws W} `{HC : WorkflowClient W} `{!WorkflowLaws W}
  `{HR : RetryOnConflict} `{!RetryLaws}.
Context (label_error : string → option string).

Notation wrote := (Wrote wc_obj kc_env).

Lemma terminalRunPending_env o (w : W) b w' : terminalRunPending label_error o w = (b, w') → kc_env w w'.
Proof.
  unfold terminalRunPending. intros Hr. destruct (ws_ReviewReady _); [|by simplify_eq].
  destruct (time_IsZero _); [by simplify_eq|].
  destruct (LiveReviewClaims _ _ w) as [res w1] eqn:Hl. apply LiveReviewClaims_env in Hl.
  destruct res; by simplify_eq.
Qed.

Lemma slot_interval_env o s wh (w : W) iv w' :
  slot_interval label_error o s wh w = (iv, w') → kc_env w w' ∧ (iv = s ∨ iv = wh).
Proof.
  unfold slot_interval. destruct (unprocessed_wake o), (_ =? s) eqn:He; intros Hr;
    try (simplify_eq; split; [reflexivity|auto]);
    destruct (terminalRunPending _ _ w) as [[] w1] eqn:Ht; apply terminalRunPending_env in Ht; simplify_eq; auto.
Qed.

(** A stamp at [t] over an object whose last one is at least [iv] old. *)
Definition stamped (key : Key) (o : WorkflowObject) (iv t : Z)
    (tr : list (Key * option WorkflowObject * option WorkflowObject)) : Prop :=
  cooling o iv t = false
  ∧ ∃ rv, tr = [(key, Some o, Some (set_wrv rv (set_WStatus (stored (set_LastRun t (wo_Status o))) o)))].

Definition slot_done (key : Key) (s wh : Z) tr : Prop :=
  ∃ o iv t, (iv = s ∨ iv = wh) ∧ (∃ v : W, t = kc_now v) ∧ stamped key o iv t tr.

Lemma slot_body_law key s wh won (w : W) r won' w' :
  slot_body label_error key s wh (won, w) = (r, (won', w')) →
  ∃ tr, wrote tr w w' ∧
    (tr = [] ∧ is_ok r = false ∧ won' = won
     ∨ slot_done key s wh tr ∧ match r with Ok _ => won' = true | Err e => is_cooldown e = false ∧ won' = won end)
    ∧ ∀ e, r = Err e → is_conflict e = true → tr = [].
Proof.
  unfold slot_body. intros Hr. destruct (wc_get key w) as [[o|e] w1] eqn:Hg.
  2: { apply wget_law in Hg as (He&_). simplify_eq. exists []. split_and!; [by apply wrote_none|by left|done]. }
  apply wget_read in Hg as (He&<-&Hrd).
  destruct (slot_interval _ _ _ _ w1) as [iv w2] eqn:Hi. apply slot_interval_env in Hi as [He2 Hiv].
  pose proof (read_env _ _ _ He2 Hrd) as Hrd2. assert (kc_env w w2) as He02 by (etransitivity; eassumption).
  destruct (cooling o iv (kc_now w2)) eqn:Hcool.
  { simplify_eq. exists []. split_and!; [by apply wrote_none|by left|done]. }
  destruct (wc_patch_status _ _ w2) as [r3 w3] eqn:Hp. apply status_patch in Hp as (tr&Hw&Htr); [|done].
  exists tr. split; [destruct r3; simplify_eq; eapply Wrote_env_l; [exact _|exact He02|exact Hw| exact _|exact He02|exact Hw]|].
  assert (∀ rv, tr = [(wkey o, Some o, Some (set_wrv rv (set_WStatus (stored (set_LastRun (kc_now w2) (wo_Status o))) o)))] →
    slot_done (wkey o) s wh tr) as Hdone.
  { intros rv ->. exists o, iv, (kc_now w2). split; [done|]. split; [by eexists|]. split; [done|]. by exists rv. }
  destruct r3 as [[]|e]; simplify_eq.
  - split; [|done]. destruct Htr as [[_ ?]|(_&rv&Htr)]; [done|]. right. split; [by eapply Hdone|done].
  - split; [destruct Htr as [[-> _]|(_&rv&Htr)]; [by left|right; split; [by eapply Hdone|done]]|].
    intros e' [= <-] Hc. simpl in Hc. destruct e; try done. destruct Htr as [[? ?]|(?&_)]; done.
Qed.

(** The slot is won exactly by one conditional stamp; a lost one writes nothing. *)
Lemma slot_law key s wh (w : W) r w' :
  claimTriggerSlot label_error key s wh w = (r, w') →
  ∃ tr, wrote tr w w' ∧ (tr = [] ∧ r ≠ Ok true ∨ slot_done key s wh tr ∧ r ≠ Ok false).
Proof.
  unfold claimTriggerSlot. destruct (retry _ (false, w)) as [r1 [won w1]] eqn:Hr. intros Hc.
  pose proof (retry_wrote_with wc_obj kc_env snd (slot_body label_error key s wh)
    (λ r (s0 : bool * W) tr (s' : bool * W), tr = [] ∧ is_ok r = false ∧ s'.1 = s0.1
      ∨ slot_done key s wh tr ∧ match r with Ok _ => s'.1 = true | Err e => is_cooldown e = false end)
    (false, w) r1 (won, w1)) as Hlaw.
  destruct Hlaw as (tr&Hw&Hcases); [| |exact Hr|].
  - intros [b0 v0] e [b1 v1] r0 tr [b' v'] Hbody _ [(?&?&Hb)|?]; [left|by right].
    split_and!; [done|done|]. simpl in *. rewrite Hb.
    unfold slot_body in Hbody. destruct (wc_get key v0) as [[]]; [|by simplify_eq].
    destruct (slot_interval _ _ _ _ _). destruct (cooling _ _ _); [by simplify_eq|].
    destruct (wc_patch_status _ _ _) as [[]]; by simplify_eq.
  - intros [b0 v0] r0 [b' v'] Hbody. apply slot_body_law in Hbody as (tr&Hw&Hcases&Hc0).
    exists tr. split_and!; [done| |done]. simpl. destruct Hcases as [?|[? Hm]]; [by left|right].
    split; [done|]. destruct r0; [done|by destruct Hm].
  - simpl in *. exists tr. destruct r1 as [[]|e].
    + simplify_eq. split; [done|]. destruct Hcases as [(_&?&_)|[Hd Hwon]]; [done|right; split; [done|congruence]].
    + destruct (is_cooldown e) eqn:Hcd; simplify_eq; (split; [done|]).
      * destruct Hcases as [(?&_&_)|[_ ?]]; [by left|done].
      * destruct Hcases as [(?&_&_)|[? _]]; [by left|by right].
Qed.
End slot.

(** ** Stamps are spaced *)

Section spacing.
Context {W : Type} `{HK : KubeClient W} `{!ClientLaws W} `{HC : WorkflowClient W} `{!WorkflowLaws W}
  `{HR : RetryOnConflict} `{!RetryLaws}.
Context (label_error : string → option string).
Context (key : Key) (m : Z).

Definition last_run (w : W) : Z :=
  match wc_obj w key with Some o => ws_LastRunAt (wo_Status o) | None => 0 end.

(** A won call, with the instant it stamped. *)
Definition won_at (s wh t : Z) (w w' : W) : Prop :=
  claimTriggerSlot label_error key s wh w = (Ok true, w')
  ∧ ∃ tr o iv, Wrote wc_obj kc_env tr w w' ∧ (iv = s ∨ iv = wh) ∧ (∃ v : W, t = kc_now v) ∧ stamped key o iv t tr.

(** Calls of the slot by any reconcilers, between the turns of others; [ts] are
    the instants of the won ones. *)
Inductive Slots : list Z → W → W → Prop :=
| slots_none w : Slots [] w w
| slots_env ts w w1 w' : kc_env w w1 → Slots ts w1 w' → Slots ts w w'
| slots_won s wh t ts w w1 w' : m ≤ s → m ≤ wh → won_at s wh t w w1 → Slots ts w1 w' → Slots (t :: ts) w w'
| slots_lost s wh r ts w w1 w' : m ≤ s → m ≤ wh → claimTriggerSlot label_error key s wh w = (r, w1) → r ≠ Ok true →
    Slots ts w1 w' → Slots ts w w'.

Context (Hm : Second ≤ m).
Context (Hclock : ∀ w : W, Second ≤ kc_now w).
Context (Henv : ∀ w w', kc_env w w' → last_run w ≤ last_run w').

Lemma stamp_raises o iv t tr (w w' : W) :
  m ≤ iv → Second ≤ t → stamped key o iv t tr → Wrote wc_obj kc_env tr w w' →
  (last_run w ≤ 0 ∨ last_run w + m ≤ t) ∧ whole_seconds t ≤ last_run w' ∧ last_run w ≤ last_run w'.
Proof.
  intros Hiv Ht (Hc&rv&->) Hw. inversion Hw as [|? ? ? ? ? w1 ? HC1 Hn]; subst. apply wrote_nil_env in Hn.
  destruct HC1 as (wa&wb&Ha&Hb&Hb'&_&He). apply Henv in Ha, He, Hn.
  assert (last_run wb = whole_seconds t) as Hlb by (unfold last_run; by rewrite Hb').
  assert (last_run wa = ws_LastRunAt (wo_Status o)) as Hla by (unfold last_run; by rewrite Hb).
  unfold cooling in Hc. pose proof (whole_seconds_bounds t). unfold Second in *.
  destruct (time_IsZero _) eqn:Hz; simpl in Hc.
  - apply Z.eqb_eq in Hz. split_and!; [left|..]; lia.
  - apply Z.ltb_ge in Hc. unfold time_Sub, min_int64, max_int64 in *. split_and!; [right|..]; lia.
Qed.

Lemma slots_bound ts (w w' : W) :
  Slots ts w w' →
  last_run w ≤ last_run w' ∧ Forall (λ t, last_run w ≤ 0 ∨ last_run w + m ≤ t) ts
  ∧ StronglySorted (λ t t', whole_seconds t + m ≤ t') ts.
Proof.
  induction 1 as [w|ts w w1 w' He Hrun IH|s wh t ts w w1 w' Hs Hwh (Hcall&tr&o&iv&Hw&Hiv&(v&Hv)&Hst) Hrun IH
                 |s wh r ts w w1 w' Hs Hwh Hcall Hr Hrun IH].
  - split_and!; [done|constructor..].
  - destruct IH as (Hle&Hall&Hsort). apply Henv in He. split_and!; [lia| |done].
    eapply Forall_impl; [exact Hall|]. simpl. intros t' [?|?]; lia.
  - destruct IH as (Hle&Hall&Hsort). assert (m ≤ iv) as Hmiv by (destruct Hiv; lia).
    pose proof (Hclock v) as Hv'. rewrite <- Hv in Hv'.
    destruct (stamp_raises _ _ _ _ _ _ Hmiv Hv' Hst Hw) as (Hb&Hs1&Hs2). pose proof (whole_seconds_bounds t).
    split_and!; [lia| |].
    + constructor; [done|]. eapply Forall_impl; [exact Hall|]. simpl. intros t' [?|?]; lia.
    + constructor; [done|]. eapply Forall_impl; [exact Hall|]. simpl. intros t' [?|?]; lia.
  - destruct IH as (Hle&Hall&Hsort). assert (last_run w ≤ last_run w1) as Hle1.
    { apply slot_law in Hcall as (tr&Hw&[[-> _]|[(o&iv&t&Hiv&(v&Hv)&Hst) _]]).
      - apply wrote_nil_env in Hw. by apply Henv.
      - assert (m ≤ iv) as Hmiv by (destruct Hiv; lia). pose proof (Hclock v) as Hv'. rewrite <- Hv in Hv'.
        destruct (stamp_raises _ _ _ _ _ _ Hmiv Hv' Hst Hw) as (_&_&?). done. }
    split_and!; [lia| |done]. eapply Forall_impl; [exact Hall|]. simpl. intros t' [?|?]; lia.
Qed.

Lemma slots_snoc ts ts' (w w1 w' : W) : Slots ts w w1 → Slots ts' w1 w' → Slots (ts ++ ts') w w'.
Proof.
  induction 1 as [w|ts w wa w1 He Hrun IH|s wh t ts w wa w1 Hs Hwh Hwon Hrun IH
                 |s wh r ts w wa w1 Hs Hwh Hcall Hr Hrun IH]; intros H2; simpl; [done|..].
  - eapply slots_env; eauto.
  - eapply slots_won; [exact Hs|exact Hwh|exact Hwon|auto].
  - eapply slots_lost; [exact Hs|exact Hwh|exact Hcall|done|auto].
Qed.

Lemma slots_call s wh (w : W) r w' :
  m ≤ s → m ≤ wh → claimTriggerSlot label_error key s wh w = (r, w') →
  ∃ ts, Slots ts w w' ∧ (r = Ok true ↔ ts ≠ []).
Proof.
  intros Hs Hwh Hcall. assert (r = Ok true ∨ r ≠ Ok true) as [->|Hne] by (destruct r as [[]|]; naive_solver).
  - pose proof Hcall as Hlaw. apply slot_law in Hlaw as (tr&Hw&[[_ ?]|[(o&iv&t&Hiv&Hv&Hst) _]]); [done|].
    exists [t]. split; [|done]. eapply slots_won; [exact Hs|exact Hwh| |apply slots_none]. split; [done|].
    by exists tr, o, iv.
  - exists []. split; [eapply slots_lost; [exact Hs|exact Hwh|done..|apply slots_none]|naive_solver].
Qed.

(** The trigger slot spaces what it admits: whichever reconcilers call it,
    however stale their caches and however the calls interleave with other
    writers who never lower the last run, any two won calls stamped instants at
    least the interval apart, up to the second the stored stamp drops; and every
    call extends such a run, by a stamp exactly when it was won. *)
Theorem trigger_slots_spaced ts (w w' : W) :
  Slots ts w w' →
  StronglySorted (λ t t', whole_seconds t + m ≤ t') ts
  ∧ ∀ s wh r w'', m ≤ s → m ≤ wh → claimTriggerSlot label_error key s wh w' = (r, w'') →
      ∃ ts', Slots (ts ++ ts') w w'' ∧ (r = Ok true ↔ ts' ≠ []).
Proof.
  intros Hrun. split; [by apply slots_bound in Hrun as (_&_&?)|]. intros s wh r w'' Hs Hwh Hcall.
  destruct (slots_call _ _ _ _ _ Hs Hwh Hcall) as (ts'&Hts&Hr). exists ts'. split; [by eapply slots_snoc|done].
Qed.
End spacing.

(** ** What a reconciliation publishes *)

Section publishing.
Context {W : Type} `{HK : KubeClient W} `{HR : RetryOnConflict} `{!RetryLaws} `{HC : WorkflowClient W}
  `{HS : SpecWorld W} `{HB : EventBus W} `{!BusLaws W}.
Context `{Semver} (quote : string → string) (kube_text : KErr → string).
Context (label_error url_path : string → option string) (owner_error : Workflow → string → option string).
Context (cron_next : string → Z → result string Z) (getenv : string → string) (Version traceparent : string).
Context (marshal_event : TriggerEvent → string).
Context (r : Reconciler).

Definition quiet {A} (f : W → A * W) : Prop := ∀ w a w', f w = (a, w') → bus_sent w' = bus_sent w.

Lemma quiet_pending o : quiet (terminalRunPending label_error o).
Proof.
  intros w a w' Hr. unfold terminalRunPending in Hr. destruct (ws_ReviewReady _); [|by simplify_eq].
  destruct (time_IsZero _); [by simplify_eq|]. destruct (LiveReviewClaims _ _ w) as [x w1] eqn:Hl.
  pose proof (keep_live _ (sent_ledger (bus_sent w)) _ _ _ _ _ Hl eq_refl). destruct x; by simplify_eq.
Qed.

Lemma quiet_slot key s wh : quiet (claimTriggerSlot label_error key s wh).
Proof.
  intros w a w' Hr. unfold claimTriggerSlot in Hr. destruct (retry _ _) as [x [won w1]] eqn:Ht.
  assert (bus_sent w1 = bus_sent w) as Hq; [|destruct x as [|e]; [by simplify_eq|destruct (is_cooldown e); by simplify_eq]].
  eapply (keep_retry (λ v, bus_sent v = bus_sent w)) in Ht; [done| |done]. clear. intros won v x won' v' Hb Hi.
  unfold slot_body in Hb. destruct (wc_get _ v) as [y v1] eqn:Hg. apply sent_wget in Hg.
  destruct y as [o|e]; [|simplify_eq; congruence].
  unfold slot_interval in Hb.
  destruct (if _ =? _ then _ else _) as [iv v2] eqn:Hs.
  assert (bus_sent v2 = bus_sent v1) as Hs2.
  { destruct (_ =? _); [|by simplify_eq]. destruct (terminalRunPending _ _ v1) as [b v3] eqn:Hp.
    apply quiet_pending in Hp. by simplify_eq. }
  destruct (cooling _ _ _); [simplify_eq; congruence|].
  destruct (wc_patch_status _ _ v2) as [z v3] eqn:Hp. apply sent_wstatus in Hp. destruct z; simplify_eq; congruence.
Qed.

Lemma quiet_profile ns (w : W) b cause w' :
  profileCompat quote kube_text getenv Version r ns w = (b, cause, w') → bus_sent w' = bus_sent w.
Proof.
  unfold profileCompat. intros Hr. destruct (decide _); [by simplify_eq|].
  destruct (sw_GetProfile _ w) as [x w1] eqn:Hp. apply sent_profile in Hp.
  destruct x; [destruct (decide _)|]; by simplify_eq.
Qed.

Lemma quiet_resolve o : quiet (resolveAttempt url_path owner_error r o).
Proof.
  intros w a w' Hr. unfold resolveAttempt in Hr. destruct (ResolveOrCreate _ _ _ w) as [x w1] eqn:Hc.
  pose proof (keep_resolve _ (sent_ledger (bus_sent w)) _ _ _ _ _ _ Hc eq_refl) as H1.
  destruct x as [[att b]|e]; [|by simplify_eq]. destruct (decide _); [|by simplify_eq].
  destruct (SupersedePriorAttempts _ _ _ w1) as [y w2] eqn:Hs.
  pose proof (keep_supersede _ (sent_ledger (bus_sent w)) _ _ _ _ _ _ Hs H1). by simplify_eq.
Qed.

Lemma quiet_clear key : quiet (clear_trigger key).
Proof.
  intros w a w' Hr. unfold clear_trigger in Hr.
  eapply (keep_retry1 (λ v, bus_sent v = bus_sent w)) in Hr; [done| |done]. clear. intros v x v' Hb Hi.
  unfold clear_body in Hb. destruct (wc_get _ v) as [y v1] eqn:Hg. apply sent_wget in Hg.
  destruct y as [o|e]; [|simplify_eq; congruence]. destruct (decide _); [simplify_eq; congruence|].
  destruct (wc_patch_annotations _ _ v1) as [z v2] eqn:Hp. apply sent_wannotations in Hp. simplify_eq. congruence.
Qed.

Lemma quiet_observe o : quiet (observeGeneration o).
Proof.
  intros w a w' Hr. unfold observeGeneration in Hr.
  eapply (keep_retry1 (λ v, bus_sent v = bus_sent w)) in Hr; [done| |done]. clear. intros v x v' Hb Hi.
  unfold observe_body in Hb. destruct (wc_get _ v) as [y v1] eqn:Hg. apply sent_wget in Hg.
  destruct y as [o'|e]; [|simplify_eq; congruence].
  destruct (wc_patch_status _ _ v1) as [z v2] eqn:Hp. apply sent_wstatus in Hp. simplify_eq. congruence.
Qed.

Definition topic : string := if decide (rc_TriggerTopic r = "") then "harmostes-triggers" else rc_TriggerTopic r.

(** The revision an event carries: the wake's, or the last one processed. *)
Definition wake_revision (o : WorkflowObject) : string :=
  let rev := annotation TriggerRevisionAnnotation o in
  if decide (rev = "") then ws_LastProcessedRevision (wo_Status o) else rev.

Lemma schedule_sends o reason (w : W) :
  ∃ name w1, resolveAttempt url_path owner_error r o w = (name, w1)
    ∧ bus_sent (schedule_run url_path owner_error traceparent marshal_event r o reason w)
      = bus_sent w ++ (if rc_DaprClient r
                       then [("pubsub", topic, marshal_event (trigger_event o reason (wake_revision o) traceparent name))]
                       else []).
Proof.
  unfold schedule_run. destruct (resolveAttempt _ _ _ o w) as [name w1] eqn:Hr. exists name, w1. split; [done|].
  apply quiet_resolve in Hr. destruct (publishTrigger _ _ _ o reason _ name w1) as [x w2] eqn:Hp.
  assert (bus_sent w2 = bus_sent w1 ++ (if rc_DaprClient r
      then [("pubsub", topic, marshal_event (trigger_event o reason (wake_revision o) traceparent name))] else [])) as H2.
  { unfold publishTrigger in Hp. destruct (rc_DaprClient r); simpl in Hp; [|by simplify_eq; rewrite app_nil_r].
    destruct (eb_Publish _ _ _ w1) as [y w3] eqn:He. apply sent_publish in He. destruct y; by simplify_eq. }
  destruct (decide (annotation TriggerRevisionAnnotation o ≠ "")).
  - destruct (clear_trigger _ w2) as [y w3] eqn:Hc. apply quiet_clear in Hc. simpl.
    destruct (observeGeneration o w3) as [z w4] eqn:Ho. apply quiet_observe in Ho. simpl. congruence.
  - destruct (observeGeneration o w2) as [z w4] eqn:Ho. apply quiet_observe in Ho. simpl. congruence.
Qed.

(** The state in which an event is published. *)
Definition Published (key : Key) (w : W) (o : WorkflowObject) (reason name : string) : Prop :=
  ∃ w0 w1 w2 w3 w4,
    wc_get key w = (Ok o, w0) ∧ wf_Disabled (wo_Spec o) = false
    ∧ (reason = "run-terminal" ∧ terminalRunPending label_error o w0 = (true, w1)
       ∨ reason = dueReason o ∧ terminalRunPending label_error o w0 = (false, w1)
         ∧ (isDue cron_next (rc_PollInterval r) o (kc_now w1)).1 = true)
    ∧ profileCompat quote kube_text getenv Version r (om_Namespace (wo_Meta o)) w1 = (false, "", w2)
    ∧ claimTriggerSlot label_error (wkey o) (rc_PollInterval r) webhookMinTriggerInterval w2 = (Ok true, w3)
    ∧ resolveAttempt url_path owner_error r o w3 = (name, w4).

(** C16. A reconciliation publishes nothing, or exactly one event, and that only
    for a workflow read as enabled and due, whose profile does not refuse, and
    right after this reconciliation won the workflow's trigger slot: the event
    carries the reason the workflow was due, the wake as it was read, and the
    attempt resolved for it. *)
Theorem Reconcile_publishes_after_slot key (w : W) res w' :
  Reconcile quote kube_text label_error url_path owner_error cron_next getenv Version traceparent marshal_event r
    key w = (res, w') →
  bus_sent w' = bus_sent w
  ∨ ∃ o reason name, Published key w o reason name ∧ rc_DaprClient r = true
      ∧ bus_sent w' = bus_sent w
          ++ [("pubsub", topic, marshal_event (trigger_event o reason (wake_revision o) traceparent name))].
Proof.
  unfold Reconcile. intros Hr. destruct (wc_get key w) as [x w0] eqn:Hg. pose proof (sent_wget _ _ _ _ Hg) as Q0.
  destruct x as [o|e]; [|simplify_eq; by left]. destruct (wf_Disabled _) eqn:Hd; [simplify_eq; by left|].
  destruct (terminalRunPending _ o w0) as [tw w1] eqn:Ht. pose proof (quiet_pending _ _ _ _ Ht) as Q1.
  destruct (isDue _ _ _ _) as [due rq] eqn:Hdue.
  set (reason := if tw then "run-terminal" else dueReason o) in Hr.
  assert ((if tw then (true, 0) else (due, rq)).1 = true →
    (reason = "run-terminal" ∧ terminalRunPending label_error o w0 = (true, w1)
     ∨ reason = dueReason o ∧ terminalRunPending label_error o w0 = (false, w1)
       ∧ (isDue cron_next (rc_PollInterval r) o (kc_now w1)).1 = true)) as Hwhy.
  { unfold reason. rewrite Hdue. destruct tw; [by left|]. intros Hd1. by right. }
  destruct (if tw then (true, 0) else (due, rq)) as [due' rq'] eqn:Hq. simpl in Hwhy.
  destruct due'; simpl in Hr; [|simplify_eq; left; congruence]. specialize (Hwhy eq_refl).
  destruct (profileCompat _ _ _ _ _ _ w1) as [[b cause] w2] eqn:Hp. pose proof (quiet_profile _ _ _ _ _ Hp) as Q2.
  assert (b = false → cause = "") as Hcause.
  { unfold profileCompat in Hp. destruct (decide _); [by simplify_eq|].
    destruct (sw_GetProfile _ w1) as [[]]; [destruct (decide _)|]; by simplify_eq. }
  destruct b; [left; destruct (rc_Recorder r); simplify_eq; rewrite ?sent_refuse; congruence|].
  rewrite (Hcause eq_refl) in Hp.
  destruct (claimTriggerSlot _ _ _ _ w2) as [y w3] eqn:Hc. pose proof (quiet_slot _ _ _ _ _ _ Hc) as Q3.
  destruct y as [[]|e]; [|simplify_eq; left; congruence..].
  injection Hr as <- <-. destruct (schedule_sends o reason w3) as (name&w4&Hres&Hsent).
  destruct (rc_DaprClient r); [|left; rewrite Hsent, app_nil_r; congruence].
  right. exists o, reason, name. split; [by exists w0, w1, w2, w3, w4|]. split; [done|]. rewrite Hsent. congruence.
Qed.
End publishing.

(** ** A finished run wakes its workflow *)



(** An attempt that refers to a workflow as namespace and name is mapped to it. *)
Lemma attempt_mapped a ns name :
  as_WorkflowRef (at_Spec a) = ns +:+ "/" +:+ name → ns ≠ "" → name ≠ "" → contains_byte ns "/" = false →
  attemptTerminalToWorkflow a = [(ns, name)].
Proof.
  intros Href Hns Hname Hc. unfold attemptTerminalToWorkflow. rewrite Href.
  change ("/" +:+ name) with (String "/" ("" +:+ name)). rewrite cut_first_app by done. simpl.
  by rewrite decide_False by naive_solver.
Qed.

(** An attempt of the controller names its workflow. *)
Lemma attempt_names_workflow obj ns name opts aname :
  op_WorkflowRef opts = ns +:+ "/" +:+ name → ns ≠ "" → name ≠ "" → contains_byte ns "/" = false →
  attemptTerminalToWorkflow (new_attempt obj opts aname) = [(ns, name)].
Proof. intros. by apply attempt_mapped. Qed.


Section wake.
Context {W : Type} `{HK : KubeClient W} `{!ClientLaws W} `{HR : RetryOnConflict} `{!RetryLaws}.
Context (label_error : string → option string).

End wake.

(** ** After a scheduled run *)

(** The workflow as a scheduled reconciliation of the object [o] leaves the
    object [fresh] it reread. *)
Definition settled (o fresh : WorkflowObject) (now : Z) : WorkflowObject :=
  set_Annotations (clear_wake (wo_Annotations fresh))
    (set_WStatus (stored (observed_status (wo_Generation o) now (wo_Status fresh))) fresh).

Lemma clear_wake_gone m : clear_wake m !! TriggerRevisionAnnotation = None.
Proof.
  unfold clear_wake. rewrite !lookup_delete_ne by (by vm_compute). apply lookup_delete_eq.
Qed.

Lemma settled_no_wake o fresh now : unprocessed_wake (settled o fresh now) = false.
Proof.
  unfold unprocessed_wake, annotation. cbn [wo_Annotations settled set_Annotations]. by rewrite clear_wake_gone.
Qed.

Lemma stored_armed s : gate_armed (stored s) = gate_armed s.
Proof. unfold gate_armed. simpl. by destruct (ws_ReviewReady s). Qed.

(** A scheduled run settles its workflow: with an idle gate, no cron and no
    change of the spec meanwhile, the workflow it leaves is not due before the
    poll interval has passed since the second of its stamp, and is looked at
    again within a positive part of that interval, so the status patches of a
    reconciliation do not trigger the next; a spec that changed after the
    reconciliation read it stays due at once. *)
Theorem observed_settles cron_next Poll o fresh now now' :
  Poll ≤ max_int64 → gate_armed (wo_Status fresh) = false →
  TrimSpace (so_Schedule (wf_Source (wo_Spec fresh))) = "" →
  Second ≤ now → now ≤ now' → now' < whole_seconds now + Poll →
  let due := isDue cron_next Poll (settled o fresh now) now' in
  (wo_Generation fresh = wo_Generation o → due.1 = false ∧ 0 < due.2 ≤ Poll)
  ∧ (wo_Generation fresh ≠ wo_Generation o → due.1 = true).
Proof.
  intros Hmax Hg Hs H1 Hle Hlt due. subst due. pose proof (whole_seconds_bounds now) as Hb. unfold Second in *.
  unfold isDue. cbv zeta. rewrite settled_no_wake.
  change (wo_Status (settled o fresh now)) with (stored (observed_status (wo_Generation o) now (wo_Status fresh))).
  rewrite stored_armed. change (gate_armed (observed_status _ _ _)) with (gate_armed (wo_Status fresh)). rewrite Hg.
  change (wo_Spec (settled o fresh now)) with (wo_Spec fresh).
  change (wo_Generation (settled o fresh now)) with (wo_Generation fresh). cbn [ws_ObservedGeneration stored observed_status set_observed].
  split; intros Hgen.
  - rewrite Hgen, Z.eqb_refl. simpl negb. cbv iota. destruct (decide (so_Kind _ = _)); [simpl; lia|].
    rewrite Hs. rewrite decide_False by (intros Hn; by apply Hn).
    change (ws_LastRunAt (stored (observed_status (wo_Generation o) now (wo_Status fresh)))) with (whole_seconds now).
    assert (time_IsZero (whole_seconds now) = false) as -> by (apply Z.eqb_neq; lia). simpl negb. cbv iota.
    assert (time_Sub now' (whole_seconds now) = now' - whole_seconds now) as ->
      by (unfold time_Sub, min_int64, max_int64 in *; lia).
    rewrite (proj2 (Z.ltb_lt _ _)) by lia. simpl. rewrite i64_id by (unfold min_int64, max_int64 in *; lia). lia.
  - rewrite (proj2 (Z.eqb_neq _ _)) by (intros Heq; by apply Hgen). done.
Qed.

(** ** On a concrete desk *)

Definition event_text (e : TriggerEvent) : string :=
  te_TriggerType e +:+ " " +:+ te_Revision e +:+ " " +:+ te_Pr e.

Definition run_reconcile (cron : string → Z → result string Z) (d : Desk) : ReconcileResult * Desk :=
  Reconcile (λ s, s) (λ _, "") (λ _, None) (λ _, None) (λ _ _, None) cron (λ _, "") "dev" "tp" event_text
    plain_reconciler ("ns", "docs") d.

Definition no_cron : string → Z → result string Z := λ _ _, Err "no cron".

Definition woken (rev pr : string) (others : list OtherWf) : Desk :=
  desk_of (40 * Hour) [] [wf_object "docs" (seen_status (39 * Hour) "old")
    {[TriggerRevisionAnnotation := rev; TriggerPRAnnotation := pr]}] others.

Lemma Reconcile_publishes_after_slot_witness :
  dk_sent (run_reconcile no_cron (woken "abc" "h/o/n#7" [])).2
    = [("pubsub", "harmostes-triggers", "webhook abc h/o/n#7")]
  ∧ ∃ o reason name, Published (λ s, s) (λ _, "") (λ _, None) (λ _, None) (λ _ _, None) no_cron (λ _, "") "dev"
                       plain_reconciler ("ns", "docs") (woken "abc" "h/o/n#7" []) o reason name.
Proof.
  split; [vm_compute; reflexivity|].
  destruct (Reconcile_publishes_after_slot (λ s, s) (λ _, "") (λ _, None) (λ _, None) (λ _ _, None) no_cron
    (λ _, "") "dev" "tp" event_text plain_reconciler ("ns", "docs") (woken "abc" "h/o/n#7" []) _ _
    (surjective_pairing _)) as [Hq|(o&reason&name&HP&_&_)].
  - vm_compute in Hq. discriminate Hq.
  - by exists o, reason, name.
Defined.

(** A first call of the slot, and a second one at the same instant. *)
Definition first_call : result Error bool * Desk :=
  claimTriggerSlot (λ _, None) ("ns", "docs") (5 * Minute) webhookMinTriggerInterval (woken "abc" "" []).
Definition second_call : result Error bool * Desk :=
  claimTriggerSlot (λ _, None) ("ns", "docs") (5 * Minute) webhookMinTriggerInterval first_call.2.

Lemma trigger_slots_spaced_witness :
  first_call.1 = Ok true ∧ second_call.1 = Ok false
  ∧ ∃ ts, Slots (λ _, None) ("ns", "docs") webhookMinTriggerInterval ts (woken "abc" "" []) first_call.2 ∧ ts ≠ [].
Proof.
  assert (first_call.1 = Ok true) as H1 by (vm_compute; reflexivity). split; [exact H1|].
  split; [vm_compute; reflexivity|].
  destruct (trigger_slots_spaced (λ _, None) ("ns", "docs") webhookMinTriggerInterval ltac:(done)
    (λ d, ltac:(unfold kc_now, desk_client, Second, Hour; lia)) (env_last ("ns", "docs"))
    [] _ _ (slots_none (λ _, None) ("ns", "docs") webhookMinTriggerInterval (woken "abc" "" []))) as [_ Hcall].
  destruct (Hcall (5 * Minute) webhookMinTriggerInterval _ _ ltac:(done) ltac:(done) (surjective_pairing _))
    as (ts&Hts&Hr). exists ts. split; [exact Hts|]. apply Hr. exact H1.
Defined.




Definition idle_object : WorkflowObject := wf_object "docs" (seen_status (39 * Hour) "") ∅.

Lemma observed_settles_witness :
  (isDue no_cron (5 * Minute) (settled idle_object idle_object (40 * Hour)) (40 * Hour + Minute)).1 = false.
Proof.
  destruct (observed_settles no_cron (5 * Minute) idle_object idle_object (40 * Hour) (40 * Hour + Minute)) as [Hn _];
    [done|reflexivity|reflexivity|done|done|reflexivity|]. by destruct (Hn eq_refl).
Defined.

(** ** What the code does not close *)

(** A newer wake that lands between the read that published and the clearing is
    deleted unpublished. *)
Lemma newer_wake_cleared :
  let r := run_reconcile no_cron (woken "abc" "h/o/n#7"
    [WfIdle; WfIdle; WfIdle; WfAnnotate ("ns", "docs") {[TriggerRevisionAnnotation := "def"; TriggerPRAnnotation := "h/o/n#8"]}]) in
  dk_sent r.2 = [("pubsub", "harmostes-triggers", "webhook abc h/o/n#7")]
  ∧ wo_Annotations <$> desk_obj r.2 ("ns", "docs") = Some ∅.
Proof. vm_compute. done. Qed.

(** A cron that parses and never fires has no next activation, the zero time:
    its workflow is due at every poll. *)
Lemma impossible_cron_always_due o now Poll :
  unprocessed_wake o = false → ws_ObservedGeneration (wo_Status o) = wo_Generation o →
  gate_armed (wo_Status o) = false → so_Kind (wf_Source (wo_Spec o)) ≠ "webhook" →
  TrimSpace (so_Schedule (wf_Source (wo_Spec o))) ≠ "" → 0 ≤ now →
  isDue (λ _ _, Ok 0) Poll o now = (true, Poll).
Proof.
  intros Hw Hg Ha Hk Hs Hn. unfold isDue. cbv zeta. rewrite Hw, Hg, Z.eqb_refl, Ha. simpl negb. cbv iota.
  rewrite decide_False by done. rewrite decide_True by done. unfold nextCronActivation.
  assert (time_Sub 0 now ≤ 0) as Ht by (unfold time_Sub, min_int64, max_int64; lia).
  by rewrite (proj2 (Z.ltb_ge _ _)).
Qed.

(** A condition that stays true keeps the generation it was first observed at. *)
Lemma condition_generation_stale now c g :
  sc_Type c = "Scheduled" → sc_Status c = "True" →
  sc_ObservedGeneration <$> setCondition now [c] (Scheduled g) = [sc_ObservedGeneration c].
Proof. intros Ht Hs. simpl. rewrite decide_True by (by rewrite Ht). simpl. by rewrite decide_True by (by rewrite Hs). Qed.

(** A tick of a workflow with a processed revision and no pin targets the head
    for the controller and the processed revision for the dispatcher, which
    resolves its own attempt: two identities. *)
Lemma tick_has_two_identities url_path o :
  annotation TriggerRevisionAnnotation o = "" → so_Revision (wf_Source (wo_Spec o)) = "" →
  ws_LastProcessedRevision (wo_Status o) ≠ "" →
  ob_TargetedState (objective_of_wake url_path o) = "head"
  ∧ ob_TargetedState (DeriveObjective url_path (wo_Workflow o)
      {| tc_Revision := wake_revision o; tc_Source := "webhook" |}) = ws_LastProcessedRevision (wo_Status o).
Proof.
  intros Ha Hr Hp. unfold objective_of_wake, wake_revision, DeriveObjective. rewrite Ha.
  destruct (deriveSubjects _ _ _) as [p rel]. cbn [ob_TargetedState]. unfold DeriveTargetedState. cbn [tc_Revision].
  change (wk_Spec (wo_Workflow o)) with (wo_Spec o). rewrite Hr. split.
  - by rewrite !decide_False by (intros Hn; by apply Hn).
  - rewrite (decide_True (P := "" = "")) by done. by rewrite decide_True.
Qed.
