(* ===== verification/Webhook.v ===== *)
(** * The webhook receiver ([internal/webhook])

    A signed delivery of a git host becomes annotations of a Workflow: which
    requests are authentic, how a body is told to be a push, a pull request or
    a completed check, and what each writes. The patches are merge patches
    without a resource version: they carry the difference between the object
    read and the object wanted, and are applied to what the server then has.
    Parsing a body to a JSON tree and printing with [%q] are parameters. *)

From S2P Require Import Prelude GoStrings Sha256 Json GoTime Api ReviewReady Kube WorkflowState Controller.

(** ** Requests and replies *)

Record HttpRequest := {
  hq_Method : string;
  hq_Path : string;
  hq_Body : option string;       (** None: the body could not be read *)
  hq_Namespace : string;         (** the query's [namespace] *)
  hq_Header : string → string;
}.

Record HttpReply := { hp_Status : Z; hp_Body : string }.

Definition newline : string := String "010" "".
Definition reply (status : Z) (body : string) : HttpReply := {| hp_Status := status; hp_Body := body |}.
(** [http.Error]. *)
Definition http_error (status : Z) (text : string) : HttpReply := reply status (text +:+ newline).

(** ** Signatures *)

Definition hmac_block (key : string) (pad : Z) : string :=
  let key := if 64 <? slen key then bytes_of (Sum256 key) else key in
  bytes_of ((λ i, Z.lxor pad (default 0 (byte_val <$> str_bytes key !! i))) <$> seq 0 64).

(** [hmac.New(sha256.New, key)], written once and summed. *)
Definition hmac_sha256 (key msg : string) : list Z :=
  Sum256 (hmac_block key 92 +:+ bytes_of (Sum256 (hmac_block key 54 +:+ msg))).

(** [expected], of a body under a secret. *)
Definition mac_text (secret body : string) : string := EncodeToString (hmac_sha256 secret body).

Definition verifyHMACSHA256 (header prefix body secret : string) : bool :=
  let sig := trim_prefix header prefix in
  if negb (slen sig =? 64) then false
  else bool_decide (mac_text secret body = sig).

Definition verifySignature (req : HttpRequest) (body secret : string) : bool :=
  let sig := hq_Header req "X-Hub-Signature-256" in
  if decide (sig ≠ "") then verifyHMACSHA256 sig "sha256=" body secret
  else
    let sig := hq_Header req "X-Forgejo-Signature" in
    if decide (sig ≠ "") then verifyHMACSHA256 sig "sha256=" body secret
    else
      let tok := hq_Header req "X-Gitlab-Token" in
      if decide (tok ≠ "") then bool_decide (tok = secret) else false.

(** ** Events *)

Record PushEvent := {
  pe_Ref : string; pe_URL : string; pe_HTMLURL : string; pe_FullName : string;
  pe_After : string; pe_Before : string; pe_Pusher : string;
}.

Definition dec_push : Decoder PushEvent := dec_struct (λ f,
  ref ← field "ref" dec_string f;
  repo ← field "repository" (dec_struct (λ g,
           u ← field "url" dec_string g; h ← field "html_url" dec_string g;
           n ← field "full_name" dec_string g; Some (u, h, n))) f;
  after ← field "after" dec_string f;
  before ← field "before" dec_string f;
  pusher ← field "pusher" (dec_struct (field "name" dec_string)) f;
  Some {| pe_Ref := ref; pe_URL := repo.1.1; pe_HTMLURL := repo.1.2; pe_FullName := repo.2;
          pe_After := after; pe_Before := before; pe_Pusher := pusher |}).

Record PullRequestEvent := {
  pv_Action : string; pv_Number : Z; pv_PRNumber : Z; pv_State : string; pv_Title : string;
  pv_HeadSha : string; pv_FullName : string; pv_HTMLURL : string;
}.

Definition dec_repository : Decoder (string * string) := dec_struct (λ g,
  n ← field "full_name" dec_string g; h ← field "html_url" dec_string g; Some (n, h)).

Definition dec_pull_request : Decoder PullRequestEvent := dec_struct (λ f,
  action ← field "action" dec_string f;
  number ← field "number" dec_int f;
  pr ← field "pull_request" (dec_struct (λ g,
         n ← field "number" dec_int g; s ← field "state" dec_string g; t ← field "title" dec_string g;
         h ← field "head" (dec_struct (field "sha" dec_string)) g; Some (n, s, t, h))) f;
  repo ← field "repository" dec_repository f;
  Some {| pv_Action := action; pv_Number := number; pv_PRNumber := pr.1.1.1; pv_State := pr.1.1.2;
          pv_Title := pr.1.2; pv_HeadSha := pr.2; pv_FullName := repo.1; pv_HTMLURL := repo.2 |}).

(** A pointer to a struct: nil for null and for no key. *)
Definition dec_ptr {A} (dec : Decoder A) : Decoder (option A) := λ j,
  match j with JNull => Some None | _ => Some <$> dec j end.

Record CIEvent := {
  ci_Action : string; ci_State : string; ci_SHA : string;
  ci_CheckSuite : option string; ci_WorkflowRun : option string;   (** head shas *)
  ci_FullName : string; ci_HTMLURL : string;
}.

Definition dec_ci : Decoder CIEvent := dec_struct (λ f,
  action ← field "action" dec_string f;
  state ← field "state" dec_string f;
  sha ← field "sha" dec_string f;
  suite ← field "check_suite" (dec_ptr (dec_struct (field "head_sha" dec_string))) f;
  run ← field "workflow_run" (dec_ptr (dec_struct (field "head_sha" dec_string))) f;
  repo ← field "repository" dec_repository f;
  Some {| ci_Action := action; ci_State := state; ci_SHA := sha; ci_CheckSuite := suite;
          ci_WorkflowRun := run; ci_FullName := repo.1; ci_HTMLURL := repo.2 |}).

(** The probe keeps what decodes and forgets the rest; a raw field is there as
    soon as its key is, [null] included. *)
Record Probe := {
  pb_Action : string; pb_State : string; pb_SHA : string; pb_CheckSuite : bool; pb_WorkflowRun : bool;
}.

Definition lenient_string (name : string) (f : list (string * json)) : string :=
  default "" (field name dec_string f).

Definition probe_of (j : option json) : Probe :=
  let f := match j with Some (JObj f) => f | _ => [] end in
  {| pb_Action := lenient_string "action" f; pb_State := lenient_string "state" f;
     pb_SHA := lenient_string "sha" f;
     pb_CheckSuite := bool_decide (is_Some (json_field "check_suite" f));
     pb_WorkflowRun := bool_decide (is_Some (json_field "workflow_run" f)) |}.

Inductive EventKind := CIKind | PullRequestKind | PushKind.

Definition event_kind (p : Probe) : EventKind :=
  if pb_CheckSuite p || pb_WorkflowRun p
     || (negb (bool_decide (pb_State p = "")) && negb (bool_decide (pb_SHA p = ""))
         && bool_decide (pb_Action p = "")) then CIKind
  else if decide (pb_Action p ≠ "") then PullRequestKind else PushKind.

Definition statusTerminalStates : list string := ["success"; "failure"; "error"].

(** The text up to the first slash, of a URL without its scheme. *)
Definition url_host (scheme htmlURL : string) : option string :=
  (λ u, match cut_first "/" u with Some (h, _) => h | None => u end) <$> strip_prefix scheme htmlURL.

Definition normalizeRepo (htmlURL fullName : string) : string :=
  let host := default "" (match url_host "https://" htmlURL with
                          | Some h => Some h
                          | None => url_host "http://" htmlURL
                          end) in
  if decide (host = "" ∨ host = "github.com") then "github.com/" +:+ fullName else host +:+ "/" +:+ fullName.

Definition zero_revision : string := "0000000000000000000000000000000000000000".
Definition short_sha (sha : string) : string := if 12 <? slen sha then str_take 12 sha else sha.

(** ** Merge patches ([client.MergeFrom]) *)

Definition merge_patch (base new : gmap string string) : gmap string (option string) :=
  merge (λ b n, match b, n with
                | Some b, Some n => if decide (b = n) then None else Some (Some n)
                | None, Some n => Some (Some n)
                | Some _, None => Some None
                | None, None => None
                end) base new.

(** What the server makes of it. *)
Definition apply_patch (p : gmap string (option string)) (cur : gmap string string) : gmap string string :=
  merge (λ d c, match d with Some v => v | None => c end) p cur.

(** The receiver's client, which is not cached. *)
Class HookClient (W : Type) := {
  hc_get : Key → W → result KErr WorkflowObject * W;
  hc_secret : Key → W → result KErr (gmap string string) * W;
  (** A merge patch of the annotations. *)
  hc_patch : Key → gmap string (option string) → W → result KErr unit * W;
}.

(** ** What an event asks for *)

Inductive Plan :=
| Answer (r : HttpReply)
| Annotate (annotations : gmap string string) (done : HttpReply).

Section plans.
Context (quote : string → string).

(** The head of a CI event, or the answer that ignores it. *)
Definition ci_head (e : CIEvent) : HttpReply + string :=
  let nested (what head : string) : HttpReply + string :=
    if decide (ci_Action e ≠ "completed")
    then inl (reply 200 (what +:+ " action " +:+ quote (ci_Action e) +:+ " ignored" +:+ newline))
    else inr (if decide (head = "") then ci_SHA e else head) in
  match ci_CheckSuite e, ci_WorkflowRun e with
  | Some head, _ => nested "check_suite" head
  | None, Some head => nested "workflow_run" head
  | None, None =>
      if decide (ci_State e ∈ statusTerminalStates) then inr (ci_SHA e)
      else inl (reply 200 ("status state " +:+ quote (ci_State e) +:+ " ignored" +:+ newline))
  end.

Definition serveCIWake (o : WorkflowObject) (e : CIEvent) : Plan :=
  match ci_head e with
  | inl r => Answer r
  | inr sha =>
      if decide (sha = "") then Answer (http_error 400 "missing head sha")
      else if decide (ci_FullName e = "") then Answer (http_error 400 "missing repository full_name")
      else
        let repo := normalizeRepo (ci_HTMLURL e) (ci_FullName e) in
        Annotate
          (delete TriggerTitleAnnotation (delete TriggerPRAnnotation
            (<[TriggerRepoAnnotation := repo]> (<[TriggerActionAnnotation := CIWakeAction]>
              (<[TriggerRevisionAnnotation := sha]> (wo_Annotations o))))))
          (reply 200 ("workflow " +:+ om_Name (wo_Meta o) +:+ " woken for " +:+ repo +:+ "@"
                      +:+ short_sha sha +:+ " (ci_completed)" +:+ newline))
  end.

Definition canonical_action (action : string) : string :=
  if decide (action = "synchronized") then "synchronize" else action.

Definition pr_number (e : PullRequestEvent) : Z :=
  if decide (pv_Number e = 0) then pv_PRNumber e else pv_Number e.

Definition set_title (title : string) (m : gmap string string) : gmap string string :=
  if decide (title ≠ "") then <[TriggerTitleAnnotation := title]> m else m.

Definition servePullRequest (o : WorkflowObject) (e : PullRequestEvent) : Plan :=
  let action := canonical_action (pv_Action e) in
  if decide (action ∉ PullRequestWakeActions)
  then Answer (reply 200 ("action " +:+ quote action +:+ " ignored" +:+ newline))
  else if decide (pr_number e = 0 ∨ pv_HeadSha e = "") then Answer (http_error 400 "missing number or head sha")
  else if decide (pv_FullName e = "") then Answer (http_error 400 "missing repository full_name")
  else
    let pointer := normalizeRepo (pv_HTMLURL e) (pv_FullName e) +:+ "#" +:+ pretty (pr_number e) in
    Annotate
      (<[TriggerActionAnnotation := action]> (set_title (pv_Title e)
        (<[TriggerPRAnnotation := pointer]> (<[TriggerRevisionAnnotation := pv_HeadSha e]> (wo_Annotations o)))))
      (reply 200 ("workflow " +:+ om_Name (wo_Meta o) +:+ " armed for " +:+ pointer +:+ " (" +:+ action
                  +:+ ")" +:+ newline)).

Definition push_branch (ref : string) : string :=
  let branch := trim_prefix ref "refs/heads/" in
  if decide (branch = "") then trim_prefix ref "refs/tags/" else branch.

Definition servePush (o : WorkflowObject) (name : string) (e : PushEvent) : Plan :=
  let wants := so_Branch (wf_Source (wo_Spec o)) in
  if decide (pe_After e = "" ∨ pe_After e = zero_revision) then Answer (http_error 400 "invalid revision")
  else if decide (wants ≠ "" ∧ push_branch (pe_Ref e) ≠ wants)
  then Answer (reply 202 ("branch " +:+ push_branch (pe_Ref e) +:+ " does not match workflow spec (wants "
                          +:+ wants +:+ ")" +:+ newline))
  else Annotate (<[TriggerRevisionAnnotation := pe_After e]> (wo_Annotations o))
         (reply 200 ("workflow " +:+ name +:+ " triggered for revision " +:+ pe_After e +:+ newline)).

(** An event of each kind, decoded strictly. *)
Definition event_plan (j : option json) (o : WorkflowObject) (name : string) : Plan :=
  let decoded {A} (dec : Decoder A) (k : A → Plan) : Plan :=
    match j ≫= dec with Some e => k e | None => Answer (http_error 400 "invalid event payload") end in
  match event_kind (probe_of j) with
  | CIKind => decoded dec_ci (serveCIWake o)
  | PullRequestKind => decoded dec_pull_request (servePullRequest o)
  | PushKind => decoded dec_push (servePush o name)
  end.
End plans.

(** ** The handler *)

Section handler.
Context {W : Type} `{HookClient W} (quote : string → string) (parse_json : string → option json).
Context (handler_namespace : string).

Definition run_plan (o : WorkflowObject) (p : Plan) (w : W) : HttpReply * W :=
  match p with
  | Answer r => (r, w)
  | Annotate m done =>
      match hc_patch (wkey o) (merge_patch (wo_Annotations o) m) w with
      | (Err _, w) => (http_error 500 "failed to trigger workflow", w)
      | (Ok _, w) => (done, w)
      end
  end.

(** The secret of a webhook declaration: of the Secret it names, or its own. *)
Definition hook_secret (namespace : string) (h : WebhookSpec) (w : W) : (HttpReply + string) * W :=
  match wh_SecretRef h with
  | None => (inr (wh_Secret h), w)
  | Some ref =>
      match hc_secret (namespace, sr_Name ref) w with
      | (Err _, w) => (inl (http_error 502 "failed to read webhook secret"), w)
      | (Ok data, w) =>
          let secret := default "" (data !! sr_Key ref) in
          if decide (secret = "") then (inl (http_error 500 "webhook secret key is empty"), w)
          else (inr secret, w)
      end
  end.

(** Does the declaration refuse this delivery? *)
Definition unsigned (h : WebhookSpec) (req : HttpRequest) (body secret : string) : bool :=
  bool_decide (secret ≠ "") && bool_decide (wh_URL h ≠ "") && negb (verifySignature req body secret).

Definition admit_delivery (namespace : string) (o : WorkflowObject) (req : HttpRequest) (body : string) (w : W)
    : option HttpReply * W :=
  match so_Webhook (wf_Source (wo_Spec o)) with
  | None => (None, w)
  | Some h =>
      match hook_secret namespace h w with
      | (inl r, w) => (Some r, w)
      | (inr secret, w) =>
          (if unsigned h req body secret then Some (http_error 401 "signature verification failed") else None, w)
      end
  end.

Definition request_namespace (req : HttpRequest) : string :=
  if decide (hq_Namespace req = "") then handler_namespace else hq_Namespace req.

Definition ServeHTTP (req : HttpRequest) (name : string) (w : W) : HttpReply * W :=
  if decide (hq_Method req ≠ "POST") then (http_error 405 "method not allowed", w)
  else match hq_Body req with
  | None => (http_error 400 "failed to read body", w)
  | Some body =>
      let namespace := request_namespace req in
      match hc_get (namespace, name) w with
      | (Err _, w) => (http_error 404 "workflow not found", w)
      | (Ok o, w) =>
          match admit_delivery namespace o req body w with
          | (Some r, w) => (r, w)
          | (None, w) => run_plan o (event_plan quote (parse_json body) o name) w
          end
      end
  end.
End handler.

(** ** The client's documented behaviour

    A direct read answers with a state the server had while it was asked; a
    merge patch is applied to whatever it has when the patch arrives. *)
Class HookLaws (W : Type) `{ClientLaws W} `{WorkflowClient W} `{!WorkflowLaws W} `{HookClient W} := {
  hget_law : ∀ k w r w', hc_get k w = (r, w') →
    match r with
    | Ok o => ∃ wm, kc_env w wm ∧ wc_obj wm k = Some o ∧ kc_env wm w'
    | Err _ => kc_env w w'
    end;
  hsecret_law : ∀ k w r w', hc_secret k w = (r, w') → kc_env w w';
  hpatch_law : ∀ k p w r w', hc_patch k p w = (r, w') →
    let done := ∃ cur rv, Commit wc_obj kc_env k (Some cur)
      (Some (set_wrv rv (set_Annotations (apply_patch p (wo_Annotations cur)) cur))) w w' in
    match r with
    | Ok _ => done
    | Err NotFound => kc_env w w'
    | Err _ => kc_env w w' ∨ done
    end;
}.
