(* ===== verification/Consumer.v ===== *)
(** * The trigger consumer ([internal/worker/consumer.go])

    What a pool pod does with a delivered event and with its timer: the
    request a CloudEvent stands for, the acknowledgement, and the cadence of
    the sweeps over armed workflows. The CloudEvents library, which unpacks the
    envelope, is a parameter; a run is the dispatcher's. *)

From S2P Require Import Prelude GoTime Controller JobEnv Webhook.

(** ** Configuration *)

Record ConsumerConfig := {
  cc_HTTPPort : string;
  cc_PubsubName : string;
  cc_Topic : string;
  cc_Namespace : string;
  cc_FastPoll : Z;
  cc_ArmedSource : bool;   (** ArmedWaitingWorkflows is set *)
}.

Definition NewConsumer (cfg : ConsumerConfig) : ConsumerConfig :=
  let or_default (s d : string) := if decide (s = "") then d else s in
  {| cc_HTTPPort := or_default (cc_HTTPPort cfg) "8084";
     cc_PubsubName := or_default (cc_PubsubName cfg) "pubsub";
     cc_Topic := or_default (cc_Topic cfg) "harmostes-triggers";
     cc_Namespace := cc_Namespace cfg; cc_FastPoll := cc_FastPoll cfg;
     cc_ArmedSource := cc_ArmedSource cfg |}.

Definition fastPollFromEnv (getenv : string → string) : Z :=
  let raw := getenv "HARMOSTES_GATE_FASTPOLL" in
  if decide (raw = "") then 0
  else match ParseDuration raw with
       | Some d => if d <=? 0 then 0 else d
       | None => 0
       end.

(** [RunConsumer]'s configuration. *)
Definition consumer_config (getenv : string → string) (namespace : string) : ConsumerConfig :=
  let envOr (key d : string) := if decide (getenv key = "") then d else getenv key in
  NewConsumer {| cc_HTTPPort := envOr "HARMOSTES_CONSUMER_PORT" "8084";
                 cc_PubsubName := envOr "HARMOSTES_PUBSUB_NAME" "pubsub";
                 cc_Topic := envOr "HARMOSTES_TRIGGER_TOPIC" "harmostes-triggers";
                 cc_Namespace := namespace; cc_FastPoll := fastPollFromEnv getenv;
                 cc_ArmedSource := true |}.

(** [handleSubscribe]: component, topic, route. *)
Definition handleSubscribe (cfg : ConsumerConfig) : list (string * string * string) :=
  [(cc_PubsubName cfg, cc_Topic cfg, "/triggers")].

(** [Start] runs the sweeps only with a cadence and a source. *)
Definition sweeps_enabled (cfg : ConsumerConfig) : bool := (0 <? cc_FastPoll cfg) && cc_ArmedSource cfg.

(** ** A delivered event *)

Definition request_of (ev : TriggerEvent) : RunRequest :=
  {| rq_Workflow := te_Workflow ev; rq_Namespace := te_Namespace ev; rq_Source := te_Source ev;
     rq_Attempt := te_AttemptName ev; rq_Traceparent := te_Traceparent ev; rq_Pr := te_Pr ev;
     rq_Action := te_Action ev; rq_Revision := te_Revision ev; rq_PrTitle := te_PrTitle ev;
     rq_Repo := te_Repo ev |}.

Section consumer.
Context {W CloudEvent : Type}.
Context (parse_cloud_event : string → option CloudEvent) (data_as : CloudEvent → option TriggerEvent).
Context (RunFunc : RunRequest → M W string unit).

Definition handleTrigger (body : string) (w : W) : HttpReply * W :=
  match parse_cloud_event body with
  | None => (http_error 400 "invalid cloud event", w)
  | Some event =>
      match data_as event with
      | None => (http_error 400 "invalid trigger data", w)
      | Some trigger =>
          match RunFunc (request_of trigger) w with
          | (Err e, w) => (http_error 500 ("run failed: " +:+ e), w)
          | (Ok _, w) => (reply 200 "", w)
          end
      end
  end.

(** ** The armed sweeps *)

Definition backoffCap : Z := 30 * Minute.

Record BackoffState := { bo_delay : Z; bo_lastLen : Z }.

Definition backoff_start (base : Z) : BackoffState := {| bo_delay := base; bo_lastLen := -1 |}.

(** The cadence after a pass that found [n] armed workflows. *)
Definition backoff_next (base n : Z) (s : BackoffState) : BackoffState :=
  {| bo_delay :=
       if (bo_lastLen s <? 0) || negb (n =? bo_lastLen s) then base
       else if bo_delay s <? backoffCap then Z.min (i64 (bo_delay s * 2)) backoffCap
       else bo_delay s;
     bo_lastLen := n |}.

Definition sweep_request (cfg : ConsumerConfig) (workflow : string) : RunRequest :=
  {| rq_Workflow := workflow; rq_Namespace := cc_Namespace cfg; rq_Source := "fast-poll";
     rq_Attempt := ""; rq_Traceparent := ""; rq_Pr := ""; rq_Action := ""; rq_Revision := "";
     rq_PrTitle := ""; rq_Repo := "" |}.

(** A failed sweep is logged, and the next one runs. *)
Fixpoint sweep_all (cfg : ConsumerConfig) (l : list string) (w : W) : W :=
  match l with
  | [] => w
  | wf :: l => sweep_all cfg l (RunFunc (sweep_request cfg wf) w).2
  end.

Context (armed : W → list string * W).

Definition armed_pass (cfg : ConsumerConfig) (s : BackoffState) (w : W) : BackoffState * W :=
  let '(l, w) := armed w in
  let w := sweep_all cfg l w in
  (backoff_next (cc_FastPoll cfg) (Z.of_nat (length l)) s, w).

(** The delays of the loop's first passes; one goroutine runs it, so its busy
    flag is always clear at the top. *)
Fixpoint armedBackoffLoop (fuel : nat) (cfg : ConsumerConfig) (s : BackoffState) (w : W) : list Z * W :=
  match fuel with
  | O => ([], w)
  | S fuel =>
      let '(s, w) := armed_pass cfg s w in
      let '(l, w) := armedBackoffLoop fuel cfg s w in
      (bo_delay s :: l, w)
  end.
End consumer.

(** ** The cadence *)

(** The delays that follow a series of armed counts. *)
Fixpoint delays (base : Z) (s : BackoffState) (counts : list Z) : list Z :=
  match counts with
  | [] => []
  | n :: counts => let s := backoff_next base n s in bo_delay s :: delays base s counts
  end.

(** The passes since the count last moved. *)
Fixpoint stalls (last k : Z) (counts : list Z) : list Z :=
  match counts with
  | [] => []
  | n :: counts =>
      let k := if (last <? 0) || negb (n =? last) then 0 else k + 1 in
      k :: stalls n k counts
  end.

(** The doubling, with its cap. *)
Definition backoff_spec (base k : Z) : Z := Z.max base (Z.min backoffCap (base * 2 ^ k)).

Lemma backoff_double base k : 0 < base ≤ max_int64 → 0 ≤ k →
  (if backoff_spec base k <? backoffCap then Z.min (i64 (backoff_spec base k * 2)) backoffCap
   else backoff_spec base k) = backoff_spec base (k + 1).
Proof.
  intros Hb Hk. unfold backoff_spec. rewrite Z.pow_add_r by lia. change (2 ^ 1) with 2.
  assert (1 ≤ 2 ^ k) as Hp by (pose proof (Z.pow_pos_nonneg 2 k); lia).
  assert (base ≤ base * 2 ^ k) as Hle by nia. revert Hle.
  replace (base * (2 ^ k * 2)) with (base * 2 ^ k * 2) by ring.
  generalize (base * 2 ^ k). intros x Hx. unfold backoffCap, Minute in *.
  destruct (_ <? _) eqn:Hc.
  - apply Z.ltb_lt in Hc. rewrite (i64_id (_ * 2)) by (unfold min_int64, max_int64 in *; lia). lia.
  - apply Z.ltb_ge in Hc. lia.
Qed.

Lemma delays_follow base s k counts : 0 < base ≤ max_int64 → 0 ≤ k → bo_delay s = backoff_spec base k →
  delays base s counts = backoff_spec base <$> stalls (bo_lastLen s) k counts.
Proof.
  intros Hb. revert s k. induction counts as [|n counts IH]; intros s k Hk Hs; [done|].
  cbn [delays stalls fmap list_fmap]. set (k' := if _ || _ then 0 else k + 1).
  assert (bo_delay (backoff_next base n s) = backoff_spec base k') as Hd.
  { unfold backoff_next, k'. cbn [bo_delay]. destruct (_ || _).
    - unfold backoff_spec. change (2 ^ 0) with 1. unfold backoffCap, Minute. lia.
    - rewrite Hs. by apply backoff_double. }
  f_equal; [exact Hd|]. apply (IH (backoff_next base n s)); [|exact Hd]. unfold k'. destruct (_ || _); lia.
Qed.

Lemma stalls_nonneg last k counts : 0 ≤ k → Forall (λ k, 0 ≤ k) (stalls last k counts).
Proof.
  revert last k. induction counts as [|n counts IH]; intros last k Hk; [constructor|]. cbn [stalls].
  constructor; [|apply IH]; by destruct (_ || _); lia.
Qed.

Lemma backoff_spec_bounds base k : base ≤ backoff_spec base k ≤ Z.max base backoffCap.
Proof. unfold backoff_spec. lia. Qed.

(** The counts of a run of the loop. *)
Lemma loop_delays {W} RunFunc (armed : W → list string * W) fuel cfg s w :
  ∃ counts, length counts = fuel ∧
    (armedBackoffLoop RunFunc armed fuel cfg s w).1 = delays (cc_FastPoll cfg) s counts.
Proof.
  revert s w. induction fuel as [|fuel IH]; intros s w; [by exists []|]. cbn [armedBackoffLoop].
  unfold armed_pass at 1. destruct (armed w) as [l w1].
  destruct (IH (backoff_next (cc_FastPoll cfg) (Z.of_nat (length l)) s) (sweep_all RunFunc cfg l w1))
    as (counts&Hl&Hd).
  exists (Z.of_nat (length l) :: counts). cbn [delays]. rewrite <- Hd.
  destruct (armedBackoffLoop _ _ _ _ _ _). split; [by rewrite <- Hl|done].
Qed.

(** The sweeps of armed workflows keep the cadence they are configured
    for: after a pass that ends a series of [k] passes without movement the
    loop waits [base * 2^k], at most thirty minutes and never less than [base].
    So for every base of an [int64], whatever the armed workflows do, no
    doubling overflows, and a movement brings the base back. *)
Theorem backoff_cadence base counts : 0 < base ≤ max_int64 →
  delays base (backoff_start base) counts = backoff_spec base <$> stalls (-1) 0 counts
  ∧ Forall (λ d, base ≤ d ≤ Z.max base backoffCap) (delays base (backoff_start base) counts)
  ∧ ∀ {W} RunFunc (armed : W → list string * W) fuel cfg w, cc_FastPoll cfg = base →
      Forall (λ d, base ≤ d ≤ Z.max base backoffCap)
        (armedBackoffLoop RunFunc armed fuel cfg (backoff_start base) w).1.
Proof.
  intros Hb. assert (∀ counts, delays base (backoff_start base) counts = backoff_spec base <$> stalls (-1) 0 counts) as Hd.
  { intros l. apply (delays_follow base (backoff_start base)); [done..|]. unfold backoff_spec, backoffCap, Minute.
    change (2 ^ 0) with 1. simpl. lia. }
  assert (∀ counts, Forall (λ d, base ≤ d ≤ Z.max base backoffCap) (delays base (backoff_start base) counts)) as Hf.
  { intros l. rewrite Hd. apply Forall_fmap, Forall_true. intros k. apply backoff_spec_bounds. }
  split_and!; [done..|]. intros W RunFunc armed fuel cfg w Hc.
  destruct (loop_delays RunFunc armed fuel cfg (backoff_start base) w) as (l&_&->). by rewrite Hc.
Qed.

Lemma backoff_cadence_witness :
  delays (10 * Minute) (backoff_start (10 * Minute)) [2; 2; 2; 2; 1; 1]
  = [10 * Minute; 20 * Minute; 30 * Minute; 30 * Minute; 10 * Minute; 20 * Minute].
Proof.
  destruct (backoff_cadence (10 * Minute) [2; 2; 2; 2; 1; 1]) as [-> _]; [by unfold Minute, max_int64|reflexivity].
Defined.

(** A claim that replaces another leaves the count, and the backoff, as they were. *)
Lemma swap_looks_stalled base : 0 < base → base < backoffCap →
  ∃ sets : list (list string), sets = [["a"]; ["b"]]
    ∧ delays base (backoff_start base) (Z.of_nat ∘ length <$> sets) = [base; Z.min (i64 (base * 2)) backoffCap].
Proof. intros Hb Hc. eexists. split; [done|]. simpl. unfold backoff_next. simpl. by rewrite (proj2 (Z.ltb_lt _ _)). Qed.
