(* ===== verification/WebhookProps.v ===== *)
(** * Properties of the webhook receiver

    Signatures are accepted exactly when they are the body's; a delivery writes
    nothing but the wake's annotations, and only when its workflow's secret
    vouches for it; what it writes makes the workflow due and comes out of the
    consumer as the request it asked for. *)

From S2P Require Import Prelude GoStrings Sha256 Json GoTime Api ReviewReady Kube JobEnv Gate WorkflowState Controller ControllerModel Webhook Consumer.

(** ** Signatures *)

(** The vector of RFC 4231, test case 2. *)
Example hmac_vector :
  mac_text "Jefe" "what do ya want for nothing?"
  = "5bdcc146bf60754e6a042426089575c75a003f089d2739839dec58b964ec3843".
Proof. vm_compute. reflexivity. Qed.

Lemma hmac_length secret body : length (hmac_sha256 secret body) = 32%nat.
Proof. apply Sum256_length. Qed.

Lemma mac_length secret body : slen (mac_text secret body) = 64.
Proof. unfold mac_text, slen. rewrite EncodeToString_length, hmac_length. reflexivity. Qed.

Lemma mac_hex secret body : all_bytes is_hex (mac_text secret body) = true.
Proof. apply EncodeToString_hex. Qed.

Lemma mac_not_prefixed secret body t : mac_text secret body ≠ "sha256=" +:+ t.
Proof.
  pose proof (mac_hex secret body) as H. generalize dependent (mac_text secret body). intros m H ->. done.
Qed.

(** A header names the body's code, with the scheme or without. *)
Definition vouches (header secret body : string) : Prop :=
  header = mac_text secret body ∨ header = "sha256=" +:+ mac_text secret body.

Lemma trimmed_mac header m : (∀ t, m ≠ "sha256=" +:+ t) →
  trim_prefix header "sha256=" = m ↔ header = m ∨ header = "sha256=" +:+ m.
Proof.
  intros Hm. unfold trim_prefix. destruct (strip_prefix "sha256=" header) as [t|] eqn:Hp; cbn [default from_option id].
  - apply strip_prefix_Some in Hp as ->. split; [intros ->; by right|].
    intros [He|He]; [by destruct (Hm t)|]. by apply (app_str_inj "sha256=") in He.
  - split; [by left|]. intros [?|He]; [done|]. rewrite He, strip_prefix_app in Hp. done.
Qed.

Lemma hmac_header_spec header body secret :
  verifyHMACSHA256 header "sha256=" body secret = true ↔ vouches header secret body.
Proof.
  unfold verifyHMACSHA256, vouches. cbv zeta.
  rewrite <- (trimmed_mac header _ (mac_not_prefixed secret body)).
  pose proof (mac_length secret body) as Hl. generalize dependent (mac_text secret body). intros m Hl.
  split; [destruct (negb _); [discriminate|]; intros H%bool_decide_eq_true; by rewrite H|].
  intros ->. rewrite Hl. simpl. by apply bool_decide_eq_true.
Qed.

Definition signed_with (secret body : string) (req : HttpRequest) : Prop :=
  let hub := hq_Header req "X-Hub-Signature-256" in
  let forgejo := hq_Header req "X-Forgejo-Signature" in
  let gitlab := hq_Header req "X-Gitlab-Token" in
  hub ≠ "" ∧ vouches hub secret body
  ∨ hub = "" ∧ forgejo ≠ "" ∧ vouches forgejo secret body
  ∨ hub = "" ∧ forgejo = "" ∧ gitlab ≠ "" ∧ gitlab = secret.

(** A delivery passes the signature check exactly when the first header it
    carries vouches for it: GitHub's or Forgejo's is the hexadecimal HMAC-SHA256
    of this very body under the secret, with its scheme or bare, or GitLab's is
    the secret itself. No signature header is a refusal, and so is a wrong
    GitHub one beside a right one of another host. *)
Theorem verifySignature_spec req body secret :
  verifySignature req body secret = true ↔ signed_with secret body req.
Proof.
  unfold verifySignature, signed_with. cbv zeta.
  destruct (decide (hq_Header req "X-Hub-Signature-256" ≠ "")) as [Hh|Hh]; [rewrite hmac_header_spec; tauto|].
  apply dec_stable in Hh. rewrite Hh.
  destruct (decide (hq_Header req "X-Forgejo-Signature" ≠ "")) as [Hf|Hf]; [rewrite hmac_header_spec; naive_solver|].
  apply dec_stable in Hf. rewrite Hf.
  destruct (decide (hq_Header req "X-Gitlab-Token" ≠ "")) as [Hg|Hg]; [rewrite bool_decide_eq_true; naive_solver|].
  naive_solver.
Qed.

(** ** Merge patches *)

Lemma apply_patch_lookup p (cur : gmap string string) k :
  apply_patch p cur !! k = match p !! k with Some v => v | None => cur !! k end.
Proof. unfold apply_patch. rewrite lookup_merge. by destruct (p !! k), (cur !! k). Qed.

Lemma merge_patch_lookup (base new : gmap string string) k :
  merge_patch base new !! k = if decide (base !! k = new !! k) then None else Some (new !! k).
Proof.
  unfold merge_patch. rewrite lookup_merge. destruct (base !! k) as [b|], (new !! k) as [n|]; simpl; try done.
  case_decide; [by rewrite decide_True by congruence|]. by rewrite decide_False by congruence.
Qed.

(** The patch brings its keys to the value wanted, unless base and wanted agree. *)
Lemma patched_lookup base new cur k :
  apply_patch (merge_patch base new) cur !! k = if decide (base !! k = new !! k) then cur !! k else new !! k.
Proof. rewrite apply_patch_lookup, merge_patch_lookup. by case_decide. Qed.

Lemma patched_same base new : apply_patch (merge_patch base new) base = new.
Proof. apply map_eq. intros k. rewrite patched_lookup. by case_decide. Qed.

(** ** What plans write *)

Definition wake_keys : list string :=
  [TriggerRevisionAnnotation; TriggerPRAnnotation; TriggerActionAnnotation; TriggerTitleAnnotation;
   TriggerRepoAnnotation].

Lemma set_title_other title (m : gmap string string) k : k ≠ TriggerTitleAnnotation → set_title title m !! k = m !! k.
Proof. intros Hk. unfold set_title. case_decide; [by rewrite lookup_insert_ne|done]. Qed.

Ltac other_key Hk :=
  repeat first [rewrite lookup_insert_ne by (intros <-; apply Hk; unfold wake_keys; set_solver)
               |rewrite lookup_delete_ne by (intros <-; apply Hk; unfold wake_keys; set_solver)
               |rewrite set_title_other by (intros ->; apply Hk; unfold wake_keys; set_solver)]; done.

Lemma plan_keys quote j o name m d k :
  event_plan quote j o name = Annotate m d → k ∉ wake_keys → m !! k = wo_Annotations o !! k.
Proof.
  unfold event_plan. intros Hp Hk. destruct (event_kind _).
  - destruct (j ≫= dec_ci) as [e|]; [|done]. unfold serveCIWake in Hp. destruct (ci_head quote e); [done|].
    repeat case_decide; try done. injection Hp as <- _. other_key Hk.
  - destruct (j ≫= dec_pull_request) as [e|]; [|done]. unfold servePullRequest in Hp.
    repeat case_decide; try done. injection Hp as <- _. other_key Hk.
  - destruct (j ≫= dec_push) as [e|]; [|done]. unfold servePush in Hp.
    repeat case_decide; try done. injection Hp as <- _. other_key Hk.
Qed.

(** ** The handler *)

Section handler.
Context {W : Type} `{HK : KubeClient W} `{!ClientLaws W} `{HC : WorkflowClient W} `{HWL : !WorkflowLaws W}
  `{HH : HookClient W} `{HHL : !HookLaws W}.
Context (quote : string → string) (parse_json : string → option json) (default_ns : string).

Notation wrote := (Wrote wc_obj kc_env).
Notation serve := (ServeHTTP quote parse_json default_ns).

(** The secret a declaration stands for: its own, or read of the Secret named. *)
Definition declared_secret (ns : string) (h : WebhookSpec) (secret : string) : Prop :=
  match wh_SecretRef h with
  | None => secret = wh_Secret h
  | Some ref => secret ≠ "" ∧ ∃ w data w', hc_secret (ns, sr_Name ref) w = (Ok data, w') ∧ data !! sr_Key ref = Some secret
  end.

(** The delivery is vouched for wherever the declaration asks for it. *)
Definition vouched (ns : string) (o : WorkflowObject) (req : HttpRequest) (body : string) : Prop :=
  ∀ h, so_Webhook (wf_Source (wo_Spec o)) = Some h →
    ∃ secret, declared_secret ns h secret ∧ (secret ≠ "" → wh_URL h ≠ "" → signed_with secret body req).

Lemma hook_secret_law ns h (w : W) r w' :
  hook_secret ns h w = (r, w') →
  kc_env w w' ∧ match r with inr secret => declared_secret ns h secret | inl rep => 500 ≤ hp_Status rep end.
Proof.
  unfold hook_secret, declared_secret. destruct (wh_SecretRef h) as [ref|].
  - destruct (hc_secret _ w) as [[data|e] w1] eqn:Hs; pose proof (hsecret_law _ _ _ _ Hs) as He; cbv zeta.
    + case_decide as Hd; intros [= <- <-]; (split; [done|]); [done|]. split; [done|].
      exists w, data, w1. split; [done|]. by destruct (data !! sr_Key ref).
    + by intros [= <- <-].
  - intros [= <- <-]. split; [reflexivity|done].
Qed.

Lemma admit_law ns o req body (w : W) r w' :
  admit_delivery ns o req body w = (r, w') →
  kc_env w w' ∧ match r with None => vouched ns o req body | Some rep => 400 ≤ hp_Status rep end.
Proof.
  unfold admit_delivery, vouched. destruct (so_Webhook _) as [h|].
  - destruct (hook_secret ns h w) as [s w1] eqn:Hs. apply hook_secret_law in Hs as [He Hs].
    destruct s as [rep|secret]; [intros [= <- <-]; split; [done|lia]|]. intros [= <- <-]. split; [done|].
    destruct (unsigned h req body secret) eqn:Hu; [done|]. intros h' [= <-]. exists secret. split; [done|].
    intros Hne Hurl. apply verifySignature_spec. unfold unsigned in Hu.
    rewrite !bool_decide_eq_true_2 in Hu by done. by destruct (verifySignature _ _ _).
  - intros [= <- <-]. split; [reflexivity|done].
Qed.

(** What one delivery may do: nothing, or the patch of the wake it carries on
    an authentic request; the reply tells which, but for a lost answer. *)
Definition delivered (req : HttpRequest) (k : Key) (w : W) (resp : HttpReply)
    (tr : list (Key * option WorkflowObject * option WorkflowObject)) : Prop :=
  tr = []
  ∨ ∃ body base cur rv m done wm,
      hq_Method req = "POST" ∧ hq_Body req = Some body
      ∧ kc_env w wm ∧ wc_obj wm k = Some base ∧ vouched k.1 base req body
      ∧ event_plan quote (parse_json body) base k.2 = Annotate m done
      ∧ tr = [(k, Some cur, Some (set_wrv rv (set_Annotations (apply_patch (merge_patch (wo_Annotations base) m) (wo_Annotations cur)) cur)))]
      ∧ (resp = done ∨ hp_Status resp = 500)
      ∧ ∀ key, key ∉ wake_keys →
          apply_patch (merge_patch (wo_Annotations base) m) (wo_Annotations cur) !! key = wo_Annotations cur !! key.

Lemma run_plan_law o p (w : W) resp w' :
  run_plan o p w = (resp, w') →
  ∃ tr, wrote tr w w' ∧
    (tr = [] ∧ (p = Answer resp ∨ hp_Status resp = 500)
     ∨ ∃ cur rv m done, p = Annotate m done ∧ (resp = done ∨ hp_Status resp = 500)
       ∧ tr = [(wkey o, Some cur, Some (set_wrv rv (set_Annotations (apply_patch (merge_patch (wo_Annotations o) m) (wo_Annotations cur)) cur)))]).
Proof.
  destruct p as [r|m d]; simpl.
  - intros [= <- <-]. exists []. split; [by apply wrote_none|]. left. split; [done|by left].
  - destruct (hc_patch _ _ w) as [r2 w2] eqn:Hp. apply hpatch_law in Hp. cbv zeta in Hp.
    set (done := ∃ cur rv, _) in Hp.
    assert ((∃ e, r2 = Err e) ∧ kc_env w w2 ∨ done) as Hcases.
    { destruct r2 as [|[]]; try (by right); try (left; split; [by eexists|exact Hp]);
        (destruct Hp as [?|?]; [left; split; [by eexists|done]|by right]). }
    destruct Hcases as [[[e ->] He]|(cur&rv&HC1)].
    + intros [= <- <-]. exists []. split; [by apply wrote_none|]. left. split; [done|by right].
    + intros Hr. assert (w' = w2 ∧ (resp = d ∨ hp_Status resp = 500)) as [-> Hresp]
        by (destruct r2; simplify_eq; auto).
      eexists. split; [by apply Wrote_one; [exact _|]|]. right. by exists cur, rv, m, d.
Qed.

(** C17. Every delivery leaves the cluster as it was or makes one change: the
    wake its body carries, on the workflow its path names, read in the
    meantime. Then it was a POST whose body could be read, and where the
    workflow declares a webhook with a secret and a host the request was signed
    with that secret over that body; and the change touches no annotation but
    the wake's five, and neither spec nor status, whatever other writers did
    between the read and the patch. *)
Theorem deliveries_authentic req name (w : W) resp w' :
  serve req name w = (resp, w') →
  ∃ tr, wrote tr w w' ∧ delivered req (request_namespace default_ns req, name) w resp tr.
Proof.
  unfold ServeHTTP. destruct (decide (hq_Method req ≠ "POST")) as [|Hm].
  { intros [= <- <-]. exists []. split; [by apply wrote_none|by left]. }
  apply dec_stable in Hm. destruct (hq_Body req) as [body|] eqn:Hbody.
  2: { intros [= <- <-]. exists []. split; [by apply wrote_none|by left]. }
  cbv zeta. destruct (hc_get _ w) as [[o|e] w1] eqn:Hg; pose proof (hget_law _ _ _ _ Hg) as He.
  2: { intros [= <- <-]. exists []. split; [by apply wrote_none|by left]. }
  destruct He as (wm&Hwm&Ho&Hw1).
  destruct (admit_delivery _ _ _ _ w1) as [[rep|] w2] eqn:Ha; apply admit_law in Ha as [He2 Hv].
  { intros [= <- <-]. exists []. split; [apply wrote_none; by repeat (etransitivity; [eassumption|])|by left]. }
  intros Hr. apply run_plan_law in Hr as (tr&Hw&Hcases). pose proof (wobj_key _ _ _ Ho) as Hk.
  exists tr. split. { eapply Wrote_env_l; [exact _|..|exact Hw]. by repeat (etransitivity; [eassumption|]). }
  destruct Hcases as [[-> _]|(cur&rv&m&d&Hp&Hresp&->)]; [by left|right]. rewrite Hk.
  exists body, o, cur, rv, m, d, wm. split_and!; try done.
  intros k Hn. rewrite patched_lookup. case_decide as Hd; [done|]. by destruct Hd; symmetry; eapply plan_keys.
Qed.
End handler.

(** ** From a delivery to a run *)

Lemma url_host_slash htmlURL fullName : contains_byte (normalizeRepo htmlURL fullName) "/" = true.
Proof.
  unfold normalizeRepo. case_decide; [done|].
  by rewrite contains_byte_app, app_str_cons, contains_byte_cons, orb_true_r.
Qed.

Lemma unprocessed_due cron_next poll (o : WorkflowObject) now :
  annotation TriggerRevisionAnnotation o ≠ "" →
  annotation TriggerRevisionAnnotation o ≠ ws_LastProcessedRevision (wo_Status o) →
  isDue cron_next poll o now = (true, 0).
Proof. intros Hne Hnp. unfold isDue, unprocessed_wake. by rewrite !bool_decide_eq_false_2. Qed.

(** The annotations a plan asks for, key by key. *)
Ltac keyed :=
  unfold set_title; repeat case_decide;
  repeat first [rewrite lookup_insert_eq | rewrite lookup_delete_eq
               |rewrite lookup_insert_ne by discriminate | rewrite lookup_delete_ne by discriminate]; done.

Lemma pull_request_plan quote o e m d :
  servePullRequest quote o e = Annotate m d →
  canonical_action (pv_Action e) ∈ PullRequestWakeActions ∧ pv_HeadSha e ≠ ""
  ∧ m !! TriggerRevisionAnnotation = Some (pv_HeadSha e)
  ∧ m !! TriggerPRAnnotation = Some (pointer_of (normalizeRepo (pv_HTMLURL e) (pv_FullName e)) (pr_number e))
  ∧ m !! TriggerActionAnnotation = Some (canonical_action (pv_Action e))
  ∧ m !! TriggerTitleAnnotation
    = (if decide (pv_Title e = "") then wo_Annotations o !! TriggerTitleAnnotation else Some (pv_Title e))
  ∧ m !! TriggerRepoAnnotation = wo_Annotations o !! TriggerRepoAnnotation.
Proof.
  unfold servePullRequest. case_decide as Ha; [done|].
  case_decide as Hn; [done|]. case_decide; [done|]. cbv zeta. intros [= <- _].
  split_and!; [done|naive_solver|..]; keyed.
Qed.

Lemma ci_plan quote o e m d :
  serveCIWake quote o e = Annotate m d →
  ∃ sha, ci_head quote e = inr sha ∧ sha ≠ ""
  ∧ m !! TriggerRevisionAnnotation = Some sha
  ∧ m !! TriggerActionAnnotation = Some CIWakeAction
  ∧ m !! TriggerRepoAnnotation = Some (normalizeRepo (ci_HTMLURL e) (ci_FullName e))
  ∧ m !! TriggerPRAnnotation = None ∧ m !! TriggerTitleAnnotation = None.
Proof.
  unfold serveCIWake. destruct (ci_head quote e) as [r|sha] eqn:Hh; [done|]. case_decide as Hs; [done|].
  case_decide; [done|]. cbv zeta. intros [= <- _]. exists sha. split_and!; [done|done|..]; keyed.
Qed.

(** The object as the server has it after a wake, when nobody wrote its
    annotations between the read and the patch. *)
Definition woken (rv : Z) (o : WorkflowObject) (m : gmap string string) : WorkflowObject :=
  set_wrv rv (set_Annotations (apply_patch (merge_patch (wo_Annotations o) m) (wo_Annotations o)) o).

Lemma woken_annotation rv o m k : annotation k (woken rv o m) = default "" (m !! k).
Proof. unfold annotation, woken. cbn [set_wrv set_Annotations wo_Annotations]. by rewrite patched_same. Qed.

(** The event the controller publishes for an object, as the consumer gets it. *)
Definition published (o : WorkflowObject) (reason traceparent attempt : string) : TriggerEvent :=
  trigger_event o reason (annotation TriggerRevisionAnnotation o) traceparent attempt.

Section path.
Context {W CloudEvent : Type} (cron_next : string → Z → result string Z) (poll now : Z).
Context (quote : string → string) (marshal_event : TriggerEvent → string) (envelope : string → string).
Context (parse_cloud_event : string → option CloudEvent) (data_as : CloudEvent → option TriggerEvent).
Context (RunFunc : RunRequest → M W string unit).

(** The message bus delivers in an envelope what was published, and the
    envelope's data decodes to the event encoded. *)
Definition bus_roundtrip : Prop :=
  ∀ ev, parse_cloud_event (envelope (marshal_event ev)) ≫= data_as = Some ev.

Lemma consumed ev (w : W) :
  bus_roundtrip →
  handleTrigger parse_cloud_event data_as RunFunc (envelope (marshal_event ev)) w
  = match RunFunc (request_of ev) w with
    | (Ok _, w) => (reply 200 "", w)
    | (Err e, w) => (http_error 500 ("run failed: " +:+ e), w)
    end.
Proof.
  intros Hrt. specialize (Hrt ev). unfold handleTrigger. destruct (parse_cloud_event _) as [c|]; [|done].
  simpl in Hrt. rewrite Hrt. by destruct (RunFunc _ w) as [[]].
Qed.

(** A pull request's delivery comes out as the run it asked for. The object
    it leaves is due at once, unless its head is the revision processed last;
    and the event published for that object reaches the consumer as exactly one
    run request, acknowledged if and only if the run is: the head of the pull
    request as its revision, the action under its canonical name, a pointer the
    gate reads back as the repository and the number of the payload, and the
    payload's title. A completed check's comes out with the head and the
    repository, and without the pointer and the title of an earlier wake. *)
Theorem wake_reaches_run o rv reason tp att (w : W) :
  bus_roundtrip →
  (∀ e m d, servePullRequest quote o e = Annotate m d → 0 < pr_number e ≤ max_int64 →
     let o' := woken rv o m in
     (pv_HeadSha e ≠ ws_LastProcessedRevision (wo_Status o) → isDue cron_next poll o' now = (true, 0))
     ∧ ∃ rq, handleTrigger parse_cloud_event data_as RunFunc (envelope (marshal_event (published o' reason tp att))) w
             = match RunFunc rq w with
               | (Ok _, w) => (reply 200 "", w)
               | (Err e, w) => (http_error 500 ("run failed: " +:+ e), w)
               end
         ∧ rq_Workflow rq = om_Name (wo_Meta o) ∧ rq_Namespace rq = om_Namespace (wo_Meta o)
         ∧ rq_Revision rq = pv_HeadSha e ∧ rq_Action rq = canonical_action (pv_Action e)
         ∧ rq_Action rq ∈ PullRequestWakeActions
         ∧ parsePRPointer (rq_Pr rq) = Ok (normalizeRepo (pv_HTMLURL e) (pv_FullName e), pr_number e)
         ∧ (pv_Title e ≠ "" → rq_PrTitle rq = pv_Title e))
  ∧ (∀ e m d, serveCIWake quote o e = Annotate m d →
     let o' := woken rv o m in
     ∃ sha rq, ci_head quote e = inr sha
         ∧ (sha ≠ ws_LastProcessedRevision (wo_Status o) → isDue cron_next poll o' now = (true, 0))
         ∧ handleTrigger parse_cloud_event data_as RunFunc (envelope (marshal_event (published o' reason tp att))) w
             = match RunFunc rq w with
               | (Ok _, w) => (reply 200 "", w)
               | (Err e, w) => (http_error 500 ("run failed: " +:+ e), w)
               end
         ∧ rq_Revision rq = sha ∧ rq_Action rq = CIWakeAction
         ∧ rq_Repo rq = normalizeRepo (ci_HTMLURL e) (ci_FullName e) ∧ rq_Pr rq = "" ∧ rq_PrTitle rq = "").
Proof.
  intros Hrt. split.
  - intros e m d Hp Hn o'. apply pull_request_plan in Hp as (Ha&Hs&Hrev&Hpr&Hact&Htitle&_). split.
    + intros Hnp. apply unprocessed_due; unfold o'; by rewrite woken_annotation, Hrev.
    + eexists. split; [by apply consumed|].
      cbn [request_of published trigger_event rq_Workflow rq_Namespace rq_Revision rq_Action rq_Pr rq_PrTitle
           te_Workflow te_Namespace te_Revision te_Action te_Pr te_PrTitle].
      unfold o'. rewrite !woken_annotation, Hrev, Hpr, Hact, Htitle. cbn [default from_option id].
      split_and!; [done..| |intros Ht; by rewrite decide_False].
      apply parse_spec. exists (pretty (pr_number e)).
      split_and!; [done|apply pretty_no_byte; [lia|done]|apply Atoi_pretty; lia|lia|apply url_host_slash].
  - intros e m d Hp o'. apply ci_plan in Hp as (sha&Hh&Hs&Hrev&Hact&Hrepo&Hpr&Htitle). exists sha.
    eexists. split; [done|]. split; [|split; [by apply consumed|]].
    + intros Hnp. apply unprocessed_due; unfold o'; by rewrite woken_annotation, Hrev.
    + cbn [request_of published trigger_event rq_Revision rq_Action rq_Pr rq_PrTitle rq_Repo
           te_Revision te_Action te_Pr te_PrTitle te_Repo].
      unfold o'. by rewrite !woken_annotation, Hrev, Hpr, Hact, Htitle, Hrepo.
Qed.
End path.

(** ** Limits *)

(** A tag's push keeps its whole ref for a branch, so it matches no branch. *)
Lemma tag_push_branch t : push_branch ("refs/tags/" +:+ t) = "refs/tags/" +:+ t.
Proof. done. Qed.

(** A secret declared without a host's URL asks for no signature. *)
Lemma secret_without_url_admits h req body secret : wh_URL h = "" → unsigned h req body secret = false.
Proof. unfold unsigned. intros ->. by destruct (bool_decide _). Qed.

(** A push leaves an earlier wake's pull request, action and title in place. *)
Lemma push_keeps_pointer o name e m d k :
  servePush o name e = Annotate m d → k ≠ TriggerRevisionAnnotation → m !! k = wo_Annotations o !! k.
Proof.
  unfold servePush. repeat (case_decide; [done|]). intros [= <- _] Hk. by rewrite lookup_insert_ne.
Qed.

(** The wake of a revision that was on the object read and cleared since is
    not on the object left: the merge patch does not carry it. *)
Lemma repeated_wake_lost (o : WorkflowObject) name e m d cur :
  servePush o name e = Annotate m d →
  wo_Annotations o !! TriggerRevisionAnnotation = Some (pe_After e) →
  cur !! TriggerRevisionAnnotation = None →
  apply_patch (merge_patch (wo_Annotations o) m) cur !! TriggerRevisionAnnotation = None.
Proof.
  unfold servePush. repeat (case_decide; [done|]). intros [= <- _] Ho Hc.
  by rewrite patched_lookup, lookup_insert_eq, decide_True.
Qed.

(** ** On a desk *)

(** The receiver's client of a desk, with the Secrets it can read. *)
Definition desk_secrets : Key → option (gmap string string) := λ k,
  if decide (k = ("ns", "hook")) then Some {["token" := "s3cret"]} else None.

#[export] Instance desk_hook : HookClient Desk := {|
  hc_get k d := let d := desk_turn d in
                (match desk_obj d k with Some o => Ok o | None => Err NotFound end, d);
  hc_secret k d := (match desk_secrets k with Some m => Ok m | None => Err NotFound end, d);
  hc_patch k p d :=
    let d := desk_turn d in
    match desk_obj d k with
    | Some _ => (Ok tt, update_wf k (λ o, set_Annotations (apply_patch p (wo_Annotations o)) o) d)
    | None => (Err NotFound, d)
    end;
|}.

#[export] Instance desk_hook_laws : HookLaws Desk.
Proof.
  split.
  - intros k d r d' [= <- <-]. destruct (desk_obj (desk_turn d) k) as [o|] eqn:Ho; [|apply turn_env].
    exists (desk_turn d). split_and!; [apply turn_env|done|reflexivity].
  - intros k d r d' [= _ <-]. reflexivity.
  - intros k p d r d'. cbn [hc_patch desk_hook]. destruct (desk_obj (desk_turn d) k) as [cur|] eqn:Hc; intros [= <- <-].
    2: apply turn_env.
    exists cur, (wrv cur + 1). eexists (desk_turn d), _.
    split_and!; [apply turn_env|done| | |reflexivity].
    + by apply (update_wf_same k (λ o, set_Annotations (apply_patch p (wo_Annotations o)) o)).
    + intros k' Hk. by apply update_wf_other.
Qed.

(** A workflow that takes signed pushes to main. *)
Definition hooked_source : SourceSpec :=
  {| so_Kind := "git"; so_Repo := ""; so_Branch := "main"; so_Revision := ""; so_Schedule := ""; so_Topic := "";
     so_Language := ""; so_Fork := None;
     so_Webhook := Some {| wh_Secret := ""; wh_SecretRef := Some {| sr_Name := "hook"; sr_Key := "token" |};
                           wh_URL := "https://h" |} |}.

Definition with_source (s : SourceSpec) (f : WorkflowSpec) : WorkflowSpec :=
  {| wf_Source := s; wf_TemplateRef := wf_TemplateRef f; wf_Config := wf_Config f;
     wf_WorkspaceRepo := wf_WorkspaceRepo f; wf_Prepare := wf_Prepare f; wf_Agent := wf_Agent f;
     wf_Deploy := wf_Deploy f; wf_Graph := wf_Graph f; wf_ReviewReady := wf_ReviewReady f;
     wf_Bindings := wf_Bindings f; wf_Events := wf_Events f; wf_Cache := wf_Cache f;
     wf_Sessions := wf_Sessions f; wf_Attachments := wf_Attachments f;
     wf_PluginsConfigMapRef := wf_PluginsConfigMapRef f; wf_Scaling := wf_Scaling f; wf_Disabled := wf_Disabled f |}.

Definition hooked (m : gmap string string) : WorkflowObject :=
  let o := wf_object "docs" (seen_status 0 "") m in
  {| wo_Workflow := {| wk_Meta := wo_Meta o; wk_Spec := with_source hooked_source (wo_Spec o) |};
     wo_Annotations := m; wo_Generation := 1; wo_Status := wo_Status o |}.

Definition push_body : json := JObj [("ref", JStr "refs/heads/main"); ("after", JStr "abc123")].

Definition signed_request (secret : string) : HttpRequest :=
  {| hq_Method := "POST"; hq_Path := "/webhook/docs"; hq_Body := Some "{}"; hq_Namespace := "";
     hq_Header name := if decide (name = "X-Hub-Signature-256") then "sha256=" +:+ mac_text secret "{}" else "" |}.

Definition deliver (secret : string) : HttpReply * Desk :=
  ServeHTTP id (λ _, Some push_body) "ns" (signed_request secret) "docs" (desk_of Hour [] [hooked ∅] []).

Definition docs_revision (d : Desk) : option string :=
  o ← desk_obj d ("ns", "docs"); wo_Annotations o !! TriggerRevisionAnnotation.

Lemma deliveries_authentic_witness :
  hp_Status (deliver "s3cret").1 = 200 ∧ docs_revision (deliver "s3cret").2 = Some "abc123"
  ∧ hp_Status (deliver "wrong").1 = 401 ∧ docs_revision (deliver "wrong").2 = None
  ∧ ∃ tr, Wrote wc_obj kc_env tr (desk_of Hour [] [hooked ∅] []) (deliver "s3cret").2
      ∧ delivered id (λ _, Some push_body) (signed_request "s3cret") ("ns", "docs")
          (desk_of Hour [] [hooked ∅] []) (deliver "s3cret").1 tr.
Proof.
  split_and!; [vm_compute; reflexivity..|].
  exact (deliveries_authentic id (λ _, Some push_body) "ns" (signed_request "s3cret") "docs" _ _ _
           (surjective_pairing (deliver "s3cret"))).
Defined.

(** An event as its fields, for a bus that carries the text as it is. *)
Definition event_fields (ev : TriggerEvent) : list string :=
  [te_Workflow ev; te_Namespace ev; te_Revision ev; te_Source ev; te_TriggerType ev; te_Traceparent ev;
   te_AttemptName ev; te_Pr ev; te_PrTitle ev; te_Action ev; te_Repo ev].

Definition fields_event (l : list string) : option TriggerEvent :=
  match l with
  | [a; b; c; d; e; f; g; h; i; j; k] =>
      Some {| te_Workflow := a; te_Namespace := b; te_Revision := c; te_Source := d; te_TriggerType := e;
              te_Traceparent := f; te_AttemptName := g; te_Pr := h; te_PrTitle := i; te_Action := j; te_Repo := k |}
  | _ => None
  end.

Lemma text_bus_roundtrip : bus_roundtrip (enc_fields ∘ event_fields) id Some (λ t, dec_fields t ≫= fields_event).
Proof. intros ev. simpl. rewrite dec_enc_fields by done. by destruct ev. Qed.

Definition sample_pr : PullRequestEvent :=
  {| pv_Action := "synchronized"; pv_Number := 0; pv_PRNumber := 12; pv_State := "open"; pv_Title := "Fix";
     pv_HeadSha := "abc123"; pv_FullName := "o/n"; pv_HTMLURL := "https://git.example/o/n" |}.

Lemma wake_reaches_run_witness :
  ∃ m d, servePullRequest id (hooked ∅) sample_pr = Annotate m d
    ∧ isDue (λ _ _, Err "") Minute (woken 2 (hooked ∅) m) Hour = (true, 0)
    ∧ ∃ rq : RunRequest, rq_Action rq = "synchronize" ∧ parsePRPointer (rq_Pr rq) = Ok ("git.example/o/n", 12).
Proof.
  eexists _, _. split; [vm_compute; reflexivity|].
  destruct (wake_reaches_run (λ _ _, Err "") Minute Hour id (enc_fields ∘ event_fields) id Some
    (λ t, dec_fields t ≫= fields_event) (λ _ (l : list unit), (Ok tt, l)) (hooked ∅) 2 "webhook" "" "" []
    text_bus_roundtrip) as [Hpr _].
  edestruct (Hpr sample_pr) as [Hdue (rq&_&_&_&_&Ha&_&Hp&_)]; [reflexivity|by vm_compute|].
  split; [by apply Hdue|]. exists rq. by rewrite Ha, Hp.
Defined.
