(* ===== verification/TemplateHistory.v ===== *)
(** * Template landings and the template's history
    ([internal/webhook/landing.go], [internal/controller/template_history.go])

    A signed push to a template's own repository is stashed on the template as
    an annotation; the recorder appends each spec it has not recorded yet to the
    bounded history in another annotation, with the landing it finds. The spec
    is a type of its own, compared as [reflect.DeepEqual] compares it: a nil
    slice of it is not an empty one. Its encoding is a parameter. *)

From S2P Require Import Prelude GoStrings Sha256 GoTime Api Template Kube Json WorkflowState Webhook Consumer WebhookProps.

Definition TemplateRevisionsAnnotation : string := "template.harmostes.dev/revisions".
Definition TemplatePendingLandingAnnotation : string := "template.harmostes.dev/pending-landing".
Definition MaxTemplateRevisions : nat := 5.

Record TemplateRevisionLanding := { ld_Sha : string; ld_Pusher : string; ld_At : string }.

Section template.
Context {Spec : Type} `{EqDecision Spec}.

Record TemplateRevision := {
  tv_Rev : Z;
  tv_Description : string;
  tv_Spec : Spec;
  tv_Landing : option TemplateRevisionLanding;
}.

Record TemplateObject := {
  tm_Meta : ObjectMeta;
  tm_Annotations : gmap string string;
  tm_Spec : Spec;
}.

Definition tkey (t : TemplateObject) : Key := (om_Namespace (tm_Meta t), om_Name (tm_Meta t)).

Definition set_template_annotations (m : gmap string string) (t : TemplateObject) : TemplateObject :=
  {| tm_Meta := tm_Meta t; tm_Annotations := m; tm_Spec := tm_Spec t |}.

Definition set_template_spec (s : Spec) (t : TemplateObject) : TemplateObject :=
  {| tm_Meta := tm_Meta t; tm_Annotations := tm_Annotations t; tm_Spec := s |}.

Definition template_annotation (key : string) (t : TemplateObject) : string := default "" (tm_Annotations t !! key).

(** [encoding/json] on the two annotations' values. *)
Class LandingCodec := {
  lc_marshal_revs : list TemplateRevision → option string;
  lc_unmarshal_revs : string → option (list TemplateRevision);
  lc_marshal : TemplateRevisionLanding → string;
  lc_unmarshal : string → option TemplateRevisionLanding;
}.

Class TemplateClient (W : Type) := {
  tl_now : W → Z;
  tl_get : Key → W → result KErr TemplateObject * W;
  tl_secret : Key → W → result KErr (gmap string string) * W;
  (** A merge patch of the annotations, and an update under the version read. *)
  tl_patch : Key → gmap string (option string) → W → result KErr unit * W;
  tl_update : TemplateObject → W → result KErr unit * W;
}.

(** ** The recorder *)

Section recorder.
Context `{LandingCodec}.

Definition parseTemplateRevisions (raw : string) : list TemplateRevision :=
  if decide (raw = "") then [] else default [] (lc_unmarshal_revs raw).

Definition renumber (l : list TemplateRevision) : list TemplateRevision :=
  imap (λ i r, {| tv_Rev := Z.of_nat i + 1; tv_Description := tv_Description r; tv_Spec := tv_Spec r;
                  tv_Landing := tv_Landing r |}) l.

(** The window: the last five, renumbered when some were dropped. *)
Definition bound_revisions (l : list TemplateRevision) : list TemplateRevision :=
  if decide (MaxTemplateRevisions < length l)%nat then renumber (drop (length l - MaxTemplateRevisions) l) else l.

(** The landing a pending value stands for. *)
Definition pending_landing (raw : string) : option TemplateRevisionLanding :=
  if decide (raw = "") then None
  else l ← lc_unmarshal raw; if decide (ld_Sha l = "") then None else Some l.

(** The history after one more revision. *)
Definition append_revision (revs : list TemplateRevision) (spec : Spec) (raw : string) : list TemplateRevision :=
  bound_revisions (revs ++ [{| tv_Rev := Z.of_nat (length revs) + 1; tv_Description := ""; tv_Spec := spec;
                               tv_Landing := pending_landing raw |}]).

Inductive Recorded := Nothing | Unencodable | Record_ (t : TemplateObject).

Definition record_revision (t : TemplateObject) : Recorded :=
  let revs := parseTemplateRevisions (template_annotation TemplateRevisionsAnnotation t) in
  if decide (tv_Spec <$> last revs = Some (tm_Spec t)) then Nothing
  else
    let raw := template_annotation TemplatePendingLandingAnnotation t in
    let m := if decide (raw = "") then tm_Annotations t else delete TemplatePendingLandingAnnotation (tm_Annotations t) in
    match lc_marshal_revs (append_revision revs (tm_Spec t) raw) with
    | None => Unencodable
    | Some encoded => Record_ (set_template_annotations (<[TemplateRevisionsAnnotation := encoded]> m) t)
    end.

(** [TemplateHistoryReconciler.Reconcile]: the error it returns, if any. *)
Definition TemplateReconcile {W} `{TemplateClient W} (key : Key) (w : W) : option Error * W :=
  match tl_get key w with
  | (Err e, w) => (if IsNotFound e then None else Some (EKube e), w)
  | (Ok t, w) =>
      match record_revision t with
      | Nothing => (None, w)
      | Unencodable => (Some (EText "json"), w)
      | Record_ t => match tl_update t w with
                     | (Err e, w) => (Some (EKube e), w)
                     | (Ok _, w) => (None, w)
                     end
      end
  end.
End recorder.

(** ** The landing handler *)

(** [strings.EqualFold], as far as ASCII can tell: the two runes outside ASCII
    that fold to a letter of it do, every other one is its own fold. *)
Fixpoint fold_text (s : string) : string :=
  match s with
  | "" => ""
  | String a r =>
      match r with
      | String b r2 =>
          if decide (a = "197"%char ∧ b = "191"%char) then String "s" (fold_text r2)
          else match r2 with
               | String c r3 =>
                   if decide (a = "226"%char ∧ b = "132"%char ∧ c = "170"%char) then String "k" (fold_text r3)
                   else String (lower_byte a) (fold_text r)
               | "" => String (lower_byte a) (fold_text r)
               end
      | "" => String (lower_byte a) (fold_text r)
      end
  end.

Definition EqualFold (s t : string) : bool := bool_decide (fold_text s = fold_text t).

Section landing.
Context `{LandingCodec} {W} `{TemplateClient W}.
Context (source_of : Spec → option TemplateSourceSpec) (parse_json : string → option json).
Context (handler_namespace : string).

(** Why a push is not a landing of the source, or the landing. *)
Definition landing_of (src : TemplateSourceSpec) (now : Z) (push : PushEvent) : HttpReply + TemplateRevisionLanding :=
  let branch := if decide (ts_Branch src = "") then "main" else ts_Branch src in
  if negb (EqualFold (pe_FullName push) (ts_Repo src)) || negb (bool_decide (pe_Ref push = "refs/heads/" +:+ branch))
  then inl (http_error 400 "push does not match the declared source")
  else if decide (pe_After push = "" ∨ pe_After push = zero_revision) then inl (http_error 400 "invalid revision")
  else inr {| ld_Sha := pe_After push; ld_Pusher := pe_Pusher push; ld_At := format_RFC3339 now |}.

Definition in_quotes (s : string) : string := String "034" (s +:+ String "034" "").
Definition landing_recorded : string := "{" +:+ in_quotes "status" +:+ ":" +:+ in_quotes "landing recorded" +:+ "}".

(** The stash of a landing on the template read. *)
Definition stash (t : TemplateObject) (l : TemplateRevisionLanding) (w : W) : HttpReply * W :=
  let m := <[TemplatePendingLandingAnnotation := lc_marshal l]> (tm_Annotations t) in
  match tl_patch (tkey t) (merge_patch (tm_Annotations t) m) w with
  | (Err _, w) => (http_error 500 "failed to record landing", w)
  | (Ok _, w) => (reply 200 landing_recorded, w)
  end.

Definition landing_event (t : TemplateObject) (src : TemplateSourceSpec) (body : string) (w : W) : HttpReply * W :=
  match parse_json body ≫= dec_push with
  | None => (http_error 400 "invalid event payload", w)
  | Some push =>
      match landing_of src (tl_now w) push with
      | inl r => (r, w)
      | inr l => stash t l w
      end
  end.

(** The template's secret, or the refusal of a source without one. *)
Definition landing_secret (namespace : string) (src : TemplateSourceSpec) (w : W) : (HttpReply + string) * W :=
  match ts_SecretRef src with
  | None => (inl (http_error 401 "template source carries no webhook secret"), w)
  | Some ref =>
      match tl_secret (namespace, sr_Name ref) w with
      | (Err _, w) => (inl (http_error 502 "failed to read webhook secret"), w)
      | (Ok data, w) =>
          let secret := default "" (data !! sr_Key ref) in
          if decide (secret = "") then (inl (http_error 500 "webhook secret key is empty"), w)
          else (inr secret, w)
      end
  end.

Definition ServeTemplateLanding (req : HttpRequest) (name : string) (w : W) : HttpReply * W :=
  if decide (hq_Method req ≠ "POST") then (http_error 405 "method not allowed", w)
  else match hq_Body req with
  | None => (http_error 400 "failed to read body", w)
  | Some body =>
      let namespace := request_namespace handler_namespace req in
      match tl_get (namespace, name) w with
      | (Err e, w) => (if IsNotFound e then http_error 404 "template not found"
                       else http_error 500 "failed to read template", w)
      | (Ok t, w) =>
          match source_of (tm_Spec t) with
          | None => (http_error 404 "template declares no source", w)
          | Some src =>
              match landing_secret namespace src w with
              | (inl r, w) => (r, w)
              | (inr secret, w) =>
                  if verifySignature req body secret then landing_event t src body w
                  else (http_error 401 "signature verification failed", w)
              end
          end
      end
  end.
End landing.
End template.

Arguments TemplateRevision : clear implicits.
Arguments TemplateObject : clear implicits.
Arguments LandingCodec : clear implicits.
Arguments TemplateClient : clear implicits.

(** ** The routes of the receiver's server ([cmd/harmostes-controller/main.go]) *)

Section routes.
Context {W : Type} (serve landing : HttpRequest → string → W → HttpReply * W).

(** The handler of /webhook/. *)
Definition webhook_route (req : HttpRequest) (w : W) : HttpReply * W :=
  let name := trim_prefix (hq_Path req) "/webhook/" in
  match strip_prefix "templates/" name with
  | Some rest =>
      if decide (rest = "") then (http_error 400 "template name required", w) else landing req rest w
  | None => if decide (name = "") then (http_error 400 "workflow name required", w) else serve req name w
  end.

(** [corsHandler]: a preflight is answered without the handler. *)
Definition cors_route (req : HttpRequest) (w : W) : HttpReply * W :=
  if decide (hq_Method req = "OPTIONS") then (reply 200 "", w) else webhook_route req w.
End routes.

(** ** Properties of a template's history

    The annotation is the window of a log: what was delivered, in order, with
    the landing each revision found; the recorder settles; a landing is stashed
    on nothing but an authentic push to the declared source. *)

(** ** The log *)

Section log.
Context {Spec : Type} `{EqDecision Spec} `{HC : !LandingCodec Spec}.

(** What other parties and the recorder do to a template: Flux delivers a spec,
    a push is stashed, the recorder runs. *)
Inductive Event :=
| Deliver (s : Spec)
| Land (l : TemplateRevisionLanding)
| RecordNow.

Definition step (t : TemplateObject Spec) (e : Event) : TemplateObject Spec :=
  match e with
  | Deliver s => set_template_spec s t
  | Land l => set_template_annotations (<[TemplatePendingLandingAnnotation := lc_marshal l]> (tm_Annotations t)) t
  | RecordNow => match record_revision t with Record_ t => t | _ => t end
  end.

(** The log: every spec recorded with its landing, the landing waiting, and the
    spec in force. A revision takes the landing that waits. *)
Record Log := { lo_entries : list (Spec * option TemplateRevisionLanding);
                lo_waiting : option TemplateRevisionLanding; lo_spec : Spec }.

Definition log_step (g : Log) (e : Event) : Log :=
  match e with
  | Deliver s => {| lo_entries := lo_entries g; lo_waiting := lo_waiting g; lo_spec := s |}
  | Land l => {| lo_entries := lo_entries g; lo_waiting := Some l; lo_spec := lo_spec g |}
  | RecordNow =>
      if decide (fst <$> last (lo_entries g) = Some (lo_spec g)) then g
      else {| lo_entries := lo_entries g ++ [(lo_spec g, lo_waiting g)]; lo_waiting := None; lo_spec := lo_spec g |}
  end.

(** The last five entries, numbered from one. *)
Definition window (l : list (Spec * option TemplateRevisionLanding)) : list (TemplateRevision Spec) :=
  imap (λ i e, {| tv_Rev := Z.of_nat i + 1; tv_Description := ""; tv_Spec := e.1; tv_Landing := e.2 |})
    (drop (length l - MaxTemplateRevisions) l).

Lemma window_length l : length (window l) = Nat.min MaxTemplateRevisions (length l).
Proof. unfold window. rewrite length_imap, length_drop. lia. Qed.

Lemma window_last l : tv_Spec <$> last (window l) = fst <$> last l.
Proof.
  unfold window. destruct l as [|e l] using rev_ind; [done|]. clear IHl. rewrite length_app. simpl.
  rewrite drop_app_le by (unfold MaxTemplateRevisions; lia). rewrite imap_app. simpl. by rewrite !last_snoc.
Qed.

Lemma renumber_ext (l l' : list (TemplateRevision Spec)) :
  Forall2 (λ a b, tv_Description a = tv_Description b ∧ tv_Spec a = tv_Spec b ∧ tv_Landing a = tv_Landing b) l l' →
  renumber l = renumber l'.
Proof.
  unfold renumber. intros Hl. apply list_eq. intros i. rewrite !list_lookup_imap.
  destruct (l !! i) as [a|] eqn:Ha.
  - destruct (Forall2_lookup_l _ _ _ _ _ Hl Ha) as (b&->&Hd&Hs&Hld). simpl. by rewrite Hd, Hs, Hld.
  - destruct (l' !! i) as [b|] eqn:Hb; [|done]. destruct (Forall2_lookup_r _ _ _ _ _ Hl Hb) as (a&?&_). congruence.
Qed.

(** Appending to the window is the window of the longer log. *)
Lemma append_window l spec raw :
  append_revision (window l) spec raw = window (l ++ [(spec, pending_landing raw)]).
Proof.
  unfold append_revision, bound_revisions. rewrite length_app, window_length. simpl length.
  set (x := {| tv_Rev := _; tv_Description := ""; tv_Spec := spec; tv_Landing := pending_landing raw |}).
  unfold MaxTemplateRevisions in *. case_decide as Hlen.
  - replace (Nat.min 5 (length l) + 1 - 5)%nat with 1%nat by lia.
    rewrite drop_app_le by (rewrite window_length; unfold MaxTemplateRevisions; lia).
    unfold window at 2. rewrite length_app. simpl length. unfold MaxTemplateRevisions.
    rewrite drop_app_le by lia.
    transitivity (renumber (imap (λ i e, {| tv_Rev := Z.of_nat i + 1; tv_Description := ""; tv_Spec := e.1; tv_Landing := e.2 |})
      (drop (length l + 1 - 5) l ++ [(spec, pending_landing raw)]))).
    + apply renumber_ext. rewrite imap_app. apply Forall2_app; [|by repeat constructor].
      replace (length l + 1 - 5)%nat with (1 + (length l - 5))%nat by lia. rewrite Nat.add_comm, <- drop_drop.
      unfold window, MaxTemplateRevisions. apply Forall2_same_length_lookup. split.
      * by repeat rewrite ?length_drop, ?length_imap.
      * intros i a b. rewrite lookup_drop, !list_lookup_imap, !lookup_drop.
        destruct (_ !! _); simpl; [|done]. by intros [= <-] [= <-].
    + unfold renumber. apply list_eq. intros i. rewrite !list_lookup_imap. by destruct (_ !! i).
  - unfold window at 2. rewrite length_app. simpl length. unfold MaxTemplateRevisions.
    replace (length l + 1 - 5)%nat with O by lia. rewrite drop_0, imap_app.
    unfold window, MaxTemplateRevisions. replace (length l - 5)%nat with O by lia. rewrite drop_0. f_equal.
    unfold x. replace (5 `min` length l)%nat with (length l) by lia. simpl. by rewrite Nat.add_0_r.
Qed.

(** The specs and landings that survive the encoding (for JSON: valid texts, and
    no empty slice that is left out). *)
Context (P : Spec → Prop) (L : TemplateRevisionLanding → Prop).

Definition entry_ok (e : Spec * option TemplateRevisionLanding) : Prop := P e.1 ∧ ∀ l, e.2 = Some l → L l.

(** A revision as the recorder makes it. *)
Definition revision_ok (r : TemplateRevision Spec) : Prop :=
  0 < tv_Rev r ≤ max_int64 ∧ tv_Description r = "" ∧ entry_ok (tv_Spec r, tv_Landing r).

(** What the encoding has to keep. *)
Definition codec_keeps : Prop :=
  (∀ l, Forall revision_ok l → ∃ t, lc_marshal_revs l = Some t ∧ t ≠ "" ∧ lc_unmarshal_revs t = Some l)
  ∧ ∀ l, L l → lc_marshal l ≠ "" ∧ lc_unmarshal (lc_marshal l) = Some l.

Definition admissible (e : Event) : Prop :=
  match e with Deliver s => P s | Land l => ld_Sha l ≠ "" ∧ L l | RecordNow => True end.

Definition history (t : TemplateObject Spec) : list (TemplateRevision Spec) :=
  parseTemplateRevisions (template_annotation TemplateRevisionsAnnotation t).
Definition waiting (t : TemplateObject Spec) : option TemplateRevisionLanding :=
  pending_landing (template_annotation TemplatePendingLandingAnnotation t).

Definition refines (t : TemplateObject Spec) (g : Log) : Prop :=
  tm_Spec t = lo_spec g ∧ history t = window (lo_entries g) ∧ waiting t = lo_waiting g
  ∧ Forall entry_ok (lo_entries g) ∧ entry_ok (lo_spec g, lo_waiting g).

Lemma window_forall l : Forall entry_ok l → Forall revision_ok (window l).
Proof.
  intros Hl. apply Forall_lookup. intros i r Hi. pose proof (lookup_lt_Some _ _ _ Hi) as Hlt.
  rewrite window_length in Hlt. unfold MaxTemplateRevisions in Hlt. revert Hi. unfold window.
  rewrite list_lookup_imap, lookup_drop. destruct (_ !! _) as [[s l']|] eqn:He; simpl; [|done]. intros [= <-].
  unfold revision_ok. simpl. split_and!; [lia|unfold max_int64; lia|done|]. by eapply Forall_lookup_1 in Hl.
Qed.

Lemma annotation_insert k v (m : gmap string string) (t : TemplateObject Spec) k' :
  template_annotation k' (set_template_annotations (<[k := v]> m) t)
  = if decide (k = k') then v else default "" (m !! k').
Proof.
  unfold template_annotation. simpl. case_decide as Hk; [by rewrite Hk, lookup_insert_eq|by rewrite lookup_insert_ne].
Qed.

(** One event keeps the annotation the window of the log. *)
Lemma step_refines t g e : codec_keeps → admissible e → refines t g → refines (step t e) (log_step g e).
Proof.
  intros [Hrevs Hland] Ha (Hs&Hh&Hw&HP&Hps). destruct e as [s|l|]; simpl in Ha.
  - split_and!; try done. by destruct Hps.
  - destruct Ha as [Hsha HL]. destruct (Hland l HL) as [Hne Hrt].
    split_and!; try done; unfold history, waiting; simpl step.
    + rewrite annotation_insert, decide_False by done. exact Hh.
    + rewrite annotation_insert, decide_True by done. unfold pending_landing.
      rewrite decide_False by done. rewrite Hrt. simpl. by rewrite decide_False.
    + split; [by destruct Hps|]. by intros ? [= <-].
  - simpl. unfold record_revision. fold (history t). fold (waiting t). rewrite Hh, window_last, Hs.
    destruct (decide (fst <$> last (lo_entries g) = Some (lo_spec g))) as [Hd|Hd]; [by split_and!|].
    rewrite append_window. fold (waiting t). rewrite Hw.
    destruct (Hrevs (window (lo_entries g ++ [(lo_spec g, lo_waiting g)]))) as (enc&->&Hne&Hrt).
    { apply window_forall, Forall_app. split; [done|by apply Forall_singleton]. }
    split_and!; try done.
    + unfold history. rewrite annotation_insert, decide_True by done. unfold parseTemplateRevisions.
      by rewrite decide_False, Hrt.
    + unfold waiting. rewrite annotation_insert, decide_False by done. simpl. unfold pending_landing.
      destruct (decide (template_annotation TemplatePendingLandingAnnotation t = "")) as [He|He].
      * unfold template_annotation in He. rewrite He. done.
      * by rewrite lookup_delete_eq.
    + simpl. apply Forall_app. split; [done|by apply Forall_singleton].
    + split; [by destruct Hps|done].
Qed.

Definition landings (events : list Event) : list TemplateRevisionLanding :=
  omap (λ e, match e with Land l => Some l | _ => None end) events.

(** The landings on the entries, and the one that waits, come from as many
    stashes, in order. *)
Lemma log_landings g events :
  omap snd (lo_entries (foldl log_step g events)) ++ option_list (lo_waiting (foldl log_step g events))
  `sublist_of` (omap snd (lo_entries g) ++ option_list (lo_waiting g)) ++ landings events.
Proof.
  revert g. induction events as [|e events IH]; intros g; [by rewrite app_nil_r|]. cbn [foldl].
  etransitivity; [apply IH|]. destruct e as [s|l|]; [done| |].
  - change (landings (Land l :: events)) with ([l] ++ landings events). rewrite (assoc_L (++)).
    apply sublist_app; [|done]. simpl. rewrite <- (assoc_L (++)). apply sublist_app; [done|]. by apply sublist_inserts_l.
  - change (landings (RecordNow :: events)) with (landings events). apply sublist_app; [|done].
    cbn [log_step]. destruct (decide _); [done|]. cbn [lo_entries lo_waiting option_list]. rewrite app_nil_r, omap_app.
    simpl. by destruct (lo_waiting g).
Qed.

Definition adjacent_distinct (l : list (Spec * option TemplateRevisionLanding)) : Prop :=
  ∀ i a b, l !! i = Some a → l !! S i = Some b → a.1 ≠ b.1.

Lemma log_distinct g events :
  adjacent_distinct (lo_entries g) → adjacent_distinct (lo_entries (foldl log_step g events)).
Proof.
  revert g. induction events as [|e events IH]; intros g Hg; [done|]. cbn [foldl]. apply IH.
  destruct e as [s|l|]; [done..|]. cbn [log_step]. destruct (decide _) as [|Hd]; [done|]. cbn [lo_entries].
  intros i a b Ha Hb. apply lookup_app_Some in Hb as [Hb|[Hi Hb]].
  - eapply (Hg i); [|done]. rewrite lookup_app_l in Ha; [done|]. apply lookup_lt_Some in Hb. lia.
  - apply list_lookup_singleton_Some in Hb as [Hi' <-].
    assert (last (lo_entries g) = Some a) as Hlast.
    { rewrite last_lookup. rewrite lookup_app_l in Ha by lia. by replace (pred (length (lo_entries g))) with i by lia. }
    rewrite Hlast in Hd. simpl in *. congruence.
Qed.

(** C23. The recorder keeps a bounded log. Whatever specs that survive their own
    JSON are delivered (an empty slice that decodes to none does not, and floods
    the history: [empty_slice_floods]), whatever landings are stashed and
    reconciliations run, in any order, on a template that starts without a
    history or a stash, its annotation decodes to the last five entries of the
    log of all of them, numbered from one: one entry for each recorded change of
    the spec, in order, never two in a row with the same spec, each with the
    landing that waited when it was recorded, and no stash on two entries. A
    reconciliation that follows another finds nothing to record. *)
Theorem history_refines_log t0 events :
  codec_keeps → P (tm_Spec t0) → history t0 = [] → waiting t0 = None → Forall admissible events →
  let t := foldl step t0 events in
  let g := foldl log_step {| lo_entries := []; lo_waiting := None; lo_spec := tm_Spec t0 |} events in
  tm_Spec t = lo_spec g ∧ history t = window (lo_entries g) ∧ waiting t = lo_waiting g
  ∧ adjacent_distinct (lo_entries g) ∧ omap snd (lo_entries g) `sublist_of` landings events
  ∧ (length (history t) ≤ MaxTemplateRevisions)%nat
  ∧ tv_Rev <$> history t = (λ i, Z.of_nat i + 1) <$> seq 0 (length (history t))
  ∧ record_revision (step t RecordNow) = Nothing.
Proof.
  intros Hc HP Hh Hw Hev t g.
  assert (refines t g) as Hr.
  { unfold t, g. assert (refines t0 {| lo_entries := []; lo_waiting := None; lo_spec := tm_Spec t0 |}) as H0
      by (split_and!; try done; by constructor).
    revert H0 Hev. generalize {| lo_entries := []; lo_waiting := None; lo_spec := tm_Spec t0 |}. generalize t0.
    clear -Hc. induction events as [|e events IH]; intros t0 g0 H0 Hev; [done|]. inversion Hev; subst.
    apply IH; [by apply step_refines|done]. }
  pose proof (step_refines t g RecordNow Hc I Hr) as (Hs'&Hh'&_).
  destruct Hr as (Hs&Hhist&Hwait&_). split_and!; [done..|by apply log_distinct| | | |].
  - etransitivity; [|apply (log_landings {| lo_entries := []; lo_waiting := None; lo_spec := tm_Spec t0 |} events)].
    by apply sublist_inserts_r.
  - rewrite Hhist, window_length. lia.
  - rewrite Hhist. unfold window. rewrite length_imap. apply list_eq. intros i.
    rewrite !list_lookup_fmap, list_lookup_imap. set (l := drop _ _).
    destruct (l !! i) as [e|] eqn:He.
    + apply lookup_lt_Some in He. by rewrite lookup_seq_lt.
    + apply lookup_ge_None in He. by rewrite lookup_seq_ge.
  - unfold record_revision. fold (history (step t RecordNow)). rewrite Hh', window_last, Hs'.
    rewrite decide_True; [done|]. simpl. destruct (decide _) as [Hd|_]; [done|].
    simpl. by rewrite last_snoc.
Qed.
End log.

(** ** A codec to run it on *)

Definition enc_landing (l : TemplateRevisionLanding) : string := enc_fields [ld_Sha l; ld_Pusher l; ld_At l].
Definition dec_landing (s : string) : option TemplateRevisionLanding :=
  match dec_fields s with
  | Some [a; b; c] => Some {| ld_Sha := a; ld_Pusher := b; ld_At := c |}
  | _ => None
  end.

#[local] Arguments enc_landing : simpl never.
#[local] Arguments dec_landing : simpl never.

Lemma dec_enc_landing l : dec_landing (enc_landing l) = Some l.
Proof. unfold dec_landing, enc_landing. rewrite dec_enc_fields by done. by destruct l. Qed.

Section text.
Context {Spec : Type} (enc : Spec → string) (dec : string → Spec).

Definition enc_revision (r : TemplateRevision Spec) : string :=
  enc_fields [pretty (tv_Rev r); tv_Description r; enc (tv_Spec r);
              match tv_Landing r with Some l => "+" +:+ enc_landing l | None => "" end].

Definition dec_revision (s : string) : option (TemplateRevision Spec) :=
  match dec_fields s with
  | Some [n; d; sp; l] =>
      n ← Atoi n;
      l ← match l with "" => Some None | String _ t => Some <$> dec_landing t end;
      Some {| tv_Rev := n; tv_Description := d; tv_Spec := dec sp; tv_Landing := l |}
  | _ => None
  end.

Definition text_codec : LandingCodec Spec := {|
  lc_marshal_revs l := Some (enc_fields ("h" :: (enc_revision <$> l)));
  lc_unmarshal_revs s := l ← dec_fields s; mapM dec_revision (tail l);
  lc_marshal := enc_landing;
  lc_unmarshal := dec_landing;
|}.

Lemma dec_enc_revision r : 0 < tv_Rev r ≤ max_int64 → dec (enc (tv_Spec r)) = tv_Spec r →
  dec_revision (enc_revision r) = Some r.
Proof.
  intros Hr Hs. unfold dec_revision, enc_revision. rewrite dec_enc_fields by done. rewrite Atoi_pretty by lia. simpl.
  rewrite Hs. destruct r as [n d s [l|]]; simpl; [by rewrite app_str_nil_l, dec_enc_landing|done].
Qed.

Lemma text_codec_keeps : codec_keeps (HC := text_codec) (λ s, dec (enc s) = s) (λ _, True).
Proof.
  split.
  - intros l Hl. eexists. split; [done|]. split.
    + unfold enc_fields. simpl. destruct (enc_revision <$> l); done.
    + simpl. rewrite dec_enc_fields by done. simpl. apply mapM_Some, Forall2_fmap_l, Forall_Forall2_diag.
      eapply Forall_impl; [exact Hl|]. intros r (Hn&_&Hs&_). by apply dec_enc_revision.
  - intros l _. simpl. split; [|apply dec_enc_landing]. unfold enc_landing, enc_fields. cbn [fmap list_fmap join].
    by destruct (hex (ld_Sha l)).
Qed.
End text.

Definition template_of {Spec} (s : Spec) : TemplateObject Spec :=
  {| tm_Meta := plain_meta "pr-review"; tm_Annotations := ∅; tm_Spec := s |}.

Definition sample_landing : TemplateRevisionLanding := {| ld_Sha := "abc"; ld_Pusher := "ann"; ld_At := "" |}.

Definition sample_events : list (Event (Spec := string)) :=
  [RecordNow; Land sample_landing; Deliver "b"; RecordNow; RecordNow; Deliver "c"; RecordNow; Deliver "d"; RecordNow;
   Deliver "e"; RecordNow; Deliver "f"; RecordNow].

Lemma history_refines_log_witness :
  let t := foldl (step (HC := text_codec id id)) (template_of "a") sample_events in
  tv_Spec <$> history (HC := text_codec id id) t = ["b"; "c"; "d"; "e"; "f"]
  ∧ tv_Landing <$> head (history (HC := text_codec id id) t) = Some (Some sample_landing)
  ∧ record_revision (H := text_codec id id) (step (HC := text_codec id id) t RecordNow) = Nothing.
Proof.
  split_and!; [vm_compute; reflexivity..|].
  eapply (history_refines_log (HC := text_codec id id) (λ s, id (id s) = s) (λ _, True) (template_of "a") sample_events
    (text_codec_keeps id id)); [done..|]. by repeat constructor.
Defined.

(** ** Limits *)

(** A spec with an explicit empty list decodes to one without it, so the
    recorder never finds its head equal: it records the same spec until the
    window holds nothing else. *)
Definition slice_codec : LandingCodec (option (list string)) :=
  text_codec (λ s, match s with Some ((_ :: _) as l) => enc_fields l | _ => "" end)
             (λ t, if decide (t = "") then None else dec_fields t).

Lemma empty_slice_floods :
  let t0 := set_template_spec (Some []) (step (HC := slice_codec) (template_of (Some ["a"])) RecordNow) in
  tv_Spec <$> history (HC := slice_codec) t0 = [Some ["a"]]
  ∧ tv_Spec <$> history (HC := slice_codec) (Nat.iter 5 (λ t, step (HC := slice_codec) t RecordNow) t0)
    = [None; None; None; None; None].
Proof. vm_compute. done. Qed.

(** A landing waits for whatever is delivered next, its own or not. *)
Lemma landing_rides_any_delivery :
  let t := foldl (step (HC := text_codec id id)) (template_of "a")
             [RecordNow; Land sample_landing; RecordNow; Deliver "unrelated"; RecordNow] in
  (λ r, (tv_Spec r, tv_Landing r)) <$> history (HC := text_codec id id) t
  = [("a", None); ("unrelated", Some sample_landing)].
Proof. vm_compute. done. Qed.
