(* ===== verification/FleetJanitor.v ===== *)
(** * The fleet's janitor ([internal/controller/janitor.go])

    The controller's periodic pass: the reaper, the collection of old attempts,
    the Jobs that outlived their attempt's recorded edge, and the finished
    runner pods whose Job is gone. A failed leg does not stop the next. *)

From S2P Require Import Prelude GoTime Api ReviewReady Ledger Kube AttemptStore ReviewClaim Janitor LedgerFrame.

Record Pod := { pd_Name : string; pd_Namespace : string; pd_Labels : gmap string string; pd_Phase : string }.

(** What the two legs ask of the API server beyond the attempts. *)
Class FleetClient (W : Type) := {
  fl_pods : string → Selector → W → result KErr (list Pod) * W;
  fl_job : Key → W → result KErr unit * W;
  fl_delete_pod : Key → W → result KErr unit * W;
  (** With foreground propagation. *)
  fl_delete_job : Key → W → result KErr unit * W;
}.

(** ** One leg: every item on its own, the first error kept *)

Inductive Outcome := Skipped | Unread (e : KErr) | Deleted | Undeleted (e : KErr).

Definition deleted_of (o : Outcome) : Z := match o with Deleted => 1 | _ => 0 end.
Definition error_of (o : Outcome) : option KErr := match o with Unread e | Undeleted e => Some e | _ => None end.
Definition first_error (o o' : option KErr) : option KErr := match o with Some _ => o | None => o' end.

Section leg.
Context {W A : Type} (f : A → W → Outcome * W).

Fixpoint run_leg (items : list A) (deleted : Z) (firstErr : option KErr) (w : W) : Z * option KErr * W :=
  match items with
  | [] => (deleted, firstErr, w)
  | a :: items =>
      let '(o, w) := f a w in
      run_leg items (deleted + deleted_of o) (first_error firstErr (error_of o)) w
  end.
End leg.

Section janitor.
Context {W : Type} `{KubeClient W} `{RetryOnConflict} `{FleetClient W}.
Context (Namespace : string).

Definition delete_outcome (r : result KErr unit) : Outcome :=
  match r with Ok _ => Deleted | Err e => if IsNotFound e then Deleted else Undeleted e end.

(** *** Finished pods without a Job *)

Definition PodSucceeded : string := "Succeeded".
Definition PodFailed : string := "Failed".

Definition runner_pods : Selector := has_label "app.kubernetes.io/component" "attempt-runner".

Definition pod_finished (p : Pod) : bool := bool_decide (pd_Phase p = PodSucceeded) || bool_decide (pd_Phase p = PodFailed).

(** The label of today's Jobs, or that of older ones. *)
Definition pod_job (p : Pod) : string :=
  let name := default "" (pd_Labels p !! "batch.kubernetes.io/job-name") in
  if decide (name = "") then default "" (pd_Labels p !! "job-name") else name.

Definition orphan_step (p : Pod) (w : W) : Outcome * W :=
  if negb (pod_finished p) then (Skipped, w)
  else if decide (pod_job p = "") then (Skipped, w)
  else match fl_job (Namespace, pod_job p) w with
       | (Ok _, w) => (Skipped, w)
       | (Err e, w) =>
           if IsNotFound e then
             let '(r, w) := fl_delete_pod (pd_Namespace p, pd_Name p) w in (delete_outcome r, w)
           else (Unread e, w)
       end.

Definition deleteOrphanedRunnerPods (w : W) : Z * option Error * W :=
  match fl_pods Namespace runner_pods w with
  | (Err e, w) => (0, Some (EWrap "list runner pods" (EKube e)), w)
  | (Ok items, w) => let '(n, e, w) := run_leg orphan_step items 0 None w in (n, EKube <$> e, w)
  end.

(** *** Jobs past their attempt *)

Definition edge_settled (a : Attempt) : bool :=
  let phase := st_Phase (at_Status a) in
  bool_decide (phase = AttemptPhaseValidated) || bool_decide (phase = AttemptPhaseSuperseded)
  || bool_decide (phase = AttemptPhaseFailed).

Definition edge_of (a : Attempt) : string :=
  match st_Review (at_Status a) with Some rv => rv_DispatchedJob rv | None => "" end.

Definition stranded_step (a : Attempt) (w : W) : Outcome * W :=
  if negb (edge_settled a) then (Skipped, w)
  else if decide (edge_of a = "") then (Skipped, w)
  else match fl_job (Namespace, edge_of a) w with
       | (Err e, w) => (if IsNotFound e then Skipped else Unread e, w)
       | (Ok _, w) => let '(r, w) := fl_delete_job (Namespace, edge_of a) w in (delete_outcome r, w)
       end.

Definition deleteStrandedDispatchedJobs (w : W) : Z * option Error * W :=
  match kc_list Namespace (λ _, true) w with
  | (Err e, w) => (0, Some (EWrap "list attempts for job-edge reconcile" (EKube e)), w)
  | (Ok items, w) => let '(n, e, w) := run_leg stranded_step items 0 None w in (n, EKube <$> e, w)
  end.

(** *** The pass *)

Definition DefaultJanitorEvery : Z := 30 * Minute.
Definition reap_after (ReapAfter : Z) : Z := if ReapAfter <=? 0 then 7 * 24 * Hour else ReapAfter.
Definition retention_of (Retention : Z) : Z := if Retention <=? 0 then 720 * Hour else Retention.
Definition janitor_every (Every : Z) : Z := if Every <=? 0 then DefaultJanitorEvery else Every.

Definition janitor_pass (ReapAfter Retention : Z) (w : W) : W :=
  let '(_, w) := ReapStuckAttempts Namespace (reap_after ReapAfter) w in
  let '(_, _, w) := GCAttempts Namespace (retention_of Retention) w in
  let '(_, _, w) := deleteStrandedDispatchedJobs w in
  let '(_, _, w) := deleteOrphanedRunnerPods w in
  w.

(** [Start]: one pass, then one for each tick. *)
Definition janitor_ticks (ReapAfter Retention : Z) (ticks : nat) (w : W) : W :=
  Nat.iter ticks (janitor_pass ReapAfter Retention) (janitor_pass ReapAfter Retention w).
End janitor.

(** ** What a pass asks for *)

(** The listings, the reads of a Job and the deletions, with their answers; the
    listing of the attempts with the time at which it is acted upon. *)
Inductive FleetCall :=
| ListAttempts (now : Z) (r : result KErr (list Attempt))
| DeleteAttempt (k : Key)
| ReadJob (k : Key) (r : result KErr unit)
| DeleteJob (k : Key)
| ListPods (r : result KErr (list Pod))
| DeletePod (k : Key).

(** The calls made so far, in order; reads and patches of single attempts are
    not among them. *)
Class FleetLaws (W : Type) `{KubeClient W} `{FleetClient W} := {
  fl_log : W → list FleetCall;
  log_list ns w r w' : kc_list ns (λ _, true) w = (r, w') → fl_log w' = fl_log w ++ [ListAttempts (kc_now w') r];
  log_delete k w r w' : kc_delete k w = (r, w') → fl_log w' = fl_log w ++ [DeleteAttempt k];
  log_patches l : PatchFrame (λ w, fl_log w = l);
  log_job k w r w' : fl_job k w = (r, w') → fl_log w' = fl_log w ++ [ReadJob k r];
  log_delete_job k w r w' : fl_delete_job k w = (r, w') → fl_log w' = fl_log w ++ [DeleteJob k];
  log_pods ns sel w r w' : fl_pods ns sel w = (r, w') →
    fl_log w' = fl_log w ++ [ListPods r]
    ∧ ∀ l, r = Ok l → ∀ p, p ∈ l → pd_Namespace p = ns ∧ sel (pd_Labels p) = true;
  log_delete_pod k w r w' : fl_delete_pod k w = (r, w') → fl_log w' = fl_log w ++ [DeletePod k];
}.

(** *** The four legs, as the calls they make on what they were told *)

(** An attempt that retention collects, at the time [now]: statusless or ended,
    stamped, older than the retention, or than a day at most if it is statusless,
    and without a live claim. *)
Definition collected (retention now : Z) (a : Attempt) : Prop :=
  st_Phase (at_Status a) ∈ [""; AttemptPhaseValidated; AttemptPhaseSuperseded; AttemptPhaseFailed]
  ∧ om_CreationTimestamp (at_Meta a) ≠ 0
  ∧ om_CreationTimestamp (at_Meta a) ≤ now - (if decide (st_Phase (at_Status a) = "") then Z.min (24 * Hour) retention else retention)
  ∧ live_claim (at_Status a) = false.
#[export] Instance collected_dec retention now a : Decision (collected retention now a) := ltac:(unfold collected; apply _).

Definition collection (retention now : Z) (r : result KErr (list Attempt)) : list FleetCall :=
  match r with Ok items => DeleteAttempt ∘ key_of <$> filter (collected retention now) items | Err _ => [] end.

Definition ended (a : Attempt) : Prop :=
  st_Phase (at_Status a) ∈ [AttemptPhaseValidated; AttemptPhaseSuperseded; AttemptPhaseFailed].
(** The Job an attempt recorded as dispatched. *)
Definition records_job (a : Attempt) (job : string) : Prop :=
  job ≠ "" ∧ ∃ rv, st_Review (at_Status a) = Some rv ∧ rv_DispatchedJob rv = job.

(** The Job of an attempt that ended is read, and deleted when it is there. *)
Inductive job_leg (ns : string) : list Attempt → list FleetCall → Prop :=
| jobs_end : job_leg ns [] []
| jobs_skip a items calls : (¬ ended a ∨ ∀ job, ¬ records_job a job) → job_leg ns items calls → job_leg ns (a :: items) calls
| jobs_gone a job e items calls : ended a → records_job a job → job_leg ns items calls →
    job_leg ns (a :: items) (ReadJob (ns, job) (Err e) :: calls)
| jobs_delete a job items calls : ended a → records_job a job → job_leg ns items calls →
    job_leg ns (a :: items) (ReadJob (ns, job) (Ok tt) :: DeleteJob (ns, job) :: calls).

Definition finished (p : Pod) : Prop := pd_Phase p = "Succeeded" ∨ pd_Phase p = "Failed".
(** The Job of a pod, by today's label or else by that of older clusters. *)
Definition of_job (p : Pod) (job : string) : Prop :=
  job ≠ "" ∧ (pd_Labels p !! "batch.kubernetes.io/job-name" = Some job
    ∨ default "" (pd_Labels p !! "batch.kubernetes.io/job-name") = "" ∧ pd_Labels p !! "job-name" = Some job).

(** The Job of a finished pod is read, and the pod deleted when there is none. *)
Inductive pod_leg (ns : string) : list Pod → list FleetCall → Prop :=
| pods_end : pod_leg ns [] []
| pods_skip p items calls : (¬ finished p ∨ ∀ job, ¬ of_job p job) → pod_leg ns items calls → pod_leg ns (p :: items) calls
| pods_kept p job r items calls : finished p → of_job p job → r ≠ Err NotFound → pod_leg ns items calls →
    pod_leg ns (p :: items) (ReadJob (ns, job) r :: calls)
| pods_delete p job items calls : finished p → of_job p job → pod_leg ns items calls →
    pod_leg ns (p :: items) (ReadJob (ns, job) (Err NotFound) :: DeletePod (pd_Namespace p, pd_Name p) :: calls).

Section laws.
Context {W : Type} `{HK : KubeClient W} `{HR : RetryOnConflict} `{!RetryLaws} `{HF : FleetClient W} `{HL : !FleetLaws W}.
Context (ns : string).

Lemma not_found e : IsNotFound e = true ↔ e = NotFound.
Proof. by destruct e. Qed.

Lemma collectable_collected olderThan now a : 0 < olderThan →
  collectable (now - olderThan) (now - gc_statusless_bound olderThan) a = true ↔ collected olderThan now a.
Proof.
  intros Hpos. rewrite collectable_spec. unfold collected.
  assert (gc_statusless_bound olderThan = Z.min (24 * Hour) olderThan) as ->.
  { unfold gc_statusless_bound, gc_day. destruct (24 * Hour <? olderThan) eqn:E1; destruct (olderThan <=? 0) eqn:E2; cbn [orb]; lia. }
  by case_decide.
Qed.

Lemma edge_settled_spec a : edge_settled a = true ↔ ended a.
Proof. unfold edge_settled, ended. rewrite !orb_true_iff, !bool_decide_eq_true. set_solver. Qed.

Lemma edge_of_spec a : match decide (edge_of a = "") with
  | left _ => ∀ job, ¬ records_job a job | right _ => records_job a (edge_of a) end.
Proof.
  unfold edge_of, records_job. destruct (st_Review (at_Status a)) as [rv|]; [case_decide as He|].
  - intros job (Hj&rv'&[= <-]&Hr). congruence.
  - split; [done|]. by exists rv.
  - by intros job (_&rv'&?&_).
Qed.

Lemma pod_finished_spec p : pod_finished p = true ↔ finished p.
Proof. unfold pod_finished, finished. by rewrite orb_true_iff, !bool_decide_eq_true. Qed.

Lemma pod_job_spec p : match decide (pod_job p = "") with
  | left _ => ∀ job, ¬ of_job p job | right _ => of_job p (pod_job p) end.
Proof.
  destruct (decide (pod_job p = "")) as [He|He]; unfold pod_job, of_job in *;
    destruct (pd_Labels p !! "batch.kubernetes.io/job-name") as [j|], (pd_Labels p !! "job-name") as [j'|]; simpl in *;
    try (destruct (decide (j = ""))); naive_solver.
Qed.

(** A leg's calls, from its step's. *)
Lemma run_leg_log {A} (f : A → W → Outcome * W) (leg : list A → list FleetCall → Prop) :
  leg [] [] →
  (∀ a (w : W) o w', f a w = (o, w') →
     ∃ calls, fl_log w' = fl_log w ++ calls ∧ ∀ items rest, leg items rest → leg (a :: items) (calls ++ rest)) →
  ∀ items n e (w : W) n' e' w', run_leg f items n e w = (n', e', w') →
  ∃ calls, leg items calls ∧ fl_log w' = fl_log w ++ calls.
Proof.
  intros Hnil Hf. induction items as [|a items IH]; intros n e w n' e' w'; cbn [run_leg].
  { intros [= <- <- <-]. exists []. by rewrite app_nil_r. }
  destruct (f a w) as [o w1] eqn:Ho. apply Hf in Ho as (calls&Hlog&Hstep).
  intros (rest&Hrest&Hl)%IH. exists (calls ++ rest). split; [by apply Hstep|].
  by rewrite Hl, Hlog, (assoc_L (++)).
Qed.

Lemma stranded_step_log a (w : W) o w' : stranded_step ns a w = (o, w') →
  ∃ calls, fl_log w' = fl_log w ++ calls ∧ ∀ items rest, job_leg ns items rest → job_leg ns (a :: items) (calls ++ rest).
Proof.
  unfold stranded_step. pose proof (edge_of_spec a) as Hedge. destruct (edge_settled a) eqn:Hp; simpl.
  2: { intros [= <- <-]. exists []. rewrite app_nil_r. split; [done|]. intros. apply jobs_skip; [left|done].
       rewrite <- edge_settled_spec. congruence. }
  apply edge_settled_spec in Hp. case_decide as Hj.
  { intros [= <- <-]. exists []. rewrite app_nil_r. split; [done|]. intros. apply jobs_skip; [by right|done]. }
  destruct (fl_job _ w) as [r1 w1] eqn:Hg. apply log_job in Hg. destruct r1 as [[]|e].
  - destruct (fl_delete_job _ w1) as [r2 w2] eqn:Hd. apply log_delete_job in Hd. intros [= <- <-].
    eexists. split; [rewrite Hd, Hg, <- (assoc_L (++)); reflexivity|]. intros. by apply jobs_delete.
  - intros [= <- <-]. exists [ReadJob (ns, edge_of a) (Err e)]. split; [done|]. intros. by apply jobs_gone.
Qed.

Lemma orphan_step_log p (w : W) o w' : orphan_step ns p w = (o, w') →
  ∃ calls, fl_log w' = fl_log w ++ calls ∧ ∀ items rest, pod_leg ns items rest → pod_leg ns (p :: items) (calls ++ rest).
Proof.
  unfold orphan_step. pose proof (pod_job_spec p) as Hedge. destruct (pod_finished p) eqn:Hp; simpl.
  2: { intros [= <- <-]. exists []. rewrite app_nil_r. split; [done|]. intros. apply pods_skip; [left|done].
       rewrite <- pod_finished_spec. congruence. }
  apply pod_finished_spec in Hp. case_decide as Hj.
  { intros [= <- <-]. exists []. rewrite app_nil_r. split; [done|]. intros. apply pods_skip; [by right|done]. }
  destruct (fl_job _ w) as [r1 w1] eqn:Hg. apply log_job in Hg. destruct r1 as [[]|e].
  { intros [= <- <-]. eexists. split; [exact Hg|]. intros. by apply pods_kept. }
  destruct (IsNotFound e) eqn:Hn.
  - apply not_found in Hn as ->. destruct (fl_delete_pod _ w1) as [r2 w2] eqn:Hd. apply log_delete_pod in Hd. intros [= <- <-].
    eexists. split; [rewrite Hd, Hg, <- (assoc_L (++)); reflexivity|]. intros. by apply pods_delete.
  - intros [= <- <-]. eexists. split; [exact Hg|]. intros. apply pods_kept; [done..| |done]. by intros [= ->].
Qed.

Lemma stranded_leg (w : W) n e w' : deleteStrandedDispatchedJobs ns w = (n, e, w') →
  ∃ t r calls, fl_log w' = fl_log w ++ ListAttempts t r :: calls
    ∧ match r with Ok items => job_leg ns items calls | Err _ => calls = [] end.
Proof.
  unfold deleteStrandedDispatchedJobs. destruct (kc_list ns _ w) as [r w1] eqn:Hl. apply log_list in Hl. destruct r as [items|e1].
  2: { intros [= <- <- <-]. by eexists _, _, []. }
  destruct (run_leg _ items 0 None w1) as [[n1 e1] w2] eqn:Hr. intros [= <- <- <-].
  apply (run_leg_log _ _ (jobs_end ns) stranded_step_log) in Hr as (calls&Hc&Hlog).
  eexists _, (Ok items), calls. split; [|exact Hc]. rewrite Hlog, Hl, <- (assoc_L (++)). reflexivity.
Qed.

Lemma orphan_leg (w : W) n e w' : deleteOrphanedRunnerPods ns w = (n, e, w') →
  ∃ r calls, fl_log w' = fl_log w ++ ListPods r :: calls
    ∧ match r with
      | Ok items => pod_leg ns items calls ∧ Forall (λ p, pd_Namespace p = ns
          ∧ pd_Labels p !! "app.kubernetes.io/component" = Some "attempt-runner") items
      | Err _ => calls = [] end.
Proof.
  unfold deleteOrphanedRunnerPods. destruct (fl_pods ns _ w) as [r w1] eqn:Hl. apply log_pods in Hl as [Hl Hin]. destruct r as [items|e1].
  2: { intros [= <- <- <-]. by eexists _, []. }
  destruct (run_leg _ items 0 None w1) as [[n1 e1] w2] eqn:Hr. intros [= <- <- <-].
  apply (run_leg_log _ _ (pods_end ns) orphan_step_log) in Hr as (calls&Hc&Hlog).
  exists (Ok items), calls. split; [rewrite Hlog, Hl, <- (assoc_L (++)); reflexivity|]. split; [exact Hc|].
  apply Forall_forall. intros p Hp. destruct (Hin _ eq_refl p Hp) as [? Hs]. split; [done|].
  unfold runner_pods, has_label in Hs. by apply bool_decide_eq_true in Hs.
Qed.

Lemma reap_log olderThan (w : W) r w' : ReapStuckAttempts ns olderThan w = (r, w') →
  ∃ t l, fl_log w' = fl_log w ++ [ListAttempts t l].
Proof.
  unfold ReapStuckAttempts. destruct (kc_list ns _ w) as [[items|e] w1] eqn:Hl; apply log_list in Hl; [|by intros [= <- <-]; eauto].
  destruct (reap_loop ns _ items 0 w1) as [n w2] eqn:Hr. intros [= <- <-].
  eexists _, _. rewrite <- Hl. clear Hl. revert Hr.
  generalize (kc_now w1 - olderThan), 0. revert w1.
  induction items as [|a items IH]; intros w1 cut n0; cbn [reap_loop]; [by intros [= <- <-]|].
  destruct (stuck _ a); [|apply IH]. destruct (reap_one ns a w1) as [r1 w3] eqn:Hr. intros Hrest.
  assert (fl_log w3 = fl_log w1) as <-; [|by destruct r1; eapply IH in Hrest].
  unfold reap_one in Hr. cbv zeta in Hr. apply (keep_patch_status _ (log_patches (fl_log w1))) in Hr; [done|].
  destruct (live_claim _); [|done]. destruct (ReleaseClaim _ _ _ w1) as [r2 w4] eqn:Hrel.
  by apply (keep_ReleaseClaim _ (log_patches (fl_log w1))) in Hrel.
Qed.

Lemma gc_log olderThan (w : W) n e w' : 0 < olderThan → GCAttempts ns olderThan w = (n, e, w') →
  ∃ t r, fl_log w' = fl_log w ++ ListAttempts t r :: collection olderThan t r.
Proof.
  intros Hpos. unfold GCAttempts. destruct (kc_list ns _ w) as [[items|e1] w1] eqn:Hl; apply log_list in Hl.
  2: { intros [= <- <- <-]. exists (kc_now w1), (Err e1). exact Hl. }
  destruct (gc_loop _ _ items 0 None w1) as [[n1 e1] w2] eqn:Hr. intros [= <- <- <-].
  exists (kc_now w1), (Ok items). rewrite cons_middle, (assoc_L (++)), <- Hl. clear Hl. simpl. revert Hr.
  generalize (kc_now w1) as now, 0, (@None KErr). revert w1.
  induction items as [|a items IH]; intros w1 now n0 e0; cbn [gc_loop]; [intros [= <- <- <-]; by rewrite app_nil_r|].
  pose proof (collectable_collected olderThan now a Hpos) as Hiff. rewrite filter_cons.
  destruct (collectable _ _ a) eqn:Hc.
  2: { rewrite decide_False by (intros Hx%Hiff; congruence). apply IH. }
  rewrite decide_True by by apply Hiff. destruct (kc_delete _ w1) as [r w3] eqn:Hd. apply log_delete in Hd.
  intros Hrest. assert (fl_log w2 = fl_log w3 ++ (DeleteAttempt ∘ key_of <$> filter (collected olderThan now) items)) as ->.
  { destruct r; [by eapply IH|]. by destruct (IsNotFound _); eapply IH. }
  rewrite Hd, <- (assoc_L (++)). reflexivity.
Qed.

(** C24. A pass of the janitor spares what lives and misses nothing it could
    judge. Whatever the listings and the reads answer and whichever leg fails,
    its listings, reads of Jobs and deletions are, in order: the reaper's listing,
    without a deletion; the collection's, with the deletion of exactly the
    attempts it showed statusless or ended, stamped, past the retention (a day at
    most for a statusless one) and without a live claim; the listing for the
    Jobs, and for each attempt of it that ended and recorded a Job the read of
    that Job, with its deletion when the read found it; and the listing of the
    runner pods, all of the namespace and so labelled, and for each finished one
    that names its Job the read of that Job, with the pod's deletion only when
    there was none. There is no other deletion. *)
Theorem janitor_pass_justified reap retention (w : W) :
  let keep := if decide (retention ≤ 0) then 720 * Hour else retention in
  ∃ t0 r0 t1 r1 t2 r2 r3 jobs pods,
    fl_log (janitor_pass ns reap retention w) = fl_log w
      ++ [ListAttempts t0 r0] ++ ListAttempts t1 r1 :: collection keep t1 r1 ++ ListAttempts t2 r2 :: jobs ++ ListPods r3 :: pods
    ∧ match r2 with Ok items => job_leg ns items jobs | Err _ => jobs = [] end
    ∧ match r3 with
      | Ok items => pod_leg ns items pods ∧ Forall (λ p, pd_Namespace p = ns
          ∧ pd_Labels p !! "app.kubernetes.io/component" = Some "attempt-runner") items
      | Err _ => pods = [] end.
Proof.
  cbv zeta. assert (retention_of retention = if decide (retention ≤ 0) then 720 * Hour else retention) as Hret.
  { unfold retention_of. case_decide; destruct (Z.leb_spec retention 0); lia. }
  rewrite <- Hret. assert (0 < retention_of retention) as Hpos by (rewrite Hret; case_decide; unfold Hour, Minute, Second; lia).
  unfold janitor_pass.
  destruct (ReapStuckAttempts ns _ w) as [x1 w1] eqn:H1. apply reap_log in H1 as (t0&r0&H1).
  destruct (GCAttempts ns _ w1) as [[n2 e2] w2] eqn:H2. apply gc_log in H2 as (t1&r1&H2); [|done].
  destruct (deleteStrandedDispatchedJobs ns w2) as [[n3 e3] w3] eqn:H3. apply stranded_leg in H3 as (t2&r2&jobs&H3&Hj).
  destruct (deleteOrphanedRunnerPods ns w3) as [[n4 e4] w4] eqn:H4. apply orphan_leg in H4 as (r3&pods&H4&Hp).
  exists t0, r0, t1, r1, t2, r2, r3, jobs, pods. split; [|split; [exact Hj|exact Hp]].
  rewrite H4, H3, H2, H1, <- !app_assoc. simpl. by rewrite <- ?app_assoc.
Qed.
End laws.

(** ** A yard: a cluster, its runner pods and Jobs, the calls made *)

Record Yard := { yd_cluster : Cluster; yd_pods : list Pod; yd_jobs : list Key; yd_log : list FleetCall }.

Definition on_yard {A} (f : Cluster → A * Cluster) (y : Yard) : A * Yard :=
  let '(a, c) := f (yd_cluster y) in
  (a, {| yd_cluster := c; yd_pods := yd_pods y; yd_jobs := yd_jobs y; yd_log := yd_log y |}).

Definition asked (d : FleetCall) (y : Yard) : Yard :=
  {| yd_cluster := yd_cluster y; yd_pods := yd_pods y; yd_jobs := yd_jobs y; yd_log := yd_log y ++ [d] |}.

#[export] Instance yard_client : KubeClient Yard := {|
  kc_now y := cs_clock (yd_cluster y);
  kc_get k := on_yard (kc_get k);
  kc_create a := on_yard (kc_create a);
  kc_delete k y := let '(r, y) := on_yard (kc_delete k) y in (r, asked (DeleteAttempt k) y);
  kc_list ns sel y := let '(r, y) := on_yard (kc_list ns sel) y in (r, asked (ListAttempts (cs_clock (yd_cluster y)) r) y);
  kc_patch_status a s := on_yard (kc_patch_status a s);
  kc_patch_labels a ls := on_yard (kc_patch_labels a ls);
|}.

#[export] Instance yard_fleet : FleetClient Yard := {|
  fl_pods ns sel y :=
    let r := Ok (filter (λ p, pd_Namespace p = ns ∧ sel (pd_Labels p) = true) (yd_pods y)) in (r, asked (ListPods r) y);
  fl_job k y := let r := if decide (k ∈ yd_jobs y) then Ok tt else Err NotFound in (r, asked (ReadJob k r) y);
  fl_delete_pod k y := (Ok tt, asked (DeletePod k) y);
  fl_delete_job k y := (Ok tt, asked (DeleteJob k) y);
|}.

Lemma on_yard_log {A} (f : Cluster → A * Cluster) y a y' : on_yard f y = (a, y') → yd_log y' = yd_log y.
Proof. unfold on_yard. destruct (f _). by intros [= _ <-]. Qed.

#[export] Instance yard_laws : FleetLaws Yard.
Proof.
  refine {| fl_log := yd_log |}.
  - intros ns y r y'. unfold kc_list, yard_client. destruct (on_yard _ y) as [r1 y1] eqn:Hy. apply on_yard_log in Hy.
    intros [= <- <-]. simpl. by rewrite Hy.
  - intros k y r y'. unfold kc_delete, yard_client. destruct (on_yard _ y) as [r1 y1] eqn:Hy. apply on_yard_log in Hy.
    intros [= <- <-]. simpl. by rewrite Hy.
  - intros l. split; intros *; intros Hr%on_yard_log <-; exact Hr.
  - by intros k y r y' [= <- <-].
  - by intros k y r y' [= _ <-].
  - intros ns sel y r y' [= <- <-]. split; [done|]. intros l [= <-] p Hp. by apply list_elem_of_filter in Hp as [? _].
  - by intros k y r y' [= _ <-].
Defined.

Definition runner_pod (name job phase : string) : Pod :=
  {| pd_Name := name; pd_Namespace := "ns"; pd_Phase := phase;
     pd_Labels := {["app.kubernetes.io/component" := "attempt-runner"; "batch.kubernetes.io/job-name" := job]} |}.

Definition with_edge (job : string) : ReviewClaimStatus :=
  {| rv_PR := ""; rv_HeadSHA := ""; rv_Label := ""; rv_ArmedSince := None; rv_DispatchedAt := None;
     rv_DispatchedJob := job; rv_Released := true; rv_ReleaseReason := ""; rv_DeadDispatches := 0;
     rv_DispatchLostReleases := 0; rv_LastDispatchLostAt := None; rv_DismissedAt := None; rv_HoldNote := "";
     rv_HoldCause := "" |}.

(** Two finished pods, one with its Job, and a running one; a finished attempt
    with its Job, and one past its retention. *)
Definition sample_yard : Yard :=
  {| yd_cluster := sample_cluster (1000 * Hour) []
       [sample_attempt "a" "abc" ∅ (set_Phase AttemptPhaseFailed (set_Review
          (Some (with_edge "job-a")) zero_status))];
     yd_pods := [runner_pod "p1" "gone" PodSucceeded; runner_pod "p2" "job-a" PodFailed; runner_pod "p3" "gone" "Running"];
     yd_jobs := [("ns", "job-a")]; yd_log := [] |}.

(** The deletions among the calls. *)
Definition is_deletion (c : FleetCall) : bool :=
  match c with DeleteAttempt _ | DeleteJob _ | DeletePod _ => true | _ => false end.
Definition deletions (y : Yard) : list FleetCall := filter (λ c, is_deletion c = true) (fl_log y).

Lemma janitor_pass_justified_witness :
  deletions (janitor_pass "ns" 0 (2000 * Hour) sample_yard) = [DeleteJob ("ns", "job-a"); DeletePod ("ns", "p1")]
  ∧ deletions (janitor_pass "ns" 0 0 sample_yard) = [DeleteAttempt ("ns", "a"); DeletePod ("ns", "p1")]
  ∧ ∃ t r rest, fl_log (janitor_pass "ns" 0 0 sample_yard) = ListAttempts t r :: rest.
Proof.
  split; [vm_compute; reflexivity|]. split; [vm_compute; reflexivity|].
  destruct (janitor_pass_justified "ns" 0 0 sample_yard) as (t0&r0&t1&r1&t2&r2&r3&jobs&pods&Hlog&_).
  eexists t0, r0, _. exact Hlog.
Defined.
