(* ===== verification/Timeline.v ===== *)
(** * The timeline of an attempt ([internal/timeline/timeline.go])

    Events are appended blindly under numbered keys of a state store and read
    back by probing batches of keys. The store is an interface: what the writer
    and the reader ask of the Dapr client, and what it promises them. The JSON
    of an event is a parameter. *)

From S2P Require Import Prelude GoStrings GoTime.

Definition KeyPrefix : string := "timeline/".
Definition DefaultTTL : Z := 7 * 24 * Hour.
Definition GateTTL : Z := 48 * Hour.
Definition probeBatch : nat := 64.

Record TimelineSubject := { tj_Kind : string; tj_Ref : string; tj_Title : string; tj_SHA : string }.

Record TimelineEvent := {
  tn_At : Z;
  tn_Attempt : string;
  tn_Workflow : string;
  tn_Run : string;
  tn_Node : string;
  tn_Kind : string;
  tn_Subject : TimelineSubject;
  tn_Payload : string;
}.

(** ** The store *)

Class StateClient (W : Type) := {
  st_now : W → Z;
  (** Store, key, value, time to live. *)
  st_SaveStateTTL : string → string → string → Z → M W string unit;
  st_GetBulkState : string → list string → M W string (gmap string string);
}.

Class EventCodec := {
  ec_marshal : TimelineEvent → string;
  ec_unmarshal : string → option TimelineEvent;
  ec_marshal_subject : TimelineSubject → string;
  ec_unmarshal_subject : string → option TimelineSubject;
}.

(** [%06d] of a number that is not negative. *)
Fixpoint zeros (n : nat) : string := match n with O => "" | S n => String "0" (zeros n) end.
Definition pad6 (n : Z) : string := zeros (6 - String.length (pretty n)) +:+ pretty n.

(** ** The writer *)

Record DaprWriter := {
  tw_store : string;
  tw_attempt : string;
  tw_workflow : string;
  tw_run : string;
  tw_subject : TimelineSubject;
  tw_ttl : Z;
  tw_seq : Z;
  tw_prefixOverride : string;
}.

Definition NewWriter (store attempt workflow run : string) (subject : TimelineSubject) : DaprWriter :=
  {| tw_store := store; tw_attempt := attempt; tw_workflow := workflow; tw_run := run;
     tw_subject := subject; tw_ttl := DefaultTTL; tw_seq := 0; tw_prefixOverride := "" |}.

Definition gate_namespace (workflow attempt : string) (now : Z) : string :=
  if decide (attempt = "") then "gate- orphan/" +:+ workflow +:+ "/" +:+ pretty now else attempt.

Definition NewGateWriter (store workflow attempt : string) (subject : TimelineSubject) (now : Z) : DaprWriter :=
  {| tw_store := store; tw_attempt := ""; tw_workflow := workflow; tw_run := ""; tw_subject := subject;
     tw_ttl := GateTTL; tw_seq := 0; tw_prefixOverride := gate_namespace workflow attempt now +:+ "/gate" |}.

Definition next_seq (wr : DaprWriter) : DaprWriter :=
  {| tw_store := tw_store wr; tw_attempt := tw_attempt wr; tw_workflow := tw_workflow wr; tw_run := tw_run wr;
     tw_subject := tw_subject wr; tw_ttl := tw_ttl wr; tw_seq := tw_seq wr + 1;
     tw_prefixOverride := tw_prefixOverride wr |}.

(** Where a writer's events go, and one event's key. *)
Definition writer_space (wr : DaprWriter) : string :=
  if decide (tw_prefixOverride wr = "") then tw_attempt wr +:+ "/" +:+ tw_run wr else tw_prefixOverride wr.

Definition event_key (space : string) (seq : Z) : string := KeyPrefix +:+ space +:+ "/" +:+ pad6 seq.

Definition subject_key (attempt : string) : string := KeyPrefix +:+ attempt +:+ "/subject".

(** A payload: none, or what encoding it gives. *)
Definition event_of (wr : DaprWriter) (kind node payload : string) (now : Z) : TimelineEvent :=
  {| tn_At := now; tn_Attempt := tw_attempt wr; tn_Workflow := tw_workflow wr; tn_Run := tw_run wr;
     tn_Node := node; tn_Kind := kind; tn_Subject := tw_subject wr; tn_Payload := payload |}.

Section timeline.
Context {W : Type} `{StateClient W} `{EventCodec}.

Definition SaveSubject (wr : option DaprWriter) (w : W) : result string unit * W :=
  match wr with
  | None => (Ok tt, w)
  | Some wr =>
      if decide (tw_prefixOverride wr = "")
      then st_SaveStateTTL (tw_store wr) (subject_key (tw_attempt wr)) (ec_marshal_subject (tw_subject wr)) (tw_ttl wr) w
      else (Ok tt, w)
  end.

(** [Emit] of a writer that is there; the number is used up whatever follows.
    [payload] is the payload's encoding, or the error of encoding it. *)
Definition Emit (wr : DaprWriter) (kind node : string) (payload : result string string) (w : W)
    : result string unit * DaprWriter * W :=
  let wr := next_seq wr in
  match payload with
  | Err e => (Err e, wr, w)
  | Ok payload =>
      let ev := event_of wr kind node payload (st_now w) in
      let '(r, w) := st_SaveStateTTL (tw_store wr) (event_key (writer_space wr) (tw_seq wr)) (ec_marshal ev) (tw_ttl wr) w in
      (r, wr, w)
  end.

(** ** The reader *)

Record TimelineFilter := { fi_KindPrefix : string; fi_Node : string; fi_Limit : Z }.

Definition batch_keys (space : string) (base : nat) : list string :=
  (λ i, event_key space (Z.of_nat (base + i) + 1)) <$> seq 0 probeBatch.

(** The values of a batch that carry data, in the order of the keys. *)
Definition batch_hits (keys : list string) (vals : gmap string string) : list string :=
  omap (λ k, v ← vals !! k; if decide (v = "") then None else Some v) keys.

(** The walk over one keyspace: batches until one without data. [None] when the
    fuel runs out first. *)
Fixpoint probe (fuel : nat) (store space : string) (base : nat) (acc : list TimelineEvent) (w : W)
    : option (result string (list TimelineEvent) * W) :=
  match fuel with
  | O => None
  | S fuel =>
      let keys := batch_keys space base in
      match st_GetBulkState store keys w with
      | (Err e, w) => Some (Err e, w)
      | (Ok vals, w) =>
          let hits := batch_hits keys vals in
          match hits with
          | [] => Some (Ok acc, w)
          | _ => probe fuel store space (base + probeBatch) (acc ++ omap ec_unmarshal hits) w
          end
      end
  end.

Fixpoint probe_runs (fuel : nat) (store attempt : string) (runs : list string) (acc : list TimelineEvent) (w : W)
    : option (result string (list TimelineEvent) * W) :=
  match runs with
  | [] => Some (Ok acc, w)
  | run :: runs =>
      match probe fuel store (attempt +:+ "/" +:+ run) 0 acc w with
      | Some (Ok acc, w) => probe_runs fuel store attempt runs acc w
      | other => other
      end
  end.

(** *** Filtering *)

(** [sort.SliceStable] by the instant. *)
Fixpoint insert_event (ev : TimelineEvent) (l : list TimelineEvent) : list TimelineEvent :=
  match l with
  | [] => [ev]
  | x :: l => if tn_At x <? tn_At ev then x :: insert_event ev l else ev :: x :: l
  end.
Definition sort_events (l : list TimelineEvent) : list TimelineEvent := foldr insert_event [] l.

Definition event_selected (f : TimelineFilter) (ev : TimelineEvent) : bool :=
  (bool_decide (fi_KindPrefix f = "") || has_prefix (tn_Kind ev) (fi_KindPrefix f))
  && (bool_decide (fi_Node f = "") || bool_decide (tn_Node ev = fi_Node f)).

Definition applyFilter (events : list TimelineEvent) (f : TimelineFilter) : list TimelineEvent :=
  let events := sort_events events in
  if decide (fi_KindPrefix f = "" ∧ fi_Node f = "" ∧ fi_Limit f = 0) then events
  else
    let out := filter (λ ev, event_selected f ev = true) events in
    if (0 <? fi_Limit f) && (fi_Limit f <? Z.of_nat (length out))
    then drop (length out - Z.to_nat (fi_Limit f)) out else out.

Definition filtered (f : TimelineFilter) (r : option (result string (list TimelineEvent) * W))
    : option (result string (list TimelineEvent) * W) :=
  match r with
  | Some (Ok l, w) => Some (Ok (applyFilter l f), w)
  | other => other
  end.

(** [DaprReader.Attempt] and [DaprReader.GateEvents]. *)
Definition AttemptEvents (fuel : nat) (store attempt : string) (runs : list string) (f : TimelineFilter) (w : W) :=
  filtered f (probe_runs fuel store attempt runs [] w).

Definition GateEvents (fuel : nat) (store attempt : string) (f : TimelineFilter) (w : W) :=
  filtered f (probe fuel store (attempt +:+ "/gate") 0 [] w).

Definition Subjects (store : string) (attempts : list string) : M W string (gmap string TimelineSubject) := λ w,
  match attempts with
  | [] => (Ok ∅, w)
  | _ =>
      match st_GetBulkState store (subject_key <$> attempts) w with
      | (Err e, w) => (Err e, w)
      | (Ok vals, w) =>
          (Ok (foldl (λ out a, match vals !! subject_key a with
                               | Some v => if decide (v = "") then out
                                           else match ec_unmarshal_subject v with
                                                | Some s => <[a := s]> out
                                                | None => out
                                                end
                               | None => out
                               end) ∅ attempts), w)
      end
  end.
End timeline.

(** ** What the store promises

    [st_val] is the value under a key; an absent one reads as the empty text. A
    bulk read gives the values it has, and may answer an absent key with an
    empty value; an error promises nothing of a write. A store's name is a
    component's, without a slash. *)
Class StateLaws (W : Type) `{StateClient W} := {
  st_val : W → string → string → string;
  save_law : ∀ store k v ttl w w', contains_byte store "/" = false → st_SaveStateTTL store k v ttl w = (Ok tt, w') →
    ∀ s j, st_val w' s j = if decide (s = store ∧ j = k) then v else st_val w s j;
  bulk_law : ∀ store ks w r w', contains_byte store "/" = false → st_GetBulkState store ks w = (r, w') →
    (∀ s j, st_val w' s j = st_val w s j)
    ∧ ∀ m, r = Ok m → ∀ k, k ∈ ks → default "" (m !! k) = st_val w store k;
}.
