(* ===== verification/TimelineProps.v ===== *)
(** * Properties of the timeline

    Numbered keys are distinct; a walk reads every event up to the first batch
    without data, and ends; what a writer appended to a fresh keyspace is read
    back whole and in order of time. *)

From S2P Require Import Prelude GoStrings GoTime Sha256 Timeline.

(** ** Keys *)

Lemma digits_zeros n s : digits_val 0 (zeros n +:+ s) = digits_val 0 s.
Proof. induction n as [|n IH]; [by rewrite app_str_nil_l|]. cbn [zeros]. rewrite app_str_cons. exact IH. Qed.

Lemma pad6_val n : 0 ≤ n → digits_val 0 (pad6 n) = Some n.
Proof.
  intros Hn. unfold pad6. rewrite digits_zeros, pretty_Z_nonneg by done.
  rewrite digits_val_pretty_N. f_equal. lia.
Qed.

Lemma event_key_inj space i j : 0 ≤ i → 0 ≤ j → event_key space i = event_key space j → i = j.
Proof.
  unfold event_key. intros Hi Hj Hk. do 3 apply app_str_inj in Hk.
  apply (f_equal (digits_val 0)) in Hk. rewrite !pad6_val in Hk by done. congruence.
Qed.

Lemma pad6_free n c : 0 ≤ n → is_digit c = false → contains_byte (pad6 n) c = false.
Proof.
  intros Hn Hc. unfold pad6. rewrite contains_byte_app, pretty_no_byte, orb_false_r by done.
  induction (6 - _)%nat as [|k IH]; [done|]. cbn [zeros]. rewrite contains_byte_cons, IH, orb_false_r.
  apply bool_decide_eq_false. by intros <-.
Qed.

(** ** The walk *)

Lemma probeBatch_pos : (0 < probeBatch)%nat.
Proof. unfold probeBatch. lia. Qed.

#[local] Opaque probeBatch.

Section walk.
Context {W : Type} `{HS : StateClient W} `{HL : !StateLaws W} `{HE : EventCodec}.
Context (store space : string).

Definition val_at (w : W) (i : nat) : string := st_val w store (event_key space (Z.of_nat i + 1)).

(** The values with data among those at some positions. *)
Definition data_at (w : W) (l : list nat) : list string :=
  omap (λ i, if decide (val_at w i = "") then None else Some (val_at w i)) l.

Definition batch_data (w : W) (b : nat) : list string := data_at w (seq (b * probeBatch) probeBatch).

Lemma data_at_app w l l' : data_at w (l ++ l') = data_at w l ++ data_at w l'.
Proof. apply omap_app. Qed.

Lemma batch_hits_data w b ks vals :
  ks = batch_keys space (b * probeBatch) →
  (∀ k, k ∈ ks → default "" (vals !! k) = st_val w store k) →
  batch_hits ks vals = batch_data w b.
Proof.
  intros -> Hv. unfold batch_hits, batch_data, data_at, batch_keys.
  replace (seq (b * probeBatch) probeBatch) with (Nat.add (b * probeBatch) <$> seq 0 probeBatch)
    by (by rewrite fmap_add_seq, Nat.add_0_r).
  unfold batch_keys in Hv. revert Hv. generalize (seq 0 probeBatch). intros l Hv.
  induction l as [|i l IH]; [done|]. cbn [fmap list_fmap omap list_omap].
  rewrite IH by (intros k Hk; apply Hv; set_solver). specialize (Hv _ (list_elem_of_here _ _)).
  unfold val_at.
  rewrite <- Hv. by destruct (vals !! _) as [v|].
Qed.

(** Two states with the same values. *)
Definition same_values (w w' : W) : Prop := ∀ s j, st_val w' s j = st_val w s j.

Lemma data_at_same w w' l : same_values w w' → data_at w' l = data_at w l.
Proof. intros He. unfold data_at, val_at. induction l as [|i l IH]; [done|]. csimpl. by rewrite IH, !He. Qed.

Lemma batch_seq b k : seq (b * probeBatch) (S k * probeBatch)
  = seq (b * probeBatch) probeBatch ++ seq (S b * probeBatch) (k * probeBatch).
Proof.
  rewrite (Nat.mul_succ_l k), Nat.add_comm, seq_app, (Nat.mul_succ_l b). done.
Qed.

(** A store with nothing past a number: some batch up to it has no data. *)
Lemma data_none w l : (∀ i, i ∈ l → val_at w i = "") → data_at w l = [].
Proof.
  intros Hl. induction l as [|i l IH]; [done|]. unfold data_at. csimpl.
  rewrite decide_True by (apply Hl; set_solver). apply IH. intros j Hj. apply Hl. set_solver.
Qed.

Lemma first_empty w n : (∀ i, n ≤ i → val_at w i = "")%nat →
  ∃ k, (k ≤ n)%nat ∧ batch_data w k = [] ∧ ∀ c, (c < k)%nat → batch_data w c ≠ [].
Proof.
  intros Hn. assert (batch_data w n = []) as Hb.
  { apply data_none. intros i [? _]%elem_of_seq. apply Hn. pose proof probeBatch_pos. nia. }
  clear Hn. induction n as [n IH] using lt_wf_ind.
  destruct (decide (Exists (λ c, batch_data w c = []) (seq 0 n))) as [He|Hne].
  - apply Exists_exists in He as (c&[_ Hc]%elem_of_seq&Hcb). destruct (IH c) as (k&?&?&?); [lia|done|].
    exists k. split_and!; [lia|done..].
  - exists n. split_and!; [done|done|]. intros c Hc Hcb. apply Hne, Exists_exists. exists c.
    split; [apply elem_of_seq; lia|done].
Qed.
Context (Hstore : contains_byte store "/" = false).

(** The walk over [k] batches with data and one without. *)
Lemma probe_walk k b fuel acc w :
  (∀ c, b ≤ c < b + k → batch_data w c ≠ [])%nat → batch_data w (b + k) = [] → (k < fuel)%nat →
  ∃ r w', probe fuel store space (b * probeBatch) acc w = Some (r, w') ∧ same_values w w'
    ∧ (r = Ok (acc ++ omap ec_unmarshal (data_at w (seq (b * probeBatch) (k * probeBatch)))) ∨ is_ok r = false).
Proof.
  revert b fuel acc w. induction k as [|k IH]; intros b fuel acc w Hfull Hend Hfuel;
    (destruct fuel as [|fuel]; [lia|]); cbn [probe].
  all: destruct (st_GetBulkState store _ w) as [[vals|e] w1] eqn:Hg;
    (apply bulk_law in Hg as [Hsame Hv]; [|exact Hstore]).
  2, 4: by eexists _, _; split_and!; [done|done|right].
  all: rewrite (batch_hits_data w b _ vals eq_refl (Hv _ eq_refl)).
  - rewrite Nat.add_0_r in Hend. rewrite Hend. eexists _, _. split_and!; [done|done|left].
    by rewrite Nat.mul_0_l, app_nil_r.
  - specialize (Hfull b) as Hb. destruct (batch_data w b) as [|v l] eqn:Hd; [by destruct Hb; [lia|]|].
    rewrite <- Hd. rewrite <- (Nat.mul_succ_l b).
    destruct (IH (S b) fuel (acc ++ omap ec_unmarshal (batch_data w b)) w1) as (r&w'&->&Hs&Hr).
    { intros c Hc. unfold batch_data. rewrite (data_at_same w w1) by done. apply Hfull. lia. }
    { unfold batch_data. rewrite (data_at_same w w1) by done. by replace (S b + k)%nat with (b + S k)%nat by lia. }
    { lia. }
    exists r, w'. split; [done|]. split; [intros s j; by rewrite Hs, Hsame|].
    destruct Hr as [->|?]; [left|by right]. rewrite (data_at_same w w1) by done.
    rewrite batch_seq, data_at_app, omap_app. unfold batch_data. by rewrite (assoc_L (++)).
Qed.

End walk.

(** Reading an attempt's timeline ends. If no run of it has data past its
    [n]-th number, the walk of every run stops within [n] batches and one more,
    on any answers of the store, failed ones included: the frontier is the
    first batch without data, never the absence of keys. *)
Theorem timeline_walk_ends {W} `{HS : StateClient W} `{HL : !StateLaws W} `{HE : EventCodec}
    store attempt runs f n fuel (w : W) :
  contains_byte store "/" = false →
  (∀ run i, run ∈ runs → (n ≤ i)%nat → val_at store (attempt +:+ "/" +:+ run) w i = "") →
  (S n < fuel)%nat →
  is_Some (AttemptEvents fuel store attempt runs f w).
Proof.
  intros Hst Hn Hf. unfold AttemptEvents. assert (is_Some (probe_runs fuel store attempt runs [] w)) as [[[l|e] w'] ->]; [|by eexists..].
  revert w Hn. generalize (@nil TimelineEvent). induction runs as [|run runs IH]; intros acc w Hn; [by eexists|].
  cbn [probe_runs].
  destruct (first_empty store (attempt +:+ "/" +:+ run) w n) as (k&Hk&Hend&Hfull); [intros i Hi; apply Hn; set_solver|].
  destruct (probe_walk store (attempt +:+ "/" +:+ run) Hst k 0 fuel acc w) as (r&w'&Hp&Hs&_);
    [intros c Hc; apply Hfull; lia|done|lia|].
  rewrite Nat.mul_0_l in Hp. rewrite Hp. destruct r as [l|e]; [|by eexists].
  apply IH. intros run' i Hr Hi. unfold val_at. rewrite Hs. apply Hn; set_solver.
Qed.

(** ** What was written is read *)

(** A writer's successive events, when every save succeeds. *)
Fixpoint emitted {W} `{StateClient W} `{EventCodec} (wr : DaprWriter) (l : list (string * string * string)) (w : W)
    : option (list TimelineEvent * DaprWriter * W) :=
  match l with
  | [] => Some ([], wr, w)
  | (kind, node, payload) :: l =>
      match Emit wr kind node (Ok payload) w with
      | (Ok _, wr', w') =>
          '(evs, wr2, w2) ← emitted wr' l w';
          Some (event_of wr kind node payload (st_now w) :: evs, wr2, w2)
      | (Err _, _, _) => None
      end
  end.

Section written.
Context {W : Type} `{HS : StateClient W} `{HL : !StateLaws W} `{HE : EventCodec}.

Lemma emitted_vals wr l (w : W) evs wr' w' n :
  contains_byte (tw_store wr) "/" = false → tw_seq wr = Z.of_nat n → emitted wr l w = Some (evs, wr', w') →
  ∀ i, val_at (tw_store wr) (writer_space wr) w' i
       = match (if decide (n ≤ i)%nat then evs !! (i - n)%nat else None) with
         | Some ev => ec_marshal ev
         | None => val_at (tw_store wr) (writer_space wr) w i
         end.
Proof.
  revert wr w evs wr' w' n. induction l as [|[[kind node] payload] l IH]; intros wr w evs wr' w' n Hst Hn; cbn [emitted].
  { intros [= <- <- <-] i. by case_decide. }
  unfold Emit. destruct (st_SaveStateTTL _ _ _ _ w) as [r w1] eqn:Hsave. destruct r as [[]|]; [|done].
  pose proof (save_law _ _ _ _ _ _ Hst Hsave) as Hv. clear Hsave.
  destruct (emitted _ l w1) as [[[evs1 wr1] w2]|] eqn:He; [|done]. simpl. intros [= <- <- <-] i.
  apply (IH _ _ _ _ _ (S n)) with (i := i) in He; [|done|simpl; lia].
  change (tw_store (next_seq wr)) with (tw_store wr) in He.
  change (writer_space (next_seq wr)) with (writer_space wr) in He. rewrite He. clear He IH.
  assert (val_at (tw_store wr) (writer_space wr) w1 i
    = if decide (i = n) then ec_marshal (event_of wr kind node payload (st_now w)) else val_at (tw_store wr) (writer_space wr) w i) as Hw1.
  { unfold val_at. rewrite Hv. simpl tw_store. change (writer_space (next_seq wr)) with (writer_space wr).
    simpl tw_seq. rewrite Hn. destruct (decide (i = n)) as [->|Hne]; [by rewrite decide_True|].
    rewrite decide_False; [done|]. intros [_ Hk]. apply event_key_inj in Hk; lia. }
  destruct (decide (S n ≤ i)%nat) as [Hi|Hi].
  - rewrite decide_True by lia. replace (i - n)%nat with (S (i - S n)) by lia. simpl.
    destruct (evs1 !! _); [done|]. rewrite Hw1, decide_False by lia. done.
  - rewrite Hw1. destruct (decide (i = n)) as [->|Hne].
    + rewrite decide_True by lia. by rewrite Nat.sub_diag.
    + by rewrite decide_False by lia.
Qed.

(** An event that records what was emitted, of that run. *)
Definition records (attempt workflow run : string) (subject : TimelineSubject) (x : string * string * string) (ev : TimelineEvent) : Prop :=
  (tn_Kind ev, tn_Node ev, tn_Payload ev) = x
  ∧ (tn_Attempt ev, tn_Workflow ev, tn_Run ev) = (attempt, workflow, run) ∧ tn_Subject ev = subject.

Lemma emitted_records wr l (w : W) evs wr' w' : emitted wr l w = Some (evs, wr', w') →
  Forall2 (records (tw_attempt wr) (tw_workflow wr) (tw_run wr) (tw_subject wr)) l evs.
Proof.
  revert wr w evs. induction l as [|[[kind node] payload] l IH]; intros wr w evs; cbn [emitted]; [by intros [= <- _ _]|].
  destruct (Emit _ _ _ _ w) as [[[[]|] wr1] w1] eqn:Hm; [|done]. unfold Emit in Hm.
  destruct (st_SaveStateTTL _ _ _ _ _) as [r w2]. injection Hm as _ <- _.
  destruct (emitted (next_seq wr) l w1) as [[[evs1 wr2] w3]|] eqn:He; [|done]. intros [= <- <- <-].
  constructor; [done|]. exact (IH _ _ _ He).
Qed.

Lemma data_at_listed store space (w : W) evs o :
  Forall (λ ev, ec_marshal ev ≠ "") evs →
  (∀ j ev, evs !! j = Some ev → val_at store space w (o + j) = ec_marshal ev) →
  data_at store space w (seq o (length evs)) = ec_marshal <$> evs.
Proof.
  intros Hne. revert o. induction Hne as [|ev evs Hne0 Hne IH]; intros o Hv; [done|]. cbn [length seq]. unfold data_at. csimpl.
  pose proof (Hv O ev eq_refl) as H0. rewrite Nat.add_0_r in H0. rewrite H0, decide_False by done. f_equal.
  apply (IH (S o)). intros j ev' Hj. rewrite <- (Hv (S j) ev' Hj). f_equal. lia.
Qed.

(** The keyspace of a fresh writer after its events: those, then nothing. *)
Lemma written_data store space (w : W) evs m :
  Forall (λ ev, ec_marshal ev ≠ "") evs →
  (∀ i, val_at store space w i = match evs !! i with Some ev => ec_marshal ev | None => "" end) →
  (length evs ≤ m)%nat → data_at store space w (seq 0 m) = ec_marshal <$> evs.
Proof.
  intros Hne Hv Hm. replace m with (length evs + (m - length evs))%nat by lia. rewrite seq_app, data_at_app.
  rewrite (data_none store space w (seq (0 + length evs) _)), app_nil_r.
  2: { intros i [Hi _]%elem_of_seq. by rewrite Hv, lookup_ge_None_2 by lia. }
  apply data_at_listed; [done|]. intros j ev Hj. simpl. by rewrite Hv, Hj.
Qed.
End written.

(** ** Order *)

Definition not_later (a b : TimelineEvent) : Prop := tn_At a ≤ tn_At b.

Lemma insert_event_perm ev l : insert_event ev l ≡ₚ ev :: l.
Proof. induction l as [|x l IH]; [done|]. simpl. destruct (_ <? _); [|done]. rewrite IH. constructor. Qed.

Lemma sort_events_perm l : sort_events l ≡ₚ l.
Proof. induction l as [|x l IH]; [done|]. cbn [sort_events foldr]. rewrite insert_event_perm. by constructor. Qed.

Lemma insert_event_sorted ev l : StronglySorted not_later l → StronglySorted not_later (insert_event ev l).
Proof.
  induction 1 as [|x l Hs IH Hx]; [by repeat constructor|]. simpl. destruct (_ <? _) eqn:He.
  - constructor; [done|]. apply Z.ltb_lt in He. rewrite insert_event_perm. constructor; [unfold not_later; lia|done].
  - apply Z.ltb_ge in He. constructor; [by constructor|]. constructor; [done|].
    eapply Forall_impl; [exact Hx|]. unfold not_later. intros y ?. lia.
Qed.

Lemma sort_events_sorted l : StronglySorted not_later (sort_events l).
Proof. induction l as [|x l IH]; [constructor|]. by apply insert_event_sorted. Qed.

(** The events a filter asks for, by the start of their kind and by their node. *)
Definition asked_for (f : TimelineFilter) (ev : TimelineEvent) : Prop :=
  (∃ rest, tn_Kind ev = fi_KindPrefix f +:+ rest) ∧ (fi_Node f = "" ∨ tn_Node ev = fi_Node f).

Lemma event_selected_asked f ev : event_selected f ev = true ↔ asked_for f ev.
Proof.
  unfold event_selected, asked_for. rewrite andb_true_iff, !orb_true_iff, !bool_decide_eq_true, has_prefix_spec.
  assert (fi_KindPrefix f = "" → ∃ rest, tn_Kind ev = fi_KindPrefix f +:+ rest) by (intros ->; by exists (tn_Kind ev)).
  naive_solver.
Qed.
#[export] Instance asked_for_dec f ev : Decision (asked_for f ev).
Proof. refine (cast_if (decide (event_selected f ev = true))); by rewrite <- event_selected_asked. Defined.

(** A filtered reading: in order of time; the selected events, the latest of
    them when there are more than the limit. *)
Definition filtered_reading (f : TimelineFilter) (evs l : list TimelineEvent) : Prop :=
  StronglySorted not_later l
  ∧ ∃ older, older ++ l ≡ₚ filter (asked_for f) evs
    ∧ (fi_Limit f ≤ 0 → older = [])
    ∧ (0 < fi_Limit f → Z.of_nat (length l) ≤ fi_Limit f ∧ (older ≠ [] → Z.of_nat (length l) = fi_Limit f))
    ∧ ∀ a b, a ∈ older → b ∈ l → not_later a b.

Lemma sorted_app l1 l2 : StronglySorted not_later (l1 ++ l2) →
  StronglySorted not_later l2 ∧ ∀ a b, a ∈ l1 → b ∈ l2 → not_later a b.
Proof.
  induction l1 as [|x l1 IH]; cbn [app]; intros H0; [split; [done|]; by intros a b ?%elem_of_nil|].
  inversion H0 as [|? ? Hs Hall]; subst. destruct (IH Hs) as [H1 H2]. split; [done|].
  intros a b [->|Ha]%elem_of_cons Hb; [|by apply H2]. rewrite Forall_forall in Hall. apply Hall. set_solver.
Qed.

Lemma filter_sorted (P : TimelineEvent → Prop) `{∀ x, Decision (P x)} l :
  StronglySorted not_later l → StronglySorted not_later (filter P l).
Proof.
  induction 1 as [|x l Hs IH Hx]; [constructor|]. rewrite filter_cons. destruct (decide (P x)); [|done].
  constructor; [done|]. rewrite Forall_forall in *. intros y [_ Hy]%list_elem_of_filter. by apply Hx.
Qed.

Lemma applyFilter_reading f evs : filtered_reading f evs (applyFilter evs f).
Proof.
  unfold applyFilter, filtered_reading. cbv zeta.
  rewrite <- (list_filter_iff (λ ev, event_selected f ev = true) (asked_for f) evs) by apply event_selected_asked. set (P := λ ev, event_selected f ev = true).
  assert (filter P (sort_events evs) ≡ₚ filter P evs) as Hp by by rewrite sort_events_perm.
  pose proof (filter_sorted P _ (sort_events_sorted evs)) as Hs. destruct (decide _) as [(Hk&Hn&Hl)|Hf].
  { assert (∀ l : list TimelineEvent, filter P l = l) as Hall.
    { intros l. induction l as [|x l IH]; [done|]. rewrite filter_cons, IH, decide_True; [done|].
      unfold P, event_selected. by rewrite Hk, Hn. }
    rewrite Hall in Hs. split; [done|]. exists []. rewrite !Hall in Hp. rewrite Hall.
    split_and!; [done|done|lia|by intros a b ?%elem_of_nil]. }
  fold P. destruct ((0 <? fi_Limit f) && _) eqn:Hc.
  - apply andb_true_iff in Hc as [H0 H1]. apply Z.ltb_lt in H0, H1.
    set (out := filter P (sort_events evs)) in *. set (m := (length out - _)%nat).
    rewrite <- (take_drop m out) in Hs. apply sorted_app in Hs as [Hs Hcross]. split; [done|].
    exists (take m out). rewrite take_drop. split_and!; [done|lia| |done].
    intros _. rewrite length_drop. unfold m. split; [|intros _]; lia.
  - split; [done|]. exists []. split_and!; [done|done| |by intros a b ?%elem_of_nil].
    intros Hpos. apply andb_false_iff in Hc as [Hc|Hc]; apply Z.ltb_ge in Hc; [lia|]. by split.
Qed.

(** ** The round trip *)

(** What the JSON of one event has to keep. encoding/json keeps an event whose
    texts are UTF-8 and whose payload is compact JSON; it replaces other bytes,
    compacts other payloads and refuses what is no JSON, so the theorem asks
    this of the events a run emitted and of no other. *)
Definition event_kept `{EventCodec} (ev : TimelineEvent) : Prop :=
  ec_marshal ev ≠ "" ∧ ec_unmarshal (ec_marshal ev) = Some ev.

Lemma events_read `{EventCodec} evs : Forall event_kept evs → omap ec_unmarshal (ec_marshal <$> evs) = evs.
Proof. induction 1 as [|ev evs [_ He] _ IH]; [done|]. csimpl. by rewrite He, IH. Qed.

(** C27. What a run records is read back. A new writer, on a store whose name has
    no slash and on a keyspace without data of that run, emits some events and
    every save succeeds; the JSON of each of the events emitted decodes to that
    event. The events carry what was emitted and whose run it is, and reading
    the attempt's run afterwards ends and, unless the store fails, gives exactly
    those events, in order of time, under any filter: those it asks for by the
    start of their kind and by their node, and the latest of them when a limit
    cuts. The same holds of a gate's writer and the gate's events of the attempt
    it was made for. *)
Theorem timeline_roundtrip {W} `{HS : StateClient W} `{HL : !StateLaws W} `{HE : EventCodec}
    store attempt workflow run subject l f fuel (w : W) evs wr' w' :
  Forall event_kept evs → contains_byte store "/" = false → (length l + 1 < fuel)%nat →
  (emitted (NewWriter store attempt workflow run subject) l w = Some (evs, wr', w') →
   (∀ i, val_at store (attempt +:+ "/" +:+ run) w i = "") →
   ∃ r w'', AttemptEvents fuel store attempt [run] f w' = Some (r, w'')
     ∧ Forall2 (records attempt workflow run subject) l evs ∧ (is_ok r = true → ∃ out, r = Ok out ∧ filtered_reading f evs out))
  ∧ (∀ now, attempt ≠ "" →
   emitted (NewGateWriter store workflow attempt subject now) l w = Some (evs, wr', w') →
   (∀ i, val_at store (attempt +:+ "/gate") w i = "") →
   ∃ r w'', GateEvents fuel store attempt f w' = Some (r, w'')
     ∧ Forall2 (records "" workflow "" subject) l evs ∧ (is_ok r = true → ∃ out, r = Ok out ∧ filtered_reading f evs out)).
Proof.
  intros Hc Hslash Hfuel. pose proof (Forall_impl _ _ _ Hc (λ ev, @proj1 _ _)) as Hne0. assert (∀ wr space, tw_store wr = store → tw_seq wr = 0 → writer_space wr = space →
    emitted wr l w = Some (evs, wr', w') → (∀ i, val_at store space w i = "") →
    ∃ r w'', probe fuel store space 0 [] w' = Some (r, w'')
      ∧ Forall2 (records (tw_attempt wr) (tw_workflow wr) (tw_run wr) (tw_subject wr)) l evs ∧ (r = Ok evs ∨ is_ok r = false)) as Hwalk.
  { intros wr space Hst Hseq Hsp He Hfresh. pose proof (emitted_records _ _ _ _ _ _ He) as Hrec.
    pose proof (Forall2_length _ _ _ Hrec) as Hlen.
    assert (contains_byte (tw_store wr) "/" = false) as Hws by by rewrite Hst.
    pose proof (emitted_vals wr l w evs wr' w' O Hws Hseq He) as Hv. rewrite Hst, Hsp in Hv.
    assert (∀ i, val_at store space w' i = match evs !! i with Some ev => ec_marshal ev | None => "" end) as Hv'.
    { intros i. rewrite Hv, decide_True, Nat.sub_0_r by lia. by destruct (evs !! i). }
    destruct (first_empty store space w' (length evs)) as (k&Hk&Hend&Hfull).
    { intros i Hi. by rewrite Hv', lookup_ge_None_2. }
    destruct (probe_walk store space Hslash k 0 fuel [] w') as (r&w''&Hp&_&Hr); [intros c Hcc; apply Hfull; lia|done|lia|].
    exists r, w''. split; [by rewrite Nat.mul_0_l in Hp|]. split; [done|]. destruct Hr as [->|?]; [left|by right].
    rewrite Nat.mul_0_l, (written_data store space w' evs); [|done|done|].
    - simpl. f_equal. by apply events_read.
    - destruct (decide (length evs ≤ k * probeBatch)%nat) as [?|Hlt]; [done|]. exfalso.
      destruct (lookup_lt_is_Some_2 evs (k * probeBatch)) as [ev Hev]; [lia|].
      assert (data_at store space w' [k * probeBatch]%nat = [ec_marshal ev]) as Hd.
      { unfold data_at. csimpl. rewrite Hv', Hev, decide_False; [done|]. by eapply (Forall_lookup_1 _ _ _ _ Hne0). }
      revert Hend. unfold batch_data. pose proof probeBatch_pos as Hpos. destruct probeBatch as [|m] eqn:Hm; [lia|].
      cbn [seq]. change (?x :: ?y) with ([x] ++ y) at 1. by rewrite data_at_app, Hd. }
  split.
  - intros He Hfresh. destruct (Hwalk (NewWriter store attempt workflow run subject) (attempt +:+ "/" +:+ run) eq_refl eq_refl eq_refl He Hfresh) as (r&w''&Hp&Hlen&Hr).
    unfold AttemptEvents. cbn [probe_runs]. rewrite Hp. destruct r as [out|e]; simpl.
    + eexists _, _. split_and!; [done..|]. intros _. eexists. split; [done|].
      destruct Hr as [[= ->]|?]; [|done]. apply applyFilter_reading.
    + by eexists _, _.
  - intros now Hne He Hfresh.
    destruct (Hwalk (NewGateWriter store workflow attempt subject now) (attempt +:+ "/gate")) as (r&w''&Hp&Hlen&Hr); [done|done| |done|done|].
    { unfold writer_space, NewGateWriter, gate_namespace. simpl. rewrite (decide_False (P := attempt = "")) by done.
      rewrite decide_False; [done|]. by destruct attempt. }
    unfold GateEvents. rewrite Hp. destruct r as [out|e]; simpl.
    + eexists _, _. split_and!; [done..|]. intros _. eexists. split; [done|].
      destruct Hr as [[= ->]|?]; [|done]. apply applyFilter_reading.
    + by eexists _, _.
Qed.

(** ** On a store in memory *)

Record Store := { so_values : gmap (string * string) string; so_clock : Z }.

#[export] Instance memory_store : StateClient Store := {|
  st_now := so_clock;
  st_SaveStateTTL store k v ttl s :=
    (Ok tt, {| so_values := <[(store, k) := v]> (so_values s); so_clock := so_clock s - 1 |});
  st_GetBulkState store ks s :=
    (Ok (list_to_map ((λ k, (k, default "" (so_values s !! (store, k)))) <$> ks)), s);
|}.

#[export] Instance memory_laws : StateLaws Store.
Proof.
  refine {| st_val s store k := default "" (so_values s !! (store, k)) |}.
  - intros store k v ttl s s' _ [= <-] st j. simpl. destruct (decide (st = store ∧ j = k)) as [[-> ->]|Hne].
    + by rewrite lookup_insert_eq.
    + rewrite lookup_insert_ne; [done|]. intros [= <- <-]. by apply Hne.
  - intros store ks s r s' _ [= <- <-]. split; [done|]. intros m [= <-] k Hk.
    assert (∀ l : list string, k ∈ l → (list_to_map ((λ k, (k, default "" (so_values s !! (store, k)))) <$> l) : gmap string string)
      !! k = Some (default "" (so_values s !! (store, k)))) as ->; [|done|done].
    induction l as [|j l IH]; intros Hin; [by apply elem_of_nil in Hin|]. csimpl.
    destruct (decide (j = k)) as [->|Hne]; [by rewrite lookup_insert_eq|].
    rewrite lookup_insert_ne by done. apply IH. set_solver.
Defined.

Definition text_fields (s : TimelineSubject) : list string := [tj_Kind s; tj_Ref s; tj_Title s; tj_SHA s].

(** Events as texts; this codec carries the instant as a decimal, and does not
    read back a payload that is no JSON. *)
#[export] Instance text_events : EventCodec := {|
  ec_marshal ev := "+" +:+ enc_fields ([(if tn_At ev <? 0 then "-" else ""); pretty (Z.abs (tn_At ev)); tn_Attempt ev;
    tn_Workflow ev; tn_Run ev; tn_Node ev; tn_Kind ev; tn_Payload ev] ++ text_fields (tn_Subject ev));
  ec_unmarshal t :=
    match t with
    | String _ t =>
        match dec_fields t with
        | Some [sign; at_; a; w; r; n; k; p; s1; s2; s3; s4] =>
            z ← digits_val 0 at_;
            if decide (p = "{") then None else Some {| tn_At := if decide (sign = "") then z else - z; tn_Attempt := a; tn_Workflow := w; tn_Run := r;
                    tn_Node := n; tn_Kind := k; tn_Payload := p;
                    tn_Subject := {| tj_Kind := s1; tj_Ref := s2; tj_Title := s3; tj_SHA := s4 |} |}
        | _ => None
        end
    | "" => None
    end;
  ec_marshal_subject s := enc_fields (text_fields s);
  ec_unmarshal_subject t :=
    match dec_fields t with
    | Some [s1; s2; s3; s4] => Some {| tj_Kind := s1; tj_Ref := s2; tj_Title := s3; tj_SHA := s4 |}
    | _ => None
    end;
|}.

Lemma text_event_kept ev : tn_Payload ev ≠ "{" → event_kept ev.
Proof.
  intros Hp. split; [done|]. unfold ec_unmarshal, ec_marshal, text_events. rewrite app_str_cons, app_str_nil_l.
  rewrite dec_enc_fields by done. destruct ev as [t a w r n k [] p]. simpl in *.
  rewrite pretty_Z_nonneg, digits_val_pretty_N by lia. simpl. rewrite decide_False by done. do 2 f_equal. destruct (t <? 0) eqn:Ht; simpl.
  - apply Z.ltb_lt in Ht. lia.
  - apply Z.ltb_ge in Ht. lia.
Qed.

Definition no_subject : TimelineSubject := {| tj_Kind := ""; tj_Ref := ""; tj_Title := ""; tj_SHA := "" |}.
Definition empty_store : Store := {| so_values := ∅; so_clock := 10 |}.
Definition all_events : TimelineFilter := {| fi_KindPrefix := ""; fi_Node := ""; fi_Limit := 0 |}.
Definition sample_emits : list (string * string * string) := [("run.started", "", ""); ("node.started", "lint", ""); ("run.completed", "", "")].

(** This store's clock runs backwards, so that the order is the sort's. *)
Lemma timeline_roundtrip_witness :
  ∃ evs wr' s', emitted (NewWriter "st" "a1" "docs" "r1" no_subject) sample_emits empty_store = Some (evs, wr', s')
    ∧ tn_Kind <$> evs = ["run.started"; "node.started"; "run.completed"]
    ∧ ∃ r s'', AttemptEvents 5 "st" "a1" ["r1"] all_events s' = Some (r, s'')
        ∧ Forall2 (records "a1" "docs" "r1" no_subject) sample_emits evs ∧ (is_ok r = true → ∃ out, r = Ok out ∧ filtered_reading all_events evs out).
Proof.
  eexists _, _, _. split; [reflexivity|]. split; [reflexivity|].
  eapply (timeline_roundtrip "st" "a1" "docs" "r1" no_subject sample_emits all_events 5 empty_store).
  - by repeat (constructor; [by apply text_event_kept|]).
  - reflexivity.
  - simpl. lia.
  - reflexivity.
  - intros i. reflexivity.
Defined.

Lemma timeline_walk_ends_witness : is_Some (AttemptEvents 2 "st" "a1" ["r1"; "r2"] all_events empty_store).
Proof. apply (timeline_walk_ends "st" "a1" ["r1"; "r2"] all_events 0 2); [reflexivity..|lia]. Defined.

(** ** Limits *)

(** Once the oldest batch of a run has expired, none of the run is read, however
    much of it is still there. *)
Lemma expired_batch_hides_rest {W} `{HS : StateClient W} `{HL : !StateLaws W} `{HE : EventCodec} store space fuel (w : W) vals w' :
  contains_byte store "/" = false →
  st_GetBulkState store (batch_keys space 0) w = (Ok vals, w') →
  (∀ i, (i < probeBatch)%nat → val_at store space w i = "") →
  probe (S fuel) store space 0 [] w = Some (Ok [], w').
Proof.
  intros Hst Hg Hold. pose proof (bulk_law _ _ _ _ _ Hst Hg) as [_ Hv]. cbn [probe]. rewrite Hg.
  rewrite (batch_hits_data store space w 0 (batch_keys space 0) vals); [|by rewrite Nat.mul_0_l|by apply Hv].
  unfold batch_data. rewrite data_none; [done|]. intros i [_ Hi]%elem_of_seq. apply Hold. lia.
Qed.

(** A gate writer made without an attempt writes where no reading of an attempt
    looks. *)
Lemma orphan_gate_unread store workflow attempt subject now i j :
  contains_byte attempt " " = false → 0 ≤ j →
  event_key (writer_space (NewGateWriter store workflow "" subject now)) i ≠ event_key (attempt +:+ "/gate") j.
Proof.
  intros Ha Hj Hk. apply (f_equal (λ s, contains_byte s " ")) in Hk. revert Hk. unfold event_key.
  assert (contains_byte (writer_space (NewGateWriter store workflow "" subject now)) " " = true) as Hs.
  { unfold writer_space, NewGateWriter, gate_namespace. simpl tw_prefixOverride. rewrite (decide_True (P := "" = "")) by done.
    rewrite decide_False by done. by rewrite !contains_byte_app. }
  rewrite !contains_byte_app, Ha, Hs, (pad6_free j) by done. discriminate.
Qed.
