(* ===== verification/Dapr.v ===== *)
(** * The Dapr client ([internal/dapr])

    The sidecar's HTTP API as the client uses it: one call for each operation,
    the codes it accepts and what it makes of the answer; and the guard that
    waits for the sidecar. Bodies are JSON trees: encoding and parsing are the
    transport's here. Tracing is left out. *)

From Stdlib Require Import Floats.SpecFloat.
From S2P Require Import Prelude GoStrings GoTime Json Timeline.

Record DaprBody := {
  db_text : string;          (** the body, trimmed *)
  db_json : option json;     (** what it parses to *)
}.

Record DaprCall := { da_Method : string; da_URL : string; da_Body : option json }.

(** The body, or the error of reading it. *)
Record DaprReply := { dr_Code : Z; dr_Status : string; dr_Body : result string DaprBody }.

Class Sidecar (W : Type) := { sd_do : DaprCall → W → result string DaprReply * W }.

Section new.
Fixpoint trim_right (c : ascii) (n : nat) (s : string) : string :=
  match n with
  | O => s
  | S n => match strip_prefix (String c "") (String.rev s) with
           | Some r => trim_right c n (String.rev r)
           | None => s
           end
  end.

(** [New]: the base URL. *)
Definition New (baseURL : string) : string :=
  let base := TrimSpace baseURL in
  let base := trim_right "/" (String.length base) base in
  if decide (base = "") then "http://127.0.0.1:3500" else base.
End new.

Section client.
Context {W : Type} `{Sidecar W} (BaseURL : string).
(** The text of a JSON value as the sidecar sent it. *)
Context (raw_text : json → string).

Definition state_url (store : string) : string := BaseURL +:+ "/v1.0/state/" +:+ store.
Definition state_key_url (store key : string) : string := state_url store +:+ "/" +:+ PathEscape key.
Definition actor_url (actorType actorID : string) : string :=
  BaseURL +:+ "/v1.0/actors/" +:+ actorType +:+ "/" +:+ PathEscape actorID.

Definition get (url : string) : DaprCall := {| da_Method := "GET"; da_URL := url; da_Body := None |}.
Definition post (url : string) (body : json) : DaprCall := {| da_Method := "POST"; da_URL := url; da_Body := Some body |}.

(** A value as a text: a string, null as none, anything else as it stands. *)
Definition value_text (j : json) : string :=
  match j with JStr s => s | JNull => "" | _ => raw_text j end.

Definition GetState (store key : string) : M W string string := λ w,
  match sd_do (get (state_key_url store key)) w with
  | (Err e, w) => (Err e, w)
  | (Ok resp, w) =>
      if dr_Code resp =? 404 then (Ok "", w)
      else if negb (dr_Code resp =? 200) then (Err ("dapr get-state: " +:+ dr_Status resp), w)
      else match dr_Body resp with
           | Err e => (Err e, w)
           | Ok b => (Ok (match db_json b with
                          | Some (JStr s) => s
                          | Some JNull => ""
                          | _ => db_text b
                          end), w)
           end
  end.

(** The calls whose answer's body does not matter. *)
Definition no_content (op : string) (call : DaprCall) : M W string unit := λ w,
  match sd_do call w with
  | (Err e, w) => (Err e, w)
  | (Ok resp, w) =>
      if negb (dr_Code resp =? 204) && negb (dr_Code resp =? 200)
      then (Err (op +:+ ": " +:+ dr_Status resp), w) else (Ok tt, w)
  end.

Definition raw_body (r : result string DaprBody) : result string string :=
  match r with Ok b => Ok (db_text b) | Err e => Err e end.

Definition InvokeActor (actorType actorID method : string) (payload : option json) : M W string string := λ w,
  match sd_do {| da_Method := "PUT"; da_URL := actor_url actorType actorID +:+ "/method/" +:+ method; da_Body := payload |} w with
  | (Err e, w) => (Err e, w)
  | (Ok resp, w) =>
      if negb (dr_Code resp =? 200)
      then (Err ("dapr invoke-actor " +:+ actorType +:+ "/" +:+ actorID +:+ "." +:+ method +:+ ": " +:+ dr_Status resp), w)
      else (raw_body (dr_Body resp), w)
  end.

(** No value is the empty text. *)
Definition GetActorState (actorType actorID key : string) : M W string string := λ w,
  match sd_do (get (actor_url actorType actorID +:+ "/state/" +:+ key)) w with
  | (Err e, w) => (Err e, w)
  | (Ok resp, w) =>
      if (dr_Code resp =? 404) || (dr_Code resp =? 204) then (Ok "", w)
      else if negb (dr_Code resp =? 200) then (Err ("dapr get-actor-state: " +:+ dr_Status resp), w)
      else (raw_body (dr_Body resp), w)
  end.

Definition SaveActorState (actorType actorID key : string) (value : json) : M W string unit :=
  no_content "dapr save-actor-state"
    (post (actor_url actorType actorID +:+ "/state")
       (JArr [JObj [("operation", JStr "upsert"); ("request", JObj [("key", JStr key); ("value", value)])]])).

(** [int(ttl.Seconds())]. *)
Definition ttl_seconds (ttl : Z) : Z :=
  f64_trunc (SFadd 53 1024 (f64_of_Z (ttl / Second)) (f64_div (f64_of_Z (ttl `mod` Second)) (f64_of_Z Second))).

Definition state_item (key value : string) (ttl : Z) : json :=
  JObj ([("key", JStr key)]
        ++ (if 0 <? ttl then [("metadata", JObj [("ttlInSeconds", JStr (pretty (ttl_seconds ttl)))])] else [])
        ++ [("value", JStr value)]).

Definition SaveStateTTL (store key value : string) (ttl : Z) : M W string unit :=
  no_content "dapr save-state" (post (state_url store) (JArr [state_item key value ttl])).

Definition SaveState (store key value : string) : M W string unit := SaveStateTTL store key value 0.

(** An item of a bulk answer: key and data, if there is any. *)
Definition dec_item : Decoder (string * option json) := dec_struct (λ f,
  k ← field "key" dec_string f; Some (k, json_field "data" f)).

Definition item_text (data : option json) : string := from_option value_text "" data.

Definition bulk_values (items : list (string * option json)) : gmap string string :=
  foldl (λ out it, <[it.1 := item_text it.2]> out) ∅ items.

Definition GetBulkState (store : string) (keys : list string) : M W string (gmap string string) := λ w,
  match sd_do (post (state_url store +:+ "/bulk") (JObj [("keys", JArr (JStr <$> keys))])) w with
  | (Err e, w) => (Err e, w)
  | (Ok resp, w) =>
      if negb (dr_Code resp =? 200) then (Err ("dapr get-bulk-state: " +:+ dr_Status resp), w)
      else match dr_Body resp with
           | Err e => (Err e, w)
           | Ok b => match db_json b ≫= dec_list dec_item with
                     | Some items => (Ok (bulk_values items), w)
                     | None => (Err "json", w)
                     end
           end
  end.

(** The answer's code is not looked at. *)
Definition DeleteState (store key : string) : M W string unit := λ w,
  match sd_do (post (state_url store) (JArr [JObj [("key", JStr key); ("operation", JStr "delete")]])) w with
  | (Err e, w) => (Err e, w)
  | (Ok _, w) => (Ok tt, w)
  end.

(** The payload is JSON already. *)
Definition Publish (pubsub topic : string) (payload : json) : M W string unit :=
  no_content ("dapr publish " +:+ pubsub +:+ "/" +:+ topic)
    (post (BaseURL +:+ "/v1.0/publish/" +:+ pubsub +:+ "/" +:+ topic) payload).

Definition dec_secret : Decoder (gmap string string) := λ j,
  match j with
  | JObj l => m ← mapM (λ kv, v ← dec_string kv.2; Some (kv.1, v)) l; Some (list_to_map (reverse m))
  | JNull => Some ∅
  | _ => None
  end.

Definition GetSecret (store key : string) : M W string (gmap string string) := λ w,
  let what := "dapr getsecret " +:+ store +:+ "/" +:+ key +:+ ": " in
  match sd_do (get (BaseURL +:+ "/v1.0/secrets/" +:+ store +:+ "/" +:+ key)) w with
  | (Err e, w) => (Err e, w)
  | (Ok resp, w) =>
      if negb (dr_Code resp =? 200) then (Err (what +:+ dr_Status resp), w)
      else match dr_Body resp with
           | Err e => (Err (what +:+ "decode: " +:+ e), w)
           | Ok b => match db_json b ≫= dec_secret with
                     | Some m => (Ok m, w)
                     | None => (Err (what +:+ "decode: json"), w)
                     end
           end
  end.

(** ** The sidecar's guard ([sidecar.go]) *)

Definition Required (getenv : string → string) : bool := bool_decide (getenv "HARMOSTES_DAPR_REQUIRED" = "true").
Definition Injected (getenv : string → string) : bool := negb (bool_decide (getenv "DAPR_HTTP_PORT" = "")).

Definition ErrSidecarMissing : string :=
  "dapr: pod requires a sidecar (HARMOSTES_DAPR_REQUIRED) but injection did not run (no DAPR_HTTP_PORT) — recreate the pod; a container restart cannot re-run admission".

(** Any answer will do. *)
Definition probeHealthz : M W string unit := λ w,
  match sd_do (get (BaseURL +:+ "/v1.0/healthz")) w with
  | (Err e, w) => (Err e, w)
  | (Ok _, w) => (Ok tt, w)
  end.

Context (now : W → Z) (sleep : Z → W → option string * W).

(** [None] when the fuel runs out. *)
Fixpoint wait_loop (fuel : nat) (deadline timeout interval : Z) (w : W) : option (result string unit * W) :=
  match fuel with
  | O => None
  | S fuel =>
      match probeHealthz w with
      | (Ok _, w) => Some (Ok tt, w)
      | (Err e, w) =>
          if deadline <? now w
          then Some (Err ("dapr: sidecar at " +:+ BaseURL +:+ " not answering after " +:+ duration_String timeout +:+ ": " +:+ e), w)
          else match sleep interval w with
               | (Some c, w) => Some (Err ("dapr: sidecar wait aborted: " +:+ c +:+ " (last error: " +:+ e +:+ ")"), w)
               | (None, w) => wait_loop fuel deadline timeout interval w
               end
      end
  end.

Definition WaitForSidecar (fuel : nat) (timeout interval : Z) (w : W) : option (result string unit * W) :=
  let interval := if interval <=? 0 then Second else interval in
  wait_loop fuel (now w + timeout) timeout interval w.

Definition StartupGuard (getenv : string → string) (fuel : nat) (wait interval : Z) (w : W) : option (result string unit * W) :=
  if negb (Required getenv) then Some (Ok tt, w)
  else if negb (Injected getenv) then Some (Err ErrSidecarMissing, w)
  else WaitForSidecar fuel wait interval w.
End client.
