(* ===== verification/DaprProps.v ===== *)
(** * Properties of the Dapr client

    A key's path names that key alone, whatever it holds; a state that was saved
    is the state that is read, by key and in bulk, on a sidecar that keeps what
    it acknowledged; so the client is the store the timeline is written for. *)

From S2P Require Import Prelude GoStrings GoTime Json Timeline TimelineProps Dapr.

(** ** Paths *)

Definition hex_val (c : ascii) : Z := if is_digit c then byte_val c - 48 else byte_val c - 55.

Fixpoint unescape (s : string) : string :=
  match s with
  | "" => ""
  | String c r =>
      if decide (c = "%"%char) then
        match r with
        | String a (String b r) => String (ascii_of_N (Z.to_N (hex_val a * 16 + hex_val b))) (unescape r)
        | _ => String c (unescape r)
        end
      else String c (unescape r)
  end.

Lemma escaped_byte c :
  ascii_of_N (Z.to_N (hex_val (upper_hex (Z.shiftr (byte_val c) 4)) * 16 + hex_val (upper_hex (Z.land (byte_val c) 15)))) = c.
Proof. destruct c as [[] [] [] [] [] [] [] []]; vm_compute; reflexivity. Qed.

Lemma unescape_PathEscape s : unescape (PathEscape s) = s.
Proof.
  induction s as [|c s IH]; [done|]. cbn [PathEscape]. destruct (path_safe c) eqn:Hc; cbn [unescape].
  - rewrite decide_False, IH; [done|]. by intros ->.
  - by rewrite decide_True, escaped_byte, IH.
Qed.

Lemma PathEscape_free s : contains_byte (PathEscape s) "/" = false.
Proof.
  assert (∀ c, upper_hex (Z.shiftr (byte_val c) 4) ≠ "/"%char ∧ upper_hex (Z.land (byte_val c) 15) ≠ "/"%char) as Hhex.
  { intros c. split; destruct c as [[] [] [] [] [] [] [] []]; by vm_compute. }
  induction s as [|c s IH]; [done|]. cbn [PathEscape]. destruct (path_safe c) eqn:Hc; rewrite !contains_byte_cons, IH.
  - rewrite bool_decide_eq_false_2; [done|]. by intros ->.
  - destruct (Hhex c) as [H1 H2]. by rewrite !bool_decide_eq_false_2.
Qed.

Lemma state_key_url_inj Base s k s' k' :
  contains_byte s "/" = false → contains_byte s' "/" = false →
  state_key_url Base s k = state_key_url Base s' k' → s = s' ∧ k = k'.
Proof.
  unfold state_key_url, state_url. intros Hs Hs' He.
  rewrite !app_str_assoc in He. do 2 apply app_str_inj in He.
  apply (f_equal (cut_first "/")) in He. rewrite !app_str_cons, !app_str_nil_l, !cut_first_app in He by done.
  injection He as -> He. split; [done|]. by rewrite <- (unescape_PathEscape k), He, unescape_PathEscape.
Qed.

(** ** What the sidecar keeps *)

Definition accepted (r : DaprReply) : Prop := dr_Code r = 204 ∨ dr_Code r = 200.

(** The state API, as documented: an acknowledged upsert is what is kept; a key
    with a value is answered with it, a key without one with 404 or 204; a bulk
    answer has an item with the data of each key that has a value, and none with
    data of another. *)
Class SidecarLaws (W : Type) `{Sidecar W} (BaseURL : string) (raw_text : json → string) := {
  sv : W → string → string → option json;
  upsert_law store k v ttl w r w' : contains_byte store "/" = false →
    sd_do (post (state_url BaseURL store) (JArr [state_item k v ttl])) w = (Ok r, w') → accepted r →
    ∀ s j, sv w' s j = if decide (s = store ∧ j = k) then Some (JStr v) else sv w s j;
  get_state_law store k w r w' : contains_byte store "/" = false →
    sd_do (get (state_key_url BaseURL store k)) w = (r, w') →
    (∀ s j, sv w' s j = sv w s j)
    ∧ ∀ resp, r = Ok resp → match dr_Code resp, sv w store k with
                            | 200, None | 404, Some _ | 204, Some _ => False
                            | 200, Some j => ∀ b, dr_Body resp = Ok b → db_json b = Some j ∧ db_text b = raw_text j
                            | _, _ => True
                            end;
  bulk_state_law store ks w r w' : contains_byte store "/" = false →
    sd_do (post (state_url BaseURL store +:+ "/bulk") (JObj [("keys", JArr (JStr <$> ks))])) w = (r, w') →
    (∀ s j, sv w' s j = sv w s j)
    ∧ ∀ resp b items, r = Ok resp → dr_Code resp = 200 → dr_Body resp = Ok b →
        db_json b ≫= dec_list dec_item = Some items →
        NoDup items.*1 ∧ (∀ k d, k ∈ ks → (k, Some d) ∈ items ↔ sv w store k = Some d);
}.

Section laws.
Context {W : Type} `{HS : Sidecar W} (BaseURL : string) (raw_text : json → string) `{HL : !SidecarLaws W BaseURL raw_text}.

Definition kept_text (w : W) (store k : string) : string := from_option (value_text raw_text) "" (sv w store k).

Lemma save_state_law store k v ttl (w w' : W) : contains_byte store "/" = false →
  SaveStateTTL BaseURL store k v ttl w = (Ok tt, w') →
  ∀ s j, sv w' s j = if decide (s = store ∧ j = k) then Some (JStr v) else sv w s j.
Proof.
  unfold SaveStateTTL, no_content. intros Hst. destruct (sd_do _ w) as [[resp|e] w1] eqn:Hd; [|done].
  destruct (negb _ && _) eqn:Hc; [done|]. intros [= <-]. eapply upsert_law; [done|exact Hd|].
  unfold accepted. apply andb_false_iff in Hc as [Hc|Hc]; apply negb_false_iff, Z.eqb_eq in Hc; auto.
Qed.

Lemma bulk_values_lookup raw l k d : NoDup l.*1 → (k, d) ∈ l → bulk_values raw l !! k = Some (item_text raw d).
Proof.
  unfold bulk_values. induction l as [|[j e] l IH] using rev_ind; [by intros _ ?%elem_of_nil|].
  rewrite fmap_app, NoDup_app, foldl_app. cbn [foldl fst snd]. intros (Hnd&Hdis&_) [Hin|Hin]%elem_of_app.
  - rewrite lookup_insert_ne; [by apply IH|]. intros ->. apply (Hdis k); [by apply (list_elem_of_fmap_2 fst _ (k, d))|].
    simpl. set_solver.
  - apply list_elem_of_singleton in Hin as [= -> ->]. by rewrite lookup_insert_eq.
Qed.

Lemma bulk_values_none raw l k : (∀ d, (k, d) ∉ l) → bulk_values raw l !! k = None.
Proof.
  unfold bulk_values. induction l as [|[j e] l IH] using rev_ind; intros Hn; [done|].
  rewrite foldl_app. cbn [foldl fst snd]. rewrite lookup_insert_ne.
  - apply IH. intros d Hd. apply (Hn d). set_solver.
  - intros ->. apply (Hn e). set_solver.
Qed.

Lemma bulk_read store ks (w : W) r w' : contains_byte store "/" = false →
  GetBulkState BaseURL raw_text store ks w = (r, w') →
  (∀ s j, sv w' s j = sv w s j)
  ∧ ∀ m, r = Ok m → ∀ k, k ∈ ks →
      match sv w store k with
      | Some d => m !! k = Some (value_text raw_text d)
      | None => default "" (m !! k) = ""
      end.
Proof.
  unfold GetBulkState. intros Hst. destruct (sd_do _ w) as [r1 w1] eqn:Hd. apply bulk_state_law in Hd as [Hsame Hb]; [|done].
  destruct r1 as [resp|e]; [|by intros [= <- <-]]. destruct (negb _) eqn:Hc; [by intros [= <- <-]|].
  apply negb_false_iff, Z.eqb_eq in Hc. destruct (dr_Body resp) as [b|e] eqn:Hbody; [|by intros [= <- <-]].
  destruct (db_json b ≫= _) as [items|] eqn:Hi; intros [= <- <-]; (split; [done|]); [|done].
  intros m [= <-] k Hk. destruct (Hb resp b items eq_refl Hc Hbody Hi) as [Hnd Hin].
  destruct (sv w store k) as [d|] eqn:Hv.
  - apply Hin in Hv; [|done]. by apply (bulk_values_lookup raw_text) in Hv.
  - destruct (decide (Exists (λ it, it.1 = k) items)) as [He|He].
    + apply Exists_exists in He as ([k' d]&Hd&Hk'). simpl in Hk'. subst k'.
      rewrite (bulk_values_lookup _ _ _ _ Hnd Hd). simpl. destruct d as [d|]; [|done].
      apply Hin in Hd; [|done]. congruence.
    + rewrite bulk_values_none; [done|]. intros d Hd. apply He, Exists_exists. by exists (k, d).
Qed.

(** The client is the store the timeline asks for. *)
#[export] Instance dapr_state (now : W → Z) : StateClient W := {|
  st_now := now;
  st_SaveStateTTL := SaveStateTTL BaseURL;
  st_GetBulkState := GetBulkState BaseURL raw_text;
|}.

#[export] Instance dapr_state_laws (now : W → Z) : StateLaws W (H := dapr_state now).
Proof.
  refine {| st_val := kept_text |}.
  - intros store k v ttl w w' Hst Hs st j. unfold kept_text. rewrite (save_state_law _ _ _ _ _ _ Hst Hs).
    by destruct (decide _).
  - intros store ks w r w' Hst Hg. apply bulk_read in Hg as [Hsame Hv]; [|done]. unfold kept_text. split.
    + intros st j. by rewrite Hsame.
    + intros m Hm k Hk. specialize (Hv m Hm k Hk). destruct (sv w store k); by rewrite Hv.
Defined.

(** A state saved is the state read, on a sidecar that keeps what it
    acknowledges. After a save that reports success, whatever the key and the
    text and with or without a time to live, a read of that key that succeeds
    gives that text and so does the key's entry of a bulk read; any other key,
    of this or another store, reads as before, however alike the two look; and
    a key without a value reads as the empty text or, when the sidecar says so
    with 204, is reported as an error. *)
Theorem state_roundtrip store k v ttl (w w1 : W) :
  contains_byte store "/" = false → SaveStateTTL BaseURL store k v ttl w = (Ok tt, w1) →
  (∀ r w2, GetState BaseURL store k w1 = (r, w2) → is_ok r = true → r = Ok v)
  ∧ (∀ ks m w2, k ∈ ks → GetBulkState BaseURL raw_text store ks w1 = (Ok m, w2) → m !! k = Some v)
  ∧ (∀ s j, (s, j) ≠ (store, k) → sv w1 s j = sv w s j)
  ∧ ∀ s j r w2, contains_byte s "/" = false → sv w1 s j = None → GetState BaseURL s j w1 = (r, w2) →
      r = Ok "" ∨ is_ok r = false.
Proof.
  intros Hst Hs. pose proof (save_state_law _ _ _ _ _ _ Hst Hs) as Hsv. split_and!.
  - intros r w2 Hg Hok. unfold GetState in Hg. destruct (sd_do _ w1) as [[resp|e] w3] eqn:Hd; [|by simplify_eq].
    apply get_state_law in Hd as [_ Hr]; [|done]. specialize (Hr resp eq_refl). rewrite Hsv, decide_True in Hr by done.
    destruct (dr_Code resp =? 404) eqn:H4; [apply Z.eqb_eq in H4; by rewrite H4 in Hr|].
    destruct (negb _) eqn:H2; [by simplify_eq|]. apply negb_false_iff, Z.eqb_eq in H2. rewrite H2 in Hr.
    destruct (dr_Body resp) as [b|e]; [|by simplify_eq]. destruct (Hr b eq_refl) as [Hj _]. rewrite Hj in Hg. by simplify_eq.
  - intros ks m w2 Hk Hg. apply bulk_read in Hg as [_ Hv]; [|done]. specialize (Hv m eq_refl k Hk).
    rewrite Hsv, decide_True in Hv by done. done.
  - intros s j Hne. rewrite Hsv, decide_False; [done|]. intros [-> ->]. done.
  - intros s j r w2 Hs2 Hnone Hg. unfold GetState in Hg. destruct (sd_do _ w1) as [[resp|e] w3] eqn:Hd; [|right; by simplify_eq].
    apply get_state_law in Hd as [_ Hr]; [|done]. specialize (Hr resp eq_refl). rewrite Hnone in Hr.
    destruct (dr_Code resp =? 404); [left; by simplify_eq|]. destruct (negb _) eqn:H2; [right; by simplify_eq|].
    apply negb_false_iff, Z.eqb_eq in H2. by rewrite H2 in Hr.
Qed.
End laws.

(** ** A sidecar in memory *)

Notation Memory := (gmap (string * string) json).

(** The value of the key that a path names. *)
Definition url_value (url : string) (m : Memory) : option json :=
  snd <$> head (filter (λ p, contains_byte p.1.1 "/" = false ∧ state_key_url "B" p.1.1 p.1.2 = url) (map_to_list m)).

Definition memory_body (j : json) : DaprBody := {| db_text := ""; db_json := Some j |}.

Definition memory_items (store : string) (l : list json) (m : Memory) : Memory :=
  foldl (λ m j, match j with
                | JObj f => match json_field "key" f, json_field "value" f with
                            | Some (JStr k), Some v => <[(store, k) := v]> m
                            | _, _ => m
                            end
                | _ => m
                end) m l.

Definition json_texts (l : list json) : list string := omap (λ j, match j with JStr k => Some k | _ => None end) l.

Definition bulk_entries (store : string) (ks : list string) (m : Memory) : list (string * json) :=
  omap (λ k, pair k <$> m !! (store, k)) (remove_dups ks).

Definition bulk_answer (l : list (string * json)) : json :=
  JArr ((λ e, JObj [("key", JStr e.1); ("data", e.2)]) <$> l).

Definition memory_post (rest : string) (body : json) (m : Memory) : result string DaprReply * Memory :=
  match cut_first "/" rest, body with
  | None, JArr l => (Ok {| dr_Code := 204; dr_Status := ""; dr_Body := Err "" |}, memory_items rest l m)
  | Some (store, _), JObj [(_, JArr ks)] =>
      (Ok {| dr_Code := 200; dr_Status := "";
             dr_Body := Ok (memory_body (bulk_answer (bulk_entries store (json_texts ks) m))) |}, m)
  | _, _ => (Err "", m)
  end.

#[export] Instance memory_sidecar : Sidecar Memory := {|
  sd_do call m :=
    match da_Body call, strip_prefix "B/v1.0/state/" (da_URL call) with
    | Some body, Some rest => memory_post rest body m
    | _, _ => match url_value (da_URL call) m with
              | Some j => (Ok {| dr_Code := 200; dr_Status := ""; dr_Body := Ok (memory_body j) |}, m)
              | None => (Ok {| dr_Code := 404; dr_Status := "404 Not Found"; dr_Body := Err "" |}, m)
              end
    end;
|}.

Lemma strip_state_url rest : strip_prefix "B/v1.0/state/" (state_url "B" rest) = Some rest.
Proof. unfold state_url. rewrite <- app_str_assoc. apply strip_prefix_app. Qed.

Lemma url_value_spec store k m : contains_byte store "/" = false →
  url_value (state_key_url "B" store k) m = m !! (store, k).
Proof.
  intros Hst. unfold url_value. destruct (filter _ _) as [|[p j] l] eqn:Hf.
  - simpl. symmetry. apply eq_None_not_Some. intros [j Hj%elem_of_map_to_list].
    apply (not_elem_of_nil ((store, k), j)). rewrite <- Hf. by apply list_elem_of_filter.
  - assert ((p, j) ∈ (p, j) :: l) as Hin by apply list_elem_of_here. rewrite <- Hf in Hin.
    apply list_elem_of_filter in Hin as [[Hs Hu] Hin%elem_of_map_to_list]. destruct p as [s k0]. simpl in *.
    apply state_key_url_inj in Hu as [-> ->]; [symmetry; exact Hin|done..].
Qed.

Lemma upsert_item store k v ttl m :
  memory_items store [state_item k v ttl] m = <[(store, k) := JStr v]> m.
Proof. unfold memory_items, state_item. simpl. by destruct (0 <? ttl). Qed.

Lemma entries_spec store ks m k d : (k, d) ∈ bulk_entries store ks m ↔ k ∈ ks ∧ m !! (store, k) = Some d.
Proof.
  unfold bulk_entries. rewrite list_elem_of_omap. setoid_rewrite elem_of_remove_dups. split.
  - intros (k'&Hk&He). apply fmap_Some in He as (j&Hj&[= -> ->]). done.
  - intros [Hk Hd]. exists k. split; [done|]. by rewrite Hd.
Qed.

Lemma entries_nodup store ks m : NoDup (bulk_entries store ks m).*1.
Proof.
  unfold bulk_entries. pose proof (NoDup_remove_dups ks) as Hnd. induction Hnd as [|k l Hk Hl IH]; [constructor|].
  csimpl. destruct (m !! (store, k)) as [d|]; [|done]. csimpl. constructor; [|done].
  intros ([k' d']&->&Hin)%list_elem_of_fmap. apply list_elem_of_omap in Hin as (j&Hj&He).
  apply fmap_Some in He as (?&_&[= -> _]). done.
Qed.

Lemma bulk_answer_decoded l :
  dec_list dec_item (bulk_answer l) = Some ((λ e, (e.1, Some e.2)) <$> l).
Proof. simpl. apply mapM_Some, Forall2_fmap, Forall_Forall2_diag, Forall_true. done. Qed.

#[export] Instance memory_sidecar_laws : SidecarLaws Memory "B" (λ _, "").
Proof.
  refine {| sv m s k := m !! (s, k) |}.
  - intros store k v ttl m r m' Hst. cbn [sd_do memory_sidecar post da_Body da_URL]. rewrite strip_state_url.
    unfold memory_post. rewrite cut_first_free by done. rewrite upsert_item. intros [= _ <-] _ s j.
    destruct (decide _) as [[-> ->]|Hne]; [by rewrite lookup_insert_eq|].
    rewrite lookup_insert_ne; [done|]. intros [= -> ->]. by apply Hne.
  - intros store k m r m' Hst. cbn [sd_do memory_sidecar get da_Body da_URL]. rewrite url_value_spec by done.
    destruct (m !! (store, k)) as [j|]; intros [= <- <-]; (split; [done|]); intros resp [= <-]; [|done].
    simpl. by intros b [= <-].
  - intros store ks m r m' Hst. cbn [sd_do memory_sidecar post da_Body da_URL].
    replace (state_url "B" store +:+ "/bulk") with (state_url "B" (store +:+ "/bulk"))
      by (unfold state_url; by rewrite !app_str_assoc).
    rewrite strip_state_url. unfold memory_post. rewrite cut_first_app by done.
    assert (json_texts (JStr <$> ks) = ks) as -> by (unfold json_texts; induction ks as [|k ks IH]; [done|]; csimpl; by rewrite IH).
    intros [= <- <-]. split; [done|]. intros resp b items [= <-] _ [= <-]. cbn [db_json memory_body mbind option_bind].
    rewrite bulk_answer_decoded. intros [= <-]. rewrite <- list_fmap_compose.
    change (fst ∘ (λ e : string * json, (e.1, Some e.2))) with (fst (A := string) (B := json)).
    split; [apply entries_nodup|]. intros k d Hk. rewrite list_elem_of_fmap. split.
    + intros ([k' d']&[= -> ->]&Hin). by apply entries_spec in Hin as [_ ?].
    + intros Hd. exists (k, d). split; [done|]. by apply entries_spec.
Defined.

Lemma state_roundtrip_witness :
  let m1 := (SaveStateTTL "B" "st" "a/b c" "v" Second (∅ : Memory)).2 in
  SaveStateTTL "B" "st" "a/b c" "v" Second (∅ : Memory) = (Ok tt, m1)
  ∧ (GetState "B" "st" "a/b c" m1).1 = Ok "v"
  ∧ ∀ r m2, GetState "B" "st" "a/b c" m1 = (r, m2) → is_ok r = true → r = Ok "v".
Proof.
  split; [vm_compute; reflexivity|]. split; [vm_compute; reflexivity|].
  refine (proj1 (state_roundtrip (W := Memory) "B" (λ _, "") "st" "a/b c" "v" Second ∅ _ eq_refl _)).
  vm_compute. reflexivity.
Defined.

(** ** Limits *)

(** A deletion the sidecar refused is reported as done. *)
Lemma refused_delete_succeeds {W} `{Sidecar W} Base store k (w w' : W) resp :
  sd_do (post (state_url Base store) (JArr [JObj [("key", JStr k); ("operation", JStr "delete")]])) w = (Ok resp, w') →
  DeleteState Base store k w = (Ok tt, w').
Proof. unfold DeleteState. by intros ->. Qed.

(** A missing key answered with 204 is an error of [GetState], and no value of
    [GetActorState]. *)
Lemma missing_key_204 {W} `{Sidecar W} Base store k (w w' : W) status body :
  sd_do (get (state_key_url Base store k)) w = (Ok {| dr_Code := 204; dr_Status := status; dr_Body := body |}, w') →
  GetState Base store k w = (Err ("dapr get-state: " +:+ status), w').
Proof. unfold GetState. by intros ->. Qed.

(** ** The startup guard *)

Section guard.
Context {W : Type} `{HS : Sidecar W} (BaseURL : string) (now : W → Z) (sleep : Z → W → option string * W).
Context (call_clock : ∀ c w r w', sd_do c w = (r, w') → now w ≤ now w').
Context (sleep_clock : ∀ d w w', sleep d w = (None, w') → now w + d ≤ now w').

(** Every round that waits takes an interval off what is left. *)
Lemma wait_loop_ends n fuel deadline timeout interval (w : W) :
  0 < interval → deadline - now w < Z.of_nat n * interval → (n < fuel)%nat →
  is_Some (wait_loop BaseURL now sleep fuel deadline timeout interval w).
Proof.
  intros Hi. revert n w. induction fuel as [|fuel IH]; intros n w Hd Hf; [lia|]. cbn [wait_loop].
  unfold probeHealthz. destruct (sd_do _ w) as [[r|e] w1] eqn:Hc; [by eexists|]. apply call_clock in Hc.
  destruct (Z.ltb_spec deadline (now w1)) as [|Hle]; [by eexists|].
  destruct (sleep interval w1) as [[c|] w2] eqn:Hs; [by eexists|]. apply sleep_clock in Hs.
  destruct n as [|n]; [lia|]. apply (IH n); lia.
Qed.

(** The guard of a pod's start ends within its patience: one round for every
    interval of it and one more. It needs no sidecar where none is required,
    and refuses at once, without a call, where one is required and none was
    injected. *)
Lemma StartupGuard_ends getenv n fuel wait interval (w : W) :
  wait < Z.of_nat n * (if interval <=? 0 then Second else interval) → (n < fuel)%nat →
  is_Some (StartupGuard BaseURL now sleep getenv fuel wait interval w)
  ∧ (Required getenv = false → StartupGuard BaseURL now sleep getenv fuel wait interval w = Some (Ok tt, w))
  ∧ (Required getenv = true → Injected getenv = false →
       StartupGuard BaseURL now sleep getenv fuel wait interval w = Some (Err ErrSidecarMissing, w)).
Proof.
  intros Hw Hf. unfold StartupGuard. split_and!.
  - destruct (Required getenv); [|by eexists]. destruct (Injected getenv); [|by eexists].
    apply (wait_loop_ends n); [|lia|done]. destruct (Z.leb_spec interval 0); [done|lia].
  - by intros ->.
  - by intros -> ->.
Qed.
End guard.
