(* ===== verification/AgentSession.v ===== *)
(** * The transcript of an agent's session ([internal/agent]: session.go, usage.go;
      the environment boundary of rpc.go; the feedback text of agent.go)

    What a turn leaves behind: the response, the tool calls with their results,
    the tokens, the ledger of the tool budget; how each is read off the raw
    events of pi; the environment a child process may see. *)

From S2P Require Import Prelude GoStrings Json.

(** A [float64], of which the source only uses the sum, the test for a positive
    value and the printing with four decimals. *)
Class Float64 (F : Type) := {
  f_zero : F;
  f_add : F → F → F;
  f_json : json → option F;
  f_fixed4 : F → string;
}.

(** ** Tokens ([usage.go]) *)

Record Usage (F : Type) := {
  us_Input : Z; us_Output : Z; us_CacheRead : Z; us_CacheWrite : Z; us_Cost : F;
}.
Arguments us_Input {F} _.
Arguments us_Output {F} _.
Arguments us_CacheRead {F} _.
Arguments us_CacheWrite {F} _.
Arguments us_Cost {F} _.

(** ** Transcript types ([session.go]) *)

Record ToolCall := {
  tl_Name : string; tl_Args : gmap string json; tl_Success : option bool; tl_Result : string;
  tl_Details : option (gmap string json);
}.

Record GateVerdict := { gr_Green : bool; gr_Output : string }.

Record BudgetStats := { bs_Executed : Z; bs_Blocked : Z; bs_Nudged : bool }.

Record TurnRecord (F : Type) := {
  tn_Label : string; tn_Prompt : string; tn_Response : string; tn_Tools : list ToolCall;
  tn_Usage : Usage F; tn_Gate : option GateVerdict; tn_Budget : option BudgetStats;
}.
Arguments tn_Label {F} _.
Arguments tn_Prompt {F} _.
Arguments tn_Response {F} _.
Arguments tn_Tools {F} _.
Arguments tn_Usage {F} _.
Arguments tn_Gate {F} _.
Arguments tn_Budget {F} _.

Record SessionRecord (F : Type) := {
  sn_Workflow : string; sn_RunID : string; sn_Model : string; sn_Skill : string;
  sn_StartedAt : Z; sn_EndedAt : Z; sn_Green : bool; sn_Turns : list (TurnRecord F); sn_TotalUsage : Usage F;
}.
Arguments sn_Workflow {F} _.
Arguments sn_RunID {F} _.
Arguments sn_Model {F} _.
Arguments sn_Skill {F} _.
Arguments sn_StartedAt {F} _.
Arguments sn_EndedAt {F} _.
Arguments sn_Green {F} _.
Arguments sn_Turns {F} _.
Arguments sn_TotalUsage {F} _.

Record TurnCapture := {
  cp_Response : string; cp_Tools : list ToolCall; cp_ExtensionErrors : Z; cp_AssistantMessageEnd : bool;
}.

Definition no_capture : TurnCapture :=
  {| cp_Response := ""; cp_Tools := []; cp_ExtensionErrors := 0; cp_AssistantMessageEnd := false |}.

Record SessionMeta := { sm_Workflow : string; sm_RunID : string; sm_Model : string; sm_Skill : string }.

(** ** The tool budget *)

Definition budgetBlockMarker : string := "Tool budget exhausted".
Definition budgetNudgeMarker : string := "Budget checkpoint:".

Definition isBudgetVeto (result : string) : bool :=
  str_contains result budgetBlockMarker || str_contains result budgetNudgeMarker.

Definition count_call (st : BudgetStats) (tc : ToolCall) : BudgetStats :=
  if isBudgetVeto (tl_Result tc) then
    {| bs_Executed := bs_Executed st; bs_Blocked := bs_Blocked st + 1;
       bs_Nudged := bs_Nudged st || str_contains (tl_Result tc) budgetNudgeMarker |}
  else {| bs_Executed := bs_Executed st + 1; bs_Blocked := bs_Blocked st; bs_Nudged := bs_Nudged st |}.

Definition budgetStats (tools : list ToolCall) : option BudgetStats :=
  match tools with
  | [] => None
  | _ => Some (foldl count_call {| bs_Executed := 0; bs_Blocked := 0; bs_Nudged := false |} tools)
  end.

(** ** Reading the raw events *)

(** A [map[string]any]: nil for [null] or no key. *)
Definition dec_map : Decoder (option (gmap string json)) := λ j,
  match j with
  | JObj l => Some (Some (list_to_map (reverse l)))
  | JNull => Some None
  | _ => None
  end.

(** A block of a message's content. *)
Definition dec_block : Decoder (string * string) :=
  dec_struct (λ o, t ← field "type" dec_string o; x ← field "text" dec_string o; Some (t, x)).

Definition text_block (b : string * string) : option string :=
  if decide (b.1 = "text" ∧ b.2 ≠ "") then Some b.2 else None.

Definition dec_message_content : Decoder (string * list (string * string)) :=
  dec_struct (field "message" (dec_struct (λ o,
    r ← field "role" dec_string o; c ← field "content" (dec_list dec_block) o; Some (r, c)))).

Definition messageEndContent (raw : json) : string :=
  match dec_message_content raw with
  | Some (role, content) =>
      if decide (role = "assistant") then join (String "010" "") (omap text_block content) else ""
  | None => ""
  end.

(** The [json.RawMessage] of a key: [None] when the key is absent. *)
Definition raw_field (name : string) (raw : json) : option (option json) :=
  match raw with
  | JObj o => Some (json_field name o)
  | JNull => Some None
  | _ => None
  end.

Definition toolEndDetails (raw : json) : option (gmap string json) :=
  match raw_field "result" raw with
  | Some (Some result) => default None (dec_struct (field "details" dec_map) result)
  | _ => None
  end.

Section session.
Context {F : Type} `{Float64 F}.
Context (json_indent : json → string).

Definition no_usage : Usage F :=
  {| us_Input := 0; us_Output := 0; us_CacheRead := 0; us_CacheWrite := 0; us_Cost := f_zero |}.

Definition usage_add (u o : Usage F) : Usage F :=
  {| us_Input := i64 (us_Input u + us_Input o); us_Output := i64 (us_Output u + us_Output o);
     us_CacheRead := i64 (us_CacheRead u + us_CacheRead o);
     us_CacheWrite := i64 (us_CacheWrite u + us_CacheWrite o);
     us_Cost := f_add (us_Cost u) (us_Cost o) |}.

Definition usage_Total (u : Usage F) : Z :=
  i64 (us_Input u + us_Output u + us_CacheRead u + us_CacheWrite u).

Definition usage_String (u : Usage F) : string :=
  pretty (us_Input u) +:+ " in / " +:+ pretty (us_Output u) +:+ " out / "
  +:+ pretty (i64 (us_CacheRead u + us_CacheWrite u)) +:+ " cache / $" +:+ f_fixed4 (us_Cost u).

Definition dec_float : Decoder F := λ j, match j with JNull => Some f_zero | _ => f_json j end.

(** [{input, output, cacheRead, cacheWrite, cost: {total}}]; no cost is zero. *)
Definition dec_usage : Decoder (Usage F) :=
  dec_struct (λ o,
    i ← field "input" dec_int o; t ← field "output" dec_int o;
    r ← field "cacheRead" dec_int o; c ← field "cacheWrite" dec_int o;
    m ← field "cost" (dec_struct (field "total" dec_float)) o;
    Some {| us_Input := i; us_Output := t; us_CacheRead := r; us_CacheWrite := c; us_Cost := m |}).

Definition dec_message_usage : Decoder (string * Usage F) :=
  dec_struct (field "message" (dec_struct (λ o,
    r ← field "role" dec_string o; u ← field "usage" dec_usage o; Some (r, u)))).

Definition messageEndUsage (raw : json) : option (Usage F) :=
  match dec_message_usage raw with
  | Some (role, u) =>
      if decide (role ≠ "assistant") then None
      else if (us_Input u =? 0) && (us_Output u =? 0) then None else Some u
  | None => None
  end.

(** The result as text, and whether the tool failed. *)
Definition toolEndResult (raw : json) : string * bool :=
  match raw_field "result" raw, dec_struct (field "isError" dec_bool) raw with
  | Some result, Some isError =>
      (match result with
       | None | Some JNull => ""
       | Some (JStr s) => s
       | Some v => json_indent v
       end, isError)
  | _, _ => ("", false)
  end.
End session.

(** ** The environment of a child ([FilterEnv], [ChildEnv]) *)

Definition BotTokenEnvKey : string := "HARMOSTES_FORGEJO_BOT_TOKEN".
Definition BotHostEnvKey : string := "HARMOSTES_FORGEJO_BOT_HOST".

(** Is the entry [KEY=...] for one of the keys? *)
Definition env_of (keys : list string) (kv : string) : bool :=
  match cut_first "=" kv with Some (k, _) => bool_decide (k ∈ keys) | None => false end.

Definition FilterEnv (env keys : list string) : list string := filter (λ kv, env_of keys kv = false) env.

Definition ChildEnv (env : list string) : list string := FilterEnv env [BotTokenEnvKey; BotHostEnvKey].

(** ** The message after a failed gate *)

Definition lastLines (s : string) (n : nat) : string :=
  let lines := split_byte "010" (TrimSpace s) in
  join (String "010" "") (if decide (length lines ≤ n)%nat then lines else drop (length lines - n) lines).

Definition newline : string := String "010" "".

Definition buildFeedback (gateOutput : string) (attempt : Z) : string :=
  "The validation gate just failed (attempt " +:+ pretty attempt +:+ "). Output:" +:+ newline +:+ newline
  +:+ lastLines gateOutput 25 +:+ newline +:+ newline
  +:+ "Fix it — you are still in the same working directory on the same branch. Adapt" +:+ newline
  +:+ "your work to its target's current shape; do not drop what you intended. Then" +:+ newline
  +:+ "stop; do not merge, open pull requests, or run further validation. The gate" +:+ newline
  +:+ "will re-run.".

(** ** Facts *)

(** What crosses the boundary: the entries for other keys, in order. *)
Lemma FilterEnv_spec env keys kv :
  kv ∈ FilterEnv env keys ↔ kv ∈ env ∧ ∀ k v, k ∈ keys → contains_byte k "=" = false → kv ≠ k +:+ String "=" v.
Proof.
  unfold FilterEnv. rewrite list_elem_of_filter. unfold env_of. split.
  - intros [Hf Hin]. split; [done|]. intros k v Hk Hn ->. rewrite cut_first_app in Hf by done.
    by apply bool_decide_eq_false in Hf.
  - intros [Hin Hk]. split; [|done]. destruct (cut_first "=" kv) as [[k v]|] eqn:Hc; [|done].
    apply cut_first_spec in Hc as [-> Hn]. apply bool_decide_eq_false. intros Hin'. by apply (Hk k v).
Qed.

Lemma ChildEnv_idem env : ChildEnv (ChildEnv env) = ChildEnv env.
Proof.
  unfold ChildEnv, FilterEnv. generalize [BotTokenEnvKey; BotHostEnvKey]. intros keys.
  induction env as [|kv env IH]; [done|]. rewrite filter_cons. destruct (decide _) as [He|]; [|done].
  rewrite filter_cons, decide_True by done. by rewrite IH.
Qed.

Lemma budget_counts tools st :
  bs_Executed (foldl count_call st tools) + bs_Blocked (foldl count_call st tools)
  = bs_Executed st + bs_Blocked st + Z.of_nat (length tools).
Proof.
  revert st. induction tools as [|tc tools IH]; intros st; [simpl; lia|]. cbn [foldl length]. rewrite IH.
  unfold count_call. destruct (isBudgetVeto _); simpl; lia.
Qed.
