(* ===== verification/AgentRPC.v ===== *)
(** * The session with the model process ([internal/agent/rpc.go],
      [internal/pijsonl/types.go])

    One process, many prompts: what is spawned and with which arguments, how its
    lines become events, how the events of a turn become a capture, and how the
    snapshots of the conversation are accounted once.

    What the select of a prompt receives is a list, in order: events, the close
    of the stream, or the end of the context; a prompt that has read all of it
    ends with its context, which is the only thing left that can end it. *)

From S2P Require Import Prelude GoStrings GoPath Json AgentSession.

(** ** Events ([types.go]) *)

Record Event := {
  ev_Type : string; ev_ToolName : string; ev_Args : gmap string json; ev_Message : string;
  ev_Success : option bool; ev_Raw : json;
}.

Definition log_event (type tool message : string) : Event :=
  {| ev_Type := type; ev_ToolName := tool; ev_Args := ∅; ev_Message := message; ev_Success := None; ev_Raw := JNull |}.
Definition no_event : Event := log_event "" "" "".

Definition CmdPrompt : string := "prompt".
Definition CmdAbort : string := "abort".
Definition EvToolStart : string := "tool_execution_start".
Definition EvToolEnd : string := "tool_execution_end".
Definition EvAgentEnd : string := "agent_end".

Definition prompt_command (message : string) : json :=
  JObj [("type", JStr CmdPrompt); ("message", JStr message)].
Definition abort_command : json := JObj [("type", JStr CmdAbort)].

Definition dec_opt_bool : Decoder (option bool) := λ j,
  match j with JNull => Some None | _ => Some <$> dec_bool j end.

(** [Event.UnmarshalJSON]: a message that is no string is left out. *)
Definition dec_event : Decoder Event := λ j,
  dec_struct (λ o,
    t ← field "type" dec_string o; n ← field "toolName" dec_string o;
    a ← field "args" dec_map o; s ← field "success" dec_opt_bool o;
    Some {| ev_Type := t; ev_ToolName := n; ev_Args := default ∅ a;
            ev_Message := match json_field "message" o with Some (JStr m) => m | _ => "" end;
            ev_Success := s; ev_Raw := j |}) j.

(** ** Messages of a snapshot *)

Record EndMessage (F : Type) := {
  em_Role : string; em_Usage : option (Usage F); em_Content : list (string * string);
}.
Arguments em_Role {F} _.
Arguments em_Usage {F} _.
Arguments em_Content {F} _.

(** ** A rig tool's structured refusal *)

Definition rigRefused (details : option (gmap string json)) : option string :=
  match details ≫= lookup "refused" with
  | Some (JBool true) =>
      Some (match details ≫= lookup "sha_state" with Some (JStr s) => s | _ => "" end)
  | _ => None
  end.

Inductive Received :=
| Arrives (ev : Event)
| StreamClosed
| Cancelled (err : string).

Record PromptState (F : Type) := {
  ps_tools : Z; ps_usage : Usage F; ps_last : Event; ps_capture : TurnCapture;
  (** the sessions' count of accounted messages, and what was logged *)
  ps_seen : nat; ps_log : list Event;
}.
Arguments ps_tools {F} _.
Arguments ps_usage {F} _.
Arguments ps_last {F} _.
Arguments ps_capture {F} _.
Arguments ps_seen {F} _.
Arguments ps_log {F} _.

Definition set_response (s : string) (c : TurnCapture) : TurnCapture :=
  {| cp_Response := s; cp_Tools := cp_Tools c; cp_ExtensionErrors := cp_ExtensionErrors c;
     cp_AssistantMessageEnd := cp_AssistantMessageEnd c |}.
Definition set_tools (l : list ToolCall) (c : TurnCapture) : TurnCapture :=
  {| cp_Response := cp_Response c; cp_Tools := l; cp_ExtensionErrors := cp_ExtensionErrors c;
     cp_AssistantMessageEnd := cp_AssistantMessageEnd c |}.
Definition note_message_end (c : TurnCapture) : TurnCapture :=
  {| cp_Response := cp_Response c; cp_Tools := cp_Tools c; cp_ExtensionErrors := cp_ExtensionErrors c;
     cp_AssistantMessageEnd := true |}.
Definition note_extension_error (c : TurnCapture) : TurnCapture :=
  {| cp_Response := cp_Response c; cp_Tools := cp_Tools c; cp_ExtensionErrors := cp_ExtensionErrors c + 1;
     cp_AssistantMessageEnd := cp_AssistantMessageEnd c |}.

Section rpc.
Context {F : Type} `{Float64 F}.
Context (json_indent : json → string) (parse_json : string → option json).

(** ** Lines to events *)

Definition parseEvent (line : string) : result string Event :=
  let line := TrimSpace line in
  if decide (line = "") then Err "blank line"
  else match parse_json line ≫= dec_event with
       | None => Err "json"
       | Some ev => if decide (ev_Type ev = "") then Err "event has no type" else Ok ev
       end.

(** What the reader forwards of a stream, up to its end. *)
Definition readLoop (lines : list string) : list Received :=
  omap (λ l, match parseEvent l with Ok ev => Some (Arrives ev) | Err _ => None end) lines ++ [StreamClosed].

(** ** The snapshot at the end of a turn *)

Definition dec_opt_usage : Decoder (option (Usage F)) := λ j,
  match j with JNull => Some None | _ => Some <$> dec_usage j end.

Definition dec_end_message : Decoder (EndMessage F) :=
  dec_struct (λ o,
    r ← field "role" dec_string o; u ← field "usage" dec_opt_usage o; c ← field "content" (dec_list dec_block) o;
    Some {| em_Role := r; em_Usage := u; em_Content := c |}).

Definition dec_snapshot : Decoder (list (EndMessage F)) := dec_struct (field "messages" (dec_list dec_end_message)).

Definition message_tokens (m : EndMessage F) : option (Usage F) :=
  if decide (em_Role m = "assistant") then em_Usage m else None.

(** The text of the last assistant message that has one. *)
Fixpoint last_text (l : list (EndMessage F)) : string :=
  match l with
  | [] => ""
  | m :: l =>
      let later := last_text l in
      if decide (later ≠ "") then later
      else if decide (em_Role m = "assistant") then default "" (head (omap text_block (em_Content m))) else ""
  end.

(** The watermark a snapshot of that length is read from. *)
Definition watermark (seen : nat) (ms : list (EndMessage F)) : nat :=
  if decide (length ms < seen)%nat then 0%nat else seen.

(** The messages of the snapshot that belong to this turn. *)
Definition fresh (seen : nat) (ms : list (EndMessage F)) : list (EndMessage F) := drop (watermark seen ms) ms.

Definition absorbAgentEnd (raw : json) (s : PromptState F) : PromptState F :=
  match dec_snapshot raw with
  | None =>
      {| ps_tools := ps_tools s; ps_usage := ps_usage s; ps_last := ps_last s; ps_capture := ps_capture s;
         ps_seen := ps_seen s; ps_log := ps_log s ++ [log_event "agent_end_unparsable" "" "json"] |}
  | Some ms =>
      match fresh (ps_seen s) ms with
      | [] =>
          {| ps_tools := ps_tools s; ps_usage := ps_usage s; ps_last := ps_last s; ps_capture := ps_capture s;
             ps_seen := watermark (ps_seen s) ms; ps_log := ps_log s |}
      | turn =>
          {| ps_tools := ps_tools s;
             ps_usage := if (us_Input (ps_usage s) =? 0) && (us_Output (ps_usage s) =? 0)
                         then foldl usage_add (ps_usage s) (omap message_tokens turn) else ps_usage s;
             ps_last := ps_last s;
             ps_capture := if decide (cp_Response (ps_capture s) = "")
                           then set_response (last_text turn) (ps_capture s) else ps_capture s;
             ps_seen := length ms; ps_log := ps_log s |}
      end
  end.

(** ** One turn *)

Definition logged (l : list Event) (s : PromptState F) : PromptState F :=
  {| ps_tools := ps_tools s; ps_usage := ps_usage s; ps_last := ps_last s; ps_capture := ps_capture s;
     ps_seen := ps_seen s; ps_log := ps_log s ++ l |}.
Definition with_capture (c : TurnCapture) (s : PromptState F) : PromptState F :=
  {| ps_tools := ps_tools s; ps_usage := ps_usage s; ps_last := ps_last s; ps_capture := c;
     ps_seen := ps_seen s; ps_log := ps_log s |}.

Definition on_message_end (ev : Event) (s : PromptState F) : PromptState F :=
  let c := note_message_end (ps_capture s) in
  let text := messageEndContent (ev_Raw ev) in
  {| ps_tools := ps_tools s;
     ps_usage := match messageEndUsage (ev_Raw ev) with Some u => usage_add (ps_usage s) u | None => ps_usage s end;
     ps_last := ps_last s; ps_capture := if decide (text ≠ "") then set_response text c else c;
     ps_seen := ps_seen s; ps_log := ps_log s |}.

Definition dec_extension_error : Decoder (string * string * string) :=
  dec_struct (λ o, p ← field "extensionPath" dec_string o; e ← field "event" dec_string o;
                   x ← field "error" dec_string o; Some (p, e, x)).

Definition on_extension_error (ev : Event) (s : PromptState F) : PromptState F :=
  let '(path, handler, err) := default ("", "", "") (dec_extension_error (ev_Raw ev)) in
  logged [log_event "extension_degraded" path ("handler=" +:+ handler +:+ " error=" +:+ err)]
    (with_capture (note_extension_error (ps_capture s)) s).

Definition on_tool_start (ev : Event) (s : PromptState F) : PromptState F :=
  let c := ps_capture s in
  {| ps_tools := ps_tools s + 1; ps_usage := ps_usage s; ps_last := ps_last s;
     ps_capture := set_tools (cp_Tools c ++ [{| tl_Name := ev_ToolName ev; tl_Args := ev_Args ev;
       tl_Success := None; tl_Result := ""; tl_Details := None |}]) c;
     ps_seen := ps_seen s; ps_log := ps_log s |}.

Definition finish_call (ev : Event) (t : ToolCall) : ToolCall :=
  let '(result, isErr) := toolEndResult json_indent (ev_Raw ev) in
  {| tl_Name := tl_Name t; tl_Args := tl_Args t; tl_Success := Some (negb isErr); tl_Result := result;
     tl_Details := toolEndDetails (ev_Raw ev) |}.

Definition drift_message : string :=
  "rig tool result carries no refused key — incident telemetry is blind until the extension and worker agree again".

(** What the end of a call puts on record about a rig. *)
Definition rig_incidents (t : ToolCall) : list Event :=
  if decide (tl_Name t = "rig") then
    (if decide (is_Some (tl_Details t ≫= lookup "refused")) then [] else [log_event "rig_schema_drift" "" drift_message])
    ++ match rigRefused (tl_Details t) with
       | Some state => [log_event "rig_refused" "" ("graph refused, sha_state=" +:+ state)]
       | None => []
       end
  else [].

Definition on_tool_end (ev : Event) (s : PromptState F) : PromptState F :=
  let tools := cp_Tools (ps_capture s) in
  match last tools with
  | None => s
  | Some t =>
      let t := finish_call ev t in
      logged (rig_incidents t) (with_capture (set_tools (removelast tools ++ [t]) (ps_capture s)) s)
  end.

Definition received (ev : Event) (s : PromptState F) : PromptState F :=
  {| ps_tools := ps_tools s; ps_usage := ps_usage s; ps_last := ev; ps_capture := ps_capture s;
     ps_seen := ps_seen s; ps_log := ps_log s ++ [ev] |}.

Definition on_event (ev : Event) (s : PromptState F) : PromptState F :=
  let s := received ev s in
  if decide (ev_Type ev = "message_end") then on_message_end ev s
  else if decide (ev_Type ev = "extension_error") then on_extension_error ev s
  else if decide (ev_Type ev = EvToolStart) then on_tool_start ev s
  else if decide (ev_Type ev = EvToolEnd) then on_tool_end ev s
  else if decide (ev_Type ev = EvAgentEnd) then absorbAgentEnd (ev_Raw ev) s
  else s.

(** The loop of a prompt: the state it ends in, its error, what it left. *)
Fixpoint pump (inbox : list Received) (s : PromptState F) : PromptState F * option string * list Received :=
  match inbox with
  | [] => (s, Some "context canceled", [])
  | StreamClosed :: _ => (s, None, inbox)
  | Cancelled e :: _ => (s, Some e, inbox)
  | Arrives ev :: inbox =>
      let s := on_event ev s in
      if decide (ev_Type ev = EvAgentEnd) then (s, None, inbox) else pump inbox s
  end.

(** ** The process *)

(** What was written to its input and what waits to be read; [seen] and
    [closed] are the session's own. *)
Record Pi := {
  pi_sent : list json; pi_inbox : list Received; pi_seen : nat; pi_closed : bool; pi_log : list Event;
}.

(** [react sent] arrives after the last of [sent] was written; [broken sent] is
    the error of writing it. *)
Context (react : list json → list Received) (broken : list json → option string).

Definition sendNoLock (v : json) (p : Pi) : option string * Pi :=
  let sent := pi_sent p ++ [v] in
  match broken sent with
  | Some e => (Some e, p)
  | None => (None, {| pi_sent := sent; pi_inbox := pi_inbox p ++ react sent; pi_seen := pi_seen p;
                      pi_closed := pi_closed p; pi_log := pi_log p |})
  end.

Definition send (v : json) (p : Pi) : option string * Pi :=
  if pi_closed p then (Some "session closed", p) else sendNoLock v p.

Definition pi_logged (l : list Event) (p : Pi) : Pi :=
  {| pi_sent := pi_sent p; pi_inbox := pi_inbox p; pi_seen := pi_seen p; pi_closed := pi_closed p;
     pi_log := pi_log p ++ l |}.

Definition start_prompt (seen : nat) : PromptState F :=
  {| ps_tools := 0; ps_usage := no_usage; ps_last := no_event; ps_capture := no_capture;
     ps_seen := seen; ps_log := [] |}.

(** The event, the number of tool calls, the tokens, the capture, the error. *)
Definition Prompt (message label : string) (p : Pi)
    : Event * Z * Usage F * TurnCapture * option string * Pi :=
  let p := pi_logged [log_event "prompt" "" label] p in
  match send (prompt_command message) p with
  | (Some e, p) => (no_event, 0, no_usage, no_capture, Some e, p)
  | (None, p) =>
      let '(s, err, rest) := pump (pi_inbox p) (start_prompt (pi_seen p)) in
      (ps_last s, ps_tools s, ps_usage s, ps_capture s, err,
       {| pi_sent := pi_sent p; pi_inbox := rest; pi_seen := ps_seen s; pi_closed := pi_closed p;
          pi_log := pi_log p ++ ps_log s |})
  end.

(** Closing is done once; the command is sent as far as it can be. *)
Definition Abort_ (p : Pi) : Pi :=
  if pi_closed p then p
  else (sendNoLock abort_command
    {| pi_sent := pi_sent p; pi_inbox := pi_inbox p; pi_seen := pi_seen p; pi_closed := true; pi_log := pi_log p |}).2.
End rpc.

(** ** What is spawned ([NewRPC]) *)

Record RPCOptions := {
  ro_PiPath : string; ro_Args : list string; ro_Workdir : string; ro_Env : list string;
  ro_SessionRoot : string; ro_LineageDir : string; ro_SessionID : string;
}.

Record Spawn := { sp_Path : string; sp_Args : list string; sp_Dir : string; sp_Env : list string }.

(** The directory operations of the host: errors of [MkdirAll], the directory
    [MkdirTemp] makes; the clock in nanoseconds. *)
Class Host (W : Type) := {
  ho_MkdirAll : string → W → option string * W;
  ho_MkdirTemp : string → string → M W string string;
  ho_nanos : W → Z;
}.

Section spawn.
Context {W : Type} `{Host W}.

(** The arguments of the session, its directory, what is logged. *)
Definition session_args (opts : RPCOptions) (w : W) : list string * string * list Event * W :=
  if decide (ro_LineageDir opts ≠ "" ∧ ro_SessionID opts ≠ "") then
    match ho_MkdirAll (ro_LineageDir opts) w with
    | (Some e, w) => (["--no-session"], "", [log_event "session_dir_error" "" e], w)
    | (None, w) => (["--session-dir"; ro_LineageDir opts; "--session-id"; ro_SessionID opts], ro_LineageDir opts, [], w)
    end
  else if decide (ro_SessionRoot opts ≠ "") then
    match ho_MkdirTemp (ro_SessionRoot opts) "run-" w with
    | (Err e, w) => (["--no-session"], "", [log_event "session_dir_error" "" e], w)
    | (Ok dir, w) => (["--session-dir"; dir; "--session-id"; "harmostes-" +:+ pretty (ho_nanos w)], dir, [], w)
    end
  else ([], "", [], w).

Definition NewRPC (opts : RPCOptions) (w : W) : Spawn * string * list Event * W :=
  let optout := if decide (ro_SessionRoot opts = "") then ["--no-session"] else [] in
  let '(sargs, dir, log, w) := session_args opts w in
  ({| sp_Path := if decide (ro_PiPath opts = "") then "pi" else ro_PiPath opts;
      sp_Args := ["--mode"; "rpc"] ++ ro_Args opts ++ optout ++ sargs;
      sp_Dir := ro_Workdir opts; sp_Env := ChildEnv (ro_Env opts) |}, dir, log, w).
End spawn.

(** Oldest first; the names carry the time. *)
Definition SessionFiles (glob : string → result string (list string)) (sessionDir : string) : list string :=
  if decide (sessionDir = "") then []
  else match glob (Join sessionDir "*.jsonl") with
       | Ok matches => merge_sort String.le matches
       | Err _ => []
       end.

(** ** The error stream, line by line ([lineLogWriter]) *)

Fixpoint drain_lines (fuel : nat) (buf : string) (log : list Event) : string * list Event :=
  match fuel with
  | O => (buf, log)
  | S fuel =>
      match cut_first "010" buf with
      | None => (buf, log)
      | Some (l, rest) =>
          let line := TrimSpace l in
          drain_lines fuel rest (if decide (line ≠ "") then log ++ [log_event "_pi_log" "" line] else log)
      end
  end.

Definition log_Write (p : string) (s : string * list Event) : string * list Event :=
  let buf := s.1 +:+ p in drain_lines (S (String.length buf)) buf s.2.
