(* ===== verification/AgentRPCProps.v ===== *)
(** * Properties of the model session: what a turn captures, what a snapshot
      counts, what a child may see *)

From S2P Require Import Prelude GoStrings Json AgentSession AgentRPC.

Section turns.
Context {F : Type} `{HF : Float64 F}.
Context (json_indent : json → string).
Notation EndMessage := (EndMessage F).
Notation PromptState := (PromptState F).

(** ** The loop of a prompt *)

Definition ends_turn (ev : Event) : bool := bool_decide (ev_Type ev = EvAgentEnd).

Lemma pump_app evs tail (s : PromptState) :
  Forall (λ ev, ends_turn ev = false) evs →
  pump json_indent ((Arrives <$> evs) ++ tail) s
  = pump json_indent tail (foldl (λ s ev, on_event json_indent ev s) s evs).
Proof.
  intros Hq. revert s. induction Hq as [|ev evs Hev _ IH]; intros s; csimpl; [done|].
  apply bool_decide_eq_false in Hev. rewrite decide_False by done. apply IH.
Qed.

(** A turn reads its events up to the first end of the agent and no further. *)
Lemma pump_turn evs e rest (s : PromptState) :
  Forall (λ ev, ends_turn ev = false) evs → ends_turn e = true →
  pump json_indent ((Arrives <$> evs) ++ Arrives e :: rest) s
  = (foldl (λ s ev, on_event json_indent ev s) s (evs ++ [e]), None, rest).
Proof.
  intros Hq He. rewrite pump_app, foldl_app by done. apply bool_decide_eq_true in He. simpl. by rewrite decide_True.
Qed.

(** ** Tool calls *)

Definition starts_call (ev : Event) : bool := bool_decide (ev_Type ev = EvToolStart).

Lemma absorb_keeps raw (s : PromptState) :
  ps_tools (absorbAgentEnd raw s) = ps_tools s
  ∧ cp_Tools (ps_capture (absorbAgentEnd raw s)) = cp_Tools (ps_capture s).
Proof.
  unfold absorbAgentEnd. destruct (dec_snapshot raw) as [ms|]; [|done].
  destruct (fresh (ps_seen s) ms); [done|]. simpl. split; [done|]. by destruct (decide _).
Qed.

Definition call_names (s : PromptState) : list string := tl_Name <$> cp_Tools (ps_capture s).

(** One event adds the call it starts, and no other renames one. *)
Lemma on_event_calls ev (s : PromptState) :
  call_names (on_event json_indent ev s) = call_names s ++ (if starts_call ev then [ev_ToolName ev] else [])
  ∧ ps_tools (on_event json_indent ev s) = ps_tools s + (if starts_call ev then 1 else 0).
Proof.
  unfold on_event, call_names, starts_call. destruct (decide (ev_Type ev = "message_end")) as [->|].
  { unfold on_message_end. cbn -[decide messageEndContent]. rewrite app_nil_r, Z.add_0_r. split; [|done]. by destruct (decide _). }
  destruct (decide (ev_Type ev = "extension_error")) as [->|].
  { unfold on_extension_error. destruct (default _ _) as [[p h] e]. simpl. by rewrite app_nil_r, Z.add_0_r. }
  destruct (decide (ev_Type ev = EvToolStart)) as [->|Hns].
  { unfold on_tool_start. simpl. rewrite fmap_app. done. }
  rewrite bool_decide_eq_false_2 by done. rewrite app_nil_r, Z.add_0_r.
  destruct (decide (ev_Type ev = EvToolEnd)).
  { unfold on_tool_end. destruct (last _) as [t|] eqn:Hl; [|done]. simpl. split; [|done].
    apply last_Some in Hl as [l Hl]. simpl in Hl. rewrite Hl, removelast_app by done. rewrite !fmap_app. simpl.
    rewrite app_nil_r. unfold finish_call. by destruct (toolEndResult _ _). }
  destruct (decide (ev_Type ev = EvAgentEnd)); [|done].
  destruct (absorb_keeps (ev_Raw ev) (received ev s)) as [-> ->]. done.
Qed.

Lemma fold_calls evs (s : PromptState) :
  let s' := foldl (λ s ev, on_event json_indent ev s) s evs in
  call_names s' = call_names s ++ (ev_ToolName <$> filter (λ ev, starts_call ev = true) evs)
  ∧ ps_tools s' = ps_tools s + Z.of_nat (length (filter (λ ev, starts_call ev = true) evs)).
Proof.
  cbv zeta. revert s. induction evs as [|ev evs IH]; intros s; [simpl; rewrite app_nil_r, Z.add_0_r; done|].
  cbn [foldl]. destruct (IH (on_event json_indent ev s)) as [-> ->]. destruct (on_event_calls ev s) as [-> ->].
  rewrite filter_cons. destruct (starts_call ev); [rewrite decide_True by done|rewrite decide_False by done].
  - csimpl. rewrite <- (assoc_L (++)). split; [done|lia].
  - rewrite app_nil_r. split; [done|lia].
Qed.

(** ** Snapshots of the conversation *)

(** The snapshots of a warm session, and the part of each that is its turn's. *)
Fixpoint slices (seen : nat) (snaps : list (list EndMessage)) : list (list EndMessage) :=
  match snaps with
  | [] => []
  | ms :: snaps => fresh seen ms :: slices (length ms) snaps
  end.

(** Every snapshot repeats the conversation so far. *)
Fixpoint growing (before : list EndMessage) (snaps : list (list EndMessage)) : Prop :=
  match snaps with
  | [] => True
  | ms :: snaps => (∃ new, ms = before ++ new) ∧ growing ms snaps
  end.

Lemma slices_partition before snaps :
  growing before snaps → before ++ concat (slices (length before) snaps) = default before (last snaps).
Proof.
  revert before. induction snaps as [|ms snaps IH]; intros before; [intros _; by rewrite app_nil_r|].
  intros [[new ->] Hg]. cbn [slices concat]. unfold fresh, watermark.
  rewrite decide_False by (rewrite length_app; lia). rewrite drop_app_length, (assoc_L (++)), (IH _ Hg).
  destruct snaps as [|m snaps]; [done|]. simpl. rewrite !last_cons. by destruct (last snaps).
Qed.

(** The part of each snapshot that is its turn's: what the turn appended, or,
    after a compaction that left fewer messages than were accounted, all of it. *)
Inductive turn_parts : list EndMessage → list (list EndMessage) → list (list EndMessage) → Prop :=
| parts_end before : turn_parts before [] []
| parts_grown before new snaps parts :
    turn_parts (before ++ new) snaps parts → turn_parts before ((before ++ new) :: snaps) (new :: parts)
| parts_compacted before ms snaps parts : (length ms < length before)%nat →
    turn_parts ms snaps parts → turn_parts before (ms :: snaps) (ms :: parts).

Lemma parts_slices before snaps parts : turn_parts before snaps parts → parts = slices (length before) snaps.
Proof.
  induction 1 as [|before new snaps parts _ ->|before ms snaps parts Hlt _ ->]; [done|..];
    cbn [slices]; f_equal; unfold fresh, watermark.
  - by rewrite decide_False, drop_app_length by (rewrite length_app; lia).
  - by rewrite decide_True.
Qed.

Lemma parts_cons before ms snaps parts :
  turn_parts before (ms :: snaps) parts → ∃ part parts', parts = part :: parts' ∧ turn_parts ms snaps parts'.
Proof. inversion 1 as [|b new sn pa Hp|b m sn pa _ Hp]; subst; [by exists new, pa|by exists ms, pa]. Qed.

Lemma growing_parts before snaps : growing before snaps → ∃ parts, turn_parts before snaps parts.
Proof.
  revert before. induction snaps as [|ms snaps IH]; intros before; [exists []; constructor|].
  intros [[new ->] Hg]. destruct (IH _ Hg) as [parts Hp]. exists (new :: parts). by constructor.
Qed.

(** The tokens the messages of a turn reported as they ended. *)
Definition reported (evs : list Event) : Usage F :=
  foldl usage_add no_usage (omap (λ ev, if decide (ev_Type ev = "message_end") then messageEndUsage (ev_Raw ev) else None) evs).

Lemma on_event_usage ev (s : PromptState) : ends_turn ev = false →
  ps_usage (on_event json_indent ev s)
    = match (if decide (ev_Type ev = "message_end") then messageEndUsage (ev_Raw ev) else None) with
      | Some u => usage_add (ps_usage s) u | None => ps_usage s end
  ∧ ps_seen (on_event json_indent ev s) = ps_seen s.
Proof.
  intros He. apply bool_decide_eq_false in He. unfold on_event.
  destruct (decide (ev_Type ev = "message_end")); [done|]. destruct (decide (ev_Type ev = "extension_error")).
  { unfold on_extension_error. destruct (default _ _) as [[p h] x]. done. }
  destruct (decide _); [done|]. destruct (decide _); [|by rewrite decide_False].
  unfold on_tool_end. by destruct (last _).
Qed.

Lemma fold_usage evs (s : PromptState) :
  Forall (λ ev, ends_turn ev = false) evs →
  let s' := foldl (λ s ev, on_event json_indent ev s) s evs in
  ps_usage s' = foldl usage_add (ps_usage s)
    (omap (λ ev, if decide (ev_Type ev = "message_end") then messageEndUsage (ev_Raw ev) else None) evs)
  ∧ ps_seen s' = ps_seen s.
Proof.
  cbv zeta. intros Hq. revert s. induction Hq as [|ev evs Hev _ IH]; intros s; [done|]. cbn [foldl].
  destruct (IH (on_event json_indent ev s)) as [-> ->]. destruct (on_event_usage ev s Hev) as [-> ->].
  cbn [omap list_omap]. by destruct (if decide _ then _ else _).
Qed.

(** What a turn reports: the tokens of its own messages, when they reported any
    that went in or out; the tokens of the assistant's messages of its part of
    the snapshot, on top, only when they did not. *)
Definition turn_total (evs : list Event) (part : list EndMessage) : Usage F :=
  if decide (us_Input (reported evs) = 0 ∧ us_Output (reported evs) = 0)
  then foldl usage_add (reported evs) (omap (λ m, if decide (em_Role m = "assistant") then em_Usage m else None) part)
  else reported evs.

(** The tokens the turns of a warm session report: events of a turn, then the
    end of the agent with its snapshot. *)
Fixpoint session_tokens (seen : nat) (turns : list (list Event * Event)) : list (Usage F) * nat :=
  match turns with
  | [] => ([], seen)
  | (evs, e) :: turns =>
      let s := (pump json_indent ((Arrives <$> evs) ++ [Arrives e]) (start_prompt seen)).1.1 in
      let '(l, seen) := session_tokens (ps_seen s) turns in (ps_usage s :: l, seen)
  end.

(** A turn: its events, up to the end of the agent with its snapshot. *)
Definition snapshot_turn (t : list Event * Event) (ms : list EndMessage) : Prop :=
  Forall (λ ev, ends_turn ev = false) t.1 ∧ ends_turn t.2 = true ∧ dec_snapshot (ev_Raw t.2) = Some ms.

Lemma turn_tokens evs e seen ms :
  snapshot_turn (evs, e) ms →
  let s := (pump json_indent ((Arrives <$> evs) ++ [Arrives e]) (start_prompt seen)).1.1 in
  ps_usage s = turn_total evs (fresh seen ms) ∧ ps_seen s = length ms.
Proof.
  intros (Hq&He&Hs). cbn [fst snd] in *. rewrite pump_turn by done.
  cbn [fst]. rewrite foldl_app. cbn [foldl]. destruct (fold_usage evs (start_prompt seen) Hq) as [Hu Hn].
  set (s := foldl (λ s ev, on_event json_indent ev s) _ evs) in *. change (ps_usage s = reported evs) in Hu.
  apply bool_decide_eq_true in He. unfold on_event. rewrite He.
  do 4 (rewrite decide_False by done). rewrite decide_True by done. unfold absorbAgentEnd.
  change (ps_seen (received e s)) with (ps_seen s). change (ps_usage (received e s)) with (ps_usage s).
  rewrite Hs, Hn, Hu. cbn [ps_seen start_prompt]. unfold turn_total.
  destruct (fresh seen ms) as [|m l] eqn:Hf; cbn [ps_usage ps_seen received]; rewrite ?Hu.
  - split; [by destruct (decide _)|]. unfold fresh in Hf. apply (f_equal length) in Hf. rewrite length_drop in Hf.
    unfold watermark in *. case_decide; simpl in Hf; lia.
  - split; [|done]. destruct (decide _) as [[Hi Ho]|Hno].
    + by rewrite Hi, Ho.
    + destruct ((us_Input (reported evs) =? 0) && (us_Output (reported evs) =? 0)) eqn:Hz; [|done].
      apply andb_true_iff in Hz as [Hi%Z.eqb_eq Ho%Z.eqb_eq]. by destruct Hno.
Qed.

(** C31. A warm session accounts its conversation once. Whatever events its turns
    bring, each ending in a snapshot of the conversation, a turn reports the
    tokens of the messages that ended in it when those brought any, and the
    snapshot adds nothing to them; else exactly the tokens of the assistant
    messages of its part of the snapshot. The part is what the turn appended to
    the conversation or, when a compaction left it shorter than what was
    accounted, all that is left; in a session without compactions the parts are
    the whole conversation, in order, each message in one turn. *)
Theorem snapshots_counted_once turns snaps parts :
  Forall2 snapshot_turn turns snaps → turn_parts [] snaps parts →
  (session_tokens 0 turns).1 = zip_with turn_total turns.*1 parts
  ∧ (session_tokens 0 turns).2 = length (default [] (last snaps))
  ∧ (growing [] snaps → concat parts = default [] (last snaps)).
Proof.
  intros Ht Hp.
  assert (∀ before, turn_parts before snaps parts →
    (session_tokens (length before) turns).1 = zip_with turn_total turns.*1 parts
    ∧ (session_tokens (length before) turns).2 = length (default before (last snaps))) as Hall.
  { clear Hp. revert parts. induction Ht as [|[evs e] ms turns snaps Hturn _ IH]; intros parts before Hp; [by inversion Hp|].
    pose proof (parts_slices _ _ _ Hp) as Hsl. apply parts_cons in Hp as (part&parts'&->&Hp').
    cbn [slices] in Hsl. injection Hsl as -> _.
    cbn [session_tokens]. destruct (turn_tokens evs e (length before) _ Hturn) as [Hu Hs].
    rewrite Hs. specialize (IH _ _ Hp'). destruct (session_tokens (length ms) turns) as [l seen]. destruct IH as [Hl Hn].
    cbn [fst snd] in *. split; [by rewrite Hl, Hu|]. rewrite last_cons, Hn. by destruct (last snaps). }
  destruct (Hall [] Hp) as [H1 H2]. split_and!; [done..|]. intros Hg.
  apply parts_slices in Hp as ->. exact (slices_partition [] snaps Hg).
Qed.

(** A prompt reads its turn and no more. On an open session whose command
    could be written, whatever events come before the end of the turn, the
    calls captured are those pi announced, in their order, and as many as are
    reported; the command is the one thing written; what arrived after the end
    stays for the next prompt. The prompt fails exactly when the context ended
    first: a stream that closed early is no failure. *)
Theorem Prompt_reads_turn react broken message label (p : Pi) evs tail :
  pi_closed p = false → broken (pi_sent p ++ [prompt_command message]) = None →
  pi_inbox p ++ react (pi_sent p ++ [prompt_command message]) = (Arrives <$> evs) ++ tail →
  Forall (λ ev, ends_turn ev = false) evs →
  match tail with Arrives e :: _ => ends_turn e = true | _ => True end →
  let '(_, tools, _, capture, err, p') := Prompt (F := F) json_indent react broken message label p in
  tl_Name <$> cp_Tools capture = ev_ToolName <$> filter (λ ev, starts_call ev = true) evs
  ∧ tools = Z.of_nat (length (cp_Tools capture))
  ∧ pi_sent p' = pi_sent p ++ [prompt_command message] ∧ pi_closed p' = false
  ∧ pi_inbox p' = match tail with Arrives _ :: rest => rest | _ => tail end
  ∧ (err = None ↔ ∃ t, tail = StreamClosed :: t ∨ ∃ e, tail = Arrives e :: t).
Proof.
  intros Hopen Hw Hin Hq Ht. unfold Prompt, send, sendNoLock. cbn [pi_logged pi_closed pi_sent pi_inbox pi_seen].
  rewrite Hopen, Hw. cbn [pi_inbox]. rewrite Hin.
  assert (∃ s, pump json_indent ((Arrives <$> evs) ++ tail) (start_prompt (F := F) (pi_seen p))
      = (s, match tail with Arrives _ :: _ | StreamClosed :: _ => None | Cancelled x :: _ => Some x
                          | [] => Some "context canceled" end,
         match tail with Arrives _ :: rest => rest | _ => tail end)
    ∧ call_names s = ev_ToolName <$> filter (λ ev, starts_call ev = true) evs
    ∧ ps_tools s = Z.of_nat (length (filter (λ ev, starts_call ev = true) evs))) as (s&Hpump&Hn&Hc).
  { destruct (fold_calls evs (start_prompt (F := F) (pi_seen p))) as [Hn Hc]. cbn [call_names] in Hn.
    change (call_names (start_prompt (F := F) (pi_seen p))) with (@nil string) in Hn.
    change (ps_tools (start_prompt (F := F) (pi_seen p))) with 0 in Hc. rewrite Z.add_0_l in Hc.
    destruct tail as [|[e| |x] rest]; [rewrite pump_app by done; by eexists|rewrite pump_turn by done
      |rewrite pump_app by done; by eexists..].
    eexists. split; [done|]. rewrite foldl_app. cbn [foldl].
    match goal with |- call_names (on_event _ e ?s) = _ ∧ _ => destruct (on_event_calls e s) as [-> ->] end.
    apply bool_decide_eq_true in Ht. assert (starts_call e = false) as -> by (unfold starts_call; by rewrite Ht).
    by rewrite Hn, Hc, app_nil_r, Z.add_0_r. }
  cbn [pi_seen pi_sent pi_closed pi_log]. rewrite Hpump. cbn [pi_sent pi_inbox pi_closed]. split_and!.
  - exact Hn.
  - rewrite Hc. f_equal. unfold call_names in Hn. apply (f_equal length) in Hn. by rewrite !length_fmap in Hn.
  - done.
  - done.
  - done.
  - destruct tail as [|[e| |x] rest]; naive_solver.
Qed.
End turns.

(** ** What is spawned *)

(** The spawned process never sees the bot's credential: its environment is
    the caller's without the two credential keys, in order. Its session is
    settled by its arguments: a directory that could be made is given to pi with
    a session id, and then, where a root was configured, nothing opts out; where
    none could be made, or none was asked for, pi is told not to keep one. *)
Theorem NewRPC_scrubbed {W} `{Host W} opts (w : W) sp dir log w' :
  NewRPC opts w = (sp, dir, log, w') →
  sp_Env sp = filter (λ kv, env_of [BotTokenEnvKey; BotHostEnvKey] kv = false) (ro_Env opts)
  ∧ (∀ v, (BotTokenEnvKey +:+ "=" +:+ v) ∉ sp_Env sp ∧ (BotHostEnvKey +:+ "=" +:+ v) ∉ sp_Env sp)
  ∧ ∃ own, sp_Args sp = ["--mode"; "rpc"] ++ ro_Args opts ++ own
    ∧ (dir ≠ "" → ∃ id, own = (if decide (ro_SessionRoot opts = "") then ["--no-session"] else [])
                             ++ ["--session-dir"; dir; "--session-id"; id])
    ∧ (dir = "" → (∀ d' w0 w1, ho_MkdirTemp (ro_SessionRoot opts) "run-" w0 = (Ok d', w1) → d' ≠ "") → "--no-session" ∈ own).
Proof.
  unfold NewRPC. destruct (session_args opts w) as [[[sargs d] lg] w1] eqn:Hs. intros [= <- <- <- <-]. cbn [sp_Env sp_Args].
  split; [done|]. split.
  { intros v. unfold ChildEnv. split; intros Hin; apply FilterEnv_spec in Hin as [_ Hin];
      [apply (Hin BotTokenEnvKey v)|apply (Hin BotHostEnvKey v)]; set_solver. }
  eexists. split; [done|]. unfold session_args in Hs.
  destruct (decide (ro_LineageDir opts ≠ "" ∧ ro_SessionID opts ≠ "")) as [[Hl Hi]|].
  { destruct (ho_MkdirAll _ w) as [[e|] w2]; simplify_eq; (split; [intros Hd; try done; by eexists|]);
      intros Hd; [set_solver|by destruct Hl]. }
  destruct (decide (ro_SessionRoot opts ≠ "")) as [Hr|Hr].
  - rewrite (decide_False (P := ro_SessionRoot opts = "")) by done. destruct (ho_MkdirTemp _ _ w) as [[d'|e] w2] eqn:Hm; simplify_eq.
    + split; [intros _; by eexists|]. intros -> Hm'. by destruct (Hm' _ _ _ Hm).
    + split; [done|]. set_solver.
  - apply dec_stable in Hr. simplify_eq. rewrite decide_True by done. split; [done|set_solver].
Qed.

(** ** The error stream *)

(** The lines complete so far and the rest, whatever the chunks. *)
Lemma drain_enough fuel buf log : (String.length buf < fuel)%nat → drain_lines (S fuel) buf log = drain_lines fuel buf log.
Proof.
  revert buf log. induction fuel as [|fuel IH]; intros buf log Hf; [lia|].
  cbn [drain_lines]. destruct (cut_first _ buf) as [[l rest]|] eqn:Hc; [|done].
  apply cut_first_spec in Hc as [-> _]. rewrite length_app_str in Hf. simpl in Hf. apply IH. lia.
Qed.

Lemma drain_fuel n buf log : (String.length buf < n)%nat → drain_lines n buf log = drain_lines (S (String.length buf)) buf log.
Proof.
  intros Hn. replace n with (S (String.length buf) + (n - S (String.length buf)))%nat by lia.
  generalize (n - S (String.length buf))%nat. intros k. induction k as [|k IH]; [by rewrite Nat.add_0_r|].
  rewrite Nat.add_succ_r, drain_enough by lia. exact IH.
Qed.

Lemma drain_chunks n buf q log :
  (String.length buf < n)%nat →
  log_Write q (drain_lines n buf log) = drain_lines (S (String.length (buf +:+ q))) (buf +:+ q) log.
Proof.
  revert buf log. induction n as [|n IH]; intros buf log Hn; [lia|]. cbn [drain_lines].
  destruct (cut_first _ buf) as [[l rest]|] eqn:Hc; [|done].
  apply cut_first_spec in Hc as [-> Hfree]. rewrite length_app_str in Hn. simpl in Hn. rewrite IH by lia.
  rewrite app_str_assoc, app_str_cons, cut_first_app by done.
  rewrite (drain_fuel (String.length (l +:+ String "010" (rest +:+ q)))); [done|].
  rewrite !length_app_str. cbn [String.length]. rewrite length_app_str. lia.
Qed.

(** The writer of the error stream logs the same lines however they arrive in
    pieces, and keeps the same rest. *)
Lemma log_Write_chunks p q s :
  log_Write q (log_Write p s) = log_Write (p +:+ q) s.
Proof. unfold log_Write at 2 3. rewrite drain_chunks by lia. by rewrite app_str_assoc. Qed.

(** ** Runs on concrete sessions *)

#[local] Instance cents : Float64 Z :=
  {| f_zero := 0; f_add := Z.add; f_json := λ j, match j with JInt z => Some z | _ => None end; f_fixed4 := pretty |}.

#[local] Instance tmp_host : Host unit :=
  {| ho_MkdirAll := λ _ w, (None, w); ho_MkdirTemp := λ root pat w, (Ok (root +:+ "/" +:+ pat +:+ "1"), w); ho_nanos := λ _, 7 |}.

Definition said (role text : string) (tokens : Z) : json :=
  JObj [("role", JStr role); ("usage", JObj [("input", JInt tokens); ("output", JInt 1)]);
        ("content", JArr [JObj [("type", JStr "text"); ("text", JStr text)]])].
Definition said_message (role text : string) (tokens : Z) : EndMessage Z :=
  {| em_Role := role; em_Content := [("text", text)];
     em_Usage := Some {| us_Input := tokens; us_Output := 1; us_CacheRead := 0; us_CacheWrite := 0; us_Cost := 0 |} |}.

Definition event_of (type tool : string) (raw : json) : Event :=
  {| ev_Type := type; ev_ToolName := tool; ev_Args := ∅; ev_Message := ""; ev_Success := None; ev_Raw := raw |}.
Definition end_with (l : list json) : Event := event_of EvAgentEnd "" (JObj [("messages", JArr l)]).

Definition two_turns : list (list Event * Event) :=
  [([], end_with [said "user" "task" 0; said "assistant" "done" 5]);
   ([event_of EvToolStart "bash" JNull],
    end_with [said "user" "task" 0; said "assistant" "done" 5; said "user" "again" 0; said "assistant" "fixed" 7])].
Definition two_snapshots : list (list (EndMessage Z)) :=
  [[said_message "user" "task" 0; said_message "assistant" "done" 5];
   [said_message "user" "task" 0; said_message "assistant" "done" 5; said_message "user" "again" 0;
    said_message "assistant" "fixed" 7]].

Definition no_indent (_ : json) : string := "".

(** Turns that report their own tokens, that do not, and one after a compaction. *)
Definition message_ended (tokens : Z) : Event :=
  event_of "message_end" "" (JObj [("message", said "assistant" "hi" tokens)]).
Definition mixed_turns : list (list Event * Event) :=
  [([message_ended 100], end_with [said "user" "task" 0; said "assistant" "done" 946]);
   ([event_of EvToolStart "bash" JNull], end_with [said "user" "task" 0; said "assistant" "done" 946; said "assistant" "more" 600]);
   ([], end_with [said "user" "summary" 0; said "assistant" "short" 6]);
   ([], end_with [said "user" "summary" 0; said "assistant" "short" 6; said "assistant" "fixed" 7])].
Definition mixed_parts : list (list (EndMessage Z)) :=
  [[said_message "user" "task" 0; said_message "assistant" "done" 946]; [said_message "assistant" "more" 600];
   [said_message "user" "summary" 0; said_message "assistant" "short" 6]; [said_message "assistant" "fixed" 7]].
Definition mixed_snapshots : list (list (EndMessage Z)) :=
  [mixed_parts !!! 0%nat; mixed_parts !!! 0%nat ++ mixed_parts !!! 1%nat; mixed_parts !!! 2%nat;
   mixed_parts !!! 2%nat ++ mixed_parts !!! 3%nat].

Lemma snapshots_counted_once_witness :
  us_Input <$> (session_tokens (F := Z) no_indent 0 mixed_turns).1 = [100; 600; 6; 7]
  ∧ us_Input <$> zip_with turn_total mixed_turns.*1 mixed_parts = [100; 600; 6; 7]
  ∧ (session_tokens (F := Z) no_indent 0 two_turns).2 = 4%nat
  ∧ (session_tokens (F := Z) no_indent 0 mixed_turns).1 = zip_with turn_total mixed_turns.*1 mixed_parts
  ∧ concat (slices 0 two_snapshots) = default [] (last two_snapshots).
Proof.
  split; [vm_compute; reflexivity|]. split; [vm_compute; reflexivity|]. split; [vm_compute; reflexivity|]. split.
  - refine (proj1 (snapshots_counted_once no_indent mixed_turns mixed_snapshots mixed_parts _ _)).
    + repeat constructor; try done; vm_compute; reflexivity.
    + refine (parts_grown [] (mixed_parts !!! 0%nat) _ _ (parts_grown _ (mixed_parts !!! 1%nat) _ _
        (parts_compacted _ (mixed_parts !!! 2%nat) _ _ _ (parts_grown _ (mixed_parts !!! 3%nat) _ _ (parts_end _))))).
      vm_compute. lia.
  - refine (proj2 (proj2 (snapshots_counted_once no_indent two_turns two_snapshots (slices 0 two_snapshots) _ _)) _).
    + repeat constructor; try done; vm_compute; reflexivity.
    + exact (parts_grown [] (two_snapshots !!! 0%nat) _ _ (parts_grown _
        [said_message "user" "again" 0; said_message "assistant" "fixed" 7] _ _ (parts_end _))).
    + split; [by eexists|]. split; [|done]. by exists [said_message "user" "again" 0; said_message "assistant" "fixed" 7].
Defined.

Definition warm_pi : Pi :=
  {| pi_sent := []; pi_inbox := []; pi_seen := 0; pi_closed := false; pi_log := [] |}.
Definition one_call : list Event :=
  [event_of EvToolStart "bash" JNull; event_of EvToolEnd "bash" (JObj [("result", JStr "ok")])].
Definition answers (_ : list json) : list Received :=
  (Arrives <$> one_call) ++ [Arrives (end_with [said "user" "t" 0; said "assistant" "a" 3]); StreamClosed].

Lemma Prompt_reads_turn_witness :
  let '(_, tools, _, capture, err, p') := Prompt (F := Z) no_indent answers (λ _, None) "t" "initial task" warm_pi in
  (tl_Name <$> cp_Tools capture = ev_ToolName <$> filter (λ ev, starts_call ev = true) one_call
  ∧ tools = Z.of_nat (length (cp_Tools capture))
  ∧ pi_sent p' = [prompt_command "t"] ∧ pi_closed p' = false
  ∧ pi_inbox p' = [StreamClosed]
  ∧ (err = None ↔ ∃ t, [Arrives (end_with [said "user" "t" 0; said "assistant" "a" 3]); StreamClosed] = StreamClosed :: t
       ∨ ∃ e, [Arrives (end_with [said "user" "t" 0; said "assistant" "a" 3]); StreamClosed] = Arrives e :: t)).
Proof.
  refine (Prompt_reads_turn (F := Z) no_indent answers (λ _, None) "t" "initial task" warm_pi one_call
    [Arrives (end_with [said "user" "t" 0; said "assistant" "a" 3]); StreamClosed] eq_refl eq_refl eq_refl _ eq_refl).
  repeat constructor.
Defined.

Definition spawn_options : RPCOptions :=
  {| ro_PiPath := ""; ro_Args := ["--model"; "m"]; ro_Workdir := "/w";
     ro_Env := ["A=1"; "HARMOSTES_FORGEJO_BOT_TOKEN=secret"; "HARMOSTES_FORGEJO_BOT_TOKENS=x"];
     ro_SessionRoot := "/s"; ro_LineageDir := ""; ro_SessionID := "" |}.

Lemma NewRPC_scrubbed_witness :
  (NewRPC spawn_options tt).1.1.1
  = {| sp_Path := "pi"; sp_Args := ["--mode"; "rpc"; "--model"; "m"; "--session-dir"; "/s/run-1"; "--session-id"; "harmostes-7"];
       sp_Dir := "/w"; sp_Env := ["A=1"; "HARMOSTES_FORGEJO_BOT_TOKENS=x"] |}
  ∧ ∀ v, (BotTokenEnvKey +:+ "=" +:+ v) ∉ sp_Env (NewRPC spawn_options tt).1.1.1.
Proof.
  split; [vm_compute; reflexivity|]. intros v.
  destruct (NewRPC spawn_options tt) as [[[sp dir] lg] w'] eqn:Hn.
  exact (proj1 (proj1 (proj2 (NewRPC_scrubbed spawn_options tt sp dir lg w' Hn)) v)).
Defined.

(** ** Limits *)

(** A compaction that shortens the conversation makes the next turn count all
    of what is left, messages accounted before included. *)
Lemma compaction_recounts :
  us_Input <$> (session_tokens (F := Z) no_indent 0
    [([], end_with [said "user" "task" 0; said "assistant" "done" 5; said "assistant" "more" 6]);
     ([], end_with [said "user" "summary" 0; said "assistant" "more" 6])]).1 = [11; 6].
Proof. vm_compute. reflexivity. Qed.

(** A compaction after which the conversation grew back to its length is not
    noticed: the turn reports no tokens. *)
Lemma compaction_unseen :
  us_Input <$> (session_tokens (F := Z) no_indent 0
    [([], end_with [said "user" "task" 0; said "assistant" "done" 5]);
     ([], end_with [said "user" "summary" 0; said "assistant" "new" 9])]).1 = [5; 0].
Proof. vm_compute. reflexivity. Qed.

(** A process that dies in the middle of a turn ends the turn without an error. *)
Lemma crash_reads_as_end :
  let '(_, _, u, c, err, _) := Prompt (F := Z) no_indent (λ _, [StreamClosed]) (λ _, None) "t" "initial task" warm_pi in
  err = None ∧ u = no_usage ∧ c = no_capture.
Proof. vm_compute. done. Qed.

(** A lineage without a session root spawns pi with both the session directory
    and the opt-out. *)
Lemma lineage_without_root :
  sp_Args (NewRPC {| ro_PiPath := ""; ro_Args := []; ro_Workdir := ""; ro_Env := []; ro_SessionRoot := "";
                     ro_LineageDir := "/l"; ro_SessionID := "pr-1" |} tt).1.1.1
  = ["--mode"; "rpc"; "--no-session"; "--session-dir"; "/l"; "--session-id"; "pr-1"].
Proof. reflexivity. Qed.
