(* ===== verification/AgentTask.v ===== *)
(** * The fix loop ([Task] of [internal/agent/agent.go])

    Prompt the task, evaluate the gate, feed its output back, and so on up to
    the number of fixes; then a last evaluation. The session and the gate are
    interfaces; what the loop leaves is the result with the transcript. *)

From S2P Require Import Prelude GoStrings Json AgentSession AgentRPC.

(** ** The interfaces of the loop *)

(** [PiSession]: a message and its label; the capture of the turn it causes. *)
Class PiSession (F W : Type) := {
  ss_Prompt : string → string → W → Event * Z * Usage F * TurnCapture * option string * W;
}.

(** [Gate]: green, the output, or the error that is no verdict. *)
Notation Gate W := (W → (bool * string * option string) * W).

Record TurnProgress := {
  tp_Turn : Z; tp_Label : string; tp_TokensIn : Z; tp_TokensOut : Z; tp_TotalIn : Z; tp_TotalOut : Z; tp_Turns : Z;
}.

(** [taskConfig]; every observer may be absent. *)
Record TaskConfig (F W : Type) := {
  tk_writer : option (SessionRecord F → W → option string * W);
  tk_tools : option (string → string → ToolCall → W → W);
  tk_turns : option (TurnProgress → W → W);
  tk_meta : SessionMeta;
}.
Arguments tk_writer {F W} _.
Arguments tk_tools {F W} _.
Arguments tk_turns {F W} _.
Arguments tk_meta {F W} _.

Record TaskResult (F : Type) := { tr_Green : bool; tr_Attempts : Z; tr_Usage : Usage F; tr_Session : SessionRecord F }.
Arguments tr_Green {F} _.
Arguments tr_Attempts {F} _.
Arguments tr_Usage {F} _.
Arguments tr_Session {F} _.

(** A call of [Task] returns a result and an error, or panics. *)
Inductive TaskOutcome (F : Type) :=
| Returned (r : TaskResult F) (err : option string)
| Panicked.
Arguments Returned {F} _ _.
Arguments Panicked {F}.

(** ** The transcript under construction *)

Section records.
Context {F : Type}.

Definition set_turns (l : list (TurnRecord F)) (s : SessionRecord F) : SessionRecord F :=
  {| sn_Workflow := sn_Workflow s; sn_RunID := sn_RunID s; sn_Model := sn_Model s; sn_Skill := sn_Skill s;
     sn_StartedAt := sn_StartedAt s; sn_EndedAt := sn_EndedAt s; sn_Green := sn_Green s; sn_Turns := l;
     sn_TotalUsage := sn_TotalUsage s |}.
Definition set_total (u : Usage F) (s : SessionRecord F) : SessionRecord F :=
  {| sn_Workflow := sn_Workflow s; sn_RunID := sn_RunID s; sn_Model := sn_Model s; sn_Skill := sn_Skill s;
     sn_StartedAt := sn_StartedAt s; sn_EndedAt := sn_EndedAt s; sn_Green := sn_Green s; sn_Turns := sn_Turns s;
     sn_TotalUsage := u |}.
Definition set_gate (g : GateVerdict) (t : TurnRecord F) : TurnRecord F :=
  {| tn_Label := tn_Label t; tn_Prompt := tn_Prompt t; tn_Response := tn_Response t; tn_Tools := tn_Tools t;
     tn_Usage := tn_Usage t; tn_Gate := Some g; tn_Budget := tn_Budget t |}.

(** [session.Turns[len(session.Turns)-1].Gate = ...] *)
Definition attach_gate (g : GateVerdict) (s : SessionRecord F) : SessionRecord F :=
  match last (sn_Turns s) with
  | Some t => set_turns (removelast (sn_Turns s) ++ [set_gate g t]) s
  | None => s
  end.

Definition finalizeSession (now : Z) (usage : Usage F) (green : bool) (s : SessionRecord F) : SessionRecord F :=
  {| sn_Workflow := sn_Workflow s; sn_RunID := sn_RunID s; sn_Model := sn_Model s; sn_Skill := sn_Skill s;
     sn_StartedAt := sn_StartedAt s; sn_EndedAt := now; sn_Green := green; sn_Turns := sn_Turns s;
     sn_TotalUsage := usage |}.

Definition turn_record (label prompt : string) (c : TurnCapture) (u : Usage F) : TurnRecord F :=
  {| tn_Label := label; tn_Prompt := prompt; tn_Response := cp_Response c; tn_Tools := cp_Tools c;
     tn_Usage := u; tn_Gate := None; tn_Budget := budgetStats (cp_Tools c) |}.
End records.

Section task.
Context {F W : Type} `{HF : Float64 F} `{HS : PiSession F W}.
Context (now : W → Z).
Context (cfg : TaskConfig F W).

Definition start_session (w : W) : SessionRecord F :=
  let m := tk_meta cfg in
  {| sn_Workflow := sm_Workflow m; sn_RunID := sm_RunID m; sn_Model := sm_Model m; sn_Skill := sm_Skill m;
     sn_StartedAt := now w; sn_EndedAt := 0; sn_Green := false; sn_Turns := []; sn_TotalUsage := no_usage |}.

Definition writeSession (usage : Usage F) (s : SessionRecord F) (w : W) : SessionRecord F * W :=
  match tk_writer cfg with
  | None => (s, w)
  | Some write => let s := set_total usage s in (s, (write s w).2)
  end.

Definition empty_completion (c : TurnCapture) (u : Usage F) : bool :=
  cp_AssistantMessageEnd c && bool_decide (TrimSpace (cp_Response c) = "")
  && (i64 (us_Input u + us_Output u + us_CacheRead u + us_CacheWrite u) =? 0).

Definition empty_error : string :=
  "model " +:+ sm_Model (tk_meta cfg) +:+
  " returned an EMPTY completion (0 tokens) — check the provider catalog and the key's model access groups".

Definition publish_tools (s : SessionRecord F) (c : TurnCapture) (w : W) : W :=
  match tk_tools cfg with
  | None => w
  | Some publish => foldl (λ w t, publish (sn_Workflow s) (sn_RunID s) t w) w (cp_Tools c)
  end.

(** The capture, the turn's tokens, the running total, the error. *)
Definition promptTurn (label message : string) (usage : Usage F) (s : SessionRecord F) (w : W)
    : TurnCapture * Usage F * Usage F * option string * W :=
  let '(_, _, turnUsage, capture, err, w) := ss_Prompt message label w in
  let usage := usage_add usage turnUsage in
  if match err with None => empty_completion capture turnUsage | Some _ => false end
  then (capture, turnUsage, usage, Some empty_error, w)
  else (capture, turnUsage, usage, err, publish_tools s capture w).

Definition publishTurn (turn : Z) (label : string) (turnUsage usage : Usage F) (s : SessionRecord F) (w : W) : W :=
  match tk_turns cfg with
  | None => w
  | Some publish =>
      publish {| tp_Turn := turn; tp_Label := label; tp_TokensIn := us_Input turnUsage;
                 tp_TokensOut := us_Output turnUsage; tp_TotalIn := us_Input usage;
                 tp_TotalOut := us_Output usage; tp_Turns := Z.of_nat (length (sn_Turns s)) |} w
  end.

Definition returns (green : bool) (attempts : Z) (usage : Usage F) (s : SessionRecord F) (err : option string) (w : W)
    : TaskOutcome F * W :=
  (Returned {| tr_Green := green; tr_Attempts := attempts; tr_Usage := usage;
               tr_Session := finalizeSession (now w) usage green s |} err, w).

Definition feedback_label (attempt : Z) : string := "feedback #" +:+ pretty attempt.

(** A gate that is a nil interface panics when it is run. *)
Definition evalGate (gate : option (Gate W)) (w : W) : option ((bool * string * option string) * W) :=
  match gate with Some g => Some (g w) | None => None end.

(** The evaluation after the loop. *)
Definition final_gate (gate : option (Gate W)) (attempts : Z) (usage : Usage F) (s : SessionRecord F) (w : W)
    : TaskOutcome F * W :=
  match evalGate gate w with
  | None => (Panicked, w)
  | Some ((green, out, Some e), w) => returns false attempts usage s (Some e) w
  | Some ((green, out, None), w) =>
      let '(s, w) := writeSession usage (attach_gate {| gr_Green := green; gr_Output := out |} s) w in
      returns green attempts usage s None w
  end.

(** The loop from [attempt] on, with [rounds] more rounds after this one. *)
Fixpoint fix_loop (rounds : nat) (gate : option (Gate W)) (attempt : Z) (usage : Usage F) (s : SessionRecord F) (w : W)
    : TaskOutcome F * W :=
  match evalGate gate w with
  | None => (Panicked, w)
  | Some ((green, out, Some e), w) => returns false attempt usage s (Some e) w
  | Some ((green, out, None), w) =>
      let '(s, w) := writeSession usage (attach_gate {| gr_Green := green; gr_Output := out |} s) w in
      if green : bool then returns true attempt usage s None w
      else match rounds with
           | O => final_gate gate (attempt + 1) usage s w
           | S rounds =>
               let fb := buildFeedback out attempt in
               let label := feedback_label attempt in
               match promptTurn label fb usage s w with
               | (_, _, usage, Some e, w) => returns false attempt usage s (Some e) w
               | (capture, fbUsage, usage, None, w) =>
                   let s := set_turns (sn_Turns s ++ [turn_record label fb capture fbUsage]) s in
                   let w := publishTurn (Z.of_nat (length (sn_Turns s)) - 1) label fbUsage usage s w in
                   fix_loop rounds gate (attempt + 1) usage s w
               end
           end
  end.

Definition Task (gate : option (Gate W)) (task : string) (maxFixes : Z) (w : W) : TaskOutcome F * W :=
  let maxFixes := if maxFixes <? 1 then 1 else maxFixes in
  let s := start_session w in
  match promptTurn "initial task" task no_usage s w with
  | (_, _, usage, Some e, w) => returns false 0 usage s (Some e) w
  | (capture, turnUsage, usage, None, w) =>
      let s := set_turns [turn_record "initial task" task capture turnUsage] s in
      let w := publishTurn 0 "initial task" turnUsage usage s w in
      fix_loop (Z.to_nat (maxFixes - 1)) gate 1 usage s w
  end.
End task.

(** The process of [AgentRPC] is a session. *)
Definition rpc_session {F} `{Float64 F} (json_indent : json → string) (react : list json → list Received)
    (broken : list json → option string) : PiSession F Pi :=
  {| ss_Prompt := Prompt json_indent react broken |}.

(** ** Properties of the fix loop *)

Section law.
Context {F W : Type} `{HF : Float64 F} `{HS : PiSession F W}.
Context (now : W → Z) (cfg : TaskConfig F W) (gate : Gate W) (task : string).

(** A transcript made by feedback: the task first, then after every turn whose
    gate was red the feedback of that very evaluation. *)
Inductive fix_chain : list (TurnRecord F) → Prop :=
| chain_task t : tn_Label t = "initial task" → tn_Prompt t = task → fix_chain [t]
| chain_feedback l t u out :
    fix_chain (l ++ [t]) → tn_Gate t = Some {| gr_Green := false; gr_Output := out |} →
    tn_Label u = feedback_label (Z.of_nat (S (length l))) → tn_Prompt u = buildFeedback out (Z.of_nat (S (length l))) →
    fix_chain ((l ++ [t]) ++ [u]).

Definition tokens (l : list (TurnRecord F)) : Usage F := foldl usage_add no_usage (tn_Usage <$> l).

Lemma chain_attach l t g : fix_chain (l ++ [t]) → fix_chain (l ++ [set_gate g t]).
Proof.
  intros Hc. inversion Hc as [t' Hl Hp He|l' t' u out Hc' Hg Hl Hp He].
  - destruct l as [|x l]; [|by destruct l]. injection He as ->. by apply chain_task.
  - apply app_inj_tail in He as [<- ->]. by eapply chain_feedback.
Qed.

Lemma attach_turns g (s : SessionRecord F) l t :
  sn_Turns s = l ++ [t] → sn_Turns (attach_gate g s) = l ++ [set_gate g t].
Proof. intros Hs. unfold attach_gate. rewrite Hs, last_snoc. cbn [set_turns sn_Turns]. by rewrite removelast_last. Qed.

Lemma write_turns usage (s s' : SessionRecord F) w w' : writeSession cfg usage s w = (s', w') → sn_Turns s' = sn_Turns s.
Proof. unfold writeSession. by destruct (tk_writer cfg); intros [= <- <-]. Qed.

Lemma tokens_attach l t g : tokens (l ++ [set_gate g t]) = tokens (l ++ [t]).
Proof. unfold tokens. by rewrite !fmap_app. Qed.

Lemma tokens_snoc l t : tokens (l ++ [t]) = usage_add (tokens l) (tn_Usage t).
Proof. unfold tokens. by rewrite fmap_app, foldl_app. Qed.

(** What a result without an error says of its transcript, for at most [n] turns. *)
Definition fixed_within (n : nat) (r : TaskResult F) : Prop :=
  let turns := sn_Turns (tr_Session r) in
  fix_chain turns
  ∧ (∃ l t out, turns = l ++ [t] ∧ tn_Gate t = Some {| gr_Green := tr_Green r; gr_Output := out |})
  ∧ (tr_Green r = true ∧ tr_Attempts r = Z.of_nat (length turns) ∧ (length turns ≤ n)%nat
     ∨ tr_Attempts r = Z.of_nat (S n) ∧ length turns = n)
  ∧ tr_Usage r = tokens turns ∧ sn_TotalUsage (tr_Session r) = tr_Usage r ∧ sn_Green (tr_Session r) = tr_Green r.

Lemma promptTurn_total label message usage s w c u usage' e w' :
  promptTurn cfg label message usage s w = (c, u, usage', e, w') → usage' = usage_add usage u.
Proof.
  unfold promptTurn. destruct (ss_Prompt message label w) as [[[[[? ?] tu] cap] er] w1].
  destruct (match er with None => _ | Some _ => _ end); by intros [= <- <- <- <- <-].
Qed.

Lemma final_gate_law n usage s w l t r w' :
  final_gate now cfg (Some gate) (Z.of_nat (S n)) usage s w = (Returned r None, w') →
  sn_Turns s = l ++ [t] → fix_chain (l ++ [t]) → length (l ++ [t]) = n → usage = tokens (l ++ [t]) →
  fixed_within n r.
Proof.
  unfold final_gate. cbn [evalGate]. intros Hf Hs Hc Hn Hu. destruct (gate w) as [[[green out] [e|]] w1]; [done|].
  destruct (writeSession cfg usage _ w1) as [s' w2] eqn:Hw. apply write_turns in Hw.
  assert (sn_Turns s' = l ++ [set_gate {| gr_Green := green; gr_Output := out |} t]) as Hs'.
  { rewrite Hw. by apply attach_turns. }
  injection Hf as <- <-. rewrite <- (tokens_attach l t {| gr_Green := green; gr_Output := out |}) in Hu.
  unfold fixed_within. cbn. rewrite Hs'. split_and!; try done.
  - by apply chain_attach.
  - by exists l, (set_gate {| gr_Green := green; gr_Output := out |} t), out.
  - right. split; [done|]. rewrite length_app in *. done.
Qed.

Lemma fix_loop_law rounds usage s w l t r w' :
  fix_loop now cfg rounds (Some gate) (Z.of_nat (length (l ++ [t]))) usage s w = (Returned r None, w') →
  sn_Turns s = l ++ [t] → fix_chain (l ++ [t]) → usage = tokens (l ++ [t]) →
  fixed_within (length (l ++ [t]) + rounds) r.
Proof.
  revert usage s w l t. induction rounds as [|rounds IH]; intros usage s w l t Hf Hs Hc Hu;
    cbn [fix_loop evalGate] in Hf; destruct (gate w) as [[[green out] [e|]] w1]; try done;
    destruct (writeSession cfg usage _ w1) as [s' w2] eqn:Hw; apply write_turns in Hw;
    (assert (sn_Turns s' = l ++ [set_gate {| gr_Green := green; gr_Output := out |} t]) as Hs'
      by (rewrite Hw; by apply attach_turns));
    pose proof (chain_attach l t {| gr_Green := green; gr_Output := out |} Hc) as Hc';
    rewrite <- (tokens_attach l t {| gr_Green := green; gr_Output := out |}) in Hu;
    assert (length (l ++ [set_gate {| gr_Green := green; gr_Output := out |} t]) = length (l ++ [t])) as Hlen
      by (by rewrite !length_app).
  all: destruct green; [injection Hf as <- <-; unfold fixed_within; cbn; rewrite Hs';
    split_and!; try done; [by eexists _, _, out|left; rewrite Hlen; split_and!; [done..|lia]]|].
  - rewrite Nat.add_0_r. apply (final_gate_law _ usage s' w2 l (set_gate {| gr_Green := false; gr_Output := out |} t) r w');
      [|done..]. by rewrite Nat2Z.inj_succ, <- Z.add_1_r.
  - destruct (promptTurn cfg _ _ usage s' w2) as [[[[c u] usage'] [e|]] w3] eqn:Hp; [done|].
    apply promptTurn_total in Hp as ->. rewrite Hs' in Hf. rewrite <- Hlen in Hf.
    set (t1 := set_gate {| gr_Green := false; gr_Output := out |} t) in *.
    match type of Hf with context [set_turns ((l ++ [t1]) ++ [?b]) _] => set (t2 := b) in * end.
    replace (length (l ++ [t]) + S rounds)%nat with (length ((l ++ [t1]) ++ [t2]) + rounds)%nat
      by (rewrite (length_app _ [t2]), <- Hlen; simpl; lia).
    eapply (IH _ _ _ (l ++ [t1]) t2).
    + replace (Z.of_nat (length ((l ++ [t1]) ++ [t2]))) with (Z.of_nat (length (l ++ [t1])) + 1)
        by (rewrite (length_app _ [t2]); simpl; lia). exact Hf.
    + done.
    + assert (Z.of_nat (length (l ++ [t1])) = Z.of_nat (S (length l))) as Hz by (rewrite length_app; simpl; lia).
      eapply chain_feedback; [exact Hc'|done|..]; unfold t2, turn_record; cbn [tn_Label tn_Prompt]; by rewrite Hz.
    + by rewrite (tokens_snoc (l ++ [t1])), <- Hu.
Qed.

Lemma Task_fixed maxFixes (w : W) r w' :
  Task now cfg (Some gate) task maxFixes w = (Returned r None, w') → fixed_within (Z.to_nat (Z.max 1 maxFixes)) r.
Proof.
  intros Ht. unfold Task in Ht. replace (if maxFixes <? 1 then 1 else maxFixes) with (Z.max 1 maxFixes) in Ht by (destruct (Z.ltb_spec maxFixes 1); lia).
  destruct (promptTurn _ _ _ _ _ _) as [[[[c u] usage] [e|]] w1] eqn:Hp; [done|].
  apply promptTurn_total in Hp as ->.
  set (t := turn_record "initial task" task c u) in *.
  replace (Z.to_nat (Z.max 1 maxFixes)) with (length ([] ++ [t]) + Z.to_nat (Z.max 1 maxFixes - 1))%nat by (simpl; lia).
  eapply fix_loop_law; [exact Ht|done|by apply chain_task|done].
Qed.

(** ** The run behind a transcript *)

(** What a task asks, in order: a turn of the session, or an evaluation of the
    gate with its answer. *)
Inductive TaskEvent := EvTurn (label prompt : string) | EvGate (green : bool) (out : string).

(** One exchange of the task, between the worlds before and after it: the
    session took the turn without an error, its completion not empty, or the
    gate gave that answer. *)
Inductive exchange : TaskEvent → W → W → Prop :=
| exchange_turn label prompt ev code c u w w' :
    ss_Prompt prompt label w = (ev, code, u, c, None, w') → empty_completion c u = false → exchange (EvTurn label prompt) w w'
| exchange_gate green out w w' : gate w = ((green, out, None), w') → exchange (EvGate green out) w w'.

(** Between two exchanges a task only writes its session and publishes its
    tools and its progress. *)
Inductive reports : W → W → Prop :=
| reports_write usage s w : reports w (writeSession cfg usage s w).2
| reports_tools s c w : reports w (publish_tools cfg s c w)
| reports_turn turn label u usage s w : reports w (publishTurn cfg turn label u usage s w).

Inductive conversation : W → list TaskEvent → W → Prop :=
| conv_start w : conversation w [] w
| conv_exchange w evs w1 ev w2 : conversation w evs w1 → exchange ev w1 w2 → conversation w (evs ++ [ev]) w2
| conv_reports w evs w1 w2 : conversation w evs w1 → reports w1 w2 → conversation w evs w2.

Lemma conv_turn w evs w1 label prompt usage s c u usage' w2 :
  conversation w evs w1 → promptTurn cfg label prompt usage s w1 = (c, u, usage', None, w2) →
  conversation w (evs ++ [EvTurn label prompt]) w2.
Proof.
  intros Hc. unfold promptTurn. destruct (ss_Prompt prompt label w1) as [[[[[ev code] u0] c0] err] w3] eqn:Hp.
  destruct err as [e|]; [by intros [=]|]. destruct (empty_completion c0 u0) eqn:He; [done|]. intros [= -> -> _ <-].
  eapply conv_reports; [|apply reports_tools]. eapply conv_exchange; [exact Hc|by econstructor].
Qed.

(** A message quotes an output: it holds the last lines of it, trimmed, all of
    them or 25. *)
Definition quotes (out prompt : string) : Prop :=
  ∃ before after older tail, prompt = before +:+ join newline tail +:+ after ∧ split_byte "010" (TrimSpace out) = older ++ tail
    ∧ (length tail ≤ 25)%nat ∧ (older = [] ∨ length tail = 25%nat).

Lemma buildFeedback_quotes out attempt : quotes out (buildFeedback out attempt).
Proof.
  unfold buildFeedback, lastLines. set (ls := split_byte _ _).
  eexists ("The validation gate just failed (attempt " +:+ pretty attempt +:+ "). Output:" +:+ newline +:+ newline),
    _, (take (length ls - 25) ls), (drop (length ls - 25) ls).
  split; [|rewrite take_drop, length_drop; split; [done|]].
  - rewrite !app_str_assoc. do 5 f_equal. case_decide; [|done]. by replace (length ls - 25)%nat with O by lia.
  - split; [lia|]. destruct (decide (length ls ≤ 25)%nat); [left|right; lia]. by replace (length ls - 25)%nat with O by lia.
Qed.

(** The exchanges of the red evaluations [reds], the first of them the
    [attempt]-th: each is answered by the feedback of its own output. *)
Fixpoint answered (attempt : Z) (reds : list string) : list TaskEvent :=
  match reds with
  | [] => []
  | out :: reds =>
      EvGate false out :: EvTurn (feedback_label attempt) (buildFeedback out attempt) :: answered (attempt + 1) reds
  end.

Definition recorded (green : bool) (out : string) : option GateVerdict := Some {| gr_Green := green; gr_Output := out |}.

(** The whole run of a result: the task, the red evaluations each with its
    feedback, and at the end the evaluation that is the verdict; a run that is
    out of fixes evaluates once more without a turn in between. *)
Definition task_run (n : nat) (w : W) (r : TaskResult F) (w' : W) : Prop :=
  ∃ reds evs out,
    conversation w evs w' ∧ Forall (λ out, ∀ attempt, quotes out (buildFeedback out attempt)) reds
    ∧ (tr_Green r = true ∧ evs = EvTurn "initial task" task :: answered 1 reds ++ [EvGate true out]
         ∧ (S (length reds) ≤ n)%nat ∧ tr_Attempts r = Z.of_nat (S (length reds))
       ∨ ∃ red, evs = EvTurn "initial task" task :: answered 1 reds ++ [EvGate false red; EvGate (tr_Green r) out]
         ∧ S (length reds) = n ∧ tr_Attempts r = Z.of_nat (S n))
    ∧ tn_Gate <$> sn_Turns (tr_Session r) = (recorded false <$> reds) ++ [recorded (tr_Green r) out].

Lemma reds_quoted reds : Forall (λ out, ∀ attempt, quotes out (buildFeedback out attempt)) reds.
Proof. apply Forall_forall. intros out _ attempt. apply buildFeedback_quotes. Qed.

Lemma answered_snoc reds attempt out :
  answered attempt (reds ++ [out]) = answered attempt reds
    ++ [EvGate false out; EvTurn (feedback_label (attempt + Z.of_nat (length reds))) (buildFeedback out (attempt + Z.of_nat (length reds)))].
Proof.
  revert attempt. induction reds as [|x reds IH]; intros attempt; simpl; [by rewrite Z.add_0_r|].
  rewrite IH. do 3 f_equal. by replace (attempt + 1 + Z.of_nat (length reds)) with (attempt + Z.of_nat (S (length reds))) by lia.
Qed.

(** An evaluation, with the writing of the session it is attached to. *)
Lemma conv_gate w evs w1 green out w2 usage s :
  conversation w evs w1 → gate w1 = ((green, out, None), w2) →
  conversation w (evs ++ [EvGate green out]) (writeSession cfg usage s w2).2.
Proof.
  intros Hc Hg. eapply conv_reports; [|apply reports_write].
  eapply conv_exchange; [exact Hc|by constructor].
Qed.

Lemma attach_gates g (s : SessionRecord F) l t :
  sn_Turns s = l ++ [t] → tn_Gate <$> sn_Turns (attach_gate g s) = (tn_Gate <$> l) ++ [Some g].
Proof. intros Hs. by rewrite (attach_turns _ _ _ _ Hs), fmap_app. Qed.

(** The loop in front of the evaluation after [reds]. *)
Definition loop_inv (w0 : W) (reds : list string) (s : SessionRecord F) (w : W) : Prop :=
  conversation w0 (EvTurn "initial task" task :: answered 1 reds) w
  ∧ ∃ l t, sn_Turns s = l ++ [t] ∧ tn_Gate <$> l = recorded false <$> reds.

Lemma final_gate_run w0 reds red usage s w r w' l t :
  conversation w0 (EvTurn "initial task" task :: answered 1 reds ++ [EvGate false red]) w →
  sn_Turns s = l ++ [t] → tn_Gate <$> l = recorded false <$> reds →
  final_gate now cfg (Some gate) (Z.of_nat (S (S (length reds)))) usage s w = (Returned r None, w') →
  task_run (S (length reds)) w0 r w'.
Proof.
  intros Hc Hs Hl. unfold final_gate. cbn [evalGate]. destruct (gate w) as [[[green out] [e|]] w1] eqn:Hg; [done|].
  pose proof (conv_gate _ _ _ _ _ _ usage (attach_gate {| gr_Green := green; gr_Output := out |} s) Hc Hg) as Hc'.
  destruct (writeSession cfg usage _ w1) as [s' w2] eqn:Hw. apply write_turns in Hw. intros [= <- <-].
  exists reds, (EvTurn "initial task" task :: answered 1 reds ++ [EvGate false red; EvGate green out]), out. cbn.
  split; [|split; [apply reds_quoted|split; [right; by exists red|by rewrite Hw, (attach_gates _ _ _ _ Hs), Hl]]].
  cbn in Hc'. by rewrite <- app_assoc in Hc'.
Qed.

Lemma fix_loop_run rounds reds usage s w0 w r w' :
  loop_inv w0 reds s w →
  fix_loop now cfg rounds (Some gate) (Z.of_nat (S (length reds))) usage s w = (Returned r None, w') →
  task_run (S (length reds) + rounds) w0 r w'.
Proof.
  revert reds usage s w. induction rounds as [|rounds IH]; intros reds usage s w (Hc&l&t&Hs&Hl) Hf;
    cbn [fix_loop evalGate] in Hf; destruct (gate w) as [[[green out] [e|]] w1] eqn:Hg; try done;
    pose proof (conv_gate _ _ _ _ _ _ usage (attach_gate {| gr_Green := green; gr_Output := out |} s) Hc Hg) as Hc';
    destruct (writeSession cfg usage _ w1) as [s' w2] eqn:Hw; apply write_turns in Hw; cbn in Hc';
    (destruct green; [injection Hf as <- <-; exists reds, (EvTurn "initial task" task :: answered 1 reds ++ [EvGate true out]), out;
      cbn; split; [exact Hc'|split; [apply reds_quoted|split; [left; split_and!; [done..|lia|done]|by rewrite Hw, (attach_gates _ _ _ _ Hs), Hl]]]|]);
    pose proof (eq_trans Hw (attach_turns _ _ _ _ Hs)) as Hs'.
  - rewrite Nat.add_0_r. replace (Z.of_nat (S (length reds)) + 1) with (Z.of_nat (S (S (length reds)))) in Hf by lia.
    by eapply final_gate_run.
  - set (a := Z.of_nat (S (length reds))) in *.
    destruct (promptTurn cfg _ _ usage s' w2) as [[[[c u] usage'] [e|]] w3] eqn:Hp; [done|].
    replace (S (length reds) + S rounds)%nat with (S (length (reds ++ [out])) + rounds)%nat by (rewrite length_app; simpl; lia).
    eapply IH; [|replace (a + 1) with (Z.of_nat (S (length (reds ++ [out])))) in Hf
      by (rewrite length_app; simpl; lia); exact Hf].
    split.
    + rewrite answered_snoc. eapply conv_reports; [|apply reports_turn].
      pose proof (conv_turn _ _ _ _ _ _ _ _ _ _ _ Hc' Hp) as Hc2. cbn in Hc2.
      rewrite <- app_assoc in Hc2. cbn in Hc2. by replace (1 + Z.of_nat (length reds)) with a by lia.
    + eexists _, _. split; [reflexivity|]. by rewrite Hs', !fmap_app, Hl.
Qed.

Lemma Task_run maxFixes (w : W) r w' :
  Task now cfg (Some gate) task maxFixes w = (Returned r None, w') → task_run (Z.to_nat (Z.max 1 maxFixes)) w r w'.
Proof.
  intros Ht. unfold Task in Ht. replace (if maxFixes <? 1 then 1 else maxFixes) with (Z.max 1 maxFixes) in Ht by (destruct (Z.ltb_spec maxFixes 1); lia).
  destruct (promptTurn _ _ _ _ _ _) as [[[[c u] usage] [e|]] w1] eqn:Hp; [done|].
  replace (Z.to_nat (Z.max 1 maxFixes)) with (S (length (@nil string)) + Z.to_nat (Z.max 1 maxFixes - 1))%nat by (simpl; lia).
  eapply fix_loop_run; [|exact Ht]. split; [|by exists [], (turn_record "initial task" task c u)].
  eapply conv_reports; [|apply reports_turn]. by eapply (conv_turn w [] w); [apply conv_start|].
Qed.

(** C13. Only an evaluation of the gate makes a verdict, and every fix answers
    the evaluation before it. A task that returns without an error ran, from
    its first world to its last, the task's turn, then red evaluations each
    followed by the feedback of that very output, which quotes its last lines,
    and at the end the evaluation whose answer the result and the last turn carry; each evaluation is an
    answer of the gate at that point of the run, and between the exchanges only
    the session is written and tools and progress are published. A green result after [k]
    turns made [k] evaluations, the earlier ones red; a task that is out of
    fixes made one more evaluation than turns, and that one decides. The
    transcript has at most the configured number of turns, and its tokens are
    the sum over them. A task that returns an error is not green. *)
Theorem Task_transcript maxFixes (w : W) r err w' :
  Task now cfg (Some gate) task maxFixes w = (Returned r err, w') →
  (err = None → fixed_within (Z.to_nat (Z.max 1 maxFixes)) r ∧ task_run (Z.to_nat (Z.max 1 maxFixes)) w r w')
  ∧ (err ≠ None → tr_Green r = false ∧ sn_Green (tr_Session r) = false).
Proof.
  intros Ht. split.
  - intros ->. split; [by apply Task_fixed in Ht|by apply Task_run].
  - intros Herr. unfold Task in Ht. revert Ht. destruct (promptTurn _ _ _ _ _ _) as [[[[c u] usage] [e|]] w1];
      [by intros [= <- <- <-]|].
    set (n := Z.to_nat _). generalize 1 at 1. set (s := set_turns _ _). clearbody s. generalize (publishTurn cfg 0 "initial task" u usage s w1).
    clearbody n. revert s usage. induction n as [|n IH]; intros s usage w2 a; cbn [fix_loop evalGate];
      destruct (gate w2) as [[[green out] [e|]] w3]; try (by intros [= <- <- <-]);
      destruct (writeSession _ _ _ _) as [s' w4]; (destruct green; [by intros [= <- <- <-]|]).
    + unfold final_gate. cbn [evalGate]. destruct (gate w4) as [[[g o] [e|]] w5]; [by intros [= <- <- <-]|].
      destruct (writeSession _ _ _ _) as [s2 w6]. by intros [= <- <- <-].
    + destruct (promptTurn _ _ _ _ _ _) as [[[[c2 u2] us2] [e|]] w5]; [by intros [= <- <- <-]|]. apply IH.
Qed.
End law.

(** ** Runs on concrete sessions *)

#[local] Instance cents : Float64 Z :=
  {| f_zero := 0; f_add := Z.add; f_json := λ j, match j with JInt z => Some z | _ => None end; f_fixed4 := pretty |}.

(** A session and a gate that write down what they are asked; a turn costs a
    token, and the gate is green from its [k]-th evaluation on. *)
Definition one_token : Usage Z :=
  {| us_Input := 1; us_Output := 0; us_CacheRead := 0; us_CacheWrite := 0; us_Cost := 0 |}.
#[local] Instance scribe : PiSession Z (list string) :=
  {| ss_Prompt := λ m l w, (no_event, 0, one_token, set_response "ok" no_capture, None, w ++ [l]) |}.
Definition evaluations (w : list string) : nat := length (filter (λ x, x = "gate") w).
Definition green_from (k : nat) : Gate (list string) := λ w,
  ((bool_decide (k ≤ S (evaluations w))%nat, "out", None), w ++ ["gate"]).
Definition silent {W} : TaskConfig Z W :=
  {| tk_writer := None; tk_tools := None; tk_turns := None;
     tk_meta := {| sm_Workflow := "w"; sm_RunID := "r"; sm_Model := "m"; sm_Skill := "" |} |}.

Definition scribe_run (k : nat) (maxFixes : Z) : TaskOutcome Z * list string :=
  Task (F := Z) (λ _, 9) silent (Some (green_from k)) "task" maxFixes [].

Lemma Task_transcript_witness :
  ∃ r, scribe_run 2 3 = (Returned r None, ["initial task"; "gate"; "feedback #1"; "gate"])
  ∧ tr_Green r = true ∧ tr_Attempts r = 2
  ∧ fixed_within "task" 3 r
  ∧ task_run (F := Z) silent (green_from 2) "task" 3 [] r ["initial task"; "gate"; "feedback #1"; "gate"].
Proof.
  destruct (scribe_run 2 3) as [[r err|] w'] eqn:Hr; [|discriminate Hr]. exists r.
  assert (err = None ∧ w' = ["initial task"; "gate"; "feedback #1"; "gate"] ∧ tr_Green r = true ∧ tr_Attempts r = 2)
    as (->&->&Hg&Ha) by (vm_compute in Hr; injection Hr as <- <- <-; done).
  split; [reflexivity|]. split; [exact Hg|]. split; [exact Ha|].
  exact (proj1 (Task_transcript (λ _, 9) silent (green_from 2) "task" 3 [] r None _ Hr) eq_refl).
Defined.

(** ** Limits *)

(** A task without a gate is not green after its prompt: the loop calls a
    method of a nil interface. *)
Lemma Task_without_gate {F W} `{Float64 F} `{PiSession F W} now (cfg : TaskConfig F W) task maxFixes (w : W) :
  (∃ c u us w', promptTurn cfg "initial task" task no_usage (start_session now cfg w) w = (c, u, us, None, w')) →
  (Task now cfg None task maxFixes w).1 = Panicked.
Proof.
  intros (c&u&us&w'&Hp). unfold Task. rewrite Hp. by destruct (Z.to_nat _).
Qed.

(** The last evaluation judges the work of the one before: nothing was asked
    in between. *)
Lemma final_gate_same_work :
  (scribe_run 9 2).2 = ["initial task"; "gate"; "feedback #1"; "gate"; "gate"].
Proof. vm_compute. reflexivity. Qed.

(** An agent whose process died before it did anything is green where the gate
    already was. *)
Lemma crashed_agent_green :
  let start := {| pi_sent := []; pi_inbox := []; pi_seen := 0; pi_closed := false; pi_log := [] |} in
  ∃ r, (Task (F := Z) (HS := rpc_session (λ _, "") (λ _, [StreamClosed]) (λ _, None)) (λ _, 9) silent
          (Some (λ p, ((true, "", None), p))) "task" 3 start).1 = Returned r None
  ∧ tr_Green r = true ∧ tr_Usage r = no_usage.
Proof. eexists. split; [vm_compute; reflexivity|]. split; reflexivity. Qed.
