(* ===== verification/Plugin.v ===== *)
(** * Plugins ([internal/worker/plugin.go], [agent.CmdGate])

    The contract environment, the run of a command, its last line of JSON, the
    gate made of a command, the resolution of a reference, and the agent that
    runs the fix loop over a spawned session. *)

From S2P Require Import Prelude GoStrings GoTime Json Api AgentSession AgentRPC AgentTask.

(** ** Running a command *)

Record Command := { cm_Path : string; cm_Args : list string; cm_Dir : string; cm_Env : list string }.

(** [exec.ExitError] with its code (-1 when killed), or an error of the start. *)
Inductive ExecError :=
| Exited (code : Z) (text : string)
| NotStarted (text : string).

Definition exec_text (e : ExecError) : string := match e with Exited _ t | NotStarted t => t end.

(** The combined output, the error, and the error of the context afterwards. *)
Record RunEnd := { re_Out : string; re_Err : option ExecError; re_Ctx : option string }.

(** [exec.CommandContext(...).Run()] under the caller's deadline and, within
    it, a bound of its own. *)
Class Shell (W : Type) := { sh_run : option Z → option Z → Command → W → RunEnd * W }.

Definition exitCodeFrom (e : ExecError) : Z := match e with Exited c _ => c | NotStarted _ => -1 end.

(** ** The contract environment *)

Record PluginEnv := {
  pe_Workflow : string; pe_Namespace : string; pe_Phase : string; pe_Spec : string; pe_Source : string;
  pe_Workdir : string; pe_State : string; pe_SourceURL : string; pe_SourceBranch : string;
  pe_SourceLanguage : string; pe_WorkspaceDir : string; pe_Shadow : string;
}.

Definition EnvSlice (e : PluginEnv) (extra : list string) : list string :=
  ["HARMOSTES_WORKFLOW=" +:+ pe_Workflow e;
   "HARMOSTES_NAMESPACE=" +:+ pe_Namespace e;
   "HARMOSTES_PHASE=" +:+ pe_Phase e;
   "HARMOSTES_SPEC=" +:+ pe_Spec e;
   "HARMOSTES_SOURCE=" +:+ pe_Source e;
   "HARMOSTES_WORKDIR=" +:+ pe_Workdir e;
   "HARMOSTES_STATE=" +:+ pe_State e;
   "HARMOSTES_SOURCE_URL=" +:+ pe_SourceURL e;
   "HARMOSTES_SOURCE_BRANCH=" +:+ pe_SourceBranch e;
   "HARMOSTES_SOURCE_LANGUAGE=" +:+ pe_SourceLanguage e;
   "HARMOSTES_WORKSPACE_DIR=" +:+ pe_WorkspaceDir e;
   "HARMOSTES_SHADOW=" +:+ pe_Shadow e] ++ extra.

(** ** The result a plugin prints *)

Record PluginResult := {
  pt_Artifact : string; pt_Changed : option bool; pt_Event : gmap string json; pt_Status : string;
}.
Definition no_result : PluginResult := {| pt_Artifact := ""; pt_Changed := None; pt_Event := ∅; pt_Status := "" |}.

Definition dec_result : Decoder PluginResult :=
  dec_struct (λ o,
    a ← field "artifact" dec_string o; c ← field "changed" dec_opt_bool o;
    e ← field "event" dec_map o; s ← field "status" dec_string o;
    Some {| pt_Artifact := a; pt_Changed := c; pt_Event := default ∅ e; pt_Status := s |}).

(** The scanner's buffer. *)
Definition scan_limit : Z := 1048576.

(** The lines a [bufio.Scanner] of that limit yields: it stops at the first
    line that fills its buffer. *)
Fixpoint scanned (limit : Z) (lines : list string) : list string :=
  match lines with
  | [] => []
  | l :: lines => if slen l <? limit then l :: scanned limit lines else []
  end.

Definition last_line (combined : string) : string :=
  default "" (last (filter (λ l, l ≠ "") (TrimSpace <$> scanned scan_limit (split_byte "010" combined)))).

(** ** Resolution *)

Record BuiltinResolver := { br_Builtins : gmap string string; br_ConfigMapRoot : string }.

Definition Resolve (quote : string → string) (r : BuiltinResolver) (ref : PluginRef) : result string (string * list string) :=
  if decide (pr_Image ref ≠ "") then
    Err ("image plugins not yet supported (ref " +:+ quote (pr_Name ref) +:+ "); use a built-in or ConfigMap plugin")
  else match br_Builtins r !! pr_Name ref with
       | Some path => Ok (path, pr_Args ref)
       | None =>
           if decide (pr_ConfigMap ref ≠ "" ∧ br_ConfigMapRoot r ≠ "")
           then Ok (br_ConfigMapRoot r +:+ "/" +:+ pr_ConfigMap ref +:+ "/" +:+ pr_Name ref +:+ ".sh", pr_Args ref)
           else Err ("plugin " +:+ quote (pr_Name ref) +:+ " not found (no builtin, no configmap root)")
       end.

(** A duration that bounds, or none. *)
Definition bound_of (timeout : string) : option Z :=
  if decide (timeout = "") then None
  else match ParseDuration timeout with Some d => if 0 <? d then Some d else None | None => None end.

Record GatePlugin := {
  gp_Command : string; gp_Args : list string; gp_Env : PluginEnv; gp_ExtraEnv : list string; gp_Name : string;
  gp_Timeout : string;
}.

Section plugin.
Context {W : Type} `{Shell W}.
Context (parse_json : string → option json).

Definition lastJSONLine (combined : string) : PluginResult :=
  let l := last_line combined in
  if decide (l = "") then no_result else default no_result (parse_json l ≫= dec_result).

Definition RunPlugin (deadline bound : option Z) (command : string) (args : list string) (env : PluginEnv)
    (extra : list string) (w : W) : PluginResult * string * option ExecError * W :=
  let '(e, w) := sh_run deadline bound
    {| cm_Path := command; cm_Args := args; cm_Dir := pe_Workdir env; cm_Env := EnvSlice env extra |} w in
  (lastJSONLine (re_Out e), re_Out e, re_Err e, w).

(** [GatePlugin.Run] *)
Definition gate_run (deadline : option Z) (g : GatePlugin) : Gate W := λ w,
  let '(e, w) := sh_run deadline (bound_of (gp_Timeout g))
    {| cm_Path := gp_Command g; cm_Args := gp_Args g; cm_Dir := pe_Workdir (gp_Env g);
       cm_Env := EnvSlice (gp_Env g) (gp_ExtraEnv g) |} w in
  match re_Ctx e with
  | Some c => ((false, TrimSpace (re_Out e), Some c), w)
  | None => ((match re_Err e with None => true | Some _ => false end, TrimSpace (re_Out e), None), w)
  end.

(** [agent.CmdGate.Run] *)
Definition cmd_gate_run (deadline : option Z) (command dir : string) (environ : list string) : Gate W := λ w,
  let '(e, w) := sh_run deadline None
    {| cm_Path := "sh"; cm_Args := ["-c"; command]; cm_Dir := dir; cm_Env := ChildEnv environ |} w in
  ((match re_Err e with None => true | Some _ => false end, TrimSpace (re_Out e), None), w).
End plugin.

(** ** The agent over a spawned session ([RPCAgentRunner]) *)

Notation TaskOption F W := (TaskConfig F W → TaskConfig F W).

Section options.
Context {F W : Type}.
Definition no_config : TaskConfig F W :=
  {| tk_writer := None; tk_tools := None; tk_turns := None;
     tk_meta := {| sm_Workflow := ""; sm_RunID := ""; sm_Model := ""; sm_Skill := "" |} |}.
Definition WithSessionWriter f : TaskOption F W := λ c,
  {| tk_writer := Some f; tk_tools := tk_tools c; tk_turns := tk_turns c; tk_meta := tk_meta c |}.
Definition WithToolPublisher f : TaskOption F W := λ c,
  {| tk_writer := tk_writer c; tk_tools := Some f; tk_turns := tk_turns c; tk_meta := tk_meta c |}.
Definition WithTurnPublisher f : TaskOption F W := λ c,
  {| tk_writer := tk_writer c; tk_tools := tk_tools c; tk_turns := Some f; tk_meta := tk_meta c |}.
Definition WithSessionMeta m : TaskOption F W := λ c,
  {| tk_writer := tk_writer c; tk_tools := tk_tools c; tk_turns := tk_turns c; tk_meta := m |}.
Definition apply_options (l : list (TaskOption F W)) : TaskConfig F W := foldl (λ c o, o c) no_config l.
End options.

(** Starting a process makes it the session of the world; aborting ends it. *)
Class Spawner (W : Type) := {
  sw_start : Spawn → W → option string * W;
  sw_abort : W → W;
}.

Record RPCAgentRunner (F W : Type) := {
  rr_Opts : RPCOptions;
  rr_SessionWriter : option (SessionRecord F → W → option string * W);
  rr_ToolPublisher : option (string → string → ToolCall → W → W);
  rr_Meta : SessionMeta;
  rr_SessionFiles : option (list string → W → W);
  rr_SpawnEnv : option (list string → W → list string);
}.
Arguments rr_Opts {F W} _.
Arguments rr_SessionWriter {F W} _.
Arguments rr_ToolPublisher {F W} _.
Arguments rr_Meta {F W} _.
Arguments rr_SessionFiles {F W} _.
Arguments rr_SpawnEnv {F W} _.

Section runner.
Context {F W : Type} `{HF : Float64 F} `{HS : PiSession F W} `{Host W} `{Spawner W}.
Context (now : W → Z) (glob : string → W → result string (list string)).
Context (r : RPCAgentRunner F W).

Definition set_env (env : list string) (o : RPCOptions) : RPCOptions :=
  {| ro_PiPath := ro_PiPath o; ro_Args := ro_Args o; ro_Workdir := ro_Workdir o; ro_Env := env;
     ro_SessionRoot := ro_SessionRoot o; ro_LineageDir := ro_LineageDir o; ro_SessionID := ro_SessionID o |}.

Definition no_task_result : TaskResult F :=
  {| tr_Green := false; tr_Attempts := 0; tr_Usage := no_usage;
     tr_Session := {| sn_Workflow := ""; sn_RunID := ""; sn_Model := ""; sn_Skill := ""; sn_StartedAt := 0;
                      sn_EndedAt := 0; sn_Green := false; sn_Turns := []; sn_TotalUsage := no_usage |} |}.

Definition runner_options (opts : list (TaskOption F W)) : TaskConfig F W :=
  apply_options ([WithSessionMeta (rr_Meta r)]
    ++ (match rr_SessionWriter r with Some f => [WithSessionWriter f] | None => [] end)
    ++ (match rr_ToolPublisher r with Some f => [WithToolPublisher f] | None => [] end) ++ opts).

(** The session files are read once the process has ended, whatever the task. *)
Definition agent_Run (task : string) (gate : option (Gate W)) (maxFixes : Z) (opts : list (TaskOption F W)) (w : W)
    : TaskOutcome F * W :=
  let o := match rr_SpawnEnv r with Some f => set_env (f (ro_Env (rr_Opts r)) w) (rr_Opts r) | None => rr_Opts r end in
  let '(sp, dir, _, w) := NewRPC o w in
  match sw_start sp w with
  | (Some e, w) => (Returned no_task_result (Some e), w)
  | (None, w) =>
      match Task now (runner_options opts) gate task maxFixes w with
      | (Panicked, w) => (Panicked, sw_abort w)
      | (Returned res err, w) =>
          let w := sw_abort w in
          let files := SessionFiles (λ p, glob p w) dir in
          (Returned res err,
           match rr_SessionFiles r, files with Some f, _ :: _ => f files w | _, _ => w end)
      end
  end.
End runner.
