(* ===== verification/NodeExec.v ===== *)
(** * Node executors ([internal/graph]: gate_executor.go, plugin_executor.go,
      agent_executor.go, dapr_executors.go)

    What the kernel calls for a gate, a plugin, an agent and the Dapr nodes:
    how each reads its configuration, what it runs, and which result it makes
    of the outcome. Every executor returns a result and, for a system error,
    its text. *)

From S2P Require Import Prelude GoStrings GoTime Api GraphTypes Redact Json AgentSession AgentRPC AgentTask Plugin.

(** ** Configurations of the Dapr nodes *)

Record DaprStateGetConfig := { dg_Store : string; dg_Key : string }.
Record DaprStateSetConfig := { dt_Store : string; dt_Key : string; dt_Value : string }.
Record DaprPublishConfig := { dp_Pubsub : string; dp_Topic : string; dp_Payload : string }.

(** The Dapr client as the executors use it. *)
Class NodeStore (W : Type) := {
  ns_GetState : string → string → M W string string;
  ns_SaveState : string → string → string → M W string unit;
  ns_Publish : string → string → string → M W string unit;
}.

(** ** Small parts *)

Definition transientExitTempfail : Z := 75.
Definition transientExitUnavailable : Z := 69.
Definition transientExitCode (code : Z) : bool := (code =? transientExitTempfail) || (code =? transientExitUnavailable).

(** [out = append(out, l); if len(out) > n { out = out[1:] }] *)
Definition keep_line (n : nat) (out : list string) (l : string) : list string :=
  let out := out ++ [l] in if decide (n < length out)%nat then tail out else out.

(** [strings.TrimRight(s, "\n")] *)
Fixpoint trim_newlines (s : string) : string :=
  match s with
  | "" => ""
  | String a s => let r := trim_newlines s in if decide (r = "" ∧ a = "010"%char) then "" else String a r
  end.

Definition tailLines (s : string) (n : nat) : list string :=
  foldl (keep_line n) [] (filter (λ l, TrimSpace l ≠ "") (split_byte "010" (trim_newlines s))).

(** A reference has no blank and a slash or a colon. *)
Definition looksLikeRef (s : string) : bool :=
  negb (contains_byte s " " || contains_byte s "010" || contains_byte s "009")
  && (contains_byte s "/" || contains_byte s ":").

Definition envToPluginEnv (env : NodeEnv) (phase spec : string) : PluginEnv :=
  {| pe_Workflow := nv_Workflow env; pe_Namespace := nv_Namespace env; pe_Phase := phase; pe_Spec := spec;
     pe_Source := nv_Source env; pe_Workdir := nv_Workdir env; pe_State := nv_State env;
     pe_SourceURL := nv_SourceURL env; pe_SourceBranch := nv_SourceBranch env;
     pe_SourceLanguage := nv_SourceLanguage env; pe_WorkspaceDir := nv_WorkspaceDir env; pe_Shadow := nv_Shadow env |}.

Definition node_result (status : string) (outputs : NodeOutputs) (feedback : string) (transient : bool) : NodeResult :=
  {| nr_Status := status; nr_Outputs := outputs; nr_Feedback := feedback; nr_Envelope := None;
     nr_Transient := transient; nr_Attempt := 0 |}.

Definition system_error (feedback err : string) : NodeResult * option string := (failed_result feedback, Some err).

(** What a plugin node records of its output. *)
Record PluginTail := { pl_plugin : string; pl_tail : list string; pl_artifact : option string }.

Definition KindPluginTail : string := "plugin.tail".
Definition artifact_bound : Z := 131072.

Section executors.
Context {W : Type} `{Shell W}.
Context `{JsonCodec PluginNodeConfig} `{JsonCodec GateNodeConfig} `{JsonCodec AgentNodeConfig}.
Context `{JsonCodec DaprStateGetConfig} `{JsonCodec DaprStateSetConfig} `{JsonCodec DaprPublishConfig}.
(** The text of a configuration that does not parse; [PluginResolver]. *)
Context (parse_error : string → string).
Context (Resolve : PluginRef → string → result string (string * list string)).
Context (parse_json : string → option json).

(** ** The gate node *)

Definition gate_plugin (cfg : GateNodeConfig) (command : string) (args : list string) (env : PluginEnv) : GatePlugin :=
  {| gp_Command := command; gp_Args := args; gp_Env := env; gp_ExtraEnv := []; gp_Name := pc_Name (gc_Plugin cfg);
     gp_Timeout := pc_Timeout (gc_Plugin cfg) |}.

Definition gate_Execute (deadline : option Z) (node : NodeSpec) (env : NodeEnv) (w : W)
    : (NodeResult * option string) * W :=
  match parseConfig zero_gate_config (nd_Config node) with
  | None => let e := parse_error (nd_Config node) in (system_error e e, w)
  | Some cfg =>
      match Resolve (ToPluginRef (gc_Plugin cfg)) "gate" with
      | Err e => (system_error ("resolve gate plugin: " +:+ e) e, w)
      | Ok (command, args) =>
          match gate_run deadline (gate_plugin cfg command args (envToPluginEnv env "gate" (nd_Config node))) w with
          | ((_, _, Some e), w) => (system_error e e, w)
          | ((green, feedback, None), w) =>
              ((node_result (if green : bool then StatusGreen else StatusFailed) {["green" := VBool green]} feedback false,
                None), w)
          end
      end
  end.

(** The same configuration as the gate of an agent. *)
Definition AsAgentGate (deadline : option Z) (g : GateNodeConfig) (env : NodeEnv) : result string (Gate W) :=
  match Resolve (ToPluginRef (gc_Plugin g)) "gate" with
  | Err e => Err e
  | Ok (command, args) => Ok (gate_run deadline (gate_plugin g command args (envToPluginEnv env "gate" "")))
  end.

(** ** The plugin node *)

(** An [any] as an output; numbers, lists and objects stay opaque. *)
Context (opaque_val : json → Val).
Definition val_of (j : json) : Val :=
  match j with JNull => VNull | JBool b => VBool b | JStr s => VString s | _ => opaque_val j end.

Context (marshal_result : PluginResult → option string).
(** The timeline, when there is one: its error is only logged. *)
Context (tl_Emit : option (string → string → PluginTail → W → W)).

Definition plugin_tail (cfg : PluginNodeConfig) (res : PluginResult) (out : string) : PluginTail :=
  {| pl_plugin := pc_Name cfg; pl_tail := tailLines (Redact out) 20;
     pl_artifact := if decide (pt_Artifact res = "") then None
                    else (λ b, truncateForTimeline (Redact b) (Z.to_nat artifact_bound)) <$> marshal_result res |}.

Definition run_feedback (out : string) (e : ExecError) : string :=
  if decide (TrimSpace out = "") then str_take 512 (Redact (exec_text e)) else out.

(** The event's fields over the result's own. *)
Definition plugin_outputs (changed : bool) (res : PluginResult) : NodeOutputs :=
  (val_of <$> pt_Event res)
  ∪ {["artifact" := VString (pt_Artifact res); "status" := VString (pt_Status res); "changed" := VBool changed]}.

Definition plugin_Execute (deadline : option Z) (node : NodeSpec) (env : NodeEnv) (w : W)
    : (NodeResult * option string) * W :=
  match parseConfig zero_plugin_config (nd_Config node) with
  | None => let e := parse_error (nd_Config node) in (system_error e e, w)
  | Some cfg =>
      match Resolve (ToPluginRef cfg) "plugin" with
      | Err e => (system_error ("resolve plugin: " +:+ e) e, w)
      | Ok (command, args) =>
          let '(res, out, runErr, w) :=
            RunPlugin parse_json deadline (bound_of (pc_Timeout cfg)) command args
              (envToPluginEnv env "plugin" (nd_Config node)) (nv_ExtraEnv env) w in
          let w := match tl_Emit with Some emit => emit KindPluginTail (nd_ID node) (plugin_tail cfg res out) w | None => w end in
          match runErr with
          | Some e =>
              ((node_result StatusFailed ∅ (run_feedback out e)
                  match e with Exited code _ => transientExitCode code | NotStarted _ => false end, None), w)
          | None =>
              let skipped := match pt_Changed res with Some false => true | _ => false end in
              ((node_result (if skipped then StatusSkipped else StatusGreen) (plugin_outputs (negb skipped) res) out false,
                None), w)
          end
      end
  end.

(** ** The Dapr nodes *)

Context `{NodeStore W}.
(** [text/template] over the outputs of the nodes before; [None] is an error. *)
Context (render : string → gmap string NodeOutputs → option string).
(** Is there a client? *)
Context (wired : bool).

Definition resolveTemplate (tmpl : string) (inputs : gmap string NodeOutputs) : string :=
  if str_contains tmpl "{{" then default tmpl (render tmpl inputs) else tmpl.

Definition errNoDaprClient : string :=
  "dapr node executed without a Dapr client — wire dapr.Client in Dependencies".

Definition state_get_Execute (node : NodeSpec) (env : NodeEnv) (w : W) : (NodeResult * option string) * W :=
  if negb wired then (system_error errNoDaprClient errNoDaprClient, w)
  else match parseConfig {| dg_Store := ""; dg_Key := "" |} (nd_Config node) with
  | None => let e := parse_error (nd_Config node) in (system_error e e, w)
  | Some cfg =>
      match ns_GetState (dg_Store cfg) (resolveTemplate (dg_Key cfg) (nv_Inputs env)) w with
      | (Err e, w) => (system_error ("dapr get-state: " +:+ e) e, w)
      | (Ok value, w) => ((node_result StatusGreen {["value" := VString value]} "" false, None), w)
      end
  end.

Definition state_set_Execute (node : NodeSpec) (env : NodeEnv) (w : W) : (NodeResult * option string) * W :=
  if negb wired then (system_error errNoDaprClient errNoDaprClient, w)
  else match parseConfig {| dt_Store := ""; dt_Key := ""; dt_Value := "" |} (nd_Config node) with
  | None => let e := parse_error (nd_Config node) in (system_error e e, w)
  | Some cfg =>
      let key := resolveTemplate (dt_Key cfg) (nv_Inputs env) in
      match ns_SaveState (dt_Store cfg) key (resolveTemplate (dt_Value cfg) (nv_Inputs env)) w with
      | (Err e, w) => (system_error ("dapr save-state: " +:+ e) e, w)
      | (Ok _, w) => ((node_result StatusGreen {["key" := VString key]} "" false, None), w)
      end
  end.

Definition publish_Execute (node : NodeSpec) (env : NodeEnv) (w : W) : (NodeResult * option string) * W :=
  if negb wired then (system_error errNoDaprClient errNoDaprClient, w)
  else match parseConfig {| dp_Pubsub := ""; dp_Topic := ""; dp_Payload := "" |} (nd_Config node) with
  | None => let e := parse_error (nd_Config node) in (system_error e e, w)
  | Some cfg =>
      match ns_Publish (dp_Pubsub cfg) (dp_Topic cfg) (resolveTemplate (dp_Payload cfg) (nv_Inputs env)) w with
      | (Err e, w) => (system_error ("dapr publish: " +:+ e) e, w)
      | (Ok _, w) => ((node_result StatusGreen {["topic" := VString (dp_Topic cfg)]} "" false, None), w)
      end
  end.

(** ** The agent node *)

Context {F : Type} `{HF : Float64 F}.
(** [AgentRunner]; [TaskResolver], when there is one. *)
Context (runner : string → option (Gate W) → Z → list (TaskOption F W) → W → TaskOutcome F * W).
Context (tasks : option (string → W → result string string * W)).
(** Is a plugin resolver wired? *)
Context (resolver_wired : bool).
Context (stateStore : string) (sessionMeta : SessionMeta).
Context (sessionWr : option (SessionRecord F → W → option string * W))
  (toolPub : option (string → string → ToolCall → W → W)) (turnPub : option (TurnProgress → W → W)).
Context (getenv : string → string) (quote : string → string).
Context (session_json : SessionRecord F → string) (usage_json : string → TaskResult F → string)
  (payload_json : Usage F → string → Z → string) (usage_val : Usage F → Val).

Definition zero_agent_config : AgentNodeConfig :=
  {| ac_Model := ""; ac_Skill := ""; ac_Task := ""; ac_Tools := []; ac_Gate := None; ac_MaxFixes := 0; ac_Scope := "" |}.

Definition blank_line : string := newline +:+ newline.
Definition append_note (task note : string) : string := if decide (note = "") then task else task +:+ blank_line +:+ note.

Definition journal_heading : string :=
  "Prior runs of this workflow (newest first) — known outcomes; do not redo failed approaches:" +:+ newline.

(** The task as the agent gets it. *)
Definition compose_task (cfg : AgentNodeConfig) (task : string) : string :=
  let task := append_note (append_note task (ac_Scope cfg)) (getenv "HARMOSTES_SESSION_NOTE") in
  let j := getenv "HARMOSTES_RESEARCH_JOURNAL" in
  if decide (j = "") then task else task +:+ blank_line +:+ journal_heading +:+ j.

Definition resolve_task (cfg : AgentNodeConfig) (w : W) : result string string * W :=
  match tasks with
  | Some get => if looksLikeRef (ac_Task cfg) then get (ac_Task cfg) w else (Ok (ac_Task cfg), w)
  | None => (Ok (ac_Task cfg), w)
  end.

(** The gate of the configuration: none, one that resolves, or the result of a
    failure. *)
Definition build_gate (deadline : option Z) (node : NodeSpec) (cfg : AgentNodeConfig) (env : NodeEnv)
    : result (NodeResult * option string) (option (Gate W)) :=
  match ac_Gate cfg with
  | None => Ok None
  | Some g =>
      if negb resolver_wired then
        let e := "agent node " +:+ quote (nd_ID node) +:+ " has inline gate but no plugin resolver wired" in
        Err (system_error e e)
      else match AsAgentGate deadline g env with
           | Err e => Err (system_error ("resolve gate: " +:+ e) e)
           | Ok gate => Ok (Some gate)
           end
  end.

Definition run_meta (env : NodeEnv) : SessionMeta :=
  {| sm_Workflow := if decide (sm_Workflow sessionMeta = "") then nv_Workflow env else sm_Workflow sessionMeta;
     sm_RunID := nv_RunID env; sm_Model := sm_Model sessionMeta; sm_Skill := sm_Skill sessionMeta |}.

Definition agent_options (env : NodeEnv) : list (TaskOption F W) :=
  [WithSessionMeta (run_meta env)]
  ++ (match sessionWr with Some f => [WithSessionWriter f] | None => [] end)
  ++ (match toolPub with Some f => [WithToolPublisher f] | None => [] end)
  ++ (match turnPub with Some f => [WithTurnPublisher f] | None => [] end).

Definition session_key (env : NodeEnv) : string :=
  nv_Workflow env +:+ ":" +:+ (if decide (nv_RunID env = "") then nv_Workflow env else nv_RunID env) +:+ ":session".

(** Transcript and tokens, best effort. *)
Definition persist_run (env : NodeEnv) (res : TaskResult F) (w : W) : W :=
  if negb wired || bool_decide (stateStore = "") then w
  else
    let w := match sn_Turns (tr_Session res) with
             | [] => w
             | _ => (ns_SaveState stateStore (session_key env) (session_json (tr_Session res)) w).2
             end in
    if 0 <? usage_Total (tr_Usage res)
    then (ns_SaveState stateStore (nv_Workflow env +:+ ":usage:last") (usage_json (nv_Workflow env) res) w).2 else w.

Definition payload_envelope (payload : string) : NodeResultEnvelope :=
  {| ne_NodeID := ""; ne_RunID := ""; ne_Status := ""; ne_Attempt := 0; ne_Summary := ""; ne_Artifacts := [];
     ne_Claims := []; ne_Payload := payload; ne_Provenance := {| pv_TriggeredBy := ""; pv_TriggerSource := ""; pv_ProducedAt := 0 |};
     ne_References := []; ne_ProducedAt := 0; ne_DurationMs := 0 |}.

Definition agent_result (cfg : AgentNodeConfig) (res : TaskResult F) : NodeResult :=
  let status := if tr_Green res then StatusGreen else StatusFailed in
  let turns := Z.of_nat (length (sn_Turns (tr_Session res))) in
  {| nr_Status := status;
     nr_Outputs := {["green" := VBool (tr_Green res); "attempts" := VNumber (tr_Attempts res);
                     "usage" := usage_val (tr_Usage res); "model" := VString (ac_Model cfg); "turns" := VNumber turns]};
     nr_Feedback := "agent " +:+ status +:+ " after " +:+ pretty (tr_Attempts res) +:+ " attempt(s), "
                    +:+ usage_String (tr_Usage res);
     nr_Envelope := Some (payload_envelope (payload_json (tr_Usage res) (ac_Model cfg) turns));
     nr_Transient := false; nr_Attempt := 0 |}.

(** [None] when the runner panics. *)
Definition agent_Execute (deadline : option Z) (node : NodeSpec) (env : NodeEnv) (w : W)
    : option ((NodeResult * option string) * W) :=
  match parseConfig zero_agent_config (nd_Config node) with
  | None => let e := parse_error (nd_Config node) in Some (system_error e e, w)
  | Some cfg =>
      match resolve_task cfg w with
      | (Err e, w) => Some (system_error ("resolve task: " +:+ e) e, w)
      | (Ok task, w) =>
          match build_gate deadline node cfg env with
          | Err r => Some (r, w)
          | Ok gate =>
              let maxFixes := if ac_MaxFixes cfg <? 1 then 1 else ac_MaxFixes cfg in
              match runner (compose_task cfg task) gate maxFixes (agent_options env) w with
              | (Panicked, _) => None
              | (Returned _ (Some e), w) => Some (system_error e e, w)
              | (Returned res None, w) => Some ((agent_result cfg res, None), persist_run env res w)
              end
          end
      end
  end.
End executors.

(** ** Properties of the node executors: what a verdict of a gate, of a plugin
      and of an agent says about what ran *)

(** ** The last line of the output *)

Lemma scanned_short limit lines : Forall (λ l, slen l < limit) lines → scanned limit lines = lines.
Proof.
  induction 1 as [|l lines Hl _ IH]; [done|]. simpl. rewrite (proj2 (Z.ltb_lt _ _)) by done. by rewrite IH.
Qed.

(** The result of a run is read off its last line that is not blank, as long
    as no line fills the scanner's buffer. *)
Lemma last_line_found out before l blanks :
  split_byte "010" out = before ++ l :: blanks → Forall (λ x, slen x < scan_limit) (split_byte "010" out) →
  TrimSpace l ≠ "" → Forall (λ x, TrimSpace x = "") blanks →
  last_line out = TrimSpace l.
Proof.
  intros Hs Hshort Hl Hb. unfold last_line. rewrite scanned_short, Hs by done.
  rewrite fmap_app, fmap_cons, filter_app, filter_cons, decide_True by done.
  assert (filter (λ x, x ≠ "") (TrimSpace <$> blanks) = []) as ->.
  { clear Hs. induction Hb as [|b blanks Hb _ IH]; [done|]. csimpl. rewrite filter_cons, decide_False by (rewrite Hb; naive_solver).
    apply IH. }
  by rewrite last_snoc.
Qed.

(** A line that fills the buffer ends the scan: the result is whatever was
    printed before it. *)
Lemma long_line_hides_result before long after :
  Forall (λ x, slen x < scan_limit) before → scan_limit ≤ slen long →
  scanned scan_limit (before ++ long :: after) = before.
Proof.
  intros Hb Hl. induction Hb as [|l before Hs _ IH]; simpl.
  - by rewrite (proj2 (Z.ltb_ge _ _)).
  - rewrite (proj2 (Z.ltb_lt _ _)) by done. by rewrite IH.
Qed.

(** The tail of an output is its last lines that are not blank. *)
Lemma tailLines_last s n :
  (0 < n)%nat →
  let lines := filter (λ l, TrimSpace l ≠ "") (split_byte "010" (trim_newlines s)) in
  tailLines s n = drop (length lines - n) lines.
Proof.
  intros Hn. cbv zeta. unfold tailLines. set (lines := filter _ _). clearbody lines. clear s.
  induction lines as [|l lines IH] using rev_ind; [done|]. rewrite foldl_app, IH. cbn [foldl]. unfold keep_line.
  rewrite length_app, length_drop, length_app. cbn [length].
  destruct (decide _) as [Hlt|Hge].
  - replace (length lines + 1 - n)%nat with (S (length lines - n)) by lia.
    rewrite <- (drop_app_le lines [l] (length lines - n)) by lia.
    assert (∀ x : list string, tail x = drop 1 x) as -> by (by intros []). rewrite drop_drop. f_equal. lia.
  - replace (length lines - n)%nat with 0%nat by lia. replace (length lines + 1 - n)%nat with 0%nat by lia. done.
Qed.

Section verdicts.
Context {W : Type} `{Shell W}.
Context `{JsonCodec PluginNodeConfig} `{JsonCodec GateNodeConfig} `{JsonCodec AgentNodeConfig}.
Context (parse_error : string → string).
Context (Resolve : PluginRef → string → result string (string * list string)).
Context (parse_json : string → option json).
Context (opaque_val : json → Val) (marshal_result : PluginResult → option string).
Context (tl_Emit : option (string → string → PluginTail → W → W)).

(** A plugin node's result is the exit of its command. A node whose
    configuration and reference are good runs one command, under the bound its
    configuration declares, in the contract environment with the extra entries
    after it. It is failed exactly when the command failed, never an error of
    the system, and retryable exactly on the two exit codes that say so; it is
    skipped exactly when the command succeeded and reported no change, and
    green otherwise. *)
Theorem plugin_Execute_verdict deadline node env (w : W) cfg command args :
  parseConfig zero_plugin_config (nd_Config node) = Some cfg →
  Resolve (ToPluginRef cfg) "plugin" = Ok (command, args) →
  ∃ nr w' e w1,
    plugin_Execute parse_error Resolve parse_json opaque_val marshal_result tl_Emit deadline node env w = ((nr, None), w')
    ∧ sh_run deadline (bound_of (pc_Timeout cfg))
        {| cm_Path := command; cm_Args := args; cm_Dir := nv_Workdir env;
           cm_Env := EnvSlice (envToPluginEnv env "plugin" (nd_Config node)) (nv_ExtraEnv env) |} w = (e, w1)
    ∧ (nr_Status nr = StatusFailed ↔ re_Err e ≠ None)
    ∧ (nr_Transient nr = true ↔ ∃ c t, re_Err e = Some (Exited c t) ∧ (c = 75 ∨ c = 69))
    ∧ (nr_Status nr = StatusSkipped ↔ re_Err e = None ∧ pt_Changed (lastJSONLine parse_json (re_Out e)) = Some false)
    ∧ (nr_Status nr = StatusGreen ↔ re_Err e = None ∧ pt_Changed (lastJSONLine parse_json (re_Out e)) ≠ Some false)
    ∧ (re_Err e = None → nr_Feedback nr = re_Out e).
Proof.
  intros Hcfg Hres. unfold plugin_Execute. rewrite Hcfg, Hres. unfold RunPlugin.
  destruct (sh_run _ _ _ w) as [e w1] eqn:Hrun.
  set (w2 := match tl_Emit with Some emit => _ | None => _ end).
  destruct (re_Err e) as [x|] eqn:Hx; eexists _, w2, e, w1; (split; [done|]); (split; [done|]); rewrite Hx; cbn [nr_Status nr_Transient nr_Feedback node_result].
  - split_and!; [done| |split; [by intros ?%not_eq_sym|by intros []]|split; [by intros ?%not_eq_sym|by intros []]|done]. split.
    + destruct x as [c t|t]; [|done]. unfold transientExitCode. intros [Hc|Hc]%orb_true_iff;
        apply Z.eqb_eq in Hc as ->; eexists _, t; (split; [done|]); [by left|by right].
    + intros (c&t&[= ->]&[->| ->]); done.
  - assert (false = true ↔ ∃ (c : Z) (t : string), (None : option ExecError) = Some (Exited c t) ∧ (c = 75 ∨ c = 69)) as Ht
      by (split; [done|]; by intros (?&?&?&_)).
    destruct (pt_Changed _) as [[|]|]; cbn; split_and!; try done; split; try done; by intros [].
Qed.

(** ** Limits *)

(** A gate whose command does not exist is a red verdict with nothing to say,
    not the error of the system the executor's comment describes. *)
Lemma missing_gate_is_red deadline node env (w w1 : W) cfg command args text :
  parseConfig zero_gate_config (nd_Config node) = Some cfg →
  Resolve (ToPluginRef (gc_Plugin cfg)) "gate" = Ok (command, args) →
  sh_run deadline (bound_of (pc_Timeout (gc_Plugin cfg)))
    {| cm_Path := command; cm_Args := args; cm_Dir := nv_Workdir env;
       cm_Env := EnvSlice (envToPluginEnv env "gate" (nd_Config node)) [] |} w
  = ({| re_Out := ""; re_Err := Some (NotStarted text); re_Ctx := None |}, w1) →
  gate_Execute parse_error Resolve deadline node env w
  = ((node_result StatusFailed {["green" := VBool false]} "" false, None), w1).
Proof. intros Hc Hr Hs. unfold gate_Execute. rewrite Hc, Hr. unfold gate_run. cbn in *. by rewrite Hs. Qed.

(** An event with a field of that name replaces what the node says of its
    change. *)
Lemma event_overrides_changed res b :
  pt_Event res !! "changed" = Some (JBool b) → ∀ c, plugin_outputs opaque_val c res !! "changed" = Some (VBool b).
Proof. intros He c. unfold plugin_outputs. apply lookup_union_Some_l. by rewrite lookup_fmap, He. Qed.

(** ** The agent node over the spawned session *)

Section agent.
Context `{NodeStore W} {F : Type} `{HF : Float64 F} `{HS : PiSession F W} `{Host W} `{Spawner W}.
Context (now : W → Z) (glob : string → W → result string (list string)) (r : RPCAgentRunner F W).
Context (wired : bool) (tasks : option (string → W → result string string * W)) (resolver_wired : bool).
Context (stateStore : string) (sessionMeta : SessionMeta).
Context (sessionWr : option (SessionRecord F → W → option string * W))
  (toolPub : option (string → string → ToolCall → W → W)) (turnPub : option (TurnProgress → W → W)).
Context (getenv : string → string) (quote : string → string).
Context (session_json : SessionRecord F → string) (usage_json : string → TaskResult F → string)
  (payload_json : Usage F → string → Z → string) (usage_val : Usage F → Val).

Definition agent_node := agent_Execute parse_error Resolve wired (agent_Run now glob r) tasks resolver_wired stateStore
  sessionMeta sessionWr toolPub turnPub getenv quote session_json usage_json payload_json usage_val.

Lemma build_gate_spec deadline node cfg env g :
  build_gate Resolve resolver_wired quote deadline node cfg env = Ok g →
  g = None ∧ ac_Gate cfg = None
  ∨ ∃ gc gate, ac_Gate cfg = Some gc ∧ AsAgentGate Resolve deadline gc env = Ok gate ∧ g = Some gate.
Proof.
  unfold build_gate. destruct (ac_Gate cfg) as [gc|]; [|intros [= <-]; by left].
  destruct (negb resolver_wired); [done|]. destruct (AsAgentGate _ _ _ _) as [gate|e] eqn:Hg; [|done].
  intros [= <-]. right. by exists gc, gate.
Qed.

(** The process of a run was started, for the session it belongs to. *)
Definition process_started (w w1 : W) : Prop :=
  ∃ o sp dir lg w0, NewRPC o w = (sp, dir, lg, w0) ∧ sw_start sp w0 = (None, w1).

Lemma agent_Run_task task gate maxFixes opts (w : W) res err w' :
  agent_Run now glob r task gate maxFixes opts w = (Returned res err, w') → err = None →
  ∃ w1 w2, process_started w w1 ∧ Task now (runner_options r opts) gate task maxFixes w1 = (Returned res None, w2).
Proof.
  unfold agent_Run. intros Hr ->. destruct (NewRPC _ w) as [[[sp dir] lg] w1] eqn:Hn.
  destruct (sw_start sp w1) as [[e|] w2] eqn:Hs; [done|].
  destruct (Task _ _ _ _ _ w2) as [[res' err'|] w3] eqn:Ht; [|done]. injection Hr as -> -> _.
  exists w2, w3. split; [by eexists _, _, _, _, _|done].
Qed.

Lemma gateless_panics cfg task maxFixes (w : W) : ∀ res w', Task now cfg None task maxFixes w ≠ (Returned res None, w').
Proof.
  intros res w' Ht. destruct (promptTurn cfg "initial task" task no_usage (start_session now cfg w) w)
    as [[[[c u] us] [e|]] w1] eqn:Hp; [unfold Task in Ht; by rewrite Hp in Ht|].
  pose proof (Task_without_gate now cfg task maxFixes w) as Hn. rewrite Ht in Hn. by discriminate Hn; eexists _, _, _, _.
Qed.

(** C14. An agent's node is green only behind a green gate. A result without an
    error comes from a configuration with a gate that resolved, and from a run
    of the fix loop on the task composed for the node, in the process started
    for it: the task, then at most the configured fixes, each answering the red
    evaluation before it, every evaluation an answer of that gate at its point
    of the run; the node is green exactly when the gate's last answer was.
    Without a gate the node never returns such a result. *)
Theorem agent_node_gated deadline node env (w : W) nr w' :
  agent_node deadline node env w = Some ((nr, None), w') →
  ∃ cfg task gate gc res wa w1 w2,
    parseConfig zero_agent_config (nd_Config node) = Some cfg ∧ ac_Gate cfg = Some gc
    ∧ AsAgentGate Resolve deadline gc env = Ok gate
    ∧ resolve_task tasks cfg w = (Ok task, wa) ∧ (tasks = None → task = ac_Task cfg)
    ∧ process_started wa w1
    ∧ task_run (runner_options r (agent_options sessionMeta sessionWr toolPub turnPub env)) gate
        (compose_task getenv cfg task) (Z.to_nat (Z.max 1 (ac_MaxFixes cfg))) w1 res w2
    ∧ fixed_within (compose_task getenv cfg task) (Z.to_nat (Z.max 1 (ac_MaxFixes cfg))) res
    ∧ nr = agent_result payload_json usage_val cfg res
    ∧ (nr_Status nr = StatusGreen ↔ tr_Green res = true).
Proof.
  unfold agent_node, agent_Execute. destruct (parseConfig _ _) as [cfg|] eqn:Hcfg; [|intros [= ]].
  destruct (resolve_task tasks cfg w) as [[task|e] w1] eqn:Htask; [|intros [= ]].
  destruct (build_gate _ _ _ _ _ _ _) as [g|x] eqn:Hg; [|].
  2:{ intros [= Hx _]. exfalso. unfold build_gate in Hg. destruct (ac_Gate cfg) as [gc|]; [|done].
      destruct (negb _); [by simplify_eq|]. destruct (AsAgentGate _ _ _ _); [done|]. by simplify_eq. }
  replace (if ac_MaxFixes cfg <? 1 then 1 else ac_MaxFixes cfg) with (Z.max 1 (ac_MaxFixes cfg))
    by (destruct (Z.ltb_spec (ac_MaxFixes cfg) 1); lia).
  destruct (agent_Run _ _ _ _ _ _ _ w1) as [[res [e|]|] w2] eqn:Hrun; [intros [= ]| |done]. intros [= <- _].
  apply agent_Run_task in Hrun as (w3&w4&Hst&Ht); [|done].
  apply build_gate_spec in Hg as [[-> _]|(gc&gate&Hgc&Has&->)]; [by apply gateless_panics in Ht|].
  assert (Z.max 1 (Z.max 1 (ac_MaxFixes cfg)) = Z.max 1 (ac_MaxFixes cfg)) as Hmax by lia.
  exists cfg, task, gate, gc, res, w1, w3, w4. split_and!; try done.
  - intros ->. unfold resolve_task in Htask. by simplify_eq.
  - apply Task_run in Ht. by rewrite Hmax in Ht.
  - apply Task_fixed in Ht. by rewrite Hmax in Ht.
  - unfold agent_result. cbn. by destruct (tr_Green res).
Qed.
End agent.
End verdicts.

(** ** A bench: a world that logs the commands run *)

Module Bench.
Notation World := (list Command).

(** The gate is red at its first run; a plugin prints its result. *)
#[local] Instance bench_shell : Shell World :=
  {| sh_run := λ _ _ c w,
       ({| re_Out := if decide (cm_Path c = "/bin/lint") then "no change" +:+ newline +:+ "J" +:+ newline else "red";
           re_Err := if decide (cm_Path c = "/bin/gate" ∧ w = []) then Some (Exited 1 "exit status 1") else None;
           re_Ctx := None |}, w ++ [c]) |}.
#[local] Instance bench_store : NodeStore World :=
  {| ns_GetState := λ _ _ w, (Ok "", w); ns_SaveState := λ _ _ _ w, (Ok tt, w); ns_Publish := λ _ _ _ w, (Ok tt, w) |}.
#[local] Instance bench_cents : Float64 Z :=
  {| f_zero := 0; f_add := Z.add; f_json := λ j, match j with JInt z => Some z | _ => None end; f_fixed4 := pretty |}.
#[local] Instance bench_session : PiSession Z World :=
  {| ss_Prompt := λ _ _ w, (no_event, 0, no_usage, no_capture, None, w) |}.
#[local] Instance bench_host : Host World :=
  {| ho_MkdirAll := λ _ w, (None, w); ho_MkdirTemp := λ r p w, (Ok (r +:+ p), w); ho_nanos := λ _, 1 |}.
#[local] Instance bench_spawner : Spawner World := {| sw_start := λ _ w, (None, w); sw_abort := λ w, w |}.

Definition plugin_cfg (name : string) : PluginNodeConfig :=
  {| pc_Name := name; pc_Args := ["-v"]; pc_ConfigMap := ""; pc_Timeout := "2m"; pc_Config := "" |}.
Definition agent_cfg (gate : option GateNodeConfig) : AgentNodeConfig :=
  {| ac_Model := "m"; ac_Skill := ""; ac_Task := "do it"; ac_Tools := []; ac_Gate := gate; ac_MaxFixes := 2; ac_Scope := "s" |}.
#[local] Instance bench_plugin_codec : JsonCodec PluginNodeConfig := {| json_marshal := pc_Name; json_unmarshal := λ s, Some (plugin_cfg s) |}.
#[local] Instance bench_gate_codec : JsonCodec GateNodeConfig :=
  {| json_marshal := λ _, ""; json_unmarshal := λ s, Some {| gc_Plugin := plugin_cfg s; gc_Validates := [] |} |}.
#[local] Instance bench_agent_codec : JsonCodec AgentNodeConfig :=
  {| json_marshal := λ _, ""; json_unmarshal := λ s,
       Some (agent_cfg (if decide (s = "none") then None else Some {| gc_Plugin := plugin_cfg s; gc_Validates := [] |})) |}.

Definition bench_json (s : string) : option json :=
  if decide (s = "J") then Some (JObj [("changed", JBool false); ("status", JStr "same")]) else None.
Definition bench_resolve (p : PluginRef) (_ : string) : result string (string * list string) := Ok ("/bin/" +:+ pr_Name p, pr_Args p).
Definition bench_node (config : string) : NodeSpec :=
  {| nd_ID := "n"; nd_Type := "plugin"; nd_Label := ""; nd_Config := config; nd_Outputs := []; nd_When := ""; nd_Timeout := "";
     nd_Requires := []; nd_Background := None; nd_Retry := None |}.
Definition bench_env : NodeEnv :=
  {| nv_Workflow := "w"; nv_RunID := "r"; nv_Namespace := "ns"; nv_Workdir := "/w"; nv_Source := ""; nv_SourceURL := "";
     nv_SourceBranch := ""; nv_SourceLanguage := ""; nv_WorkspaceDir := ""; nv_Shadow := ""; nv_State := ""; nv_ExtraEnv := [];
     nv_Inputs := ∅ |}.
Definition bench_runner : RPCAgentRunner Z World :=
  {| rr_Opts := {| ro_PiPath := ""; ro_Args := []; ro_Workdir := ""; ro_Env := []; ro_SessionRoot := ""; ro_LineageDir := "";
                   ro_SessionID := "" |};
     rr_SessionWriter := None; rr_ToolPublisher := None;
     rr_Meta := {| sm_Workflow := ""; sm_RunID := ""; sm_Model := ""; sm_Skill := "" |};
     rr_SessionFiles := None; rr_SpawnEnv := None |}.

Definition run_plugin (config : string) :=
  plugin_Execute (W := World) id bench_resolve bench_json (λ _, VOther "") (λ _, None) None None (bench_node config) bench_env [].
Definition run_agent (config : string) :=
  agent_node (W := World) (F := Z) id bench_resolve (λ _, 9) (λ _ _, Ok []) bench_runner false None true ""
    {| sm_Workflow := ""; sm_RunID := ""; sm_Model := ""; sm_Skill := "" |} None None None (λ _, "") id (λ _, "") (λ _ _, "")
    (λ _ _ _, "") (λ _, VNull) None (bench_node config) bench_env [].
End Bench.

Lemma plugin_Execute_verdict_witness :
  nr_Status (Bench.run_plugin "lint").1.1 = StatusSkipped
  ∧ ∃ nr w' e w1, Bench.run_plugin "lint" = ((nr, None), w')
    ∧ sh_run (Shell := Bench.bench_shell) None (bound_of "2m")
        {| cm_Path := "/bin/lint"; cm_Args := ["-v"]; cm_Dir := "/w";
           cm_Env := EnvSlice (envToPluginEnv Bench.bench_env "plugin" "lint") [] |} [] = (e, w1)
    ∧ (nr_Status nr = StatusSkipped ↔ re_Err e = None ∧ pt_Changed (lastJSONLine Bench.bench_json (re_Out e)) = Some false).
Proof.
  split; [vm_compute; reflexivity|].
  destruct (plugin_Execute_verdict (H := Bench.bench_shell) (H0 := Bench.bench_plugin_codec) id Bench.bench_resolve Bench.bench_json
    (λ _, VOther "") (λ _, None) None None (Bench.bench_node "lint") Bench.bench_env [] (Bench.plugin_cfg "lint") "/bin/lint" ["-v"]
    eq_refl eq_refl) as (nr&w'&e&w1&Hrun&Hsh&_&_&Hskip&_).
  exists nr, w', e, w1. split; [exact Hrun|]. split; [exact Hsh|exact Hskip].
Defined.

Lemma agent_node_gated_witness :
  ∃ nr w', Bench.run_agent "gate" = Some ((nr, None), w') ∧ nr_Status nr = StatusGreen
  ∧ nr_Outputs nr !! "attempts" = Some (VNumber 2)
  ∧ ∃ cfg, parseConfig (H := Bench.bench_agent_codec) zero_agent_config "gate" = Some cfg ∧ is_Some (ac_Gate cfg).
Proof.
  destruct (Bench.run_agent "gate") as [[[nr [e|]] w']|] eqn:Hr; [discriminate Hr| |discriminate Hr].
  exists nr, w'. split; [reflexivity|].
  split; [vm_compute in Hr; injection Hr as <- _; reflexivity|]. split; [vm_compute in Hr; injection Hr as <- _; reflexivity|].
  destruct (agent_node_gated (H := Bench.bench_shell) (H2 := Bench.bench_agent_codec) id Bench.bench_resolve (λ _, 9) (λ _ _, Ok []) Bench.bench_runner
    false None true "" _ None None None (λ _, "") id (λ _, "") (λ _ _, "") (λ _ _ _, "") (λ _, VNull) None (Bench.bench_node "gate")
    Bench.bench_env [] nr w' Hr) as (cfg&_&_&gc&_&_&_&_&Hc&Hg&_).
  exists cfg. split; [exact Hc|]. by exists gc.
Defined.

(** An agent's node without a gate, which its documentation says is always
    green, panics once the agent has answered. *)
Lemma gateless_agent_panics : Bench.run_agent "none" = None.
Proof. vm_compute. reflexivity. Qed.
