(* ===== verification/DeployExec.v ===== *)
(** * Deployment nodes ([internal/graph/deploy_executors.go])

    The client of arbitrary resources, the KubeVela and Flux nodes over it, and
    the loop that waits for a resource to become ready. The clock, the timer of
    the loop and the printing of an [any] are parameters. *)

From S2P Require Import Prelude GoStrings GoTime Json Api Kube GraphTypes NodeExec.

(** ** Resources *)

(** An unstructured object: what the code reads or writes of it, and the rest. *)
Record Unstructured := {
  un_Name : string; un_Namespace : string; un_Annotations : gmap string string; un_Version : Z;
  un_Spec : json; un_Status : option json; un_Rest : list (string * json);
}.

Record UError := { ue_text : string; ue_nomatch : bool; ue_notfound : bool }.

(** The API server for objects of one version and kind. *)
Class ResourceClient (W : Type) := {
  uc_Get : string → string → Key → W → result UError Unstructured * W;
  uc_Create : string → string → Unstructured → W → option UError * W;
  uc_Update : string → string → Unstructured → W → option UError * W;
  uc_Delete : string → string → Key → W → option UError * W;
}.

Definition ukey (o : Unstructured) : Key := (un_Namespace o, un_Name o).

Definition unstructuredFor (name namespace : string) (spec : json) : Unstructured :=
  {| un_Name := name; un_Namespace := namespace; un_Annotations := ∅; un_Version := 0; un_Spec := spec;
     un_Status := None; un_Rest := [] |}.
Definition set_spec (spec : json) (o : Unstructured) : Unstructured :=
  {| un_Name := un_Name o; un_Namespace := un_Namespace o; un_Annotations := un_Annotations o; un_Version := un_Version o;
     un_Spec := spec; un_Status := un_Status o; un_Rest := un_Rest o |}.
Definition add_annotations (m : gmap string string) (o : Unstructured) : Unstructured :=
  {| un_Name := un_Name o; un_Namespace := un_Namespace o; un_Annotations := m ∪ un_Annotations o;
     un_Version := un_Version o; un_Spec := un_Spec o; un_Status := un_Status o; un_Rest := un_Rest o |}.
Definition set_version (v : Z) (o : Unstructured) : Unstructured :=
  {| un_Name := un_Name o; un_Namespace := un_Namespace o; un_Annotations := un_Annotations o; un_Version := v;
     un_Spec := un_Spec o; un_Status := un_Status o; un_Rest := un_Rest o |}.

Definition isAlreadyExists (e : UError) : bool := str_contains (ue_text e) "already exists".

Section client.
Context {W : Type} `{ResourceClient W}.

Definition get_error (wrap : string → string) (e : UError) : UError :=
  {| ue_text := wrap (ue_text e); ue_nomatch := ue_nomatch e; ue_notfound := ue_notfound e |}.

(** Read it and write it back with the spec. *)
Definition update_spec (apiVersion kind : string) (key : Key) (spec : json) (wrap : string → string) (w : W) : option UError * W :=
  match uc_Get apiVersion kind key w with
  | (Err e, w) => (Some (get_error wrap e), w)
  | (Ok o, w) => uc_Update apiVersion kind (set_spec spec o) w
  end.

Definition ApplyResource (apiVersion kind name namespace : string) (spec : json) (w : W) : option UError * W :=
  let what := "apply " +:+ kind +:+ "/" +:+ name +:+ ": " in
  match uc_Create apiVersion kind (unstructuredFor name namespace spec) w with
  | (None, w) => (None, w)
  | (Some err, w) =>
      if negb (ue_nomatch err) && negb (isAlreadyExists err) then
        update_spec apiVersion kind (namespace, name) spec
          (λ e, what +:+ "create failed (" +:+ ue_text err +:+ ") and get failed (" +:+ e +:+ ")") w
      else if isAlreadyExists err then
        update_spec apiVersion kind (namespace, name) spec (λ e, what +:+ "get after already-exists: " +:+ e) w
      else (Some err, w)
  end.

Definition DeleteResource (apiVersion kind name namespace : string) (w : W) : option UError * W :=
  match uc_Delete apiVersion kind (namespace, name) w with
  | (Some e, w) => (if ue_notfound e then None else Some e, w)
  | (None, w) => (None, w)
  end.

Definition AnnotateResource (apiVersion kind name namespace : string) (m : gmap string string) (w : W) : option UError * W :=
  match uc_Get apiVersion kind (namespace, name) w with
  | (Err e, w) => (Some e, w)
  | (Ok o, w) => uc_Update apiVersion kind (add_annotations m o) w
  end.
End client.

(** ** What a status says *)

(** The value of a key of an [any] that is a map. *)
Definition map_key (k : string) (j : json) : option json :=
  match j with
  | JObj l => (list_to_map (reverse l) : gmap string json) !! k
  | _ => None
  end.

Definition text_of (k : string) (j : json) : string := match map_key k j with Some (JStr s) => s | _ => "" end.

(** The first condition of type Ready decides. *)
Definition extractReadyCondition (o : Unstructured) : bool :=
  match un_Status o ≫= map_key "conditions" with
  | Some (JArr l) =>
      match List.find (λ c, bool_decide (text_of "type" c = "Ready")) l with
      | Some c => bool_decide (text_of "status" c = "True")
      | None => false
      end
  | _ => false
  end.

Section nodes.
Context {W : Type} `{ResourceClient W}.
Context (now : W → Z).
(** [time.After] against the context: [Some] is the context's error. *)
Context (sleep : Z → W → option string * W).
Context (print_any : json → string) (format_nano : Z → string) (quote : string → string).
Context (parse_error : string → string).
(** The keys of a map in the order a range takes them. *)
Context (range_keys : list string → list string).

Definition extractRevision (o : Unstructured) : string :=
  match un_Status o with
  | Some (JObj l) =>
      let status := JObj l in
      match head (omap (λ k, map_key k status) ["lastAttemptedRevision"; "lastHandledRevert"; "observedGeneration"]) with
      | Some v => print_any v
      | None => from_option (text_of "name") "" (map_key "latestRevision" status)
      end
  | _ => ""
  end.

(** Ready, the revision, the error; [None] when the fuel runs out. *)
Fixpoint poll_loop (fuel : nat) (apiVersion kind name namespace : string) (deadline : Z) (w : W)
    : option (bool * string * option string * W) :=
  match fuel with
  | O => None
  | S fuel =>
      match uc_Get apiVersion kind (namespace, name) w with
      | (Err e, w) => Some (false, "", Some ("get " +:+ kind +:+ " " +:+ namespace +:+ "/" +:+ name +:+ ": " +:+ ue_text e), w)
      | (Ok o, w) =>
          if extractReadyCondition o then Some (true, extractRevision o, None, w)
          else if deadline <? now w then Some (false, extractRevision o, None, w)
          else match sleep (2 * Second) w with
               | (Some c, w) => Some (false, extractRevision o, Some c, w)
               | (None, w) => poll_loop fuel apiVersion kind name namespace deadline w
               end
      end
  end.

Definition pollReady (fuel : nat) (apiVersion kind name namespace : string) (timeout : Z) (w : W) :=
  poll_loop fuel apiVersion kind name namespace (now w + timeout) w.

Definition parseTimeout (s : string) (def : Z) : Z :=
  if decide (s = "") then def else default def (ParseDuration s).

(** ** KubeVela *)

Record VelaAppConfig := {
  vc_Action : string; vc_Name : string; vc_Namespace : string; vc_Application : json; vc_Timeout : string;
}.
Definition zero_vela : VelaAppConfig :=
  {| vc_Action := ""; vc_Name := ""; vc_Namespace := ""; vc_Application := JNull; vc_Timeout := "" |}.

Definition velaAppAPIVersion : string := "core.oam.dev/v1beta1".
Definition errNoKubeClient : string := "deployment node executed without a KubeClient — wire KubeClient in Dependencies".
Definition Minute : Z := 60 * Second.

Definition namespace_or (ns : string) (env : NodeEnv) : string := if decide (ns = "") then nv_Namespace env else ns.

Context `{JsonCodec VelaAppConfig} (wired : bool).

(** The results of a wait: [label] and the text of a resource not ready. *)
Definition waited (label notready : string) (green : string → NodeOutputs)
    (p : bool * string * option string * W) : (NodeResult * option string) * W :=
  let '(ready, revision, err, w) := p in
  (match err with
   | Some e => system_error (label +:+ e) e
   | None =>
       if ready : bool then (node_result StatusGreen (green revision) "" false, None)
       else (node_result StatusFailed {["ready" := VBool false; "revision" := VString revision]} notready false, None)
   end, w).

Definition vela_Execute (fuel : nat) (node : NodeSpec) (env : NodeEnv) (w : W) : option ((NodeResult * option string) * W) :=
  if negb wired then Some (system_error errNoKubeClient errNoKubeClient, w)
  else match parseConfig zero_vela (nd_Config node) with
  | None => let e := parse_error (nd_Config node) in Some (system_error e e, w)
  | Some cfg =>
      let ns := namespace_or (vc_Namespace cfg) env in
      let id := "vela-app node " +:+ quote (nd_ID node) +:+ ": " in
      if decide (vc_Name cfg = "") then let e := id +:+ "config.name is required" in Some (system_error e e, w)
      else if decide (vc_Action cfg = "apply") then
        match ApplyResource velaAppAPIVersion "Application" (vc_Name cfg) ns (vc_Application cfg) w with
        | (Some e, w) => Some (system_error ("vela apply: " +:+ ue_text e) (ue_text e), w)
        | (None, w) => Some ((node_result StatusGreen {["applied" := VBool true; "name" := VString (vc_Name cfg)]} "" false, None), w)
        end
      else if decide (vc_Action cfg = "delete") then
        match DeleteResource velaAppAPIVersion "Application" (vc_Name cfg) ns w with
        | (Some e, w) => Some (system_error ("vela delete: " +:+ ue_text e) (ue_text e), w)
        | (None, w) => Some ((node_result StatusGreen {["applied" := VBool false; "name" := VString (vc_Name cfg)]} "" false, None), w)
        end
      else if decide (vc_Action cfg = "wait") then
        let timeout := parseTimeout (vc_Timeout cfg) (5 * Minute) in
        waited "vela wait: " ("vela Application " +:+ ns +:+ "/" +:+ vc_Name cfg +:+ " not Ready after " +:+ duration_String timeout)
          (λ rev, {["applied" := VBool true; "ready" := VBool true; "revision" := VString rev]})
          <$> pollReady fuel velaAppAPIVersion "Application" (vc_Name cfg) ns timeout w
      else let e := id +:+ "unknown action " +:+ quote (vc_Action cfg) +:+ " (want apply|delete|wait)" in Some (system_error e e, w)
  end.

(** ** Flux *)

Record FluxReconcileConfig := { fc_Resource : string; fc_Namespace : string; fc_Wait : bool; fc_Timeout : string }.
Definition zero_flux : FluxReconcileConfig :=
  {| fc_Resource := ""; fc_Namespace := ""; fc_Wait := false; fc_Timeout := "" |}.

Definition flux_kinds : list (string * (string * string)) :=
  [("helmrelease", ("helm.toolkit.fluxcd.io/v2", "HelmRelease"));
   ("kustomization", ("kustomize.toolkit.fluxcd.io/v1", "Kustomization"));
   ("gitrepository", ("source.toolkit.fluxcd.io/v1", "GitRepository"));
   ("ocirepository", ("source.toolkit.fluxcd.io/v1beta2", "OCIRepository"));
   ("helmrepository", ("source.toolkit.fluxcd.io/v1", "HelmRepository"));
   ("helmchart", ("source.toolkit.fluxcd.io/v1", "HelmChart"));
   ("bucket", ("source.toolkit.fluxcd.io/v1beta2", "Bucket"));
   ("alert", ("notification.toolkit.fluxcd.io/v1beta3", "Alert"));
   ("provider", ("notification.toolkit.fluxcd.io/v1beta3", "Provider"));
   ("receiver", ("notification.toolkit.fluxcd.io/v1", "Receiver"))].

Definition fluxKindToAPIVersion : gmap string string := list_to_map ((λ p, (p.1, p.2.1)) <$> flux_kinds).
Definition fluxKindTitles : gmap string string := list_to_map ((λ p, (p.1, p.2.2)) <$> flux_kinds).

(** The fallback raises the first byte. *)
Definition upper_byte (c : ascii) : ascii := if is_lower c then ascii_of_N (Z.to_N (byte_val c - 32)) else c.
Definition titleFluxKind (kind : string) : string :=
  match fluxKindTitles !! ToLower kind with
  | Some t => t
  | None => match kind with "" => "" | String c r => String (upper_byte c) r end
  end.

Definition fluxKinds : string := join ", " (range_keys flux_kinds.*1).
Definition fluxReconcileAtKey : string := "fluxcd.io/reconcileAt".

Context `{JsonCodec FluxReconcileConfig}.

Definition flux_Execute (fuel : nat) (node : NodeSpec) (env : NodeEnv) (w : W) : option ((NodeResult * option string) * W) :=
  if negb wired then Some (system_error errNoKubeClient errNoKubeClient, w)
  else match parseConfig zero_flux (nd_Config node) with
  | None => let e := parse_error (nd_Config node) in Some (system_error e e, w)
  | Some cfg =>
      let id := "flux-reconcile node " +:+ quote (nd_ID node) +:+ ": " in
      let malformed := id +:+ "resource must be kind/name (got " +:+ quote (fc_Resource cfg) +:+ ")" in
      match cut_first "/" (fc_Resource cfg) with
      | None => Some (system_error malformed malformed, w)
      | Some (kind, name) =>
          if decide (kind = "" ∨ name = "") then Some (system_error malformed malformed, w)
          else match fluxKindToAPIVersion !! ToLower kind with
          | None =>
              let e := id +:+ "unknown Flux resource kind " +:+ quote kind +:+ " (supported: " +:+ fluxKinds +:+ ")" in
              Some (system_error e e, w)
          | Some apiVersion =>
              let ns := namespace_or (fc_Namespace cfg) env in
              let titled := titleFluxKind kind in
              let stamp := format_nano (now w) in
              match AnnotateResource apiVersion titled name ns {[fluxReconcileAtKey := stamp]} w with
              | (Some e, w) => Some (system_error ("flux annotate: " +:+ ue_text e) (ue_text e), w)
              | (None, w) =>
                  if negb (fc_Wait cfg) then
                    Some ((node_result StatusGreen {["ready" := VBool true; "revision" := VString stamp]} "" false, None), w)
                  else
                    let timeout := parseTimeout (fc_Timeout cfg) (5 * Minute) in
                    waited "flux wait: " ("flux " +:+ titled +:+ " " +:+ ns +:+ "/" +:+ name +:+ " not Ready after " +:+ duration_String timeout)
                      (λ rev, {["ready" := VBool true; "revision" := VString rev]})
                      <$> pollReady fuel apiVersion titled name ns timeout w
              end
          end
      end
  end.
End nodes.

(** ** What the server promises *)

Class ResourceLaws (W : Type) `{ResourceClient W} := {
  uc_obj : string → string → W → Key → option Unstructured;
  uc_env : W → W → Prop;
  uenv_refl :: Reflexive uc_env;
  uenv_trans :: Transitive uc_env;
  uobj_key : ∀ av kd w k o, uc_obj av kd w k = Some o → ukey o = k;
  (** A resource version identifies a content. *)
  uversion_content : ∀ av kd w w' k a b, uc_env w w' → uc_obj av kd w k = Some a → uc_obj av kd w' k = Some b →
    un_Version a = un_Version b → a = b;
  uget_law : ∀ av kd k w r w', uc_Get av kd k w = (r, w') →
    match r with
    | Ok o => ∃ w1, uc_env w w1 ∧ uc_obj av kd w1 k = Some o ∧ uc_env w1 w'
    | Err _ => uc_env w w'
    end;
  ucreate_law : ∀ av kd o w r w', uc_Create av kd o w = (r, w') →
    match r with
    | None => ∃ v, Commit (uc_obj av kd) uc_env (ukey o) None (Some (set_version v o)) w w'
    | Some _ => uc_env w w'
    end;
  (** An update commits on the version it was read at. *)
  uupdate_law : ∀ av kd o w r w', uc_Update av kd o w = (r, w') →
    match r with
    | None => ∃ v cur, un_Version cur = un_Version o
                ∧ Commit (uc_obj av kd) uc_env (ukey o) (Some cur) (Some (set_version v o)) w w'
    | Some _ => uc_env w w'
    end;
  udelete_law : ∀ av kd k w r w', uc_Delete av kd k w = (r, w') →
    match r with
    | None => ∃ cur, Commit (uc_obj av kd) uc_env k (Some cur) None w w'
    | Some _ => uc_env w w'
    end;
}.

(** ** Properties *)

Section laws.
Context {W : Type} `{HC : ResourceClient W} `{HL : !ResourceLaws W}.

Lemma update_spec_law av kd key spec context (w : W) r w' :
  update_spec av kd key spec context w = (r, w') →
  ∃ tr, Wrote (uc_obj av kd) uc_env tr w w'
  ∧ (r = None → ∃ cur v, tr = [(key, Some cur, Some (set_version v (set_spec spec cur)))])
  ∧ (r ≠ None → tr = []).
Proof.
  unfold update_spec. destruct (uc_Get av kd key w) as [[o|e] w1] eqn:Hg; apply uget_law in Hg.
  - destruct Hg as (wa&Ha&Ho&Hb). intros Hu. apply uupdate_law in Hu. destruct r as [e|].
    + exists []. split; [|by split]. apply wrote_none. do 2 (etransitivity; [eassumption|]). done.
    + destruct Hu as (v&cur&Hv&Hcm). pose proof (uobj_key _ _ _ _ _ Ho) as Hk.
      change (ukey (set_spec spec o)) with (ukey o) in Hcm. rewrite Hk in Hcm. change (un_Version (set_spec spec o)) with (un_Version o) in Hv.
      assert (o = cur) as <-.
      { destruct Hcm as (wb&wc&He&Hcur&_). eapply (uversion_content av kd wa wb key); [|done..].
        etransitivity; eassumption. }
      exists [(key, Some o, Some (set_version v (set_spec spec o)))]. split; [|split; [by eexists _, _|done]].
      apply (Wrote_env_l (uc_obj av kd) uc_env _ w w1 w'); [etransitivity; eassumption|apply Wrote_one; [exact _|exact Hcm]].
  - intros [= <- <-]. exists []. split; [by apply wrote_none|]. by split.
Qed.

(** Applying a resource is an upsert of its spec. Whatever others do in
    between, an apply that succeeds wrote exactly once: it created the object
    under that name with the spec, or it replaced the spec of the object that
    was there and kept all else of it; an apply that fails wrote nothing. *)
Theorem ApplyResource_upserts av kd name namespace spec (w : W) r w' :
  ApplyResource av kd name namespace spec w = (r, w') →
  ∃ tr, Wrote (uc_obj av kd) uc_env tr w w'
  ∧ (r = None → ∃ before after, tr = [((namespace, name), before, Some after)]
       ∧ un_Spec after = spec ∧ ukey after = (namespace, name)
       ∧ match before with
         | None => ∃ v, after = set_version v (unstructuredFor name namespace spec)
         | Some cur => ∃ v, after = set_version v (set_spec spec cur)
         end)
  ∧ (r ≠ None → tr = []).
Proof.
  unfold ApplyResource. destruct (uc_Create _ _ _ w) as [[e|] w1] eqn:Hc; apply ucreate_law in Hc.
  2:{ intros [= <- <-]. destruct Hc as (v&Hc). eexists. split; [by apply Wrote_one; [exact _|]|]. split; [|done].
      intros _. eexists None, _. split; [done|]. split; [done|]. split; [done|]. by exists v. }
  assert (∀ context, update_spec av kd (namespace, name) spec context w1 = (r, w') →
    ∃ tr, Wrote (uc_obj av kd) uc_env tr w w'
    ∧ (r = None → ∃ before after, tr = [((namespace, name), before, Some after)]
         ∧ un_Spec after = spec ∧ ukey after = (namespace, name)
         ∧ match before with
           | None => ∃ v, after = set_version v (unstructuredFor name namespace spec)
           | Some cur => ∃ v, after = set_version v (set_spec spec cur)
           end)
    ∧ (r ≠ None → tr = [])) as Hupd.
  { intros context Hu. pose proof Hu as Hkey. apply update_spec_law in Hu as (tr&Hw&Hok&Hbad). exists tr.
    split; [by eapply Wrote_env_l; [exact _|exact Hc|]|]. split; [|done]. intros Hr. destruct (Hok Hr) as (cur&v&->).
    eexists (Some cur), _. split; [done|]. split; [done|]. split; [|by exists v].
    inversion Hw as [|? ? ? ? ? ? ? Hcm]; subst. destruct Hcm as (wa&wb&_&Hcur&_). by apply uobj_key in Hcur. }
  destruct (negb _ && negb _); [apply Hupd|]. destruct (isAlreadyExists e); [apply Hupd|].
  intros [= <- <-]. exists []. split; [by apply wrote_none|by split].
Qed.

(** ** Waiting *)

Context (now : W → Z) (sleep : Z → W → option string * W) (print_any : json → string).
Context (now_env : ∀ w w', uc_env w w' → now w ≤ now w').
Context (sleep_clock : ∀ d w w', sleep d w = (None, w') → uc_env w w' ∧ now w + d ≤ now w').

Lemma get_clock av kd k (w : W) r w' : uc_Get av kd k w = (r, w') → uc_env w w'.
Proof. intros Hg. apply uget_law in Hg. destruct r; [|done]. destruct Hg as (w1&?&_&?). by etransitivity. Qed.

Lemma poll_loop_law n fuel av kd name namespace deadline (w : W) :
  deadline - now w < Z.of_nat n * (2 * Second) → (n < fuel)%nat →
  ∃ ready rev err w', poll_loop now sleep print_any fuel av kd name namespace deadline w = Some (ready, rev, err, w')
  ∧ (ready = true → err = None ∧ ∃ w1 o, uc_env w w1 ∧ uc_obj av kd w1 (namespace, name) = Some o
       ∧ extractReadyCondition o = true ∧ rev = extractRevision print_any o)
  ∧ (ready = false → err = None → ∃ w1, uc_env w w1 ∧ deadline < now w1).
Proof.
  revert n w. induction fuel as [|fuel IH]; intros n w Hd Hf; [lia|]. cbn [poll_loop].
  destruct (uc_Get av kd (namespace, name) w) as [[o|e] w1] eqn:Hg; [|by eexists _, _, _, _].
  pose proof (get_clock _ _ _ _ _ _ Hg) as Hw1. apply uget_law in Hg as (wa&Ha&Ho&_).
  destruct (extractReadyCondition o) eqn:Hr.
  { eexists _, _, _, _. split; [done|]. split; [|done]. intros _. split; [done|]. by exists wa, o. }
  destruct (Z.ltb_spec deadline (now w1)) as [Hlt|Hle].
  { eexists _, _, _, _. split; [done|]. split; [done|]. intros _ _. by exists w1. }
  destruct (sleep (2 * Second) w1) as [[c|] w2] eqn:Hs; [by eexists _, _, _, _|].
  apply sleep_clock in Hs as [He2 Hn2]. pose proof (now_env _ _ Hw1) as Hn1.
  unfold Second in *. destruct n as [|n]; [lia|].
  destruct (IH n w2) as (ready&rev&err&w'&Hp&Hready&Hlate); [lia|lia|].
  exists ready, rev, err, w'. split; [done|]. assert (uc_env w w2) as Hw2 by (by etransitivity). split.
  - intros Hy. destruct (Hready Hy) as [? (w3&o3&He3&?)]. split; [done|]. exists w3, o3. split; [by etransitivity|done].
  - intros Hy Hz. destruct (Hlate Hy Hz) as (w3&He3&?). exists w3. split; [by etransitivity|done].
Qed.

(** Waiting for a resource ends, within its timeout and one poll more, and
    its verdict was read: ready is a state of the object, between the call and
    the answer, whose Ready condition was true, with the revision that state
    names; not ready without an error means the timeout had passed. *)
Theorem pollReady_verdict n fuel av kd name namespace timeout (w : W) :
  timeout < Z.of_nat n * (2 * Second) → (n < fuel)%nat →
  ∃ ready rev err w', pollReady now sleep print_any fuel av kd name namespace timeout w = Some (ready, rev, err, w')
  ∧ (ready = true → err = None ∧ ∃ w1 o, uc_env w w1 ∧ uc_obj av kd w1 (namespace, name) = Some o
       ∧ extractReadyCondition o = true ∧ rev = extractRevision print_any o)
  ∧ (ready = false → err = None → ∃ w1, uc_env w w1 ∧ now w + timeout < now w1).
Proof.
  intros Ht Hf. unfold pollReady. apply (poll_loop_law n); [lia|done].
Qed.
End laws.

(** ** A cluster of resources *)

Module Cluster.
(** Objects and a clock. *)
Notation State := (gmap (string * string * Key) Unstructured * Z)%type.

Definition stored (av kd : string) (w : State) (k : Key) : option Unstructured :=
  o ← w.1 !! (av, kd, k); if decide (ukey o = k) then Some o else None.

Definition missing : UError := {| ue_text := "not found"; ue_nomatch := false; ue_notfound := true |}.
Definition exists_ : UError := {| ue_text := "it already exists"; ue_nomatch := false; ue_notfound := false |}.
Definition conflict : UError := {| ue_text := "conflict"; ue_nomatch := false; ue_notfound := false |}.

#[global] Instance cluster_client : ResourceClient State :=
  {| uc_Get := λ av kd k w, (match stored av kd w k with Some o => Ok o | None => Err missing end, w);
     uc_Create := λ av kd o w,
       match stored av kd w (ukey o) with
       | Some _ => (Some exists_, w)
       | None => (None, (<[(av, kd, ukey o) := set_version 1 o]> w.1, w.2))
       end;
     uc_Update := λ av kd o w,
       match stored av kd w (ukey o) with
       | Some cur => if decide (un_Version cur = un_Version o)
                     then (None, (<[(av, kd, ukey o) := set_version (un_Version o + 1) o]> w.1, w.2))
                     else (Some conflict, w)
       | None => (Some missing, w)
       end;
     uc_Delete := λ av kd k w,
       match stored av kd w k with
       | Some _ => (None, (delete (av, kd, k) w.1, w.2))
       | None => (Some missing, w)
       end |}.

Lemma stored_insert av kd w o v : stored av kd (<[(av, kd, ukey o) := set_version v o]> w.1, w.2) (ukey o) = Some (set_version v o).
Proof. unfold stored. simpl. rewrite lookup_insert_eq. simpl. by rewrite decide_True. Qed.

Lemma stored_other av kd m t k k' x : k' ≠ k →
  stored av kd (<[(av, kd, k) := x]> m, t) k' = stored av kd (m, t) k'
  ∧ stored av kd (delete (av, kd, k) m, t) k' = stored av kd (m, t) k'.
Proof.
  intros Hne. unfold stored. simpl. rewrite lookup_insert_ne, lookup_delete_ne by congruence. done.
Qed.

#[global] Instance cluster_laws : ResourceLaws State.
Proof.
  refine {| uc_obj := λ av kd w k, stored av kd w k; uc_env := λ w w', w.1 = w'.1 ∧ w.2 ≤ w'.2 |}.
  - intros av kd w k o Ho. unfold stored in Ho. destruct (w.1 !! _) as [o'|]; [|done]. simpl in Ho.
    destruct (decide _); by simplify_eq.
  - intros av kd w w' k a b [Hm _] Ha Hb _. unfold stored in *. rewrite Hm in Ha. congruence.
  - intros av kd k w r w' [= <- <-]. destruct (stored av kd w k) as [o|] eqn:Hs; [exists w|]; done.
  - intros av kd o w r w'. cbn. destruct (stored av kd w (ukey o)) eqn:Hs; intros [= <- <-]; [done|].
    exists 1, w, (<[(av, kd, ukey o) := set_version 1 o]> w.1, w.2). destruct w as [m t].
    split_and!; try done; [by apply (stored_insert av kd (m, t))|]. intros k' Hk. by apply stored_other.
  - intros av kd o w r w'. cbn. destruct (stored av kd w (ukey o)) as [cur|] eqn:Hs; [|by intros [= <- <-]].
    destruct (decide _) as [Hv|]; intros [= <- <-]; [|done]. exists (un_Version o + 1), cur. split; [done|].
    exists w, (<[(av, kd, ukey o) := set_version (un_Version o + 1) o]> w.1, w.2). destruct w as [m t].
    split_and!; try done; [by apply (stored_insert av kd (m, t))|]. intros k' Hk. by apply stored_other.
  - intros av kd k w r w'. cbn. destruct (stored av kd w k) as [cur|] eqn:Hs; intros [= <- <-]; [|done].
    exists cur, w, (delete (av, kd, k) w.1, w.2). destruct w as [m t]. split_and!; try done.
    + unfold stored. simpl. by rewrite lookup_delete_eq.
    + intros k' Hk. by apply (stored_other av kd m t k k' cur).
Defined.

Definition tick (d : Z) (w : State) : option string * State := (None, (w.1, w.2 + Z.max 0 d)).
Definition app (ready : bool) : Unstructured :=
  {| un_Name := "a"; un_Namespace := "ns"; un_Annotations := ∅; un_Version := 3; un_Spec := JStr "old"; un_Rest := [];
     un_Status := Some (JObj [("conditions", JArr [JObj [("type", JStr "Ready"); ("status", JStr (if ready then "True" else "False"))]]);
                              ("lastAttemptedRevision", JStr "main@1")]) |}.
Definition with_app (ready : bool) : State := ({[("v1", "K", ("ns", "a")) := app ready]}, 0).
End Cluster.

Definition applied : option UError * Cluster.State :=
  ApplyResource "v1" "K" "a" "ns" (JStr "new") (Cluster.with_app true).

Lemma ApplyResource_upserts_witness :
  applied.1 = None ∧ (un_Spec <$> Cluster.stored "v1" "K" applied.2 ("ns", "a")) = Some (JStr "new")
  ∧ ∃ tr, Wrote (uc_obj "v1" "K") uc_env tr (Cluster.with_app true) applied.2 ∧ length tr = 1%nat.
Proof.
  assert (applied.1 = None) as Hn by (vm_compute; reflexivity).
  split; [exact Hn|]. split; [vm_compute; reflexivity|].
  assert (applied = (None, applied.2)) as Ha by (rewrite <- Hn; apply surjective_pairing).
  destruct (ApplyResource_upserts "v1" "K" "a" "ns" (JStr "new") (Cluster.with_app true) None applied.2 Ha) as (tr&Hw&Hok&_).
  exists tr. split; [exact Hw|]. destruct (Hok eq_refl) as (b&a&->&_). reflexivity.
Defined.

Lemma tick_clock (d : Z) (w w' : Cluster.State) : Cluster.tick d w = (None, w') → uc_env w w' ∧ w.2 + d ≤ w'.2.
Proof. destruct w as [m t]. intros [= <-]. simpl. split; [split; [done|lia]|lia]. Qed.

Lemma env_clock (w w' : Cluster.State) : uc_env w w' → w.2 ≤ w'.2.
Proof. by intros [_ ?]. Qed.

Definition polled (ready : bool) : option (bool * string * option string * Cluster.State) :=
  pollReady snd Cluster.tick (text_of "") 3 "v1" "K" "a" "ns" (3 * Second) (Cluster.with_app ready).

Lemma pollReady_verdict_witness :
  (λ p, p.1.1.1) <$> polled true = Some true
  ∧ ∃ ready rev err w', polled false = Some (ready, rev, err, w')
      ∧ (ready = false → err = None → ∃ w1 : Cluster.State, uc_env (Cluster.with_app false) w1 ∧ 0 + 3 * Second < w1.2).
Proof.
  split; [vm_compute; reflexivity|].
  destruct (pollReady_verdict snd Cluster.tick (text_of "")
    env_clock tick_clock 2 3 "v1" "K" "a" "ns" (3 * Second) (Cluster.with_app false) eq_refl)
    as (ready&rev&err&w'&Hp&_&Hlate); [lia|].
  exists ready, rev, err, w'. split; [exact Hp|exact Hlate].
Defined.

(** A wait after an annotation is satisfied by the readiness from before it:
    nothing compares the two. *)
Lemma stale_ready_green {W} `{ResourceClient W} now sleep print_any fuel av kd name ns deadline (w w1 : W) o :
  uc_Get av kd (ns, name) w = (Ok o, w1) → extractReadyCondition o = true →
  poll_loop now sleep print_any (S fuel) av kd name ns deadline w = Some (true, extractRevision print_any o, None, w1)
  ∧ ∀ m, extractReadyCondition (add_annotations m o) = true.
Proof. intros Hg Hr. cbn [poll_loop]. by rewrite Hg, Hr. Qed.
