(* ===== verification/Research.v ===== *)
(** * The research journal ([internal/worker/research.go]) and the usage of tools
      ([internal/worker/pi_usage.go])

    The journal is the bounded record of a workflow's runs that its next
    session reads; the usage counts the tool calls of a recorded session, which
    is stored and loaded at the end of the file. *)

From S2P Require Import Prelude GoStrings Redact Json NodeExec.

(** ** The journal *)

Definition ResearchJournalEntries : nat := 20.
Definition ResearchJournalMaxBytes : Z := 4096.
Definition ResearchInjectMaxBytes : Z := 1536.
Definition researchNoteCap : Z := 160.

Record ResearchEntry := { rj_At : string; rj_Run : string; rj_Status : string; rj_Model : string; rj_Note : string }.

Section journal.
(** [encoding/json] of the entries; a journal that does not decode whole still
    yields the entries decoded before the error. *)
Context (marshal : list ResearchEntry → string) (unmarshal : string → list ResearchEntry * bool).

Definition stamp_entry (now : string) (e : ResearchEntry) : ResearchEntry :=
  {| rj_At := if decide (rj_At e = "") then now else rj_At e; rj_Run := rj_Run e; rj_Status := rj_Status e;
     rj_Model := rj_Model e;
     rj_Note := if researchNoteCap <? slen (rj_Note e) then str_take (Z.to_nat researchNoteCap) (rj_Note e) else rj_Note e |}.

Definition newest (n : nat) (l : list ResearchEntry) : list ResearchEntry :=
  if decide (n < length l)%nat then drop (length l - n) l else l.

(** [for len(out) > maxBytes && len(entries) > 1 { entries = entries[len(entries)-1:] ... }] *)
Fixpoint shrink (fuel : nat) (maxBytes : Z) (entries : list ResearchEntry) : list ResearchEntry :=
  match fuel with
  | O => entries
  | S fuel =>
      if (maxBytes <? slen (marshal entries)) && bool_decide (1 < length entries)%nat
      then shrink fuel maxBytes (drop (length entries - 1) entries) else entries
  end.

Definition AppendResearchJournal (now prev : string) (e : ResearchEntry) (maxEntries : nat) (maxBytes : Z) : string :=
  let old := if decide (prev = "") then [] else (unmarshal prev).1 in
  let entries := newest maxEntries (old ++ [stamp_entry now e]) in
  let entries := shrink (length entries) maxBytes entries in
  if maxBytes <? slen (marshal entries) then prev else marshal entries.

Definition entry_line (e : ResearchEntry) : string :=
  "- " +:+ rj_At e +:+ " " +:+ rj_Status e
  +:+ (if decide (rj_Model e = "") then "" else " [" +:+ rj_Model e +:+ "]")
  +:+ (if decide (rj_Note e = "") then "" else ": " +:+ rj_Note e) +:+ String "010" "".

Fixpoint render_lines (maxBytes : Z) (out : string) (l : list ResearchEntry) : string :=
  match l with
  | [] => out
  | e :: l =>
      let line := entry_line e in
      if maxBytes <? slen out + slen line then out else render_lines maxBytes (out +:+ line) l
  end.

Definition RenderResearchJournal (prev : string) (maxBytes : Z) : string :=
  if decide (prev = "") then ""
  else match unmarshal prev with
       | (entries, true) => render_lines maxBytes "" (reverse entries)
       | (_, false) => ""
       end.

(** ** Its bounds *)

Lemma newest_suffix n l : (0 < n)%nat → l ≠ [] → ∃ k, newest n l = drop k l ∧ (k < length l)%nat ∧ (length (newest n l) ≤ n)%nat.
Proof.
  intros Hn Hl. unfold newest. assert (length l ≠ 0%nat) by (by intros ?%nil_length_inv). destruct (decide _).
  - exists (length l - n)%nat. rewrite length_drop. split; [done|]. lia.
  - exists 0%nat. split; [done|]. lia.
Qed.

Lemma shrink_suffix fuel maxBytes l : l ≠ [] → ∃ k, shrink fuel maxBytes l = drop k l ∧ (k < length l)%nat.
Proof.
  revert l. induction fuel as [|fuel IH]; intros l Hl; simpl.
  { exists 0%nat. split; [done|]. destruct l; simpl; [done|lia]. }
  assert (length l ≠ 0%nat) by (by intros ?%nil_length_inv).
  destruct (_ && _) eqn:Hc; [|exists 0%nat; split; [done|lia]].
  apply andb_prop in Hc as [_ Hlen%bool_decide_eq_true].
  destruct (IH (drop (length l - 1) l)) as (k&->&Hk).
  { intros Hd%(f_equal length). rewrite length_drop in Hd. simpl in Hd. lia. }
  rewrite length_drop in Hk. exists (length l - 1 + k)%nat. rewrite drop_drop. split; [done|lia].
Qed.

(** An append keeps the ending of the story. The journal it returns is the one
    it was given, when the new entry alone does not fit, or the text of a
    suffix of the old entries with the new one at its end, within both bounds. *)
Lemma AppendResearchJournal_bounded now prev e maxEntries maxBytes :
  (0 < maxEntries)%nat →
  let old := if decide (prev = "") then [] else (unmarshal prev).1 in
  AppendResearchJournal now prev e maxEntries maxBytes = prev
  ∨ ∃ k, let kept := drop k (old ++ [stamp_entry now e]) in
      AppendResearchJournal now prev e maxEntries maxBytes = marshal kept
      ∧ last kept = Some (stamp_entry now e) ∧ (length kept ≤ maxEntries)%nat ∧ slen (marshal kept) ≤ maxBytes.
Proof.
  intros Hm old. unfold AppendResearchJournal. fold old. set (all := old ++ [stamp_entry now e]).
  assert (all ≠ []) as Hne by (unfold all; by destruct old).
  destruct (newest_suffix maxEntries all Hm Hne) as (k1&H1&Hk1&Hl1).
  assert (newest maxEntries all ≠ []) as Hne1.
  { rewrite H1. intros Hd%(f_equal length). rewrite length_drop in Hd. simpl in Hd. lia. }
  destruct (shrink_suffix (length (newest maxEntries all)) maxBytes _ Hne1) as (k2&H2&Hk2).
  rewrite H2. destruct (Z.ltb_spec maxBytes (slen (marshal (drop k2 (newest maxEntries all))))) as [|Hle]; [by left|].
  right. exists (k1 + k2)%nat. cbv zeta. rewrite H1, drop_drop in Hle |- *. split; [done|].
  rewrite H1, length_drop in Hk2, Hl1. split; [|rewrite length_drop; split; [lia|done]].
  unfold all. rewrite drop_app_le by (unfold all in *; rewrite length_app in *; simpl in *; lia). apply last_snoc.
Qed.

(** What a session is given stays within its bound. *)
Lemma RenderResearchJournal_bounded prev maxBytes : 0 ≤ maxBytes → slen (RenderResearchJournal prev maxBytes) ≤ maxBytes.
Proof.
  intros Hm. unfold RenderResearchJournal. destruct (decide _); [done|]. destruct (unmarshal prev) as [l [|]]; [|done].
  assert (∀ out, slen out ≤ maxBytes → slen (render_lines maxBytes out (reverse l)) ≤ maxBytes) as Hr; [|by apply Hr].
  generalize (reverse l). intros r. induction r as [|e r IH]; intros out Ho; simpl; [done|].
  destruct (Z.ltb_spec maxBytes (slen out + slen (entry_line e))); [done|]. apply IH. rewrite slen_app. lia.
Qed.

(** Over the bound in bytes by one entry too many, the journal keeps the newest
    alone, though it is documented to drop the oldest until it fits. *)
Lemma journal_drops_all maxBytes a b c :
  maxBytes < slen (marshal [a; b; c]) → shrink 3 maxBytes [a; b; c] = [c].
Proof.
  intros Hm. cbn [shrink]. rewrite (proj2 (Z.ltb_lt _ _)) by done. rewrite bool_decide_eq_true_2 by (simpl; lia).
  cbn. by rewrite andb_false_r.
Qed.
End journal.

(** ** Tool usage *)

(** The longest white space at the head. *)
Fixpoint fields_from (fuel : nat) (word s : string) : list string :=
  match fuel with
  | O => []
  | S fuel =>
      let emit := if decide (word = "") then [] else [word] in
      match s with
      | "" => emit
      | String c r =>
          match strip_one space_runes s with
          | Some rest => emit ++ fields_from fuel "" rest
          | None => fields_from fuel (word +:+ String c "") r
          end
      end
  end.
Definition Fields (s : string) : list string := fields_from (S (String.length s)) "" s.

Fixpoint trim_left (p : ascii → bool) (s : string) : string :=
  match s with "" => "" | String c r => if p c then trim_left p r else s end.
Definition Trim (cutset s : string) : string :=
  let p c := contains_byte cutset c in String.rev (trim_left p (String.rev (trim_left p s))).

Definition shell_marks : string := bytes_of [39; 34; 40; 41; 59; 124; 38].

Definition isGrepCommand (cmd : string) : bool :=
  existsb (λ f, bool_decide (Trim shell_marks f ∈ ["grep"; "rg"; "/usr/bin/grep"; "/usr/bin/rg"])) (Fields cmd).

Record ToolUsage := { tu_ToolCalls : Z; tu_RigCalls : Z; tu_GrepCalls : Z }.

Record UsageBlock := { ub_Type : string; ub_Name : string; ub_Input : string; ub_Arguments : string }.

Definition dec_command : Decoder string := dec_struct (field "command" dec_string).
Definition dec_usage_block : Decoder UsageBlock :=
  dec_struct (λ o,
    t ← field "type" dec_string o; n ← field "name" dec_string o;
    i ← field "input" dec_command o; a ← field "arguments" dec_command o;
    Some {| ub_Type := t; ub_Name := n; ub_Input := i; ub_Arguments := a |}).
Definition dec_usage_line : Decoder (list UsageBlock) :=
  dec_struct (field "message" (dec_struct (field "content" (dec_list dec_usage_block)))).

Definition count_block (u : ToolUsage) (b : UsageBlock) : ToolUsage :=
  if decide (ub_Type b ≠ "tool_use" ∧ ub_Type b ≠ "toolCall") then u
  else
    let cmd := if decide (ub_Input b = "") then ub_Arguments b else ub_Input b in
    let rig := bool_decide (ub_Name b = "rig") in
    let grep := negb rig && (bool_decide (ub_Name b = "grep") || isGrepCommand cmd) in
    {| tu_ToolCalls := tu_ToolCalls u + 1; tu_RigCalls := tu_RigCalls u + (if rig then 1 else 0);
       tu_GrepCalls := tu_GrepCalls u + (if grep then 1 else 0) |}.

Definition quoted (s : string) : string := bytes_of [34] +:+ s +:+ bytes_of [34].

Definition count_line (parse_json : string → option json) (u : ToolUsage) (line : string) : ToolUsage :=
  if negb (str_contains line (quoted "tool_use")) && negb (str_contains line (quoted "toolCall")) then u
  else match parse_json line ≫= dec_usage_line with
       | None => u
       | Some blocks => foldl count_block u blocks
       end.

Definition countToolUsage (parse_json : string → option json) (raw : string) : ToolUsage :=
  foldl (count_line parse_json) {| tu_ToolCalls := 0; tu_RigCalls := 0; tu_GrepCalls := 0 |} (split_byte "010" raw).

(** Every counted call is at most one of the two kinds. *)
Lemma countToolUsage_kinds parse_json raw :
  let u := countToolUsage parse_json raw in
  0 ≤ tu_RigCalls u ∧ 0 ≤ tu_GrepCalls u ∧ tu_RigCalls u + tu_GrepCalls u ≤ tu_ToolCalls u.
Proof.
  assert (∀ l u, 0 ≤ tu_RigCalls u ∧ 0 ≤ tu_GrepCalls u ∧ tu_RigCalls u + tu_GrepCalls u ≤ tu_ToolCalls u →
    let v := foldl count_block u l in
    0 ≤ tu_RigCalls v ∧ 0 ≤ tu_GrepCalls v ∧ tu_RigCalls v + tu_GrepCalls v ≤ tu_ToolCalls v) as Hb.
  { intros l. induction l as [|b l IH]; intros u Hu; [done|]. apply IH. unfold count_block.
    destruct (decide _); [done|]. simpl. destruct (bool_decide (ub_Name b = "rig")); simpl; [lia|]. destruct (_ || _); lia. }
  cbv zeta. unfold countToolUsage. generalize (split_byte "010" raw). intros l.
  assert (∀ u, 0 ≤ tu_RigCalls u ∧ 0 ≤ tu_GrepCalls u ∧ tu_RigCalls u + tu_GrepCalls u ≤ tu_ToolCalls u →
    let v := foldl (count_line parse_json) u l in
    0 ≤ tu_RigCalls v ∧ 0 ≤ tu_GrepCalls v ∧ tu_RigCalls v + tu_GrepCalls v ≤ tu_ToolCalls v) as Hl; [|by apply Hl].
  induction l as [|s l IH]; intros u Hu; [done|]. apply IH. unfold count_line.
  destruct (_ && _); [done|]. destruct (_ ≫= _); [by apply Hb|done].
Qed.

Example grep_words :
  isGrepCommand "cat f | xargs grep -n x" = true ∧ isGrepCommand "(rg foo);" = true ∧ isGrepCommand "documenting" = false.
Proof. vm_compute. done. Qed.

(** ** The stored session of a run ([SavePiSession] of internal/worker/plugin.go,
      [LoadPiSession] of internal/agent/rpc.go)

    The newest session file, redacted, compressed and encoded behind a marker,
    then a small key that says the blob is there; and the way back. *)

Definition maxPiSession : Z := 20971520.
Definition piSessionDataSuffix : string := "/data".
Definition PiSessionMarker : string := "gz1:".

Record PiSessionMeta := { pm_Bytes : Z; pm_SavedAt : string; pm_Usage : ToolUsage }.

(** The files of the pod. *)
Class PodFiles (W : Type) := {
  fi_size : string → W → option Z;
  fi_read : string → W → result string string;
  fi_remove : string → W → W;
}.

Section upload.
Context {W : Type} `{NodeStore W} `{PodFiles W}.
Context (gzip : string → string) (gunzip : string → result string string).
Context (base64 : string → string) (unbase64 : string → result string string).
Context (json_string : string → string) (marshal_meta : PiSessionMeta → string).
Context (parse_json : string → option json) (now_text : W → string) (quote : string → string).

Definition too_big (file : string) (size : Z) : string :=
  "pi session " +:+ file +:+ " is " +:+ pretty size +:+ " bytes (cap " +:+ pretty maxPiSession +:+ "), skipping upload".

Definition session_payload (raw : string) : string := PiSessionMarker +:+ base64 (gzip (Redact raw)).

Definition session_base (workflow run : string) : string := workflow +:+ ":" +:+ run +:+ ":pi-session".

(** The upload of what was read. *)
Definition store_session (store base raw : string) (w : W) : option string * W :=
  match ns_SaveState store (base +:+ piSessionDataSuffix) (json_string (session_payload raw)) w with
  | (Err e, w) => (Some e, w)
  | (Ok _, w) =>
      match ns_SaveState store base (marshal_meta {| pm_Bytes := slen raw; pm_SavedAt := now_text w;
                                                     pm_Usage := countToolUsage parse_json raw |}) w with
      | (Err e, w) => (Some e, w)
      | (Ok _, w) => (None, w)
      end
  end.

Definition upload (store workflow run file : string) (w : W) : option string * W :=
  match fi_size file w with
  | Some n => if maxPiSession <? n then (Some (too_big file n), w)
              else match fi_read file w with
                   | Err e => (Some e, w)
                   | Ok raw => if maxPiSession <? slen raw then (Some (too_big file (slen raw)), w)
                               else store_session store (session_base workflow run) raw w
                   end
  | None => match fi_read file w with
            | Err e => (Some e, w)
            | Ok raw => if maxPiSession <? slen raw then (Some (too_big file (slen raw)), w)
                        else store_session store (session_base workflow run) raw w
            end
  end.

(** The raw file goes away on every way out. *)
Definition SavePiSession (wired : bool) (store workflow run : string) (files : list string) (w : W) : option string * W :=
  match last files with
  | None => (None, w)
  | Some file =>
      if negb wired then (None, w)
      else let '(r, w) := upload store workflow run file w in (r, fi_remove file w)
  end.

(** The reader stops at the limit. *)
Definition limit_reader (n : Z) (s : string) : string := if slen s <=? n then s else str_take (Z.to_nat n) s.

Definition LoadPiSession (payload : string) : result string string :=
  match strip_prefix PiSessionMarker payload with
  | None => Err ("pi session payload has unknown encoding (prefix " +:+ quote (str_take 16 payload) +:+ ")")
  | Some b64 =>
      match unbase64 b64 with
      | Err e => Err e
      | Ok z => match gunzip z with Err e => Err e | Ok s => Ok (limit_reader maxPiSession s) end
      end
  end.

(** ** Properties *)

Lemma cred_at_shorter s scheme rest : cred_at s = Some (scheme, rest) → (String.length scheme + String.length rest < String.length s)%nat.
Proof.
  unfold cred_at. destruct (scheme_at s) as [[sc r]|] eqn:Hs; [|done].
  assert (s = sc +:+ r) as ->.
  { unfold scheme_at in Hs. destruct (strip_prefix "https://" s) as [x|] eqn:H1.
    - apply strip_prefix_Some in H1 as ->. by simplify_eq.
    - destruct (strip_prefix "http://" s) as [x|] eqn:H2; [|done]. apply strip_prefix_Some in H2 as ->. by simplify_eq. }
  destruct (span cred_user_byte r) as [u r1] eqn:Hu. apply span_app in Hu as [-> _].
  destruct u as [|a u]; [done|]. destruct r1 as [|c r1]; [done|].
  destruct (ascii_dec c ":") as [->|Hc].
  2:{ destruct c as [[] [] [] [] [] [] [] []]; try done; by destruct Hc. }
  destruct (span cred_pass_byte r1) as [p r2] eqn:Hp. apply span_app in Hp as [-> _].
  destruct p as [|b p]; [done|]. destruct r2 as [|d r2]; [done|].
  destruct (ascii_dec d "@") as [->|Hd].
  2:{ destruct d as [[] [] [] [] [] [] [] []]; try done; by destruct Hd. }
  intros [= <- <-]. repeat progress (rewrite ?length_app_str; cbn [String.length]). lia.
Qed.

Lemma redact_shorter fuel s : (String.length (redact_from fuel s) ≤ String.length s)%nat.
Proof.
  revert s. induction fuel as [|fuel IH]; intros s; cbn [redact_from]; [done|].
  destruct (cred_at s) as [[scheme rest]|] eqn:Hc.
  - apply cred_at_shorter in Hc. rewrite length_app_str. specialize (IH rest). lia.
  - destruct s as [|c s]; [done|]. cbn [String.length]. specialize (IH s). lia.
Qed.

(** A stored session is the run's own, redacted. An upload that succeeds
    has read the newest file, stored its redacted text and only after that the
    key that says so; what was stored is loaded back as that text, whole; the
    raw file is removed at the end of it, and so it is after every failure. *)
Theorem SavePiSession_roundtrip store workflow run files file (w : W) r w' :
  (∀ s, gunzip (gzip s) = Ok s) → (∀ s, unbase64 (base64 s) = Ok s) →
  SavePiSession true store workflow run (files ++ [file]) w = (r, w') →
  (∃ w1, w' = fi_remove file w1)
  ∧ (r = None → ∃ raw w1 w2 meta, fi_read file w = Ok raw ∧ slen raw ≤ maxPiSession
       ∧ ns_SaveState store (session_base workflow run +:+ "/data") (json_string (session_payload raw)) w = (Ok tt, w1)
       ∧ ns_SaveState store (session_base workflow run) (marshal_meta meta) w1 = (Ok tt, w2)
       ∧ w' = fi_remove file w2 ∧ pm_Bytes meta = slen raw ∧ pm_Usage meta = countToolUsage parse_json raw
       ∧ LoadPiSession (session_payload raw) = Ok (Redact raw)).
Proof.
  intros Hz Hb. unfold SavePiSession. rewrite last_snoc. cbn [negb].
  destruct (upload store workflow run file w) as [r' w1] eqn:Hu. intros [= <- <-]. split; [by eexists|]. intros ->.
  assert (∃ raw, fi_read file w = Ok raw ∧ slen raw ≤ maxPiSession
    ∧ store_session store (session_base workflow run) raw w = (None, w1)) as (raw&Hr&Hle&Hs).
  { unfold upload in Hu.
    destruct (fi_size file w) as [n|]; [destruct (maxPiSession <? n); [done|]|]; (destruct (fi_read file w) as [raw|e] eqn:Hr; [|done]);
      destruct (Z.ltb_spec maxPiSession (slen raw)); try done; by exists raw. }
  unfold store_session in Hs. destruct (ns_SaveState _ (_ +:+ _) _ w) as [[[]|e] wa] eqn:H1; [|done].
  destruct (ns_SaveState _ _ _ wa) as [[[]|e] wb] eqn:H2; [|done]. injection Hs as <-.
  eexists raw, wa, wb, _. split_and!; [done|done|exact H1|exact H2|done|done|done|].
  unfold LoadPiSession, session_payload. rewrite strip_prefix_app, Hb, Hz. f_equal. unfold limit_reader.
  pose proof (redact_shorter (S (String.length raw)) raw) as Hlen. fold (Redact raw) in Hlen.
  rewrite (proj2 (Z.leb_le _ _)); [done|]. unfold slen in *. lia.
Qed.
End upload.

(** ** A run *)

Module Pod.
(** A file and the keys saved, in order. *)
Notation State := (gmap string string * list (string * string))%type.
#[global] Instance pod_store : NodeStore State :=
  {| ns_GetState := λ _ _ w, (Ok "", w); ns_SaveState := λ _ k v w, (Ok tt, (w.1, w.2 ++ [(k, v)])); ns_Publish := λ _ _ _ w, (Ok tt, w) |}.
#[global] Instance pod_files : PodFiles State :=
  {| fi_size := λ f w, slen <$> w.1 !! f; fi_read := λ f w, match w.1 !! f with Some s => Ok s | None => Err "no file" end;
     fi_remove := λ f w, (delete f w.1, w.2) |}.
Definition start : State := ({["b.jsonl" := "see https://u:p@h/x"]}, []).
Definition save : option string * State :=
  SavePiSession id id id (λ _, "meta") (λ _, None) (λ _, "now") true "st" "w" "r" ["a.jsonl"; "b.jsonl"] start.
End Pod.

Lemma SavePiSession_roundtrip_witness :
  Pod.save.1 = None ∧ Pod.save.2.2 = [("w:r:pi-session/data", "gz1:see https://h/x"); ("w:r:pi-session", "meta")]
  ∧ Pod.save.2.1 !! "b.jsonl" = None ∧ ∃ w1, Pod.save.2 = fi_remove "b.jsonl" w1.
Proof.
  split; [vm_compute; reflexivity|]. split; [vm_compute; reflexivity|]. split; [vm_compute; reflexivity|].
  assert (Pod.save = (Pod.save.1, Pod.save.2)) as Hs by apply surjective_pairing.
  exact (proj1 (SavePiSession_roundtrip id Ok id Ok id (λ _, "meta") (λ _, None) (λ _, "now") id "st" "w" "r" ["a.jsonl"] "b.jsonl"
    Pod.start Pod.save.1 Pod.save.2 (λ s, eq_refl) (λ s, eq_refl) Hs)).
Defined.
