(* ===== verification/Pipeline.v ===== *)
(** * The declarative pipeline ([internal/worker/pipeline.go])

    Prepare, agent, deploy, with the two deterministic skips, the events at the
    boundaries and the status at every exit. [Run] returns a result or panics;
    its error is always nil. *)

From S2P Require Import Prelude GoStrings Json Api Kube Template WorkflowState AgentSession AgentTask Plugin.

Inductive PipelineOutcome := OutcomeGreen | OutcomeSkipped | OutcomeFailed.

Definition Outcome_String (o : PipelineOutcome) : string :=
  match o with OutcomeGreen => "green" | OutcomeSkipped => "skipped" | OutcomeFailed => "failed" end.

Record PipelineResult := { pl_Outcome : PipelineOutcome; pl_Message : string }.

Inductive PipelineEnd := Finished (r : PipelineResult) | Crashed.

(** The last bytes of a text. *)
Definition tailN (s : string) (n : nat) : string :=
  if decide (String.length s ≤ n)%nat then s else str_drop (String.length s - n) s.

(** The Dapr client of the pipeline; it may be absent. *)
Record PipeDapr (W : Type) := {
  pd_Publish : string → string → string → W → W;
  pd_SaveState : string → string → string → W → W;
}.
Arguments pd_Publish {W} _.
Arguments pd_SaveState {W} _.

Record Options := { op_Workflow : Workflow; op_LastRigHash : string; op_Workdir : string; op_Source : string; op_ExtraEnv : list string }.

(** ** Changes of the status *)

Definition set_gate_status (g m : string) (now : Z) (s : WorkflowStatus) : WorkflowStatus :=
  {| ws_ObservedGeneration := ws_ObservedGeneration s; ws_LastProcessedRevision := ws_LastProcessedRevision s;
     ws_LastAgentCommit := ws_LastAgentCommit s; ws_LastRigHash := ws_LastRigHash s; ws_GateStatus := g;
     ws_ReviewReady := ws_ReviewReady s; ws_LastRunAt := now; ws_Message := m; ws_Conditions := ws_Conditions s |}.
Definition set_rig_hash (h : string) (s : WorkflowStatus) : WorkflowStatus :=
  {| ws_ObservedGeneration := ws_ObservedGeneration s; ws_LastProcessedRevision := ws_LastProcessedRevision s;
     ws_LastAgentCommit := ws_LastAgentCommit s; ws_LastRigHash := h; ws_GateStatus := ws_GateStatus s;
     ws_ReviewReady := ws_ReviewReady s; ws_LastRunAt := ws_LastRunAt s; ws_Message := ws_Message s; ws_Conditions := ws_Conditions s |}.
Definition set_processed (commit source : string) (s : WorkflowStatus) : WorkflowStatus :=
  {| ws_ObservedGeneration := ws_ObservedGeneration s;
     ws_LastProcessedRevision := if decide (source = "") then ws_LastProcessedRevision s else source;
     ws_LastAgentCommit := commit; ws_LastRigHash := ws_LastRigHash s; ws_GateStatus := ws_GateStatus s;
     ws_ReviewReady := ws_ReviewReady s; ws_LastRunAt := ws_LastRunAt s; ws_Message := ws_Message s; ws_Conditions := ws_Conditions s |}.

Definition event_string (k : string) (r : PluginResult) : option string :=
  match pt_Event r !! k with Some (JStr s) => Some s | _ => None end.

Definition commitFrom (r : PluginResult) : string := default (pt_Artifact r) (event_string "commit" r).

(** The hash of a prepare that names one. *)
Definition rig_hash (r : PluginResult) : option string :=
  match event_string "rig_hash" r with Some h => if decide (h = "") then None else Some h | None => None end.

Definition failed_publication : PluginResult :=
  {| pt_Artifact := ""; pt_Changed := None; pt_Event := ∅; pt_Status := "failed" |}.

Definition scope_text (name : string) : string :=
  newline +:+ newline +:+ "SCOPE: this Workflow owns exactly ONE project: " +:+ name +:+ ". Work ONLY on raw/arch/" +:+ name
  +:+ "/, its model.c4, and wiki/entities/" +:+ name +:+ ".md (plus index.md/log.md). Do NOT read or modify any other project under "
  +:+ "raw/arch/ — those are owned by other Workflows.".

Section pipeline.
Context {W F : Type} `{Shell W} `{HF : Float64 F}.
Context (parse_json : string → option json) (now : W → Z).
Context (Resolve : PluginRef → string → result string (string * list string)).
Context (Tasks : TaskTemplate → W → result string string * W).
Context (dapr : option (PipeDapr W)) (DaprStateStore DaprPubSub : string).
(** [PatchStatus], when there is a patcher; its error is only logged. *)
Context (PatchStatus : option (string → (WorkflowStatus → WorkflowStatus) → W → W)).
Context (Agent : string → option (Gate W) → Z → W → TaskOutcome F * W).
Context (prepare_json : PrepareSpec → string) (gate_json : GateRef → string) (deploy_json : DeploySpec → string)
  (event_json : string → PluginResult → string) (usage_json : string → TaskResult F → string).

Definition patchStatus (name : string) (f : WorkflowStatus → WorkflowStatus) (w : W) : W :=
  match PatchStatus with Some patch => patch name f w | None => w end.

Definition event_topic (field : string) (e : EventsSpec) : string :=
  if decide (field = "onPrepare") then ev_OnPrepare e
  else if decide (field = "onResolved") then ev_OnResolved e
  else if decide (field = "onFailed") then ev_OnFailed e
  else if decide (field = "onDeployed") then ev_OnDeployed e
  else "".

Definition publish (wf : Workflow) (field : string) (res : PluginResult) (w : W) : W :=
  match dapr, wf_Events (wk_Spec wf) with
  | Some d, Some e =>
      let topic := event_topic field e in
      if decide (topic = "") then w
      else pd_Publish d (if decide (DaprPubSub = "") then "pubsub" else DaprPubSub) topic (event_json (om_Name (wk_Meta wf)) res) w
  | _, _ => w
  end.

Definition finishFailed (name msg : string) (w : W) : PipelineEnd * W :=
  (Finished {| pl_Outcome := OutcomeFailed; pl_Message := msg |},
   patchStatus name (set_gate_status "failed" (tailN msg 400) (now w)) w).

Definition phase_env (o : Options) (phase spec : string) : PluginEnv :=
  let wf := op_Workflow o in
  let s := wf_Source (wk_Spec wf) in
  {| pe_Workflow := om_Name (wk_Meta wf); pe_Namespace := om_Namespace (wk_Meta wf); pe_Phase := phase; pe_Spec := spec;
     pe_Source := op_Source o; pe_Workdir := op_Workdir o; pe_State := om_Name (wk_Meta wf); pe_SourceURL := so_Repo s;
     pe_SourceBranch := so_Branch s; pe_SourceLanguage := so_Language s; pe_WorkspaceDir := op_Workdir o;
     pe_Shadow := from_option ws_Shadow "" (wf_WorkspaceRepo (wk_Spec wf)) |}.

(** The bot's credential does not enter the phases. *)
Definition phase_extra (o : Options) : list string := FilterEnv (op_ExtraEnv o) [BotTokenEnvKey].

(** A phase made of a plugin: its result and output, or the message it failed with. *)
Definition run_phase (o : Options) (phase : string) (ref : PluginRef) (spec : string) (w : W)
    : result string PluginResult * W :=
  match Resolve ref phase with
  | Err e => (Err ("resolve " +:+ phase +:+ " plugin: " +:+ e), w)
  | Ok (command, args) =>
      match RunPlugin parse_json None None command args (phase_env o phase spec) (phase_extra o) w with
      | (_, out, Some _, w) => (Err (phase +:+ " plugin failed: " +:+ tailN out 400), w)
      | (res, _, None, w) => (Ok res, w)
      end
  end.

(** The tokens are saved through a client that may be nil. *)
Definition report_usage (name : string) (res : TaskResult F) (w : W) : option W :=
  if 0 <? usage_Total (tr_Usage res) then
    (λ d, pd_SaveState d DaprStateStore (name +:+ ":usage:last") (usage_json name res) w) <$> dapr
  else Some w.

Definition phase_gate (o : Options) (command : string) (args : list string) : GatePlugin :=
  let g := ag_Gate (wf_Agent (wk_Spec (op_Workflow o))) in
  {| gp_Command := command; gp_Args := args; gp_Env := phase_env o "gate" (gate_json g); gp_ExtraEnv := phase_extra o;
     gp_Name := pr_Name (gt_Plugin g); gp_Timeout := "" |}.

Definition fails (name msg : string) (w : W) : option PipelineEnd * W :=
  let '(e, w) := finishFailed name msg w in (Some e, w).

Definition after_agent (o : Options) (res : TaskResult F) (w : W) : option PipelineEnd * W :=
  let wf := op_Workflow o in
  let name := om_Name (wk_Meta wf) in
  match report_usage name res w with
  | None => (Some Crashed, w)
  | Some w =>
      if tr_Green res then (None, w)
      else
        let msg := "gate failed after " +:+ pretty (tr_Attempts res) +:+ " evaluation(s)" in
        let w := publish wf "onFailed" failed_publication w in
        (Some (Finished {| pl_Outcome := OutcomeFailed; pl_Message := msg |}),
         patchStatus name (set_gate_status "failed" msg (now w)) w)
  end.

Definition max_fixes (a : AgentSpec) : Z := if ag_MaxFixes a =? 0 then 3 else ag_MaxFixes a.

(** The agent's phase: [None] when it is green, or how the run ends. *)
Definition agent_phase (o : Options) (w : W) : option PipelineEnd * W :=
  let a := wf_Agent (wk_Spec (op_Workflow o)) in
  let name := om_Name (wk_Meta (op_Workflow o)) in
  match Resolve (gt_Plugin (ag_Gate a)) "gate" with
  | Err e => fails name ("resolve gate plugin: " +:+ e) w
  | Ok (command, args) =>
      match Tasks (ag_TaskTemplate a) w with
      | (Err e, w) => fails name ("resolve task template: " +:+ e) w
      | (Ok task, w) =>
          match Agent (task +:+ scope_text name) (Some (gate_run None (phase_gate o command args))) (max_fixes a) w with
          | (Panicked, w) => (Some Crashed, w)
          | (Returned _ (Some e), w) => fails name ("agent run: " +:+ e) w
          | (Returned res None, w) => after_agent o res w
          end
      end
  end.

Definition skip (name status_message message : string) (w : W) : PipelineEnd * W :=
  (Finished {| pl_Outcome := OutcomeSkipped; pl_Message := message |},
   patchStatus name (set_gate_status "green" status_message (now w)) w).

(** What the prepare says of the source: skip, crash, or go on. *)
Definition after_prepare (o : Options) (res : PluginResult) (w : W) : option PipelineEnd * W :=
  let name := om_Name (wk_Meta (op_Workflow o)) in
  if match pt_Changed res with Some false => true | _ => false end
  then let '(e, w) := skip name "no change (deterministic skip)" "no change" w in (Some e, w)
  else match rig_hash res with
       | None => (None, w)
       | Some h =>
           if decide (h = op_LastRigHash o) then
             (* rigHash[:12] *)
             if decide (String.length h < 12)%nat then (Some Crashed, w)
             else let '(e, w) := skip name "no change (rig hash unchanged)" "rig hash unchanged" w in (Some e, w)
           else (None, patchStatus name (set_rig_hash h) w)
       end.

Definition deploy_phase (o : Options) (prep : PluginResult) (w : W) : PipelineEnd * W :=
  let wf := op_Workflow o in
  let name := om_Name (wk_Meta wf) in
  match run_phase o "deploy" (dp_Plugin (wf_Deploy (wk_Spec wf))) (deploy_json (wf_Deploy (wk_Spec wf))) w with
  | (Err msg, w) => finishFailed name msg w
  | (Ok res, w) =>
      let w := publish wf "onResolved" res w in
      (Finished {| pl_Outcome := OutcomeGreen; pl_Message := "deployed" |},
       patchStatus name (λ s,
         set_processed (commitFrom res) (op_Source o)
           ((match event_string "rig_hash" prep with Some h => set_rig_hash h | None => id end)
             (set_gate_status "green" "deployed" (now w) s))) w)
  end.

Definition RunPipeline (o : Options) (w : W) : PipelineEnd * W :=
  let wf := op_Workflow o in
  let name := om_Name (wk_Meta wf) in
  match run_phase o "prepare" (pp_Plugin (wf_Prepare (wk_Spec wf))) (prepare_json (wf_Prepare (wk_Spec wf))) w with
  | (Err msg, w) => finishFailed name msg w
  | (Ok prep, w) =>
      let w := publish wf "onPrepare" prep w in
      match after_prepare o prep w with
      | (Some e, w) => (e, w)
      | (None, w) =>
          if EnabledOrDefault (wf_Agent (wk_Spec wf)) then
            match agent_phase o w with
            | (Some e, w) => (e, w)
            | (None, w) => deploy_phase o prep w
            end
          else deploy_phase o prep w
      end
  end.

(** ** Properties *)

(** The bot's credential is in the environment of no phase. *)
Lemma phase_env_scrubbed o phase spec v : (BotTokenEnvKey +:+ "=" +:+ v) ∉ EnvSlice (phase_env o phase spec) (phase_extra o).
Proof.
  unfold EnvSlice. rewrite not_elem_of_app. split.
  - rewrite !elem_of_cons, elem_of_nil. intros Hin. by repeat destruct Hin as [Hin|Hin].
  - intros Hin. apply FilterEnv_spec in Hin as [_ Hin]. by apply (Hin BotTokenEnvKey v); [set_solver| |].
Qed.

(** How a run ended says what ran. *)
Definition ended (o : Options) (w : W) (r : PipelineResult) (w' : W) : Prop :=
  let wf := op_Workflow o in
  let name := om_Name (wk_Meta wf) in
  let prepared prep w1 := run_phase o "prepare" (pp_Plugin (wf_Prepare (wk_Spec wf))) (prepare_json (wf_Prepare (wk_Spec wf))) w = (Ok prep, w1) in
  match pl_Outcome r with
  | OutcomeGreen =>
      ∃ prep w1 w2 dep w3 f, prepared prep w1 ∧ pt_Changed prep ≠ Some false ∧ rig_hash prep ≠ Some (op_LastRigHash o)
      ∧ (EnabledOrDefault (wf_Agent (wk_Spec wf)) = true →
           ∃ task gate wa res wb, Agent task (Some gate) (max_fixes (wf_Agent (wk_Spec wf))) wa = (Returned res None, wb) ∧ tr_Green res = true)
      ∧ run_phase o "deploy" (dp_Plugin (wf_Deploy (wk_Spec wf))) (deploy_json (wf_Deploy (wk_Spec wf))) w2 = (Ok dep, w3)
      ∧ w' = patchStatus name f (publish wf "onResolved" dep w3) ∧ ∀ s, ws_GateStatus (f s) = "green"
  | OutcomeSkipped =>
      ∃ prep w1 m t, prepared prep w1 ∧ (pt_Changed prep = Some false ∨ rig_hash prep = Some (op_LastRigHash o))
      ∧ w' = patchStatus name (set_gate_status "green" m t) (publish wf "onPrepare" prep w1)
  | OutcomeFailed => ∃ m t w1, w' = patchStatus name (set_gate_status "failed" m t) w1
  end.

Lemma fails_ended o name msg (w w1 w' : W) e r :
  fails name msg w1 = (e, w') → e = Some (Finished r) → name = om_Name (wk_Meta (op_Workflow o)) → ended o w r w'.
Proof. unfold fails, finishFailed, ended. intros [= <- <-] [= <-] ->. simpl. by eexists _, _, _. Qed.

Lemma agent_phase_ended o (w w1 w' : W) r : agent_phase o w1 = (Some (Finished r), w') → ended o w r w'.
Proof.
  unfold agent_phase. destruct (Resolve _ _) as [[command args]|e]; [|intros Hf; by eapply fails_ended].
  destruct (Tasks _ w1) as [[task|e] w2]; [|intros Hf; by eapply fails_ended].
  destruct (Agent _ _ _ w2) as [[res [e|]|] w3]; [intros Hf; by eapply fails_ended| |done].
  unfold after_agent. destruct (report_usage _ res w3) as [w4|]; [|done]. destruct (tr_Green res); [done|].
  intros [= <- <-]. unfold ended. simpl. by eexists _, _, _.
Qed.

Lemma agent_phase_green o (w w' : W) :
  agent_phase o w = (None, w') →
  ∃ task gate wa res wb, Agent task (Some gate) (max_fixes (wf_Agent (wk_Spec (op_Workflow o)))) wa = (Returned res None, wb) ∧ tr_Green res = true.
Proof.
  unfold agent_phase, fails, finishFailed. destruct (Resolve _ _) as [[command args]|e]; [|done].
  destruct (Tasks _ w) as [[task|e] w2]; [|done]. destruct (Agent _ _ _ w2) as [[res [e|]|] w3] eqn:Ha; [done| |done].
  unfold after_agent. destruct (report_usage _ res w3) as [w4|]; [|done]. destruct (tr_Green res) eqn:Hg; [|done].
  intros _. by eexists _, _, _, _, _.
Qed.

(** C15. How a pipeline ends says what ran. A green run prepared a changed
    source whose hash is new, had its agent green where one is enabled, and
    deployed, in that order, and wrote a green status last. A skipped run did
    nothing after the prepare but announce it and write the status: neither an
    agent nor a deploy. A failed run wrote a failed status last. *)
Theorem RunPipeline_ended o (w : W) r w' : RunPipeline o w = (Finished r, w') → ended o w r w'.
Proof.
  unfold RunPipeline. destruct (run_phase o "prepare" _ _ w) as [[prep|msg] w1] eqn:Hprep.
  2:{ unfold finishFailed. intros [= <- <-]. unfold ended. simpl. by eexists _, _, _. }
  set (wp := publish _ "onPrepare" prep w1). destruct (after_prepare o prep wp) as [[e|] w2] eqn:Hafter.
  - intros [= -> <-]. revert Hafter. unfold after_prepare, skip.
    destruct (pt_Changed prep) as [[|]|] eqn:Hc.
    2:{ intros [= <- <-]. unfold ended. simpl. eexists prep, w1, _, _. split; [done|]. split; [by left|done]. }
    all: destruct (rig_hash prep) as [h|] eqn:Hh; [|done]; destruct (decide (h = _)) as [->|]; [|done];
      destruct (decide (_ < 12)%nat); [done|]; intros [= <- <-]; unfold ended; simpl; eexists prep, w1, _, _;
      (split; [done|]); (split; [by right|done]).
  - assert (pt_Changed prep ≠ Some false ∧ rig_hash prep ≠ Some (op_LastRigHash o)) as [Hc Hh].
    { revert Hafter. unfold after_prepare, skip. destruct (pt_Changed prep) as [[|]|]; [|done|];
        (destruct (rig_hash prep) as [h|]; [|done]); destruct (decide (h = _)); try done; try (by destruct (decide (_ < 12)%nat));
        intros _; (split; [done|congruence]). }
    clear Hafter. assert (∀ w3, deploy_phase o prep w3 = (Finished r, w') →
      (EnabledOrDefault (wf_Agent (wk_Spec (op_Workflow o))) = true →
        ∃ task gate wa res wb, Agent task (Some gate) (max_fixes (wf_Agent (wk_Spec (op_Workflow o)))) wa = (Returned res None, wb) ∧ tr_Green res = true) →
      ended o w r w') as Hdep.
    { intros w3 Hd Hag. unfold deploy_phase in Hd. destruct (run_phase o "deploy" _ _ w3) as [[dep|msg] w4] eqn:Hrun.
      - injection Hd as <- <-. unfold ended. simpl. eexists prep, w1, w3, dep, w4, _. split_and!; try done.
        intros s. destruct (event_string "rig_hash" prep); done.
      - unfold finishFailed in Hd. injection Hd as <- <-. unfold ended. simpl. by eexists _, _, _. }
    destruct (EnabledOrDefault _) eqn:Hen; [|intros Hd; by apply (Hdep w2)].
    destruct (agent_phase o w2) as [[e|] w3] eqn:Hag; [intros [= -> <-]; by apply (agent_phase_ended o w w2)|].
    intros Hd. apply (Hdep w3); [done|]. intros _. by eapply agent_phase_green.
Qed.

(** A source whose hash is short and unchanged crashes the run: the log line
    slices its first twelve bytes. *)
Lemma short_hash_crashes o prep (w : W) :
  pt_Changed prep ≠ Some false → rig_hash prep = Some (op_LastRigHash o) → (String.length (op_LastRigHash o) < 12)%nat →
  (after_prepare o prep w).1 = Some Crashed.
Proof.
  intros Hc Hh Hl. unfold after_prepare. destruct (pt_Changed prep) as [[|]|]; [|done|];
    rewrite Hh, decide_True by done; by rewrite decide_True.
Qed.
End pipeline.

(** ** A concrete worker

    Every plugin prints the same event, whose hash is the source's; the agent
    fixes nothing the first time and is green afterwards. *)

Module Line.
Record World := { done_ : list string; status : WorkflowStatus }.
Definition did (what : string) (w : World) : World := {| done_ := done_ w ++ [what]; status := status w |}.

#[local] Instance line_cents : Float64 Z :=
  {| f_zero := 0; f_add := Z.add; f_json := λ j, match j with JInt z => Some z | _ => None end; f_fixed4 := pretty |}.
#[local] Instance line_shell : Shell World :=
  {| sh_run := λ _ _ c w, ({| re_Out := "J"; re_Err := None; re_Ctx := None |}, did (cm_Path c) w) |}.
Definition line_json (s : string) : option json :=
  if decide (s = "J") then Some (JObj [("event", JObj [("rig_hash", JStr "0123456789abcdef"); ("commit", JStr "c1")])]) else None.

Definition task_result (green : bool) : TaskResult Z :=
  {| tr_Green := green; tr_Attempts := 4; tr_Usage := no_usage;
     tr_Session := {| sn_Workflow := ""; sn_RunID := ""; sn_Model := ""; sn_Skill := ""; sn_StartedAt := 0; sn_EndedAt := 0;
                      sn_Green := green; sn_Turns := []; sn_TotalUsage := no_usage |} |}.
Definition line_agent (green : bool) (task : string) (gate : option (Gate World)) (fixes : Z) (w : World) : TaskOutcome Z * World :=
  (Returned (task_result green) None, did "agent" w).

Definition run (green : bool) (hash : string) (w : World) : PipelineEnd * World :=
  RunPipeline (W := World) (F := Z) line_json (λ _, 9) (λ p _, Ok (pr_Name p, [])) (λ _ w, (Ok "task", w)) None "" ""
    (Some (λ _ f w, {| done_ := done_ w; status := f (status w) |})) (line_agent green) (λ _, "") (λ _, "") (λ _, "")
    (λ _ _, "") (λ _ _, "") {| op_Workflow := plain_workflow ""; op_LastRigHash := hash; op_Workdir := "/w"; op_Source := "rev"; op_ExtraEnv := [] |} w.
Definition fresh_worker : World := {| done_ := []; status := zero_wstatus |}.
End Line.

Lemma RunPipeline_ended_witness :
  (Line.done_ (Line.run true "old" Line.fresh_worker).2 = ["prep"; "agent"; "ship"]
   ∧ ws_LastAgentCommit (Line.status (Line.run true "old" Line.fresh_worker).2) = "c1")
  ∧ ∃ dep w3 f, (Line.run true "old" Line.fresh_worker).2 = f w3 ∧ Line.done_ w3 = dep ∧ dep = ["prep"; "agent"; "ship"].
Proof.
  split; [vm_compute; done|].
  destruct (Line.run true "old" Line.fresh_worker) as [e w'] eqn:Hrun.
  assert (e = Finished {| pl_Outcome := OutcomeGreen; pl_Message := "deployed" |}) as ->
    by (change e with (e, w').1; rewrite <- Hrun; vm_compute; reflexivity).
  assert (Line.done_ w' = ["prep"; "agent"; "ship"]) as Hdone
    by (change w' with (Finished {| pl_Outcome := OutcomeGreen; pl_Message := "deployed" |}, w').2; rewrite <- Hrun; vm_compute; reflexivity).
  destruct (RunPipeline_ended (H := Line.line_shell) _ _ _ _ _ _ _ _ _ _ _ _ _ _ _ _ _ _ Hrun)
    as (prep&w1&w2&dep&w3&f&_&_&_&_&_&Hw&_).
  eexists _, w3, _. split; [exact Hw|]. split; [reflexivity|].
  rewrite Hw in Hdone. exact Hdone.
Defined.

(** A run whose agent failed has already stored the hash: the next run of the
    same source is skipped, without an agent, and the status becomes green. *)
Lemma failed_then_skipped :
  let '(e1, w1) := Line.run false "" Line.fresh_worker in
  let '(e2, w2) := Line.run true (ws_LastRigHash (Line.status w1)) w1 in
  e1 = Finished {| pl_Outcome := OutcomeFailed; pl_Message := "gate failed after 4 evaluation(s)" |}
  ∧ ws_GateStatus (Line.status w1) = "failed"
  ∧ e2 = Finished {| pl_Outcome := OutcomeSkipped; pl_Message := "rig hash unchanged" |}
  ∧ Line.done_ w2 = ["prep"; "agent"; "prep"] ∧ ws_GateStatus (Line.status w2) = "green".
Proof. by vm_compute. Qed.
