(* ===== verification/FileSys.v ===== *)
(** * Files of a pod

    The part of Linux and of package [os] that the source's file operations rely
    on: directories, regular files and symbolic links, paths walked component
    by component, and the calls that read and change them. A disk is a map from
    the components of physical paths to nodes; the root is always a directory.
    Any call may fail: [fault] is asked once per system call, with the number
    of calls made before, so a theorem for every [fault] is one for every
    sequence of failures. Relative paths start at the root. *)

From S2P Require Import Prelude GoStrings GoPath.

Notation Place := (list string) (only parsing).

Inductive Node :=
| DirN
| FileN (content : string) (mode : Z)
| LinkN (target : string).

#[export] Instance Node_eq_dec : EqDecision Node.
Proof. solve_decision. Defined.

Record Disk := { dk_nodes : gmap Place Node; dk_calls : nat }.

Inductive FsError :=
| ENOENT | EEXIST | ENOTDIR | EISDIR | ENOTEMPTY | ELOOP | EINVAL
| EFault (text : string).

Inductive FsCall :=
| OStat (p : string) | OReadlink (p : string) | OReadFile (p : string) | OReadDir (p : string)
| OMkdir (p : string) | OWrite (p : string) | ORemove (p : string) | ORename (p q : string) | OSymlink (p : string).

(** A failed write may have cut the file to its first bytes. *)
Record Fault := { ft_text : string; ft_torn : option nat }.

(** ** Nodes *)

Definition node_at (d : Disk) (q : Place) : option Node := if decide (q = []) then Some DirN else dk_nodes d !! q.
Definition with_nodes (f : gmap Place Node → gmap Place Node) (d : Disk) : Disk :=
  {| dk_nodes := f (dk_nodes d); dk_calls := dk_calls d |}.
Definition put (q : Place) (n : Node) (d : Disk) : Disk := with_nodes <[q := n]> d.
Definition drop_node (q : Place) (d : Disk) : Disk := with_nodes (delete q) d.

Definition parent (q : Place) : Place := removelast q.

(** ** Walking a path

    Links in the middle are followed; one at the end is when [follow] says so;
    [links] bounds how many are. What is missing at the end is no error. *)

Fixpoint walk (links : nat) (d : Disk) (follow : bool) : Place → list string → result FsError Place :=
  fix go (cur : Place) (rest : list string) : result FsError Place :=
    match rest with
    | [] => Ok cur
    | c :: rest =>
        if decide (c = "" ∨ c = ".") then go cur rest
        else if decide (c = "..") then
          match node_at d (parent cur) with Some DirN => go (parent cur) rest | _ => Err ENOTDIR end
        else
          let q := cur ++ [c] in
          match dk_nodes d !! q with
          | Some DirN => go q rest
          | Some (FileN _ _) => if decide (rest = []) then Ok q else Err ENOTDIR
          | None => if decide (rest = []) then Ok q else Err ENOENT
          | Some (LinkN t) =>
              if bool_decide (rest = []) && negb follow then Ok q
              else match links with
                   | O => Err ELOOP
                   | S links => walk links d follow (if IsAbs t then [] else cur) (split_byte path_sep t ++ rest)
                   end
          end
    end.

Definition max_links : nat := 40.
Definition resolve (d : Disk) (follow : bool) (p : string) : result FsError Place :=
  walk max_links d follow [] (split_byte path_sep p).

(** The node a path names. *)
Definition look (d : Disk) (follow : bool) (p : string) : result FsError Node :=
  match resolve d follow p with
  | Err e => Err e
  | Ok q => match node_at d q with Some n => Ok n | None => Err ENOENT end
  end.

Section calls.
Context (fault : nat → FsCall → option Fault).

Definition called (d : Disk) : Disk := {| dk_nodes := dk_nodes d; dk_calls := S (dk_calls d) |}.

(** One system call: it fails without an effect, or does [m]. *)
Definition syscall {A} (o : FsCall) (m : M Disk FsError A) : M Disk FsError A := λ d,
  match fault (dk_calls d) o with
  | Some f => (Err (EFault (ft_text f)), called d)
  | None => m (called d)
  end.

(** [os.Stat], [os.Lstat], [os.Readlink], [os.ReadFile]. *)
Definition Stat (p : string) : M Disk FsError Node := syscall (OStat p) (λ d, (look d true p, d)).
Definition Lstat (p : string) : M Disk FsError Node := syscall (OStat p) (λ d, (look d false p, d)).

Definition Readlink (p : string) : M Disk FsError string := syscall (OReadlink p) (λ d,
  (match look d false p with Err e => Err e | Ok (LinkN t) => Ok t | Ok _ => Err EINVAL end, d)).

Definition ReadFile (p : string) : M Disk FsError string := syscall (OReadFile p) (λ d,
  (match look d true p with Err e => Err e | Ok (FileN s _) => Ok s | Ok _ => Err EISDIR end, d)).

(** The names of a directory, in their order. *)
Definition names_in (d : Disk) (q : Place) : list string :=
  merge_sort String.le (omap (λ kv, match kv.1 with [] => None | _ => if decide (parent kv.1 = q) then last kv.1 else None end)
                            (map_to_list (dk_nodes d))).

Definition entries_in (d : Disk) (q : Place) : list (string * bool) :=
  (λ c, (c, bool_decide (dk_nodes d !! (q ++ [c]) = Some DirN))) <$> names_in d q.

(** Each name with whether it is a directory; no name when it fails. *)
Definition ReadDir (p : string) : M Disk FsError (list (string * bool)) := syscall (OReadDir p) (λ d,
  (match resolve d true p with
   | Err e => Err e
   | Ok q => match node_at d q with Some DirN => Ok (entries_in d q) | Some _ => Err ENOTDIR | None => Err ENOENT end
   end, d)).

(** [mkdir(2)]. *)
Definition Mkdir (p : string) : M Disk FsError unit := syscall (OMkdir p) (λ d,
  match resolve d false p with
  | Err e => (Err e, d)
  | Ok q => match node_at d q with Some _ => (Err EEXIST, d) | None => (Ok tt, put q DirN d) end
  end).

(** [os.MkdirAll] of one directory whose parents exist. *)
Definition mkdir_one (p : string) : M Disk FsError unit :=
  try! st := Stat p in
  match st with
  | Ok DirN => ret tt
  | Ok _ => throw ENOTDIR
  | Err _ =>
      try! r := Mkdir p in
      match r with
      | Ok _ => ret tt
      | Err e => try! l := Lstat p in match l with Ok DirN => ret tt | _ => throw e end
      end
  end.

Fixpoint mkdirs (l : list string) : M Disk FsError unit :=
  match l with
  | [] => ret tt
  | p :: l => let! _ := mkdir_one p in mkdirs l
  end.

(** The directories on the way to a path, outermost first. *)
Definition on_the_way (p : string) : list string := (λ n, path_of true (take n (components p))) <$> seq 1 (length (components p)).

Definition MkdirAll (p : string) : M Disk FsError unit :=
  try! st := Stat p in
  match st with
  | Ok DirN => ret tt
  | Ok _ => throw ENOTDIR
  | Err _ => mkdirs (on_the_way p)
  end.

(** [os.WriteFile]: opened, truncated, written; the mode is that of a new file. *)
Definition write_node (p content : string) (mode : Z) (d : Disk) : result FsError unit * Disk :=
  match resolve d true p with
  | Err e => (Err e, d)
  | Ok q => match node_at d q with
            | Some (FileN _ m) => (Ok tt, put q (FileN content m) d)
            | None => (Ok tt, put q (FileN content mode) d)
            | Some _ => (Err EISDIR, d)
            end
  end.

Definition WriteFile (p content : string) (mode : Z) : M Disk FsError unit := λ d,
  match fault (dk_calls d) (OWrite p) with
  | Some f =>
      (Err (EFault (ft_text f)),
       match ft_torn f with Some n => (write_node p (str_take n content) mode (called d)).2 | None => called d end)
  | None => write_node p content mode (called d)
  end.

(** [os.OpenFile] with [O_WRONLY|O_TRUNC] of a file that is there, what is
    written to it, and its close. *)
Definition rewrite_node (p content : string) (d : Disk) : result FsError unit * Disk :=
  match resolve d true p with
  | Err e => (Err e, d)
  | Ok q => match node_at d q with
            | Some (FileN _ m) => (Ok tt, put q (FileN content m) d)
            | None => (Err ENOENT, d)
            | Some _ => (Err EISDIR, d)
            end
  end.

Definition Overwrite (p content : string) : M Disk FsError unit := λ d,
  match fault (dk_calls d) (OWrite p) with
  | Some f =>
      (Err (EFault (ft_text f)),
       match ft_torn f with Some n => (rewrite_node p (str_take n content) (called d)).2 | None => called d end)
  | None => rewrite_node p content (called d)
  end.

(** [os.Remove]. *)
Definition Remove (p : string) : M Disk FsError unit := syscall (ORemove p) (λ d,
  match resolve d false p with
  | Err e => (Err e, d)
  | Ok q => match node_at d q with
            | None => (Err ENOENT, d)
            | Some DirN => if decide (names_in d q = [] ∧ q ≠ []) then (Ok tt, drop_node q d) else (Err ENOTEMPTY, d)
            | Some _ => (Ok tt, drop_node q d)
            end
  end).

(** What lies at or below a place, below first. *)
Definition deeper (a b : Place) : Prop := (length b ≤ length a)%nat.
#[local] Instance deeper_dec a b : Decision (deeper a b).
Proof. unfold deeper. apply _. Defined.
Definition below (d : Disk) (q : Place) : list Place :=
  merge_sort deeper (filter (λ k, q `prefix_of` k) (map_to_list (dk_nodes d)).*1).

Fixpoint remove_places (l : list Place) : M Disk FsError unit :=
  match l with
  | [] => ret tt
  | q :: l => let! _ := syscall (ORemove (path_of true q)) (λ d, (Ok tt, drop_node q d)) in remove_places l
  end.

(** [os.RemoveAll]: it stops at the first entry it cannot remove. *)
Definition RemoveAll (p : string) : M Disk FsError unit := λ d,
  match resolve d false p with
  | Err ENOENT => (Ok tt, d)
  | Err e => (Err e, d)
  | Ok q => remove_places (below d q) d
  end.

(** [os.Rename] of what is no directory. *)
Definition Rename (p q : string) : M Disk FsError unit := syscall (ORename p q) (λ d,
  match resolve d false p, resolve d false q with
  | Ok a, Ok b =>
      match node_at d a, node_at d b with
      | None, _ => (Err ENOENT, d)
      | Some DirN, _ => (Err EISDIR, d)
      | Some _, Some DirN => (Err EEXIST, d)
      | Some n, _ => (Ok tt, if decide (a = b) then d else put b n (drop_node a d))
      end
  | Err e, _ => (Err e, d)
  | _, Err e => (Err e, d)
  end).

(** [os.Symlink]. *)
Definition Symlink (target p : string) : M Disk FsError unit := syscall (OSymlink p) (λ d,
  match resolve d false p with
  | Err e => (Err e, d)
  | Ok q => match node_at d q with Some _ => (Err EEXIST, d) | None => (Ok tt, put q (LinkN target) d) end
  end).
End calls.

(** No call fails but for its arguments. *)
Definition no_fault (_ : nat) (_ : FsCall) : option Fault := None.

(** [filepath.Dir], [filepath.Abs]. *)
Definition Dir (p : string) : string :=
  match cut_last path_sep p with Some (a, _) => Clean (a +:+ "/") | None => Clean "" end.
Definition Abs (p : string) : string := if IsAbs p then Clean p else Join "/" p.

(** ** Walks *)

Lemma walk_nil n d f cur : walk n d f cur [] = Ok cur.
Proof. by destruct n. Qed.

Lemma walk_skip n d f cur c rest : c = "" ∨ c = "." → walk n d f cur (c :: rest) = walk n d f cur rest.
Proof. intros Hc. destruct n; cbn [walk]; by rewrite decide_True. Qed.

Lemma walk_plain n d f cur c rest : plain c →
  walk n d f cur (c :: rest) =
  match dk_nodes d !! (cur ++ [c]) with
  | Some DirN => walk n d f (cur ++ [c]) rest
  | Some (FileN _ _) => if decide (rest = []) then Ok (cur ++ [c]) else Err ENOTDIR
  | None => if decide (rest = []) then Ok (cur ++ [c]) else Err ENOENT
  | Some (LinkN t) =>
      if bool_decide (rest = []) && negb f then Ok (cur ++ [c])
      else match n with
           | O => Err ELOOP
           | S n => walk n d f (if IsAbs t then [] else cur) (split_byte path_sep t ++ rest)
           end
  end.
Proof. intros (H1&H2&H3&_). destruct n; cbn [walk]; rewrite decide_False by naive_solver; by rewrite decide_False. Qed.

Lemma walk_up n d f cur rest :
  walk n d f cur (".." :: rest) = match node_at d (parent cur) with Some DirN => walk n d f (parent cur) rest | _ => Err ENOTDIR end.
Proof. destruct n; cbn [walk]; rewrite decide_False by naive_solver; by rewrite decide_True. Qed.

(** A component of a path is skipped, goes up, or is looked up. *)
Lemma component_cases c : contains_byte c path_sep = false → (c = "" ∨ c = ".") ∨ c = ".." ∨ plain c.
Proof. intros H. unfold plain. destruct (decide (c = "")), (decide (c = ".")), (decide (c = "..")); naive_solver. Qed.

Definition no_slash (l : list string) : Prop := Forall (λ c, contains_byte c path_sep = false) l.

Lemma no_slash_split s : no_slash (split_byte path_sep s).
Proof. apply split_byte_pieces. Qed.

Lemma no_slash_app l k : no_slash l → no_slash k → no_slash (l ++ k).
Proof. apply Forall_app_2. Qed.

Lemma plain_no_slash l : Forall plain l → no_slash l.
Proof. intros Hl. eapply Forall_impl; [exact Hl|]. by intros ? (_&_&_&?). Qed.

#[export] Hint Resolve no_slash_split no_slash_app plain_no_slash : harmostes.

Lemma node_at_snoc d q c : node_at d (q ++ [c]) = dk_nodes d !! (q ++ [c]).
Proof. unfold node_at. rewrite decide_False; [done|]. by destruct q. Qed.

#[global] Opaque walk.

(** What a walk passes before it reaches its end is a directory. *)
Lemma walk_prefix n d f l : l ≠ [] → Forall plain l → ∀ a cur q,
  no_slash a → node_at d cur = Some DirN → walk n d f cur (a ++ l) = Ok q →
  ∃ q1, walk n d true cur a = Ok q1 ∧ node_at d q1 = Some DirN.
Proof.
  intros Hl Hp. induction n as [n IHn] using lt_wf_ind. intros a. induction a as [|c a IH]; intros cur q Ha Hcur Hw.
  - exists cur. by rewrite walk_nil.
  - apply Forall_cons in Ha as [Hc Ha]. rewrite <- app_comm_cons in Hw.
    destruct (component_cases c Hc) as [Hs|[->|Hpl]].
    + rewrite walk_skip in Hw |- * by done. by eapply IH.
    + rewrite walk_up in Hw |- *. destruct (node_at d (parent cur)) as [[]|] eqn:Hpar; try done. by eapply IH.
    + rewrite walk_plain in Hw |- * by done. rewrite !(decide_False (P := a ++ l = [])) in Hw by (by destruct a).
      rewrite bool_decide_eq_false_2 in Hw by (by destruct a). cbn [andb] in Hw.
      destruct (dk_nodes d !! (cur ++ [c])) as [[|s m|t]|] eqn:Hn; try done.
      * eapply IH; [done| |done]. by rewrite node_at_snoc.
      * rewrite andb_false_r. destruct n as [|n]; [done|]. rewrite app_assoc in Hw.
        eapply (IHn n); [lia| | |exact Hw]; [auto with harmostes|by case_match].
Qed.

(** Without links on the way a walk is the path itself. *)
Lemma walk_linkless n d f l : Forall plain l → ∀ cur,
  (∀ k t, (0 < k)%nat → dk_nodes d !! (cur ++ take k l) ≠ Some (LinkN t)) →
  match walk n d f cur l with Ok q => q = cur ++ l | Err _ => True end.
Proof.
  induction 1 as [|c l Hc Hl IH]; intros cur Hk; [by rewrite walk_nil, app_nil_r|].
  rewrite walk_plain by done. destruct (dk_nodes d !! (cur ++ [c])) as [[|s m|t]|] eqn:Hn.
  - specialize (IH (cur ++ [c])). rewrite <- app_assoc in IH. apply IH. intros k t Hpos Ht.
    apply (Hk (S k) t); [lia|]. by rewrite <- app_assoc in Ht.
  - destruct (decide (l = [])) as [->|]; done.
  - exfalso. by apply (Hk 1%nat t); [lia|].
  - destruct (decide (l = [])) as [->|]; done.
Qed.

(** ** Paths of places *)

Lemma split_path_of l : no_slash l → l ≠ [] → split_byte path_sep (path_of true l) = "" :: l.
Proof. intros Hl Hne. unfold path_of. cbn [split_byte]. rewrite decide_True by done. f_equal. by apply (split_byte_join path_sep). Qed.

Lemma resolve_path_of d f l : Forall plain l → resolve d f (path_of true l) = walk max_links d f [] l.
Proof.
  intros Hl. unfold resolve. destruct (decide (l = [])) as [->|Hne]; [done|].
  rewrite split_path_of by auto with harmostes. apply walk_skip. by left.
Qed.

Lemma Stack_of_plain rooted l : Forall plain l → Stack rooted (reverse l).
Proof.
  intros Hl. rewrite <- Forall_reverse in Hl. induction Hl as [|c l' Hc _ IH]; [by apply (stack_up _ 0)|].
  by apply stack_push.
Qed.

Lemma components_place l : Forall plain l → components (path_of true l) = l.
Proof. intros Hl. by apply components_path_of, Stack_of_plain. Qed.

Lemma IsAbs_place l : IsAbs (path_of true l) = true.
Proof. done. Qed.

Lemma Clean_place p : IsAbs p = true → Clean p = path_of true (components p).
Proof. intros Ha. unfold Clean, components. by rewrite Ha. Qed.

Lemma resolve_eq d f p : resolve d f p = walk max_links d f [] (split_byte path_sep p).
Proof. done. Qed.

#[global] Opaque resolve.

(** Joining a relative path of plain components goes below. *)
Lemma Join_below root l : IsAbs root = true → Forall plain l →
  Join root (path_of false l) = path_of true (components root ++ l).
Proof.
  intros Ha Hl. unfold Join.
  assert (root ≠ "") as Hne by by intros ->.
  assert (path_of false l ≠ "") as Hr.
  { destruct l as [|c l]; [done|]. intros H. assert (components (path_of false (c :: l)) = c :: l) as Hc
      by by apply components_path_of, Stack_of_plain. by rewrite H in Hc. }
  rewrite !decide_False by done. rewrite Clean_place by (by rewrite IsAbs_app). f_equal.
  unfold components. rewrite IsAbs_app, Ha by done. change ("/" +:+ path_of false l) with (String path_sep (path_of false l)).
  rewrite split_byte_mid. unfold clean_components. rewrite foldl_app.
  assert (∀ st, foldl (clean_step true) st l = reverse l ++ st) as Hf.
  { clear -Hl. induction Hl as [|c l Hc _ IH]; intros st; [done|]. cbn [foldl]. rewrite IH, reverse_cons, <- app_assoc.
    f_equal. unfold clean_step. destruct Hc as (H1&H2&H3&_). rewrite decide_False by naive_solver. by rewrite decide_False. }
  assert (foldl (clean_step true) (foldl (clean_step true) [] (split_byte path_sep root)) (split_byte path_sep (path_of false l))
    = reverse l ++ foldl (clean_step true) [] (split_byte path_sep root)) as ->; [|by rewrite reverse_app, reverse_involutive].
  unfold path_of. destruct l as [|c l]; [done|]. rewrite (split_byte_join path_sep) by (done || by apply plain_no_slash). apply Hf.
Qed.

(** A cleaned relative path that does not start by going up goes down. *)
Lemma Stack_split rooted st : Stack rooted st → ∃ n s, st = s ++ replicate n ".." ∧ Forall plain s.
Proof.
  induction 1 as [n _|c st Hc _ (n&s&->&Hs)]; [by exists n, []|]. exists n, (c :: s). split; [done|by constructor].
Qed.

Lemma relative_below p : IsAbs p = false → has_prefix (Clean p) "../" = false → Clean p ≠ ".." →
  ∃ l, Forall plain l ∧ Clean p = path_of false l.
Proof.
  intros Ha Hp Hn. pose proof (components_stack p) as Hs. rewrite Ha in Hs. destruct (Stack_split _ _ Hs) as (n&s&Hr&Hpl).
  assert (Clean p = path_of false (components p)) as Hc by (unfold Clean, components; by rewrite Ha).
  apply (f_equal reverse) in Hr. rewrite reverse_involutive, reverse_app, reverse_replicate in Hr.
  destruct n as [|n]; [exists (reverse s); rewrite Hc, Hr; split; [by rewrite Forall_reverse|done]|].
  rewrite Hc, Hr in *. cbn [replicate app] in *. exfalso. destruct (replicate n ".." ++ reverse s) as [|c l]; [done|].
  assert (has_prefix (path_of false (".." :: c :: l)) "../" = true) as Ht; [|congruence].
  apply has_prefix_spec. by exists (join "/" (c :: l)).
Qed.

Lemma join_snoc l c : l ≠ [] → join "/" (l ++ [c]) = join "/" l +:+ String path_sep c.
Proof.
  induction l as [|a l IH]; [done|]. intros _. destruct l as [|b l]; [done|].
  change (a +:+ "/" +:+ join "/" ((b :: l) ++ [c]) = (a +:+ "/" +:+ join "/" (b :: l)) +:+ String path_sep c).
  by rewrite IH, !app_str_assoc by done.
Qed.

Lemma components_trail p : p ≠ "" → components (p +:+ "/") = components p.
Proof.
  intros Hp. unfold components. rewrite IsAbs_app by done. change (p +:+ "/") with (p +:+ String path_sep "").
  rewrite split_byte_mid. unfold clean_components. by rewrite foldl_app.
Qed.

Lemma Dir_place l : Forall plain l → Dir (path_of true l) = path_of true (removelast l).
Proof.
  intros Hl. destruct l as [|c l _] using rev_ind; [done|]. rewrite removelast_last.
  apply Forall_app in Hl as [Hl Hc]. apply Forall_cons in Hc as [(_&_&_&Hc) _].
  unfold Dir. destruct (decide (l = [])) as [->|Hne].
  - by rewrite (proj2 (cut_last_spec path_sep (path_of true ([] ++ [c])) "" c)).
  - rewrite (proj2 (cut_last_spec path_sep (path_of true (l ++ [c])) (path_of true l) c)).
    + rewrite Clean_place by done. by rewrite components_trail, components_place by done.
    + split; [|done]. unfold path_of. by rewrite join_snoc.
Qed.
