(* ===== verification/FileLaws.v ===== *)
(** * What file calls change

    A call that makes or writes places one node ([Placed]); a sequence of them
    only adds to a disk ([Grows]), and where no link is in the way it stays
    below the directory it was given ([Stays]). [Keeps] says that a computation
    relates its first state to its last, whatever its outcome. *)

From S2P Require Import Prelude GoStrings GoPath FileSys.

(** ** Walks see the nodes only *)

Lemma node_at_same d d' q : dk_nodes d' = dk_nodes d → node_at d' q = node_at d q.
Proof. unfold node_at. by intros ->. Qed.

Lemma walk_same d d' f : dk_nodes d' = dk_nodes d → ∀ n cur rest, no_slash rest → walk n d' f cur rest = walk n d f cur rest.
Proof.
  intros He. induction n as [n IHn] using lt_wf_ind. intros cur rest. revert cur.
  induction rest as [|c rest IH]; intros cur Hr; [by rewrite !walk_nil|].
  apply Forall_cons in Hr as [Hc Hr]. destruct (component_cases c Hc) as [Hs|[->|Hpl]].
  - rewrite !walk_skip by done. by apply IH.
  - rewrite !walk_up, (node_at_same _ _ _ He). repeat case_match; try done. by apply IH.
  - rewrite !walk_plain, He by done. destruct (dk_nodes d !! _) as [[|s m|t]|]; try done; [by apply IH|].
    destruct (_ && _); [done|]. destruct n as [|n]; [done|]. apply IHn; [lia|auto with harmostes].
Qed.

Lemma resolve_same d d' f p : dk_nodes d' = dk_nodes d → resolve d' f p = resolve d f p.
Proof. intros He. rewrite !resolve_eq. apply walk_same; [done|apply no_slash_split]. Qed.

Lemma look_same d d' f p : dk_nodes d' = dk_nodes d → look d' f p = look d f p.
Proof. intros He. unfold look. rewrite (resolve_same _ _ _ _ He). case_match; [|done]. by rewrite (node_at_same _ _ _ He). Qed.

(** ** Growth *)

Definition same_kind (n n' : Node) : Prop :=
  match n, n' with
  | DirN, DirN | FileN _ _, FileN _ _ => True
  | LinkN t, LinkN t' => t = t'
  | _, _ => False
  end.

Lemma same_kind_refl n : same_kind n n.
Proof. by destruct n. Qed.

Lemma same_kind_trans a b c : same_kind a b → same_kind b c → same_kind a c.
Proof. destruct a, b, c; naive_solver. Qed.

#[export] Hint Resolve same_kind_refl : harmostes.

Definition Grows (d d' : Disk) : Prop := ∀ q n, dk_nodes d !! q = Some n → ∃ n', dk_nodes d' !! q = Some n' ∧ same_kind n n'.

#[export] Instance Grows_preorder : PreOrder Grows.
Proof.
  split; [intros d q n Hn; eauto using same_kind_refl|]. intros a b c Hab Hbc q n Hn.
  destruct (Hab q n Hn) as (n1&H1&K1). destruct (Hbc q n1 H1) as (n2&H2&K2). eauto using same_kind_trans.
Qed.

Lemma Grows_same d d' : dk_nodes d' = dk_nodes d → Grows d d'.
Proof. intros He q n Hn. rewrite He. eauto using same_kind_refl. Qed.

Lemma Grows_node d d' q n : Grows d d' → node_at d q = Some n → ∃ n', node_at d' q = Some n' ∧ same_kind n n'.
Proof. intros Hg. unfold node_at. destruct (decide (q = [])); [intros [= <-]; by exists DirN|apply Hg]. Qed.

(** A walk that found something finds it again. *)
Lemma walk_grows d d' f : Grows d d' → ∀ n cur rest q nd, no_slash rest →
  walk n d f cur rest = Ok q → node_at d q = Some nd → walk n d' f cur rest = Ok q.
Proof.
  intros Hg. induction n as [n IHn] using lt_wf_ind. intros cur rest. revert cur.
  induction rest as [|c rest IH]; intros cur q nd Hr Hw Hq; [by rewrite walk_nil in *|].
  apply Forall_cons in Hr as [Hc Hr]. destruct (component_cases c Hc) as [Hs|[->|Hpl]].
  - rewrite walk_skip in Hw |- * by done. eauto.
  - rewrite walk_up in Hw |- *. destruct (node_at d (parent cur)) as [[]|] eqn:Hpar; try done.
    destruct (Grows_node _ _ _ _ Hg Hpar) as ([]&->&[]). eauto.
  - rewrite walk_plain in Hw |- * by done. destruct (dk_nodes d !! (cur ++ [c])) as [x|] eqn:Hx.
    + destruct (Hg _ _ Hx) as (x'&->&Hk). destruct x as [|s m|t], x' as [|s' m'|t']; try done; [by eauto|].
      cbn in Hk. subst t'. destruct (_ && _); [done|]. destruct n as [|n]; [done|]. eapply (IHn n); eauto with harmostes.
    + destruct (decide (rest = [])); [|done]. injection Hw as <-. rewrite node_at_snoc in Hq. congruence.
Qed.

Lemma look_grows d d' f p n : Grows d d' → look d f p = Ok n → ∃ n', look d' f p = Ok n' ∧ same_kind n n'.
Proof.
  intros Hg. unfold look. rewrite !resolve_eq. destruct (walk _ d f [] _) as [q|e] eqn:Hw; [|done].
  destruct (node_at d q) as [x|] eqn:Hx; [|done]. intros [= <-].
  rewrite (walk_grows d d' f Hg _ _ _ _ _ (no_slash_split _) Hw Hx). destruct (Grows_node _ _ _ _ Hg Hx) as (x'&->&Hk). eauto.
Qed.

Lemma look_grows_dir d d' f p : Grows d d' → look d f p = Ok DirN → look d' f p = Ok DirN.
Proof. intros Hg Hl. destruct (look_grows _ _ _ _ _ Hg Hl) as ([]&?&[]). done. Qed.

(** ** One node placed *)

Definition overwrites (old : option Node) (n : Node) : Prop :=
  match old, n with None, _ => True | Some (FileN _ _), FileN _ _ => True | _, _ => False end.

Inductive Placed (p : string) (what : Node → Prop) (d d' : Disk) : Prop :=
| placed_nothing : dk_nodes d' = dk_nodes d → Placed p what d d'
| placed_node f q n :
    resolve d f p = Ok q → q ≠ [] → overwrites (dk_nodes d !! q) n → what n →
    dk_nodes d' = <[q := n]> (dk_nodes d) → Placed p what d d'.

Lemma Placed_grows p what d d' : Placed p what d d' → Grows d d'.
Proof.
  intros [He|f q n _ _ Ho _ He]; [by apply Grows_same|]. intros k x Hx. rewrite He.
  destruct (decide (k = q)) as [->|Hne]; [|rewrite lookup_insert_ne by done; eauto using same_kind_refl].
  rewrite lookup_insert_eq. exists n. split; [done|]. rewrite Hx in Ho. by destruct x, n.
Qed.

Lemma Placed_called p what d d' : Placed p what (called d) d' → Placed p what d d'.
Proof.
  intros [He|f q n Hr Hq Ho Hw He]; [by apply placed_nothing|].
  rewrite (resolve_same d (called d)) in Hr by done. by apply (placed_node _ _ _ _ f q n).
Qed.

Definition is_dir (n : Node) : Prop := n = DirN.
Definition is_file (n : Node) : Prop := ∃ s m, n = FileN s m.
Definition is_link (n : Node) : Prop := ∃ t, n = LinkN t.

Lemma node_at_None d q : node_at d q = None → q ≠ [] ∧ dk_nodes d !! q = None.
Proof. unfold node_at. by destruct (decide (q = [])). Qed.

Lemma node_at_file d q s m : node_at d q = Some (FileN s m) → q ≠ [] ∧ dk_nodes d !! q = Some (FileN s m).
Proof. unfold node_at. by destruct (decide (q = [])). Qed.

Section calls.
Context (fault : nat → FsCall → option Fault).

(** *** The calls *)

Lemma Stat_run p d r d' : Stat fault p d = (r, d') → dk_nodes d' = dk_nodes d ∧ (∀ n, r = Ok n → look d' true p = Ok n).
Proof. unfold Stat, syscall. destruct (fault _ _) as [ft|]; intros [= <- <-]; (split; [done|]); intros n Hn; [done|]; by rewrite (look_same d (called d)) in Hn. Qed.

Lemma Lstat_run p d r d' : Lstat fault p d = (r, d') → dk_nodes d' = dk_nodes d ∧ (∀ n, r = Ok n → look d' false p = Ok n).
Proof. unfold Lstat, syscall. destruct (fault _ _) as [ft|]; intros [= <- <-]; (split; [done|]); intros n Hn; [done|]; by rewrite (look_same d (called d)) in Hn. Qed.

Lemma Mkdir_placed p d r d' : Mkdir fault p d = (r, d') → Placed p is_dir d d'.
Proof.
  unfold Mkdir, syscall. destruct (fault _ _) as [ft|]; [intros [= <- <-]; by apply placed_nothing|]. intros Hm. apply Placed_called. revert Hm.
  destruct (resolve (called d) false p) as [q|e] eqn:Hq; [|intros [= <- <-]; by apply placed_nothing].
  destruct (node_at (called d) q) eqn:Hn; intros [= <- <-]; [by apply placed_nothing|].
  apply node_at_None in Hn as [? Hn]. eapply (placed_node _ _ _ _ false q DirN); try done. by rewrite Hn.
Qed.

Lemma Symlink_placed t p d r d' : Symlink fault t p d = (r, d') → Placed p is_link d d'.
Proof.
  unfold Symlink, syscall. destruct (fault _ _) as [ft|]; [intros [= <- <-]; by apply placed_nothing|]. intros Hm. apply Placed_called. revert Hm.
  destruct (resolve (called d) false p) as [q|e] eqn:Hq; [|intros [= <- <-]; by apply placed_nothing].
  destruct (node_at (called d) q) eqn:Hn; intros [= <- <-]; [by apply placed_nothing|].
  apply node_at_None in Hn as [? Hn]. eapply (placed_node _ _ _ _ false q (LinkN t)); try done; [by rewrite Hn|by eexists].
Qed.

Lemma write_node_placed p s m d : Placed p is_file d (write_node p s m d).2.
Proof.
  unfold write_node. destruct (resolve d true p) as [q|e] eqn:Hq; [|by apply placed_nothing].
  destruct (node_at d q) as [[|s0 m0|t]|] eqn:Hn; try by apply placed_nothing.
  - apply node_at_file in Hn as [? Hn]. eapply (placed_node _ _ _ _ true q); try done; [by rewrite Hn|by eexists _, _].
  - apply node_at_None in Hn as [? Hn]. eapply (placed_node _ _ _ _ true q); try done; [by rewrite Hn|by eexists _, _].
Qed.

Lemma WriteFile_placed p s m d r d' : WriteFile fault p s m d = (r, d') → Placed p is_file d d'.
Proof.
  unfold WriteFile. intros Hw. assert (∀ n, Placed p is_file d (write_node p (str_take n s) m (called d)).2) as Ht
    by (intros n; apply Placed_called, write_node_placed).
  destruct (fault _ _) as [[x [n|]]|]; [injection Hw as <- <-; apply Ht|injection Hw as <- <-; by apply placed_nothing|].
  change d' with (r, d').2. rewrite <- Hw. apply Placed_called, write_node_placed.
Qed.

Lemma rewrite_node_placed p s d : Placed p is_file d (rewrite_node p s d).2.
Proof.
  unfold rewrite_node. destruct (resolve d true p) as [q|e] eqn:Hq; [|by apply placed_nothing].
  destruct (node_at d q) as [[|s0 m0|t]|] eqn:Hn; try by apply placed_nothing.
  apply node_at_file in Hn as [? Hn]. eapply (placed_node _ _ _ _ true q); try done; [by rewrite Hn|by eexists _, _].
Qed.

Lemma Overwrite_placed p s d r d' : Overwrite fault p s d = (r, d') → Placed p is_file d d'.
Proof.
  unfold Overwrite. intros Hw. assert (∀ n, Placed p is_file d (rewrite_node p (str_take n s) (called d)).2) as Ht
    by (intros n; apply Placed_called, rewrite_node_placed).
  destruct (fault _ _) as [[x [n|]]|]; [injection Hw as <- <-; apply Ht|injection Hw as <- <-; by apply placed_nothing|].
  change d' with (r, d').2. rewrite <- Hw. apply Placed_called, rewrite_node_placed.
Qed.

End calls.

(** ** A directory that was made is found *)

Lemma walk_made d q : dk_nodes d !! q = None → ∀ n f cur rest, no_slash rest →
  walk n d f cur rest = Ok q → walk n (put q DirN d) f cur rest = Ok q.
Proof.
  intros Hq. induction n as [n IHn] using lt_wf_ind. intros f cur rest. revert cur.
  induction rest as [|c rest IH]; intros cur Hr Hw; [by rewrite walk_nil in *|].
  apply Forall_cons in Hr as [Hc Hr]. destruct (component_cases c Hc) as [Hs|[->|Hpl]].
  - rewrite walk_skip in Hw |- * by done. by apply IH.
  - rewrite walk_up in Hw |- *. destruct (node_at d (parent cur)) as [[]|] eqn:Hpar; try done.
    assert (node_at (put q DirN d) (parent cur) = Some DirN) as ->; [|by apply IH].
    unfold node_at in *. case_decide; [done|]. cbn. by rewrite lookup_insert_ne by congruence.
  - rewrite walk_plain in Hw |- * by done. cbn [put with_nodes dk_nodes]. destruct (decide (q = cur ++ [c])) as [->|Hne].
    + rewrite lookup_insert_eq. rewrite Hq in Hw. destruct (decide (rest = [])) as [->|]; [by rewrite walk_nil|done].
    + rewrite lookup_insert_ne by done. destruct (dk_nodes d !! (cur ++ [c])) as [[|s m|t]|] eqn:Hn; try done; [by apply IH|].
      destruct (_ && _); [done|]. destruct n as [|n]; [done|]. apply IHn; [lia|auto with harmostes|done].
Qed.

(** What a walk that stops at a link reaches without one, a walk that follows reaches too. *)
Lemma walk_follow d q : node_at d q = Some DirN → ∀ n cur rest, no_slash rest →
  walk n d false cur rest = Ok q → walk n d true cur rest = Ok q.
Proof.
  intros Hq. induction n as [n IHn] using lt_wf_ind. intros cur rest. revert cur.
  induction rest as [|c rest IH]; intros cur Hr Hw; [by rewrite walk_nil in *|].
  apply Forall_cons in Hr as [Hc Hr]. destruct (component_cases c Hc) as [Hs|[->|Hpl]].
  - rewrite walk_skip in Hw |- * by done. by apply IH.
  - rewrite walk_up in Hw |- *. repeat case_match; try done. by apply IH.
  - rewrite walk_plain in Hw |- * by done. destruct (dk_nodes d !! (cur ++ [c])) as [[|s m|t]|] eqn:Hn; try done; [by apply IH|].
    rewrite andb_false_r. destruct (bool_decide (rest = []) && negb false).
    + injection Hw as <-. rewrite node_at_snoc in Hq. congruence.
    + destruct n as [|n]; [done|]. apply IHn; [lia|auto with harmostes|done].
Qed.

Lemma look_dir_follow d p : look d false p = Ok DirN → look d true p = Ok DirN.
Proof.
  unfold look. rewrite !resolve_eq. destruct (walk _ d false [] _) as [q|] eqn:Hw; [|done].
  destruct (node_at d q) as [n|] eqn:Hq; [|done]. intros [= ->].
  by rewrite (walk_follow d q Hq _ _ _ (no_slash_split _) Hw), Hq.
Qed.

Lemma look_made d f p q : resolve d f p = Ok q → dk_nodes d !! q = None → look (put q DirN d) f p = Ok DirN.
Proof.
  intros Hr Hq. unfold look. rewrite !resolve_eq in *. rewrite (walk_made d q Hq _ _ _ _ (no_slash_split _) Hr).
  unfold node_at. case_decide; [done|]. cbn. by rewrite lookup_insert_eq.
Qed.

Lemma look_above d a l n : Forall plain a → Forall plain l → l ≠ [] →
  look d true (path_of true (a ++ l)) = Ok n → look d true (path_of true a) = Ok DirN.
Proof.
  intros Ha Hl Hne. unfold look. rewrite !resolve_path_of by (done || by apply Forall_app_2).
  destruct (walk _ d true [] (a ++ l)) as [q|] eqn:Hw; [|done]. intros _.
  destruct (walk_prefix max_links d true l Hne Hl a [] q) as (q1&->&->); [by apply plain_no_slash|done|done|done].
Qed.

(** ** Relations that computations keep *)

Record Keeps {S E A} (R : S → S → Prop) (m : M S E A) : Prop := { kept : ∀ s r s', m s = (r, s') → R s s' }.
Arguments kept {S E A R m}.

Section keeps.
Context {S E : Type} (R : S → S → Prop) `{!PreOrder R}.

Lemma keeps_ret {A} (a : A) : Keeps R (@ret S E A a).
Proof. constructor. intros s r s' [= <- <-]. reflexivity. Qed.

Lemma keeps_throw {A} (e : E) : Keeps R (@throw S E A e).
Proof. constructor. intros s r s' [= <- <-]. reflexivity. Qed.

Lemma keeps_bind {A B} (m : M S E A) (k : A → M S E B) : Keeps R m → (∀ a, Keeps R (k a)) → Keeps R (bindM m k).
Proof.
  intros Hm Hk. constructor. intros s r s'. unfold bindM. destruct (m s) as [[a|e] s1] eqn:H1; intros H2.
  - etransitivity; [by eapply kept|by eapply (kept (Hk _))].
  - injection H2 as <- <-. by eapply kept.
Qed.

Lemma keeps_try {A B} (m : M S E A) (k : result E A → M S E B) : Keeps R m → (∀ a, Keeps R (k a)) → Keeps R (tryM m k).
Proof.
  intros Hm Hk. constructor. intros s r s'. unfold tryM. destruct (m s) as [a s1] eqn:H1. intros H2.
  etransitivity; [by eapply kept|by eapply (kept (Hk _))].
Qed.
End keeps.

Create HintDb keeps discriminated.
#[export] Hint Constants Opaque : keeps.

(** Take a computation apart along its binds and cases. *)
Ltac keeps_step :=
  lazymatch goal with
  | |- Keeps _ (ret _) => apply keeps_ret; apply _
  | |- Keeps _ (throw _) => apply keeps_throw; apply _
  | |- Keeps _ (bindM _ _) => apply keeps_bind; [apply _| |intros ?]
  | |- Keeps _ (tryM _ _) => apply keeps_try; [apply _| |intros ?]
  | |- Keeps _ (match ?x with _ => _ end) => destruct x
  | H : Keeps ?R ?m |- Keeps ?R ?m => exact H
  | |- Keeps _ _ => solve [auto with keeps nocore]
  end.
Ltac keeps := repeat keeps_step.

Section laws.
Context (fault : nat → FsCall → option Fault).

(** ** Making directories *)

Section kept.
Context (R : Disk → Disk → Prop) `{!PreOrder R}.
Hypothesis kept_same : ∀ d d', dk_nodes d' = dk_nodes d → R d d'.

Lemma keeps_Stat p : Keeps R (Stat fault p).
Proof. constructor. intros d r d' H. by apply kept_same, (Stat_run fault p d r). Qed.

Lemma keeps_Lstat p : Keeps R (Lstat fault p).
Proof. constructor. intros d r d' H. by apply kept_same, (Lstat_run fault p d r). Qed.

#[local] Hint Resolve keeps_Stat keeps_Lstat : keeps.

Lemma keeps_mkdir_one p : Keeps R (Mkdir fault p) → Keeps R (mkdir_one fault p).
Proof. intros Hm. unfold mkdir_one. keeps. Qed.

Lemma keeps_MkdirAll p : (∀ q, q ∈ on_the_way p → Keeps R (Mkdir fault q)) → Keeps R (MkdirAll fault p).
Proof.
  intros Hq. unfold MkdirAll. apply keeps_try; [apply _|apply keeps_Stat|]. intros [[]|]; keeps.
  induction (on_the_way p) as [|x l IH]; cbn [mkdirs]; [keeps|]. apply keeps_bind; [apply _| |].
  - apply keeps_mkdir_one, Hq. set_solver.
  - intros _. apply IH. set_solver.
Qed.
End kept.

Lemma keeps_placed (R : Disk → Disk → Prop) {A} p what (m : M Disk FsError A) :
  (∀ d d', Placed p what d d' → R d d') → (∀ d r d', m d = (r, d') → Placed p what d d') → Keeps R m.
Proof. intros HR Hm. constructor. eauto. Qed.

Lemma grows_Mkdir p : Keeps Grows (Mkdir fault p).
Proof. eapply keeps_placed; [apply Placed_grows|apply Mkdir_placed]. Qed.

Lemma grows_MkdirAll p : Keeps Grows (MkdirAll fault p).
Proof. apply keeps_MkdirAll; [apply _|apply Grows_same|]. intros. apply grows_Mkdir. Qed.

Lemma grows_WriteFile p s m : Keeps Grows (WriteFile fault p s m).
Proof. eapply keeps_placed; [apply Placed_grows|apply WriteFile_placed]. Qed.

Lemma grows_Overwrite p s : Keeps Grows (Overwrite fault p s).
Proof. eapply keeps_placed; [apply Placed_grows|apply Overwrite_placed]. Qed.

Lemma grows_Symlink t p : Keeps Grows (Symlink fault t p).
Proof. eapply keeps_placed; [apply Placed_grows|apply Symlink_placed]. Qed.

Lemma grows_mkdir_one p : Keeps Grows (mkdir_one fault p).
Proof. apply keeps_mkdir_one; [apply _|apply Grows_same|apply grows_Mkdir]. Qed.

Lemma mkdir_one_ok p d d' : mkdir_one fault p d = (Ok tt, d') → look d' true p = Ok DirN.
Proof.
  unfold mkdir_one, tryM. destruct (Stat fault p d) as [st d1] eqn:Hst. apply Stat_run in Hst as [_ Hst].
  destruct st as [[]|e]; [intros [= <-]; by apply Hst|done..|].
  destruct (Mkdir fault p d1) as [r d2] eqn:Hmk. destruct r as [[]|e2].
  - intros [= <-]. revert Hmk. unfold Mkdir, syscall. destruct (fault _ _); [done|].
    destruct (resolve (called d1) false p) as [q|] eqn:Hq; [|done]. destruct (node_at (called d1) q) eqn:Hn; [done|].
    intros [= <-]. apply node_at_None in Hn as [_ Hn]. by apply look_dir_follow, look_made.
  - destruct (Lstat fault p d2) as [l d3] eqn:Hl. apply Lstat_run in Hl as [_ Hl].
    destruct l as [[]|]; try done. intros [= <-]. by apply look_dir_follow, Hl.
Qed.

Lemma mkdirs_ok l : ∀ d d', mkdirs fault l d = (Ok tt, d') → Grows d d' ∧ ∀ p, p ∈ l → look d' true p = Ok DirN.
Proof.
  induction l as [|p l IH]; intros d d'; cbn [mkdirs]; [intros [= <-]; split; [reflexivity|set_solver]|].
  intros ([]&d1&H1&H2)%bindM_ok_inv. destruct (IH _ _ H2) as [Hg Hl]. split.
  - etransitivity; [by eapply (kept (grows_mkdir_one p))|done].
  - intros q [->|Hq]%elem_of_cons; [|by apply Hl]. eapply look_grows_dir; [done|]. by eapply mkdir_one_ok.
Qed.

Lemma look_top d f : look d f (path_of true []) = Ok DirN.
Proof. unfold look. rewrite resolve_path_of by done. by rewrite walk_nil. Qed.

Lemma on_the_way_place l q : Forall plain l → q ∈ on_the_way (path_of true l) ↔ ∃ k, (0 < k ≤ length l)%nat ∧ q = path_of true (take k l).
Proof.
  intros Hl. unfold on_the_way. rewrite components_place by done. rewrite list_elem_of_fmap. setoid_rewrite elem_of_seq.
  split; intros (k&H1&H2); exists k; split; (done || lia).
Qed.

(** [os.MkdirAll] that succeeded left a directory. *)
Lemma MkdirAll_ok l d d' : Forall plain l → MkdirAll fault (path_of true l) d = (Ok tt, d') → look d' true (path_of true l) = Ok DirN.
Proof.
  intros Hl. unfold MkdirAll, tryM. destruct (Stat fault _ d) as [st d1] eqn:Hst. apply Stat_run in Hst as [_ Hst].
  destruct st as [[]|e]; [intros [= <-]; by apply Hst|done..|]. intros [_ H]%mkdirs_ok.
  destruct l as [|c l0] eqn:El; [apply look_top|]. rewrite <- El in *. apply H. apply on_the_way_place; [done|].
  exists (length l). split; [rewrite El; cbn; lia|]. by rewrite firstn_all.
Qed.

(** ** Below a directory, without links *)

Definition linkless (root : Place) (d : Disk) : Prop :=
  ∀ q t, (root `prefix_of` q ∨ q `prefix_of` root) → dk_nodes d !! q ≠ Some (LinkN t).

Definition filled (root : Place) (d d' : Disk) : Prop := ∀ q,
  dk_nodes d' !! q = dk_nodes d !! q ∨
  (root `prefix_of` q ∧ ∃ n, dk_nodes d' !! q = Some n ∧ ¬ is_link n) ∨
  (q `prefix_of` root ∧ dk_nodes d !! q = None ∧ dk_nodes d' !! q = Some DirN).

(** On a disk without links at the root, below it or on the way to it, only
    what is below the root and missing directories on the way change. *)
Definition Stays (root : Place) (d d' : Disk) : Prop := linkless root d → linkless root d' ∧ filled root d d'.

#[export] Instance Stays_preorder root : PreOrder (Stays root).
Proof.
  split; [intros d Hd; split; [done|]; by left|]. intros a b c Hab Hbc Ha. destruct (Hab Ha) as [Hb Fab]. destruct (Hbc Hb) as [Hc Fbc].
  split; [done|]. intros q. destruct (Fbc q) as [E|[?|(?&E1&E2)]]; [|by right; left|].
  - destruct (Fab q) as [E'|[(?&n&?&?)|(?&?&?)]]; rewrite E; [by left; congruence|right; left; eauto|right; right; eauto].
  - destruct (Fab q) as [E'|[(?&n&?&?)|(?&?&?)]]; [right; right; split_and!; congruence|congruence|congruence].
Qed.

Lemma Stays_same root d d' : dk_nodes d' = dk_nodes d → Stays root d d'.
Proof. intros He Hd. split; [intros q t; rewrite He; by apply Hd|]. intros q. left. by rewrite He. Qed.

(** A node that is no link, placed below the root or as a directory on the way. *)
Lemma Placed_stays root l what d d' : Forall plain l → (root `prefix_of` l ∨ (l `prefix_of` root ∧ ∀ n, what n → n = DirN)) →
  (∀ n, what n → ¬ is_link n) → Placed (path_of true l) what d d' → Stays root d d'.
Proof.
  intros Hpl Hl Hw [He|f q n Hr Hq Ho Hn He]; [by apply Stays_same|]. intros Hd.
  assert (q = l) as ->.
  { rewrite resolve_path_of in Hr by done. assert (match walk max_links d f [] l with Ok x => x = [] ++ l | Err _ => True end) as Hk.
    - apply walk_linkless; [done|]. intros k t _. apply Hd. destruct Hl as [Hl|[Hl _]].
      + destruct (prefix_weak_total (take k l) root l) as [?|?]; [apply prefix_take|done|by right|by left].
      + right. etransitivity; [apply prefix_take|exact Hl].
    - by rewrite Hr in Hk. }
  assert (filled root d d') as Hf.
  { intros q. rewrite He. destruct (decide (q = l)) as [->|Hne]; [|left; by rewrite lookup_insert_ne].
    rewrite lookup_insert_eq. right. destruct Hl as [Hl|[Hl Hdir]]; [left; eauto|right].
    rewrite (Hdir n Hn) in *. split_and!; [done| |done]. by destruct (dk_nodes d !! l) as [[]|]. }
  split; [|done]. intros q t Hqq Hlk. destruct (Hf q) as [E|[(_&n'&E&Hl')|(_&_&E)]].
  - rewrite E in Hlk. by apply (Hd q t).
  - apply Hl'. exists t. congruence.
  - congruence.
Qed.

Lemma stays_MkdirAll root l : Forall plain l → root `prefix_of` l ∨ l `prefix_of` root → Keeps (Stays root) (MkdirAll fault (path_of true l)).
Proof.
  intros Hpl Hl. apply keeps_MkdirAll; [apply _|apply Stays_same|]. intros q (k&_&->)%on_the_way_place; [|done].
  eapply keeps_placed; [|apply Mkdir_placed]. intros d d'. apply Placed_stays; [by apply Forall_take| |by intros n -> (?&?)].
  destruct Hl as [Hl|Hl].
  - destruct (prefix_weak_total (take k l) root l) as [?|?]; [apply prefix_take|done|right; by split|by left].
  - right. split; [|done]. etransitivity; [apply prefix_take|done].
Qed.

Lemma stays_WriteFile root l s m : Forall plain l → root `prefix_of` l → Keeps (Stays root) (WriteFile fault (path_of true l) s m).
Proof. intros Hpl Hl. eapply keeps_placed; [|apply WriteFile_placed]. intros d d'. apply Placed_stays; [done|by left|by intros n (?&?&->) (?&?)]. Qed.

Lemma stays_Overwrite root l s : Forall plain l → root `prefix_of` l → Keeps (Stays root) (Overwrite fault (path_of true l) s).
Proof. intros Hpl Hl. eapply keeps_placed; [|apply Overwrite_placed]. intros d d'. apply Placed_stays; [done|by left|by intros n (?&?&->) (?&?)]. Qed.
End laws.

#[export] Hint Resolve grows_Mkdir grows_MkdirAll grows_WriteFile grows_Overwrite grows_Symlink : keeps.
