(* ===== verification/Materialize.v ===== *)
(** * Materialization of the runtime ([internal/materialize/materialize.go],
      [internal/worker/initruntime.go])

    The init container fetches the pinned extensions and the harness from an npm
    registry, verifies and unpacks them, and writes the plugin ConfigMaps to
    files; the run form checks that what was declared is there. The registry,
    the API server, the decompressor and the JSON parser are parameters, the
    disk is that of [FileSys]. Every answer may depend on the requests made
    before it. *)

From S2P Require Import Prelude GoStrings GoPath Api Profile Extensions Json FileSys FileLaws.

(** ** Data *)

Inductive Req :=
| ReqGet (url : string)
| ReqList (namespace label : string)
| ReqConfigMap (namespace name : string).

(** The pod during its init: its disk and the requests it made. *)
Record Host := { ho_disk : Disk; ho_reqs : list Req }.

Record ConfigMap := {
  cm_Name : string;
  cm_Data : gmap string string;
  cm_BinaryData : gmap string string;
}.

Inductive TarType := TypeDir | TypeReg | TypeSymlink | TypeOther.

(** A tar header with its content, read up to an error or to its end. *)
Record TarEntry := {
  te_Name : string;
  te_Typeflag : TarType;
  te_Mode : Z;
  te_Linkname : string;
  te_Body : string;
  te_Err : option string;
}.

(** What [tr.Next] yields: entries, then the end or an error. *)
Record Archive := { ar_Entries : list TarEntry; ar_Err : option string }.

Record VersionDist := { vd_Tarball : string; vd_Integrity : string }.
Record packument := { pk_Versions : gmap string VersionDist }.

(** An error is the values its text prints. *)
Inductive MatErr :=
| BadSpec (spec : string)
| OfExtension (name : string) (e : MatErr)
| OfHarness (name : string) (e : MatErr)
| OfPackument (name : string) (e : MatErr)
| OfTarball (name version : string) (e : MatErr)
| OfExtract (name version : string) (e : MatErr)
| GetFailed (text : string)
| GetStatus (url : string) (status : Z)
| ParsePackument (url : string)
| NoVersion (name version : string) (known : nat)
| PinDisagrees (name version pin registry : string)
| BytesDisagree (pin got : string)
| Gunzip (text : string)
| ReadTar (text : string)
| EntryEscapes (entry : string)
| LinkAbsolute (entry target : string)
| LinkEscapes (entry : string)
| CopyFailed (rel text : string)
| NoPackageJSON (e : FsError)
| BadPackageJSON
| NoBin
| BinNeither
| BinAmbiguous (n : nat)
| WritePiPath (e : FsError)
| OnDisk (e : FsError)
| ListFailed (label namespace text : string)
| GetFailedCM (name text : string)
| OfConfigMap (name : string) (e : FsError)
| OfKey (name key : string) (e : FsError)
| KeyEscapes (name key : string)
| BadManifest (e : ManifestError)
| NoClient (text : string).

Notation Init := (M Host MatErr).

(** ** Names *)

Definition ParseNPMSpec (spec : string) : result MatErr (string * string) :=
  match cut_last "@"%char spec with
  | None | Some ("", _) => Err (BadSpec spec)
  | Some (name, version) => Ok (name, version)
  end.

Definition nameFor (spec : string) : string :=
  match cut_last "@"%char spec with
  | None | Some ("", _) => spec
  | Some (name, _) => name
  end.

Definition shortSRI (sri : string) : string :=
  if 24 <? slen sri then str_take 24 sri +:+ bytes_of [226; 128; 166] else sri.

Definition escapePkgName (name : string) : string :=
  if has_prefix name "@" then
    match cut_first "/"%char name with Some (a, b) => a +:+ "%2F" +:+ b | None => name end
  else name.

(** ** Decoding *)

Definition dec_map {A} (dec : Decoder A) : Decoder (gmap string A) := λ j,
  match j with
  | JNull => Some ∅
  | JObj fields => foldl (λ m kv, m ← m; v ← dec kv.2; Some (<[kv.1 := v]> m)) (Some ∅) fields
  | _ => None
  end.

Definition dec_dist : Decoder VersionDist := dec_struct (λ f,
  t ← field "tarball" dec_string f; i ← field "integrity" dec_string f;
  Some {| vd_Tarball := t; vd_Integrity := i |}).

Definition dec_packument : Decoder packument := dec_struct (λ f,
  vs ← field "versions" (dec_map (dec_struct (field "dist" dec_dist))) f; Some {| pk_Versions := vs |}).

(** The path of the one bin of a [package.json]. *)
Definition bin_of (j : json) : result MatErr string :=
  match match j with JObj fields => Some fields | JNull => Some [] | _ => None end with
  | None => Err BadPackageJSON
  | Some fields =>
      match json_field "bin" fields with
      | None => Err NoBin
      | Some (JStr single) => Ok single
      | Some bin =>
          match dec_map dec_string bin with
          | None => Err BinNeither
          | Some m => match map_to_list m with
                      | [(_, p)] => Ok p
                      | l => Err (BinAmbiguous (length l))
                      end
          end
      end
  end.

(** ** Lifting *)

Definition map_err {S E F A} (f : E → F) (m : M S E A) : M S F A := λ s,
  match m s with (Ok a, s) => (Ok a, s) | (Err e, s) => (Err (f e), s) end.

Definition on_disk {A} (m : M Disk MatErr A) : Init A := λ h,
  let '(r, d) := m (ho_disk h) in (r, {| ho_disk := d; ho_reqs := ho_reqs h |}).

Definition asking {A} (q : Req) (answer : list Req → result MatErr A) : Init A := λ h,
  (answer (ho_reqs h), {| ho_disk := ho_disk h; ho_reqs := ho_reqs h ++ [q] |}).

Section materialize.
Context (fault : nat → FsCall → option Fault).
(** [hc.Do] of a GET: an error, or the status and what reading the body gives. *)
Context (http : list Req → string → result string (Z * result string string)).
Context (listed : list Req → string → string → result string (list string)).
Context (configmap : list Req → string → string → result string ConfigMap).
(** Base64 of the SHA-512 digest; [encoding/json]; gzip and tar. *)
Context (sum512 : string → string) (parse : string → option json) (untar : string → result string Archive).
Context (map_order : gmap string string → list (string * string)).

(** ** Unpacking *)

Definition disk_err {A} (m : M Disk FsError A) : M Disk MatErr A := map_err OnDisk m.

Definition entry_rel (e : TarEntry) : string := trim_prefix (trim_prefix (te_Name e) "package/") "./".

Definition extract_reg (dest : string) (e : TarEntry) : M Disk MatErr unit :=
  let! _ := disk_err (MkdirAll fault (Dir dest)) in
  let mode := Z.land (te_Mode e) 511 in
  let mode := if decide (mode = 0) then 420 else mode in
  let! _ := disk_err (WriteFile fault dest "" mode) in
  let! _ := disk_err (Overwrite fault dest (te_Body e)) in
  match te_Err e with
  | Some t => throw (CopyFailed (entry_rel e) t)
  | None => ret tt
  end.

Definition extract_link (destDir dest : string) (e : TarEntry) : M Disk MatErr unit :=
  let target := te_Linkname e in
  if IsAbs target then throw (LinkAbsolute (te_Name e) target)
  else if negb (at_or_under (Clean destDir) (Clean (Join (Dir dest) target))) then throw (LinkEscapes (te_Name e))
  else disk_err (Symlink fault target dest).

Definition extract_entry (destDir : string) (e : TarEntry) : M Disk MatErr unit :=
  if decide (entry_rel e = "") then ret tt
  else
    let clean := Clean (entry_rel e) in
    if has_prefix clean "../" || IsAbs clean then throw (EntryEscapes (te_Name e))
    else
      let dest := Join destDir clean in
      match te_Typeflag e with
      | TypeDir => disk_err (MkdirAll fault dest)
      | TypeReg => extract_reg dest e
      | TypeSymlink => extract_link destDir dest e
      | TypeOther => ret tt
      end.

Fixpoint extract_entries (destDir : string) (l : list TarEntry) : M Disk MatErr unit :=
  match l with
  | [] => ret tt
  | e :: l => let! _ := extract_entry destDir e in extract_entries destDir l
  end.

Definition extractPkgTarball (tarball destDir : string) : M Disk MatErr unit :=
  match untar tarball with
  | Err t => throw (Gunzip t)
  | Ok a =>
      let! _ := extract_entries destDir (ar_Entries a) in
      match ar_Err a with Some t => throw (ReadTar t) | None => ret tt end
  end.

(** ** Fetching *)

Definition getBytes (url : string) : Init string :=
  asking (ReqGet url) (λ reqs,
    match http reqs url with
    | Err t => Err (GetFailed t)
    | Ok (status, body) =>
        if (status <? 200) || (300 <=? status) then Err (GetStatus url status)
        else match body with Ok b => Ok b | Err t => Err (GetFailed t) end
    end).

Definition getJSON (url : string) : Init packument :=
  let! body := getBytes url in
  match parse body ≫= dec_packument with
  | Some pk => ret pk
  | None => throw (ParsePackument url)
  end.

Definition sri_of (data : string) : string := "sha512-" +:+ sum512 data.

Definition verifySRI (data sri : string) : result MatErr unit :=
  if decide (sri_of data = sri) then Ok tt else Err (BytesDisagree (shortSRI sri) (shortSRI (sri_of data))).

Definition of_result {S A} (r : result MatErr A) : M S MatErr A := λ s, (r, s).

Definition fetchAndExtract (reg name version integrity destDir : string) : Init unit :=
  let url := trim_suffix reg "/" +:+ "/" +:+ escapePkgName name in
  let! pk := map_err (OfPackument name) (getJSON url) in
  match pk_Versions pk !! version with
  | None => throw (NoVersion name version (size (pk_Versions pk)))
  | Some v =>
      if decide (vd_Integrity v ≠ integrity)
      then throw (PinDisagrees name version (shortSRI integrity) (shortSRI (vd_Integrity v)))
      else
        let! tarball := map_err (OfTarball name version) (getBytes (vd_Tarball v)) in
        let! _ := map_err (OfTarball name version) (of_result (verifySRI tarball integrity)) in
        map_err (OfExtract name version) (on_disk (extractPkgTarball tarball destDir))
  end.

Definition FetchExtension (reg spec integrity destDir : string) : Init unit :=
  match ParseNPMSpec spec with
  | Err e => throw (OfExtension (nameFor spec) e)
  | Ok (name, version) => fetchAndExtract reg name version integrity (Join destDir name)
  end.

Definition resolveBin (pkgDir : string) : M Disk MatErr string :=
  let! raw := map_err NoPackageJSON (ReadFile fault (Join pkgDir "package.json")) in
  match parse raw with
  | None => throw BadPackageJSON
  | Some j => let! binPath := of_result (bin_of j) in ret (Join pkgDir binPath)
  end.

Definition FetchHarness (reg spec integrity destDir : string) : Init unit :=
  match ParseNPMSpec spec with
  | Err e => throw (OfHarness (nameFor spec) e)
  | Ok (name, version) =>
      let pkgDir := Join destDir name in
      let! _ := fetchAndExtract reg name version integrity pkgDir in
      let! bin := map_err (OfHarness spec) (on_disk (resolveBin pkgDir)) in
      map_err (OfHarness spec) (on_disk (map_err WritePiPath (WriteFile fault (Join destDir ".pi-path") (Abs bin) 420)))
  end.

(** ** Plugins *)

Definition dedup_names (names : list string) : list string :=
  (foldl (λ '(seen, ordered) n,
     if decide (n ≠ "" ∧ n ∉ seen) then ({[n]} ∪ seen, ordered ++ [n]) else (seen, ordered)) (∅ : gset string, []) names).2.

Definition write_key (name cmDir key val : string) : M Disk MatErr unit :=
  let clean := Clean key in
  if has_prefix clean "../" || IsAbs clean then throw (KeyEscapes name key)
  else map_err (OfKey name key) (WriteFile fault (Join cmDir clean) val 493).

Fixpoint write_keys (name cmDir : string) (l : list (string * string)) : M Disk MatErr unit :=
  match l with
  | [] => ret tt
  | (key, val) :: l => let! _ := write_key name cmDir key val in write_keys name cmDir l
  end.

Definition project_one (namespace destDir name : string) : Init unit :=
  let! cm := asking (ReqConfigMap namespace name) (λ reqs,
    match configmap reqs namespace name with Ok cm => Ok cm | Err t => Err (GetFailedCM name t) end) in
  let cmDir := Join destDir (cm_Name cm) in
  let! _ := on_disk (map_err (OfConfigMap (cm_Name cm)) (MkdirAll fault cmDir)) in
  let! _ := on_disk (write_keys (cm_Name cm) cmDir (map_order (cm_Data cm))) in
  on_disk (write_keys (cm_Name cm) cmDir (map_order (cm_BinaryData cm))).

Fixpoint project_all (namespace destDir : string) (names : list string) (count : nat) : Init nat :=
  match names with
  | [] => ret count
  | n :: names => let! _ := project_one namespace destDir n in project_all namespace destDir names (S count)
  end.

Definition projectConfigMaps (namespace : string) (names : list string) (destDir : string) : Init nat :=
  project_all namespace destDir (dedup_names names) 0.

Definition ProjectPlugins (namespace labelValue destDir : string) : Init nat :=
  let! names := asking (ReqList namespace labelValue) (λ reqs,
    match listed reqs namespace labelValue with Ok l => Ok l | Err t => Err (ListFailed labelValue namespace t) end) in
  projectConfigMaps namespace names destDir.

Definition ProjectPluginRefs (namespace : string) (refs : list string) (destDir : string) : Init nat :=
  projectConfigMaps namespace refs destDir.

(** ** The init container *)

Context `{ManifestCodec}.

Definition ExtensionsRoot : string := "/runtime/extensions".
Definition HarnessRoot : string := "/runtime/harness".
Definition PluginsRoot : string := "/plugins".
Definition DefaultRegistry : string := "https://registry.npmjs.org".

Definition registryFromEnv (getenv : string → string) : string :=
  let r := getenv "HARMOSTES_NPM_REGISTRY" in if decide (r = "") then DefaultRegistry else r.

Definition pluginRefsFromEnv (getenv : string → string) : list string :=
  let raw := getenv "HARMOSTES_PLUGIN_REFS" in
  if decide (raw = "") then []
  else filter (λ s, s ≠ "") (TrimSpace <$> split_byte ","%char raw).

Fixpoint fetch_pins (getenv : string → string) (pins : list ExtensionPin) : Init unit :=
  match pins with
  | [] => ret tt
  | pin :: pins =>
      let! _ := map_err (OfExtension (xp_Name pin))
        (FetchExtension (registryFromEnv getenv) (xp_Source pin) (xp_Integrity pin) ExtensionsRoot) in
      fetch_pins getenv pins
  end.

Definition init_harness (getenv : string → string) : Init unit :=
  match ParseHarnessManifest (getenv "HARMOSTES_HARNESS_MANIFEST") with
  | Err e => throw (BadManifest e)
  | Ok None => ret tt
  | Ok (Some h) => map_err (OfHarness (hr_Runtime h))
      (FetchHarness (registryFromEnv getenv) (hr_Source h) (hr_Integrity h) HarnessRoot)
  end.

Definition init_plugins (getenv : string → string) : Init unit :=
  if decide (getenv "HARMOSTES_AGGREGATE_PLUGINS" = "true") then
    let v := getenv "HARMOSTES_PLUGIN_LABEL_VALUE" in
    let labelValue := if decide (v = "") then "true" else v in
    let! _ := ProjectPlugins (getenv "HARMOSTES_NAMESPACE") labelValue PluginsRoot in ret tt
  else ret tt.

Definition init_refs (getenv : string → string) : Init unit :=
  match pluginRefsFromEnv getenv with
  | [] => ret tt
  | refs => let! _ := ProjectPluginRefs (getenv "HARMOSTES_NAMESPACE") refs PluginsRoot in ret tt
  end.

Definition RunInitRuntime (client : result string unit) (getenv : string → string) : Init unit :=
  match client with
  | Err t => throw (NoClient t)
  | Ok _ =>
      match ParseExtensionManifest (getenv "HARMOSTES_EXTENSION_MANIFEST") with
      | Err e => throw (BadManifest e)
      | Ok pins =>
          let! _ := fetch_pins getenv pins in
          let! _ := init_harness getenv in
          let! _ := init_plugins getenv in
          init_refs getenv
      end
  end.

(** ** The run form *)

Record RuntimeMaterialization := { rm_ExtensionPaths : list string; rm_PiPath : string }.

Inductive ConsumeErr :=
| ConsumeManifest (e : ManifestError)
| RefMissing (ref dir : string)
| ExtensionMissing (name source dir : string)
| PiPathMissing (runtime file : string)
| PiPathEmpty (runtime file : string)
| PiMissing (runtime pi : string).

Notation Consume := (M Disk ConsumeErr).

(** [stat] of each path in turn, to the first that is missing. *)
Fixpoint all_there {A} (dir : A → string) (missing : A → ConsumeErr) (l : list A) : Consume (list string) :=
  match l with
  | [] => ret []
  | a :: l =>
      let! _ := map_err (λ _, missing a) (Stat fault (dir a)) in
      let! dirs := all_there dir missing l in ret (dir a :: dirs)
  end.

Definition consume_harness (harnessRoot : string) (raw : string) : Consume string :=
  match ParseHarnessManifest raw with
  | Err e => throw (ConsumeManifest e)
  | Ok None => ret ""
  | Ok (Some h) =>
      let file := Join harnessRoot ".pi-path" in
      let! content := map_err (λ _, PiPathMissing (hr_Runtime h) file) (ReadFile fault file) in
      let pi := TrimSpace content in
      if decide (pi = "") then throw (PiPathEmpty (hr_Runtime h) file)
      else let! _ := map_err (λ _, PiMissing (hr_Runtime h) pi) (Stat fault pi) in ret pi
  end.

Definition consumeMaterializedRuntime (getenv : string → string) (extensionsRoot harnessRoot pluginsRoot : string) : Consume RuntimeMaterialization :=
  match ParseExtensionManifest (getenv "HARMOSTES_EXTENSION_MANIFEST") with
  | Err e => throw (ConsumeManifest e)
  | Ok pins =>
      let! _ := all_there (Join pluginsRoot) (λ ref, RefMissing ref (Join pluginsRoot ref)) (pluginRefsFromEnv getenv) in
      let! paths := all_there (λ p, Join extensionsRoot (xp_Name p))
        (λ p, ExtensionMissing (xp_Name p) (xp_Source p) (Join extensionsRoot (xp_Name p))) pins in
      let! pi := consume_harness harnessRoot (getenv "HARMOSTES_HARNESS_MANIFEST") in
      ret {| rm_ExtensionPaths := paths; rm_PiPath := pi |}
  end.

Definition ConsumeMaterializedRuntime (getenv : string → string) : Consume RuntimeMaterialization :=
  consumeMaterializedRuntime getenv ExtensionsRoot HarnessRoot PluginsRoot.
End materialize.

(** ** What a fetch installs is what was pinned *)

Section pinned.
Context (fault : nat → FsCall → option Fault).
Context (http : list Req → string → result string (Z * result string string)).
Context (sum512 : string → string) (parse : string → option json) (untar : string → result string Archive).

Definition good_get (reqs : list Req) (url body : string) : Prop :=
  ∃ status, http reqs url = Ok (status, Ok body) ∧ 200 ≤ status < 300.

Lemma getBytes_run url h r h' : getBytes http url h = (r, h') →
  ho_disk h' = ho_disk h ∧ ho_reqs h' = ho_reqs h ++ [ReqGet url] ∧ ∀ b, r = Ok b → good_get (ho_reqs h) url b.
Proof.
  unfold getBytes, asking. intros [= <- <-]. split_and!; [done..|]. intros b.
  destruct (http _ _) as [[status body]|] eqn:Hh; [|done]. destruct (_ || _) eqn:Hs; [done|].
  to_prop. destruct body as [b'|]; [|done]. intros [= ->]. exists status. split; [done|lia].
Qed.

(** The registry's answer agreed with the pin, and so did the bytes. *)
Record Verified (reqs : list Req) (reg name version integrity tarball : string) : Prop := {
  vf_packument : ∃ doc j pk v,
    good_get reqs (trim_suffix reg "/" +:+ "/" +:+ escapePkgName name) doc ∧ parse doc = Some j ∧ dec_packument j = Some pk ∧
    pk_Versions pk !! version = Some v ∧ vd_Integrity v = integrity ∧
    good_get (reqs ++ [ReqGet (trim_suffix reg "/" +:+ "/" +:+ escapePkgName name)]) (vd_Tarball v) tarball;
  vf_bytes : sri_of sum512 tarball = integrity;
}.

(** C7. A fetch that did not verify both the registry's integrity and the hash
    of the downloaded bytes against the pin fails and leaves the disk alone;
    one that did installs exactly those bytes under the package's name. *)
Theorem fetched_is_pinned reg spec integrity destDir h r h' :
  FetchExtension fault http sum512 parse untar reg spec integrity destDir h = (r, h') →
  (is_ok r = false ∧ ho_disk h' = ho_disk h) ∨
  ∃ name version tarball r0,
    ParseNPMSpec spec = Ok (name, version) ∧ Verified (ho_reqs h) reg name version integrity tarball ∧
    extractPkgTarball fault untar tarball (Join destDir name) (ho_disk h) = (r0, ho_disk h') ∧ is_ok r = is_ok r0.
Proof.
  unfold FetchExtension. destruct (ParseNPMSpec spec) as [[name version]|e]; [|intros [= <- <-]; by left].
  unfold fetchAndExtract, bindM at 1, map_err at 1, getJSON, bindM at 1.
  set (url := _ +:+ _). destruct (getBytes http url h) as [doc h1] eqn:H1. apply getBytes_run in H1 as (D1&R1&B1).
  destruct doc as [doc|]; [|intros [= <- <-]; by left]. destruct (parse doc) as [j|] eqn:Hj; cbn [mbind option_bind]; [|intros [= <- <-]; by left].
  destruct (dec_packument j) as [pk|] eqn:Hpk; cbn [ret]; [|intros [= <- <-]; by left].
  destruct (pk_Versions pk !! version) as [v|] eqn:Hv; [|intros [= <- <-]; by left].
  destruct (decide _) as [|Hi]; [intros [= <- <-]; by left|]. apply dec_stable in Hi.
  unfold bindM at 1, map_err at 1. destruct (getBytes http (vd_Tarball v) h1) as [ball h2] eqn:H2. apply getBytes_run in H2 as (D2&R2&B2).
  destruct ball as [ball|]; [|intros [= <- <-]; left; split; [done|congruence]].
  unfold bindM, map_err, of_result, verifySRI. destruct (decide _) as [Hb|]; [|intros [= <- <-]; left; split; [done|congruence]].
  unfold on_disk. rewrite D2, D1. destruct (extractPkgTarball fault untar ball _ (ho_disk h)) as [r0 d] eqn:Hx. intros Hr. right.
  exists name, version, ball, r0. split_and!; [done| |by destruct r0; injection Hr as <- <-|by destruct r0; injection Hr as <- <-].
  split; [|done]. exists doc, j, pk, v. rewrite R1 in B2. split_and!; eauto.
Qed.
End pinned.

(** ** Unpacking stays below its directory *)

Section below.
Context (fault : nat → FsCall → option Fault) (untar : string → result string Archive).

Lemma keeps_map_err {S E F A} (R : S → S → Prop) (f : E → F) (m : M S E A) : Keeps R m → Keeps R (map_err f m).
Proof.
  intros Hm. constructor. intros s r s'. unfold map_err. destruct (m s) as [[a|e] s1] eqn:H1; intros [= <- <-]; by eapply kept.
Qed.

(** No link, and nothing that cleans to the parent of the directory. *)
Definition tame (e : TarEntry) : Prop := te_Typeflag e ≠ TypeSymlink ∧ Clean (entry_rel e) ≠ "..".

Lemma dest_of destDir e : IsAbs destDir = true → has_prefix (Clean (entry_rel e)) "../" || IsAbs (Clean (entry_rel e)) = false →
  Clean (entry_rel e) ≠ ".." → ∃ l, Forall plain l ∧ Clean (entry_rel e) = path_of false l ∧
  Join destDir (Clean (entry_rel e)) = path_of true (components destDir ++ l) ∧ Forall plain (components destDir ++ l).
Proof.
  intros Ha Hg Hn. to_prop. destruct (relative_below (entry_rel e)) as (l&Hl&Hc); [by rewrite <- IsAbs_Clean|done|done|].
  exists l. split_and!; [done..|rewrite Hc; by apply Join_below|]. apply Forall_app_2; [by apply components_plain|done].
Qed.

Lemma removelast_prefix {A} (l : list A) : removelast l `prefix_of` l.
Proof. induction l as [|x l _] using rev_ind; [done|]. rewrite removelast_last. by apply prefix_app_r. Qed.

Lemma removelast_app_prefix {A} (a l : list A) : a `prefix_of` removelast (a ++ l) ∨ removelast (a ++ l) `prefix_of` a.
Proof.
  destruct l as [|x l]; [right; rewrite app_nil_r; apply removelast_prefix|]. left. rewrite removelast_app by done. by eexists.
Qed.

Lemma Forall_removelast {A} (P : A → Prop) l : Forall P l → Forall P (removelast l).
Proof. intros Hl. destruct (removelast_prefix l) as [k Hk]. rewrite Hk in Hl. by apply Forall_app in Hl as [? _]. Qed.

Lemma stays_entry destDir e : IsAbs destDir = true → tame e → Keeps (Stays (components destDir)) (extract_entry fault destDir e).
Proof.
  intros Ha [Hs Hup]. unfold extract_entry. destruct (decide (entry_rel e = "")); [keeps|].
  destruct (_ || _) eqn:Hg; [keeps|]. destruct (dest_of destDir e Ha Hg Hup) as (l&Hl&_&->&Hpl).
  destruct (te_Typeflag e) eqn:Ht; [| |done|keeps].
  - apply keeps_map_err, stays_MkdirAll; [done|left; by eexists].
  - unfold extract_reg. rewrite Dir_place by done. apply keeps_bind; [apply _| |intros _; apply keeps_bind; [apply _| |intros _]].
    + apply keeps_map_err, stays_MkdirAll; [by apply Forall_removelast|apply removelast_app_prefix].
    + apply keeps_map_err, stays_WriteFile; [done|by eexists].
    + apply keeps_bind; [apply _| |intros _; destruct (te_Err e); keeps].
      apply keeps_map_err, stays_Overwrite; [done|by eexists].
Qed.

Lemma stays_entries destDir l : IsAbs destDir = true → Forall tame l → Keeps (Stays (components destDir)) (extract_entries fault destDir l).
Proof. intros Ha. induction 1 as [|e l He _ IH]; cbn [extract_entries]; [keeps|]. apply keeps_bind; [apply _|by apply stays_entry|done]. Qed.

(** C11. Unpacking an archive without symbolic links or an entry that cleans to
    [".."], into an absolute directory of a disk that has no link at it, above
    it or below it, changes nothing but what is below that directory and
    missing directories on the way to it, whatever fails; and it leaves no link
    there. A link that is already there, or that the archive brings, is
    followed out of the directory ([link_chain_escapes]). *)
Theorem extract_stays_below tarball a destDir d r d' :
  IsAbs destDir = true → untar tarball = Ok a → Forall tame (ar_Entries a) → linkless (components destDir) d →
  extractPkgTarball fault untar tarball destDir d = (r, d') →
  linkless (components destDir) d' ∧ filled (components destDir) d d'.
Proof.
  intros Ha Hu Ht Hd Hx. revert Hd. change (Stays (components destDir) d d'). refine (kept _ d r d' Hx). unfold extractPkgTarball. rewrite Hu.
  apply keeps_bind; [apply _|by apply stays_entries|]. intros _. destruct (ar_Err a); keeps.
Qed.
End below.

(** ** Everything the init does adds to the disk *)

Section grows.
Context (fault : nat → FsCall → option Fault).
Context (http : list Req → string → result string (Z * result string string)).
Context (listed : list Req → string → string → result string (list string)).
Context (configmap : list Req → string → string → result string ConfigMap).
Context (sum512 : string → string) (parse : string → option json) (untar : string → result string Archive).
Context (map_order : gmap string string → list (string * string)).
Context `{ManifestCodec}.

Definition host_grows (h h' : Host) : Prop := Grows (ho_disk h) (ho_disk h').

#[local] Instance host_grows_preorder : PreOrder host_grows.
Proof. split; [intros h; apply (reflexivity (R := Grows))|intros a b c; apply (transitivity (R := Grows))]. Qed.

Lemma grows_on_disk {A} (m : M Disk MatErr A) : Keeps Grows m → Keeps host_grows (on_disk m).
Proof.
  intros Hm. constructor. intros h r h'. unfold on_disk. destruct (m (ho_disk h)) as [r0 d] eqn:H1. intros [= <- <-].
  by eapply (kept Hm).
Qed.

Lemma grows_asking {A} q (f : list Req → result MatErr A) : Keeps host_grows (asking q f).
Proof. constructor. intros h r h' [= <- <-]. apply (reflexivity (R := Grows)). Qed.

Lemma grows_ReadFile p : Keeps Grows (ReadFile fault p).
Proof. constructor. intros d r d'. unfold ReadFile, syscall. destruct (fault _ _); intros [= <- <-]; by apply Grows_same. Qed.

Lemma grows_of_result {S A} (R : S → S → Prop) `{!PreOrder R} (r : result MatErr A) : Keeps R (of_result r).
Proof. constructor. intros s r' s' [= <- <-]. reflexivity. Qed.

#[local] Hint Resolve keeps_map_err grows_on_disk grows_asking grows_ReadFile : keeps.

Lemma grows_entry destDir e : Keeps Grows (extract_entry fault destDir e).
Proof. unfold extract_entry, extract_reg, extract_link, disk_err. keeps. Qed.

Lemma grows_entries destDir l : Keeps Grows (extract_entries fault destDir l).
Proof. pose proof grows_entry. induction l as [|e l IH]; cbn [extract_entries]; keeps. Qed.

Lemma grows_extract tarball destDir : Keeps Grows (extractPkgTarball fault untar tarball destDir).
Proof. unfold extractPkgTarball. pose proof grows_entries. keeps. Qed.

Lemma grows_fetchAndExtract reg name version integrity destDir :
  Keeps host_grows (fetchAndExtract fault http sum512 parse untar reg name version integrity destDir).
Proof.
  unfold fetchAndExtract, getJSON, getBytes. pose proof grows_extract.
  repeat first [apply keeps_map_err; apply grows_of_result; apply _ | apply keeps_map_err | keeps_step].
Qed.

Lemma grows_FetchExtension reg spec integrity destDir : Keeps host_grows (FetchExtension fault http sum512 parse untar reg spec integrity destDir).
Proof. unfold FetchExtension. pose proof grows_fetchAndExtract. keeps. Qed.

Lemma grows_harness getenv : Keeps host_grows (init_harness fault http sum512 parse untar getenv).
Proof.
  unfold init_harness, FetchHarness, resolveBin. pose proof grows_fetchAndExtract.
  repeat first [apply keeps_map_err | apply grows_on_disk | apply grows_of_result; apply _ | keeps_step].
Qed.

Lemma grows_keys name cmDir l : Keeps Grows (write_keys fault name cmDir l).
Proof. induction l as [|[k v] l IH]; cbn [write_keys]; [keeps|]. unfold write_key. keeps. Qed.

Lemma grows_project namespace names destDir count : Keeps host_grows (project_all fault configmap map_order namespace destDir names count).
Proof.
  revert count. induction names as [|n names IH]; intros count; cbn [project_all]; [keeps|]. unfold project_one. pose proof grows_keys.
  repeat first [apply grows_on_disk, keeps_map_err | keeps_step].
Qed.

Lemma grows_plugins getenv : Keeps host_grows (init_plugins fault listed configmap map_order getenv).
Proof. unfold init_plugins, ProjectPlugins, projectConfigMaps. pose proof grows_project. keeps. Qed.

Lemma grows_pins getenv pins : Keeps host_grows (fetch_pins fault http sum512 parse untar getenv pins).
Proof. pose proof grows_FetchExtension. induction pins as [|p pins IH]; cbn [fetch_pins]; keeps. Qed.

Lemma grows_refs getenv : Keeps host_grows (init_refs fault configmap map_order getenv).
Proof. unfold init_refs, ProjectPluginRefs, projectConfigMaps. pose proof grows_project. keeps. Qed.
End grows.

(** ** What was initialised is what the run finds *)

Section handover.
Context (fault : nat → FsCall → option Fault).
Context (http : list Req → string → result string (Z * result string string)).
Context (listed : list Req → string → string → result string (list string)).
Context (configmap : list Req → string → string → result string ConfigMap).
Context (sum512 : string → string) (parse : string → option json) (untar : string → result string Archive).
Context (map_order : gmap string string → list (string * string)).
Context `{ManifestCodec}.

Definition there (d : Disk) (p : string) : Prop := ∃ n, look d true p = Ok n.

Lemma there_grows d d' p : Grows d d' → there d p → there d' p.
Proof. intros Hg [n Hn]. destruct (look_grows _ _ _ _ _ Hg Hn) as (n'&?&_). by exists n'. Qed.

(** A file or a directory below the root of the archive. *)
Definition payload (e : TarEntry) : Prop :=
  entry_rel e ≠ "" ∧ (te_Typeflag e = TypeDir ∨ te_Typeflag e = TypeReg) ∧
  Clean (entry_rel e) ≠ "." ∧ Clean (entry_rel e) ≠ "..".

Lemma look_root root l d n : IsAbs root = true → Forall plain l →
  look d true (path_of true (components root ++ l)) = Ok n → there d (path_of true (components root)).
Proof.
  intros Ha Hl Hd. destruct (decide (l = [])) as [->|Hne]; [rewrite app_nil_r in Hd; by exists n|].
  exists DirN. eapply look_above; [by apply components_plain|exact Hl|done|exact Hd].
Qed.

Lemma map_err_ok {S E F A} (f : E → F) (m : M S E A) s a s' : map_err f m s = (Ok a, s') → m s = (Ok a, s').
Proof. unfold map_err. destruct (m s) as [[]]; naive_solver. Qed.

Lemma payload_entry destDir e d d' : IsAbs destDir = true → payload e →
  extract_entry fault destDir e d = (Ok tt, d') → there d' (path_of true (components destDir)).
Proof.
  intros Ha (Hrel&Ht&Hdot&Hup). unfold extract_entry. rewrite decide_False by done.
  destruct (_ || _) eqn:Hg; [done|]. destruct (dest_of destDir e Ha Hg Hup) as (l&Hl&Hcl&->&Hpl).
  destruct Ht as [-> | ->].
  - intros Hm%map_err_ok. apply MkdirAll_ok in Hm; [|done]. eapply look_root; [done|exact Hl|exact Hm].
  - unfold extract_reg. intros ([]&d1&Hm%map_err_ok&Hw)%bindM_ok_inv. rewrite Dir_place in Hm by done.
    apply MkdirAll_ok in Hm; [|by apply Forall_removelast]. assert (l ≠ []) as Hne by (intros ->; by rewrite Hcl in Hdot).
    rewrite removelast_app in Hm by done. apply look_root in Hm; [|done|by apply Forall_removelast].
    eapply there_grows; [|exact Hm]. refine (kept _ d1 _ d' Hw). unfold disk_err.
    apply keeps_bind; [apply _|apply keeps_map_err, grows_WriteFile|intros _].
    apply keeps_bind; [apply _|apply keeps_map_err, grows_Overwrite|intros _; destruct (te_Err e); keeps].
Qed.

Lemma payload_there tarball a destDir d d' : IsAbs destDir = true → untar tarball = Ok a → Exists payload (ar_Entries a) →
  extractPkgTarball fault untar tarball destDir d = (Ok tt, d') → there d' (path_of true (components destDir)).
Proof.
  intros Ha Hu Hp. unfold extractPkgTarball. rewrite Hu. intros ([]&d1&Hx&Hr)%bindM_ok_inv.
  destruct (ar_Err a); [done|]. injection Hr as <-. revert d Hx.
  induction Hp as [e l He|e l Hp IH]; intros d; cbn [extract_entries]; intros ([]&d2&H1&H2)%bindM_ok_inv.
  - eapply there_grows; [|by eapply payload_entry]. by eapply (kept (grows_entries fault destDir l)).
  - by eapply IH.
Qed.

(** *** The declaration and what it names *)

Context (getenv : string → string) (pins : list ExtensionPin).
Hypothesis manifest : ParseExtensionManifest (getenv "HARMOSTES_EXTENSION_MANIFEST") = Ok pins.
(** Extensions are declared under the names of their packages. *)
Hypothesis names : ∀ pin, pin ∈ pins → ∃ v l,
  ParseNPMSpec (xp_Source pin) = Ok (xp_Name pin, v) ∧ Forall plain l ∧ xp_Name pin = path_of false l.
Hypothesis contents : ∀ pin tarball a, pin ∈ pins → sri_of sum512 tarball = xp_Integrity pin →
  untar tarball = Ok a → Exists payload (ar_Entries a).
(** The API server answers with the object that was asked for. *)
Hypothesis answered : ∀ reqs ns n cm, configmap reqs ns n = Ok cm → cm_Name cm = n.
Hypothesis refs_plain : Forall plain (pluginRefsFromEnv getenv).

Definition extension_dir (pin : ExtensionPin) : string := Join ExtensionsRoot (xp_Name pin).

Lemma root_dir root l : IsAbs root = true → Forall plain l →
  IsAbs (Join root (path_of false l)) = true ∧ path_of true (components (Join root (path_of false l))) = Join root (path_of false l).
Proof.
  intros Ha Hl. rewrite Join_below by done. split; [done|]. rewrite components_place; [done|].
  apply Forall_app_2; [by apply components_plain|done].
Qed.

Lemma pins_there l h h' : (∀ p, p ∈ l → p ∈ pins) → fetch_pins fault http sum512 parse untar getenv l h = (Ok tt, h') →
  ∀ pin, pin ∈ l → there (ho_disk h') (extension_dir pin).
Proof.
  revert h. induction l as [|p l IH]; intros h Hsub; cbn [fetch_pins]; [set_solver|].
  intros ([]&h1&H1%map_err_ok&H2)%bindM_ok_inv pin [->|Hin]%elem_of_cons; [|eapply IH; [set_solver|exact H2|done]].
  eapply there_grows; [by eapply (kept (grows_pins _ _ _ _ _ getenv l))|].
  destruct (fetched_is_pinned _ _ _ _ _ _ _ _ _ _ _ _ H1) as [[Hf _]|(name&v&tarball&r0&Hs&[_ Hb]&Hx&Hr)]; [done|].
  destruct (names p ltac:(set_solver)) as (v'&lp&Hs'&Hpl&Hn). rewrite Hs in Hs'. injection Hs' as -> ->.
  destruct r0 as [[]|]; [|done]. destruct (root_dir ExtensionsRoot lp eq_refl Hpl) as [Ha Hp]. rewrite <- Hn in Ha, Hp.
  unfold extension_dir. rewrite <- Hp. assert (∃ a, untar tarball = Ok a) as [a Hu].
  { unfold extractPkgTarball in Hx. destruct (untar tarball) as [a|]; [by exists a|done]. }
  eapply payload_there; [exact Ha|exact Hu| |exact Hx].
  apply (contents p tarball a); [set_solver|done|done].
Qed.

Lemma projected_there namespace l count n h h' : Forall plain l → project_all fault configmap map_order namespace PluginsRoot l count h = (Ok n, h') →
  ∀ ref, ref ∈ l → there (ho_disk h') (Join PluginsRoot ref).
Proof.
  intros Hpl. revert count h. induction Hpl as [|x l Hx _ IH]; intros count h; cbn [project_all]; [set_solver|].
  intros ([]&h1&H1&H2)%bindM_ok_inv ref [->|Hin]%elem_of_cons; [|by eapply IH].
  eapply there_grows; [by eapply (kept (grows_project _ _ _ namespace l PluginsRoot (S count)))|].
  unfold project_one in H1. apply bindM_ok_inv in H1 as (cm&h2&Hcm&H1).
  apply bindM_ok_inv in H1 as ([]&h3&Hm&H1). apply bindM_ok_inv in H1 as ([]&h4&Hd&Hb).
  assert (cm_Name cm = x) as Hname. { unfold asking in Hcm. destruct (configmap _ _ _) as [cm'|] eqn:E; [|done]. injection Hcm as -> _. by eapply answered. }
  rewrite Hname in *. assert (Join PluginsRoot x = path_of true (components PluginsRoot ++ [x])) as HJ.
  { change x with (path_of false [x]) at 1. apply Join_below; [done|]. by constructor. }
  assert (there (ho_disk h3) (Join PluginsRoot x)) as Ht.
  { unfold on_disk in Hm. destruct (map_err _ _ _) as [r0 d0] eqn:E. injection Hm as -> <-. apply map_err_ok in E. exists DirN.
    rewrite HJ in E |- *. cbn [ho_disk]. apply MkdirAll_ok in E; [done|]. apply Forall_app_2; [by apply components_plain|by constructor]. }
  assert (∀ A m s r s', Keeps Grows m → @on_disk A m s = (r, s') → there (ho_disk s) (Join PluginsRoot x) → there (ho_disk s') (Join PluginsRoot x)) as Hg.
  { intros A m s r s' Hk Hm' Hd'. eapply there_grows; [|exact Hd']. by eapply (kept (grows_on_disk m Hk)). }
  eapply Hg; [apply grows_keys|exact Hb|]. eapply Hg; [apply grows_keys|exact Hd|done].
Qed.
Lemma elem_of_dedup l n : n ∈ dedup_names l ↔ n ≠ "" ∧ n ∈ l.
Proof.
  unfold dedup_names.
  assert (∀ seen ordered, (∀ x, x ∈ seen ↔ x ∈ ordered) → n ∈ (foldl (λ '(seen, ordered) n,
    if decide (n ≠ "" ∧ n ∉ seen) then ({[n]} ∪ seen, ordered ++ [n]) else (seen, ordered)) (seen : gset string, ordered) l).2 ↔
    n ∈ ordered ∨ (n ≠ "" ∧ n ∈ l)) as Hl.
  { induction l as [|x l IH]; intros seen ordered Hs; cbn [foldl]; [set_solver|].
    destruct (decide (x ≠ "" ∧ x ∉ seen)) as [[H1 H2]|H1]; rewrite IH by set_solver.
    - set_solver.
    - destruct (decide (x = "")) as [->|]; [set_solver|]. assert (x ∈ ordered) by (apply Hs, dec_stable; naive_solver). set_solver. }
  rewrite Hl by set_solver. set_solver.
Qed.

Lemma all_there_ok {A} (dir : A → string) missing l : ∀ d, (∀ a, a ∈ l → there d (dir a)) →
  ∃ d', all_there no_fault dir missing l d = (Ok (dir <$> l), d') ∧ dk_nodes d' = dk_nodes d.
Proof.
  induction l as [|a l IH]; intros d Hd; cbn [all_there]; [by exists d|].
  destruct (Hd a ltac:(set_solver)) as [n Hn]. unfold bindM, map_err, Stat, syscall, no_fault.
  rewrite (look_same d (called d)), Hn by done. destruct (IH (called d)) as (d'&Hr&Hs).
  { intros b Hb. destruct (Hd b ltac:(set_solver)) as [n' Hn']. exists n'. by rewrite (look_same d (called d)). }
  change (λ (_ : nat) (_ : FsCall), None) with no_fault. rewrite Hr. exists d'. by split.
Qed.

Lemma init_refs_run h h' : init_refs fault configmap map_order getenv h = (Ok tt, h') → pluginRefsFromEnv getenv ≠ [] →
  ∃ n, ProjectPluginRefs fault configmap map_order (getenv "HARMOSTES_NAMESPACE") (pluginRefsFromEnv getenv) PluginsRoot h = (Ok n, h').
Proof. unfold init_refs. destruct (pluginRefsFromEnv getenv); [done|]. intros (n&h1&Hp&[= <-])%bindM_ok_inv _. by exists n. Qed.

(** C8. After an init that succeeded, a run whose own reads of the disk do not
    fail finds every declared extension and every declared plugin reference,
    and loads exactly the declared extensions, in order; it can refuse only a
    declared harness. This is so when the extension manifest parses, each
    extension is declared under the name of its package
    ([renamed_extension_never_runs]), the archives of the pinned integrities
    hold something to unpack ([empty_package_never_runs]), the API server
    answers with the object asked for, and plugin references are plain names. *)
Theorem init_then_consume client h h' :
  RunInitRuntime fault http listed configmap sum512 parse untar map_order client getenv h = (Ok tt, h') →
  match (ConsumeMaterializedRuntime no_fault getenv (ho_disk h')).1 with
  | Ok m => rm_ExtensionPaths m = extension_dir <$> pins
  | Err e => ParseHarnessManifest (getenv "HARMOSTES_HARNESS_MANIFEST") ≠ Ok None ∧
             match e with PiPathMissing _ _ | PiPathEmpty _ _ | PiMissing _ _ | ConsumeManifest _ => True | _ => False end
  end.
Proof.
  unfold RunInitRuntime. destruct client as [[]|]; [|done]. rewrite manifest.
  intros ([]&h1&H1&([]&h2&H2&([]&h3&H3&H4)%bindM_ok_inv)%bindM_ok_inv)%bindM_ok_inv.
  assert (∀ pin, pin ∈ pins → there (ho_disk h') (extension_dir pin)) as Hpins.
  { intros pin Hin. eapply there_grows; [by eapply (kept (grows_refs _ _ _ _))|].
    eapply there_grows; [by eapply (kept (grows_plugins _ _ _ _ _))|]. eapply there_grows; [by eapply (kept (grows_harness _ _ _ _ _ _))|].
    by eapply pins_there. }
  assert (∀ ref, ref ∈ pluginRefsFromEnv getenv → there (ho_disk h') (Join PluginsRoot ref)) as Hrefs.
  { intros ref Hin. destruct (init_refs_run _ _ H4) as [n Hp]; [intros E; by rewrite E in Hin; apply elem_of_nil in Hin|].
    eapply projected_there; [|exact Hp|].
    - apply Forall_forall. intros x [_ Hx]%elem_of_dedup. rewrite Forall_forall in refs_plain. by apply refs_plain.
    - apply elem_of_dedup. split; [|done]. rewrite Forall_forall in refs_plain. by apply (refs_plain ref). }
  unfold ConsumeMaterializedRuntime, consumeMaterializedRuntime. rewrite manifest.
  destruct (all_there_ok (Join PluginsRoot) (λ ref, RefMissing ref (Join PluginsRoot ref)) _ _ Hrefs) as (d1&Hr1&Hd1).
  unfold bindM at 1. rewrite Hr1.
  destruct (all_there_ok extension_dir (λ p, ExtensionMissing (xp_Name p) (xp_Source p) (Join ExtensionsRoot (xp_Name p))) pins d1) as (d2&Hr2&Hd2).
  { intros pin Hin. destruct (Hpins pin Hin) as [n Hn]. exists n. by rewrite (look_same (ho_disk h') d1). }
  unfold bindM at 1. change (λ p, Join ExtensionsRoot (xp_Name p)) with extension_dir. rewrite Hr2.
  unfold bindM, consume_harness. destruct (ParseHarnessManifest _) as [[hr|]|e]; [|done|done].
  unfold bindM, map_err. destruct (ReadFile _ _ _) as [[c|] d3]; [|done]. cbn. destruct (decide _); [done|].
  by destruct (look _ _ _).
Qed.
End handover.

(** ** A registry to fetch from *)

Module Mirror.

Definition table {A} (l : list (string * A)) (k : string) : option A := snd <$> List.find (λ p, bool_decide (p.1 = k)) l.

Definition entry (t : TarType) (name link body : string) : TarEntry :=
  {| te_Name := name; te_Typeflag := t; te_Mode := 420; te_Linkname := link; te_Body := body; te_Err := None |}.
Definition reg (name body : string) : TarEntry := entry TypeReg name "" body.

(** Bytes are the names of archives, and hash to themselves. *)
Definition archives : list (string * list TarEntry) :=
  [("good", [reg "package/package.json" "BIN"; reg "package/cli.js" "run"]);
   ("empty", []);
   ("shell", [reg "package/package.json" "SHELL"]);
   ("up", [reg "package/.." "evil"]);
   ("chain", [reg "package/index.js" ""; entry TypeSymlink "package/a" "." ""; entry TypeSymlink "package/a/b" ".." ""; reg "package/b/pwn" "evil"])].
Definition untar (s : string) : result string Archive :=
  match table archives s with Some l => Ok {| ar_Entries := l; ar_Err := None |} | None => Err "gzip: invalid header" end.
Definition sum512 (s : string) : string := s.

(** A document is the name of the archive its version 1.0.0 points to. *)
Definition doc_of (ball : string) : json :=
  JObj [("versions", JObj [("1.0.0", JObj [("dist", JObj [("tarball", JStr ("ball:" +:+ ball)); ("integrity", JStr ("sha512-" +:+ ball))])])])].
Definition parse (s : string) : option json :=
  if decide (s = "BIN") then Some (JObj [("bin", JStr "cli.js")])
  else if decide (s = "SHELL") then Some (JObj [("bin", JObj [("pi", JStr "../../../../bin/sh")])])
  else doc_of <$> strip_prefix "doc:" s.

(** Every package is the archive of its name, at its registry's address. *)
Definition http (_ : list Req) (url : string) : result string (Z * result string string) :=
  match strip_prefix "ball:" url with
  | Some ball => Ok (200, Ok ball)
  | None => match strip_prefix "npm/" url with
            | Some name => Ok (200, Ok ("doc:" +:+ trim_prefix name "@acme%2F"))
            | None => Err "no such host"
            end
  end.

Definition listed (_ : list Req) (_ _ : string) : result string (list string) := Ok [].
Definition configmap (_ : list Req) (_ n : string) : result string ConfigMap :=
  Ok {| cm_Name := n; cm_Data := {["run.sh" := "true"]}; cm_BinaryData := ∅ |}.
Definition map_order (m : gmap string string) : list (string * string) := map_to_list m.

Definition pin (name ball : string) : ExtensionPin :=
  {| xp_Name := name; xp_Source := ball +:+ "@1.0.0"; xp_Integrity := "sha512-" +:+ ball |}.
Definition manifests : list (string * list ExtensionPin) :=
  [("one", [pin "good" "good"]); ("renamed", [pin "tools" "good"]); ("empty", [pin "empty" "empty"]);
   ("two", [pin "good" "good"; pin "bad" "bad"])].
Definition codec : ManifestCodec := {|
  mc_marshal_pins _ := Err "not used";
  mc_unmarshal_pins s := match table manifests s with Some l => Ok l | None => Err "unexpected end" end;
  mc_marshal_harness _ := Err "not used";
  mc_unmarshal_harness s := Ok {| hr_Runtime := "pi"; hr_Source := s +:+ "@1.0.0"; hr_Integrity := "sha512-" +:+ s |};
|}.
#[export] Existing Instance codec.

Definition env (manifest harness refs : string) (k : string) : string :=
  default "" (table [("HARMOSTES_EXTENSION_MANIFEST", manifest); ("HARMOSTES_HARNESS_MANIFEST", harness);
                     ("HARMOSTES_PLUGIN_REFS", refs); ("HARMOSTES_NPM_REGISTRY", "npm/"); ("HARMOSTES_NAMESPACE", "fleet")] k).

Definition volumes : Disk :=
  {| dk_nodes := list_to_map [(["runtime"], DirN); (["runtime"; "extensions"], DirN); (["runtime"; "harness"], DirN);
                              (["plugins"], DirN); (["bin"], DirN); (["bin"; "sh"], FileN "shell" 493)]; dk_calls := 0 |}.
Definition pod : Host := {| ho_disk := volumes; ho_reqs := [] |}.

Definition run (getenv : string → string) : result MatErr unit * Host :=
  RunInitRuntime no_fault http listed configmap sum512 parse untar map_order (Ok tt) getenv pod.
Definition found (getenv : string → string) : result ConsumeErr RuntimeMaterialization :=
  (ConsumeMaterializedRuntime no_fault getenv (ho_disk (run getenv).2)).1.

Definition unpack (ball destDir : string) : result MatErr unit * Disk :=
  extractPkgTarball no_fault untar ball destDir volumes.
End Mirror.
#[local] Existing Instance Mirror.codec.

Example init_and_run :
  (Mirror.run (Mirror.env "one" "good" "lib")).1 = Ok tt ∧
  Mirror.found (Mirror.env "one" "good" "lib") =
    Ok {| rm_ExtensionPaths := ["/runtime/extensions/good"]; rm_PiPath := "/runtime/harness/good/cli.js" |}.
Proof. split; vm_compute; reflexivity. Qed.

(** ** Limits of the code *)

(** An entry that cleans to [".."] passes the guard and is written over the
    parent of the extraction directory. *)
Lemma parent_entry_escapes :
  let '(r, d) := Mirror.unpack "up" "/runtime/extensions/@acme/tool" in
  r = Ok tt ∧ node_at d ["runtime"; "extensions"; "@acme"] = Some (FileN "evil" 420).
Proof. vm_compute. by split. Qed.

(** A link placed through another link is checked where it is named, not where it
    lands: what is written through it leaves the directory. *)
Lemma link_chain_escapes :
  let '(r, d) := Mirror.unpack "chain" "/runtime/extensions/tool" in
  r = Ok tt ∧ node_at d ["runtime"; "extensions"; "pwn"] = Some (FileN "evil" 420).
Proof. vm_compute. by split. Qed.

(** An extension declared under another name than its package's is installed,
    and then not found. *)
Lemma renamed_extension_never_runs :
  (Mirror.run (Mirror.env "renamed" "" "")).1 = Ok tt ∧
  Mirror.found (Mirror.env "renamed" "" "") = Err (ExtensionMissing "tools" "good@1.0.0" "/runtime/extensions/tools").
Proof. split; vm_compute; reflexivity. Qed.

(** So is a package without entries. *)
Lemma empty_package_never_runs :
  (Mirror.run (Mirror.env "empty" "" "")).1 = Ok tt ∧
  Mirror.found (Mirror.env "empty" "" "") = Err (ExtensionMissing "empty" "empty@1.0.0" "/runtime/extensions/empty").
Proof. split; vm_compute; reflexivity. Qed.

(** An init that fails leaves what it had installed. *)
Lemma partial_init_left :
  is_ok (Mirror.run (Mirror.env "two" "" "")).1 = false ∧
  look (ho_disk (Mirror.run (Mirror.env "two" "" "")).2) true "/runtime/extensions/good/cli.js" = Ok (FileN "run" 420).
Proof. split; vm_compute; reflexivity. Qed.

(** The bin of a verified harness may be any file of the image. *)
Lemma harness_bin_outside :
  Mirror.found (Mirror.env "one" "shell" "") =
  Ok {| rm_ExtensionPaths := ["/runtime/extensions/good"]; rm_PiPath := "/bin/sh" |}.
Proof. vm_compute. reflexivity. Qed.

(** ** Witnesses *)

Lemma fetched_is_pinned_witness :
  let m := FetchExtension no_fault Mirror.http Mirror.sum512 Mirror.parse Mirror.untar "npm/" "good@1.0.0" in
  is_ok (m "sha512-good" "/x" Mirror.pod).1 = true ∧ is_ok (m "sha512-bad" "/x" Mirror.pod).1 = false ∧
  (∃ tarball, Verified Mirror.http Mirror.sum512 Mirror.parse [] "npm/" "good" "1.0.0" "sha512-good" tarball) ∧
  ho_disk (m "sha512-bad" "/x" Mirror.pod).2 = ho_disk Mirror.pod.
Proof.
  cbv zeta. assert (is_ok (FetchExtension no_fault Mirror.http Mirror.sum512 Mirror.parse Mirror.untar "npm/" "good@1.0.0" "sha512-good" "/x" Mirror.pod).1 = true) as Hg by (vm_compute; reflexivity).
  assert (is_ok (FetchExtension no_fault Mirror.http Mirror.sum512 Mirror.parse Mirror.untar "npm/" "good@1.0.0" "sha512-bad" "/x" Mirror.pod).1 = false) as Hb by (vm_compute; reflexivity).
  split_and!; [exact Hg|exact Hb| |].
  - destruct (fetched_is_pinned _ _ _ _ _ _ _ _ _ _ _ _ (surjective_pairing (FetchExtension no_fault Mirror.http Mirror.sum512 Mirror.parse Mirror.untar "npm/" "good@1.0.0" "sha512-good" "/x" Mirror.pod)))
      as [[Hf _]|(name&v&tarball&r0&Hs&Hv&_)]; [rewrite Hf in Hg; discriminate|].
    vm_compute in Hs. injection Hs as <- <-. by exists tarball.
  - destruct (fetched_is_pinned _ _ _ _ _ _ _ _ _ _ _ _ (surjective_pairing (FetchExtension no_fault Mirror.http Mirror.sum512 Mirror.parse Mirror.untar "npm/" "good@1.0.0" "sha512-bad" "/x" Mirror.pod)))
      as [[_ Hd]|(name&v&tarball&r0&Hs&Hv&Hx&Hr)]; [exact Hd|]. exfalso.
    vm_compute in Hs. injection Hs as <- <-. destruct Hv as [(doc&j&pk&v&(st&Hdoc&_)&Hj&Hpk&Hv&Hi&_) _].
    vm_compute in Hdoc. injection Hdoc as _ <-. vm_compute in Hj. injection Hj as <-. vm_compute in Hpk. injection Hpk as <-.
    vm_compute in Hv. injection Hv as <-. discriminate Hi.
Defined.

Lemma linkless_list root d : forallb (λ kv, match kv.2 with LinkN _ => false | _ => true end) (map_to_list (dk_nodes d)) = true → linkless root d.
Proof.
  intros Hf q t _ Hq. rewrite forallb_forall in Hf. apply elem_of_map_to_list in Hq. apply list_elem_of_In in Hq.
  by specialize (Hf _ Hq).
Qed.

Lemma extract_stays_below_witness :
  let d := (Mirror.unpack "good" "/runtime/extensions/tool").2 in
  linkless ["runtime"; "extensions"; "tool"] d ∧ filled ["runtime"; "extensions"; "tool"] Mirror.volumes d ∧
  look d true "/runtime/extensions/tool/cli.js" = Ok (FileN "run" 420).
Proof.
  cbv zeta. assert (linkless ["runtime"; "extensions"; "tool"] (Mirror.unpack "good" "/runtime/extensions/tool").2 ∧
    filled ["runtime"; "extensions"; "tool"] Mirror.volumes (Mirror.unpack "good" "/runtime/extensions/tool").2) as [H1 H2].
  { refine (extract_stays_below no_fault Mirror.untar "good" {| ar_Entries := default [] (Mirror.table Mirror.archives "good"); ar_Err := None |}
      "/runtime/extensions/tool" Mirror.volumes _ _ eq_refl eq_refl _ _ (surjective_pairing (Mirror.unpack "good" "/runtime/extensions/tool"))).
    - repeat (constructor; [split; vm_compute; discriminate|]). constructor.
    - apply linkless_list. reflexivity. }
  split_and!; [exact H1|exact H2|vm_compute; reflexivity].
Defined.

Lemma init_then_consume_witness :
  (Mirror.run (Mirror.env "one" "" "lib")).1 = Ok tt ∧
  match Mirror.found (Mirror.env "one" "" "lib") with
  | Ok m => rm_ExtensionPaths m = ["/runtime/extensions/good"]
  | Err _ => False
  end.
Proof.
  assert ((Mirror.run (Mirror.env "one" "" "lib")).1 = Ok tt) as Hok by (vm_compute; reflexivity). split; [exact Hok|].
  destruct (Mirror.run (Mirror.env "one" "" "lib")) as [r h] eqn:Hrun. cbn [fst] in Hok. subst r.
  assert (match Mirror.found (Mirror.env "one" "" "lib") with
    | Ok m => rm_ExtensionPaths m = extension_dir <$> [Mirror.pin "good" "good"]
    | Err e => ParseHarnessManifest (Mirror.env "one" "" "lib" "HARMOSTES_HARNESS_MANIFEST") ≠ Ok None ∧
             match e with PiPathMissing _ _ | PiPathEmpty _ _ | PiMissing _ _ | ConsumeManifest _ => True | _ => False end
    end) as Hc.
  { unfold Mirror.found. rewrite Hrun. eapply (init_then_consume _ _ _ _ _ _ _ _ _ [Mirror.pin "good" "good"]); [reflexivity| | | | |exact Hrun].
    - intros p ->%list_elem_of_singleton. exists "1.0.0", ["good"]. split; [reflexivity|]. split; [|reflexivity].
      constructor; [|constructor]. repeat split; discriminate.
    - intros p tarball a ->%list_elem_of_singleton Hs Hu. apply (app_str_inj "sha512-") in Hs. unfold Mirror.sum512 in Hs. subst tarball.
      injection Hu as <-. left. repeat split; [discriminate|right; reflexivity|vm_compute; discriminate|vm_compute; discriminate].
    - intros reqs ns n cm [= <-]. reflexivity.
    - vm_compute. constructor; [|constructor]. repeat split; discriminate. }
  destruct (Mirror.found _) as [m|e]; [exact Hc|]. destruct Hc as [Hh _]. apply Hh. reflexivity.
Defined.
