(* ===== verification/SharedStore.v ===== *)
(** * Session files and the shared store ([internal/sessionstore/sessionstore.go])

    Where the files of a lineage are, how a session is found, resumed or reset,
    and the link from a lineage directory to the attachment store of its
    workflow, with the fallback an outage leaves and its migration. The disk is
    that of [FileSys]; whether a path is a mount point is a parameter. A log
    line is the values it prints. *)

From S2P Require Import Prelude GoStrings GoPath GoTime Lineage FileSys FileLaws.

Notation Fs := (M Disk FsError).

Section store.
Context (fault : nat → FsCall → option Fault).

(** ** Session files *)

(** [now.UTC().Format("2006-01-02T15-04-05-000Z")]: the milliseconds are text. *)
Definition session_stamp (now : Z) : string :=
  let s := now `div` Second in
  let '(y, m, d) := civil_date (s `div` 86400) in
  let r := s `mod` 86400 in
  four_digits y +:+ "-" +:+ two_digits m +:+ "-" +:+ two_digits d +:+ "T" +:+ two_digits (r `div` 3600) +:+ "-"
  +:+ two_digits (r `mod` 3600 `div` 60) +:+ "-" +:+ two_digits (r `mod` 60) +:+ "-000Z".

Definition LineageSessionPath (now : Z) (dir id : string) : string := Join dir (session_stamp now +:+ "_" +:+ id +:+ ".jsonl").

(** [filepath.Glob] of [dir/*lit], of literal text without metacharacters; what
    cannot be listed has no match. *)
Definition glob_star (dir lit : string) : Fs (list string) :=
  try! st := Stat fault dir in
  match st with
  | Ok DirN =>
      try! r := ReadDir fault dir in
      match r with
      | Ok es => ret (Join dir <$> filter (λ n, has_suffix n lit = true) es.*1)
      | Err _ => ret []
      end
  | _ => ret []
  end.

(** Without a metacharacter: the path itself, when it is there. *)
Definition glob_path (p : string) : Fs (list string) :=
  try! st := Lstat fault p in
  match st with Ok _ => ret [p] | Err _ => ret [] end.

Definition FindLineageSession (dir id : string) : Fs (string * string) :=
  let! matches := glob_star dir ("_" +:+ id +:+ ".jsonl") in
  match last (merge_sort String.le matches) with
  | None => throw ENOENT
  | Some file => let! b := ReadFile fault file in ret (file, b)
  end.

Inductive ResolveErr := NotAPR | ResolveDisk (e : FsError).

Definition ResolveSession (root repo pr : string) : M Disk ResolveErr (string * string * bool) := λ d,
  if negb (SanitizePR pr) then (Err NotAPR, d)
  else
    let dir := LineageDir root repo pr in
    match (let! _ := MkdirAll fault dir in glob_star dir ".jsonl") d with
    | (Ok matches, d) => (Ok (dir, "harmostes-" +:+ pr, negb (bool_decide (matches = []))), d)
    | (Err e, d) => (Err (ResolveDisk e), d)
    end.

Fixpoint remove_each (seen : gset string) (l : list string) (removed : nat) : Fs nat :=
  match l with
  | [] => ret removed
  | m :: l =>
      if decide (m ∈ seen) then remove_each seen l removed
      else try! r := Remove fault m in
           remove_each ({[m]} ∪ seen) l (if is_ok r then S removed else removed)
  end.

(** The second pattern is expanded after the files of the first are removed. *)
Definition ResetLineage (dir id : string) : Fs nat :=
  let! l1 := glob_star dir ("_" +:+ id +:+ ".jsonl") in
  let! n := remove_each ∅ l1 0 in
  let! l2 := glob_path (Join dir (id +:+ ".jsonl")) in
  remove_each (list_to_set l1) l2 n.

(** ** Walking a tree: [filepath.WalkDir]

    The visitor may stop the walk; [n] bounds the depth. *)

Section walk_dir.
Context {Acc Stop : Type} (visit : string → bool → option FsError → Acc → M Disk Stop Acc).

Fixpoint walk_dir (n : nat) (path : string) (isdir : bool) (a : Acc) : M Disk Stop Acc :=
  match n with
  | O => ret a
  | S n =>
      let! a := visit path isdir None a in
      if negb isdir then ret a
      else λ d, match ReadDir fault path d with
                | (Err e, d) => visit path true (Some e) a d
                | (Ok es, d) =>
                    foldr (λ e k a, let! a := walk_dir n (Join path e.1) e.2 a in k a) ret es a d
                end
  end.

Definition WalkDir (n : nat) (root : string) (a : Acc) : M Disk Stop Acc := λ d,
  match Lstat fault root d with
  | (Err e, d) => visit root false (Some e) a d
  | (Ok nd, d) => walk_dir n root (bool_decide (nd = DirN)) a d
  end.
End walk_dir.

(** No path of the disk is longer. *)
Definition depth (d : Disk) : nat := S (max_list (length <$> (map_to_list (dk_nodes d)).*1)).

(** ** The shared store *)

Definition manufacturedMarker : string := ".harmostes-manufactured".
Definition measureMaxFiles : nat := 20000.

Record Measure := { ms_total : Z; ms_files : nat; ms_capped : bool; ms_err : option (string * FsError) }.

Inductive StoreLog :=
| ReservedName (workflow : string)
| StaleRemovalFailed (e : FsError)
| StaleRemoved
| NotMounted (mount : string)
| NotMountpoint (mount : string)
| LeafUncreatable (target : string) (e : FsError)
| MigrationIncomplete (moved total : nat) (e : option FsError)
| Migrated (moved : nat)
| FallbackRemovalFailed (e : FsError)
| LegacyKept
| LinkFailed (e : FsError)
| LinkRenameFailed (e : FsError)
| StoreUnreadable (mount : string)
| StoreCapped (total : Z) (more : nat)
| StoreSize (total : Z) (files : nat) (incomplete : option (string * FsError)).

Definition stampFallback (link workflow : string) : Fs unit :=
  try! _ := MkdirAll fault link in
  try! _ := WriteFile fault (Join link manufacturedMarker) workflow 384 in
  ret tt.

(** [filepath.Rel] of a path at or below the base. *)
Definition Rel (base p : string) : string :=
  if decide (p = base) then "." else default p (strip_prefix (base +:+ "/") p).

Record Moved := { mv_moved : nat; mv_total : nat; mv_err : option FsError }.

Definition migrate_file (target path rel : string) (a : Moved) : Fs Moved :=
  let total := S (mv_total a) in
  let lost e := {| mv_moved := mv_moved a; mv_total := total; mv_err := Some e |} in
  try! data := ReadFile fault path in
  match data with
  | Err e => ret (lost e)
  | Ok data =>
      let dst := Join target rel in
      try! r := MkdirAll fault (Dir dst) in
      match r with
      | Err e => ret (lost e)
      | Ok _ =>
          try! r := WriteFile fault dst data 384 in
          match r with
          | Err e => ret (lost e)
          | Ok _ => ret {| mv_moved := S (mv_moved a); mv_total := total; mv_err := mv_err a |}
          end
      end
  end.

Definition migrate_visit (srcDir target : string) (path : string) (isdir : bool) (werr : option FsError) (a : Moved) : Fs Moved :=
  if bool_decide (is_Some werr) || isdir then ret a
  else
    let rel := Rel srcDir path in
    if decide (rel = manufacturedMarker) then ret a else migrate_file target path rel a.

Definition migrateManufactured (srcDir target : string) : Fs Moved := λ d,
  WalkDir (migrate_visit srcDir target) (depth d) srcDir {| mv_moved := 0; mv_total := 0; mv_err := None |} d.

(** *** The size of the store *)

Definition node_size (n : Node) : Z := match n with FileN s _ => slen s | LinkN t => slen t | DirN => 0 end.

Definition measure_visit (mount path : string) (isdir : bool) (werr : option FsError) (a : Measure) : M Disk unit Measure :=
  match werr with
  | Some e =>
      if decide (path = mount) then throw tt
      else ret {| ms_total := ms_total a; ms_files := ms_files a; ms_capped := ms_capped a; ms_err := Some (path, e) |}
  | None =>
      if isdir then ret a
      else if ms_capped a then
        ret {| ms_total := ms_total a; ms_files := S (ms_files a); ms_capped := true; ms_err := ms_err a |}
      else λ d,
        let '(info, d) := Lstat fault path d in
        let total := match info with Ok n => i64 (ms_total a + node_size n) | Err _ => ms_total a end in
        let files := S (ms_files a) in
        (Ok {| ms_total := total; ms_files := files;
               ms_capped := (measureMaxFiles <=? files)%nat; ms_err := ms_err a |}, d)
  end.

(** [None]: the root is missing or cannot be listed. *)
Definition measureStore (mount : string) : Disk → option Measure * Disk := λ d,
  let '(r, d) := WalkDir (measure_visit mount) (depth d) mount {| ms_total := 0; ms_files := 0; ms_capped := false; ms_err := None |} d in
  (match r with Ok m => Some m | Err _ => None end, d).

Definition logStoreSize (mount : string) : Fs (list StoreLog) := λ d,
  let '(m, d) := measureStore mount d in
  (Ok [match m with
       | None => StoreUnreadable mount
       | Some m => if ms_capped m then StoreCapped (ms_total m) (ms_files m - measureMaxFiles)
                   else StoreSize (ms_total m) (ms_files m) (ms_err m)
       end], d).

(** *** The link *)

Context (isMount : Disk → string → string → bool).

(** An outage names itself; else the store is measured. *)
Definition report_store (mount : string) : Fs (list StoreLog) :=
  try! info := Stat fault mount in
  match info with
  | Ok DirN => λ d, if negb (isMount d mount (Dir mount)) then (Ok [NotMountpoint mount], d) else logStoreSize mount d
  | _ => ret [NotMounted mount]
  end.

Definition unlink_store (link : string) : Fs (list StoreLog) :=
  try! existing := Readlink fault link in
  match existing with
  | Ok t =>
      if decide (t = "") then ret []
      else try! r := Remove fault link in
           match r with Err e => ret [StaleRemovalFailed e] | Ok _ => ret [StaleRemoved] end
  | Err _ => ret []
  end.

(** The leaf could not be made: the component becomes a stamped directory. *)
Definition degrade (mountOK : bool) (link workflow mount target : string) (e : FsError) : Fs (list StoreLog) :=
  try! info := Stat fault mount in
  let! _ := stampFallback link workflow in
  ret [match info with
       | Ok DirN => if mountOK then LeafUncreatable target e else NotMountpoint mount
       | _ => NotMounted mount
       end].

(** A unique temporary link, renamed over the component. *)
Definition place_link (link workflow mount target : string) : Fs (list StoreLog) :=
  let tmp := link +:+ ".new" in
  try! _ := Remove fault tmp in
  try! r := Symlink fault target tmp in
  match r with
  | Err e =>
      try! l := Lstat fault link in
      match l with
      | Err ENOENT => let! _ := stampFallback link workflow in ret [LinkFailed e]
      | _ => ret [LinkFailed e]
      end
  | Ok _ =>
      try! r := Rename fault tmp link in
      match r with
      | Err e => try! _ := Remove fault tmp in ret [LinkRenameFailed e]
      | Ok _ => report_store mount
      end
  end.

(** A stamped fallback is migrated, removed and replaced by the link. *)
Definition migrate_fallback (link workflow mount target : string) : Fs (list StoreLog) :=
  let! m := migrateManufactured link target in
  if bool_decide (is_Some (mv_err m)) || negb (mv_moved m =? mv_total m)%nat
  then ret [MigrationIncomplete (mv_moved m) (mv_total m) (mv_err m)]
  else
    try! r := RemoveAll fault link in
    match r with
    | Err e => ret [Migrated (mv_moved m); FallbackRemovalFailed e]
    | Ok _ => let! l := place_link link workflow mount target in ret (Migrated (mv_moved m) :: l)
    end.

Definition component_dir (link workflow mount target : string) : Fs (list StoreLog) :=
  try! mark := Stat fault (Join link manufacturedMarker) in
  match mark with
  | Ok _ => migrate_fallback link workflow mount target
  | Err _ => ret [LegacyKept]
  end.

Definition declare_link (link workflow mount target : string) : Fs (list StoreLog) :=
  try! existing := Readlink fault link in
  match existing with
  | Ok t => if decide (t = target) then report_store mount else place_link link workflow mount target
  | Err _ =>
      try! st := Lstat fault link in
      match st with
      | Ok DirN => component_dir link workflow mount target
      | _ => place_link link workflow mount target
      end
  end.

Definition LinkSharedStore (lineageDir workflow mount : string) : Fs (list StoreLog) :=
  if IsReservedStoreName workflow then ret [ReservedName workflow]
  else
    let link := Join lineageDir LinkComponent in
    if decide (mount = "") then unlink_store link
    else
      let mount := Clean mount in
      let target := Join mount workflow in
      λ d, let mountOK := isMount d mount (Dir mount) in
           match MkdirAll fault target d with
           | (Err e, d) => degrade mountOK link workflow mount target e d
           | (Ok _, d) => declare_link link workflow mount target d
           end.
End store.

(** ** The component and its neighbours *)

Section component.
Context (fault : nat → FsCall → option Fault) (isMount : Disk → string → string → bool).
Context (lineageDir : string) (Habs : IsAbs lineageDir = true).

Notation root := (components lineageDir).
Definition component : Place := root ++ [LinkComponent].
Definition temporary : Place := root ++ ["sol-pi.new"].
Definition marker : Place := component ++ [manufacturedMarker].

Lemma plain_names : plain LinkComponent ∧ plain "sol-pi.new" ∧ plain manufacturedMarker.
Proof. by repeat split. Qed.

Lemma plain_root : Forall plain root.
Proof. by apply components_plain. Qed.

Lemma plain_child l c : Forall plain l → plain c → Forall plain (l ++ [c]).
Proof. intros Hl Hc. apply Forall_app_2; [done|by constructor]. Qed.

Lemma plain_component : Forall plain component.
Proof. apply plain_child; [apply plain_root|apply plain_names]. Qed.
Lemma plain_temporary : Forall plain temporary.
Proof. apply plain_child; [apply plain_root|apply plain_names]. Qed.
Lemma plain_marker : Forall plain marker.
Proof. apply plain_child; [apply plain_component|apply plain_names]. Qed.

Lemma link_place : Join lineageDir LinkComponent = path_of true component.
Proof. change LinkComponent with (path_of false [LinkComponent]) at 1. apply Join_below; [done|]. constructor; [apply plain_names|done]. Qed.

Lemma tmp_place : path_of true component +:+ ".new" = path_of true temporary.
Proof.
  unfold component, temporary, path_of. destruct (decide (root = [])) as [->|Hr]; [done|].
  rewrite !join_snoc by done. change (String path_sep ((join "/" root +:+ "/sol-pi") +:+ ".new") = String path_sep (join "/" root +:+ "/sol-pi.new")).
  f_equal. by rewrite app_str_assoc.
Qed.

Lemma marker_place : Join (path_of true component) manufacturedMarker = path_of true marker.
Proof.
  change manufacturedMarker with (path_of false [manufacturedMarker]) at 1. rewrite Join_below; [|done|constructor; [apply plain_names|done]].
  by rewrite components_place by apply plain_component.
Qed.

(** No link on the way to the lineage directory, nor at it. *)
Definition clear (l : Place) (d : Disk) : Prop := ∀ k t, dk_nodes d !! take k l ≠ Some (LinkN t).

Lemma resolve_clear d f l c q : Forall plain l → plain c → clear l d →
  (f = false ∨ ∀ t, dk_nodes d !! (l ++ [c]) ≠ Some (LinkN t)) → resolve d f (path_of true (l ++ [c])) = Ok q → q = l ++ [c].
Proof.
  intros Hl Hc Hd Hf. rewrite resolve_path_of by by apply plain_child. intros Hw.
  assert (∀ cur m, take m (cur ++ l) = cur → clear (cur ++ l) d → walk max_links d f cur (l ++ [c]) = Ok q →
    (f = false ∨ ∀ t, dk_nodes d !! ((cur ++ l) ++ [c]) ≠ Some (LinkN t)) → q = (cur ++ l) ++ [c]) as Hg;
    [|by apply (Hg [] 0%nat)].
  clear Hd Hf Hw. revert Hl. induction l as [|x l IH]; intros Hl cur m Hm Hd Hw Hf; cbn [app] in Hw; rewrite walk_plain in Hw by (done || by inversion Hl).
  - rewrite app_nil_r in Hf |- *. rewrite !decide_True in Hw by done. rewrite bool_decide_eq_true_2 in Hw by done.
    destruct (dk_nodes d !! (cur ++ [c])) as [[|s md|t]|] eqn:Hn; [by rewrite walk_nil in Hw; injection Hw as <-|by injection Hw as <-| |by injection Hw as <-].
    destruct Hf as [->|Hf]; [by injection Hw as <-|by destruct (Hf t)].
  - apply Forall_cons in Hl as [Hx Hl]. rewrite !(decide_False (P := l ++ [c] = [])) in Hw by by destruct l.
    destruct (dk_nodes d !! (cur ++ [x])) as [[|s md|t]|] eqn:Hn; try done.
    + rewrite (cons_middle x cur l), app_assoc in Hd, Hf |- *. eapply (IH Hl (cur ++ [x]) (length (cur ++ [x]))); try done. by rewrite take_app_length.
    + exfalso. apply (Hd (length (cur ++ [x])) t). rewrite (cons_middle x cur l), app_assoc, take_app_length. done.
Qed.

(** A call that places anything but a link keeps every link, and clears nothing. *)
Definition tidy (t : string) (d d' : Disk) : Prop :=
  clear root d ∧ dk_nodes d !! component = Some (LinkN t) → clear root d' ∧ dk_nodes d' !! component = Some (LinkN t).

#[local] Instance tidy_preorder t : PreOrder (tidy t).
Proof. split; [by intros d [? ?]|]. intros a b c Hab Hbc Ha. auto. Qed.

Lemma tidy_same t d d' : dk_nodes d' = dk_nodes d → tidy t d d'.
Proof. intros He [Hc Hl]. unfold clear. by rewrite He. Qed.

Lemma Placed_tidy t p what d d' : (∀ n, what n → ¬ is_link n) → Placed p what d d' → tidy t d d'.
Proof.
  intros Hw Hp [Hc Hl]. split.
  - destruct Hp as [He|f q n _ _ _ Hn He]; intros k t'; rewrite He; [by apply Hc|].
    destruct (decide (q = take k root)) as [->|Hne]; [|by rewrite lookup_insert_ne by done].
    rewrite lookup_insert_eq. intros [= ->]. by apply (Hw _ Hn); exists t'.
  - apply Placed_grows in Hp. destruct (Hp _ _ Hl) as ([]&Hn&Hk); try done. cbn in Hk. by subst.
Qed.

Lemma tidy_Mkdir t p : Keeps (tidy t) (Mkdir fault p).
Proof. eapply keeps_placed; [|apply Mkdir_placed]. intros d d'. apply Placed_tidy. by intros n -> [? ?]. Qed.

Lemma tidy_MkdirAll t p : Keeps (tidy t) (MkdirAll fault p).
Proof. apply keeps_MkdirAll; [apply _|apply tidy_same|intros; apply tidy_Mkdir]. Qed.

Lemma tidy_WriteFile t p s m : Keeps (tidy t) (WriteFile fault p s m).
Proof. eapply keeps_placed; [|apply WriteFile_placed]. intros d d'. apply Placed_tidy. by intros n (?&?&->) [? ?]. Qed.

Lemma keeps_syscall_read (R : Disk → Disk → Prop) {A} o (f : Disk → result FsError A) :
  (∀ d d', dk_nodes d' = dk_nodes d → R d d') → Keeps R (syscall fault o (λ d, (f d, d))).
Proof. intros HR. constructor. intros d r d'. unfold syscall. destruct (fault _ _); intros [= <- <-]; by apply HR. Qed.

Lemma tidy_stamp t workflow : Keeps (tidy t) (stampFallback fault (path_of true component) workflow).
Proof.
  unfold stampFallback. apply keeps_try; [apply _|apply tidy_MkdirAll|intros _].
  apply keeps_try; [apply _|apply tidy_WriteFile|intros _]. apply keeps_ret, _.
Qed.
(** *** Reading only *)

Definition same (d d' : Disk) : Prop := dk_nodes d' = dk_nodes d.

#[local] Instance same_preorder : PreOrder same.
Proof. split; [by intros d|]. intros a b c Hab Hbc. unfold same in *. congruence. Qed.

Lemma same_ReadDir p : Keeps same (ReadDir fault p).
Proof. by apply keeps_syscall_read. Qed.

Lemma same_Readlink p : Keeps same (Readlink fault p).
Proof. by apply keeps_syscall_read. Qed.

Lemma keeps_walk_dir {Acc Stop} (R : Disk → Disk → Prop) `{!PreOrder R} (visit : string → bool → option FsError → Acc → M Disk Stop Acc) n :
  (∀ d d', same d d' → R d d') → (∀ p b e a, Keeps R (visit p b e a)) → ∀ p b a, Keeps R (walk_dir fault visit n p b a).
Proof.
  intros Hs Hv. induction n as [|n IH]; intros p b a; cbn [walk_dir]; [keeps|].
  apply keeps_bind; [apply _|apply Hv|]. intros a1. destruct (negb b); [keeps|]. constructor. intros d r d'.
  destruct (ReadDir fault p d) as [[es|e] d1] eqn:Hr.
  - intros Hf. transitivity d1; [apply Hs; by eapply (kept (same_ReadDir p))|].
    refine (kept _ d1 r d' Hf). clear Hr Hf. revert a1. induction es as [|x es IHes]; intros a1; cbn [foldr]; [keeps|].
    apply keeps_bind; [apply _|apply IH|done].
  - intros Hf. transitivity d1; [apply Hs; by eapply (kept (same_ReadDir p))|].
    by eapply (kept (Hv _ _ _ _)).
Qed.

Lemma same_Lstat p : Keeps same (Lstat fault p).
Proof. by apply keeps_Lstat. Qed.

Lemma same_measure_visit mount p b e a : Keeps same (measure_visit fault mount p b e a).
Proof.
  unfold measure_visit. destruct e; [destruct (decide _); keeps|]. destruct b; [keeps|]. destruct (ms_capped a); [keeps|].
  constructor. intros d r d'. destruct (Lstat fault p d) as [i d1] eqn:Hl. intros [= <- <-]. by eapply (kept (same_Lstat p)).
Qed.

Lemma same_report mount : Keeps same (report_store fault isMount mount).
Proof.
  unfold report_store. apply keeps_try; [apply _|by apply keeps_Stat|]. intros info.
  destruct info as [[]|]; [|keeps..]. constructor. intros d r d'. destruct (negb _); [by intros [= <- <-]|].
  unfold logStoreSize, measureStore, WalkDir. destruct (Lstat fault mount d) as [[nd|e] d1] eqn:Hl; apply (kept (same_Lstat mount)) in Hl.
  - destruct (walk_dir _ _ _ _ _ _ _) as [r1 d2] eqn:Hw. intros [= <- <-]. transitivity d1; [done|].
    refine (kept (keeps_walk_dir same _ _ _ _ _ _ _) _ _ _ Hw); [done|intros; apply same_measure_visit].
  - destruct (measure_visit _ _ _ _ _ _ _) as [r1 d2] eqn:Hw. intros [= <- <-]. transitivity d1; [done|].
    by apply (kept (same_measure_visit mount mount false (Some e) _) _ _ _ Hw).
Qed.

(** *** An existing link is repointed in one step *)

Lemma names_apart : temporary ≠ component ∧ (∀ k, take k root ≠ temporary) ∧ (∀ k, take k root ≠ component).
Proof.
  unfold temporary, component. split_and!; [by intros [_ ?]%app_inj_tail|intros k H%(f_equal length)..];
    rewrite length_take, length_app in H; cbn in H; lia.
Qed.

(** Calls on the temporary name change nothing else. *)
Definition tmp_only (d d' : Disk) : Prop :=
  clear root d → clear root d' ∧ ∀ q, q ≠ temporary → dk_nodes d' !! q = dk_nodes d !! q.

Lemma tmp_changed d f : (∀ q, q ≠ temporary → f (dk_nodes d) !! q = dk_nodes d !! q) → tmp_only d (with_nodes f (called d)).
Proof.
  intros Hf Hc. split; [|done]. intros k t. cbn. destruct names_apart as (_&H2&_). rewrite Hf by apply H2. apply Hc.
Qed.

Lemma tmp_called d : tmp_only d (called d).
Proof. by intros Hc. Qed.

Lemma tmp_resolved d q : clear root d → resolve (called d) false (path_of true temporary) = Ok q → q = temporary.
Proof.
  intros Hc Hq. rewrite (resolve_same d (called d)) in Hq by done.
  apply resolve_clear in Hq; [done|apply plain_root|apply plain_names|done|by left].
Qed.

Lemma tmp_Remove : Keeps tmp_only (Remove fault (path_of true temporary)).
Proof.
  constructor. intros d r d' Hm Hc. revert Hc. fold (tmp_only d d'). revert Hm. unfold Remove, syscall.
  destruct (fault _ _); [intros [= <- <-]; apply tmp_called|]. destruct (resolve _ _ _) as [q|] eqn:Hq; [|intros [= <- <-]; apply tmp_called].
  intros Hm Hc. apply tmp_resolved in Hq; [|done]. subst q. revert Hc. fold (tmp_only d d').
  assert (tmp_only d (drop_node temporary (called d))) as Hd by (apply tmp_changed; intros; by rewrite lookup_delete_ne).
  revert Hm. repeat case_match; intros [= <- <-]; (exact Hd || apply tmp_called).
Qed.

Lemma tmp_Symlink target : Keeps tmp_only (Symlink fault target (path_of true temporary)).
Proof.
  constructor. intros d r d' Hm Hc. revert Hc. fold (tmp_only d d'). revert Hm. unfold Symlink, syscall.
  destruct (fault _ _); [intros [= <- <-]; apply tmp_called|]. destruct (resolve _ _ _) as [q|] eqn:Hq; [|intros [= <- <-]; apply tmp_called].
  intros Hm Hc. apply tmp_resolved in Hq; [|done]. subst q. revert Hc. fold (tmp_only d d').
  revert Hm. destruct (node_at _ _); intros [= <- <-]; [apply tmp_called|]. apply tmp_changed. intros. by rewrite lookup_insert_ne.
Qed.

Lemma Symlink_made target d d' : clear root d → Symlink fault target (path_of true temporary) d = (Ok tt, d') →
  dk_nodes d' !! temporary = Some (LinkN target).
Proof.
  intros Hc. unfold Symlink, syscall. destruct (fault _ _); [done|]. destruct (resolve _ _ _) as [q|] eqn:Hq; [|done].
  apply tmp_resolved in Hq; [|done]. subst q. destruct (node_at _ _); [done|]. intros [= <-]. cbn. by rewrite lookup_insert_eq.
Qed.

Lemma tmp_component d d' x : tmp_only d d' → clear root d → dk_nodes d !! component = x → dk_nodes d' !! component = x.
Proof. intros Ht Hc <-. apply (Ht Hc). by destruct names_apart as (H1&_). Qed.

Lemma Rename_tmp t target d r d' : clear root d → dk_nodes d !! component = Some (LinkN t) → dk_nodes d !! temporary = Some (LinkN target) →
  Rename fault (path_of true temporary) (path_of true component) d = (r, d') →
  clear root d' ∧ dk_nodes d' !! component = Some (LinkN (if is_ok r then target else t)).
Proof.
  intros Hc Hl Ht. unfold Rename, syscall. destruct (fault _ _); [by intros [= <- <-]|].
  destruct (resolve _ _ _) as [a|] eqn:Ha; [|by intros [= <- <-]]. destruct (resolve _ _ (path_of true component)) as [b|] eqn:Hb; [|by intros [= <- <-]].
  rewrite (resolve_same d (called d)) in Ha, Hb by done. apply resolve_clear in Ha; [|apply plain_root|apply plain_names|done|by left].
  apply resolve_clear in Hb; [|apply plain_root|apply plain_names|done|by left]. subst a b.
  fold temporary component. unfold temporary, component. rewrite !node_at_snoc. fold temporary component. cbn [called dk_nodes]. rewrite Ht, Hl.
  destruct names_apart as (H1&H2&H3). rewrite decide_False by done. intros [= <- <-]. cbn. split; [|by rewrite lookup_insert_eq].
  intros k t'. cbn. rewrite lookup_insert_ne, lookup_delete_ne by done. apply Hc.
Qed.

Lemma place_link_law t workflow mount target d r d' : clear root d → dk_nodes d !! component = Some (LinkN t) →
  place_link fault isMount (path_of true component) workflow mount target d = (r, d') →
  dk_nodes d' !! component = Some (LinkN t) ∨ dk_nodes d' !! component = Some (LinkN target).
Proof.
  intros Hc Hl. unfold place_link. rewrite tmp_place. unfold tryM at 1.
  destruct (Remove _ _ d) as [r1 d1] eqn:H1. apply (kept tmp_Remove) in H1. pose proof (proj1 (H1 Hc)) as Hc1.
  apply (tmp_component _ _ _ H1 Hc) in Hl as Hl1. unfold tryM at 1. destruct (Symlink _ _ _ d1) as [r2 d2] eqn:H2.
  pose proof (kept (tmp_Symlink _) _ _ _ H2) as T2. pose proof (proj1 (T2 Hc1)) as Hc2. apply (tmp_component _ _ _ T2 Hc1) in Hl1 as Hl2.
  destruct r2 as [[]|e2].
  - unfold tryM at 1. destruct (Rename _ _ _ d2) as [r3 d3] eqn:H3. destruct (Rename_tmp t target _ _ _ Hc2 Hl2 (Symlink_made _ _ _ Hc1 H2) H3) as [Hc3 Hl3].
    destruct r3 as [[]|e3]; cbn [is_ok] in Hl3.
    + intros Hr%(kept (same_report mount)). right. by rewrite Hr.
    + unfold tryM. destruct (Remove _ _ d3) as [r4 d4] eqn:H4. apply (kept tmp_Remove) in H4. intros [= <- <-]. left. by apply (tmp_component _ _ _ H4 Hc3).
  - unfold tryM at 1. destruct (Lstat fault _ d2) as [l d3] eqn:H3. apply (kept (same_Lstat _)) in H3. unfold same in H3.
    assert (clear root d3 ∧ dk_nodes d3 !! component = Some (LinkN t)) as Hd3 by (unfold clear; by rewrite H3).
    assert (∀ x, (x, d3) = (r, d') → dk_nodes d' !! component = Some (LinkN t) ∨ dk_nodes d' !! component = Some (LinkN target)) as Hq
      by (intros x [= _ <-]; left; apply Hd3).
    destruct l as [n|[]]; try apply Hq. unfold bindM. destruct (stampFallback _ _ _ _) as [[[]|] d4] eqn:H4;
      apply (kept (tidy_stamp t workflow)) in H4; intros [= <- <-]; left; by apply H4.
Qed.

(** C9. While the store is declared, a link at the component is never removed and
    never anything else: however the calls fail, it points where it pointed or
    at the workflow's leaf. *)
Theorem link_repointed_atomically workflow mount t d r d' :
  mount ≠ "" → clear root d → dk_nodes d !! component = Some (LinkN t) →
  LinkSharedStore fault isMount lineageDir workflow mount d = (r, d') →
  dk_nodes d' !! component = Some (LinkN t) ∨ dk_nodes d' !! component = Some (LinkN (Join (Clean mount) workflow)).
Proof.
  intros Hmt Hc Hl. unfold LinkSharedStore. destruct (IsReservedStoreName _); [intros [= <- <-]; by left|].
  rewrite decide_False by done. rewrite link_place. set (target := Join (Clean mount) workflow).
  destruct (MkdirAll _ _ d) as [r1 d1] eqn:H1. apply (kept (tidy_MkdirAll t target)) in H1. destruct (H1 (conj Hc Hl)) as [Hc1 Hl1].
  destruct r1 as [[]|e].
  - unfold declare_link, tryM at 1. destruct (Readlink _ _ d1) as [rl d2] eqn:H2. apply (kept (same_Readlink _)) in H2.
    unfold same in H2. assert (clear root d2) as Hc2 by (unfold clear; by rewrite H2). assert (dk_nodes d2 !! component = Some (LinkN t)) as Hl2 by by rewrite H2.
    destruct rl as [t'|e'].
    + destruct (decide _); [intros Hr%(kept (same_report _)); left; by rewrite Hr|by apply place_link_law].
    + unfold tryM. destruct (Lstat _ _ d2) as [st d3] eqn:H3. pose proof (Lstat_run _ _ _ _ _ H3) as [H3n H3k].
      assert (clear root d3) as Hc3 by (unfold clear; by rewrite H3n). assert (dk_nodes d3 !! component = Some (LinkN t)) as Hl3 by by rewrite H3n.
      destruct st as [[]|]; try by apply place_link_law. exfalso. specialize (H3k _ eq_refl). unfold look in H3k.
      destruct (resolve _ _ _) as [q|] eqn:Hq; [|done]. apply resolve_clear in Hq; [|apply plain_root|apply plain_names|done|by left]. subst q.
      rewrite node_at_snoc in H3k. fold component in H3k. by rewrite Hl3 in H3k.
  - unfold degrade, tryM. destruct (Stat _ _ d1) as [st d2] eqn:H2. pose proof (proj1 (Stat_run _ _ _ _ _ H2)) as H2n.
    unfold bindM. destruct (stampFallback _ _ _ _) as [[[]|] d3] eqn:H3; apply (kept (tidy_stamp t workflow)) in H3;
      intros [= <- <-]; left; apply H3; unfold clear; by rewrite H2n.
Qed.
(** *** A legacy directory is kept *)

Definition stays_clear (l : Place) (d d' : Disk) : Prop := clear l d → clear l d'.

#[local] Instance stays_clear_preorder l : PreOrder (stays_clear l).
Proof. split; [intros d Hd; exact Hd|]. intros a b c Hab Hbc Ha. auto. Qed.

Lemma Placed_clear l p what d d' : (∀ n, what n → ¬ is_link n) → Placed p what d d' → stays_clear l d d'.
Proof.
  intros Hw [He|f q n _ _ _ Hn He] Hc k t'; rewrite He; [by apply Hc|].
  destruct (decide (q = take k l)) as [->|Hne]; [|by rewrite lookup_insert_ne by done].
  rewrite lookup_insert_eq. intros [= ->]. by apply (Hw _ Hn); exists t'.
Qed.

Lemma clear_MkdirAll l p : Keeps (stays_clear l) (MkdirAll fault p).
Proof.
  apply keeps_MkdirAll; [apply _|intros d d' He Hc; unfold clear; by rewrite He|]. intros q _.
  eapply keeps_placed; [|apply Mkdir_placed]. intros d d'. apply Placed_clear. by intros n -> [? ?].
Qed.

(** What [os.MkdirAll] may change: the directories on the way, where they are missing. *)
Definition ways (l : Place) (d d' : Disk) : Prop := clear l d →
  clear l d' ∧ ∀ q, dk_nodes d' !! q = dk_nodes d !! q ∨ (dk_nodes d !! q = None ∧ ∃ k, q = take k l).

#[local] Instance ways_preorder l : PreOrder (ways l).
Proof.
  split; [intros d Hd; split; [done|by left]|]. intros a b c Hab Hbc Ha. destruct (Hab Ha) as [Hb Qb]. destruct (Hbc Hb) as [Hc Qc].
  split; [done|]. intros q. destruct (Qb q) as [E|[E K]], (Qc q) as [E'|[E' K']]; [left; congruence|right; split; [congruence|done]..].
Qed.

Lemma ways_MkdirAll l : Forall plain l → Keeps (ways l) (MkdirAll fault (path_of true l)).
Proof.
  intros Hl. apply keeps_MkdirAll; [apply _|intros d d' He Hc; unfold clear; rewrite He; split; [done|by left]|].
  intros q (k&Hk&->)%on_the_way_place; [|done]. eapply keeps_placed; [|apply Mkdir_placed]. intros d d' Hp Hc.
  split; [eapply Placed_clear; [|exact Hp|done]; by intros n -> [? ?]|]. intros q.
  destruct Hp as [He|f r n Hr Hne Ho -> He]; [left; by rewrite He|]. rewrite He.
  destruct (decide (r = q)) as [->|]; [|left; by rewrite lookup_insert_ne]. right.
  split; [by destruct (dk_nodes d !! q) as [[]|]|]. exists k.
  destruct (take k l) as [|c l0 _] eqn:Et using rev_ind; [apply (f_equal length) in Et; rewrite length_take in Et; cbn in Et; lia|].
  assert (Forall plain (l0 ++ [c])) as Hpl by (rewrite <- Et; by apply Forall_take). apply Forall_app in Hpl as [Hl0 Hpc].
  apply Forall_cons in Hpc as [Hpc _]. refine (resolve_clear _ _ _ _ _ Hl0 Hpc _ _ Hr).
  - intros j t. assert (take j l0 = take (j `min` length l0) l) as ->; [|apply Hc].
    rewrite <- (take_app_length l0 [c]) at 1. rewrite <- Et, !take_take. f_equal.
    apply (f_equal length) in Et. rewrite length_take, length_app in Et. cbn in Et. lia.
  - right. intros t. rewrite <- Et. apply Hc.
Qed.
Lemma clear_component d : clear root d → dk_nodes d !! component = Some DirN → clear component d.
Proof.
  intros Hc Hl k t. unfold component. destruct (decide (k ≤ length root)%nat).
  - rewrite take_app_le by done. apply Hc.
  - rewrite firstn_all2 by (rewrite length_app; cbn; lia). fold component. by rewrite Hl.
Qed.

Lemma marker_not_way k l : (∀ m, marker ≠ take m l) → marker ≠ take k l.
Proof. done. Qed.

Lemma marker_above k : marker ≠ take k component.
Proof. unfold marker. intros H%(f_equal length). rewrite length_take, length_app in H. cbn in H. lia. Qed.

(** The marker is found exactly when it is there. *)
Lemma marker_missing d : clear root d → dk_nodes d !! component = Some DirN → dk_nodes d !! marker = None →
  ∀ f n, look d f (path_of true marker) ≠ Ok n.
Proof.
  intros Hc Hl Hm f n. unfold look. destruct (resolve _ _ _) as [q|] eqn:Hq; [|done].
  apply resolve_clear in Hq; [|apply plain_component|apply plain_names|by apply clear_component|right; fold marker; by rewrite Hm].
  subst q. rewrite node_at_snoc. fold marker. by rewrite Hm.
Qed.

(** Nothing at or below the component but the marker changed. *)
Definition kept_but_marker (d d' : Disk) : Prop :=
  ∀ q n, component `prefix_of` q → q ≠ marker → dk_nodes d !! q = Some n → dk_nodes d' !! q = Some n.

Lemma ways_keep l d d' q n : clear l d → ways l d d' → dk_nodes d !! q = Some n → dk_nodes d' !! q = Some n.
Proof. intros Hc Hw Hq. destruct (proj2 (Hw Hc) q) as [->|[? _]]; congruence. Qed.

Lemma stamp_law workflow d r d' : clear root d → dk_nodes d !! component = Some DirN → dk_nodes d !! marker = None →
  stampFallback fault (path_of true component) workflow d = (r, d') → kept_but_marker d d'.
Proof.
  intros Hc Hl Hm. unfold stampFallback, tryM. destruct (MkdirAll _ _ d) as [r1 d1] eqn:H1.
  pose proof (kept (clear_MkdirAll root _) _ _ _ H1 Hc) as Hc1. apply (kept (ways_MkdirAll component plain_component)) in H1.
  assert (dk_nodes d1 !! component = Some DirN) as Hl1 by (apply (ways_keep component d); [by apply clear_component|done|done]).
  assert (dk_nodes d1 !! marker = None) as Hm1.
  { destruct (proj2 (H1 (clear_component d Hc Hl)) marker) as [->|[_ [k Hk]]]; [done|]. by destruct (marker_above k). }
  rewrite marker_place. destruct (WriteFile _ _ _ _ d1) as [r2 d2] eqn:H2. intros [= <- <-].
  apply WriteFile_placed in H2. intros q n Hp Hq Hn. assert (dk_nodes d1 !! q = Some n) as Hn1 by (apply (ways_keep component d); [by apply clear_component|done|done]).
  destruct H2 as [He|f q' n' Hr _ _ _ He]; [by rewrite He|].
  apply resolve_clear in Hr; [|apply plain_component|apply plain_names|by apply clear_component|right; fold marker; by rewrite Hm1].
  subst q'. rewrite He. fold marker. by rewrite lookup_insert_ne.
Qed.

Lemma below_not_temporary q : component `prefix_of` q → q ≠ temporary.
Proof.
  unfold component, temporary. intros [k ->] H. rewrite <- app_assoc in H. apply app_inv_head in H. discriminate H.
Qed.

Lemma place_link_dir workflow mount target d r d' : clear root d → dk_nodes d !! component = Some DirN → dk_nodes d !! marker = None →
  place_link fault isMount (path_of true component) workflow mount target d = (r, d') → kept_but_marker d d'.
Proof.
  intros Hc Hl Hm. unfold place_link. rewrite tmp_place. unfold tryM at 1.
  destruct (Remove _ _ d) as [r1 d1] eqn:H1. apply (kept tmp_Remove) in H1. destruct (H1 Hc) as [Hc1 Hs1].
  unfold tryM at 1. destruct (Symlink _ _ _ d1) as [r2 d2] eqn:H2.
  apply (kept (tmp_Symlink _)) in H2. destruct (H2 Hc1) as [Hc2 Hs2].
  assert (∀ q, component `prefix_of` q → dk_nodes d2 !! q = dk_nodes d !! q) as Hs by (intros q Hq%below_not_temporary; by rewrite Hs2, Hs1).
  assert (dk_nodes d2 !! component = Some DirN) as Hl2 by by rewrite Hs.
  assert (dk_nodes d2 !! marker = None) as Hm2 by (rewrite Hs; [done|by eexists]).
  assert (∀ d3, dk_nodes d3 = dk_nodes d2 → kept_but_marker d d3) as Hd2 by (intros d3 He q n Hp _; by rewrite He, Hs).
  destruct r2 as [[]|e2]; unfold tryM.
  - destruct (Rename _ _ _ d2) as [r3 d3] eqn:H3. assert (dk_nodes d3 = dk_nodes d2 ∧ is_ok r3 = false) as [Hs3 Hf].
    { revert H3. unfold Rename, syscall. destruct (fault _ _); [by intros [= <- <-]|].
      destruct (resolve _ _ _) as [a|]; [|by intros [= <- <-]]. destruct (resolve _ _ (path_of true component)) as [b|] eqn:Hb; [|by intros [= <- <-]].
      rewrite (resolve_same d2 (called d2)) in Hb by done. apply resolve_clear in Hb; [|apply plain_root|apply plain_names|done|by left]. subst b.
      rewrite (node_at_snoc _ root). fold component. cbn [called dk_nodes]. rewrite Hl2. by destruct (node_at _ a) as [[]|]; intros [= <- <-]. }
    destruct r3; [done|]. destruct (Remove _ _ d3) as [r4 d4] eqn:H4. apply (kept tmp_Remove) in H4.
    assert (clear root d3) as Hc3 by (unfold clear; by rewrite Hs3). destruct (H4 Hc3) as [_ Hs4]. intros [= <- <-] q n Hp _.
    rewrite Hs4 by by apply below_not_temporary. by rewrite Hs3, Hs.
  - destruct (Lstat fault _ d2) as [l d3] eqn:H3. pose proof (kept (same_Lstat _) _ _ _ H3) as Hs3. unfold same in Hs3.
    destruct l as [n|[]]; try (intros [= <- <-]; by apply Hd2).
    unfold bindM. destruct (stampFallback _ _ _ d3) as [[[]|] d4] eqn:H4;
      (apply stamp_law in H4; [|unfold clear; by rewrite ?Hs3|by rewrite ?Hs3|by rewrite ?Hs3]); intros [= <- <-] q n Hp Hq Hn; apply H4; by rewrite ?Hs3, ?Hs.
Qed.

(** A directory at the component without the marker is legacy data: however
    the calls fail, nothing at or below it changes, the marker aside. *)
Theorem legacy_component_kept workflow mount d r d' :
  mount ≠ "" → clear root d → dk_nodes d !! component = Some DirN → dk_nodes d !! marker = None →
  IsAbs mount = true → clear (components (Join (Clean mount) workflow)) d →
  (∀ k, marker ≠ take k (components (Join (Clean mount) workflow))) →
  LinkSharedStore fault isMount lineageDir workflow mount d = (r, d') → kept_but_marker d d'.
Proof.
  intros Hmt Hc Hl Hm Habsm Hct Hmk. unfold LinkSharedStore. destruct (IsReservedStoreName _); [by intros [= <- <-] q n|].
  rewrite decide_False by done. rewrite link_place. set (target := Join (Clean mount) workflow) in *.
  assert (target = path_of true (components target)) as Ht.
  { assert (Clean mount ≠ "") as Hne by (intros E; apply (f_equal IsAbs) in E; by rewrite IsAbs_Clean, Habsm in E).
    assert (IsAbs target = true ∧ Clean target = target) as [Ha Hcl]; [|by rewrite <- Clean_place].
    unfold target, Join. rewrite decide_False by done. destruct (decide _); rewrite IsAbs_Clean, Clean_idem; (split; [|done]).
    - by rewrite IsAbs_Clean.
    - by rewrite IsAbs_app, IsAbs_Clean. }
  assert (Forall plain (components target)) as Hpt by (apply components_plain; by rewrite Ht).
  destruct (MkdirAll _ target d) as [r1 d1] eqn:H1. pose proof (kept (clear_MkdirAll root _) _ _ _ H1 Hc) as Hc1.
  rewrite Ht in H1. apply (kept (ways_MkdirAll _ Hpt)) in H1.
  assert (dk_nodes d1 !! component = Some DirN) as Hl1 by exact (ways_keep _ _ _ _ _ Hct H1 Hl).
  assert (dk_nodes d1 !! marker = None) as Hm1.
  { destruct (proj2 (H1 Hct) marker) as [->|[_ [k Hk]]]; [done|]. by destruct (Hmk k). }
  assert (∀ d2, kept_but_marker d1 d2 → kept_but_marker d d2) as Hstep.
  { intros d2 H12 q n Hp Hq Hn. apply H12; [done..|]. exact (ways_keep _ _ _ _ _ Hct H1 Hn). }
  assert (∀ d2, dk_nodes d2 = dk_nodes d1 → kept_but_marker d d2) as Hread by (intros d2 He; apply Hstep; intros q n _ _; by rewrite He).
  destruct r1 as [[]|e].
  - unfold declare_link, tryM at 1. destruct (Readlink _ _ d1) as [rl d2] eqn:H2. pose proof (kept (same_Readlink _) _ _ _ H2) as H2n. unfold same in H2n.
    destruct rl as [t'|e'].
    { exfalso. revert H2. unfold Readlink, syscall. destruct (fault _ _); [done|]. intros [= H2 _]. unfold look in H2.
      destruct (resolve _ _ _) as [q|] eqn:Hq; [|done]. rewrite (resolve_same d1 (called d1)) in Hq by done.
      apply resolve_clear in Hq; [|apply plain_root|apply plain_names|done|by left]. subst q.
      rewrite node_at_snoc in H2. fold component in H2. cbn in H2. by rewrite Hl1 in H2. }
    unfold tryM at 1. destruct (Lstat _ _ d2) as [st d3] eqn:H3. pose proof (kept (same_Lstat _) _ _ _ H3) as H3n. unfold same in H3n.
    assert (dk_nodes d3 = dk_nodes d1) as E3 by congruence.
    assert (∀ n, st = Ok n → n = DirN) as H3k.
    { intros n ->. pose proof (proj2 (Lstat_run _ _ _ _ _ H3) n eq_refl) as Hk. unfold look in Hk.
      destruct (resolve _ _ _) as [q|] eqn:Hq; [|done]. apply resolve_clear in Hq; [|apply plain_root|apply plain_names|unfold clear; by rewrite E3|by left].
      subst q. rewrite node_at_snoc in Hk. fold component in Hk. rewrite E3, Hl1 in Hk. by injection Hk as <-. }
    unfold component_dir. rewrite marker_place.
    destruct st as [[]|e3].
    + unfold tryM. destruct (Stat _ _ d3) as [mk d4] eqn:H4. pose proof (Stat_run _ _ _ _ _ H4) as [H4n H4k].
      destruct mk as [nm|e4]; [|intros [= <- <-]; apply Hread; congruence]. exfalso.
      assert (dk_nodes d4 = dk_nodes d1) as E4 by congruence.
      refine (marker_missing d4 _ _ _ true nm (H4k _ eq_refl)); unfold clear; by rewrite E4.
    + by specialize (H3k _ eq_refl).
    + by specialize (H3k _ eq_refl).
    + intros Hr. apply place_link_dir in Hr; [|unfold clear; by rewrite E3|by rewrite E3|by rewrite E3].
      apply Hstep. intros q n Hp Hq Hn. apply Hr; by rewrite ?E3.
  - unfold degrade, tryM. destruct (Stat _ _ d1) as [st d2] eqn:H2. pose proof (proj1 (Stat_run _ _ _ _ _ H2)) as H2n.
    unfold bindM. destruct (stampFallback _ _ _ d2) as [[[]|] d3] eqn:H3; (apply stamp_law in H3; [|unfold clear; by rewrite H2n..]);
      intros [= <- <-]; apply Hstep; intros q n Hp Hq Hn; apply H3; by rewrite ?H2n.
Qed.
End component.

(** ** Volumes to run it on *)

Module Volume.

Definition disk (l : list (Place * Node)) : Disk :=
  {| dk_nodes := list_to_map ([(["l"], DirN); (["store"], DirN)] ++ l); dk_calls := 0 |}.
Definition fallback : list (Place * Node) :=
  [(["l"; "sol-pi"], DirN); (["l"; "sol-pi"; manufacturedMarker], FileN "rev" 384)].

(** The calls that fail, each time. *)
Definition failing (o : FsCall) (_ : nat) (o' : FsCall) : option Fault :=
  match o, o' with
  | OMkdir p, OMkdir q | ORename p _, ORename q _ | OReadDir p, OReadDir q =>
      if decide (p = q) then Some {| ft_text := "input/output error"; ft_torn := None |} else None
  | _, _ => None
  end.

Definition mounted (_ : Disk) (_ _ : string) : bool := true.
Definition link (fault : nat → FsCall → option Fault) (d : Disk) : result FsError (list StoreLog) * Disk :=
  LinkSharedStore fault mounted "/l" "rev" "/store" d.
Definition outage : FsCall := OMkdir "/store/rev".
End Volume.

(** An outage stamps a legacy directory as the linker's own fallback; the next
    healthy arm moves it away. *)
Lemma outage_claims_legacy :
  let d0 := Volume.disk [(["l"; "sol-pi"], DirN); (["l"; "sol-pi"; "obs"], FileN "legacy" 384)] in
  let d1 := (Volume.link (Volume.failing Volume.outage) d0).2 in
  let d2 := (Volume.link no_fault d1).2 in
  (Volume.link no_fault d0).1 = Ok [LegacyKept] ∧
  node_at d1 ["l"; "sol-pi"; manufacturedMarker] = Some (FileN "rev" 384) ∧
  node_at d2 ["l"; "sol-pi"] = Some (LinkN "/store/rev") ∧ node_at d2 ["store"; "rev"; "obs"] = Some (FileN "legacy" 384).
Proof. vm_compute. by split_and!. Qed.

(** An outage under a live link stamps the store it points to. *)
Lemma outage_stamps_store :
  let d0 := Volume.disk [(["l"; "sol-pi"], LinkN "/store/old"); (["store"; "old"], DirN)] in
  let d1 := (Volume.link (Volume.failing Volume.outage) d0).2 in
  node_at d1 ["store"; "old"; manufacturedMarker] = Some (FileN "rev" 384).
Proof. vm_compute. reflexivity. Qed.

(** A rename that fails on a fresh lineage leaves the component absent. *)
Lemma rename_failure_leaves_absent :
  let d := (Volume.link (Volume.failing (ORename "/l/sol-pi.new" "")) (Volume.disk [])).2 in
  node_at d ["l"; "sol-pi"] = None.
Proof. vm_compute. reflexivity. Qed.

(** A directory of the fallback that cannot be listed is not counted, and is
    removed with what is in it. *)
Lemma unlisted_directory_lost :
  let d0 := Volume.disk (Volume.fallback ++ [(["l"; "sol-pi"; "objects"], DirN); (["l"; "sol-pi"; "objects"; "x"], FileN "research" 384)]) in
  let '(r, d1) := Volume.link (Volume.failing (OReadDir "/l/sol-pi/objects")) d0 in
  r = Ok [Migrated 0; StoreSize 0 0 None] ∧
  Forall (λ kv, kv.2 ≠ FileN "research" 384) (map_to_list (dk_nodes d1)).
Proof. vm_compute. split; [done|]. repeat constructor; discriminate. Qed.

(** An object of the store is replaced by the fallback's of the same name. *)
Lemma migration_overwrites :
  let d0 := Volume.disk (Volume.fallback ++ [(["l"; "sol-pi"; "obs"], FileN "trunc" 384); (["store"; "rev"], DirN); (["store"; "rev"; "obs"], FileN "truncated not" 384)]) in
  node_at (Volume.link no_fault d0).2 ["store"; "rev"; "obs"] = Some (FileN "trunc" 384).
Proof. vm_compute. reflexivity. Qed.

(** ** Witnesses *)

Lemma clear_list l d : forallb (λ kv, match kv.2 with LinkN _ => negb (bool_decide (kv.1 = take (length kv.1) l)) | _ => true end) (map_to_list (dk_nodes d)) = true → clear l d.
Proof.
  intros Hf k t Hq. rewrite forallb_forall in Hf. apply elem_of_map_to_list in Hq. apply list_elem_of_In in Hq.
  specialize (Hf _ Hq). cbn in Hf. apply negb_true_iff, bool_decide_eq_false in Hf. apply Hf.
  rewrite length_take. destruct (decide (k ≤ length l)%nat); [by rewrite Nat.min_l|]. rewrite Nat.min_r by lia. by rewrite !firstn_all2 by lia.
Qed.

Lemma link_repointed_atomically_witness :
  let d0 := Volume.disk [(["l"; "sol-pi"], LinkN "/store/old")] in
  dk_nodes (Volume.link no_fault d0).2 !! ["l"; "sol-pi"] = Some (LinkN "/store/rev") ∧
  ∀ fault, let x := dk_nodes (Volume.link fault d0).2 !! ["l"; "sol-pi"] in x = Some (LinkN "/store/old") ∨ x = Some (LinkN "/store/rev").
Proof.
  cbv zeta. split; [vm_compute; reflexivity|]. intros fault.
  refine (link_repointed_atomically fault Volume.mounted "/l" eq_refl "rev" "/store" "/store/old" _ _ _ _ _ _ (surjective_pairing (Volume.link fault _))); [discriminate|apply clear_list; reflexivity|reflexivity].
Defined.

Lemma legacy_component_kept_witness :
  let d0 := Volume.disk [(["l"; "sol-pi"], DirN); (["l"; "sol-pi"; "obs"], FileN "legacy" 384)] in
  ∀ fault, dk_nodes (Volume.link fault d0).2 !! ["l"; "sol-pi"; "obs"] = Some (FileN "legacy" 384).
Proof.
  cbv zeta. intros fault.
  refine (legacy_component_kept fault Volume.mounted "/l" eq_refl "rev" "/store" _ _ _ _ _ _ _ eq_refl _ _ (surjective_pairing (Volume.link fault _)) _ _ _ _ _);
    [discriminate|apply clear_list; reflexivity|reflexivity|reflexivity|apply clear_list; reflexivity| |exists ["obs"]; reflexivity|discriminate|reflexivity].
  intros k. assert (components (Join (Clean "/store") "rev") = ["store"; "rev"]) as -> by reflexivity. intros H%(f_equal head).
  destruct k as [|k]; discriminate H.
Defined.
