(* ===== verification/PiArgs.v ===== *)
(** * The invocation of pi ([internal/piargs/piargs.go])

    Which extensions a run loads, which tools its allowlist names, and the flags
    around them. [stat] says whether a directory of the image is there; it is the
    same at every call of one construction. *)

From S2P Require Import Prelude GoStrings GoPath.

Definition Extensions : list string :=
  ["/extensions/litellm-provider"; "/extensions/rig-query"; "/extensions/turn-budget";
   "/extensions/pillar-todo"; "/extensions/review-post"; "/extensions/sol-pi"].

Definition RigGraphPath : string := "/workspace/rig.db".

Definition extensionTools : gmap string string :=
  {["/extensions/rig-query" := "rig";
    "/extensions/pillar-todo" := "todo";
    "/extensions/review-post" :=
      "review_finding_post,review_findings_list,review_thread_reply,review_thread_resolve,review_verdict_post,review_research_publish,review_coverage_publish,review_carry_file";
    "/extensions/sol-pi" := "obs_recall"]}.

Record Loadout := {
  lo_ExcludeTools : list string;
  lo_NoMCP : bool;
  lo_Thinking : string;
  lo_ExtraExtensions : list string;
}.

Definition no_loadout : Loadout := {| lo_ExcludeTools := []; lo_NoMCP := false; lo_Thinking := ""; lo_ExtraExtensions := [] |}.

Section piargs.
Context (stat : string → bool).

Definition loadedExtensions (extensions : list string) : list string := filter (λ e, stat e = true) extensions.

Definition LoadedExtensions : list string := loadedExtensions Extensions.

Definition ExtensionsLogLine : string :=
  match LoadedExtensions with
  | [] => "pi extensions: NONE — every manifest entry is missing from this image (degraded)"
  | loaded => "pi extensions: " +:+ join "," loaded
  end.

Fixpoint load_flags (extensions : list string) : list string :=
  match extensions with
  | [] => []
  | ext :: extensions => if stat ext then "-e" :: ext :: load_flags extensions else load_flags extensions
  end.

Fixpoint allowlist (extensions allow : list string) : list string :=
  match extensions with
  | [] => allow
  | ext :: extensions =>
      if stat ext then
        match extensionTools !! ext with
        | Some tool => allowlist extensions (if decide (tool ∈ allow) then allow else allow ++ [tool])
        | None => allowlist extensions allow
        end
      else allowlist extensions allow
  end.

Definition buildPiArgs (skill model : string) (tools extensions : list string) : list string :=
  ["--skill"; skill; "--model"; model; "--no-approve"] ++ load_flags extensions
  ++ match tools with [] => [] | _ => ["--tools"; join "," (allowlist extensions tools)] end.

Definition loadout_flags (lo : Loadout) : list string :=
  match lo_ExcludeTools lo with [] => [] | l => ["--exclude-tools"; join "," l] end
  ++ (if lo_NoMCP lo then ["--no-mcp"] else [])
  ++ (if decide (lo_Thinking lo = "") then [] else ["--thinking"; lo_Thinking lo]).

Definition PiArgsLoadout (skill model : string) (tools : list string) (lo : Loadout) : list string :=
  buildPiArgs skill model tools (Extensions ++ lo_ExtraExtensions lo) ++ loadout_flags lo.

Definition PiArgs (skill model : string) (tools : list string) : list string := PiArgsLoadout skill model tools no_loadout.

(** ** What pi reads of its arguments *)

(** The values of a flag that takes one, over arguments in which [flags] take a
    value and every other takes none. *)
Fixpoint flag_values (fuel : nat) (flags : list string) (name : string) (args : list string) : list string :=
  match fuel, args with
  | S fuel, f :: rest =>
      if decide (f ∈ flags) then
        match rest with
        | v :: rest => (if decide (f = name) then [v] else []) ++ flag_values fuel flags name rest
        | [] => []
        end
      else flag_values fuel flags name rest
  | _, _ => []
  end.

Definition pi_flags : list string := ["--skill"; "--model"; "-e"; "--tools"; "--exclude-tools"; "--thinking"].
Definition values (name : string) (args : list string) : list string := flag_values (length args) pi_flags name args.

(** The names the allowlist admits: pi splits it at commas. *)
Definition admitted (args : list string) : list string := values "--tools" args ≫= split_byte ","%char.

Ltac flag := apply (bool_decide_unpack _); reflexivity.

Lemma flag_values_enough name args : ∀ n m, (length args ≤ n)%nat → (length args ≤ m)%nat →
  flag_values n pi_flags name args = flag_values m pi_flags name args.
Proof.
  assert (∀ k args, (length args ≤ k)%nat → ∀ n m, (length args ≤ n)%nat → (length args ≤ m)%nat →
    flag_values n pi_flags name args = flag_values m pi_flags name args) as H; [|by intros; eapply H].
  clear args. induction k as [|k IH]; intros args Hk n m Hn Hm.
  - destruct args as [|f l]; [by destruct n, m|]. cbn in Hk. lia.
  - destruct args as [|f l]; [by destruct n, m|]. destruct n as [|n], m as [|m]; cbn in Hk, Hn, Hm; try lia. cbn [flag_values].
    destruct (decide _); [|apply IH; lia]. destruct l as [|v l]; [done|]. cbn in Hk, Hn, Hm. f_equal. apply IH; lia.
Qed.

Lemma values_flag name f v args : f ∈ pi_flags → values name (f :: v :: args) = (if decide (f = name) then [v] else []) ++ values name args.
Proof.
  intros Hf. unfold values. transitivity ((if decide (f = name) then [v] else []) ++ flag_values (S (length args)) pi_flags name args).
  - change (length (f :: v :: args)) with (S (S (length args))). remember (S (length args)) as k. cbn [flag_values]. by rewrite decide_True.
  - f_equal. apply flag_values_enough; lia.
Qed.

Lemma values_switch name f args : f ∉ pi_flags → values name (f :: args) = values name args.
Proof. intros Hf. unfold values. change (length (f :: args)) with (S (length args)). remember (length args) as k. cbn [flag_values]. by rewrite decide_False. Qed.

Lemma values_loads name exts args : values name (load_flags exts ++ args) = (if decide ("-e" = name) then loadedExtensions exts else []) ++ values name args.
Proof.
  induction exts as [|e exts IH]; cbn [load_flags]; [by destruct (decide _)|]. unfold loadedExtensions in *. destruct (stat e) eqn:He.
  - rewrite filter_cons_True by done. rewrite <- !app_comm_cons, values_flag by flag. rewrite IH.
    by destruct (decide _).
  - by rewrite filter_cons_False by (by rewrite He).
Qed.

Lemma allowlist_elem exts : ∀ allow t, t ∈ allowlist exts allow ↔ t ∈ allow ∨ ∃ e, e ∈ loadedExtensions exts ∧ extensionTools !! e = Some t.
Proof.
  unfold loadedExtensions. induction exts as [|e exts IH]; intros allow t; cbn [allowlist]; [set_solver|].
  destruct (stat e) eqn:He; [rewrite filter_cons_True by done|rewrite filter_cons_False by (by rewrite He); apply IH].
  destruct (extensionTools !! e) as [tool|] eqn:Ht; rewrite IH.
  - setoid_rewrite elem_of_cons. destruct (decide (tool ∈ allow)) as [Hin|Hin]; [|rewrite elem_of_app, list_elem_of_singleton];
      split; intros Hx; destruct_or?; naive_solver.
  - setoid_rewrite elem_of_cons. naive_solver.
Qed.

Lemma split_join_elem (l : list string) t : l ≠ [] →
  t ∈ split_byte ","%char (join "," l) ↔ ∃ x, x ∈ l ∧ t ∈ split_byte ","%char x.
Proof.
  induction l as [|x l IH]; [done|]. intros _. destruct l as [|y l]; [cbn [join]; split; [intros ?; exists x; set_solver|intros (?&->%list_elem_of_singleton&?); done]|].
  change (join "," (x :: y :: l)) with (x +:+ String ","%char (join "," (y :: l))).
  rewrite split_byte_mid, elem_of_app, IH by done. setoid_rewrite (elem_of_cons (y :: l)). naive_solver.
Qed.

Lemma values_tail lo name : "--exclude-tools" ≠ name → "--thinking" ≠ name → values name (loadout_flags lo) = [].
Proof.
  intros H1 H2. unfold loadout_flags. destruct (lo_ExcludeTools lo) as [|x l]; cbn [app].
  - destruct (lo_NoMCP lo); cbn [app]; rewrite ?values_switch by flag; (destruct (decide _); [done|]); by rewrite values_flag, decide_False by (flag || done).
  - rewrite values_flag, decide_False by (flag || done). cbn [app].
    destruct (lo_NoMCP lo); cbn [app]; rewrite ?values_switch by flag; (destruct (decide _); [done|]); by rewrite values_flag, decide_False by (flag || done).
Qed.

(** Pi loads exactly the extensions that are on the image, in order, and
    never a missing one; without declared tools it gets no allowlist; with them
    it admits the declared tools and those of the loaded extensions, no others;
    the project's own configuration is never approved. *)
Theorem PiArgs_in_sync skill model tools lo :
  let args := PiArgsLoadout skill model tools lo in
  let loaded := loadedExtensions (Extensions ++ lo_ExtraExtensions lo) in
  values "-e" args = loaded ∧ Forall (λ e, stat e = true) loaded ∧ "--no-approve" ∈ args ∧
  values "--model" args = [model] ∧ values "--skill" args = [skill] ∧
  (tools = [] → values "--tools" args = []) ∧
  (tools ≠ [] → ∀ t, t ∈ admitted args ↔
     ∃ x, t ∈ split_byte ","%char x ∧ (x ∈ tools ∨ ∃ e, e ∈ loaded ∧ extensionTools !! e = Some x)).
Proof.
  cbv zeta. set (exts := Extensions ++ lo_ExtraExtensions lo). unfold admitted.
  assert (∀ name, values name (PiArgsLoadout skill model tools lo) =
    (if decide ("--skill" = name) then [skill] else []) ++ (if decide ("--model" = name) then [model] else []) ++
    (if decide ("-e" = name) then loadedExtensions exts else []) ++
    (match tools with [] => [] | _ => if decide ("--tools" = name) then [join "," (allowlist exts tools)] else [] end) ++
    values name (loadout_flags lo)) as Hv.
  { intros name. unfold PiArgsLoadout, buildPiArgs. fold exts. rewrite <- !app_assoc. cbn [app].
    rewrite !values_flag by flag. rewrite values_switch by flag.
    rewrite values_loads. do 3 f_equal. destruct tools; [done|]. cbn [app]. by rewrite values_flag by flag. }
  assert (tools ≠ [] → values "--tools" (PiArgsLoadout skill model tools lo) = [join "," (allowlist exts tools)]) as Htools.
  { intros Hne. rewrite Hv, values_tail by done. by destruct tools. }
  assert (∀ x, [x] ≫= split_byte ","%char = split_byte ","%char x) as Hone by (intros; apply app_nil_r).
  assert (tools ≠ [] → allowlist exts tools ≠ []) as Hsome.
  { intros Hne Hnil. destruct tools as [|t0 ts]; [done|]. assert (t0 ∈ allowlist exts (t0 :: ts)) as Hin by (apply allowlist_elem; left; by left).
    rewrite Hnil in Hin. by apply elem_of_nil in Hin. }
  split_and!.
  - rewrite Hv, values_tail by done. by destruct tools; rewrite !app_nil_r.
  - apply Forall_forall. by intros e [He _]%list_elem_of_filter.
  - do 4 (apply elem_of_cons; right). by left.
  - rewrite Hv, values_tail by done. by destruct tools.
  - rewrite Hv, values_tail by done. by destruct tools.
  - intros Hnil. rewrite Hv, values_tail by done. by rewrite Hnil.
  - intros Hne t. rewrite Htools, Hone, split_join_elem by auto. setoid_rewrite allowlist_elem. split; intros (x&H1&H2); exists x; by split.
Qed.
End piargs.

(** ** An image without one of the extensions *)

Definition old_image (p : string) : bool := negb (bool_decide (p = "/extensions/sol-pi")).

Lemma PiArgs_in_sync_witness :
  let args := PiArgsLoadout old_image "review" "glm" ["bash"]
    {| lo_ExcludeTools := ["write"]; lo_NoMCP := true; lo_Thinking := "high"; lo_ExtraExtensions := ["/runtime/extensions/x"] |} in
  values "-e" args = ["/extensions/litellm-provider"; "/extensions/rig-query"; "/extensions/turn-budget"; "/extensions/pillar-todo";
                      "/extensions/review-post"; "/runtime/extensions/x"] ∧
  "rig" ∈ admitted args ∧ "obs_recall" ∉ admitted args ∧ values "--exclude-tools" args = ["write"].
Proof.
  cbv zeta. pose proof (PiArgs_in_sync old_image "review" "glm" ["bash"]
    {| lo_ExcludeTools := ["write"]; lo_NoMCP := true; lo_Thinking := "high"; lo_ExtraExtensions := ["/runtime/extensions/x"] |}) as (He&_&_&_&_&_&Ht).
  split_and!; [rewrite He; vm_compute; reflexivity| | |vm_compute; reflexivity].
  - apply Ht; [discriminate|]. exists "rig". split; [vm_compute; left|]. right. exists "/extensions/rig-query". split; [|vm_compute; reflexivity].
    apply (bool_decide_unpack _). vm_compute. exact I.
  - apply (bool_decide_unpack _). vm_compute. exact I.
Defined.
