(* ===== verification/CrdWalk.v ===== *)
(** * The walk of a Go type along its CRD schema ([internal/crdwalk/crdwalk.go])

    What [reflect] shows of a type and of a value is data here, and a schema node
    is what the walk reads of one. The forward walk generates a probe, or collects
    what an instance holds, and reports what the schema drops; the reverse walk
    reports what no Go field receives; the enumeration lists a schema's leaves. *)

From Stdlib Require Import QArith.
From S2P Require Import Prelude GoStrings GoTime Json.
#[local] Open Scope Z_scope.

(** ** What reflection shows *)

Inductive ScalarKind := KString | KBool | KInt (w : Z) | KUint (w : Z) | KFloat | KOther.

Record GoField := { gf_Name : string; gf_Exported : bool; gf_Anonymous : bool; gf_Tag : string }.

(** A type with its name; an unnamed slice, array or map has none. *)
Inductive GoType :=
| TPtr (elem : GoType)
| TStruct (name : string) (fields : list (GoField * GoType))
| TSlice (name : string) (elem : GoType)
| TArray (name : string) (len : nat) (elem : GoType)
| TMap (name : string) (key : string) (string_keys : bool) (elem : GoType)
| TIface (name : string)
| TScalar (name : string) (kind : ScalarKind).

(** [t.String()]. *)
Fixpoint type_string (t : GoType) : string :=
  let named name s := if decide (name = "") then s else name in
  match t with
  | TPtr e => "*" +:+ type_string e
  | TSlice n e => named n ("[]" +:+ type_string e)
  | TArray n len e => named n ("[" +:+ pretty len +:+ "]" +:+ type_string e)
  | TMap n key _ e => named n ("map[" +:+ key +:+ "]" +:+ type_string e)
  | TStruct n _ | TIface n | TScalar n _ => n
  end.

Definition is_bytes (t : GoType) : bool := match t with TSlice _ (TScalar _ (KUint w)) => w =? 8 | _ => false end.

Definition well_known_name (s : string) : bool :=
  has_suffix s ".Time" || has_suffix s ".Duration" || has_suffix s ".Quantity" || has_suffix s ".IntOrString"
  || has_suffix s ".RawExtension" || has_suffix s ".JSON".
Definition wellKnownLeaf (t : GoType) : bool := well_known_name (type_string t).

(** A value. [VWell] is a value of a well-known type, by its canonical text. *)
Inductive GoValue :=
| VPtr (o : option GoValue)
| VStruct (fields : list GoValue)
| VSlice (l : list GoValue)
| VMap (entries : list (string * GoValue))
| VIface (j : option json)
| VStr (s : string)
| VBool (b : bool)
| VInt (z : Z)
| VFloat (q : Q)
| VBytes (bs : string)
| VWell (text : string)
| VOther.

Definition zero_scalar (k : ScalarKind) : GoValue :=
  match k with KString => VStr "" | KBool => VBool false | KInt _ | KUint _ => VInt 0 | KFloat => VFloat 0 | KOther => VOther end.

(** The canonical text of a well-known type's zero value. *)
Definition zero_text (name : string) : string :=
  if has_suffix name ".Time" then "0001-01-01T00:00:00Z"
  else if has_suffix name ".Duration" then "0s"
  else if has_suffix name ".JSON" then "{[]}"
  else if has_suffix name ".RawExtension" then ""
  else "0".

(** [reflect.New(t).Elem()]. *)
Fixpoint zero_value (t : GoType) : GoValue :=
  match t with
  | TPtr _ => VPtr None
  | TStruct n fields => if well_known_name n then VWell (zero_text n) else VStruct ((λ f, zero_value f.2) <$> fields)
  | TSlice _ _ => if is_bytes t then VBytes "" else VSlice []
  | TArray _ len e => VSlice (replicate len (zero_value e))
  | TMap _ _ _ _ => VMap []
  | TIface _ => VIface None
  | TScalar _ k => zero_scalar k
  end.

Fixpoint deref (t : GoType) : GoType := match t with TPtr e => deref e | _ => t end.

(** The name of a field in JSON; [None] for one that is left out, the empty name
    for an embedded struct that is merged into its parent. *)
Definition jsonName (f : GoField) : option string :=
  if decide (gf_Tag f = "-") then None
  else
    let name := match cut_first ","%char (gf_Tag f) with Some (n, _) => n | None => gf_Tag f end in
    if decide (name = "") then (if gf_Anonymous f then Some "" else None) else Some name.

(** ** What a schema node shows *)

Record Constraints := {
  cs_Type : option string; cs_Enum : option (list json); cs_Default : option json; cs_Pattern : option string;
  cs_Minimum : option json; cs_Maximum : option json; cs_MaxLength : option json;
}.

(** The members the walk reads, each at the type it asserts. *)
Inductive Schema :=
| Node (properties : option (list (string * option Schema))) (items additional : option Schema) (preserve : option bool) (c : Constraints).

Definition properties (s : Schema) := let 'Node p _ _ _ _ := s in p.
Definition items (s : Schema) := let 'Node _ i _ _ _ := s in i.
Definition additional (s : Schema) := let 'Node _ _ a _ _ := s in a.
Definition preserve_key (s : Schema) := let 'Node _ _ _ p _ := s in p.
Definition preserve (s : Schema) : bool := default false (preserve_key s).
Definition constraints (s : Schema) := let 'Node _ _ _ _ c := s in c.

Definition assoc {A} (k : string) (l : list (string * A)) : option A := snd <$> List.find (λ kv, String.eqb kv.1 k) l.
Definition as_string (j : json) : option string := match j with JStr s => Some s | _ => None end.
Definition as_number (j : json) : option json := match j with JInt _ | JFloat _ => Some j | _ => None end.
Definition as_list (j : json) : option (list json) := match j with JArr l => Some l | _ => None end.
Definition as_flag (j : json) : option bool := match j with JBool b => Some b | _ => None end.

Definition member {A} (k : string) (f : json → option A) (fields : list (string * json)) : option A := assoc k fields ≫= f.

(** A decoded value as a node, and as the map of a node's properties. *)
Fixpoint view (j : json) : option Schema * option (list (string * option Schema)) :=
  match j with
  | JObj fields =>
      let views := List.map (λ kv, (kv.1, view kv.2)) fields in
      (Some (Node (assoc "properties" views ≫= snd) (assoc "items" views ≫= fst) (assoc "additionalProperties" views ≫= fst)
               (member "x-kubernetes-preserve-unknown-fields" as_flag fields)
               {| cs_Type := member "type" as_string fields; cs_Enum := member "enum" as_list fields; cs_Default := member "default" Some fields;
                  cs_Pattern := member "pattern" as_string fields; cs_Minimum := member "minimum" as_number fields;
                  cs_Maximum := member "maximum" as_number fields; cs_MaxLength := member "maxLength" as_number fields |}),
       Some ((λ kv, (kv.1, kv.2.1)) <$> views))
  | _ => (None, None)
  end.

Record Leaf := { lf_Path : string; lf_Value : string }.

Inductive Issue :=
| NoProperties (path type : string)
| NotInSchema (path child type : string)
| NoItems (path type : string)
| NoAdditional (path type : string)
| UnknownPattern (path pattern : string)
| NoGoField (path prop : string).

Definition patternProbes : list (string * string) := [("^([01]\d|2[0-3]):[0-5]\d$", "16:00")].
Definition probeTime : string := format_RFC3339 ((62135596800 + 1700000000) * Second).
Definition dquote : string := String (Ascii.ascii_of_nat 34) "".
Definition probe_json : string := "{" +:+ dquote +:+ "probe" +:+ dquote +:+ ":true}".

Section walk.
(** The value of a number that is not an integer, and the texts of a float. *)
Context (float_of : string → Q) (format_float sprint_float : Q → string).

Definition num_value (j : json) : Q := match j with JInt z => inject_Z z | JFloat t => float_of t | _ => 0%Q end.
Definition Qlt_bool (a b : Q) : bool := negb (Qle_bool b a).
(** [int64(f)]. *)
Definition Qtrunc (q : Q) : Z := Z.quot (Qnum q) (Zpos (Qden q)).

(** [fmt.Sprintf("%v", _)] of a decoded value. *)
Fixpoint sprint (j : json) : string :=
  match j with
  | JNull => "<nil>"
  | JBool b => if b then "true" else "false"
  | JInt z => if Z.abs z <? 10 ^ 21 then pretty z else sprint_float (inject_Z z)
  | JFloat t => sprint_float (float_of t)
  | JStr s => s
  | JArr l => "[" +:+ join " " (sprint <$> l) +:+ "]"
  | JObj fields => "map[" +:+ join " " ((λ kv : string * string, kv.1 +:+ ":" +:+ kv.2) <$>
      merge_sort (λ a b, String.le a.1 b.1) (List.map (λ kv, (kv.1, sprint kv.2)) fields)) +:+ "]"
  end.

Fixpoint leaf_text (v : GoValue) : string :=
  match v with
  | VPtr None => "<nil>"
  | VPtr (Some v) => leaf_text v
  | VWell s | VStr s => s
  | VBool b => if b then "true" else "false"
  | VInt z => pretty z
  | VFloat q => sprint_float q
  | VBytes bs => "[" +:+ join " " ((λ c, pretty (Z.of_N (Ascii.N_of_ascii c))) <$> String.list_ascii_of_string bs) +:+ "]"
  | VIface j => sprint (default JNull j)
  | VStruct l => "{" +:+ join " " (leaf_text <$> l) +:+ "}"
  | VSlice l => "[" +:+ join " " (leaf_text <$> l) +:+ "]"
  | VMap l => "map[" +:+ join " " (List.map (λ kv, kv.1 +:+ ":" +:+ leaf_text kv.2) l) +:+ "]"
  | VOther => ""
  end.
Definition leafValue (rv : option GoValue) : string := match rv with None => "<none>" | Some v => leaf_text v end.

(** ** Probe values *)

(** The probe of a well-known type; [None]: the value does not convert to it
    (types of other packages with one of the names' endings). *)
Definition well_probe (name : string) : option string :=
  if has_suffix name ".Time" then (if decide (name = "v1.Time") then Some probeTime else None)
  else if has_suffix name ".Duration" then (if decide (name = "v1.Duration") then Some "7s" else None)
  else if has_suffix name ".Quantity" then (if decide (name = "resource.Quantity") then Some "7" else None)
  else if has_suffix name ".IntOrString" then (if decide (name = "intstr.IntOrString") then Some "7" else None)
  else if decide (name = "runtime.RawExtension") then Some probe_json
  else None.

(** [None] is a panic. *)
Definition setWellKnown (t : GoType) (rv : option GoValue) : option (option GoValue) :=
  let name := type_string t in
  match rv with
  | None => Some None
  | Some v =>
      if has_suffix name ".JSON" then Some (Some match v with VPtr _ => VPtr (Some (zero_value t)) | _ => v end)
      else match well_probe name with
           | None => None
           | Some text => Some (Some match v with VPtr _ => VPtr (Some (VWell text)) | _ => VWell text end)
           end
  end.

Definition clampInt (def : Z) (c : Constraints) : Z :=
  let def := match cs_Minimum c with Some mn => if def <? Qtrunc (num_value mn) then Qtrunc (num_value mn) else def | None => def end in
  match cs_Maximum c with Some mx => if Qtrunc (num_value mx) <? def then Qtrunc (num_value mx) else def | None => def end.

Definition clampFloat (f : Q) (c : Constraints) : Q :=
  let f := match cs_Minimum c with Some mn => if Qlt_bool f (num_value mn) then num_value mn else f | None => f end in
  match cs_Maximum c with Some mx => if Qlt_bool (num_value mx) f then num_value mx else f | None => f end.

(** The generic text of a path, cut to [maxLength]. *)
Definition text_probe (path : string) (c : Constraints) : string :=
  let s := "probe." +:+ path in
  match cs_MaxLength c with
  | Some ml => let n := Qtrunc (num_value ml) in
               if Qle_bool 1 (num_value ml) && (n <? Z.of_nat (String.length s)) then str_take (Z.to_nat n) s else s
  | None => s
  end.

Definition scalarValue (k : ScalarKind) (c : Constraints) (path : string) : GoValue :=
  match k with
  | KString => VStr match cs_Enum c with Some (JStr e :: _) => e | _ => text_probe path c end
  | KBool => VBool true
  | KInt w => let z := clampInt 7 c in VInt ((z + 2 ^ (w - 1)) mod 2 ^ w - 2 ^ (w - 1))
  | KUint w => VInt (clampInt 7 c mod 2 ^ w)
  | KFloat => VFloat (clampFloat (15 # 2) c)
  | KOther => VOther
  end.

(** A scalar leaf's probe, with the issues its pattern gives. *)
Definition scalar_probe (k : ScalarKind) (c : Constraints) (path : string) : option (GoValue * list Issue) :=
  match cs_Pattern c with
  | None | Some "" => Some (scalarValue k c path, [])
  | Some pattern =>
      match assoc pattern patternProbes with
      | None => Some (scalarValue k c path, [UnknownPattern path pattern; UnknownPattern path pattern])
      | Some pv => match k with KString => Some (VStr pv, []) | _ => None end
      end
  end.

(** ** The forward walk *)

(** The instance after the walk, the leaves and the issues; [None] is a panic. *)
Notation Out := (option (option GoValue * list Leaf * list Issue)).

Definition record (path value : string) : list Leaf := if decide (path = "") then [] else [{| lf_Path := path; lf_Value := value |}].
Definition child_path (path child : string) : string := if decide (path = "") then child else path +:+ "." +:+ child.

Definition is_meta_struct (name : string) : bool :=
  bool_decide (name ∈ ["metav1.ObjectMeta"; "v1.ObjectMeta"; "metav1.TypeMeta"; "v1.TypeMeta"]).
Definition is_meta_field (ft : GoType) : bool :=
  let n := type_string (deref ft) in has_suffix n ".ObjectMeta" || has_suffix n ".TypeMeta".

(** What the walk does with a field. *)
Inductive FieldStep := Skip | Inline | Missing (child : string) | Descend (child : string) (node : Schema).
Definition field_step (props : list (string * option Schema)) (f : GoField) (ft : GoType) : FieldStep :=
  if negb (gf_Exported f) then Skip
  else match jsonName f with
       | None => Skip
       | Some child =>
           if gf_Anonymous f && bool_decide (child = "") then Inline
           else if is_meta_field ft then Skip
           else match assoc child props with Some (Some node) => Descend child node | _ => Missing child end
       end.

(** The fields of a struct, with the values they have; with none where there is
    no struct value, and a field of it cannot be had. *)
Definition walk_fields (walk : GoType → Schema → string → option GoValue → Out) (schema : Schema) (props : list (string * option Schema)) (path : string) :=
  fix go (fs : list (GoField * GoType)) (vs : list GoValue) : option (list GoValue * list Leaf * list Issue) :=
    match fs with
    | [] => Some (vs, [], [])
    | (f, ft) :: fs =>
        let keep (v : list GoValue) (l : list Leaf) (i : list Issue) :=
          match go fs (tail vs) with Some (ws, ls, iss) => Some (v ++ ws, l ++ ls, i ++ iss) | None => None end in
        let descend (schema : Schema) (path : string) :=
          match vs with
          | v :: _ => match walk ft schema path (Some v) with Some (Some w, l, i) => keep [w] l i | _ => None end
          | [] => None
          end in
        match field_step props f ft with
        | Skip => keep (take 1 vs) [] []
        | Inline => descend schema path
        | Missing child => keep (take 1 vs) [] [NotInSchema (child_path path child) child (type_string ft)]
        | Descend child node => descend node (child_path path child)
        end
    end.

(** The entry of the first key. *)
Definition firstMapValue (m : list (string * GoValue)) : option GoValue :=
  match merge_sort (λ a b, String.le a.1 b.1) m with (_, v) :: _ => Some v | [] => None end.

(** Where a map's elements find their schema. *)
Definition elem_schema (schema : Schema) : option Schema :=
  match preserve_key schema with Some _ => Some schema | None => additional schema end.

(** [through]: the pointers of the value are still to be followed. *)
Fixpoint walkType (through : bool) (t : GoType) (schema : Schema) (path : string) (collect : bool) (rv : option GoValue) {struct t} : Out :=
  match t with
  | TPtr e =>
      match rv with
      | Some (VPtr o) =>
          if negb through then walkType false e schema path collect rv
          else if collect then
            match o with
            | None => Some (rv, record path "<nil>", [])
            | Some v => match walkType false e schema path collect (Some v) with Some (_, l, i) => Some (rv, l, i) | None => None end
            end
          else match walkType true e schema path collect (Some (default (zero_value e) o)) with
               | Some (v, l, i) => Some (Some (VPtr v), l, i)
               | None => None
               end
      | _ => walkType through e schema path collect rv
      end
  | _ =>
      if wellKnownLeaf t then
        match (if collect then Some rv else setWellKnown t rv) with
        | Some rv => Some (rv, record path (leafValue rv), [])
        | None => None
        end
      else if is_bytes t then
        let rv := match rv with Some _ => if collect then rv else Some (VBytes probe_json) | None => None end in
        Some (rv, record path (leafValue rv), [])
      else match t with
      | TPtr _ => None
      | TStruct name fields =>
          if is_meta_struct name then Some (rv, [], [])
          else match properties schema with
               | None => Some (rv, [], if preserve schema then [] else [NoProperties path name])
               | Some props =>
                   let run vs := walk_fields (λ ft s p v, walkType true ft s p collect v) schema props path fields vs in
                   match rv with
                   | Some (VStruct vs) => match run vs with Some (vs, l, i) => Some (Some (VStruct vs), l, i) | None => None end
                   | Some _ => None
                   | None => match run [] with Some (_, l, i) => Some (None, l, i) | None => None end
                   end
               end
      | TSlice _ e =>
          match items schema with
          | None => Some (rv, [], [NoItems path (type_string t)])
          | Some node =>
              let p := path +:+ "[]" in
              match rv with
              | None => walkType true e node p collect None
              | Some v =>
                  if collect then
                    match v with
                    | VSlice [] => Some (rv, [], [])
                    | VSlice (x :: _) => match walkType true e node p collect (Some x) with Some (_, l, i) => Some (rv, l, i) | None => None end
                    | _ => None
                    end
                  else match walkType true e node p collect (Some (zero_value e)) with
                       | Some (Some x, l, i) => Some (Some (VSlice [x]), l, i)
                       | _ => None
                       end
              end
          end
      | TArray _ _ e =>
          match items schema with
          | None => Some (rv, [], [NoItems path (type_string t)])
          | Some node => match walkType true e node (path +:+ "[]") collect None with Some (_, l, i) => Some (rv, l, i) | None => None end
          end
      | TMap _ _ string_keys e =>
          match elem_schema schema with
          | None => Some (rv, [], [NoAdditional path (type_string t)])
          | Some node =>
              let p := path +:+ "{}" in
              match rv with
              | None => walkType true e node p collect None
              | Some v =>
                  if negb string_keys then match walkType true e node p collect None with Some (_, l, i) => Some (rv, l, i) | None => None end
                  else if collect then
                    match v with
                    | VMap m => match firstMapValue m with
                                | None => Some (rv, [], [])
                                | Some x => match walkType true e node p collect (Some x) with Some (_, l, i) => Some (rv, l, i) | None => None end
                                end
                    | _ => None
                    end
                  else match walkType true e node p collect (Some (zero_value e)) with
                       | Some (Some x, l, i) => Some (Some (VMap [("probe", x)]), l, i)
                       | _ => None
                       end
              end
          end
      | TIface _ =>
          let rv := match rv with Some _ => if collect then rv else Some (VIface (Some (JObj [("probe", JBool true)]))) | None => None end in
          Some (rv, record path (leafValue rv), [])
      | TScalar _ k =>
          match rv with
          | Some v =>
              if collect then Some (rv, record path (leafValue rv), [])
              else match scalar_probe k (constraints schema) path with
                   | Some (v, i) => Some (Some v, record path (leafValue (Some v)), i)
                   | None => None
                   end
          | None => Some (rv, record path (leafValue rv), [])
          end
      end
  end.

Definition Analyze (root : GoType) (schema : Schema) : Out :=
  walkType true root schema "" false (Some (zero_value (deref root))).
Definition Check (root : GoType) (schema : Schema) : option (list Issue) := snd <$> Analyze root schema.
Definition Collect (root : GoType) (schema : Schema) (dst : GoValue) : option (list Leaf) :=
  (λ o, o.1.2) <$> walkType true root schema "" true (Some dst).

(** ** The reverse walk and the leaves of a schema *)

(** [None] is a panic: an untagged embedded field that is no struct. *)
Definition jsonNames (names : GoType → option (gmap string GoType)) :=
  fix go (fs : list (GoField * GoType)) (acc : gmap string GoType) : option (gmap string GoType) :=
    match fs with
    | [] => Some acc
    | (f, ft) :: fs =>
        if negb (gf_Exported f) then go fs acc
        else match jsonName f with
             | None => go fs acc
             | Some child =>
                 if gf_Anonymous f && bool_decide (child = "") then
                   match names ft with Some m => go fs (m ∪ acc) | None => None end
                 else go fs (<[child := ft]> acc)
             end
    end.
Fixpoint jsonNamesOf (t : GoType) : option (gmap string GoType) :=
  match t with TStruct _ fields => jsonNames jsonNamesOf fields ∅ | _ => None end.

Definition elemTypeOf (t : option GoType) : option GoType :=
  match deref <$> t with Some (TSlice _ e | TArray _ _ e | TMap _ _ _ e) => Some e | _ => None end.

(** The results of the properties, in the order of their names. *)
Definition in_name_order {A} (l : list (string * option (list A))) : option (list A) :=
  @concat A <$> mapM snd (merge_sort (λ a b, String.le a.1 b.1) l).

Fixpoint checkReverse (node : Schema) (t : option GoType) (path : string) {struct node} : option (list Issue) :=
  let below (n : option Schema) (t : option GoType) (path : string) : option (list Issue) :=
    match n with Some n => checkReverse n t path | None => Some [] end in
  match node with
  | Node props items additional preserve _ =>
      if decide (preserve = Some true) then Some []
      else match props with
           | None =>
               match below items (elemTypeOf t) (path +:+ "[]"), below additional (elemTypeOf t) (path +:+ "{}") with
               | Some a, Some b => Some (a ++ b)
               | _, _ => None
               end
           | Some props =>
               match deref <$> t with
               | None => Some []
               | Some t =>
                   if wellKnownLeaf t then Some []
                   else match t with
                   | TStruct _ _ =>
                       match jsonNamesOf t with
                       | None => None
                       | Some names =>
                           in_name_order (List.map (λ kv, (kv.1,
                             if decide (kv.1 = "metadata") then Some []
                             else match names !! kv.1 with
                                  | Some ft => below kv.2 (Some ft) (child_path path kv.1)
                                  | None => if decide ((kv.2 ≫= preserve_key) = Some true) then Some []
                                            else Some [NoGoField (child_path path kv.1) kv.1]
                                  end)) props)
                       end
                   | TMap _ _ _ e =>
                       in_name_order (List.map (λ kv, (kv.1,
                         if decide (kv.1 = "metadata") then Some [] else below kv.2 (Some e) (child_path path kv.1))) props)
                   | _ => Some []
                   end
               end
           end
  end.

Definition CheckReverse (root : GoType) (schema : option Schema) : option (list Issue) :=
  match schema with Some s => checkReverse s (Some (deref root)) "" | None => Some [] end.

Record SchemaLeaf := { sl_Path : string; sl_Value : string; sl_Type : string }.

(** [None] is a panic. *)
Definition childTypeOf (t : option GoType) (prop : string) : option (option GoType) :=
  match deref <$> t with
  | Some (TStruct _ _ as t) => (λ m : gmap string GoType, m !! prop) <$> jsonNamesOf t
  | Some (TMap _ _ _ e | TSlice _ e | TArray _ _ e) => Some (Some e)
  | _ => Some None
  end.

(** The probe of the first of: the enumeration, the default, the pattern, the type. *)
Definition schema_text (c : Constraints) (path : string) : option string :=
  let from_default := match cs_Default c with
                      | Some d => let s := sprint d in if decide (s ∈ [""; "0"; "false"; "<nil>"]) then None else Some s
                      | None => None
                      end in
  let from_pattern := match cs_Pattern c with Some "" | None => None | Some p => assoc p patternProbes end in
  match cs_Enum c with
  | Some (JStr (String _ _ as e) :: _) => Some e
  | _ =>
      match from_default, from_pattern with
      | Some s, _ => Some s
      | None, Some s => Some s
      | None, None =>
          match cs_Type c with
          | Some "boolean" => None
          | Some "integer" | Some "number" =>
              let n := clampFloat 7 c in
              if Qeq_bool n 0 then None
              else if Qeq_bool n (inject_Z (Qtrunc n)) then Some (pretty (Qtrunc n)) else Some (format_float n)
          | Some "string" => let s := text_probe path c in if decide (s = "") then None else Some s
          | _ => Some ("probe." +:+ path)
          end
      end
  end.

(** The outer [None] is a panic. *)
Definition schemaProbe (t : option GoType) (c : Constraints) (path : string) : option (option string) :=
  match deref <$> t with
  | Some t =>
      if wellKnownLeaf t then (λ rv, Some (leafValue rv)) <$> setWellKnown t (Some (zero_value t))
      else match t with TIface _ => Some (Some probe_json) | _ => Some (schema_text c path) end
  | None => Some (schema_text c path)
  end.

Fixpoint schemaLeaves (node : Schema) (t : option GoType) (path : string) {struct node} : option (list SchemaLeaf) :=
  match node with
  | Node props items additional preserve c =>
      if decide (preserve = Some true) then Some []
      else match props with
           | Some props =>
               in_name_order (List.map (λ kv, (kv.1,
                 if decide (kv.1 = "metadata") then Some []
                 else match childTypeOf t kv.1 with
                      | Some ct => match kv.2 with Some n => schemaLeaves n ct (child_path path kv.1) | None => Some [] end
                      | None => None
                      end)) props)
           | None =>
               match items, additional with
               | Some n, _ => schemaLeaves n (elemTypeOf t) (path +:+ "[]")
               | None, Some n => schemaLeaves n (elemTypeOf t) (path +:+ "{}")
               | None, None =>
                   if decide (path = "") then Some []
                   else match schemaProbe t c path with
                        | Some (Some v) => Some [{| sl_Path := path; sl_Value := v; sl_Type := default "" (cs_Type c) |}]
                        | Some None => Some []
                        | None => None
                        end
               end
           end
  end.

Definition SchemaLeaves (root : GoType) (node : option Schema) : option (list SchemaLeaf) :=
  match node with Some n => schemaLeaves n (Some (deref root)) "" | None => Some [] end.
End walk.

(** ** The schema of a chart's file *)

Section load.
Context (read_file : string → result string string) (yaml : string → option json).

Inductive LoadErr := LoadRead (text : string) | LoadParse | NoSchema | NoVersion.

(** A [map[string]interface{}]; nil when it is absent. *)
Definition dec_map : Decoder (option json) := λ j,
  match j with JObj _ => Some (Some j) | JNull => Some None | _ => None end.
Definition dec_version : Decoder (string * option json) :=
  dec_struct (λ fields,
    match field "name" dec_string fields,
          field "schema" (dec_struct (field "openAPIV3Schema" dec_map)) fields with
    | Some n, Some s => Some (n, s)
    | _, _ => None
    end).

Definition LoadSchema (crdDir file : string) : result LoadErr Schema :=
  match read_file (crdDir +:+ file) with
  | Err e => Err (LoadRead e)
  | Ok raw =>
      match yaml raw ≫= dec_struct (field "spec" (dec_struct (field "versions" (dec_list dec_version)))) with
      | None => Err LoadParse
      | Some versions =>
          match List.find (λ v, String.eqb v.1 "v1alpha1") versions with
          | None => Err NoVersion
          | Some (_, s) => match s ≫= (λ j, (view j).1) with Some n => Ok n | None => Err NoSchema end
          end
      end
  end.
End load.

(** ** What a schema keeps and what a type writes *)

(** A step from a JSON value into it: a member, any element, any entry. *)
Inductive Step := SKey (name : string) | SItem | SEntry.








(** The typed decode drops the path: a struct on it has no field of the name. *)
Inductive Drops : GoType → Schema → list Step → Prop :=
| drops_field t name fields m s props prop o p : deref t = TStruct name fields → wellKnownLeaf (deref t) = false →
    jsonNamesOf (deref t) = Some m → preserve s = false → properties s = Some props → prop ≠ "metadata" →
    (prop, o) ∈ props → m !! prop = None → (o ≫= preserve_key) ≠ Some true → Drops t s (SKey prop :: p)
| drops_below t name fields m s props prop node ft p : deref t = TStruct name fields → wellKnownLeaf (deref t) = false →
    jsonNamesOf (deref t) = Some m → preserve s = false → properties s = Some props → prop ≠ "metadata" →
    (prop, Some node) ∈ props → m !! prop = Some ft → Drops ft node p → Drops t s (SKey prop :: p)
| drops_entry_member t name k sk e s props prop node p : deref t = TMap name k sk e → wellKnownLeaf (deref t) = false →
    preserve s = false → properties s = Some props → prop ≠ "metadata" →
    (prop, Some node) ∈ props → Drops e node p → Drops t s (SKey prop :: p)
| drops_item t e s node p : elemTypeOf (Some t) = Some e → preserve s = false → properties s = None → items s = Some node →
    Drops e node p → Drops t s (SItem :: p)
| drops_entry t e s node p : elemTypeOf (Some t) = Some e → preserve s = false → properties s = None → additional s = Some node →
    Drops e node p → Drops t s (SEntry :: p).

(** ** Properties of the forward walk *)

(** Structural induction through the fields of structs. *)
Lemma GoType_nested_ind (P : GoType → Prop) :
  (∀ e, P e → P (TPtr e)) → (∀ n fs, Forall (λ f, P f.2) fs → P (TStruct n fs)) → (∀ n e, P e → P (TSlice n e)) →
  (∀ n k e, P e → P (TArray n k e)) → (∀ n k sk e, P e → P (TMap n k sk e)) → (∀ n, P (TIface n)) → (∀ n k, P (TScalar n k)) →
  ∀ t, P t.
Proof.
  intros Hp Hs Hsl Ha Hm Hi Hsc. fix IH 1. intros [e|n fs|n e|n k e|n k sk e|n|n k]; [by apply Hp|..|done|done].
  - apply Hs. induction fs as [|[f ft] fs IHfs]; constructor; [apply IH|exact IHfs].
  - by apply Hsl.
  - by apply Ha.
  - by apply Hm.
Qed.

(** No pointer to a pointer. *)
Fixpoint single_pointers (t : GoType) : bool :=
  match t with
  | TPtr (TPtr _) => false
  | TPtr e | TSlice _ e | TArray _ _ e | TMap _ _ _ e => single_pointers e
  | TStruct _ fields => forallb (λ f, single_pointers f.2) fields
  | _ => true
  end.

Section walks.
Context (float_of : string → Q) (format_float sprint_float : Q → string).
Notation walkType := (walkType float_of sprint_float).
Notation leafValue := (leafValue float_of sprint_float).

Definition not_ptr (t : GoType) : bool := match t with TPtr _ => false | _ => true end.

Lemma walk_through t s p c rv b : not_ptr t = true → walkType b t s p c rv = walkType true t s p c rv.
Proof. destruct t; [done|..]; intros _; destruct b; reflexivity. Qed.

(** A value there before is there after, and only then. *)
Lemma walk_value t : ∀ b s p c rv rv' l i, walkType b t s p c rv = Some (rv', l, i) → is_Some rv ↔ is_Some rv'.
Proof.
  assert (∀ v w : GoValue, is_Some (Some v) ↔ is_Some (Some w)) as Hs by (split; by intros).
  induction t as [e IH|n fs IH|n e IH|n k e IH|n k sk e IH|n|n k] using GoType_nested_ind; intros b s p c rv rv' l i; cbn [walkType].
  1: { destruct rv as [[o| | | | | | | | | | | ]|]; try by apply IH. destruct b; cbn [negb]; [|by apply IH]. destruct c.
    + destruct o as [v|]; [|by intros [= <- _ _]]. destruct (walkType _ _ _ _ _ _) as [[[? ?] ?]|]; [|done]. by intros [= <- _ _].
    + destruct (walkType _ _ _ _ _ _) as [[[? ?] ?]|]; [|done]. by intros [= <- _ _]. }
  all: unfold setWellKnown; intros H; repeat (case_match; simplify_eq; try done); simplify_eq; try done; try (by eapply IH); try (by split; eauto).
Qed.

(** A generated value is a pointer only where one was. *)
Definition pointer (rv : option GoValue) : bool := match rv with Some (VPtr _) => true | _ => false end.
Lemma walk_pointer t b s p rv rv' l i : not_ptr t = true → pointer rv = false → walkType b t s p false rv = Some (rv', l, i) → pointer rv' = false.
Proof.
  intros Ht Hp. destruct t; [done|..]; cbn [walkType]; unfold setWellKnown; intros H.
  all: repeat (case_match; simplify_eq; try done); simplify_eq; try done.
  all: match goal with H : walkType _ _ _ _ _ None = Some (?rv', _, _) |- _ =>
         apply walk_value in H as [_ H]; destruct rv' as [v|]; [destruct (H ltac:(by eexists)); done|done] | _ => idtac end.
  unfold scalar_probe, scalarValue in *. repeat (case_match; simplify_eq; try done).
Qed.

Lemma walk_fields_cons w s props p f ft fs vs : walk_fields w s props p ((f, ft) :: fs) vs =
  let keep (v : list GoValue) (l : list Leaf) (i : list Issue) :=
    match walk_fields w s props p fs (tail vs) with Some (ws, ls, iss) => Some (v ++ ws, l ++ ls, i ++ iss) | None => None end in
  let descend (s : Schema) (p : string) :=
    match vs with
    | v :: _ => match w ft s p (Some v) with Some (Some x, l, i) => keep [x] l i | _ => None end
    | [] => None
    end in
  match field_step props f ft with
  | Skip => keep (take 1 vs) [] []
  | Inline => descend s p
  | Missing child => keep (take 1 vs) [] [NotInSchema (child_path p child) child (type_string ft)]
  | Descend child node => descend node (child_path p child)
  end.
Proof. reflexivity. Qed.

Lemma walk_fields_none w s props p fs ws l i : walk_fields w s props p fs [] = Some (ws, l, i) → ws = [].
Proof.
  revert ws l i. induction fs as [|[f ft] fs IH]; intros ws l i; [by intros [= <- _ _]|]. rewrite walk_fields_cons. cbv zeta. cbn [tail take].
  destruct (walk_fields w s props p fs []) as [[[ws0 l0] i0]|] eqn:E; destruct (field_step props f ft); try done;
    intros [= <- _ _]; exact (IH _ _ _ eq_refl).
Qed.

Lemma walk_fields_collect s props p fs : Forall (λ f : GoField * GoType, ∀ s p rv rv' l i,
    walkType true f.2 s p false rv = Some (rv', l, i) → ∃ i', walkType true f.2 s p true rv' = Some (rv', l, i')) fs →
  ∀ vs ws l i, walk_fields (λ ft s p v, walkType true ft s p false v) s props p fs vs = Some (ws, l, i) →
  ∃ i', walk_fields (λ ft s p v, walkType true ft s p true v) s props p fs ws = Some (ws, l, i').
Proof.
  induction 1 as [|[f ft] fs Hf _ IH]; intros vs ws l i; [intros [= <- <- _]; by eexists|]. cbn [snd] in Hf.
  rewrite !walk_fields_cons. cbv zeta. destruct (field_step props f ft) as [| |child|child node].
  1,3: destruct (walk_fields _ _ _ _ fs (tail vs)) as [[[ws0 l0] i0]|] eqn:E; [|done]; intros [= <- <- _];
    destruct (IH _ _ _ _ E) as [i' Hi]; destruct vs as [|v vs]; cbn [tail take app] in *;
    [rewrite (walk_fields_none _ _ _ _ _ _ _ _ E) in *|]; rewrite ?take_0; cbn [tail take app]; rewrite Hi; by eexists.
  1,2: destruct vs as [|v vs]; [done|]; destruct (walkType _ _ _ _ false _) as [[[[w|] l1] i1]|] eqn:E1; try done;
    destruct (walk_fields _ _ _ _ fs _) as [[[ws0 l0] i0]|] eqn:E; [|done]; intros [= <- <- _];
    destruct (Hf _ _ _ _ _ _ E1) as [i1' Hw]; destruct (IH _ _ _ _ E) as [i' Hi]; cbn [tail app] in *; rewrite Hw, Hi; by eexists.
Qed.

(** What a walk generates, it collects: the same leaves, and the instance is kept. *)
Lemma walk_collects t : single_pointers t = true → ∀ s p rv rv' l i,
  walkType true t s p false rv = Some (rv', l, i) → ∃ i', walkType true t s p true rv' = Some (rv', l, i').
Proof.
  induction t as [e IH|n fs IH|n e IH|n k e IH|n k sk e IH|n|n k] using GoType_nested_ind; intros Ht s p rv rv' l i.
  - assert (not_ptr e = true ∧ single_pointers e = true) as [He Hse] by (by destruct e). cbn [walkType].
    destruct (pointer rv) eqn:Hp.
    + destruct rv as [[o| | | | | | | | | | | ]|]; try done. cbn [negb].
      destruct (walkType true e s p false _) as [[[v l0] i0]|] eqn:E; [|done]. intros [= <- <- _].
      destruct (proj1 (walk_value _ _ _ _ _ _ _ _ _ E) ltac:(by eexists)) as [w ->].
      destruct (IH Hse _ _ _ _ _ _ E) as [i' Hi]. rewrite walk_through, Hi by done. by eexists.
    + intros H. assert (walkType true e s p false rv = Some (rv', l, i)) as E by (by destruct rv as [[]|]).
      pose proof (walk_pointer _ _ _ _ _ _ _ _ He Hp E) as Hp'. destruct (IH Hse _ _ _ _ _ _ E) as [i' Hi].
      exists i'. by destruct rv' as [[]|].
  - cbn [walkType]. destruct (wellKnownLeaf _); [|destruct (is_bytes _); [|destruct (is_meta_struct n); [by intros [= <- <- _]; eexists|]]].
    + destruct (setWellKnown _ _) as [w|]; [|done]. intros [= <- <- _]. by eexists.
    + destruct rv; intros [= <- <- _]; by eexists.
    + destruct (properties s) as [props|]; [|intros [= <- <- _]; by eexists].
      assert (Forall (λ f : GoField * GoType, ∀ s p rv rv' l i, walkType true f.2 s p false rv = Some (rv', l, i) →
        ∃ i', walkType true f.2 s p true rv' = Some (rv', l, i')) fs) as Hfs.
      { cbn in Ht. apply Forall_forall. intros f Hin. rewrite Forall_forall in IH. apply IH; [done|].
        by apply (proj1 (forallb_forall _ _) Ht f), list_elem_of_In. }
      destruct rv as [[]|]; try done; destruct (walk_fields _ _ _ _ fs _) as [[[ws l0] i0]|] eqn:E; try done; intros [= <- <- _];
        destruct (walk_fields_collect _ _ _ _ Hfs _ _ _ _ E) as [i' Hi]; [by rewrite Hi; eexists|].
      rewrite (walk_fields_none _ _ _ _ _ _ _ _ E) in Hi. rewrite Hi. by eexists.
  - cbn [walkType]. destruct (wellKnownLeaf _); [|destruct (is_bytes _); [|destruct (items s) as [node|]; [|intros [= <- <- _]; by eexists]]].
    + destruct (setWellKnown _ _) as [w|]; [|done]. intros [= <- <- _]. by eexists.
    + destruct rv; intros [= <- <- _]; by eexists.
    + destruct rv as [v|].
      * destruct (walkType true e _ _ false _) as [[[[x|] l0] i0]|] eqn:E; try done. intros [= <- <- _].
        destruct (IH Ht _ _ _ _ _ _ E) as [i' Hi]. rewrite Hi. by eexists.
      * intros E. destruct (IH Ht _ _ _ _ _ _ E) as [i' Hi]. pose proof (walk_value _ _ _ _ _ _ _ _ _ E) as [_ Hv].
        destruct rv' as [v|]; [by destruct (Hv ltac:(by eexists))|by eexists].
  - cbn [walkType]. destruct (wellKnownLeaf _); [|cbn [is_bytes]; destruct (items s) as [node|]; [|intros [= <- <- _]; by eexists]].
    + destruct (setWellKnown _ _) as [w|]; [|done]. intros [= <- <- _]. by eexists.
    + destruct (walkType true e _ _ false _) as [[[x l0] i0]|] eqn:E; [|done]. intros [= <- <- _].
      pose proof (walk_value _ _ _ _ _ _ _ _ _ E) as [_ Hv]. destruct x as [x|]; [by destruct (Hv ltac:(by eexists))|].
      destruct (IH Ht _ _ _ _ _ _ E) as [i' Hi]. rewrite Hi. by eexists.
  - cbn [walkType]. destruct (wellKnownLeaf _); [|cbn [is_bytes]; destruct (elem_schema s) as [node|]; [|intros [= <- <- _]; by eexists]].
    + destruct (setWellKnown _ _) as [w|]; [|done]. intros [= <- <- _]. by eexists.
    + destruct rv as [v|].
      * destruct sk; cbn [negb].
        -- destruct (walkType true e _ _ false _) as [[[[x|] l0] i0]|] eqn:E; try done. intros [= <- <- _].
           destruct (IH Ht _ _ _ _ _ _ E) as [i' Hi]. change (firstMapValue [("probe", x)]) with (Some x). cbv iota beta. rewrite Hi. by eexists.
        -- destruct (walkType true e _ _ false None) as [[[x l0] i0]|] eqn:E; [|done]. intros [= <- <- _].
           pose proof (walk_value _ _ _ _ _ _ _ _ _ E) as [_ Hv]. destruct x as [x|]; [by destruct (Hv ltac:(by eexists))|].
           destruct (IH Ht _ _ _ _ _ _ E) as [i' Hi]. rewrite Hi. by eexists.
      * intros E. destruct (IH Ht _ _ _ _ _ _ E) as [i' Hi]. pose proof (walk_value _ _ _ _ _ _ _ _ _ E) as [_ Hv].
        destruct rv' as [v|]; [by destruct (Hv ltac:(by eexists))|by eexists].
  - cbn [walkType]. destruct (wellKnownLeaf _); [destruct (setWellKnown _ _) as [w|]; [|done]|cbn [is_bytes]; destruct rv];
      intros [= <- <- _]; by eexists.
  - cbn [walkType]. destruct (wellKnownLeaf _); [destruct (setWellKnown _ _) as [w|]; [|done]; intros [= <- <- _]; by eexists|].
    cbn [is_bytes]. destruct rv as [v|]; [destruct (scalar_probe _ _ _ _) as [[? ?]|]; [|done]|]; intros [= <- <- _]; by eexists.
Qed.

(** A probe written and read back whole shows every leaf it was given: what
    the walk collects from the instance it generated is what it recorded while
    generating, for a type without pointers to pointers. *)
Theorem probe_collected root schema probe leaves issues :
  single_pointers root = true → Analyze float_of sprint_float root schema = Some (Some probe, leaves, issues) →
  Collect float_of sprint_float root schema probe = Some leaves.
Proof. intros Hs H. destruct (walk_collects root Hs _ _ _ _ _ _ H) as [i' Hi]. unfold Collect. by rewrite Hi. Qed.






End walks.

(** ** Properties of the reverse walk *)

Lemma Schema_nested_ind (P : Schema → Prop) :
  (∀ props items add pr c, (∀ l, props = Some l → Forall (λ kv : string * option Schema, ∀ n, kv.2 = Some n → P n) l) →
     (∀ n, items = Some n → P n) → (∀ n, add = Some n → P n) → P (Node props items add pr c)) → ∀ s, P s.
Proof.
  intros Hn. fix IH 1. intros [props items add pr c]. apply Hn.
  - destruct props as [l|]; [|intros; discriminate]. intros ? [= <-].
    induction l as [|[k [n|]] l IHl]; constructor; try exact IHl; cbn; [|intros; discriminate]. intros ? [= <-]. apply IH.
  - destruct items as [n|]; [|intros; discriminate]. intros ? [= <-]. apply IH.
  - destruct add as [n|]; [|intros; discriminate]. intros ? [= <-]. apply IH.
Qed.

Lemma mapM_snd_some {A} (l : list (string * option (list A))) r : mapM snd l = Some r → ∀ y, y ∈ concat r ↔ ∃ k xs, (k, Some xs) ∈ l ∧ y ∈ xs.
Proof.
  revert r. induction l as [|[k o] l IH]; intros r; cbn.
  - intros [= <-] y. cbn. split; [by intros ?%elem_of_nil|]. by intros (?&?&?%elem_of_nil&_).
  - destruct o as [xs|]; [|done]. cbn. destruct (mapM snd l) as [r0|] eqn:E; [|done]. cbn. intros [= <-] y. cbn. rewrite elem_of_app, (IH _ eq_refl). split.
    + intros [Hy|(k'&ys&Hin&Hy)]; [exists k, xs; split; [by left|done]|exists k', ys; split; [by right|done]].
    + intros (k'&ys&[[= -> ->]|Hin]%elem_of_cons&Hy); [by left|right; eauto].
Qed.
Lemma in_name_order_elem {A} (l : list (string * option (list A))) r : in_name_order l = Some r → ∀ y, y ∈ r ↔ ∃ k xs, (k, Some xs) ∈ l ∧ y ∈ xs.
Proof.
  unfold in_name_order. destruct (mapM _ _) as [r0|] eqn:E; [|done]. intros [= <-] y. rewrite (mapM_snd_some _ _ E).
  by setoid_rewrite merge_sort_Permutation.
Qed.
Lemma in_name_order_some {A} (l : list (string * option (list A))) r k o : in_name_order l = Some r → (k, o) ∈ l → is_Some o.
Proof.
  unfold in_name_order. destruct (mapM _ _) as [r0|] eqn:E; [|done]. intros _ Hin. apply mapM_Some in E.
  rewrite <- (merge_sort_Permutation (λ a b, String.le a.1 b.1) l) in Hin.
  apply list_elem_of_lookup in Hin as [i Hi]. destruct (Forall2_lookup_l _ _ _ _ _ E Hi) as (y&_&Hy). by exists y.
Qed.

Lemma checkReverse_untyped node : ∀ path, checkReverse node None path = Some [].
Proof.
  induction node as [props items add pr c _ IHi IHa] using Schema_nested_ind. intros path. cbn [checkReverse].
  case_decide; [done|]. destruct props; [done|]. cbn [elemTypeOf fmap option_fmap option_map].
  destruct items as [n|], add as [m|]; rewrite ?IHi, ?IHa by done; done.
Qed.

(** The results at the properties of a struct and of a map. *)
Definition struct_prop (names : gmap string GoType) (path : string) (kv : string * option Schema) : string * option (list Issue) :=
  (kv.1, if decide (kv.1 = "metadata") then Some []
         else match names !! kv.1 with
              | Some ft => match kv.2 with Some n => checkReverse n (Some ft) (child_path path kv.1) | None => Some [] end
              | None => if decide ((kv.2 ≫= preserve_key) = Some true) then Some [] else Some [NoGoField (child_path path kv.1) kv.1]
              end).
Definition map_prop (e : GoType) (path : string) (kv : string * option Schema) : string * option (list Issue) :=
  (kv.1, if decide (kv.1 = "metadata") then Some []
         else match kv.2 with Some n => checkReverse n (Some e) (child_path path kv.1) | None => Some [] end).

Lemma checkReverse_struct t name fields m props items add pr c path : deref t = TStruct name fields → wellKnownLeaf (deref t) = false →
  jsonNamesOf (deref t) = Some m → pr ≠ Some true →
  checkReverse (Node (Some props) items add pr c) (Some t) path = in_name_order (List.map (struct_prop m path) props).
Proof. intros Ht Hw Hm Hp. cbn [checkReverse]. rewrite decide_False by done. cbn [fmap option_fmap option_map]. rewrite Hw. rewrite Ht in *. by rewrite Hm. Qed.
Lemma checkReverse_map t name k sk e props items add pr c path : deref t = TMap name k sk e → wellKnownLeaf (deref t) = false → pr ≠ Some true →
  checkReverse (Node (Some props) items add pr c) (Some t) path = in_name_order (List.map (map_prop e path) props).
Proof. intros Ht Hw Hp. cbn [checkReverse]. rewrite decide_False by done. cbn [fmap option_fmap option_map]. rewrite Hw. by rewrite Ht. Qed.
Lemma checkReverse_elems t items add pr c path : pr ≠ Some true → checkReverse (Node None items add pr c) t path =
  match (match items with Some n => checkReverse n (elemTypeOf t) (path +:+ "[]") | None => Some [] end),
        (match add with Some n => checkReverse n (elemTypeOf t) (path +:+ "{}") | None => Some [] end) with
  | Some a, Some b => Some (a ++ b) | _, _ => None end.
Proof. intros Hp. cbn [checkReverse]. by rewrite decide_False. Qed.

Lemma not_preserve s : preserve s = false ↔ preserve_key s ≠ Some true.
Proof. unfold preserve. destruct (preserve_key s) as [[]|]; naive_solver. Qed.

(** A path that is dropped is reported. *)
Lemma drops_reported t s p : Drops t s p → ∀ path l, checkReverse s (Some t) path = Some l → l ≠ [].
Proof.
  induction 1 as [t name fields m s props prop o p Ht Hw Hm Hs Hp Hne Hin Hl Hn
    |t name fields m s props prop node ft p Ht Hw Hm Hs Hp Hne Hin Hl _ IH
    |t name k sk e s props prop node p Ht Hw Hs Hp Hne Hin _ IH
    |t e s node p He Hs Hp Hi _ IH|t e s node p He Hs Hp Ha _ IH]; intros path l; destruct s as [pr it ad ps c];
    apply not_preserve in Hs; cbn [properties preserve_key items additional] in *; subst.
  - rewrite (checkReverse_struct t name fields m) by done. intros H.
    assert (NoGoField (child_path path prop) prop ∈ l) as Hy; [|by intros ->; apply elem_of_nil in Hy].
    apply (in_name_order_elem _ _ H). exists prop, [NoGoField (child_path path prop) prop]. split; [|by left].
    apply list_elem_of_fmap. exists (prop, o). split; [|done]. unfold struct_prop. cbn. by rewrite decide_False, Hl, decide_False.
  - rewrite (checkReverse_struct t name fields m) by done. intros H.
    assert ((prop, checkReverse node (Some ft) (child_path path prop)) ∈ List.map (struct_prop m path) props) as Hy.
    { apply list_elem_of_fmap. exists (prop, Some node). split; [|done]. unfold struct_prop. cbn. by rewrite decide_False, Hl. }
    destruct (in_name_order_some _ _ _ _ H Hy) as [xs Hxs]. destruct xs as [|x xs]; [by destruct (IH _ _ Hxs)|].
    assert (x ∈ l) as Hx by (apply (in_name_order_elem _ _ H); exists prop, (x :: xs); rewrite <- Hxs; split; [done|by left]).
    intros ->. by apply elem_of_nil in Hx.
  - rewrite (checkReverse_map t name k sk e) by done. intros H.
    assert ((prop, checkReverse node (Some e) (child_path path prop)) ∈ List.map (map_prop e path) props) as Hy.
    { apply list_elem_of_fmap. exists (prop, Some node). split; [|done]. unfold map_prop. cbn. by rewrite decide_False. }
    destruct (in_name_order_some _ _ _ _ H Hy) as [xs Hxs]. destruct xs as [|x xs]; [by destruct (IH _ _ Hxs)|].
    assert (x ∈ l) as Hx by (apply (in_name_order_elem _ _ H); exists prop, (x :: xs); rewrite <- Hxs; split; [done|by left]).
    intros ->. by apply elem_of_nil in Hx.
  - rewrite checkReverse_elems, He by done. destruct (checkReverse node _ _) as [a|] eqn:E; [|done].
    destruct (match ad with Some _ => _ | None => _ end) as [b|]; [|done]. intros [= <-] [-> _]%app_nil. by destruct (IH _ _ E).
  - rewrite checkReverse_elems, He by done. destruct (checkReverse node _ _) as [b|] eqn:E.
    + destruct (match it with Some _ => _ | None => _ end) as [a|]; [|done]. intros [= <-] [_ ->]%app_nil. by destruct (IH _ _ E).
    + by destruct (match it with Some _ => _ | None => _ end).
Qed.


(** A report names a path that is dropped. *)
Lemma reported_drops s : ∀ t path l y, checkReverse s (Some t) path = Some l → y ∈ l → ∃ p, Drops t s p.
Proof.
  induction s as [props items add pr c IHp IHi IHa] using Schema_nested_ind. intros t path l y H Hy.
  destruct (decide (pr = Some true)) as [->|Hpr]; [cbn in H; injection H as <-; by apply elem_of_nil in Hy|].
  pose proof (proj2 (not_preserve (Node props items add pr c)) Hpr) as Hps.
  destruct props as [props|].
  - destruct (wellKnownLeaf (deref t)) eqn:Hw.
    { cbn in H. rewrite decide_False, Hw in H by done. injection H as <-. by apply elem_of_nil in Hy. }
    destruct (deref t) as [|name fields| | |name k sk e| |] eqn:Ht;
      try (cbn in H; rewrite decide_False, ?Hw, Ht in H by done; rewrite ?Hw in H; injection H as <-; by apply elem_of_nil in Hy).
    + destruct (jsonNamesOf (deref t)) as [m|] eqn:Hm.
      2:{ cbn in H. rewrite decide_False, Ht, Hw, <- Ht, Hm in H by done. done. }
      rewrite (checkReverse_struct t name fields m) in H by (done || by rewrite Ht). apply (in_name_order_elem _ _ H) in Hy as (k&xs&Hin&Hy).
      apply list_elem_of_fmap in Hin as ([prop o]&E&Hin). unfold struct_prop in E. cbn in E. injection E as -> E.
      destruct (decide (prop = "metadata")); [injection E as ->; by apply elem_of_nil in Hy|].
      destruct (m !! prop) as [ft|] eqn:Hl.
      * destruct o as [node|]; [|injection E as ->; by apply elem_of_nil in Hy]. symmetry in E.
        pose proof (IHp _ eq_refl) as Hall. rewrite Forall_forall in Hall. destruct (Hall _ Hin node eq_refl _ _ _ _ E Hy) as [p Hp].
        exists (SKey prop :: p). eapply drops_below; try done. by rewrite Ht.
      * case_decide as Hpn; [injection E as ->; by apply elem_of_nil in Hy|].
        exists [SKey prop]. eapply drops_field; try done. by rewrite Ht.
    + rewrite (checkReverse_map t name k sk e) in H by (done || by rewrite Ht). apply (in_name_order_elem _ _ H) in Hy as (k'&xs&Hin&Hy).
      apply list_elem_of_fmap in Hin as ([prop o]&E&Hin). unfold map_prop in E. cbn in E. injection E as -> E.
      destruct (decide (prop = "metadata")); [injection E as ->; by apply elem_of_nil in Hy|].
      destruct o as [node|]; [|injection E as ->; by apply elem_of_nil in Hy]. symmetry in E.
      pose proof (IHp _ eq_refl) as Hall. rewrite Forall_forall in Hall. destruct (Hall _ Hin node eq_refl _ _ _ _ E Hy) as [p Hp].
      exists (SKey prop :: p). eapply drops_entry_member; try done. by rewrite Ht.
  - rewrite checkReverse_elems in H by done.
    destruct (elemTypeOf (Some t)) as [e|] eqn:He.
    2:{ destruct items as [n|], add as [m|]; rewrite ?checkReverse_untyped in H; injection H as <-; by apply elem_of_nil in Hy. }
    destruct (match items with Some _ => _ | None => _ end) as [a|] eqn:Ea; [|done].
    destruct (match add with Some _ => _ | None => _ end) as [b|] eqn:Eb; [|done]. injection H as <-. apply elem_of_app in Hy as [Hy|Hy].
    + destruct items as [n|]; [|injection Ea as <-; by apply elem_of_nil in Hy]. destruct (IHi _ eq_refl _ _ _ _ Ea Hy) as [p Hp].
      exists (SItem :: p). by eapply drops_item.
    + destruct add as [n|]; [|injection Eb as <-; by apply elem_of_nil in Hy]. destruct (IHa _ eq_refl _ _ _ _ Eb Hy) as [p Hp].
      exists (SEntry :: p). by eapply drops_entry.
Qed.

(** The reverse check is exact: it reports nothing just when the typed decode
    drops no path that the schema declares. *)
Theorem reverse_check_exact root schema issues :
  CheckReverse root (Some schema) = Some issues → issues = [] ↔ ∀ p, ¬ Drops (deref root) schema p.
Proof.
  intros H. split.
  - intros -> p Hp. by destruct (drops_reported _ _ _ Hp _ _ H).
  - intros Hd. destruct issues as [|y l]; [done|]. destruct (reported_drops _ _ _ _ y H ltac:(by left)) as [p Hp]. by destruct (Hd p).
Qed.

(** ** A type and its schema *)

Module Sample.

Definition tagged (name tag : string) : GoField := {| gf_Name := name; gf_Exported := true; gf_Anonymous := false; gf_Tag := tag |}.
Definition str : GoType := TScalar "string" KString.

Definition window : GoType :=
  TStruct "v1alpha1.Window" [(tagged "Start" "start", str); (tagged "Until" "until,omitempty", TPtr (TStruct "v1.Time" []))].
Definition spec : GoType :=
  TStruct "v1alpha1.Spec" [(tagged "Meta" "metadata", TStruct "v1.ObjectMeta" []); (tagged "Mode" "mode", str);
    (tagged "Max" "max,omitempty", TScalar "int32" (KInt 32)); (tagged "Windows" "windows", TSlice "" window);
    (tagged "Extra" "extra", TMap "" "string" true str)].

Definition text : json := JObj [("type", JStr "string")].
Definition window_schema : json :=
  JObj [("properties", JObj [("start", JObj [("pattern", JStr "^([01]\d|2[0-3]):[0-5]\d$"); ("type", JStr "string")]); ("until", text)])].
Definition schema_json : json :=
  JObj [("properties", JObj [("mode", JObj [("enum", JArr [JStr "fast"; JStr "slow"]); ("type", JStr "string")]);
          ("max", JObj [("maximum", JInt 5); ("type", JStr "integer")]); ("windows", JObj [("items", window_schema)]);
          ("extra", JObj [("additionalProperties", text)])])].
Definition schema : Schema := default (Node None None None None (Build_Constraints None None None None None None None)) (view schema_json).1.

Definition no_float (_ : string) : Q := 0.
Definition no_text (_ : Q) : string := "".
Definition leaves : list Leaf :=
  (λ pv, {| lf_Path := pv.1; lf_Value := pv.2 |}) <$>
  [("mode", "fast"); ("max", "5"); ("windows[].start", "16:00"); ("windows[].until", "2023-11-14T22:13:20Z"); ("extra{}", "probe.extra{}")].

(** A struct with one field. *)
Definition one (f : GoField) (t : GoType) : GoType := TStruct "v1alpha1.One" [(f, t)].
Definition schema_of (fields : list (string * json)) : Schema :=
  default (Node None None None None (Build_Constraints None None None None None None None)) (view (JObj [("properties", JObj fields)])).1.
End Sample.

Example sample_walk :
  (λ o, (o.1.2, o.2)) <$> Analyze Sample.no_float Sample.no_text Sample.spec Sample.schema = Some (Sample.leaves, []).
Proof. vm_compute. reflexivity. Qed.

Lemma probe_collected_witness :
  match Analyze Sample.no_float Sample.no_text Sample.spec Sample.schema with
  | Some (Some probe, leaves, _) => Collect Sample.no_float Sample.no_text Sample.spec Sample.schema probe = Some leaves
  | _ => False
  end.
Proof.
  destruct (Analyze _ _ _ _) as [[[[probe|] leaves] issues]|] eqn:E; [|vm_compute in E; discriminate E..].
  exact (probe_collected Sample.no_float Sample.no_text Sample.spec Sample.schema probe leaves issues eq_refl E).
Defined.


Lemma reverse_check_exact_witness : ∀ p, ¬ Drops Sample.spec Sample.schema p.
Proof. apply (reverse_check_exact Sample.spec Sample.schema []); [vm_compute; reflexivity|reflexivity]. Defined.

(** ** Where the checks do not look *)

(** A scalar field under an object schema: neither direction reports it. *)
Lemma shape_mismatch_unreported :
  let t := Sample.one (Sample.tagged "Cfg" "cfg") Sample.str in
  let s := Sample.schema_of [("cfg", JObj [("properties", JObj [("a", Sample.text)])])] in
  Check Sample.no_float Sample.no_text t s = Some [] ∧ CheckReverse t (Some s) = Some [].
Proof. vm_compute. by split. Qed.

(** An exported field without a tag is written by [encoding/json] and looked at by neither. *)
Lemma untagged_field_unreported :
  let t := Sample.one (Sample.tagged "Cfg" "") Sample.str in
  Check Sample.no_float Sample.no_text t (Sample.schema_of []) = Some [] ∧ CheckReverse t (Some (Sample.schema_of [])) = Some [].
Proof. vm_compute. by split. Qed.

(** With an empty first value of an enumeration the leaf's probe is none of its values. *)
Lemma empty_first_value_unlawful :
  let s := Sample.schema_of [("mode", JObj [("enum", JArr [JStr ""; JStr "fast"]); ("type", JStr "string")])] in
  SchemaLeaves Sample.no_float Sample.no_text Sample.no_text (Sample.one (Sample.tagged "Mode" "mode") Sample.str) (Some s)
  = Some [{| sl_Path := "mode"; sl_Value := "probe.mode"; sl_Type := "string" |}].
Proof. vm_compute. reflexivity. Qed.

(** An [apiextensions] JSON leaf is probed with its zero value: a server that
    prunes it gives back the same leaf. *)
Lemma json_leaf_unprobed :
  let t := Sample.one (Sample.tagged "Raw" "raw") (TStruct "v1.JSON" []) in
  let s := Sample.schema_of [("raw", Sample.text)] in
  (λ o, (o.1.1, o.1.2)) <$> Analyze Sample.no_float Sample.no_text t s =
    (λ ls, (Some (zero_value t), ls)) <$> Collect Sample.no_float Sample.no_text t s (zero_value t).
Proof. vm_compute. reflexivity. Qed.

(** A list of times has the ending of a time's name and is set as one. *)
Lemma list_of_times_panics :
  let t := Sample.one (Sample.tagged "At" "at") (TSlice "" (TStruct "v1.Time" [])) in
  Analyze Sample.no_float Sample.no_text t (Sample.schema_of [("at", JObj [("items", Sample.text)])]) = None.
Proof. vm_compute. reflexivity. Qed.

(** An unregistered pattern is reported twice. *)
Lemma pattern_reported_twice :
  Check Sample.no_float Sample.no_text (Sample.one (Sample.tagged "Id" "id") Sample.str)
    (Sample.schema_of [("id", JObj [("pattern", JStr "^x$"); ("type", JStr "string")])])
  = Some [UnknownPattern "id" "^x$"; UnknownPattern "id" "^x$"].
Proof. vm_compute. reflexivity. Qed.
