(* ===== verification/UiGraph.v ===== *)
(** * The graphs of the console ([internal/ui/topology.go], [run_graph.go])

    The layout engine that the run graph and the topology share: nodes in columns
    by their longest path from a source, in rows by ID; then the state painted on
    each node and the node that pulses. The identity cards are left out. *)

From S2P Require Import Prelude GoStrings GoPath GoTime Api.

Definition graphNodeW : Z := 224.
Definition graphNodeH : Z := 92.
Definition graphColGap : Z := 56.
Definition graphRowGap : Z := 20.
Definition graphMargin : Z := 12.
Definition graphLabelLimit : nat := 22.
Definition triggerNodeID : string := "trigger".

(** ** The layout engine *)

(** The largest of a list of naturals, at least zero. *)
Definition max_list_Z (l : list Z) : Z := foldr Z.max 0 l.

Definition node_le (a b : NodeSpec) : Prop := String.le (nd_ID a) (nd_ID b).
#[global] Instance node_le_dec a b : Decision (node_le a b) := ltac:(unfold node_le; apply _).

(** [sort.Slice] by ID. *)
Definition sorted_nodes (nodes : list NodeSpec) : list NodeSpec := merge_sort node_le nodes.
Definition sortedIDs (nodes : list NodeSpec) : list string := nd_ID <$> nodes.

Definition edge_key (e : EdgeSpec) : string := ed_From e +:+ "→" +:+ ed_To e.

(** The edges between nodes that are there. *)
Definition known_edges (nodes : list NodeSpec) (edges : list EdgeSpec) : list EdgeSpec :=
  filter (λ e, ed_From e ∈ sortedIDs nodes ∧ ed_To e ∈ sortedIDs nodes) edges.
Definition preds (edges : list EdgeSpec) (id : string) : list string := ed_From <$> filter (λ e, ed_To e = id) edges.

(** The memo of depths, with the guard of cycles; the fuel is more than the nodes. *)
Fixpoint depth_from (fuel : nat) (preds : string → list string) (id : string) (depths : gmap string Z) : Z * gmap string Z :=
  match depths !! id with
  | Some d => (d, depths)
  | None =>
      match fuel with
      | O => (0, depths)
      | S fuel =>
          let step (st : Z * gmap string Z) (p : string) :=
            let '(pd, m) := depth_from fuel preds p st.2 in
            (if st.1 <? pd + 1 then pd + 1 else st.1, m) in
          let '(d, m) := foldl step (0, <[id := 0]> depths) (preds id) in
          (d, <[id := d]> m)
      end
  end.

Definition all_depths (nodes : list NodeSpec) (edges : list EdgeSpec) : gmap string Z :=
  foldl (λ m n, (depth_from (S (length nodes)) (preds (known_edges nodes edges)) (nd_ID n) m).2) ∅ nodes.
Definition depth_of (depths : gmap string Z) (id : string) : Z := default 0 (depths !! id).

Record graphGeometry := {
  geo_pos : gmap string (Z * Z);
  geo_edgeOf : gmap string string;
  geo_order : list string;
  geo_columns : list (list string);
  geo_width : Z;
  geo_height : Z;
}.

Definition column (nodes : list NodeSpec) (depths : gmap string Z) (c : nat) : list string :=
  filter (λ id, depth_of depths id = Z.of_nat c) (sortedIDs nodes).

Definition positions (columns : list (list string)) : list (string * (Z * Z)) :=
  concat (imap (λ c col, imap (λ r id, (id, (Z.of_nat c, Z.of_nat r))) col) columns).

(** The later entry of an ID wins. *)
Definition pos_map (columns : list (list string)) : gmap string (Z * Z) := list_to_map (reverse (positions columns)).

Definition node_x (pos : Z * Z) : Z := graphMargin + pos.1 * (graphNodeW + graphColGap).
Definition node_y (pos : Z * Z) : Z := graphMargin + pos.2 * (graphNodeH + graphRowGap).

Definition edge_path (pos : gmap string (Z * Z)) (e : EdgeSpec) : string :=
  let at_ id := default (0, 0) (pos !! id) in
  let x1 := node_x (at_ (ed_From e)) + graphNodeW in
  let y1 := node_y (at_ (ed_From e)) + Z.quot graphNodeH 2 in
  let x2 := node_x (at_ (ed_To e)) in
  let y2 := node_y (at_ (ed_To e)) + Z.quot graphNodeH 2 in
  let mid := Z.quot (x1 + x2) 2 in
  "M " +:+ pretty x1 +:+ " " +:+ pretty y1 +:+ " C " +:+ pretty mid +:+ " " +:+ pretty y1 +:+ ", "
  +:+ pretty mid +:+ " " +:+ pretty y2 +:+ ", " +:+ pretty x2 +:+ " " +:+ pretty y2.

Definition layoutGraphGeometry (nodes : list NodeSpec) (rawEdges : list EdgeSpec) : graphGeometry :=
  let sorted := sorted_nodes nodes in
  let edges := known_edges sorted rawEdges in
  let depths := all_depths sorted rawEdges in
  let maxDepth := max_list_Z (depth_of depths <$> sortedIDs sorted) in
  let columns := column sorted depths <$> seq 0 (S (Z.to_nat maxDepth)) in
  let pos := pos_map columns in
  let rows := max_list_Z ((λ col : list string, Z.of_nat (length col)) <$> columns) in
  {| geo_pos := pos;
     geo_edgeOf := list_to_map (reverse ((λ e, (edge_key e, edge_path pos e)) <$> edges));
     geo_order := sortedIDs sorted;
     geo_columns := columns;
     geo_width := graphMargin * 2 + (maxDepth + 1) * graphNodeW + maxDepth * graphColGap;
     geo_height := graphMargin * 2 + rows * graphNodeH + (rows - 1) * graphRowGap |}.

(** ** Depths are longest paths *)

Lemma max_list_snoc l x : max_list_Z (l ++ [x]) = Z.max (max_list_Z l) x ∨ x < 0 ∧ max_list_Z (l ++ [x]) = max_list_Z l.
Proof. induction l as [|y l IH]; cbn; [lia|]. unfold max_list_Z in *. lia. Qed.
Lemma max_list_nonneg l : 0 ≤ max_list_Z l.
Proof. induction l; cbn; unfold max_list_Z in *; lia. Qed.
Lemma max_list_ge l x : x ∈ l → x ≤ max_list_Z l.
Proof. induction 1 as [l|x y l _ IH]; cbn; unfold max_list_Z in *; lia. Qed.
Lemma max_list_in l : max_list_Z l = 0 ∨ max_list_Z l ∈ l.
Proof.
  induction l as [|x l IH]; [by left|]. cbn. fold (max_list_Z l). destruct (Z.max_spec x (max_list_Z l)) as [[? ->]|[? ->]]; [|right; by left].
  destruct IH as [->|?]; [by left|right; by right].
Qed.

Section depths.
Context (P : string → list string) (ids : list string) (rank : string → nat).
Context (Hrank : ∀ id p, p ∈ P id → (rank p < rank id)%nat) (Hids : ∀ id p, p ∈ P id → p ∈ ids).

(** One more than the deepest of a list of nodes. *)
Definition above (m : gmap string Z) (l : list string) : Z := max_list_Z ((λ p, depth_of m p + 1) <$> l).

(** The depths that are known, but for those still open, are final. *)
Definition settled (O : list string) (m : gmap string Z) : Prop := ∀ x d, m !! x = Some d → x ∉ O →
  d = above m (P x) ∧ 0 ≤ d ∧ ∀ p, p ∈ P x → is_Some (m !! p) ∧ p ∉ O.
Definition missing (m : gmap string Z) : list string := filter (λ x, m !! x = None) ids.

Lemma above_same m m' l : (∀ p, p ∈ l → m !! p = m' !! p) → above m l = above m' l.
Proof. intros H. unfold above. f_equal. apply list_fmap_ext. intros i p Hp. unfold depth_of. by rewrite H by by eapply list_elem_of_lookup_2. Qed.

Lemma missing_grows m m' : m ⊆ m' → (length (missing m') ≤ length (missing m))%nat.
Proof.
  intros Hsub. unfold missing. clear Hids. induction ids as [|x l IH]; [done|]. rewrite !filter_cons.
  destruct (decide (m' !! x = None)) as [H'|H'], (decide (m !! x = None)) as [H|H]; cbn; try lia.
  exfalso. apply H. by eapply lookup_weaken_None.
Qed.

Lemma missing_insert m id d : id ∈ ids → m !! id = None → (length (missing (<[id := d]> m)) < length (missing m))%nat.
Proof.
  intros Hin Hn. unfold missing. clear Hids.
  assert (∀ y, <[id := d]> m !! y = None ↔ m !! y = None ∧ y ≠ id) as Hy by (intros y; rewrite lookup_insert_None; naive_solver).
  assert (∀ l, (length (filter (λ y, <[id := d]> m !! y = None) l) ≤ length (filter (λ y, m !! y = None) l))%nat) as Hle.
  { induction l as [|y l IH]; [done|]. rewrite !filter_cons.
    destruct (decide (<[id := d]> m !! y = None)) as [H|H], (decide (m !! y = None)) as [H'|H']; cbn; try lia. by apply Hy in H as [? _]. }
  induction Hin as [x l|x y l Hin IH]; rewrite !filter_cons.
  - destruct (decide (<[x := d]> m !! x = None)) as [H|_]; [by apply Hy in H as [_ ?]|].
    destruct (decide (m !! x = None)) as [_|]; [|done]. specialize (Hle l). cbn. lia.
  - specialize (IH Hn Hy Hle). destruct (decide (<[x := d]> m !! y = None)) as [H|H], (decide (m !! y = None)) as [H'|H']; cbn; try lia. by apply Hy in H as [? _].
Qed.

Lemma settled_open O m id : settled O m → m !! id = None → settled (id :: O) (<[id := 0]> m).
Proof.
  intros Hs Hn x d Hx [Hne HO]%not_elem_of_cons. rewrite lookup_insert_ne in Hx by done. destruct (Hs x d Hx HO) as (Hd&H0&Hp).
  assert (∀ p, p ∈ P x → p ≠ id) as Hpi by (intros p Hin ->; destruct (Hp id Hin) as [[? ?] _]; congruence).
  split_and!; [|done|].
  - rewrite Hd. apply above_same. intros p Hin. rewrite lookup_insert_ne; [done|]. symmetry. by apply Hpi.
  - intros p Hin. destruct (Hp p Hin) as [? ?]. rewrite lookup_insert_ne by (symmetry; by apply Hpi). split; [done|]. apply not_elem_of_cons. by split; [apply Hpi|].
Qed.

Lemma settled_close O m id d : settled (id :: O) m → d = above m (P id) → (∀ p, p ∈ P id → is_Some (m !! p) ∧ p ∉ id :: O) →
  settled O (<[id := d]> m).
Proof.
  intros Hs Hd Hp x dx Hx HO.
  assert (∀ l, (∀ p, p ∈ l → p ∉ id :: O) → above m l = above (<[id := d]> m) l) as Hab.
  { intros l Hl. apply above_same. intros p Hin. apply Hl, not_elem_of_cons in Hin as [? _]. by rewrite lookup_insert_ne. }
  assert (∀ y, (∀ p, p ∈ P y → is_Some (m !! p) ∧ p ∉ id :: O) → ∀ p, p ∈ P y → is_Some (<[id := d]> m !! p) ∧ p ∉ O) as Hkeep.
  { intros y Hy p Hin. destruct (Hy p Hin) as [? [? ?]%not_elem_of_cons]. by rewrite lookup_insert_ne. }
  destruct (decide (x = id)) as [->|Hne].
  - rewrite lookup_insert_eq in Hx. injection Hx as <-. split_and!; [|rewrite Hd; apply max_list_nonneg|by apply Hkeep].
    etrans; [exact Hd|]. apply Hab. intros p Hin. by apply Hp.
  - rewrite lookup_insert_ne in Hx by done. destruct (Hs x dx Hx) as (->&H0&Hpx); [by apply not_elem_of_cons|].
    split_and!; [|done|by apply Hkeep]. apply Hab. intros p Hin. by apply Hpx.
Qed.

Lemma depth_from_spec fuel : ∀ id m O, id ∈ ids → settled O m → (∀ o, o ∈ O → (rank id < rank o)%nat) → (length (missing m) < fuel)%nat →
  let '(d, m') := depth_from fuel P id m in m ⊆ m' ∧ settled O m' ∧ m' !! id = Some d.
Proof.
  induction fuel as [|fuel IH]; intros id m O Hid Hs HO Hf; [lia|]. cbn [depth_from]. destruct (m !! id) as [d|] eqn:Hm; [done|].
  set (m0 := <[id := 0]> m). set (step := λ (st : Z * gmap string Z) (p : string), _).
  assert (∀ l l0 d mm, l0 ++ l = P id → m0 ⊆ mm → settled (id :: O) mm → d = above mm l0 → (∀ p, p ∈ l0 → is_Some (mm !! p)) →
    let '(d', mm') := foldl step (d, mm) l in m0 ⊆ mm' ∧ settled (id :: O) mm' ∧ d' = above mm' (P id) ∧ ∀ p, p ∈ P id → is_Some (mm' !! p)) as Hfold.
  { induction l as [|p l IHl]; intros l0 d mm Hl Hsub Hset Hd Hl0; cbn [foldl].
    { rewrite app_nil_r in Hl. by subst l0. }
    assert (p ∈ P id) as Hp by (rewrite <- Hl; apply elem_of_app; right; by left).
    specialize (IH p mm (id :: O) (Hids id p Hp) Hset). unfold step at 2. cbn [fst snd].
    destruct (depth_from fuel P p mm) as [pd mm'].
    destruct IH as (Hsub'&Hset'&Hpd).
    { pose proof (Hrank id p Hp). intros o [->|Ho]%elem_of_cons; [done|]. specialize (HO o Ho). lia. }
    { pose proof (missing_grows _ _ Hsub). pose proof (missing_insert m id 0 Hid Hm). subst m0. lia. }
    apply (IHl (l0 ++ [p])); [by rewrite <- app_assoc|by etrans|done| |].
    - unfold above. rewrite fmap_app. cbn. assert (above mm l0 = above mm' l0) as E.
      { apply above_same. intros q Hq. destruct (Hl0 q Hq) as [v Hv]. rewrite Hv. symmetry. by eapply lookup_weaken. }
      unfold above in E. subst d. unfold above. rewrite E. assert (depth_of mm' p = pd) as -> by (unfold depth_of; by rewrite Hpd).
      destruct (Hset' p pd Hpd) as (_&H0&_).
      { pose proof (Hrank id p Hp). intros [->|Ho]%elem_of_cons; [lia|]. specialize (HO p Ho). lia. }
      pose proof (max_list_nonneg ((λ p0 : string, depth_of mm' p0 + 1) <$> l0)) as Hnn.
      destruct (max_list_snoc ((λ p0 : string, depth_of mm' p0 + 1) <$> l0) (pd + 1)) as [->|[? ?]]; [|lia].
      destruct (Z.ltb_spec (max_list_Z ((λ p0 : string, depth_of mm' p0 + 1) <$> l0)) (pd + 1)); lia.
    - intros q [Hq| ->%list_elem_of_singleton]%elem_of_app; [|by eexists]. destruct (Hl0 q Hq) as [v Hv]. exists v. by eapply lookup_weaken. }
  specialize (Hfold (P id) [] 0 m0 eq_refl ltac:(done) (settled_open O m id Hs Hm) eq_refl ltac:(by intros p ?%elem_of_nil)).
  destruct (foldl step (0, m0) (P id)) as [d mm]. destruct Hfold as (Hsub&Hset&Hd&Hp). split_and!; [| |apply lookup_insert_eq].
  - apply map_subseteq_spec. intros x v Hx. destruct (decide (x = id)) as [->|Hne]; [congruence|]. rewrite lookup_insert_ne by done.
    eapply lookup_weaken; [|exact Hsub]. subst m0. by rewrite lookup_insert_ne.
  - apply settled_close; [done|done|]. intros p Hin. split; [by apply Hp|]. pose proof (Hrank id p Hin).
    intros [->|Ho]%elem_of_cons; [lia|]. specialize (HO p Ho). lia.
Qed.
End depths.

(** ** The layout *)

(** No edge between the nodes lies on a cycle. *)
Definition acyclic (nodes : list NodeSpec) (edges : list EdgeSpec) : Prop :=
  ∃ rank : string → nat, ∀ e, e ∈ known_edges nodes edges → (rank (ed_From e) < rank (ed_To e))%nat.

Lemma preds_elem edges id p : p ∈ preds edges id ↔ ∃ e, e ∈ edges ∧ ed_From e = p ∧ ed_To e = id.
Proof.
  unfold preds. rewrite list_elem_of_fmap. setoid_rewrite list_elem_of_filter. naive_solver.
Qed.
Lemma known_edges_elem nodes edges e : e ∈ known_edges nodes edges ↔ (ed_From e ∈ sortedIDs nodes ∧ ed_To e ∈ sortedIDs nodes) ∧ e ∈ edges.
Proof. unfold known_edges. by rewrite list_elem_of_filter. Qed.

Lemma all_depths_spec nodes edges : acyclic nodes edges →
  let m := all_depths nodes edges in let P := preds (known_edges nodes edges) in
  (∀ id, id ∈ sortedIDs nodes → is_Some (m !! id)) ∧
  (∀ id d, m !! id = Some d → d = above m (P id) ∧ 0 ≤ d ∧ ∀ p, p ∈ P id → is_Some (m !! p)).
Proof.
  intros [rank Hrank]. cbv zeta. set (P := preds (known_edges nodes edges)). set (ids := sortedIDs nodes).
  assert (∀ id p, p ∈ P id → (rank p < rank id)%nat) as HR by (intros id p (e&He&<-&<-)%preds_elem; by apply Hrank).
  assert (∀ id p, p ∈ P id → p ∈ ids) as HI by (intros id p (e&He&<-&<-)%preds_elem; by apply known_edges_elem in He as [[? _] _]).
  unfold all_depths. set (fuel := S (length nodes)).
  assert (∀ m, (length (missing ids m) < fuel)%nat) as Hfuel.
  { intros m. unfold missing. pose proof (length_filter (λ x, m !! x = None) ids) as H. subst fuel ids. unfold sortedIDs in *. rewrite length_fmap in H. lia. }
  assert (∀ l m, (∀ n, n ∈ l → n ∈ nodes) → settled P [] m →
    let m' := foldl (λ m n, (depth_from fuel P (nd_ID n) m).2) m l in
    m ⊆ m' ∧ settled P [] m' ∧ ∀ n, n ∈ l → is_Some (m' !! nd_ID n)) as Hfold.
  { induction l as [|n l IH]; intros m Hl Hs; cbn [foldl]; [split_and!; [done|done|]; by intros n ?%elem_of_nil|].
    pose proof (depth_from_spec P ids rank HR HI fuel (nd_ID n) m []) as Hd.
    destruct (depth_from fuel P (nd_ID n) m) as [d m1].
    destruct Hd as (H1&H2&H3); [apply list_elem_of_fmap_2, Hl; by left|done|by intros o ?%elem_of_nil|apply Hfuel|].
    cbn [snd]. destruct (IH m1) as (H4&H5&H6); [intros; apply Hl; by right|done|]. split_and!; [by etrans|done|].
    intros k [->|Hk]%elem_of_cons; [|by apply H6]. exists d. by eapply lookup_weaken. }
  destruct (Hfold nodes ∅) as (_&Hs&Hin); [done|by intros ? ? ?%lookup_empty_Some|]. split.
  - intros id (n&->&Hn)%list_elem_of_fmap. by apply Hin.
  - intros id d Hid. destruct (Hs id d Hid) as (?&?&Hp); [by apply not_elem_of_nil|]. split_and!; [done|done|]. intros p Hpp. by apply Hp.
Qed.

Lemma positions_elem columns id c r : (id, (c, r)) ∈ positions columns ↔
  ∃ col, 0 ≤ c ∧ 0 ≤ r ∧ columns !! Z.to_nat c = Some col ∧ col !! Z.to_nat r = Some id.
Proof.
  unfold positions. rewrite list_elem_of_In, in_concat. split.
  - intros (l&Hl%list_elem_of_In&Hx%list_elem_of_In). apply elem_of_lookup_imap in Hl as (i&col&->&Hc).
    apply elem_of_lookup_imap in Hx as (j&id'&[= -> -> ->]&Hr). exists col. rewrite !Nat2Z.id. split_and!; [lia|lia|done|done].
  - intros (col&Hc0&Hr0&Hc&Hr). eexists. split; apply list_elem_of_In.
    + apply elem_of_lookup_imap. by exists (Z.to_nat c), col.
    + apply elem_of_lookup_imap. exists (Z.to_nat r), id. split; [|done]. by rewrite !Z2Nat.id.
Qed.

Lemma pos_map_in columns id c r : pos_map columns !! id = Some (c, r) →
  ∃ col, 0 ≤ c ∧ 0 ≤ r ∧ columns !! Z.to_nat c = Some col ∧ col !! Z.to_nat r = Some id.
Proof. intros H%elem_of_list_to_map_2. rewrite elem_of_reverse in H. by apply positions_elem. Qed.
Lemma pos_map_some columns col c id : columns !! c = Some col → id ∈ col → is_Some (pos_map columns !! id).
Proof.
  intros Hc [r Hr]%list_elem_of_lookup. destruct (pos_map columns !! id) as [p|] eqn:E; [by exists p|].
  apply not_elem_of_list_to_map_2 in E. destruct E. rewrite fmap_reverse, elem_of_reverse. apply list_elem_of_fmap.
  exists (id, (Z.of_nat c, Z.of_nat r)). split; [done|]. apply positions_elem. exists col. rewrite !Nat2Z.id. split_and!; [lia|lia|done|done].
Qed.

Section geometry.
Context (nodes : list NodeSpec) (edges : list EdgeSpec).
Notation sorted := (sorted_nodes nodes).
Notation geo := (layoutGraphGeometry nodes edges).
Notation depths := (all_depths sorted edges).

Lemma sorted_ids id : id ∈ sortedIDs sorted ↔ id ∈ sortedIDs nodes.
Proof. unfold sortedIDs, sorted_nodes. by rewrite merge_sort_Permutation. Qed.
Lemma known_sorted e : e ∈ known_edges sorted edges ↔ e ∈ known_edges nodes edges.
Proof. by rewrite !known_edges_elem, !sorted_ids. Qed.
Lemma acyclic_sorted : acyclic nodes edges → acyclic sorted edges.
Proof. intros [rank H]. exists rank. intros e He. by apply H, known_sorted. Qed.

Lemma columns_lookup c col : geo_columns geo !! c = Some col → col = column sorted depths c.
Proof. unfold layoutGraphGeometry. cbn [geo_columns]. intros (k&->&[-> _]%lookup_seq)%list_lookup_fmap_Some. done. Qed.

(** A node's position: its column is its depth. *)
Lemma geo_pos_some id : id ∈ sortedIDs nodes → acyclic nodes edges →
  ∃ r, geo_pos geo !! id = Some (depth_of depths id, r) ∧ 0 ≤ r ∧ geo_columns geo !! Z.to_nat (depth_of depths id) = Some (column sorted depths (Z.to_nat (depth_of depths id))) ∧
       column sorted depths (Z.to_nat (depth_of depths id)) !! Z.to_nat r = Some id.
Proof.
  intros Hid Hac. destruct (all_depths_spec _ _ (acyclic_sorted Hac)) as [Hall Hspec]. apply sorted_ids in Hid.
  destruct (Hall id Hid) as [d Hd]. destruct (Hspec id d Hd) as (_&H0&_).
  assert (depth_of depths id = d) as Hdd by (unfold depth_of; by rewrite Hd). rewrite Hdd.
  assert (d ≤ max_list_Z (depth_of depths <$> sortedIDs sorted)) as Hmax.
  { apply max_list_ge. rewrite <- Hdd. by apply list_elem_of_fmap_2. }
  assert (geo_columns geo !! Z.to_nat d = Some (column sorted depths (Z.to_nat d))) as Hcol.
  { unfold layoutGraphGeometry. cbn [geo_columns]. rewrite list_lookup_fmap, lookup_seq_lt by lia. done. }
  destruct (pos_map_some (geo_columns geo) _ _ id Hcol) as [[c r] Hp].
  { apply list_elem_of_filter. split; [|done]. rewrite Hdd, Z2Nat.id by done. done. }
  destruct (pos_map_in _ _ _ _ Hp) as (col&Hc0&Hr0&Hc&Hr). pose proof (columns_lookup _ _ Hc) as ->.
  apply list_elem_of_lookup_2 in Hr as Hin. apply list_elem_of_filter in Hin as [Hcd _]. rewrite Hdd, Z2Nat.id in Hcd by done. subst c.
  exists r. split_and!; [exact Hp|done|done|done].
Qed.

Lemma known_sorted_eq : known_edges sorted edges = known_edges nodes edges.
Proof. unfold known_edges. apply list_filter_iff. intros e. by rewrite !sorted_ids. Qed.

Lemma depth_nonneg id : acyclic nodes edges → 0 ≤ depth_of depths id.
Proof.
  intros Hac. destruct (all_depths_spec _ _ (acyclic_sorted Hac)) as [_ Hspec]. unfold depth_of.
  destruct (depths !! id) as [d|] eqn:E; [|done]. by destruct (Hspec id d E) as (_&?&_).
Qed.

Lemma depth_equation id : id ∈ sortedIDs nodes → acyclic nodes edges →
  depth_of depths id = max_list_Z ((λ p, default 0 (fst <$> geo_pos geo !! p) + 1) <$> preds (known_edges sorted edges) id).
Proof.
  intros Hid Hac. destruct (all_depths_spec _ _ (acyclic_sorted Hac)) as [Hall Hspec].
  destruct (Hall id ltac:(by apply sorted_ids)) as [d Hd]. destruct (Hspec id d Hd) as (E&_&_).
  unfold depth_of at 1. rewrite Hd. change (default 0 (Some d)) with d. rewrite E at 1. unfold above. f_equal. apply list_fmap_ext. intros i p Hp%list_elem_of_lookup_2.
  apply preds_elem in Hp as (e&He&<-&_). apply known_edges_elem in He as [[Hf _] _]. apply sorted_ids in Hf.
  destruct (geo_pos_some _ Hf Hac) as (r&Hp&_). cbv beta. by rewrite Hp.
Qed.

Lemma edge_climbs e : e ∈ known_edges nodes edges → acyclic nodes edges → depth_of depths (ed_From e) < depth_of depths (ed_To e).
Proof.
  intros He Hac. apply known_edges_elem in He as Hids. destruct Hids as [[Hf Ht] _].
  destruct (geo_pos_some _ Hf Hac) as (r&Hp&_). rewrite (depth_equation (ed_To e) Ht Hac).
  apply Z.lt_le_trans with (depth_of depths (ed_From e) + 1); [lia|].
  apply max_list_ge. apply list_elem_of_fmap. exists (ed_From e). rewrite Hp. split; [done|].
  rewrite known_sorted_eq. apply preds_elem. by exists e.
Qed.

Lemma on_canvas id r : geo_columns geo !! Z.to_nat (depth_of depths id) = Some (column sorted depths (Z.to_nat (depth_of depths id))) →
  column sorted depths (Z.to_nat (depth_of depths id)) !! Z.to_nat r = Some id → 0 ≤ r →
  depth_of depths id ≤ max_list_Z (depth_of depths <$> sortedIDs sorted) ∧
  r + 1 ≤ max_list_Z ((λ col : list string, Z.of_nat (length col)) <$> geo_columns geo).
Proof.
  intros Hc Hr Hr0. split.
  - apply max_list_ge, list_elem_of_fmap_2. apply list_elem_of_lookup_2, list_elem_of_filter in Hr. tauto.
  - apply lookup_lt_Some in Hr as Hlt. apply Z.le_trans with (Z.of_nat (length (column sorted depths (Z.to_nat (depth_of depths id))))); [lia|].
    apply max_list_ge. apply list_elem_of_fmap. eexists. split; [reflexivity|]. by eapply list_elem_of_lookup_2.
Qed.

(** The layout of a graph without cycles: every node of the graph has a
    position, in the column of its longest path from a node without predecessors,
    so that every edge leads to a column further right; no two nodes share a
    position; and every card lies on the canvas. *)
Theorem layout_layers : acyclic nodes edges →
  let P := preds (known_edges nodes edges) in
  (∀ id, id ∈ sortedIDs nodes → ∃ c r, geo_pos geo !! id = Some (c, r) ∧
     c = max_list_Z ((λ p, default 0 (fst <$> geo_pos geo !! p) + 1) <$> P id) ∧
     graphMargin ≤ node_x (c, r) ∧ node_x (c, r) + graphNodeW + graphMargin ≤ geo_width geo ∧
     graphMargin ≤ node_y (c, r) ∧ node_y (c, r) + graphNodeH + graphMargin ≤ geo_height geo) ∧
  (∀ e, e ∈ known_edges nodes edges → ∃ c r c' r',
     geo_pos geo !! ed_From e = Some (c, r) ∧ geo_pos geo !! ed_To e = Some (c', r') ∧ c < c') ∧
  (∀ id id' pos, geo_pos geo !! id = Some pos → geo_pos geo !! id' = Some pos → id = id').
Proof.
  intros Hac. cbv zeta. rewrite <- known_sorted_eq. split_and!.
  - intros id Hid. destruct (geo_pos_some id Hid Hac) as (r&Hp&Hr0&Hc&Hr). exists (depth_of depths id), r. split; [done|].
    destruct (on_canvas id r Hc Hr) as [Hmax Hrows]; [done|].
    unfold node_x, node_y, graphMargin, graphNodeW, graphColGap, graphNodeH, graphRowGap in *. cbn [fst snd].
    split; [by apply depth_equation|]. pose proof (depth_nonneg id Hac). clear Hc Hr Hp. unfold layoutGraphGeometry in *. cbn [geo_width geo_height geo_columns] in *.
    unfold graphMargin, graphNodeW, graphColGap, graphNodeH, graphRowGap. split_and!; lia.
  - intros e He. rewrite known_sorted_eq in He. apply known_edges_elem in He as Hids. destruct Hids as [[Hf Ht] _].
    destruct (geo_pos_some _ Hf Hac) as (r&Hp&_). destruct (geo_pos_some _ Ht Hac) as (r'&Hp'&_).
    exists (depth_of depths (ed_From e)), r, (depth_of depths (ed_To e)), r'. split_and!; [done|done|].
    by apply edge_climbs.
  - intros id id' [c r] (col&_&_&Hc&Hr)%pos_map_in (col'&_&_&Hc'&Hr')%pos_map_in. congruence.
Qed.
End geometry.

(** ** The run graph *)

(** The runes of a string, an invalid byte as the replacement character. *)
Fixpoint runes_from (fuel : nat) (s : string) : list string :=
  match fuel, s with
  | S fuel, String c r =>
      match rune_width c r with
      | Some w => str_take w s :: runes_from fuel (str_drop w s)
      | None => bytes_of [239; 191; 189] :: runes_from fuel r
      end
  | _, _ => []
  end.
Definition runes (s : string) : list string := runes_from (String.length s) s.

Definition truncateRunes (s : string) (n : nat) : string :=
  if decide (length (runes s) ≤ n)%nat then s
  else if decide (n ≤ 1)%nat then "…"
  else join "" (take (n - 1) (runes s)) +:+ "…".
Definition fullLabelOf (s : string) (n : nat) : string := if decide (length (runes s) ≤ n)%nat then "" else s.

(** The newest envelope of each node; of two of one instant, the first. *)
Definition latest_envelopes (results : list NodeResultEnvelope) : gmap string NodeResultEnvelope :=
  foldl (λ m env, match m !! ne_NodeID env with
                  | Some cur => if time_After (ne_ProducedAt env) (ne_ProducedAt cur) then <[ne_NodeID env := env]> m else m
                  | None => <[ne_NodeID env := env]> m
                  end) ∅ results.

Definition attemptSettled (runs : list RunRecord) : bool := forallb (λ r, negb (String.eqb (rr_Phase r) "running")) runs.

Definition is_external (n : NodeSpec) : bool := String.eqb (nd_Type n) "external" || String.eqb (nd_ID n) triggerNodeID.
Definition isExternalNode (nodes : list NodeSpec) (id : string) : bool :=
  match List.find (λ n, String.eqb (nd_ID n) id) nodes with Some n => is_external n | None => false end.

(** A node without an envelope that can execute. *)
Definition awaits (nodes : list NodeSpec) (latest : gmap string NodeResultEnvelope) (id : string) : bool :=
  bool_decide (latest !! id = None) && negb (isExternalNode nodes id).
Fixpoint runningNode (nodes : list NodeSpec) (latest : gmap string NodeResultEnvelope) (columns : list (list string)) : string :=
  match columns with
  | [] => ""
  | col :: columns =>
      match List.find (awaits nodes latest) col with
      | Some id => if decide (id = "") then runningNode nodes latest columns else id
      | None => runningNode nodes latest columns
      end
  end.

Record graphNodeView := {
  gv_ID : string; gv_Label : string; gv_Type : string; gv_Status : string; gv_X : Z; gv_Y : Z; gv_StatusText : string;
}.
Record graphEdgeView := { gw_From : string; gw_To : string; gw_Path : string; gw_Cause : bool }.

Definition status_text (status : string) : string :=
  default "" (snd <$> List.find (λ kv, String.eqb kv.1 status)
    [("pending", "· pending"); ("running", "↻ running"); ("ok", "✓ ok"); ("failed", "✗ failed"); ("skipped", "− skipped"); ("external", "◇ external")]).

Definition node_status (latest : gmap string NodeResultEnvelope) (running : string) (n : NodeSpec) : string :=
  if decide (nd_ID n = running) then "running"
  else if is_external n then "external"
  else match latest !! nd_ID n with
       | None => "pending"
       | Some env => if decide (ne_Status env = "ok") then "ok" else if decide (ne_Status env = "skipped") then "skipped" else "failed"
       end.

Definition node_label (n : NodeSpec) : string := if decide (nd_Label n = "") then nd_ID n else nd_Label n.

Definition layoutGraph (gs : GraphSpec) (latest : gmap string NodeResultEnvelope) (inFlight : bool)
    : list graphNodeView * list graphEdgeView * Z * Z :=
  let nodes := sorted_nodes (gr_Nodes gs) in
  let geo := layoutGraphGeometry nodes (gr_Edges gs) in
  let running := if inFlight then runningNode nodes latest (geo_columns geo) else "" in
  let view n :=
    let pos := default (0, 0) (geo_pos geo !! nd_ID n) in
    let status := node_status latest running n in
    {| gv_ID := nd_ID n; gv_Label := truncateRunes (node_label n) graphLabelLimit; gv_Type := nd_Type n; gv_Status := status;
       gv_X := node_x pos; gv_Y := node_y pos; gv_StatusText := status_text status |} in
  let edge e := (λ path, {| gw_From := ed_From e; gw_To := ed_To e; gw_Path := path; gw_Cause := String.eqb (ed_From e) triggerNodeID |})
                <$> geo_edgeOf geo !! edge_key e in
  (view <$> nodes, omap edge (gr_Edges gs), geo_width geo, geo_height geo).

Lemma runningNode_spec nodes latest columns : runningNode nodes latest columns ≠ "" →
  ∃ k col, columns !! k = Some col ∧ runningNode nodes latest columns ∈ col ∧ awaits nodes latest (runningNode nodes latest columns) = true ∧
    ∀ j col' id, (j < k)%nat → columns !! j = Some col' → id ∈ col' → "" ∉ col' → awaits nodes latest id = false.
Proof.
  induction columns as [|col columns IH]; cbn [runningNode]; [done|].
  assert (runningNode nodes latest columns ≠ "" → (∀ id, id ∈ col → "" ∉ col → awaits nodes latest id = false) →
    ∃ k col0, (col :: columns) !! k = Some col0 ∧ runningNode nodes latest columns ∈ col0 ∧ awaits nodes latest (runningNode nodes latest columns) = true ∧
    ∀ j col' id, (j < k)%nat → (col :: columns) !! j = Some col' → id ∈ col' → "" ∉ col' → awaits nodes latest id = false) as Hnext.
  { intros Hne Hcol. destruct (IH Hne) as (k&col0&Hk&Hin&Ha&Hbefore). exists (S k), col0. split_and!; [done|done|done|].
    intros [|j] col' id Hj; [intros [= <-]; by apply Hcol|]. intros Hl. by apply (Hbefore j); [lia|]. }
  destruct (List.find (awaits nodes latest) col) as [id|] eqn:E.
  - apply List.find_some in E as [Hin%list_elem_of_In Ha]. case_decide as He.
    + intros Hne. apply Hnext; [done|]. intros x _ Hc. by subst id.
    + intros _. exists 0%nat, col. split_and!; [done|done|done|]. lia.
  - intros Hne. apply Hnext; [done|]. intros x Hx _. apply (List.find_none _ _ E). by apply list_elem_of_In.
Qed.

(** A node that never executes: an external kernel, or the trigger. *)
Definition never_executes (n : NodeSpec) : Prop := nd_Type n = "external" ∨ nd_ID n = "trigger".

Lemma is_external_spec n : is_external n = true ↔ never_executes n.
Proof. unfold is_external, never_executes. by rewrite orb_true_iff, !String.eqb_eq. Qed.

Lemma external_node nodes id : isExternalNode (sorted_nodes nodes) id = true →
  ∃ n, n ∈ nodes ∧ nd_ID n = id ∧ never_executes n.
Proof.
  unfold isExternalNode. destruct (List.find _ _) as [n|] eqn:E; [|done]. intros Hx%is_external_spec.
  apply List.find_some in E as [Hin%list_elem_of_In Hid%String.eqb_eq]. exists n. split; [|done].
  revert Hin. unfold sorted_nodes. by rewrite merge_sort_Permutation.
Qed.

Lemma internal_node nodes id : isExternalNode (sorted_nodes nodes) id = false → id ∈ sortedIDs nodes →
  ∃ n, n ∈ nodes ∧ nd_ID n = id ∧ ¬ never_executes n.
Proof.
  unfold isExternalNode. intros Hx Hid. apply sorted_ids in Hid. destruct (List.find _ _) as [n|] eqn:E.
  - apply List.find_some in E as [Hin%list_elem_of_In Hn%String.eqb_eq]. exists n.
    rewrite <- is_external_spec, Hx. split; [|done]. revert Hin. unfold sorted_nodes. by rewrite merge_sort_Permutation.
  - apply list_elem_of_fmap in Hid as (n&->&Hin%list_elem_of_In). pose proof (List.find_none _ _ E n Hin) as Hn.
    by apply String.eqb_neq in Hn.
Qed.

(** C37. The pulse of a run graph whose nodes all have an identifier: at most one
    node is shown as running, only while a run is in flight; it has no envelope
    and can execute. In a graph without cycles each of its predecessors has an
    envelope or never executes; a loop-back does not keep that
    ([loop_back_pulses_early]). *)
Theorem pulse_after_predecessors gs latest inFlight v v' :
  "" ∉ sortedIDs (gr_Nodes gs) →
  let views := (layoutGraph gs latest inFlight).1.1.1 in
  v ∈ views → gv_Status v = "running" →
  inFlight = true ∧ latest !! gv_ID v = None ∧ (∃ n, n ∈ gr_Nodes gs ∧ nd_ID n = gv_ID v ∧ ¬ never_executes n) ∧
  (acyclic (gr_Nodes gs) (gr_Edges gs) →
   ∀ e, e ∈ gr_Edges gs → ed_To e = gv_ID v → ed_From e ∈ nd_ID <$> gr_Nodes gs →
     (∃ n, n ∈ gr_Nodes gs ∧ nd_ID n = ed_From e ∧ never_executes n) ∨ is_Some (latest !! ed_From e)) ∧
  (v' ∈ views → gv_Status v' = "running" → gv_ID v' = gv_ID v).
Proof.
  intros Hne. cbv zeta. unfold layoutGraph. cbn [fst snd]. set (nodes := sorted_nodes (gr_Nodes gs)).
  set (geo := layoutGraphGeometry nodes (gr_Edges gs)). set (run := if inFlight then _ else "").
  assert (∀ w, w ∈ ((λ n, {| gv_ID := nd_ID n; gv_Label := truncateRunes (node_label n) graphLabelLimit; gv_Type := nd_Type n;
      gv_Status := node_status latest run n; gv_X := node_x (default (0, 0) (geo_pos geo !! nd_ID n));
      gv_Y := node_y (default (0, 0) (geo_pos geo !! nd_ID n)); gv_StatusText := status_text (node_status latest run n) |}) <$> nodes) →
    gv_Status w = "running" → gv_ID w = run ∧ gv_ID w ∈ sortedIDs nodes) as Hrun.
  { intros w (n&->&Hn)%list_elem_of_fmap. cbn [gv_Status gv_ID]. intros H. split; [|by apply list_elem_of_fmap_2].
    unfold node_status in H. case_decide; [done|]. by repeat case_match. }
  intros Hv Hs. destruct (Hrun v Hv Hs) as [Hid Hin].
  assert (gv_ID v ≠ "") as Hv0 by (intros E; rewrite E in Hin; by apply (sorted_ids (gr_Nodes gs)) in Hin).
  assert (inFlight = true ∧ run = runningNode nodes latest (geo_columns geo)) as [-> Hr].
  { subst run. destruct inFlight; [done|]. congruence. }
  destruct (runningNode_spec nodes latest (geo_columns geo)) as (k&col&Hk&Hcol&Ha&Hbefore); [by rewrite <- Hr, <- Hid|].
  rewrite <- Hr, <- Hid in *. apply andb_true_iff in Ha as [Hl%bool_decide_eq_true Hx%negb_true_iff].
  assert (gv_ID v ∈ sortedIDs (gr_Nodes gs)) as Hv1 by by apply sorted_ids.
  split_and!; [done|done|by apply internal_node| |by intros Hv' Hs'; destruct (Hrun v' Hv' Hs')].
  intros Hac e Hed Hto Hfrom. assert (e ∈ known_edges (gr_Nodes gs) (gr_Edges gs)) as He
    by (apply known_edges_elem; rewrite Hto; done). assert (acyclic nodes (gr_Edges gs)) as Hacs by by apply acyclic_sorted.
  assert (e ∈ known_edges nodes (gr_Edges gs)) as He' by by apply known_sorted.
  pose proof (edge_climbs nodes (gr_Edges gs) e He' Hacs) as Hlt.
  apply known_edges_elem in He' as [[Hf Ht] _]. destruct (geo_pos_some nodes (gr_Edges gs) _ Hf Hacs) as (r&_&_&Hcf&Hrf).
  pose proof (columns_lookup nodes (gr_Edges gs) k col Hk) as ->. apply list_elem_of_filter in Hcol as [Hck _].
  pose proof (depth_nonneg nodes (gr_Edges gs) (ed_From e) Hacs) as H0. rewrite Hto, Hck in Hlt.
  assert (awaits nodes latest (ed_From e) = false) as Hno.
  { eapply (λ H, Hbefore _ _ _ H Hcf); [lia|by eapply list_elem_of_lookup_2|]. intros [_ Hc]%list_elem_of_filter. apply (sorted_ids nodes) in Hc. by apply (sorted_ids (gr_Nodes gs)) in Hc. }
  unfold awaits in Hno. destruct (isExternalNode nodes (ed_From e)) eqn:Hext; [left; by apply external_node|right].
  destruct (latest !! ed_From e) as [x|]; [by exists x|done].
Qed.

(** ** A sample *)

Definition sample_node (id : string) : NodeSpec :=
  {| nd_ID := id; nd_Type := "run"; nd_Label := ""; nd_Config := ""; nd_Outputs := []; nd_When := ""; nd_Timeout := ""; nd_Requires := [];
     nd_Background := None; nd_Retry := None |}.
Definition sample_edge (a b : string) : EdgeSpec := {| ed_From := a; ed_To := b; ed_When := ""; ed_MaxRetries := 0 |}.
(** The edge to "gone" is dropped: there is no such node. *)
Definition sample_graph : GraphSpec :=
  {| gr_Nodes := [sample_node "prepare"; sample_node "agent"; sample_node "deploy"];
     gr_Edges := [sample_edge "prepare" "agent"; sample_edge "agent" "deploy"; sample_edge "prepare" "deploy"; sample_edge "deploy" "gone"] |}.
Definition sample_rank (id : string) : nat := if decide (id = "prepare") then 0%nat else if decide (id = "agent") then 1%nat else 2%nat.
Definition sample_done : gmap string NodeResultEnvelope :=
  {[ "prepare" := {| ne_NodeID := "prepare"; ne_RunID := ""; ne_Status := "ok"; ne_Attempt := 1; ne_Summary := ""; ne_Artifacts := []; ne_Claims := []; ne_Payload := ""; ne_Provenance := {| pv_TriggeredBy := ""; pv_TriggerSource := ""; pv_ProducedAt := 0 |}; ne_References := []; ne_ProducedAt := 0; ne_DurationMs := 0 |} ]}.

Lemma sample_acyclic : acyclic (gr_Nodes sample_graph) (gr_Edges sample_graph).
Proof.
  exists sample_rank. assert (forallb (λ e, bool_decide (sample_rank (ed_From e) < sample_rank (ed_To e))%nat)
    (known_edges (gr_Nodes sample_graph) (gr_Edges sample_graph)) = true) as H by (vm_compute; reflexivity).
  intros e He. rewrite forallb_forall in H. by apply list_elem_of_In, H, bool_decide_eq_true in He.
Qed.

Lemma layout_layers_witness :
  geo_pos (layoutGraphGeometry (gr_Nodes sample_graph) (gr_Edges sample_graph)) !! "deploy" = Some (2, 0) ∧
  ∀ id id' pos, geo_pos (layoutGraphGeometry (gr_Nodes sample_graph) (gr_Edges sample_graph)) !! id = Some pos →
    geo_pos (layoutGraphGeometry (gr_Nodes sample_graph) (gr_Edges sample_graph)) !! id' = Some pos → id = id'.
Proof. split; [vm_compute; reflexivity|]. apply (layout_layers (gr_Nodes sample_graph) (gr_Edges sample_graph) sample_acyclic). Defined.

(** The agent pulses once its preparation has an envelope. *)
Lemma pulse_after_predecessors_witness :
  ∃ v, v ∈ (layoutGraph sample_graph sample_done true).1.1.1 ∧ gv_ID v = "agent" ∧
    ∀ e, e ∈ gr_Edges sample_graph → ed_To e = gv_ID v → ed_From e ∈ nd_ID <$> gr_Nodes sample_graph →
      (∃ n, n ∈ gr_Nodes sample_graph ∧ nd_ID n = ed_From e ∧ never_executes n) ∨ is_Some (sample_done !! ed_From e).
Proof.
  set (v := {| gv_ID := "agent"; gv_Label := "agent"; gv_Type := "run"; gv_Status := "running"; gv_X := 292; gv_Y := 12; gv_StatusText := "↻ running" |}).
  assert (v ∈ (layoutGraph sample_graph sample_done true).1.1.1) as Hv.
  { apply list_elem_of_lookup. exists 0%nat. vm_compute. reflexivity. }
  exists v. split; [exact Hv|]. split; [reflexivity|].
  assert ("" ∉ sortedIDs (gr_Nodes sample_graph)) as Hne by (apply (bool_decide_unpack _); vm_compute; reflexivity).
  destruct (pulse_after_predecessors sample_graph sample_done true v v Hne Hv eq_refl) as (_&_&_&Hpre&_).
  exact (Hpre sample_acyclic).
Defined.

(** The fix loop of a run: the gate's failure goes back to the agent. *)
Definition loop_graph : GraphSpec :=
  {| gr_Nodes := [sample_node "prepare"; sample_node "agent"; sample_node "gate"];
     gr_Edges := [sample_edge "prepare" "agent"; sample_edge "agent" "gate"; sample_edge "gate" "agent"] |}.

(** With a loop-back the cycle guard places the gate a column before the agent:
    once the preparation is done the gate pulses, which has not been reached, and
    the agent, which runs, is pending. *)
Example loop_back_pulses_early :
  (λ v, (gv_ID v, gv_Status v)) <$> (layoutGraph loop_graph sample_done true).1.1.1
  = [("agent", "pending"); ("gate", "running"); ("prepare", "ok")]
  ∧ sample_edge "agent" "gate" ∈ known_edges (gr_Nodes loop_graph) (gr_Edges loop_graph)
  ∧ sample_done !! "agent" = None.
Proof. split_and!; [vm_compute; reflexivity|apply (bool_decide_unpack _); vm_compute; exact I|vm_compute; reflexivity]. Qed.
