(* ===== verification/UiDiff.v ===== *)
(** * The revisions view of the console ([internal/ui/topology.go], [yamldiff.go])

    The topology of a graph, the diff of two graphs on one layout, and the line
    diff of their documents. The identity cards are left out. *)

From S2P Require Import Prelude GoStrings GoPath GoTime Api UiGraph.

(** ** The topology *)

Record topologyNodeView := {
  tv_ID : string; tv_Label : string; tv_Type : string; tv_Known : bool; tv_X : Z; tv_Y : Z;
  tv_LabelX : Z; tv_LabelY : Z; tv_TypeX : Z; tv_TypeY : Z; tv_DiffClass : string; tv_Ghost : bool;
}.
Record topologyEdgeView := {
  te_From : string; te_To : string; te_Path : string; te_DiffClass : string; te_Ghost : bool; te_Cause : bool;
}.
Record topologyView := { tp_Width : Z; tp_Height : Z; tp_Nodes : list topologyNodeView; tp_Edges : list topologyEdgeView }.

(** A node painted at its position. *)
Definition paint_node (geo : graphGeometry) (known : bool) (n : NodeSpec) (class : string) (ghost : bool) (id : string) : topologyNodeView :=
  let pos := default (0, 0) (geo_pos geo !! id) in
  let x := node_x pos in let y := node_y pos in
  {| tv_ID := id; tv_Label := truncateRunes (node_label n) graphLabelLimit; tv_Type := nd_Type n; tv_Known := known;
     tv_X := x; tv_Y := y; tv_LabelX := x + 14; tv_LabelY := y + 45; tv_TypeX := x + graphNodeW - 8; tv_TypeY := y + 25;
     tv_DiffClass := class; tv_Ghost := ghost |}.

(** The last node of each ID. *)
Definition nodes_by_id (nodes : list NodeSpec) : gmap string NodeSpec := list_to_map (reverse ((λ n, (nd_ID n, n)) <$> nodes)).
Definition edges_by_key (edges : list EdgeSpec) : gmap string EdgeSpec := list_to_map (reverse ((λ e, (edge_key e, e)) <$> edges)).

Definition zero_node : NodeSpec :=
  {| nd_ID := ""; nd_Type := ""; nd_Label := ""; nd_Config := ""; nd_Outputs := []; nd_When := ""; nd_Timeout := ""; nd_Requires := [];
     nd_Background := None; nd_Retry := None |}.

Definition buildTopology (gs : GraphSpec) (palette : gset string) : topologyView :=
  let sorted := sorted_nodes (gr_Nodes gs) in
  let geo := layoutGraphGeometry sorted (gr_Edges gs) in
  let specOf := nodes_by_id sorted in
  let node id := let n := default zero_node (specOf !! id) in
    paint_node geo (bool_decide (nd_Type n ∈ palette) || String.eqb (nd_ID n) triggerNodeID) n "" false id in
  let edge e := (λ p, {| te_From := ed_From e; te_To := ed_To e; te_Path := p; te_DiffClass := ""; te_Ghost := false;
                         te_Cause := String.eqb (ed_From e) triggerNodeID |}) <$> geo_edgeOf geo !! edge_key e in
  {| tp_Width := geo_width geo; tp_Height := geo_height geo; tp_Nodes := node <$> geo_order geo; tp_Edges := omap edge (gr_Edges gs) |}.

(** ** The diff of two graphs *)

Definition diffAdded : string := "added".
Definition diffRemoved : string := "removed".
Definition diffChanged : string := "changed".

Section diff.
(** [json.Marshal] of a node's identity; it fails on a configuration that is no JSON. *)
Context (marshal_node : string → string → string → string → option string).

Definition nodeFingerprint (n : NodeSpec) : string := default "" (marshal_node (nd_ID n) (nd_Type n) (nd_Label n) (nd_Config n)).

Definition node_delta (a b : option NodeSpec) : option string :=
  match a, b with
  | Some _, None => Some diffRemoved
  | Some n, Some n' => if decide (nodeFingerprint n = nodeFingerprint n') then None else Some diffChanged
  | None, Some _ => Some diffAdded
  | None, None => None
  end.
Definition edge_delta (a b : option EdgeSpec) : option string :=
  match a, b with Some _, None => Some diffRemoved | None, Some _ => Some diffAdded | _, _ => None end.

Definition diffGraphs (a b : GraphSpec) : gmap string string * gmap string string :=
  (merge node_delta (nodes_by_id (gr_Nodes a)) (nodes_by_id (gr_Nodes b)),
   merge edge_delta (edges_by_key (gr_Edges a)) (edges_by_key (gr_Edges b))).

(** The keys of a map, sorted. *)
Definition sorted_keys {A} (m : gmap string A) : list string := merge_sort String.le (map_to_list m).*1.

(** The union of both, the newer one's node and edge preferred. *)
Definition union_nodes (a b : GraphSpec) : gmap string NodeSpec := nodes_by_id (gr_Nodes b) ∪ nodes_by_id (gr_Nodes a).
Definition union_edges (a b : GraphSpec) : gmap string EdgeSpec := edges_by_key (gr_Edges b) ∪ edges_by_key (gr_Edges a).
Definition union_graph (a b : GraphSpec) : GraphSpec :=
  {| gr_Nodes := omap (λ id, union_nodes a b !! id) (sorted_keys (union_nodes a b));
     gr_Edges := omap (λ k, union_edges a b !! k) (sorted_keys (union_edges a b)) |}.

(** One pane: what is the revision's own, and the rest as ghosts. *)
Definition paint (a b : GraphSpec) (palette : gset string) (own : GraphSpec) (ghostClass : string) : topologyView :=
  let '(nodeDelta, edgeDelta) := diffGraphs a b in
  let gs := union_graph a b in
  let geo := layoutGraphGeometry (gr_Nodes gs) (gr_Edges gs) in
  let node id :=
    let n := default zero_node (union_nodes a b !! id) in
    if bool_decide (is_Some (nodes_by_id (gr_Nodes own) !! id))
    then paint_node geo (bool_decide (nd_Type n ∈ palette)) n (default "" (nodeDelta !! id)) false id
    else paint_node geo (bool_decide (nd_Type n ∈ palette)) n ghostClass true id in
  let edge k :=
    (λ e, let mine := bool_decide (is_Some (edges_by_key (gr_Edges own) !! k)) in
          {| te_From := ed_From e; te_To := ed_To e; te_Path := default "" (geo_edgeOf geo !! k);
             te_DiffClass := if mine then default "" (edgeDelta !! k) else ghostClass; te_Ghost := negb mine; te_Cause := false |})
    <$> union_edges a b !! k in
  {| tp_Width := geo_width geo; tp_Height := geo_height geo; tp_Nodes := node <$> geo_order geo;
     tp_Edges := omap edge (sorted_keys (union_edges a b)) |}.

Definition buildTopologyDiff (a b : GraphSpec) (palette : gset string) : topologyView * topologyView :=
  (paint a b palette a diffAdded, paint a b palette b diffRemoved).
End diff.

(** ** The line diff *)

Definition splitLines (s : string) : list string :=
  let s := TrimSpace s in if decide (s = "") then [] else split_byte "010"%char s.

Inductive diffLine := Same (text : string) | Added (text : string) | Removed (text : string).

(** The row of the table above the one [below] it. *)
Fixpoint lcs_row (x : string) (ys : list string) (below : list nat) : list nat :=
  match ys, below with
  | y :: ys, b :: below =>
      let row := lcs_row x ys below in
      (if decide (x = y) then S (hd 0%nat below) else if decide (hd 0 row ≤ b)%nat then b else hd 0%nat row) :: row
  | _, _ => [0%nat]
  end.
Definition lcs_table (xs ys : list string) : list (list nat) :=
  foldr (λ x rows, lcs_row x ys (hd [] rows) :: rows) [replicate (S (length ys)) 0%nat] xs.
Definition lcs_at (table : list (list nat)) (i j : nat) : nat := default 0%nat (table !! i ≫= λ row, row !! j).

(** The backtrace; the fuel is the lines of both. *)
Fixpoint diff_walk (fuel : nat) (table : list (list nat)) (xs ys : list string) (i j : nat) : list diffLine :=
  match fuel with
  | O => []
  | S fuel =>
      match xs, ys with
      | x :: xs', y :: ys' =>
          if decide (x = y) then Same x :: diff_walk fuel table xs' ys' (S i) (S j)
          else if decide (lcs_at table i (S j) ≤ lcs_at table (S i) j)%nat then Removed x :: diff_walk fuel table xs' ys (S i) j
          else Added y :: diff_walk fuel table xs ys' i (S j)
      | _, _ => (Removed <$> xs) ++ (Added <$> ys)
      end
  end.
Definition lineDiff (a b : string) : list diffLine :=
  let x := splitLines a in let y := splitLines b in
  diff_walk (S (length x + length y)) (lcs_table x y) x y 0 0.

(** ** The panes of a diff *)

Definition without_ghost (v : topologyNodeView) : topologyNodeView :=
  {| tv_ID := tv_ID v; tv_Label := tv_Label v; tv_Type := tv_Type v; tv_Known := tv_Known v; tv_X := tv_X v; tv_Y := tv_Y v;
     tv_LabelX := tv_LabelX v; tv_LabelY := tv_LabelY v; tv_TypeX := tv_TypeX v; tv_TypeY := tv_TypeY v;
     tv_DiffClass := tv_DiffClass v; tv_Ghost := false |}.
Definition edge_without_ghost (v : topologyEdgeView) : topologyEdgeView :=
  {| te_From := te_From v; te_To := te_To v; te_Path := te_Path v; te_DiffClass := te_DiffClass v; te_Ghost := false; te_Cause := te_Cause v |}.

Lemma nodes_by_id_some nodes id : is_Some (nodes_by_id nodes !! id) ↔ id ∈ sortedIDs nodes.
Proof.
  unfold nodes_by_id, sortedIDs. split.
  - intros [n H%elem_of_list_to_map_2]. rewrite elem_of_reverse in H. apply list_elem_of_fmap in H as (m&[= -> ->]&Hm). by apply list_elem_of_fmap_2.
  - intros (n&->&Hn)%list_elem_of_fmap. destruct (list_to_map _ !! _) eqn:E; [by eexists|]. apply not_elem_of_list_to_map_2 in E. destruct E.
    rewrite fmap_reverse, elem_of_reverse. apply list_elem_of_fmap. exists (nd_ID n, n). split; [done|]. by apply (list_elem_of_fmap_2 (λ n, (nd_ID n, n))).
Qed.
Lemma nodes_by_id_key nodes id n : nodes_by_id nodes !! id = Some n → nd_ID n = id ∧ n ∈ nodes.
Proof. intros H%elem_of_list_to_map_2. rewrite elem_of_reverse in H. by apply list_elem_of_fmap in H as (m&[= -> ->]&Hm). Qed.

Lemma sorted_keys_elem {A} (m : gmap string A) k : k ∈ sorted_keys m ↔ is_Some (m !! k).
Proof.
  unfold sorted_keys. rewrite merge_sort_Permutation, list_elem_of_fmap. split.
  - intros ([k' v]&->&H%elem_of_map_to_list). by eexists.
  - intros [v H]. exists (k, v). split; [done|]. by apply elem_of_map_to_list.
Qed.

Lemma union_graph_ids a b id : id ∈ sortedIDs (gr_Nodes (union_graph a b)) ↔ id ∈ sortedIDs (gr_Nodes a) ∨ id ∈ sortedIDs (gr_Nodes b).
Proof.
  rewrite <- (nodes_by_id_some (gr_Nodes a)), <- (nodes_by_id_some (gr_Nodes b)). unfold sortedIDs, union_graph. cbn [gr_Nodes]. rewrite list_elem_of_fmap. unfold union_nodes. split.
  - intros (n&->&(k&_&H)%list_elem_of_omap). apply lookup_union_Some_raw in H as [H|[_ H]];
      apply nodes_by_id_key in H as Hk; destruct Hk as [<- _]; [by right; eexists|by left; eexists].
  - intros H. assert (is_Some ((nodes_by_id (gr_Nodes b) ∪ nodes_by_id (gr_Nodes a)) !! id)) as [n Hn].
    { apply lookup_union_is_Some. tauto. }
    exists n. assert (nd_ID n = id) as <-.
    { apply lookup_union_Some_raw in Hn as [H'|[_ H']]; by apply nodes_by_id_key in H' as [? _]. }
    split; [done|]. apply list_elem_of_omap. exists (nd_ID n). split; [|done]. apply sorted_keys_elem. by eexists.
Qed.

Section panes.
Context (marshal_node : string → string → string → string → option string).
Notation fingerprint := (nodeFingerprint marshal_node).

(** What a pane says of an ID that one of the graphs has. *)
Lemma pane_class a b (own : GraphSpec) (ghost : string) id : (own = a ∧ ghost = diffAdded) ∨ (own = b ∧ ghost = diffRemoved) →
  id ∈ sortedIDs (gr_Nodes (union_graph a b)) →
  (if bool_decide (is_Some (nodes_by_id (gr_Nodes own) !! id)) then default "" ((diffGraphs marshal_node a b).1 !! id) else ghost)
  = default "" ((diffGraphs marshal_node a b).1 !! id).
Proof.
  intros Hown Hid. case_bool_decide as Hs; [done|]. unfold diffGraphs. cbn [fst]. rewrite lookup_merge.
  apply union_graph_ids in Hid. rewrite <- !nodes_by_id_some in Hid.
  destruct Hown as [[-> ->]|[-> ->]]; destruct (nodes_by_id (gr_Nodes a) !! id) eqn:Ea, (nodes_by_id (gr_Nodes b) !! id) eqn:Eb; try done;
    try (exfalso; apply Hs; by eexists); destruct Hid as [[? ?]|[? ?]]; done.
Qed.
Lemma edge_pane_class a b (own : GraphSpec) (ghost : string) k : (own = a ∧ ghost = diffAdded) ∨ (own = b ∧ ghost = diffRemoved) →
  is_Some (union_edges a b !! k) →
  (if bool_decide (is_Some (edges_by_key (gr_Edges own) !! k)) then default "" ((diffGraphs marshal_node a b).2 !! k) else ghost)
  = default "" ((diffGraphs marshal_node a b).2 !! k).
Proof.
  intros Hown Hid. case_bool_decide as Hs; [done|]. unfold diffGraphs. cbn [snd]. rewrite lookup_merge.
  unfold union_edges in Hid. apply lookup_union_is_Some in Hid.
  destruct Hown as [[-> ->]|[-> ->]]; destruct (edges_by_key (gr_Edges a) !! k) eqn:Ea, (edges_by_key (gr_Edges b) !! k) eqn:Eb; try done;
    try (exfalso; apply Hs; by eexists); destruct Hid as [[? ?]|[? ?]]; done.
Qed.

(** The two panes of a revision diff: they show the same nodes and edges, at
    the same places and with the same class, and differ only in what is a ghost;
    a node is a ghost of a pane just when its revision does not have it; and its
    class says "removed", "added" or "changed" just when only the older has it,
    only the newer, or both with another identity. *)
Theorem diff_panes a b palette :
  let older := (buildTopologyDiff marshal_node a b palette).1 in let newer := (buildTopologyDiff marshal_node a b palette).2 in
  let A := nodes_by_id (gr_Nodes a) in let B := nodes_by_id (gr_Nodes b) in
  tp_Width older = tp_Width newer ∧ tp_Height older = tp_Height newer ∧
  without_ghost <$> tp_Nodes older = without_ghost <$> tp_Nodes newer ∧
  edge_without_ghost <$> tp_Edges older = edge_without_ghost <$> tp_Edges newer ∧
  (∀ id, id ∈ tv_ID <$> tp_Nodes older ↔ id ∈ sortedIDs (gr_Nodes a) ∨ id ∈ sortedIDs (gr_Nodes b)) ∧
  (∀ v, v ∈ tp_Nodes older → tv_Ghost v = false ↔ tv_ID v ∈ sortedIDs (gr_Nodes a)) ∧
  (∀ v, v ∈ tp_Nodes newer → tv_Ghost v = false ↔ tv_ID v ∈ sortedIDs (gr_Nodes b)) ∧
  (∀ v, v ∈ tp_Nodes older →
     tv_DiffClass v = match A !! tv_ID v, B !! tv_ID v with
                      | Some _, None => "removed" | None, Some _ => "added"
                      | Some n, Some n' => if decide (fingerprint n = fingerprint n') then "" else "changed"
                      | None, None => "" end).
Proof.
  cbv zeta. unfold buildTopologyDiff. cbn [fst snd]. unfold paint.
  set (D := diffGraphs marshal_node a b). destruct D as [nd ed] eqn:HD. cbn [tp_Width tp_Height tp_Nodes tp_Edges].
  set (geo := layoutGraphGeometry _ _).
  assert (∀ id, id ∈ geo_order geo ↔ id ∈ sortedIDs (gr_Nodes (union_graph a b))) as Horder.
  { intros id. subst geo. unfold layoutGraphGeometry. cbn [geo_order]. apply sorted_ids. }
  assert (nd = (diffGraphs marshal_node a b).1 ∧ ed = (diffGraphs marshal_node a b).2) as [-> ->] by (fold D; by rewrite HD).
  clear HD D. split_and!; [done|done|..].
  - rewrite <- !list_fmap_compose. apply list_fmap_ext. intros i id Hid%list_elem_of_lookup_2. apply Horder in Hid. cbn [compose].
    pose proof (pane_class a b a diffAdded id ltac:(by left) Hid) as Ha. pose proof (pane_class a b b diffRemoved id ltac:(by right) Hid) as Hb.
    revert Ha Hb. repeat case_bool_decide; unfold without_ghost, paint_node; cbn; intros; congruence.
  - rewrite !list_fmap_omap. apply list_omap_ext, Forall2_same_length_lookup_2; [done|]. intros i x y Hx Hy. simplify_eq.
    destruct (union_edges a b !! x) as [e|] eqn:He; [|done]. cbn. unfold edge_without_ghost. cbn.
    pose proof (edge_pane_class a b a diffAdded x ltac:(by left) ltac:(by eexists)) as Ha.
    pose proof (edge_pane_class a b b diffRemoved x ltac:(by right) ltac:(by eexists)) as Hb. unfold diffAdded, diffRemoved in *. cbn in Ha, Hb. rewrite Ha, Hb. reflexivity.
  - intros k. rewrite <- union_graph_ids, <- Horder, <- list_fmap_compose.
    rewrite (list_fmap_ext _ Datatypes.id), list_fmap_id; [done|]. intros i x _. cbn [compose]. by case_bool_decide.
  - intros v (id&->&_)%list_elem_of_fmap. rewrite <- nodes_by_id_some. case_bool_decide; cbn; [|done]. by split.
  - intros v (id&->&_)%list_elem_of_fmap. rewrite <- nodes_by_id_some. case_bool_decide; cbn; [|done]. by split.
  - intros v Hv. assert (tv_DiffClass v = default "" ((diffGraphs marshal_node a b).1 !! tv_ID v)) as ->.
    { apply list_elem_of_fmap in Hv as (id&->&Hid). apply Horder in Hid. pose proof (pane_class a b a diffAdded id ltac:(by left) Hid) as Ha.
      revert Ha. by case_bool_decide. }
    unfold diffGraphs. cbn [fst]. rewrite lookup_merge.
    destruct (nodes_by_id (gr_Nodes a) !! tv_ID v), (nodes_by_id (gr_Nodes b) !! tv_ID v); try done. cbn. by case_decide.
Qed.
End panes.

(** ** The line diff is a shortest one *)

Definition old_side (d : list diffLine) : list string := omap (λ l, match l with Same t | Removed t => Some t | Added _ => None end) d.
Definition new_side (d : list diffLine) : list string := omap (λ l, match l with Same t | Added t => Some t | Removed _ => None end) d.
Definition same_lines (d : list diffLine) : list string := omap (λ l, match l with Same t => Some t | _ => None end) d.

(** The length the table holds for two lists. *)
Fixpoint lcs_len (xs : list string) : list string → nat :=
  match xs with
  | [] => λ _, 0%nat
  | x :: xs' =>
      fix go (ys : list string) : nat :=
        match ys with
        | [] => 0%nat
        | y :: ys' =>
            if decide (x = y) then S (lcs_len xs' ys')
            else if decide (go ys' ≤ lcs_len xs' ys)%nat then lcs_len xs' ys else go ys'
        end
  end.

Fixpoint suffix_row (xs ys : list string) : list nat :=
  lcs_len xs ys :: match ys with [] => [] | _ :: ys' => suffix_row xs ys' end.

Lemma suffix_row_hd xs ys : hd 0%nat (suffix_row xs ys) = lcs_len xs ys.
Proof. by destruct ys. Qed.
Lemma lcs_row_suffix x xs ys : lcs_row x ys (suffix_row xs ys) = suffix_row (x :: xs) ys.
Proof.
  induction ys as [|y ys IH]; [done|]. cbn [suffix_row lcs_row]. rewrite IH, !suffix_row_hd. reflexivity.
Qed.
Lemma zero_row ys : replicate (S (length ys)) 0%nat = suffix_row [] ys.
Proof. induction ys as [|y ys IH]; [done|]. cbn in *. by f_equal. Qed.

Lemma table_row xs ys i : (i ≤ length xs)%nat → lcs_table xs ys !! i = Some (suffix_row (drop i xs) ys).
Proof.
  revert i. induction xs as [|x xs IH]; intros i Hi; cbn [lcs_table foldr].
  - assert (i = 0%nat) as -> by (cbn in Hi; lia). cbn [lookup list_lookup]. by rewrite zero_row.
  - destruct i as [|i]; cbn [length] in Hi.
    + cbn [lookup list_lookup drop]. f_equal. rewrite <- lcs_row_suffix. f_equal. specialize (IH 0%nat ltac:(lia)).
      unfold lcs_table in IH. destruct (foldr _ _ xs); [done|]. by injection IH.
    + apply IH. lia.
Qed.
Lemma row_at xs ys j : (j ≤ length ys)%nat → suffix_row xs ys !! j = Some (lcs_len xs (drop j ys)).
Proof. revert j. induction ys as [|y ys IH]; intros [|j] Hj; cbn in *; try done; [lia|]. apply IH. lia. Qed.
Lemma lcs_at_len xs ys i j : (i ≤ length xs)%nat → (j ≤ length ys)%nat → lcs_at (lcs_table xs ys) i j = lcs_len (drop i xs) (drop j ys).
Proof. intros Hi Hj. unfold lcs_at. rewrite table_row by done. cbn. by rewrite row_at. Qed.

Lemma lcs_len_nil xs : lcs_len xs [] = 0%nat.
Proof. by destruct xs. Qed.
Lemma lcs_len_cons x xs y ys : lcs_len (x :: xs) (y :: ys) =
  if decide (x = y) then S (lcs_len xs ys)
  else if decide (lcs_len (x :: xs) ys ≤ lcs_len xs (y :: ys))%nat then lcs_len xs (y :: ys) else lcs_len (x :: xs) ys.
Proof. reflexivity. Qed.

Lemma sublist_cons_inv (c : string) cs x xs : c :: cs `sublist_of` x :: xs → (c = x ∧ cs `sublist_of` xs) ∨ c :: cs `sublist_of` xs.
Proof. intros H. inversion H; subst; [by left|by right]. Qed.

Lemma sublist_tail (c : string) cs l : c :: cs `sublist_of` l → cs `sublist_of` l.
Proof. intros H. etrans; [|exact H]. by apply sublist_cons. Qed.

(** No common subsequence is longer. *)
Lemma lcs_len_max xs : ∀ ys c, c `sublist_of` xs → c `sublist_of` ys → (length c ≤ lcs_len xs ys)%nat.
Proof.
  induction xs as [|x xs IHx]; intros ys c Hx Hy; [apply sublist_nil_r in Hx as ->; cbn; lia|].
  induction ys as [|y ys IHy]; [apply sublist_nil_r in Hy as ->; cbn; lia|].
  rewrite lcs_len_cons. destruct c as [|z c]; [cbn; lia|].
  apply sublist_cons_inv in Hx as Hx', Hy as Hy'. case_decide as Hxy.
  - subst y. destruct Hx' as [[-> Hx']|Hx'], Hy' as [[? Hy']|Hy']; simplify_eq; cbn [length];
      [apply le_n_S, IHx; done|apply le_n_S, IHx; [done|by eapply sublist_tail]|apply le_n_S, IHx; [by eapply sublist_tail|done]|].
    specialize (IHx ys (z :: c) Hx' Hy'). cbn in IHx. lia.
  - assert (length (z :: c) ≤ lcs_len xs (y :: ys) ∨ length (z :: c) ≤ lcs_len (x :: xs) ys)%nat as Hor.
    { destruct Hx' as [[-> Hx']|Hx']; [|left; by apply IHx]. destruct Hy' as [[? _]|Hy']; [done|]. right. by apply IHy. }
    case_decide; lia.
Qed.

Lemma sides_removed l : old_side (Removed <$> l) = l ∧ new_side (Removed <$> l) = [] ∧ same_lines (Removed <$> l) = [].
Proof. induction l as [|x l (H1&H2&H3)]; [done|]. split_and!; [cbn; f_equal; exact H1|exact H2|exact H3]. Qed.
Lemma sides_added l : old_side (Added <$> l) = [] ∧ new_side (Added <$> l) = l ∧ same_lines (Added <$> l) = [].
Proof. induction l as [|x l (H1&H2&H3)]; [done|]. split_and!; [exact H1|cbn; f_equal; exact H2|exact H3]. Qed.

Lemma diff_walk_spec table fuel : ∀ xs ys i j,
  (∀ a b, (a ≤ length xs)%nat → (b ≤ length ys)%nat → lcs_at table (i + a) (j + b) = lcs_len (drop a xs) (drop b ys)) →
  (length xs + length ys < fuel)%nat →
  let d := diff_walk fuel table xs ys i j in
  old_side d = xs ∧ new_side d = ys ∧ length (same_lines d) = lcs_len xs ys.
Proof.
  induction fuel as [|fuel IH]; intros xs ys i j Ht Hf; [lia|]. cbv zeta. destruct xs as [|x xs], ys as [|y ys]; cbn [diff_walk].
  - done.
  - destruct (sides_added (y :: ys)) as (H1&H2&H3). cbn [fmap list_fmap app]. split_and!; [exact H1|exact H2|exact (f_equal length H3)].
  - destruct (sides_removed (x :: xs)) as (H1&H2&H3). change (Added <$> []) with (@nil diffLine). rewrite app_nil_r, lcs_len_nil.
    split_and!; [exact H1|exact H2|exact (f_equal length H3)].
  - pose proof (Ht 0%nat 1%nat) as Hright. pose proof (Ht 1%nat 0%nat) as Hdown. cbn [drop length] in Hright, Hdown, Hf.
    rewrite Nat.add_0_r, Nat.add_1_r, drop_0 in Hright, Hdown. specialize (Hright ltac:(lia) ltac:(lia)). specialize (Hdown ltac:(lia) ltac:(lia)).
    rewrite lcs_len_cons, Hright, Hdown. destruct (decide (x = y)) as [<-|Hxy]; [|case_decide].
    + destruct (IH xs ys (S i) (S j)) as (H1&H2&H3); [|lia|].
      { intros a b Ha Hb. specialize (Ht (S a) (S b) ltac:(cbn; lia) ltac:(cbn; lia)). cbn [drop] in Ht. rewrite <- Ht. f_equal; lia. }
      split_and!; cbn; f_equal; [exact H1|exact H2|exact H3].
    + destruct (IH xs (y :: ys) (S i) j) as (H1&H2&H3); [|cbn; lia|].
      { intros a b Ha Hb. specialize (Ht (S a) b ltac:(cbn; lia) Hb). cbn [drop] in Ht. rewrite <- Ht. f_equal; lia. }
      split_and!; [cbn; f_equal; exact H1|exact H2|exact H3].
    + destruct (IH (x :: xs) ys i (S j)) as (H1&H2&H3); [|cbn; lia|].
      { intros a b Ha Hb. specialize (Ht a (S b) Ha ltac:(cbn; lia)). cbn [drop] in Ht. rewrite <- Ht. f_equal; lia. }
      split_and!; [exact H1|cbn; f_equal; exact H2|exact H3].
Qed.

Lemma same_sides d : same_lines d `sublist_of` old_side d ∧ same_lines d `sublist_of` new_side d.
Proof. induction d as [|[t|t|t] d [H1 H2]]; cbn; [done|split; by apply sublist_skip|split; [done|by apply sublist_cons]|split; [by apply sublist_cons|done]]. Qed.

(** C38. The line diff holds both documents: its unchanged and removed lines are the
    lines of the old one, its unchanged and added lines those of the new one; and
    it is a shortest such diff, since its unchanged lines are a longest common
    subsequence of the two. *)
Theorem line_diff_minimal a b :
  old_side (lineDiff a b) = splitLines a ∧ new_side (lineDiff a b) = splitLines b ∧
  same_lines (lineDiff a b) `sublist_of` splitLines a ∧ same_lines (lineDiff a b) `sublist_of` splitLines b ∧
  ∀ c, c `sublist_of` splitLines a → c `sublist_of` splitLines b → (length c ≤ length (same_lines (lineDiff a b)))%nat.
Proof.
  unfold lineDiff. set (x := splitLines a). set (y := splitLines b).
  destruct (diff_walk_spec (lcs_table x y) (S (length x + length y)) x y 0 0) as (H1&H2&H3); [by intros; apply lcs_at_len|lia|].
  set (d := diff_walk _ _ _ _ _ _) in *. destruct (same_sides d) as [H4 H5]. rewrite H1 in H4. rewrite H2 in H5.
  split_and!; [done|done|done|done|]. intros c Hx Hy. rewrite H3. by apply lcs_len_max.
Qed.

Definition doc (lines : list string) : string := join (String "010"%char "") lines.
Example diff_of_two :
  lineDiff (doc ["a"; "b"; "c"]) (doc ["a"; "x"; "c"; "d"]) = [Same "a"; Removed "b"; Added "x"; Same "c"; Added "d"].
Proof. vm_compute. reflexivity. Qed.
