(* ===== verification/UiOps.v ===== *)
(** * Who may see and do what in the console ([internal/ui])

    The identity a request carries (auth.go), what an identity may see and write
    (server.go), the verbs on a workflow (lifecycle.go), the creation of one
    (workflows.go), the guards of the pages, and the hub of live events
    (events.go). The API server and [url.Parse] are parameters. *)

From S2P Require Import Prelude GoStrings GoPath GoTime Api Profile ReviewReady AttemptName Template Kube WorkflowState Controller.

(** ** The identity of a request *)

Record Identity := {
  id_Username : string; id_Email : string; id_Groups : list string; id_Authoritative : bool; id_Dev : bool;
}.

(** The headers of a request, by canonical name; a missing one reads as empty. *)
Notation Headers := (string → string).

Definition non_blank (l : list string) : list string := filter (λ g, g ≠ "") (TrimSpace <$> l).

Definition extractIdentity (h : Headers) : option Identity :=
  let username := or_str (h "X-Authentik-Username") (or_str (h "X-Forwarded-Preferred-Username") (h "X-Forwarded-User")) in
  let email := or_str (h "X-Authentik-Email") (h "X-Forwarded-Email") in
  let '(groupsRaw, groupSep) :=
    if decide (h "X-Authentik-Groups" = "") then (h "X-Forwarded-Groups", ","%char) else (h "X-Authentik-Groups", "|"%char) in
  if decide (username = "") then
    if decide (h "X-Harmostes-Dev-User" = "") then None
    else Some {| id_Username := h "X-Harmostes-Dev-User"; id_Email := ""; id_Groups := []; id_Authoritative := false; id_Dev := true |}
  else
    Some {| id_Username := username; id_Email := email;
            id_Groups := if decide (groupsRaw = "") then [] else non_blank (split_byte groupSep groupsRaw);
            id_Authoritative := negb (bool_decide (h "X-Authentik-Username" = "")); id_Dev := false |}.

(** ** The server's settings *)

Record Server := {
  sv_namespace : string;
  sv_adminGroups : gset string;
  sv_devWrite : bool;
  sv_readOnly : bool;
  sv_readOnlyAs : string;
}.

Definition ParseAdminGroups (env : string) : list string := if decide (env = "") then [] else non_blank (split_byte ","%char env).

Definition SetAdminGroups (groups : list string) (s : Server) : Server :=
  {| sv_namespace := sv_namespace s; sv_adminGroups := list_to_set (non_blank groups); sv_devWrite := sv_devWrite s;
     sv_readOnly := sv_readOnly s; sv_readOnlyAs := sv_readOnlyAs s |}.

(** Who a request acts as; [None] is answered with 401. *)
Definition authMiddleware (s : Server) (h : Headers) : option Identity :=
  match extractIdentity h with
  | Some id => Some id
  | None =>
      if sv_readOnly s && negb (bool_decide (sv_readOnlyAs s = ""))
      then Some {| id_Username := sv_readOnlyAs s; id_Email := ""; id_Groups := []; id_Authoritative := false; id_Dev := false |}
      else None
  end.

Definition isAdmin (s : Server) (id : option Identity) : bool :=
  match id with
  | Some id => id_Authoritative id && existsb (λ g, bool_decide (g ∈ sv_adminGroups s)) (id_Groups id)
  | None => false
  end.

Definition noIdentityOwner : string := String "000"%char "no-identity".
Definition DevOwnerPrefix : string := "dev-".

Definition visibleOwner (s : Server) (id : option Identity) : string :=
  match id with
  | None => noIdentityOwner
  | Some i => if isAdmin s id then "" else if id_Dev i then DevOwnerPrefix +:+ id_Username i else id_Username i
  end.

Definition mayWrite (s : Server) (id : option Identity) : bool :=
  if sv_readOnly s then false
  else match id with Some i => id_Authoritative i || (id_Dev i && sv_devWrite s) | None => false end.

Definition owner_label (m : ObjectMeta) : string := default "" (om_Labels m !! OwnerLabel).

Definition mayViewAttempt (s : Server) (att : Attempt) (id : option Identity) : bool :=
  match id with
  | None => false
  | Some _ => isAdmin s id || bool_decide (owner_label (at_Meta att) = visibleOwner s id)
  end.

(** The filter the lists apply: an empty owner filters nothing. *)
Definition list_filter (s : Server) (id : option Identity) (m : ObjectMeta) : bool :=
  bool_decide (visibleOwner s id = "") || bool_decide (om_Labels m !! OwnerLabel = Some (visibleOwner s id)).

(** ** Answers *)

Inductive Resp :=
| Answer (code : Z) (body : string)
| SeeOther (target : string)
| PageOf (name : string).

Definition forbidden : Resp := Answer 403 "403 Forbidden — this identity may not take write actions".

(** ** The API server *)

Class ConsoleApi (W : Type) := {
  ca_now : W → Z;
  ca_workflow : Key → W → result KErr WorkflowObject * W;
  ca_attempt : Key → W → result KErr Attempt * W;
  ca_template : Key → W → result KErr WorkflowTemplate * W;
  (** Merge patches of the object read. *)
  ca_patch_disabled : WorkflowObject → bool → W → result KErr unit * W;
  ca_patch_annotations : WorkflowObject → gmap string string → W → result KErr unit * W;
  ca_delete : WorkflowObject → W → result KErr unit * W;
  ca_create : WorkflowObject → W → result KErr unit * W;
}.

(** The world and the counter of writes, [harmostes_ui_writes_total]. *)
Record Console (W : Type) := { cs_world : W; cs_writes : list (string * string) }.
Arguments cs_world {W}. Arguments cs_writes {W}.

Definition recordWrite {W} (action outcome : string) (w : W) (st : Console W) : Console W :=
  {| cs_world := w; cs_writes := cs_writes st ++ [(action, outcome)] |}.
Definition at_world {W} (w : W) (st : Console W) : Console W := {| cs_world := w; cs_writes := cs_writes st |}.

Section handlers.
Context {W : Type} `{ConsoleApi W}.

Definition not_found (name : string) : Resp := Answer 404 ("Workflow not found: " +:+ name).
Definition own (s : Server) (id : option Identity) (m : ObjectMeta) : bool :=
  bool_decide (owner_label m = visibleOwner s id) || isAdmin s id.

Definition operableWorkflow (s : Server) (id : option Identity) (action name : string) (st : Console W)
    : (Resp + WorkflowObject) * Console W :=
  if negb (mayWrite s id) then (inl forbidden, recordWrite action "forbidden" (cs_world st) st)
  else match ca_workflow (sv_namespace s, name) (cs_world st) with
       | (Err _, w) => (inl (not_found name), recordWrite action "error" w st)
       | (Ok wf, w) => if negb (own s id (wo_Meta wf)) then (inl (not_found name), recordWrite action "forbidden" w st)
                       else (inr wf, at_world w st)
       end.

(** The end of a verb: a patch or a deletion, and its answer. *)
Definition settle (action target message : string) (r : result KErr unit * W) (st : Console W) : Resp * Console W :=
  match r with
  | (Err _, w) => (Answer 500 message, recordWrite action "error" w st)
  | (Ok _, w) => (SeeOther target, recordWrite action "created" w st)
  end.

Definition detail_url (wf : WorkflowObject) : string := "/workflows/" +:+ om_Name (wo_Meta wf).

Definition toggleWorkflow (s : Server) (id : option Identity) (action : string) (disabled : bool) (name : string)
    (st : Console W) : Resp * Console W :=
  match operableWorkflow s id action name st with
  | (inl resp, st) => (resp, st)
  | (inr wf, st) =>
      if Bool.eqb (wf_Disabled (wo_Spec wf)) disabled then (SeeOther (detail_url wf), st)
      else settle action (detail_url wf) "Failed to update workflow" (ca_patch_disabled wf disabled (cs_world st)) st
  end.
Definition handleWorkflowEnable s id name st := toggleWorkflow s id "enable" false name st.
Definition handleWorkflowDisable s id name st := toggleWorkflow s id "disable" true name st.

(** [time.Now().UnixNano()] *)
Definition UnixNano (t : Z) : Z := i64 (t - 62135596800 * Second).

Definition handleWorkflowTrigger (s : Server) (id : option Identity) (name : string) (st : Console W) : Resp * Console W :=
  match operableWorkflow s id "trigger" name st with
  | (inl resp, st) => (resp, st)
  | (inr wf, st) =>
      if wf_Disabled (wo_Spec wf)
      then (Answer 409 "Workflow is paused — arm it before triggering", recordWrite "trigger" "error" (cs_world st) st)
      else
        let revision := ManualTriggerPrefix +:+ pretty (UnixNano (ca_now (cs_world st))) in
        settle "trigger" (detail_url wf) "Failed to trigger workflow"
          (ca_patch_annotations wf (<[TriggerRevisionAnnotation := revision]> (wo_Annotations wf)) (cs_world st)) st
  end.

Definition handleWorkflowDelete (s : Server) (id : option Identity) (name : string) (st : Console W) : Resp * Console W :=
  match operableWorkflow s id "delete" name st with
  | (inl resp, st) => (resp, st)
  | (inr wf, st) => settle "delete" "/workflows" "Failed to delete workflow" (ca_delete wf (cs_world st)) st
  end.

(** ** The creation of a workflow *)

(** [^[a-z0-9]([-a-z0-9]*[a-z0-9])?$] *)
Definition workflowNameRe (s : string) : bool :=
  match s with
  | "" => false
  | String c rest =>
      dns_alnum c && match String.rev rest with
                     | "" => true
                     | String l mid => dns_alnum l && all_bytes dns_byte mid
                     end
  end.
Definition maxWorkflowNameLen : Z := 63.

(** A value of the instance's configuration. *)
Inductive ScopeValue := ScopeText (s : string) | ScopeList (l : list string).
#[global] Instance ScopeValue_eq_dec : EqDecision ScopeValue.
Proof. solve_decision. Defined.

Definition form_name (tmpl : WorkflowTemplate) (p : ScopeParam) : string := "scope-" +:+ om_Name (wtm_Meta tmpl) +:+ "-" +:+ sp_Name p.

Definition scope_value (form : string → string) (tmpl : WorkflowTemplate) (p : ScopeParam) : ScopeValue :=
  if decide (sp_Kind p = "list") then
    let items := non_blank (split_byte ","%char (form (form_name tmpl p))) in
    ScopeList (if decide (items = [] ∧ sp_Default p ≠ "") then non_blank (split_byte ","%char (sp_Default p)) else items)
  else ScopeText (or_str (TrimSpace (form (form_name tmpl p))) (sp_Default p)).

Definition scope_config (form : string → string) (tmpl : WorkflowTemplate) : gmap string ScopeValue :=
  foldl (λ cfg p, <[sp_Name p := scope_value form tmpl p]> cfg) ∅ (wt_Scope (wtm_Spec tmpl)).

(** A request to create: the form is missing when it does not parse. *)
Record CreateRequest := { cr_Origin : string; cr_Host : string; cr_Form : option (string → string) }.

Section create.
Context (origin_host : string → option string) (marshal_config : gmap string ScopeValue → result string string).

(** The text stored as the configuration; a template without parameters stores none. *)
Definition scopeConfigJSON (form : string → string) (tmpl : WorkflowTemplate) : result string string :=
  let cfg := scope_config form tmpl in if decide (cfg = ∅) then Ok "" else marshal_config cfg.

Definition zero_plugin : PluginRef := {| pr_Name := ""; pr_Image := ""; pr_ConfigMap := ""; pr_Args := []; pr_Timeout := "" |}.
(** A thin instance of a template, disabled. *)
Definition thin_workflow (s : Server) (name templateRef sourceKind cfg : string) (labels : gmap string string) : WorkflowObject :=
  {| wo_Workflow :=
       {| wk_Meta := {| om_Name := name; om_Namespace := sv_namespace s; om_Labels := labels; om_CreationTimestamp := 0;
                        om_ResourceVersion := 0; om_UID := "" |};
          wk_Spec :=
            {| wf_Source := {| so_Kind := sourceKind; so_Repo := ""; so_Branch := ""; so_Revision := ""; so_Schedule := "";
                               so_Topic := ""; so_Language := ""; so_Fork := None; so_Webhook := None |};
               wf_TemplateRef := templateRef; wf_Config := cfg; wf_WorkspaceRepo := None;
               wf_Prepare := {| pp_Plugin := zero_plugin; pp_Output := ""; pp_Detect := ""; pp_Config := "" |};
               wf_Agent := {| ag_Enabled := None; ag_Model := ""; ag_Models := []; ag_Skill := ""; ag_Tools := [];
                              ag_Extensions := []; ag_ExcludeTools := []; ag_NoMCP := None; ag_Thinking := "";
                              ag_ToolBudget := None; ag_TaskTemplate := {| tt_Name := ""; tt_ConfigMap := ""; tt_Key := "" |};
                              ag_Gate := {| gt_Plugin := zero_plugin |}; ag_MaxFixes := 0; ag_Timeout := 0; ag_Scope := "" |};
               wf_Deploy := {| dp_Plugin := zero_plugin |}; wf_Graph := None; wf_ReviewReady := None; wf_Bindings := [];
               wf_Events := None; wf_Cache := None; wf_Sessions := None; wf_Attachments := []; wf_PluginsConfigMapRef := "";
               wf_Scaling := None; wf_Disabled := true |} |};
     wo_Annotations := ∅; wo_Generation := 0; wo_Status := zero_wstatus |}.

(** The owner a writer's objects are stamped with. *)
Definition write_owner (i : Identity) : string := if id_Dev i then DevOwnerPrefix +:+ id_Username i else id_Username i.

Definition same_origin (r : CreateRequest) : bool :=
  bool_decide (cr_Origin r = "") || bool_decide (origin_host (cr_Origin r) = Some (cr_Host r)).

(** The checks of the form's name, template and cadence; the template is read on the way. *)
Definition create_checked (s : Server) (owner : string) (form : string → string) (w : W) : result (Z * string) WorkflowObject * W :=
  let name := TrimSpace (form "name") in
  if decide (name = "") then (Err (400, "Workflow name is required"), w)
  else if negb (workflowNameRe name) || (maxWorkflowNameLen <? slen name)
  then (Err (400, "Invalid workflow name: must be lowercase, alphanumeric with hyphens, max 63 characters"), w)
  else
  let templateRef := TrimSpace (form "templateRef") in
  if decide (templateRef = "") then (Err (400, "A template must be selected — workflows are template instances"), w)
  else match ca_template (sv_namespace s, templateRef) w with
  | (Err _, w) => (Err (400, "Unknown template: " +:+ templateRef), w)
  | (Ok tmpl, w) =>
      let sourceKind := or_str (form "sourceKind") "schedule" in
      if decide (sourceKind ≠ "schedule" ∧ sourceKind ≠ "webhook")
      then (Err (400, "Invalid source kind: " +:+ sourceKind +:+ " (schedule or webhook)"), w)
      else match scopeConfigJSON form tmpl with
      | Err e => (Err (400, "Failed to build config: " +:+ e), w)
      | Ok cfg =>
          match StampOwnerLabel ∅ owner with
          | Err e => (Err (400, e), w)
          | Ok labels => (Ok (thin_workflow s name templateRef sourceKind cfg labels), w)
          end
      end
  end.

Definition handleWorkflowCreate (s : Server) (id : option Identity) (r : CreateRequest) (st : Console W) : Resp * Console W :=
  let fail code msg w := (Answer code msg, recordWrite "create" "error" w st) in
  match id with
  | Some i =>
      if negb (mayWrite s id) then (forbidden, recordWrite "create" "forbidden" (cs_world st) st)
      else if negb (same_origin r)
      then (Answer 403 "403 Forbidden — cross-origin write", recordWrite "create" "forbidden" (cs_world st) st)
      else match cr_Form r with
      | None => fail 400 "Invalid form data" (cs_world st)
      | Some form =>
          match create_checked s (write_owner i) form (cs_world st) with
          | (Err (code, msg), w) => fail code msg w
          | (Ok wf, w) =>
              match ca_create wf w with
              | (Err AlreadyExists, w) => fail 409 "A workflow with that name already exists" w
              | (Err _, w) => fail 500 "Failed to create workflow" w
              | (Ok _, w) => (SeeOther (detail_url wf), recordWrite "create" "created" w st)
              end
          end
      end
  | None => (forbidden, recordWrite "create" "forbidden" (cs_world st) st)
  end.
End create.

(** ** The guards of the pages *)

(** What the page of a workflow answers someone who may not see it. *)
Definition handleWorkflowDetail (s : Server) (id : option Identity) (name : string) (w : W) : (Resp + WorkflowObject) * W :=
  if decide (name = "") then (inl (Answer 404 "404 page not found"), w)
  else match ca_workflow (sv_namespace s, name) w with
       | (Err _, w) => (inl (Answer 200 ("Workflow not found: " +:+ name)), w)
       | (Ok wf, w) => if negb (own s id (wo_Meta wf)) then (inl (Answer 404 "404 page not found"), w) else (inr wf, w)
       end.

(** The guard of the graph API; [quote] is [%q]. *)
Definition handleWorkflowGraphAPI (quote : string → string) (s : Server) (id : option Identity) (name : string) (w : W) : (Resp + WorkflowObject) * W :=
  let missing := Answer 404 ("workflow " +:+ quote name +:+ " not found") in
  match ca_workflow (sv_namespace s, name) w with
  | (Err _, w) => (inl missing, w)
  | (Ok wf, w) =>
      if negb (bool_decide (visibleOwner s id = "")) && negb (bool_decide (owner_label (wo_Meta wf) = visibleOwner s id))
      then (inl missing, w) else (inr wf, w)
  end.

Context (error_text : KErr → string).

Definition getAttempt (s : Server) (name : string) (w : W) : result (string * bool) Attempt * W :=
  match ca_attempt (sv_namespace s, name) w with
  | (Err e, w) => (Err ("get attempt " +:+ name +:+ ": " +:+ error_text e, IsNotFound e), w)
  | (Ok att, w) => (Ok att, w)
  end.

Definition attemptOr404 (s : Server) (id : option Identity) (name : string) (w : W) : (Resp + Attempt) * W :=
  let missing := Answer 404 "404 page not found" in
  if decide (name = "") then (inl missing, w)
  else match getAttempt s name w with
       | (Err (_, true), w) => (inl missing, w)
       | (Err (e, false), w) => (inl (Answer 200 ("Failed to get attempt: " +:+ e)), w)
       | (Ok att, w) => if mayViewAttempt s att id then (inr att, w) else (inl missing, w)
       end.

(** The guard of the pages of an attempt and of a session. *)
Definition handleAttemptDetail (s : Server) (id : option Identity) (name : string) (w : W) : (Resp + Attempt) * W :=
  if decide (name = "") then (inl (Answer 200 "attempt name required"), w)
  else match getAttempt s name w with
       | (Err (e, _), w) => (inl (Answer 200 ("Failed to get attempt: " +:+ e)), w)
       | (Ok att, w) => if mayViewAttempt s att id then (inr att, w) else (inl (Answer 200 "attempt not found"), w)
       end.

(** The download of a session: every failure is the same 404. *)
Definition handleAttemptPiSession (s : Server) (id : option Identity) (name : string) (w : W) : (Resp + Attempt) * W :=
  match getAttempt s name w with
  | (Ok att, w) => if mayViewAttempt s att id then (inr att, w) else (inl (Answer 404 "404 page not found"), w)
  | (Err _, w) => (inl (Answer 404 "404 page not found"), w)
  end.

(** The guard of a run's logs: the run is one the attempt recorded. *)
Definition handleRunLogs (s : Server) (id : option Identity) (name job : string) (w : W) : (Resp + Attempt) * W :=
  if decide (name = "" ∨ job = "") then (inl (Answer 404 "404 page not found"), w)
  else match attemptOr404 s id name w with
       | (inr att, w) =>
           match List.find (λ r, String.eqb (rr_Name r) job) (st_Runs (at_Status att)) with
           | Some r => if decide (rr_Phase r = "") then (inl (Answer 404 "404 page not found"), w) else (inr att, w)
           | None => (inl (Answer 404 "404 page not found"), w)
           end
       | r => r
       end.
End handlers.

(** ** A verb, from the headers to the API server *)

Inductive Verb := VEnable | VDisable | VTrigger | VDelete.

Section serve.
Context {W : Type} `{ConsoleApi W}.

Definition operate (v : Verb) : Server → option Identity → string → Console W → Resp * Console W :=
  match v with
  | VEnable => handleWorkflowEnable
  | VDisable => handleWorkflowDisable
  | VTrigger => handleWorkflowTrigger
  | VDelete => handleWorkflowDelete
  end.

Definition unauthorized : Resp := Answer 401 "401 Unauthorized — no Authentik identity headers".

Definition serveVerb (s : Server) (h : Headers) (v : Verb) (name : string) (st : Console W) : Resp * Console W :=
  match authMiddleware s h with
  | None => (unauthorized, st)
  | Some id => operate v s (Some id) name st
  end.

(** The one write of a verb, on the object read. *)
Definition verb_write (v : Verb) (wf : WorkflowObject) (w : W) : result KErr unit * W :=
  match v with
  | VEnable => ca_patch_disabled wf false w
  | VDisable => ca_patch_disabled wf true w
  | VTrigger => ca_patch_annotations wf
      (<[TriggerRevisionAnnotation := ManualTriggerPrefix +:+ pretty (UnixNano (ca_now w))]> (wo_Annotations wf)) w
  | VDelete => ca_delete wf w
  end.
(** When the verb has something to write. *)
Definition verb_applies (v : Verb) (wf : WorkflowObject) : Prop :=
  match v with VEnable => wf_Disabled (wo_Spec wf) = true | VDisable | VTrigger => wf_Disabled (wo_Spec wf) = false | VDelete => True end.

Lemma settle_world action target msg (r : result KErr unit * W) st : cs_world (settle action target msg r st).2 = r.2.
Proof. unfold settle. by destruct r as [[] w]. Qed.

(** The world a verb leaves: as it was, as the read left it, or as its one write did. *)
Lemma operate_world v s id name st :
  let read := ca_workflow (sv_namespace s, name) (cs_world st) in
  cs_world (operate v s id name st).2 =
    if mayWrite s id then
      match read.1 with
      | Ok wf => if own s id (wo_Meta wf) && (match v with VEnable => wf_Disabled (wo_Spec wf) | VDelete => true | _ => negb (wf_Disabled (wo_Spec wf)) end)
                 then (verb_write v wf read.2).2 else read.2
      | Err _ => read.2
      end
    else cs_world st.
Proof.
  cbv zeta. destruct v; unfold operate, handleWorkflowEnable, handleWorkflowDisable, toggleWorkflow, handleWorkflowTrigger, handleWorkflowDelete, operableWorkflow;
    destruct (mayWrite s id); cbn [negb]; try done; destruct (ca_workflow _ _) as [[wf|e] w]; cbn [fst snd]; try done;
    destruct (own s id (wo_Meta wf)); cbn [negb andb]; try done.
  - unfold verb_write. destruct (wf_Disabled (wo_Spec wf)); cbn [Bool.eqb]; [apply settle_world|done].
  - unfold verb_write. destruct (wf_Disabled (wo_Spec wf)); cbn [Bool.eqb negb]; [done|apply settle_world].
  - destruct (wf_Disabled (wo_Spec wf)); cbn [negb]; [done|apply settle_world].
  - apply settle_world.
Qed.

(** What the answer is to a workflow of someone else: that of a missing one. *)
Lemma operate_missing v s id name st :
  mayWrite s id = true →
  match (ca_workflow (sv_namespace s, name) (cs_world st)).1 with Ok wf => own s id (wo_Meta wf) = false | Err _ => True end →
  (operate v s id name st).1 = not_found name.
Proof.
  intros Hw. destruct v; unfold operate, handleWorkflowEnable, handleWorkflowDisable, toggleWorkflow, handleWorkflowTrigger, handleWorkflowDelete, operableWorkflow;
    rewrite Hw; cbn [negb]; destruct (ca_workflow _ _) as [[wf|e] w]; cbn [fst]; intros Ho; rewrite ?Ho; done.
Qed.
End serve.

(** ** Identities *)

Definition admin_group (s : Server) (id : Identity) : Prop := ∃ g, g ∈ id_Groups id ∧ g ∈ sv_adminGroups s.

Lemma isAdmin_iff s id : isAdmin s (Some id) = true ↔ id_Authoritative id = true ∧ admin_group s id.
Proof.
  unfold isAdmin, admin_group. rewrite andb_true_iff, existsb_exists. setoid_rewrite bool_decide_eq_true. setoid_rewrite <- list_elem_of_In. done.
Qed.

Lemma authMiddleware_cases s h id : authMiddleware s h = Some id →
  (h "X-Authentik-Username" ≠ "" ∧ id_Username id = h "X-Authentik-Username" ∧ id_Authoritative id = true ∧ id_Dev id = false) ∨
  (h "X-Authentik-Username" = "" ∧ id_Authoritative id = false ∧ id_Username id ≠ "" ∧
   (id_Dev id = true → id_Username id = h "X-Harmostes-Dev-User" ∧ id_Groups id = [] ∧ h "X-Forwarded-Preferred-Username" = "" ∧ h "X-Forwarded-User" = "")).
Proof.
  unfold authMiddleware. destruct (extractIdentity h) as [i|] eqn:E.
  - intros [= <-]. unfold extractIdentity in E. destruct (if decide (h "X-Authentik-Groups" = "") then _ else _) as [raw sep].
    unfold or_str in E. destruct (decide (h "X-Authentik-Username" = "")) as [Ha|Ha].
    + right. destruct (decide (h "X-Forwarded-Preferred-Username" = "")) as [Hp|Hp]; repeat case_decide; simplify_eq; cbn; split_and!; try done; by rewrite Ha.
    + left. case_decide; [done|]. injection E as <-. cbn. rewrite bool_decide_eq_false_2 by done. done.
  - destruct (sv_readOnly s); cbn [andb]; [|done]. case_bool_decide; cbn [negb]; [done|]. intros [= <-]. right. cbn. split_and!; try done.
    unfold extractIdentity in E. destruct (if decide (h "X-Authentik-Groups" = "") then _ else _) as [raw sep].
    unfold or_str in E. repeat case_decide; done.
Qed.

Lemma visibleOwner_plain s id : isAdmin s (Some id) = false → visibleOwner s (Some id) = write_owner id.
Proof. unfold visibleOwner. by intros ->. Qed.

Lemma owner_nonempty s h id : authMiddleware s h = Some id → write_owner id ≠ "".
Proof.
  intros Ha. apply authMiddleware_cases in Ha as [(Hn&Hu&_&Hd)|(_&_&Hn&_)]; unfold write_owner.
  - by rewrite Hd, Hu.
  - by destruct (id_Dev id).
Qed.

(** Only administrators see without a filter. *)
Lemma unrestricted_only_admin s h id : authMiddleware s h = Some id → visibleOwner s (Some id) = "" ↔ isAdmin s (Some id) = true.
Proof.
  intros Ha. destruct (isAdmin s (Some id)) eqn:E; [unfold visibleOwner; by rewrite E|]. rewrite visibleOwner_plain by done.
  apply owner_nonempty in Ha. naive_solver.
Qed.

(** ** Verbs *)

Section verbs.
Context {W : Type} `{ConsoleApi W}.

(** C34. A verb on a workflow writes at most once, and then on the object it read,
    where it is due (a disabled one is enabled, an enabled one disabled or
    triggered), on a server that is not read-only, and for one of two: the
    identity of the outpost, which owns the workflow or is in an administrators'
    group, or the development identity of a server with development writes, whose
    reserved label the workflow carries. A workflow of someone else is answered
    like one that is missing. *)
Theorem verb_is_authorized s h v name st :
  let after := serveVerb s h v name st in
  let read := ca_workflow (sv_namespace s, name) (cs_world st) in
  (∀ id, authMiddleware s h = Some id → mayWrite s (Some id) = true →
     match read.1 with Ok wf => own s (Some id) (wo_Meta wf) = false | Err _ => True end → after.1 = not_found name) ∧
  (cs_world after.2 = cs_world st ∨ cs_world after.2 = read.2 ∨
  ∃ wf id, read.1 = Ok wf ∧ cs_world after.2 = (verb_write v wf read.2).2 ∧ authMiddleware s h = Some id ∧
    sv_readOnly s = false ∧ verb_applies v wf ∧
    ((h "X-Authentik-Username" ≠ "" ∧ (owner_label (wo_Meta wf) = h "X-Authentik-Username" ∨ admin_group s id)) ∨
     (h "X-Authentik-Username" = "" ∧ sv_devWrite s = true ∧ owner_label (wo_Meta wf) = DevOwnerPrefix +:+ h "X-Harmostes-Dev-User"))).
Proof.
  cbv zeta. split.
  { intros id Ha Hm Ho. unfold serveVerb. rewrite Ha. by apply operate_missing. }
  unfold serveVerb. destruct (authMiddleware s h) as [id|] eqn:Ha; [|by left]. pose proof (operate_world v s (Some id) name st) as Hw.
  cbv zeta in Hw. rewrite Hw. clear Hw. destruct (mayWrite s (Some id)) eqn:Hm; [|by left]. right.
  destruct (ca_workflow _ _) as [[wf|e] w]; cbn [fst snd]; [|by left].
  destruct (own s (Some id) (wo_Meta wf)) eqn:Ho; cbn [andb]; [|by left].
  destruct (match v with VEnable => _ | VDelete => true | _ => _ end) eqn:Hv; [|by left]. right.
  unfold mayWrite in Hm. destruct (sv_readOnly s); [done|]. exists wf, id. split_and!; [done|done|done|done|by destruct v; cbn in *; try apply negb_true_iff|].
  unfold own in Ho. apply orb_true_iff in Ho. destruct (isAdmin s (Some id)) eqn:Had.
  - apply isAdmin_iff in Had as [Hauth Hg]. apply authMiddleware_cases in Ha as [(Hn&_)|(_&Hf&_)]; [|congruence]. left. split; [done|by right].
  - destruct Ho as [Ho|Ho]; [|done]. apply bool_decide_eq_true in Ho. rewrite visibleOwner_plain in Ho by done. unfold write_owner in Ho.
    apply authMiddleware_cases in Ha as [(Hn&Hu&_&Hd)|(Hn&Hf&_&Hdev)].
    + left. split; [done|]. left. by rewrite Ho, Hd.
    + right. rewrite Hf in Hm. cbn in Hm. apply andb_true_iff in Hm as [Hd Hs]. destruct (Hdev Hd) as (Hu&_). rewrite Hd in Ho. split_and!; [done|done|].
      by rewrite Ho, Hu.
Qed.
End verbs.

(** ** Creation *)

Lemma scope_config_dom form tmpl : dom (scope_config form tmpl) = list_to_set (sp_Name <$> wt_Scope (wtm_Spec tmpl)).
Proof.
  unfold scope_config. assert (∀ l (m : gmap string ScopeValue), dom (foldl (λ cfg p, <[sp_Name p := scope_value form tmpl p]> cfg) m l) = dom m ∪ list_to_set (sp_Name <$> l)) as Hf.
  { induction l as [|p l IH]; intros m; cbn; [set_solver|]. rewrite IH, dom_insert_L. set_solver. }
  rewrite Hf. set_solver.
Qed.

(** A stored value is the value of the template's own field, or its default. *)
Lemma scope_config_value form tmpl k v : scope_config form tmpl !! k = Some v →
  ∃ p, p ∈ wt_Scope (wtm_Spec tmpl) ∧ sp_Name p = k ∧ v = scope_value form tmpl p.
Proof.
  unfold scope_config. revert k v. induction (wt_Scope (wtm_Spec tmpl)) as [|p l IH] using rev_ind; intros k v; [done|]. rewrite foldl_app. cbn.
  intros [[<- <-]|[Hk Hv]]%lookup_insert_Some; [exists p; split_and!; [set_solver|done|done]|].
  destruct (IH k v Hv) as (q&Hq&<-&->). exists q. split_and!; [set_solver|done|done].
Qed.

Section creation.
Context {W : Type} `{ConsoleApi W} (origin_host : string → option string) (marshal_config : gmap string ScopeValue → result string string).
Notation create := (handleWorkflowCreate origin_host marshal_config).

Lemma create_checked_ok s owner form w wf w' : create_checked marshal_config s owner form w = (Ok wf, w') →
  ∃ tmpl cfg kind, ca_template (sv_namespace s, TrimSpace (form "templateRef")) w = (Ok tmpl, w') ∧
    scopeConfigJSON marshal_config form tmpl = Ok cfg ∧ kind ∈ ["schedule"; "webhook"] ∧
    workflowNameRe (TrimSpace (form "name")) = true ∧ slen (TrimSpace (form "name")) ≤ maxWorkflowNameLen ∧
    wf = thin_workflow s (TrimSpace (form "name")) (TrimSpace (form "templateRef")) kind cfg {[ OwnerLabel := owner ]}.
Proof.
  unfold create_checked. case_decide; [done|]. destruct (workflowNameRe _) eqn:Hre; cbn [negb orb]; [|done].
  destruct (Z.ltb_spec maxWorkflowNameLen (slen (TrimSpace (form "name")))); [done|]. case_decide; [done|].
  destruct (ca_template _ _) as [[tmpl|e] w1]; [|done]. case_decide as Hk; [done|].
  destruct (scopeConfigJSON _ _ _) as [cfg|e] eqn:Hc; [|done]. unfold StampOwnerLabel. destruct (_ || _ || _); [done|].
  intros [= <- <-]. exists tmpl, cfg, (or_str (form "sourceKind") "schedule"). split_and!; try done.
  set (kind := or_str (form "sourceKind") "schedule") in *.
  destruct (decide (kind = "schedule")) as [->|]; [set_solver|]. destruct (decide (kind = "webhook")) as [->|]; [set_solver|]. naive_solver.
Qed.

Lemma thin_owner s name ref kind cfg owner : owner_label (wo_Meta (thin_workflow s name ref kind cfg {[ OwnerLabel := owner ]})) = owner.
Proof. change (default "" (({[ OwnerLabel := owner ]} : gmap string string) !! OwnerLabel) = owner). by rewrite lookup_singleton_eq. Qed.

(** C35. A workflow the console creates is wanted by a writer of the console's own
    pages, carries its owner's label, so that its creator sees, lists and operates
    it, and starts disabled; its configuration has just the parameters its
    template declares, each from the field of that template or its default. *)
Theorem created_is_owned_and_inert s id r st target st' :
  create s id r st = (SeeOther target, st') →
  ∃ i form tmpl w wf cfg, id = Some i ∧ mayWrite s id = true ∧ cr_Form r = Some form ∧
    (cr_Origin r = "" ∨ origin_host (cr_Origin r) = Some (cr_Host r)) ∧
    ca_template (sv_namespace s, TrimSpace (form "templateRef")) (cs_world st) = (Ok tmpl, w) ∧
    ca_create wf w = (Ok tt, cs_world st') ∧ wf_Disabled (wo_Spec wf) = true ∧
    owner_label (wo_Meta wf) = write_owner i ∧ own s id (wo_Meta wf) = true ∧ list_filter s id (wo_Meta wf) = true ∧
    dom cfg = list_to_set (sp_Name <$> wt_Scope (wtm_Spec tmpl)) ∧
    (∀ k v, cfg !! k = Some v → ∃ p, p ∈ wt_Scope (wtm_Spec tmpl) ∧ sp_Name p = k ∧ v = scope_value form tmpl p) ∧
    (if decide (cfg = ∅) then wf_Config (wo_Spec wf) = "" else marshal_config cfg = Ok (wf_Config (wo_Spec wf))).
Proof.
  unfold handleWorkflowCreate. destruct id as [i|]; [|done]. destruct (mayWrite s (Some i)) eqn:Hm; cbn [negb]; [|done].
  destruct (same_origin origin_host r) eqn:Ho; cbn [negb]; [|done]. destruct (cr_Form r) as [form|] eqn:Hform; [|done].
  destruct (create_checked _ _ _ _ _) as [[wf|[code msg]] w] eqn:Hc; [|done].
  apply create_checked_ok in Hc as (tmpl&cfg&kind&Ht&Hcfg&_&_&_&Hwf). destruct (ca_create wf w) as [[[]|[]] w'] eqn:Hcr; try done.
  intros [= _ <-]. exists i, form, tmpl, w, wf, (scope_config form tmpl).
  assert (owner_label (wo_Meta wf) = write_owner i) as Hown by (subst wf; apply thin_owner).
  split_and!; try done.
  - unfold same_origin in Ho. apply orb_true_iff in Ho as [Ho|Ho]; apply bool_decide_eq_true in Ho; [by left|by right].
  - by subst wf.
  - unfold own. destruct (isAdmin s (Some i)) eqn:Had; [apply orb_true_r|]. rewrite visibleOwner_plain by done. by rewrite bool_decide_eq_true_2.
  - unfold list_filter. destruct (isAdmin s (Some i)) eqn:Had; [unfold visibleOwner; by rewrite Had|]. rewrite visibleOwner_plain by done.
    apply orb_true_iff. right. apply bool_decide_eq_true. subst wf. apply lookup_singleton_eq.
  - apply scope_config_dom.
  - apply scope_config_value.
  - unfold scopeConfigJSON in Hcfg. case_decide; subst wf; cbn; [by injection Hcfg as <-|done].
Qed.
End creation.

(** ** Limits of the guards *)

Definition headers_of (l : list (string * string)) : Headers := λ k, default "" ((list_to_map l : gmap string string) !! k).
Definition plain_server (admins : list string) : Server :=
  SetAdminGroups admins {| sv_namespace := "ns"; sv_adminGroups := ∅; sv_devWrite := false; sv_readOnly := false; sv_readOnlyAs := "" |}.

(** A user of the outpost without groups takes them from the forwarded header. *)
Lemma forwarded_groups_make_admin :
  let h := headers_of [("X-Authentik-Username", "mallory"); ("X-Forwarded-Groups", "ops")] in
  ∃ id, authMiddleware (plain_server ["ops"]) h = Some id ∧ isAdmin (plain_server ["ops"]) (Some id) = true ∧
        mayWrite (plain_server ["ops"]) (Some id) = true ∧ h "X-Authentik-Groups" = "".
Proof. eexists. split; [vm_compute; reflexivity|]. vm_compute. split_and!; reflexivity. Qed.

(** A user whose name has the reserved prefix shares its label with a development identity. *)
Lemma dev_namespace_shared s : ∃ h h' id id', h "X-Harmostes-Dev-User" = "" ∧ authMiddleware s h = Some id ∧ id_Dev id = false ∧
  authMiddleware s h' = Some id' ∧ id_Dev id' = true ∧ visibleOwner s (Some id) = visibleOwner s (Some id').
Proof.
  exists (headers_of [("X-Authentik-Username", "dev-alice")]), (headers_of [("X-Harmostes-Dev-User", "alice")]).
  do 2 eexists. split_and!; [vm_compute; reflexivity|reflexivity|reflexivity|reflexivity|reflexivity|]. reflexivity.
Qed.

Section leaks.
Context {W : Type} `{ConsoleApi W} (error_text : KErr → string).

(** The page of a workflow answers a foreign one otherwise than a missing one. *)
Lemma detail_page_tells_existence s id name (w w1 w2 w3 w4 : W) e wf : name ≠ "" →
  ca_workflow (sv_namespace s, name) w = (Err e, w1) → ca_workflow (sv_namespace s, name) w2 = (Ok wf, w3) → own s id (wo_Meta wf) = false →
  (handleWorkflowDetail s id name w).1 ≠ (handleWorkflowDetail s id name w2).1.
Proof. intros Hn H1 H2 Ho. unfold handleWorkflowDetail. rewrite !decide_False by done. rewrite H1, H2, Ho. by intros [=]. Qed.

(** The logs of a run are of an attempt one may see, and of a run it recorded. *)
Lemma logs_of_own_runs s id name job (w w' : W) att : handleRunLogs error_text s id name job w = (inr att, w') →
  mayViewAttempt s att id = true ∧ ∃ r, r ∈ st_Runs (at_Status att) ∧ rr_Name r = job ∧ rr_Phase r ≠ "".
Proof.
  unfold handleRunLogs, attemptOr404. case_decide; [done|]. case_decide; [naive_solver|].
  destruct (getAttempt _ _ _ _) as [[a|[e []]] w1]; try done. destruct (mayViewAttempt s a id) eqn:Hv; [|done].
  destruct (List.find _ _) as [r|] eqn:Hf; [|done]. apply List.find_some in Hf as [Hin Hr]. case_decide; [done|]. intros [= <- _]. split; [done|].
  exists r. split_and!; [by apply list_elem_of_In|by apply String.eqb_eq|done].
Qed.
End leaks.

(** ** The hub of live events *)

Record Event := {
  hv_Event : string; hv_Pipeline : string; hv_Node : string; hv_NodeType : string; hv_Status : string; hv_Attempt : string;
  hv_Feedback : string; hv_Outputs : string; hv_DurationMs : Z; hv_Timestamp : Z;
}.

(** A client: its channel of 64 events, its predicate, and whether it is deregistered. *)
Record subscriber := { sb_ch : list Event; sb_match : option (Event → bool); sb_closed : bool }.
Definition channel_size : nat := 64.

(** Subscribers are pointers: their names, allocated in order. *)
Record EventHub := { hub_subs : gmap string (gset nat); hub_heap : gmap nat subscriber; hub_next : nat }.
Definition NewEventHub : EventHub := {| hub_subs := ∅; hub_heap := ∅; hub_next := 0 |}.

Definition subs_of (h : EventHub) (pipeline : string) : gset nat := default ∅ (hub_subs h !! pipeline).

Definition SubscribeFilter (pipeline : string) (match_ : option (Event → bool)) (h : EventHub) : nat * EventHub :=
  (hub_next h,
   {| hub_subs := <[pipeline := {[ hub_next h ]} ∪ subs_of h pipeline]> (hub_subs h);
      hub_heap := <[hub_next h := {| sb_ch := []; sb_match := match_; sb_closed := false |}]> (hub_heap h);
      hub_next := S (hub_next h) |}).
Definition Subscribe (pipeline : string) (h : EventHub) : nat * EventHub := SubscribeFilter pipeline None h.

Definition close_sub (s : subscriber) : subscriber := {| sb_ch := sb_ch s; sb_match := sb_match s; sb_closed := true |}.

(** The function a subscription returns to end it. *)
Definition cancel (pipeline : string) (sub : nat) (h : EventHub) : EventHub :=
  {| hub_subs := match hub_subs h !! pipeline with
                 | Some subs => let rest := subs ∖ {[ sub ]} in
                                if decide (rest = ∅) then delete pipeline (hub_subs h) else <[pipeline := rest]> (hub_subs h)
                 | None => hub_subs h
                 end;
     hub_heap := alter close_sub sub (hub_heap h); hub_next := hub_next h |}.

(** The subscribers an event goes to, copied under the lock. *)
Definition recipients (ev : Event) (h : EventHub) : list nat :=
  elements (subs_of h (hv_Pipeline ev)) ++ (if decide (hv_Pipeline ev = "") then [] else elements (subs_of h "")).

(** A send that does not block. *)
Definition offer (ev : Event) (s : subscriber) : subscriber :=
  if match sb_match s with Some m => m ev | None => true end
  then if decide (length (sb_ch s) < channel_size)%nat
       then {| sb_ch := sb_ch s ++ [ev]; sb_match := sb_match s; sb_closed := sb_closed s |} else s
  else s.
Definition send (ev : Event) (sub : nat) (h : EventHub) : EventHub :=
  {| hub_subs := hub_subs h; hub_heap := alter (offer ev) sub (hub_heap h); hub_next := hub_next h |}.
Definition Publish (ev : Event) (h : EventHub) : EventHub := foldl (λ h sub, send ev sub h) h (recipients ev h).

(** The client takes its next event. *)
Definition receive (s : subscriber) : subscriber := {| sb_ch := tail (sb_ch s); sb_match := sb_match s; sb_closed := sb_closed s |}.

Definition SubscriberCount (pipeline : string) (h : EventHub) : nat := size (subs_of h pipeline).

(** The hub, the pipelines of the subscriptions made (each [cancel] is of its own),
    and the sends under way: a publisher copies its recipients, and sends one by
    one without the lock. *)
Record HubState := { hs_hub : EventHub; hs_handles : gmap nat string; hs_out : list (Event * list nat) }.

Inductive hub_step : HubState → HubState → Prop :=
| HSubscribe p m h hs out :
    hub_step {| hs_hub := h; hs_handles := hs; hs_out := out |}
      {| hs_hub := (SubscribeFilter p m h).2; hs_handles := <[hub_next h := p]> hs; hs_out := out |}
| HCancel p sub h hs out : hs !! sub = Some p →
    hub_step {| hs_hub := h; hs_handles := hs; hs_out := out |} {| hs_hub := cancel p sub h; hs_handles := hs; hs_out := out |}
| HCopy ev h hs out :
    hub_step {| hs_hub := h; hs_handles := hs; hs_out := out |} {| hs_hub := h; hs_handles := hs; hs_out := (ev, recipients ev h) :: out |}
| HSend ev sub rest h hs out1 out2 :
    hub_step {| hs_hub := h; hs_handles := hs; hs_out := out1 ++ (ev, sub :: rest) :: out2 |}
      {| hs_hub := send ev sub h; hs_handles := hs; hs_out := out1 ++ (ev, rest) :: out2 |}
| HReceive sub h hs out :
    hub_step {| hs_hub := h; hs_handles := hs; hs_out := out |}
      {| hs_hub := {| hub_subs := hub_subs h; hub_heap := alter receive sub (hub_heap h); hub_next := hub_next h |};
         hs_handles := hs; hs_out := out |}.
Definition hub_reachable (st : HubState) : Prop := rtc hub_step {| hs_hub := NewEventHub; hs_handles := ∅; hs_out := [] |} st.

(** An event of a pipeline, to a subscription of it or of all. *)
Definition concerns (p : string) (ev : Event) : Prop := p = "" ∨ hv_Pipeline ev = p.
Definition passes (s : subscriber) (ev : Event) : Prop := match sb_match s with Some m => m ev = true | None => True end.

Definition sub_ok (st : HubState) (i : nat) (s : subscriber) : Prop :=
  (i < hub_next (hs_hub st))%nat ∧ (length (sb_ch s) ≤ channel_size)%nat ∧
  ∃ p, hs_handles st !! i = Some p ∧ (sb_closed s = false ↔ i ∈ subs_of (hs_hub st) p) ∧
       ∀ ev, ev ∈ sb_ch s → concerns p ev ∧ passes s ev.
Record hub_ok (st : HubState) : Prop := {
  ok_heap : ∀ i s, hub_heap (hs_hub st) !! i = Some s → sub_ok st i s;
  ok_subs : ∀ p X, hub_subs (hs_hub st) !! p = Some X → X ≠ ∅ ∧ ∀ i, i ∈ X → hs_handles st !! i = Some p ∧ is_Some (hub_heap (hs_hub st) !! i);
  ok_handles : ∀ i p, hs_handles st !! i = Some p → is_Some (hub_heap (hs_hub st) !! i);
  ok_out : ∀ ev l i, (ev, l) ∈ hs_out st → i ∈ l → ∃ p, hs_handles st !! i = Some p ∧ concerns p ev;
}.

Lemma subs_of_ok st p i : hub_ok st → i ∈ subs_of (hs_hub st) p → hs_handles st !! i = Some p.
Proof. unfold subs_of. intros H Hi. destruct (hub_subs (hs_hub st) !! p) as [X|] eqn:E; [|set_solver]. by apply (ok_subs _ H p X E). Qed.

Lemma recipients_concern st ev i : hub_ok st → i ∈ recipients ev (hs_hub st) → ∃ p, hs_handles st !! i = Some p ∧ concerns p ev ∧ i ∈ subs_of (hs_hub st) p.
Proof.
  intros H. unfold recipients. rewrite elem_of_app, elem_of_elements. intros [Hi|Hi].
  - exists (hv_Pipeline ev). split; [by apply subs_of_ok|]. split; [by right|done].
  - case_decide; [by apply elem_of_nil in Hi|]. rewrite elem_of_elements in Hi. exists "". split; [by apply subs_of_ok|]. split; [by left|done].
Qed.

(** The same hub but for one subscriber, which keeps its predicate and state. *)
Lemma hub_ok_alter st f i out : hub_ok st → (∀ s, sb_match (f s) = sb_match s ∧ sb_closed (f s) = sb_closed s) →
  (∀ s p, hs_handles st !! i = Some p → (length (sb_ch s) ≤ channel_size)%nat → (∀ ev, ev ∈ sb_ch s → concerns p ev ∧ passes s ev) →
     (length (sb_ch (f s)) ≤ channel_size)%nat ∧ ∀ ev, ev ∈ sb_ch (f s) → concerns p ev ∧ passes s ev) →
  (∀ ev l j, (ev, l) ∈ out → j ∈ l → ∃ p, hs_handles st !! j = Some p ∧ concerns p ev) →
  hub_ok {| hs_hub := {| hub_subs := hub_subs (hs_hub st); hub_heap := alter f i (hub_heap (hs_hub st)); hub_next := hub_next (hs_hub st) |};
            hs_handles := hs_handles st; hs_out := out |}.
Proof.
  intros H Hf Hch Hout. split; cbn; [| | |done].
  - intros j s Hj. apply lookup_alter_Some in Hj as [(->&s0&Hs&->)|[Hne Hs]]; [|exact (ok_heap _ H j s Hs)].
    destruct (ok_heap _ H j s0 Hs) as (Hlt&Hlen&p&Hp&Hcl&Hev). destruct (Hf s0) as [Hm Hc]. destruct (Hch s0 p Hp Hlen Hev) as [Hlen' Hev'].
    split_and!; [done|done|]. exists p. split_and!; [done|by rewrite Hc|]. intros ev Hin. destruct (Hev' ev Hin) as [? Hpass]. split; [done|]. unfold passes in *. by rewrite Hm.
  - intros p X HX. destruct (ok_subs _ H p X HX) as [Hne Hin]. split; [done|]. intros j Hj. destruct (Hin j Hj) as [? ?]. split; [done|]. by apply lookup_alter_is_Some.
  - intros j p Hj. apply lookup_alter_is_Some. by eapply ok_handles.
Qed.

Lemma offer_keeps ev s : sb_match (offer ev s) = sb_match s ∧ sb_closed (offer ev s) = sb_closed s.
Proof. unfold offer. destruct (match sb_match s with Some m => m ev | None => true end); [|done]. by case_decide. Qed.

Lemma send_ok st ev i out : hub_ok st → (∃ p, hs_handles st !! i = Some p ∧ concerns p ev) →
  (∀ ev l j, (ev, l) ∈ out → j ∈ l → ∃ p, hs_handles st !! j = Some p ∧ concerns p ev) →
  hub_ok {| hs_hub := send ev i (hs_hub st); hs_handles := hs_handles st; hs_out := out |}.
Proof.
  intros H (p0&Hp0&Hc) Hout. apply hub_ok_alter; [done|apply offer_keeps| |done].
  intros s p Hp Hlen Hev. assert (p0 = p) as -> by congruence. unfold offer.
  destruct (match sb_match s with Some m => m ev | None => true end) eqn:Hm; [|done]. case_decide as Hl; [|done]. cbn [sb_ch].
  split; [rewrite length_app; cbn; lia|]. intros ev' [Hin| ->%list_elem_of_singleton]%elem_of_app; [by apply Hev|]. split; [done|].
  unfold passes. by destruct (sb_match s).
Qed.

Lemma subscribe_ok p m st : hub_ok st →
  hub_ok {| hs_hub := (SubscribeFilter p m (hs_hub st)).2; hs_handles := <[hub_next (hs_hub st) := p]> (hs_handles st); hs_out := hs_out st |}.
Proof.
  intros H. destruct st as [h hs out]. cbn [hs_hub hs_handles hs_out SubscribeFilter snd].
  assert (hub_heap h !! hub_next h = None) as Hfresh.
  { destruct (hub_heap h !! hub_next h) as [s|] eqn:E; [|done]. destruct (ok_heap _ H _ _ E) as [Hlt _]. cbn in Hlt. lia. }
  assert (∀ j, is_Some (hub_heap h !! j) → j ≠ hub_next h) as Hne by (intros j [? Hj] ->; congruence).
  assert (∀ hp n q, subs_of {| hub_subs := <[p:={[hub_next h]} ∪ subs_of h p]> (hub_subs h); hub_heap := hp; hub_next := n |} q
          = if decide (q = p) then {[hub_next h]} ∪ subs_of h p else subs_of h q) as Hsubs.
  { intros hp n q. unfold subs_of at 1. cbn. case_decide; subst; [by rewrite lookup_insert_eq|by rewrite lookup_insert_ne]. }
  split; cbn [hs_hub hs_handles hs_out hub_heap hub_subs hub_next].
  - intros i s [[<- <-]|[Hn Hs]]%lookup_insert_Some.
    + split_and!; cbn; [lia|unfold channel_size; lia|]. exists p. rewrite lookup_insert_eq. split_and!; [done| |by intros ev ?%elem_of_nil].
      cbn [hs_hub sb_closed]. rewrite Hsubs, decide_True by done. set_solver.
    + destruct (ok_heap _ H i s Hs) as (Hlt&Hlen&q&Hq&Hcl&Hev). cbn in *. split_and!; cbn; [lia|done|]. exists q. rewrite lookup_insert_ne by done.
      split_and!; [done| |done]. rewrite Hcl. cbn [hs_hub]. rewrite Hsubs. case_decide; subst; set_solver.
  - intros q X [[<- <-]|[Hn HX]]%lookup_insert_Some.
    + split; [set_solver|]. intros i [->%elem_of_singleton|Hi]%elem_of_union; [by rewrite !lookup_insert_eq|].
      pose proof (subs_of_ok _ _ _ H Hi) as Hh. cbn in Hh. pose proof (ok_handles _ H _ _ Hh) as Hs. cbn in Hs. apply Hne in Hs as Hi'.
      by rewrite !lookup_insert_ne by done.
    + destruct (ok_subs _ H q X HX) as [Hx Hin]. split; [done|]. intros i Hi. destruct (Hin i Hi) as [Hh Hs]. cbn in Hh, Hs. apply Hne in Hs as Hi'.
      by rewrite !lookup_insert_ne by done.
  - intros i q Hi. destruct (decide (i = hub_next h)) as [->|Hi']; [by rewrite lookup_insert_eq|]. rewrite lookup_insert_ne by done.
    apply lookup_insert_Some in Hi as [[? _]|[_ Hi]]; [done|]. exact (ok_handles _ H i q Hi).
  - intros ev l i Hl Hi. destruct (ok_out _ H ev l i Hl Hi) as (q&Hq&Hc). exists q. split; [|done]. cbn in Hq.
    rewrite lookup_insert_ne; [done|]. symmetry. apply Hne. exact (ok_handles _ H i q Hq).
Qed.

Lemma cancel_subs p i h q : subs_of (cancel p i h) q = if decide (q = p) then subs_of h p ∖ {[ i ]} else subs_of h q.
Proof.
  unfold subs_of, cancel. cbn. destruct (hub_subs h !! p) as [X|] eqn:E; cbn.
  - case_decide as Hx; case_decide as Hq; subst; rewrite ?lookup_delete_eq, ?lookup_insert_eq, ?lookup_delete_ne, ?lookup_insert_ne by done; cbn; set_solver.
  - case_decide; subst; [|done]. rewrite E. cbn. set_solver.
Qed.

Lemma cancel_ok p i st : hub_ok st → hs_handles st !! i = Some p →
  hub_ok {| hs_hub := cancel p i (hs_hub st); hs_handles := hs_handles st; hs_out := hs_out st |}.
Proof.
  intros H Hp. split; cbn [hs_hub hs_handles hs_out].
  - intros j s Hj. unfold cancel in Hj. cbn in Hj. apply lookup_alter_Some in Hj as [(->&s0&Hs&->)|[Hne Hs]].
    + destruct (ok_heap _ H j s0 Hs) as (Hlt&Hlen&q&Hq&Hcl&Hev). assert (q = p) as -> by congruence. split_and!; [done|done|].
      exists p. split_and!; [done| |done]. cbn [hs_hub close_sub sb_closed]. rewrite cancel_subs, decide_True by done. set_solver.
    + destruct (ok_heap _ H j s Hs) as (Hlt&Hlen&q&Hq&Hcl&Hev). split_and!; [done|done|]. exists q. split_and!; [done| |done].
      rewrite Hcl. cbn [hs_hub]. rewrite cancel_subs. case_decide; subst; set_solver.
  - intros q X HX. assert (∀ Y, hub_subs (hs_hub st) !! q = Some Y → X ≠ ∅ → X ⊆ Y → X ≠ ∅ ∧ ∀ j, j ∈ X →
      hs_handles st !! j = Some q ∧ is_Some (hub_heap (cancel p i (hs_hub st)) !! j)) as Hgoal.
    { intros Y HY Hx Hsub. split; [done|]. intros j Hj. destruct (ok_subs _ H q Y HY) as [_ Hin]. destruct (Hin j (Hsub j Hj)) as [? ?].
      split; [done|]. unfold cancel. cbn. by apply lookup_alter_is_Some. }
    unfold cancel in HX. cbn in HX. destruct (hub_subs (hs_hub st) !! p) as [Z|] eqn:E.
    + case_decide as Hz.
      * apply lookup_delete_Some in HX as [? HX]. apply (Hgoal X HX); [|done]. by destruct (ok_subs _ H q X HX).
      * apply lookup_insert_Some in HX as [[<- <-]|[? HX]]; [apply (Hgoal Z E); [done|set_solver]|]. apply (Hgoal X HX); [|done]. by destruct (ok_subs _ H q X HX).
    + apply (Hgoal X HX); [|done]. by destruct (ok_subs _ H q X HX).
  - intros j q Hj. unfold cancel. cbn. apply lookup_alter_is_Some. by eapply ok_handles.
  - exact (ok_out _ H).
Qed.

Lemma hub_ok_step st st' : hub_ok st → hub_step st st' → hub_ok st'.
Proof.
  intros H Hs. destruct Hs as [p m h hs out|p i h hs out Hi|ev h hs out|ev i rest h hs out1 out2|i h hs out].
  - exact (subscribe_ok p m _ H).
  - exact (cancel_ok p i _ H Hi).
  - split; [exact (ok_heap _ H)|exact (ok_subs _ H)|exact (ok_handles _ H)|]. cbn. intros ev' l i [[= -> ->]|Hl]%elem_of_cons Hi; [|exact (ok_out _ H _ _ _ Hl Hi)].
    destruct (recipients_concern _ ev i H Hi) as (p&Hp&Hc&_). by exists p.
  - assert (∀ ev' l j, (ev', l) ∈ out1 ++ (ev, rest) :: out2 → j ∈ l → ∃ p, hs !! j = Some p ∧ concerns p ev') as Hout.
    { intros ev' l j [Hl|[[= -> ->]|Hl]%elem_of_cons]%elem_of_app Hj; [apply (ok_out _ H ev' l)|apply (ok_out _ H ev (i :: rest))|apply (ok_out _ H ev' l)]; cbn; set_solver. }
    apply (send_ok {| hs_hub := h; hs_handles := hs; hs_out := out1 ++ (ev, i :: rest) :: out2 |}); [done| |done].
    apply (ok_out _ H ev (i :: rest)); cbn; set_solver.
  - apply (hub_ok_alter {| hs_hub := h; hs_handles := hs; hs_out := out |}); [done|done| |exact (ok_out _ H)].
    intros s p _ Hlen Hev. cbn. split; [destruct (sb_ch s); cbn in *; lia|]. intros ev Hin. apply Hev. destruct (sb_ch s); cbn in *; set_solver.
Qed.

Lemma hub_reachable_ok st : hub_reachable st → hub_ok st.
Proof.
  unfold hub_reachable. intros Hr. remember {| hs_hub := NewEventHub; hs_handles := ∅; hs_out := [] |} as st0 eqn:E.
  assert (hub_ok st0) as H0; [|clear E; induction Hr; eauto using hub_ok_step].
  subst st0. split; cbn; [by intros ? ? ?%lookup_empty_Some|by intros ? ? ?%lookup_empty_Some|by intros ? ? ?%lookup_empty_Some|by intros ? ? ? ?%elem_of_nil].
Qed.

Lemma sends_lookup ev l : ∀ h i, NoDup l →
  hub_heap (foldl (λ h sub, send ev sub h) h l) !! i = (if decide (i ∈ l) then offer ev else id) <$> hub_heap h !! i.
Proof.
  induction l as [|j l IH]; intros h i Hnd; cbn [foldl].
  - rewrite decide_False by (by intros ?%elem_of_nil). by destruct (hub_heap h !! i).
  - apply NoDup_cons in Hnd as [Hj Hnd]. rewrite (IH _ _ Hnd). unfold send. cbn [hub_heap].
    destruct (decide (i = j)) as [->|Hne].
    + rewrite (decide_False (P := j ∈ l)) by done. rewrite (decide_True (P := j ∈ j :: l)) by (by left). rewrite lookup_alter_eq. by destruct (hub_heap h !! j).
    + rewrite lookup_alter_ne by done. destruct (decide (i ∈ l)); [rewrite decide_True by (by right)|rewrite decide_False by (by intros [?|?]%elem_of_cons)]; done.
Qed.

Lemma recipients_nodup st ev : hub_ok st → NoDup (recipients ev (hs_hub st)).
Proof.
  intros H. unfold recipients. case_decide as Hp; [rewrite app_nil_r; apply NoDup_elements|]. apply NoDup_app. split_and!; [apply NoDup_elements| |apply NoDup_elements].
  intros i Hi Hj. rewrite elem_of_elements in Hi, Hj. apply (subs_of_ok _ _ _ H) in Hi. apply (subs_of_ok _ _ _ H) in Hj. congruence.
Qed.

Definition sample_event (pipeline : string) : Event :=
  {| hv_Event := "node.started"; hv_Pipeline := pipeline; hv_Node := ""; hv_NodeType := ""; hv_Status := ""; hv_Attempt := "";
     hv_Feedback := ""; hv_Outputs := ""; hv_DurationMs := 0; hv_Timestamp := 0 |}.

(** What an event does to a client it is offered to: a client whose filter it
    passes and which holds fewer than 64 events gets it at the end of its queue,
    any other keeps its queue; filter and registration stay. *)
Definition delivered (ev : Event) (s s' : subscriber) : Prop :=
  sb_match s' = sb_match s ∧ sb_closed s' = sb_closed s
  ∧ (passes s ev → (length (sb_ch s) < 64)%nat → sb_ch s' = sb_ch s ++ [ev])
  ∧ (¬ passes s ev ∨ (64 ≤ length (sb_ch s))%nat → sb_ch s' = sb_ch s).

Lemma offer_delivered ev s : delivered ev s (offer ev s).
Proof.
  split; [apply offer_keeps|]. split; [apply offer_keeps|]. unfold offer, passes, channel_size.
  split; [intros Hp Hl|intros Hno].
  - assert (match sb_match s with Some m => m ev | None => true end = true) as -> by by destruct (sb_match s).
    by rewrite decide_True.
  - destruct (match sb_match s with Some m => m ev | None => true end) eqn:Hm; [|done].
    rewrite decide_False; [done|]. destruct Hno as [Hn|]; [|lia]. destruct Hn. by destruct (sb_match s).
Qed.

(** What a step of the hub may do to a client: nothing, the end of its
    subscription, its own receipt, or the delivery of an event that some
    publisher is about to send to it. *)
Inductive client_change (out : list (Event * list nat)) (i : nat) (s : subscriber) : subscriber → Prop :=
| change_none : client_change out i s s
| change_close : client_change out i s (close_sub s)
| change_receive : client_change out i s (receive s)
| change_send ev rest s' : (ev, i :: rest) ∈ out → delivered ev s s' → client_change out i s s'.

Lemma hub_step_client st st' i s : hub_ok st → hub_step st st' → hub_heap (hs_hub st) !! i = Some s →
  ∃ s', hub_heap (hs_hub st') !! i = Some s' ∧ client_change (hs_out st) i s s'.
Proof.
  intros H Hs Hi. destruct Hs as [p m h hs out|p j h hs out Hj|ev h hs out|ev j rest h hs out1 out2|j h hs out]; cbn in *.
  - exists s. rewrite lookup_insert_ne; [by split; [|constructor]|].
    intros <-. destruct (ok_heap _ H _ _ Hi) as [Hlt _]. cbn in Hlt. lia.
  - destruct (decide (j = i)) as [->|Hne].
    + exists (close_sub s). rewrite lookup_alter_eq, Hi. by split; [|constructor].
    + exists s. rewrite lookup_alter_ne by done. by split; [|constructor].
  - exists s. by split; [|constructor].
  - destruct (decide (j = i)) as [->|Hne].
    + exists (offer ev s). rewrite lookup_alter_eq, Hi. split; [done|].
      apply (change_send _ _ _ ev rest); [apply elem_of_app; right; by left|apply offer_delivered].
    + exists s. rewrite lookup_alter_ne by done. by split; [|constructor].
  - destruct (decide (j = i)) as [->|Hne].
    + exists (receive s). rewrite lookup_alter_eq, Hi. by split; [|constructor].
    + exists s. rewrite lookup_alter_ne by done. by split; [|constructor].
Qed.

(** The recipients copied for an event are the registered clients it concerns. *)
Lemma recipients_exact st ev i s p : hub_ok st → hub_heap (hs_hub st) !! i = Some s → hs_handles st !! i = Some p →
  (i ∈ recipients ev (hs_hub st) ↔ sb_closed s = false ∧ concerns p ev)
  ∧ (∀ q, i ∈ subs_of (hs_hub st) q ↔ sb_closed s = false ∧ q = p).
Proof.
  intros Hr Hs Hp. destruct (ok_heap _ Hr i s Hs) as (_&_&p'&Hp'&Hcl&_). assert (p' = p) as -> by congruence.
  assert (∀ q, i ∈ subs_of (hs_hub st) q ↔ sb_closed s = false ∧ q = p) as Hreg.
  { intros q. rewrite Hcl. split; [|by intros [? ->]]. intros Hq. assert (q = p) as ->; [|done].
    apply (subs_of_ok _ _ _ Hr) in Hq. congruence. }
  split; [|done]. unfold recipients, concerns. rewrite elem_of_app, elem_of_elements, Hreg. case_decide as He.
  - rewrite He, elem_of_nil. naive_solver.
  - rewrite elem_of_elements, Hreg. naive_solver.
Qed.

(** C36. The hub, whatever subscriptions, ends of them, publications and receipts
    came before, publishers interleaving their sends. A client holds at most 64
    events, each of its pipeline, or of any if it takes all, and passing its
    filter; it is registered until its subscription ends, and then under its
    pipeline alone. A publication copies each registered client that its event
    concerns, once, and no other; taken without interleaving, it appends the
    event to the queue of each such client whose filter it passes and which
    holds fewer than 64, and changes no other queue, a full one included. Under
    any interleaving the next step changes a client only by ending its
    subscription, by its own receipt, or by delivering to it, in that way, an
    event that a publisher copied for it. No pipeline is kept without clients. *)
Theorem hub_delivers st : hub_reachable st →
  (∀ i s, hub_heap (hs_hub st) !! i = Some s → (length (sb_ch s) ≤ 64)%nat ∧
     ∃ p, hs_handles st !! i = Some p ∧ (∀ q, i ∈ subs_of (hs_hub st) q ↔ sb_closed s = false ∧ q = p) ∧
          (∀ ev, ev ∈ sb_ch s → concerns p ev ∧ passes s ev) ∧
          (∀ ev, i ∈ recipients ev (hs_hub st) ↔ sb_closed s = false ∧ concerns p ev) ∧
          (∀ ev l, (ev, l) ∈ hs_out st → i ∈ l → concerns p ev) ∧
          (∀ ev, ∃ s', hub_heap (Publish ev (hs_hub st)) !! i = Some s'
             ∧ (sb_closed s = false ∧ concerns p ev → delivered ev s s')
             ∧ (¬ (sb_closed s = false ∧ concerns p ev) → s' = s)) ∧
          (∀ st', hub_step st st' → ∃ s', hub_heap (hs_hub st') !! i = Some s' ∧ client_change (hs_out st) i s s')) ∧
  (∀ ev, NoDup (recipients ev (hs_hub st))) ∧
  (∀ p, hub_subs (hs_hub st) !! p ≠ Some ∅).
Proof.
  intros Hr%hub_reachable_ok. split; [|split; [intros ev; by apply recipients_nodup|intros p Hx; by destruct (ok_subs _ Hr p ∅ Hx) as [? _]]].
  intros i s Hs. destruct (ok_heap _ Hr i s Hs) as (_&Hlen&p&Hp&_&Hev). split; [done|]. exists p.
  assert (∀ ev, i ∈ recipients ev (hs_hub st) ↔ sb_closed s = false ∧ concerns p ev) as Hin
    by (intros ev; by apply recipients_exact).
  split_and!; [done|by apply (recipients_exact st (sample_event "") i s p)|done|done| | |].
  - intros ev l Hl Hi. destruct (ok_out _ Hr ev l i Hl Hi) as (q&Hq&Hc). by assert (q = p) as <- by congruence.
  - intros ev. exists ((if decide (i ∈ recipients ev (hs_hub st)) then offer ev else id) s). unfold Publish.
    rewrite sends_lookup, Hs by by apply recipients_nodup. split; [done|]. case_decide as Hi; split.
    + intros _. apply offer_delivered.
    + intros Hno. by destruct Hno; apply Hin.
    + intros Hyes. by destruct Hi; apply Hin.
    + done.
  - intros st' Hst. by eapply hub_step_client.
Qed.

(** A publication taken alone is a copy and its sends. *)
Lemma publish_steps ev h hs out :
  rtc hub_step {| hs_hub := h; hs_handles := hs; hs_out := out |}
    {| hs_hub := Publish ev h; hs_handles := hs; hs_out := (ev, []) :: out |}.
Proof.
  eapply rtc_l; [apply (HCopy ev)|]. unfold Publish. generalize (recipients ev h) as l. intros l. revert h.
  induction l as [|i l IH]; intros h; [apply rtc_refl|].
  eapply rtc_l; [apply (HSend ev i l h hs [] out)|]. apply IH.
Qed.

(** Two clients, of a pipeline and of all: an event of the pipeline reaches both,
    and both are full after 64. *)
Definition two_clients : HubState :=
  {| hs_hub := (Subscribe "" (Subscribe "p" NewEventHub).2).2; hs_handles := <[1%nat := ""]> (<[0%nat := "p"]> ∅); hs_out := [] |}.
Lemma two_clients_reachable : hub_reachable two_clients.
Proof. eapply rtc_l; [apply (HSubscribe "p" None)|]. eapply rtc_l; [apply (HSubscribe "" None)|]. apply rtc_refl. Qed.

Definition publish_sample (st : HubState) : HubState :=
  {| hs_hub := Publish (sample_event "p") (hs_hub st); hs_handles := hs_handles st; hs_out := (sample_event "p", []) :: hs_out st |}.
Definition published (n : nat) : HubState := Nat.iter n publish_sample two_clients.
Lemma published_reachable n : hub_reachable (published n).
Proof.
  induction n as [|n IH]; [apply two_clients_reachable|]. unfold hub_reachable in *. etransitivity; [exact IH|].
  change (published (S n)) with (publish_sample (published n)). destruct (published n). apply publish_steps.
Qed.
Definition queue_length (i : nat) (h : EventHub) : option nat := length ∘ sb_ch <$> hub_heap h !! i.

Lemma hub_delivers_witness :
  queue_length 0 (hs_hub (published 3)) = Some 3%nat ∧ queue_length 1 (hs_hub (published 3)) = Some 3%nat
  ∧ queue_length 0 (Publish (sample_event "q") (hs_hub (published 3))) = Some 3%nat
  ∧ queue_length 1 (Publish (sample_event "q") (hs_hub (published 3))) = Some 4%nat
  ∧ queue_length 0 (hs_hub (published 64)) = Some 64%nat ∧ queue_length 0 (hs_hub (published 65)) = Some 64%nat
  ∧ ∀ p, hub_subs (hs_hub (published 65)) !! p ≠ Some ∅.
Proof. split_and!; [vm_compute; reflexivity..|]. apply (hub_delivers (published 65) (published_reachable 65)). Defined.

(** ** A console of two workflows *)

Definition shop : Type := gmap string WorkflowObject.
Definition patch_flow (name : string) (f : WorkflowObject → WorkflowObject) (w : shop) : result KErr unit * shop :=
  match w !! name with Some o => (Ok tt, <[name := f o]> w) | None => (Err NotFound, w) end.
Definition set_Disabled (b : bool) (o : WorkflowObject) : WorkflowObject :=
  let s := wo_Spec o in
  {| wo_Workflow := {| wk_Meta := wo_Meta o;
       wk_Spec := {| wf_Source := wf_Source s; wf_TemplateRef := wf_TemplateRef s; wf_Config := wf_Config s; wf_WorkspaceRepo := wf_WorkspaceRepo s;
                     wf_Prepare := wf_Prepare s; wf_Agent := wf_Agent s; wf_Deploy := wf_Deploy s; wf_Graph := wf_Graph s;
                     wf_ReviewReady := wf_ReviewReady s; wf_Bindings := wf_Bindings s; wf_Events := wf_Events s; wf_Cache := wf_Cache s;
                     wf_Sessions := wf_Sessions s; wf_Attachments := wf_Attachments s; wf_PluginsConfigMapRef := wf_PluginsConfigMapRef s;
                     wf_Scaling := wf_Scaling s; wf_Disabled := b |} |};
     wo_Annotations := wo_Annotations o; wo_Generation := wo_Generation o; wo_Status := wo_Status o |}.
Definition name_of (o : WorkflowObject) : string := om_Name (wo_Meta o).
#[export] Instance shop_api : ConsoleApi shop := {|
  ca_now _ := 62135596801 * Second;
  ca_workflow k w := (match w !! k.2 with Some o => Ok o | None => Err NotFound end, w);
  ca_attempt _ w := (Err NotFound, w);
  ca_template k w := (if decide (k.2 = "t") then Ok (plain_template "{}") else Err NotFound, w);
  ca_patch_disabled o b w := patch_flow (name_of o) (set_Disabled b) w;
  ca_patch_annotations o m w := patch_flow (name_of o) (set_Annotations m) w;
  ca_delete o w := (Ok tt, delete (name_of o) w);
  ca_create o w := match w !! name_of o with Some _ => (Err AlreadyExists, w) | None => (Ok tt, <[name_of o := o]> w) end;
|}.

Definition alice : Headers := headers_of [("X-Authentik-Username", "alice")].
Definition docs_request : CreateRequest :=
  {| cr_Origin := "https://console"; cr_Host := "console";
     cr_Form := Some (headers_of [("name", "docs"); ("templateRef", "t")]) |}.
Definition sample_origin (o : string) : option string := if decide (o = "https://console") then Some "console" else None.
Definition empty_shop : Console shop := {| cs_world := ∅; cs_writes := [] |}.
Definition created : Resp * Console shop :=
  handleWorkflowCreate sample_origin (λ _, Err "not needed") (plain_server []) (authMiddleware (plain_server []) alice) docs_request empty_shop.

(** What alice creates, bob does not find, and alice enables. *)
Lemma created_is_owned_and_inert_witness :
  created.1 = SeeOther "/workflows/docs" ∧
  (serveVerb (plain_server []) (headers_of [("X-Authentik-Username", "bob")]) VEnable "docs" created.2).1 = not_found "docs" ∧
  (serveVerb (plain_server []) alice VEnable "docs" created.2).1 = SeeOther "/workflows/docs" ∧
  ∃ i, authMiddleware (plain_server []) alice = Some i ∧ mayWrite (plain_server []) (authMiddleware (plain_server []) alice) = true.
Proof.
  assert (created = (SeeOther "/workflows/docs", created.2)) as H by (vm_compute; reflexivity).
  split_and!; [vm_compute; reflexivity..|].
  destruct (created_is_owned_and_inert sample_origin (λ _, Err "not needed") (plain_server []) (authMiddleware (plain_server []) alice) docs_request empty_shop
    "/workflows/docs" created.2 H) as (i&form&tmpl&w&wf&cfg&Hi&Hm&_).
  exists i. split; [exact Hi|exact Hm].
Defined.
