(* ===== verification/UiWall.v ===== *)
(** * The lists of the console ([internal/ui/attempts.go], [wall.go])

    The states of a claim and of a row, the grouping of attempts, the list of
    runs with its counts and tabs, and the live wall: its selection, its budget,
    its sections and the strip of steps of a row. Texts of ages and durations are
    left out. *)

From Stdlib Require Import SpecFloat.
From S2P Require Import Prelude GoStrings GoTime Json Api ReviewReady Template GraphTypes Compile Review UiGraph.

(** ** One vocabulary of states *)

Definition claimQueued : string := "queued".
Definition claimInFlight : string := "review in flight".
Definition claimVerdict : string := "verdict posted".
Definition claimSuperseded : string := "superseded by newer head".
Definition claimExpired : string := "run expired".
Definition claimDispatchLost : string := "dispatch lost, re-arming".
Definition claimHorizon : string := "horizon reached".
Definition claimReleased : string := "released".

Definition claimState (r : ReviewClaimStatus) : string :=
  if rv_Released r then
    let reason := rv_ReleaseReason r in
    if decide (reason = "consumed") then claimVerdict
    else if decide (reason = "superseded") then claimSuperseded
    else if decide (reason = "dispatch-timeout") then claimExpired
    else if decide (reason = "dispatch-lost") then claimDispatchLost
    else if decide (reason = "horizon") then claimHorizon
    else claimReleased
  else match rv_DispatchedAt r with Some _ => claimInFlight | None => claimQueued end.

(** The state of a row, from its claim or its phase. *)
Definition row_state (isReview : bool) (claim phase : string) : string :=
  if isReview then
    if decide (claim = claimDispatchLost) then "dispatch lost"
    else if decide (claim = claimInFlight) then "in flight"
    else if decide (claim = claimVerdict) then "verdict"
    else if decide (claim = claimSuperseded) then "superseded"
    else "queued"
  else phase.

Definition stateRank (state : string) : Z :=
  if bool_decide (state ∈ ["failed"; "dispatch lost"]) then 0
  else if bool_decide (state ∈ ["in flight"; "reconciling"; "queued"]) then 1
  else if bool_decide (state ∈ ["verdict"; "validated"]) then 2 else 3.

Definition chipState (phase : string) : string :=
  if bool_decide (phase ∈ ["failed"; "validated"; "superseded"]) then phase else "reconciling".

(** ** Usage *)

Definition wallProgressFreshness : Z := 15 * Minute.

Definition liveProgressOf (now : Z) (att : option Attempt) : option RunProgress :=
  match att with
  | None => None
  | Some a =>
      match st_Progress (at_Status a) with
      | None => None
      | Some p =>
          match pg_UpdatedAt p with
          | None => None
          | Some t =>
              if time_IsZero t || (wallProgressFreshness <? time_Sub now t) then None
              else if i64 (pg_TokensIn p + pg_TokensOut p) =? 0 then None else Some p
          end
      end
  end.

Record wallUsage := { us_Model : string; us_InputTokens : Z; us_OutputTokens : Z; us_Turns : Z }.

Section usage.
Context (parse : string → option json).

(** The usage of a payload, and its model and turns; [None] where it decodes to no usage. *)
Definition dec_usage : Decoder (option (Z * Z)) := λ j,
  match j with
  | JNull => Some None
  | _ => Some <$> dec_struct (λ fs, input ← field "input" dec_int fs; output ← field "output" dec_int fs; Some (input, output)) j
  end.
Definition has_usage (payload : string) : bool :=
  match parse payload ≫= dec_struct (field "usage" dec_usage) with Some (Some _) => true | _ => false end.
Definition payload_usage (payload : string) : option wallUsage :=
  parse payload ≫= dec_struct (λ fs,
    u ← field "usage" dec_usage fs; model ← field "model" dec_string fs; turns ← field "turns" dec_int fs;
    let '(input, output) := default (0, 0) u in
    Some {| us_Model := model; us_InputTokens := input; us_OutputTokens := output; us_Turns := turns |}).

Definition usageFromAttempt (att : option Attempt) : option wallUsage :=
  match att with
  | None => None
  | Some a =>
      let latest := foldl (λ cur env,
        if bool_decide (ne_Payload env = "") || negb (has_usage (ne_Payload env)) then cur
        else match cur with
             | None => Some env
             | Some c => if time_After (ne_ProducedAt env) (ne_ProducedAt c) then Some env else cur
             end) None (st_NodeResults (at_Status a)) in
      latest ≫= λ env, payload_usage (ne_Payload env)
  end.
End usage.

(** ** Groups *)

Record attemptSummary := {
  sm_Name : string; sm_WorkflowRef : string; sm_ObjectiveKind : string; sm_PrimarySubject : string;
  sm_Phase : string; sm_LastRunAt : string; sm_RunCount : Z;
}.
Record attemptGroup := {
  gg_WorkflowRef : string; gg_Subject : string; gg_IsReview : bool; gg_Count : Z; gg_LatestPhase : string;
  gg_ClaimState : string; gg_HeadSHA : string; gg_LatestAttempt : string; gg_LastActivity : string;
  gg_Attempts : list attemptSummary; gg_HoldNote : string; gg_HoldCause : string; gg_WaitingSince : option Z;
}.

Definition groupState (g : attemptGroup) : string := row_state (gg_IsReview g) (gg_ClaimState g) (gg_LatestPhase g).

(** A cutoff; the zero time cuts nothing. *)
Definition windowCutoff (window : string) (now : Z) : Z :=
  if decide (window = "all") then 0 else if decide (window = "7d") then now - 7 * 24 * Hour else now - 24 * Hour.

Definition attemptActivity (a : Attempt) : Z :=
  if time_IsZero (st_LastRunAt (at_Status a)) then om_CreationTimestamp (at_Meta a) else st_LastRunAt (at_Status a).
Definition in_window (cutoff : Z) (a : Attempt) : bool := time_IsZero cutoff || negb (attemptActivity a <? cutoff).

Definition is_review (a : Attempt) : bool := String.eqb (ob_Kind (as_Objective (at_Spec a))) ObjectiveKindPRReview.
(** The claim of a review. *)
Definition review_of (a : Attempt) : option ReviewClaimStatus := if is_review a then st_Review (at_Status a) else None.
Definition subject_of (a : Attempt) : string :=
  match review_of a with Some r => rv_PR r | None => sj_Object (ob_PrimarySubject (as_Objective (at_Spec a))) end.
Definition group_key (a : Attempt) : string := as_WorkflowRef (at_Spec a) +:+ "/" +:+ subject_of a.
(** The activity as the groups compare it. *)
Definition stamp (a : Attempt) : string := format_RFC3339 (attemptActivity a).

(** "2006-01-02 15:04" *)
Definition format_minute (t : Z) : string := let s := format_RFC3339 t in str_take 10 s +:+ " " +:+ str_take 5 (str_drop 11 s).

Definition summary_of (a : Attempt) : attemptSummary :=
  {| sm_Name := om_Name (at_Meta a); sm_WorkflowRef := as_WorkflowRef (at_Spec a); sm_ObjectiveKind := ob_Kind (as_Objective (at_Spec a));
     sm_PrimarySubject := subject_of a; sm_Phase := st_Phase (at_Status a);
     sm_LastRunAt := if time_IsZero (st_LastRunAt (at_Status a)) then "" else format_minute (st_LastRunAt (at_Status a));
     sm_RunCount := TotalRuns (Some (at_Status a)) |}.

Definition new_group (a : Attempt) : attemptGroup :=
  {| gg_WorkflowRef := as_WorkflowRef (at_Spec a); gg_Subject := subject_of a; gg_IsReview := is_review a; gg_Count := 0;
     gg_LatestPhase := ""; gg_ClaimState := ""; gg_HeadSHA := ""; gg_LatestAttempt := ""; gg_LastActivity := "";
     gg_Attempts := []; gg_HoldNote := ""; gg_HoldCause := ""; gg_WaitingSince := None |}.

(** [s > t] on texts. *)
Definition str_after (s t : string) : bool := negb (String.leb s t).

(** A group takes an attempt in; the newest one speaks for it. *)
Definition add_attempt (a : Attempt) (g : attemptGroup) : attemptGroup :=
  let newest := str_after (stamp a) (gg_LastActivity g) in
  let claim := if newest then review_of a else None in
  let parked := match claim with
                | Some r => if bool_decide (rv_DispatchedAt r = None) && negb (rv_Released r) then Some r else None
                | None => None end in
  {| gg_WorkflowRef := gg_WorkflowRef g; gg_Subject := gg_Subject g; gg_IsReview := gg_IsReview g; gg_Count := gg_Count g + 1;
     gg_LatestPhase := if newest then st_Phase (at_Status a) else gg_LatestPhase g;
     gg_ClaimState := match claim with Some r => claimState r | None => gg_ClaimState g end;
     gg_HeadSHA := match claim with Some r => rv_HeadSHA r | None => gg_HeadSHA g end;
     gg_LatestAttempt := if newest then om_Name (at_Meta a) else gg_LatestAttempt g;
     gg_LastActivity := if newest then stamp a else gg_LastActivity g;
     gg_Attempts := gg_Attempts g ++ [summary_of a];
     gg_HoldNote := match parked with Some r => rv_HoldNote r | None => gg_HoldNote g end;
     gg_HoldCause := match parked with Some r => rv_HoldCause r | None => gg_HoldCause g end;
     gg_WaitingSince := match parked with Some r => rv_ArmedSince r | None => gg_WaitingSince g end |}.

Definition group_step (st : gmap string attemptGroup * list string) (a : Attempt) : gmap string attemptGroup * list string :=
  let '(byKey, order) := st in
  match byKey !! group_key a with
  | Some g => (<[group_key a := add_attempt a g]> byKey, order)
  | None => (<[group_key a := add_attempt a (new_group a)]> byKey, order ++ [group_key a])
  end.

(** A less function that [sort.Slice] can sort by: what is not less either way
    counts as equal. *)
Record weak_order {A} (less : A → A → bool) : Prop := {
  wo_asym : ∀ x y, less x y = true → less y x = false;
  wo_trans : ∀ x y z, less x y = false → less y z = false → less x z = false;
}.

(** [sort.Slice]: no element is less than one before it; the order of equal
    elements is not told. *)
Class SortSlice := {
  sort_slice : ∀ {A}, (A → A → bool) → list A → list A;
  sort_perm : ∀ {A} (less : A → A → bool) l, sort_slice less l ≡ₚ l;
  sort_sorted : ∀ {A} (less : A → A → bool) l, weak_order less →
    StronglySorted (λ x y, less y x = false) (sort_slice less l);
}.

Section lists.
Context `{SortSlice}.

Definition set_Attempts (l : list attemptSummary) (g : attemptGroup) : attemptGroup :=
  {| gg_WorkflowRef := gg_WorkflowRef g; gg_Subject := gg_Subject g; gg_IsReview := gg_IsReview g; gg_Count := gg_Count g;
     gg_LatestPhase := gg_LatestPhase g; gg_ClaimState := gg_ClaimState g; gg_HeadSHA := gg_HeadSHA g;
     gg_LatestAttempt := gg_LatestAttempt g; gg_LastActivity := gg_LastActivity g; gg_Attempts := l;
     gg_HoldNote := gg_HoldNote g; gg_HoldCause := gg_HoldCause g; gg_WaitingSince := gg_WaitingSince g |}.
Definition sort_attempts (g : attemptGroup) : attemptGroup :=
  set_Attempts (sort_slice (λ x y, str_after (sm_LastRunAt x) (sm_LastRunAt y)) (gg_Attempts g)) g.

Definition groupAttempts (attempts : list Attempt) (cutoff : Z) : list attemptGroup :=
  let '(byKey, order) := foldl group_step (∅, []) (filter (λ a, in_window cutoff a = true) attempts) in
  omap (λ k, sort_attempts <$> byKey !! k) order.

Definition by_recency (groups : list attemptGroup) : list attemptGroup :=
  sort_slice (λ x y, str_after (gg_LastActivity x) (gg_LastActivity y)) groups.

(** ** The list of runs *)

Record runCounts := { rc_Total : Z; rc_Failed : Z; rc_InFlight : Z; rc_Verdicts : Z }.
Definition count_in (states : list string) (groups : list attemptGroup) : Z :=
  Z.of_nat (length (filter (λ g, groupState g ∈ states) groups)).
Definition failed_states : list string := ["failed"; "dispatch lost"].
Definition moving_states : list string := ["in flight"; "reconciling"; "queued"].
Definition done_states : list string := ["verdict"; "validated"].
Definition run_counts (groups : list attemptGroup) : runCounts :=
  {| rc_Total := Z.of_nat (length groups); rc_Failed := count_in failed_states groups;
     rc_InFlight := count_in moving_states groups; rc_Verdicts := count_in done_states groups |}.

Definition tab_states (status : string) : option (list string) :=
  if decide (status = "failed") then Some failed_states else if decide (status = "inflight") then Some moving_states
  else if decide (status = "verdicts") then Some done_states else None.

(** [sort.SliceStable] by a rank of 0 to 3. *)
Definition rank_sort (groups : list attemptGroup) : list attemptGroup :=
  concat ((λ r, filter (λ g, stateRank (groupState g) = r) groups) <$> [0; 1; 2; 3]).

Definition handleAttemptList (window status : string) (now : Z) (attempts : list Attempt) : list attemptGroup * runCounts :=
  let window := if decide (window = "") then "24h" else window in
  let groups := by_recency (groupAttempts attempts (windowCutoff window now)) in
  let shown := match tab_states status with Some states => filter (λ g, groupState g ∈ states) groups | None => groups end in
  (rank_sort shown, run_counts groups).
End lists.

(** ** The strip of steps *)

Definition wallStripW : Z := 140.
Definition wallMaxGroups : Z := 12.
Definition wallVerdictGrace : Z := Hour.
Definition strip_gap : Z := 2.

(** [int(f)] of a finite float64. *)
Definition f64_int (f : SpecFloat.spec_float) : Z :=
  match f with SpecFloat.S754_finite true m e => - Z.shiftl (Z.pos m) e | _ => f64_trunc f end.

(** A step of the strip: its view and the time it took, if any. *)
Record strip_seg := { sg_ID : string; sg_Status : string; sg_durMs : option Z }.

Definition strip_segs (views : list graphNodeView) (columns : list (list string)) (latest : gmap string NodeResultEnvelope) : list strip_seg :=
  let meta : gmap string graphNodeView := list_to_map (reverse ((λ v, (gv_ID v, v)) <$> views)) in
  omap (λ id,
    v ← meta !! id;
    if decide (gv_Status v = "external") then None
    else Some {| sg_ID := gv_ID v; sg_Status := gv_Status v;
                 sg_durMs := env ← latest !! id; if 0 <? ne_DurationMs env then Some (ne_DurationMs env) else None |})
  (concat columns).

Definition is_pending (s : strip_seg) : bool := bool_decide (sg_durMs s = None).
Definition timed_total (segs : list strip_seg) : Z := foldl (λ t s, i64 (t + default 0 (sg_durMs s))) 0 segs.

(** The width of a step before the fold. *)
Definition seg_width (pendEach timedW timed : Z) (s : strip_seg) : Z :=
  match sg_durMs s with
  | None => pendEach
  | Some d => Z.max 3 (f64_int (f64_mul (f64_div (f64_of_Z d) (f64_of_Z timed)) (f64_of_Z timedW)))
  end.

(** The last step that took time, or else the last one. *)
Definition fold_index (segs : list strip_seg) : nat :=
  List.fold_left (λ acc i, match segs !! i with Some s => if is_pending s then acc else i | None => acc end)
    (seq 0 (length segs)) (length segs - 1)%nat.

Definition strip_widths (segs : list strip_seg) (width : Z) : list Z :=
  let n := Z.of_nat (length segs) in
  let drawable := width - strip_gap * (n - 1) in
  let timed := timed_total segs in
  let pend := Z.of_nat (length (filter (λ s, is_pending s = true) segs)) in
  let pendEach := if 0 <? pend then (if 0 <? timed then Z.max (Z.quot (Z.quot (drawable * 3) 10) pend) 6 else Z.quot drawable n) else 0 in
  let timedW := if 0 <? pend then drawable - pendEach * pend else drawable in
  let widths := seg_width pendEach timedW timed <$> segs in
  let total := foldr Z.add 0 widths in
  alter (λ w, Z.max (w + drawable - total) 3) (fold_index segs) widths.

Record wallStep := { wp_ID : string; wp_Status : string; wp_X : Z; wp_Width : Z }.

Fixpoint place (x : Z) (segs : list strip_seg) (widths : list Z) : list wallStep * Z :=
  match segs, widths with
  | s :: segs, w :: widths =>
      let '(steps, x') := place (x + w + strip_gap) segs widths in
      ({| wp_ID := sg_ID s; wp_Status := sg_Status s; wp_X := x; wp_Width := w |} :: steps, x')
  | _, _ => ([], x)
  end.

Definition paint_strip (segs : list strip_seg) (width : Z) : list wallStep * Z :=
  match segs with
  | [] => ([], 0)
  | _ => let '(steps, x) := place 0 segs (strip_widths segs width) in (steps, x - strip_gap)
  end.

Definition wallSteps (views : list graphNodeView) (gs : GraphSpec) (latest : gmap string NodeResultEnvelope) (width : Z) : list wallStep * Z :=
  let geo := layoutGraphGeometry (sorted_nodes (gr_Nodes gs)) (gr_Edges gs) in
  paint_strip (strip_segs views (geo_columns geo) latest) width.

(** ** The wall *)

Record wallLiveTokens := { lt_In : Z; lt_Out : Z; lt_Turns : Z; lt_Model : string }.
Record wallGroup := {
  wg_WorkflowRef : string; wg_Subject : string; wg_IsReview : bool; wg_Phase : string; wg_ClaimState : string; wg_HeadSHA : string;
  wg_Count : Z; wg_LastRunURL : string; wg_Usage : option wallUsage; wg_CurrentNode : string; wg_Live : option wallLiveTokens;
  wg_Hold : option string; wg_Cause : string; wg_Strip : list wallStep; wg_StripW : Z;
}.
Record wallCounts := { wc_InFlight : Z; wc_Queued : Z; wc_Failed : Z; wc_Verdict : Z }.
Record wallWorkflow := { ww_Name : string; ww_Groups : list wallGroup; ww_Counts : list (string * Z) }.
Record wallSection := { se_Name : string; se_Workflows : list wallWorkflow }.

Definition wallUngrouped : string := "other workflows".
Definition wallState (g : wallGroup) : string := row_state (wg_IsReview g) (wg_ClaimState g) (wg_Phase g).

Definition wallChipLabel (g : wallGroup) : string :=
  let base := wallState g in
  if decide (base ≠ "queued" ∨ wg_Cause g = "") then base
  else if decide (wg_Cause g = HoldCauseCIPending) then "queued · waiting ci"
  else if decide (wg_Cause g = HoldCauseCIRed) then "queued · ci red"
  else if decide (wg_Cause g = HoldCauseLabelAbsent) then "queued · needs label"
  else if decide (wg_Cause g = HoldCauseVerdictCheck) then "queued · checking verdict"
  else if decide (wg_Cause g = HoldCauseAPIError) then "queued · forge unreachable"
  else base.

Definition shortSHA (sha : string) : string := if decide (7 < String.length sha)%nat then str_take 7 sha else sha.
Definition workflowCRName (workflowRef : string) : string :=
  match cut_last "/"%char workflowRef with Some (_, name) => name | None => workflowRef end.

Definition by_name (attempts : list Attempt) : gmap string Attempt :=
  list_to_map (reverse ((λ a, (om_Name (at_Meta a), a)) <$> attempts)).

(** Whether a row is live: a verdict lingers, what was superseded never shows. *)
Definition shown (now : Z) (byName : gmap string Attempt) (g : attemptGroup) : bool :=
  let state := groupState g in
  if decide (state = "superseded") then false
  else if bool_decide (state ∈ done_states) then
    match byName !! gg_LatestAttempt g with
    | Some att => negb (wallVerdictGrace <? time_Sub now (attemptActivity att))
    | None => true
    end
  else true.

Definition tally (state : string) (c : wallCounts) : wallCounts :=
  let one states := if bool_decide (state ∈ states) then 1 else 0 in
  {| wc_InFlight := wc_InFlight c + one ["in flight"; "reconciling"]; wc_Queued := wc_Queued c + one ["queued"];
     wc_Failed := wc_Failed c + one failed_states; wc_Verdict := wc_Verdict c + one done_states |}.

(** The loop over the groups, with its [break]: the rows, the rows hidden so far
    and the counts. *)
Fixpoint wall_scan (now : Z) (byName : gmap string Attempt) (groups : list attemptGroup) (rows hidden : Z) (counts : wallCounts)
    : list attemptGroup * Z * wallCounts :=
  match groups with
  | [] => ([], hidden, counts)
  | g :: groups =>
      if negb (shown now byName g) then wall_scan now byName groups rows (hidden + 1) counts
      else
        let counts := tally (groupState g) counts in
        if wallMaxGroups <=? rows then ([], hidden, counts)
        else let '(l, hidden, counts) := wall_scan now byName groups (rows + 1) hidden counts in (g :: l, hidden, counts)
  end.

Section wall.
Context `{SortSlice} (parse : string → option json).
Context {J : Type} `{JsonMap J} `{JsonCodec PluginNodeConfig} `{JsonCodec AgentNodeConfig}.

(** The effective spec of a workflow; a template that is not read leaves it thin.
    [None] is a panic. *)
Definition resolveWorkflow (templates : string → option WorkflowTemplate) (wf : Workflow) : option Workflow :=
  if decide (wf_TemplateRef (wk_Spec wf) = "") then Some wf
  else match templates (wf_TemplateRef (wk_Spec wf)) with
       | None => Some wf
       | Some tmpl => default wf <$> ApplyTemplateDefaults (Some wf) (Some tmpl)
       end.
Definition graph_of (wf : Workflow) : GraphSpec := match wf_Graph (wk_Spec wf) with Some gs => gs | None => CompileWorkflow wf end.

(** The node an attempt executes. *)
Definition livePosition (resolved : Workflow) (att : Attempt) : string :=
  let gs := graph_of resolved in
  if decide (gr_Nodes gs = []) then ""
  else
    let views := (layoutGraph gs (latest_envelopes (st_NodeResults (at_Status att))) true).1.1.1 in
    foldl (λ node v, if decide (gv_Status v = "running") then gv_Label v else node) "" views.

Definition wallStepsFor (resolved : Workflow) (att : Attempt) : list wallStep * Z :=
  let gs := graph_of resolved in
  if decide (gr_Nodes gs = []) then ([], 0)
  else
    let latest := latest_envelopes (st_NodeResults (at_Status att)) in
    let views := (layoutGraph gs latest (negb (attemptSettled (st_Runs (at_Status att))))).1.1.1 in
    wallSteps views gs latest wallStripW.

(** The row of a group. *)
Definition wall_row (templates : string → option WorkflowTemplate) (now : Z) (byName : gmap string Attempt) (wfByName : gmap string Workflow)
    (g : attemptGroup) : option wallGroup :=
  let state := groupState g in let name := workflowCRName (gg_WorkflowRef g) in
  let att := byName !! gg_LatestAttempt g in
  let moving := bool_decide (state ∈ ["in flight"; "reconciling"]) in
  let resolved := match att, wfByName !! name with
                  | Some att, Some wf => (λ r, Some (r, att)) <$> resolveWorkflow templates wf
                  | _, _ => Some None end in
  (λ r,
    let '(strip, stripW) := match r with Some (wf, att) => wallStepsFor wf att | None => ([], 0) end in
    {| wg_WorkflowRef := name; wg_Subject := if decide (gg_Subject g = "") then "unattributed" else gg_Subject g;
       wg_IsReview := gg_IsReview g; wg_Phase := gg_LatestPhase g; wg_ClaimState := gg_ClaimState g;
       wg_HeadSHA := shortSHA (gg_HeadSHA g); wg_Count := gg_Count g;
       wg_LastRunURL := if decide (gg_LatestAttempt g = "") then "" else "/runs/" +:+ gg_LatestAttempt g;
       wg_Usage := usageFromAttempt parse att;
       wg_CurrentNode := match r with Some (wf, att) => if moving then livePosition wf att else "" | None => "" end;
       wg_Live := if moving then (λ p, {| lt_In := pg_TokensIn p; lt_Out := pg_TokensOut p; lt_Turns := pg_Turns p; lt_Model := pg_Model p |})
                                 <$> liveProgressOf now att else None;
       wg_Hold := if decide (state = "queued" ∧ gg_HoldNote g ≠ "") then Some (gg_HoldNote g) else None;
       wg_Cause := gg_HoldCause g; wg_Strip := strip; wg_StripW := stripW |}) <$> resolved.

(** The distinct elements, in the order they are first seen. *)
Definition first_seen (l : list string) : list string := foldl (λ acc x, if decide (x ∈ acc) then acc else acc ++ [x]) [] l.

Definition rollup_states : list string := ["in flight"; "reconciling"; "queued"; "dispatch lost"; "failed"; "verdict"; "validated"].
Definition workflow_block (rows : list wallGroup) (name : string) : wallWorkflow :=
  let groups := filter (λ g, wg_WorkflowRef g = name) rows in
  {| ww_Name := name; ww_Groups := groups;
     ww_Counts := omap (λ st, let n := Z.of_nat (length (filter (λ g, wallState g = st) groups)) in if 0 <? n then Some (st, n) else None) rollup_states |}.
Definition sections_of (tmplOf : gmap string string) (rows : list wallGroup) : list wallSection :=
  let section name := or_str (default "" (tmplOf !! name)) wallUngrouped in
  let names := first_seen (wg_WorkflowRef <$> rows) in
  (λ sec, {| se_Name := sec; se_Workflows := workflow_block rows <$> filter (λ name, section name = sec) names |})
    <$> first_seen (section <$> names).

(** [None] is a panic; else the sections, the overflow and the counts. *)
Definition wallSections (templates : string → option WorkflowTemplate) (now : Z) (attempts : list Attempt) (wfs : list Workflow)
    : option (list wallSection * Z * wallCounts) :=
  let groups := by_recency (groupAttempts attempts 0) in
  let byName := by_name attempts in
  let wfByName : gmap string Workflow := list_to_map (reverse ((λ wf, (om_Name (wk_Meta wf), wf)) <$> wfs)) in
  let tmplOf : gmap string string := (λ wf, wf_TemplateRef (wk_Spec wf)) <$> wfByName in
  let '(picked, hidden, counts) := wall_scan now byName groups 0 0 {| wc_InFlight := 0; wc_Queued := 0; wc_Failed := 0; wc_Verdict := 0 |} in
  (λ rows, (sections_of tmplOf rows, Z.of_nat (length groups) - Z.of_nat (length picked) - hidden, counts))
    <$> mapM (wall_row templates now byName wfByName) picked.
End wall.

(** ** Groups account for the attempts *)

Lemma leb_le s t : String.leb s t = true ↔ String.le s t.
Proof. unfold String.le. by rewrite Is_true_true. Qed.
Lemma str_after_false s t : str_after s t = false ↔ String.le s t.
Proof. unfold str_after. by rewrite negb_false_iff, leb_le. Qed.
Lemma str_after_true s t : str_after s t = true → String.le t s.
Proof. unfold str_after. rewrite negb_true_iff. intros H. apply leb_le. destruct (String.leb_total s t); congruence. Qed.
Lemma le_trans_str s t u : String.le s t → String.le t u → String.le s u.
Proof. intros. by etrans. Qed.
Lemma str_after_order {A} (f : A → string) : weak_order (λ x y, str_after (f x) (f y)).
Proof.
  split; [intros x y H%str_after_true; by apply str_after_false|].
  intros x y z. rewrite !str_after_false. apply le_trans_str.
Qed.
Lemma sorted_weaken {A} (R R' : A → A → Prop) l : (∀ x y, R x y → R' x y) → StronglySorted R l → StronglySorted R' l.
Proof. intros HR. induction 1; constructor; [done|]. eapply Forall_impl; [eassumption|]. auto. Qed.
(** What [sort.Slice] by a text in descending order gives. *)
Lemma sorted_descending `{SortSlice} {A} (f : A → string) l :
  StronglySorted (λ x y, String.le (f y) (f x)) (sort_slice (λ x y, str_after (f x) (f y)) l).
Proof.
  eapply sorted_weaken; [|apply sort_sorted, str_after_order]. intros x y Hxy. by apply str_after_false.
Qed.
Lemma str_after_empty s : s ≠ "" → str_after s "" = true.
Proof. by destruct s. Qed.
Lemma stamp_nonempty a : stamp a ≠ "".
Proof.
  unfold stamp, format_RFC3339. destruct (civil_date _) as [[y m] d]. unfold four_digits. intros H. apply (f_equal String.length) in H.
  rewrite !length_app_str in H. cbn in H. lia.
Qed.

(** What a group says of the attempts of its key. *)
Definition speaks_for (l : list Attempt) (g : attemptGroup) : Prop :=
  gg_Count g = Z.of_nat (length l) ∧ (∀ a, a ∈ l → String.le (stamp a) (gg_LastActivity g)) ∧
  ∃ a, a ∈ l ∧ gg_LatestAttempt g = om_Name (at_Meta a) ∧ gg_LatestPhase g = st_Phase (at_Status a) ∧ gg_LastActivity g = stamp a.

Lemma add_speaks l g a : (l = [] ∧ gg_Count g = 0 ∧ gg_LastActivity g = "" ∨ speaks_for l g) → speaks_for (l ++ [a]) (add_attempt a g).
Proof.
  intros Hg. unfold speaks_for. rewrite length_app. cbn [length].
  split; [cbn; destruct Hg as [(->&->&_)|(->&_)]; cbn; lia|]. unfold add_attempt. cbn [gg_LastActivity gg_LatestAttempt gg_LatestPhase].
  destruct (str_after (stamp a) (gg_LastActivity g)) eqn:Hn.
  - split; [|exists a; split_and!; [apply elem_of_app; right; by left|done..]]. intros b [Hb| ->%list_elem_of_singleton]%elem_of_app; [|reflexivity].
    destruct Hg as [(->&_)|(_&Hle&_)]; [by apply elem_of_nil in Hb|]. etrans; [by apply Hle|]. by apply str_after_true.
  - destruct Hg as [(_&_&He)|(_&Hle&b&Hb&H1&H2&H3)]; [rewrite He, str_after_empty in Hn by apply stamp_nonempty; done|].
    split; [|exists b; split_and!; [apply elem_of_app; by left|done..]]. intros c [Hc| ->%list_elem_of_singleton]%elem_of_app; [by apply Hle|by apply str_after_false].
Qed.

Notation of_key := (with_key group_key).

(** A group is headed by the workflow and the subject of one of its attempts. *)
Definition headed (l : list Attempt) (g : attemptGroup) : Prop :=
  ∃ a, a ∈ l ∧ gg_WorkflowRef g = as_WorkflowRef (at_Spec a) ∧ gg_Subject g = subject_of a.

(** The groups of a list of attempts, by key and in order. *)
Definition groups_ok (l : list Attempt) (st : gmap string attemptGroup * list string) : Prop :=
  NoDup st.2 ∧ (∀ k, k ∈ st.2 ↔ is_Some (st.1 !! k)) ∧ (∀ a, a ∈ l → is_Some (st.1 !! group_key a)) ∧
  ∀ k g, st.1 !! k = Some g → speaks_for (of_key k l) g ∧ gg_Attempts g = summary_of <$> of_key k l ∧ headed (of_key k l) g.

Lemma group_step_ok l st a : groups_ok l st → groups_ok (l ++ [a]) (group_step st a).
Proof.
  destruct st as [m order]. intros (Hnd&Hord&Hin&Hg). cbn [fst snd] in *.
  assert (∃ g0, group_step (m, order) a = (<[group_key a := add_attempt a g0]> m, if decide (is_Some (m !! group_key a)) then order else order ++ [group_key a]) ∧
    gg_Attempts g0 = summary_of <$> of_key (group_key a) l ∧ headed (of_key (group_key a) l ++ [a]) g0 ∧
    (of_key (group_key a) l = [] ∧ gg_Count g0 = 0 ∧ gg_LastActivity g0 = "" ∨ speaks_for (of_key (group_key a) l) g0)) as (g0&Hstep&Hsum&Hhead&Hspeak).
  { unfold group_step. destruct (m !! group_key a) as [g|] eqn:E.
    - exists g. destruct (Hg _ _ E) as (Hs&Hm&b&Hb&Hh). rewrite decide_True by (by eexists).
      split_and!; [done|done| |by right]. exists b. split; [apply elem_of_app; by left|done].
    - exists (new_group a). rewrite decide_False by (by intros [? ?]). assert (of_key (group_key a) l = []) as Hnil.
      { destruct (of_key (group_key a) l) as [|b bs] eqn:Eb; [done|]. assert (b ∈ of_key (group_key a) l) as Hb by (rewrite Eb; by left).
        apply list_elem_of_filter in Hb as [Hk Hb]. destruct (Hin b Hb) as [? Hb']. rewrite Hk in Hb'. congruence. }
      rewrite Hnil. split_and!; [done|done| |by left]. exists a. split; [by left|done]. }
  rewrite Hstep. split_and!; cbn [fst snd].
  - case_decide as Hs; [done|]. apply NoDup_app. split_and!; [done| |apply NoDup_singleton]. intros k Hk ->%list_elem_of_singleton. by apply Hord in Hk.
  - intros k. rewrite lookup_insert_is_Some'. destruct (decide (is_Some (m !! group_key a))) as [Hs|Hs].
    + rewrite Hord. split; [by right|]. by intros [<-|?].
    + rewrite elem_of_app, list_elem_of_singleton, Hord. naive_solver.
  - intros b [Hb| ->%list_elem_of_singleton]%elem_of_app; rewrite lookup_insert_is_Some'; [right; by apply Hin|by left].
  - intros k g [[<- <-]|[Hne Hk]]%lookup_insert_Some; rewrite with_key_snoc.
    + rewrite decide_True by done. split_and!; [by apply add_speaks|cbn; by rewrite Hsum, fmap_app|exact Hhead].
    + rewrite decide_False by done. rewrite app_nil_r. by apply Hg.
Qed.

Lemma group_fold_ok l : groups_ok l (foldl group_step (∅, []) l).
Proof.
  induction l as [|a l IH] using rev_ind; [|rewrite foldl_app; by apply group_step_ok].
  split_and!; cbn; [apply NoDup_nil_2| |by intros a ?%elem_of_nil|by intros k g ?%lookup_empty_Some].
  intros k. rewrite elem_of_nil, lookup_empty. split; [done|by intros [? ?]].
Qed.

(** ** The rows of a list, told without the code's key *)

(** The subject of a row: a review that holds a claim is of the claim's pull
    request, any other attempt of its primary subject. *)
Inductive rolls_up (a : Attempt) : string → Prop :=
| rolls_review r : ob_Kind (as_Objective (at_Spec a)) = "pr-review" → st_Review (at_Status a) = Some r → rolls_up a (rv_PR r)
| rolls_subject : ob_Kind (as_Objective (at_Spec a)) ≠ "pr-review" ∨ st_Review (at_Status a) = None →
    rolls_up a (sj_Object (ob_PrimarySubject (as_Objective (at_Spec a)))).

(** A workflow reference of a namespace and a name. *)
Definition ref_ok (a : Attempt) : Prop :=
  ∃ ns name, as_WorkflowRef (at_Spec a) = ns +:+ "/" +:+ name ∧ contains_byte ns "/" = false ∧ contains_byte name "/" = false.

(** The attempts since the cutoff, all for the zero time: the last run counts,
    or the creation of an attempt that has not run. *)
Definition since (cutoff : Z) (a : Attempt) : Prop :=
  cutoff = 0 ∨ cutoff ≤ (if decide (st_LastRunAt (at_Status a) = 0) then om_CreationTimestamp (at_Meta a) else st_LastRunAt (at_Status a)).
#[export] Instance since_dec cutoff a : Decision (since cutoff a) := ltac:(unfold since; apply _).

Lemma in_window_since cutoff a : in_window cutoff a = true ↔ since cutoff a.
Proof.
  unfold in_window, since, attemptActivity, time_IsZero. rewrite orb_true_iff, Z.eqb_eq, negb_true_iff, Z.ltb_ge.
  destruct (Z.eqb_spec (st_LastRunAt (at_Status a)) 0); case_decide; tauto.
Qed.

Lemma subject_rolls_up a t : rolls_up a t ↔ subject_of a = t.
Proof.
  unfold subject_of, review_of, is_review. change ObjectiveKindPRReview with "pr-review".
  destruct (String.eqb_spec (ob_Kind (as_Objective (at_Spec a))) "pr-review") as [Hk|Hk].
  - destruct (st_Review (at_Status a)) as [r|] eqn:Hr.
    + split; [intros [r' ? ?|[?|?]]; congruence|intros <-; by apply rolls_review].
    + split; [intros [r' ? ?|_]; congruence|intros <-; apply rolls_subject; by right].
  - split; [intros [r' ? ?|_]; congruence|intros <-; apply rolls_subject; by left].
Qed.

Lemma slash_free_inj s t u v :
  contains_byte s "/" = false → contains_byte t "/" = false → s +:+ "/" +:+ u = t +:+ "/" +:+ v → s = t ∧ u = v.
Proof.
  intros Hs Ht H. change (s +:+ String "/" u = t +:+ String "/" v) in H.
  apply (f_equal (cut_first "/"%char)) in H. rewrite !cut_first_app in H by done. by injection H.
Qed.

Lemma group_key_inj a b : ref_ok a → ref_ok b → group_key a = group_key b →
  as_WorkflowRef (at_Spec a) = as_WorkflowRef (at_Spec b) ∧ subject_of a = subject_of b.
Proof.
  unfold group_key. intros (ns&n&->&H1&H2) (ns'&n'&->&H3&H4) H. rewrite !app_str_assoc in H.
  apply slash_free_inj in H as [-> H]; [|done..]. apply slash_free_inj in H as [-> H]; [|done..]. done.
Qed.

Section accounting.
Context `{SortSlice}.

(** What a group makes of its attempts: all of one workflow and one subject, as
    many as it counts, summed up in the order of their last runs, and spoken for
    by one that no other is newer than. *)
Definition accounts (part : list Attempt) (g : attemptGroup) : Prop :=
  (∀ a, a ∈ part → as_WorkflowRef (at_Spec a) = gg_WorkflowRef g ∧ rolls_up a (gg_Subject g))
  ∧ speaks_for part g
  ∧ gg_Attempts g ≡ₚ summary_of <$> part ∧ StronglySorted (λ x y, String.le (sm_LastRunAt y) (sm_LastRunAt x)) (gg_Attempts g).

(** The groups of a fold, attempt by attempt. *)
Lemma groups_parts l attempts cutoff : filter (λ a, in_window cutoff a = true) attempts = l → Forall ref_ok l →
  ∃ keys, NoDup keys ∧ (∀ k, k ∈ keys ↔ ∃ a, a ∈ l ∧ group_key a = k) ∧
    Forall2 (λ k g, accounts (of_key k l) g ∧ gg_WorkflowRef g +:+ "/" +:+ gg_Subject g = k) keys (groupAttempts attempts cutoff).
Proof.
  intros Hl Href. unfold groupAttempts. rewrite Hl. pose proof (group_fold_ok l) as Hok.
  destruct (foldl group_step (∅, []) l) as [m order]. destruct Hok as (Hnd&Hord&Hin&Hg). cbn [fst snd] in *. exists order.
  split; [done|]. split.
  { intros k. rewrite Hord. split; [|by intros (a&Ha&<-); apply Hin]. intros [g E]. destruct (Hg k g E) as [(_&_&a&Ha&_) _].
    apply list_elem_of_filter in Ha as [? ?]. by exists a. }
  assert (∀ k, k ∈ order → is_Some (m !! k)) as Ho by (intros k ?; by apply Hord). clear Hnd Hord Hin.
  induction order as [|k o IH]; [constructor|]. cbn. destruct (Ho k ltac:(by left)) as [g E]. rewrite E. cbn.
  constructor; [|apply IH; intros; apply Ho; by right]. rewrite Forall_forall in Href.
  destruct (Hg k g E) as ((H1&H2&a&H3)&Hs&h&Hh&Hw&Hsub). apply list_elem_of_filter in Hh as [Hkh Hh].
  split; [|cbn; rewrite Hw, Hsub; exact Hkh].
  split; [|split; [split_and!; [done|done|by exists a]|cbn; split]].
  - intros b [Hkb Hb]%list_elem_of_filter. cbn. rewrite Hw, Hsub, subject_rolls_up.
    apply group_key_inj; [by apply Href..|congruence].
  - by rewrite sort_perm, Hs.
  - apply sorted_descending.
Qed.

(** C39. The groups of a list of attempts, whose workflow references are a namespace
    and a name, account for each attempt since the cutoff once. There is one group
    for each workflow and subject, the pull request of a review that holds a claim
    and the primary subject of any other attempt; it holds just their attempts, in
    the order of their last runs, with their number, and it shows the name, the
    phase and the activity of one of them that no other is newer than, by the
    times as the code writes them. Attempts of one workflow that are no reviews
    share a group only when they share their subject, where comments beside the
    code say that they collapse per workflow. *)
Theorem groups_account attempts cutoff :
  let l := filter (since cutoff) attempts in
  let groups := groupAttempts attempts cutoff in
  Forall ref_ok l →
  NoDup ((λ g, (gg_WorkflowRef g, gg_Subject g)) <$> groups)
  ∧ ∃ parts, concat parts ≡ₚ l ∧ Forall2 accounts parts groups.
Proof.
  cbv zeta. intros Href.
  destruct (groups_parts (filter (since cutoff) attempts) attempts cutoff) as (keys&Hnd&Hkeys&HF); [|done|].
  { apply list_filter_iff. intros a. apply in_window_since. }
  split.
  - apply (NoDup_fmap_1 (λ p : string * string, p.1 +:+ "/" +:+ p.2)). rewrite <- list_fmap_compose.
    match goal with |- NoDup ?x => assert (keys = x) as <-; [|done] end.
    clear -HF. induction HF as [|k g ks gs [_ <-] _ IH]; [done|]. cbn. by f_equal.
  - exists ((λ k, of_key k (filter (since cutoff) attempts)) <$> keys).
    split; [apply partition_perm; [done|intros a Ha; apply Hkeys; by exists a]|].
    apply Forall2_fmap_l. eapply Forall2_impl; [exact HF|]. by intros k g [? _].
Qed.
End accounting.

(** ** The tabs of the list *)

Lemma stateRank_range st : stateRank st ∈ [0; 1; 2; 3].
Proof. unfold stateRank. repeat case_bool_decide; set_solver. Qed.

Lemma rank_sort_perm groups : rank_sort groups ≡ₚ groups.
Proof.
  unfold rank_sort. induction groups as [|g groups IH]; [done|]. cbn [fmap list_fmap concat]. rewrite !filter_cons.
  pose proof (stateRank_range (groupState g)) as Hr. cbn [fmap list_fmap concat] in IH.
  assert (stateRank (groupState g) = 0 ∨ stateRank (groupState g) = 1 ∨ stateRank (groupState g) = 2 ∨ stateRank (groupState g) = 3) as [->|[->|[->| ->]]] by set_solver;
    repeat (rewrite decide_True by done || rewrite decide_False by done); (etrans; [|apply perm_skip, IH]); cbn [app]; rewrite ?app_nil_r; solve_Permutation.
Qed.

Section tabs.
Context `{SortSlice}.

Lemma ranks_sorted groups : StronglySorted Z.le (stateRank ∘ groupState <$> rank_sort groups).
Proof.
  unfold rank_sort. set (part := λ r, filter (λ g, stateRank (groupState g) = r) groups).
  assert (∀ r, Forall (λ x, x = r) (stateRank ∘ groupState <$> part r)) as Hpart.
  { intros r. apply Forall_fmap, Forall_forall. intros g Hg. subst part. by apply list_elem_of_filter in Hg as [? _]. }
  assert (∀ r l, StronglySorted Z.le l → Forall (λ x, r < x) l → StronglySorted Z.le ((stateRank ∘ groupState <$> part r) ++ l)) as Happ.
  { intros r l Hl Hr. specialize (Hpart r). induction Hpart as [|x xs -> Hxs IH]; [done|]. cbn. constructor; [done|].
    apply Forall_app. split; (eapply Forall_impl; [eassumption|]; cbn; lia). }
  change (StronglySorted Z.le (stateRank ∘ groupState <$> (part 0 ++ part 1 ++ part 2 ++ part 3 ++ []))). rewrite !fmap_app. cbn [fmap list_fmap].
  assert (∀ r l, Forall (λ x, r < x) l → Forall (λ x, r < x) ((stateRank ∘ groupState <$> part (r + 1)) ++ l)) as Hlt.
  { intros r l Hl. apply Forall_app. split; [|done]. eapply Forall_impl; [apply Hpart|]. cbn. lia. }
  assert (∀ r r' l, r' < r → Forall (λ x, r < x) l → Forall (λ x, r' < x) l) as Hmono by (intros; eapply Forall_impl; [eassumption|]; cbn; lia).
  repeat apply Happ; try constructor; try (apply (Hlt 2)); try (apply (Hlt 1), (Hmono 2); [lia|apply (Hlt 2)]);
    try (apply (Hlt 0), (Hmono 1); [lia|apply (Hlt 1), (Hmono 2); [lia|apply (Hlt 2)]]); constructor.
Qed.

(** The list of runs: the tab holds just the groups of its states, as many as the
    counter of the whole window says, failures first, and within a rank in the
    order of recency; the counters count no group twice. *)
Theorem tabs_are_counted window status now attempts :
  let groups := by_recency (groupAttempts attempts (windowCutoff (or_str window "24h") now)) in
  let '(rows, counts) := handleAttemptList window status now attempts in
  StronglySorted Z.le (stateRank ∘ groupState <$> rows) ∧
  (∀ r, filter (λ g, stateRank (groupState g) = r) rows `sublist_of` filter (λ g, stateRank (groupState g) = r) groups) ∧
  Z.of_nat (length rows) = match tab_states status with
                           | None => rc_Total counts
                           | Some states => if decide (states = failed_states) then rc_Failed counts
                                            else if decide (states = moving_states) then rc_InFlight counts else rc_Verdicts counts end ∧
  rc_Failed counts + rc_InFlight counts + rc_Verdicts counts ≤ rc_Total counts.
Proof.
  cbv zeta. unfold handleAttemptList. fold (or_str window "24h"). set (groups := by_recency _).
  set (tab := match tab_states status with Some states => _ | None => groups end).
  assert (tab `sublist_of` groups) as Hsub.
  { subst tab. destruct (tab_states status); [|done]. clear. induction groups as [|g gs IH]; [done|]. rewrite filter_cons. case_decide; by constructor. }
  split_and!.
  - apply ranks_sorted.
  - intros r. assert (filter (λ g, stateRank (groupState g) = r) (rank_sort tab) = filter (λ g, stateRank (groupState g) = r) tab ∨
                      filter (λ g, stateRank (groupState g) = r) (rank_sort tab) = []) as [->| ->]; [|clear -Hsub|apply sublist_nil_l].
    { unfold rank_sort. cbn [fmap list_fmap concat]. rewrite !filter_app, !list_filter_filter.
      assert (∀ r', r' ≠ r → filter (λ g, stateRank (groupState g) = r ∧ stateRank (groupState g) = r') tab = []) as Hno.
      { intros r' Hr. clear -Hr. induction tab as [|g gs IH]; [done|]. rewrite filter_cons. case_decide; [lia|done]. }
      assert (filter (λ g, stateRank (groupState g) = r ∧ stateRank (groupState g) = r) tab = filter (λ g, stateRank (groupState g) = r) tab) as Hyes by (apply list_filter_iff; tauto).
      destruct (decide (r ∈ [0; 1; 2; 3])) as [Hr|Hr].
      - left. assert (r = 0 ∨ r = 1 ∨ r = 2 ∨ r = 3) as [->|[->|[->| ->]]] by set_solver; rewrite Hyes, !Hno by lia; cbn; by rewrite ?app_nil_r.
      - right. rewrite !Hno; [done|set_solver..]. }
    induction Hsub as [|g l1 l2 _ IH|g l1 l2 _ IH]; [done|rewrite !filter_cons; case_decide; [by constructor|done]|rewrite filter_cons; case_decide; [by constructor|done]].
  - rewrite rank_sort_perm. subst tab. unfold tab_states. repeat case_decide; simplify_eq; done.
  - cbn. clear. unfold count_in. induction groups as [|g gs IH]; [done|]. rewrite !filter_cons. unfold failed_states, moving_states, done_states in *.
    generalize (groupState g). intros st. repeat case_decide; cbn [length]; first [lia|exfalso; set_solver].
Qed.
End tabs.

(** ** The strip tiles *)

Lemma place_spec segs : ∀ x widths, length widths = length segs →
  let '(steps, x') := place x segs widths in
  wp_ID <$> steps = sg_ID <$> segs ∧ wp_Width <$> steps = widths ∧ x' = x + foldr Z.add 0 widths + strip_gap * Z.of_nat (length segs) ∧
  (∀ s, steps !! 0%nat = Some s → wp_X s = x) ∧
  ∀ i s s', steps !! i = Some s → steps !! S i = Some s' → wp_X s' = wp_X s + wp_Width s + strip_gap.
Proof.
  induction segs as [|g segs IH]; intros x [|w widths] Hl; cbn in Hl; try lia; cbn [place].
  - split_and!; cbn; [done|done|lia|done|done].
  - specialize (IH (x + w + strip_gap) widths ltac:(lia)). destruct (place _ segs widths) as [steps x']. destruct IH as (H1&H2&H3&H4&H5).
    split_and!; [cbn; by f_equal|cbn; by f_equal|rewrite H3; cbn [foldr length]; lia|by intros s [= <-]|].
    intros [|i] s s'; cbn; [intros [= <-] Hs; by rewrite (H4 s' Hs)|]. apply H5.
Qed.

Lemma sum_alter (f : Z → Z) l i w : l !! i = Some w → foldr Z.add 0 (alter f i l) = foldr Z.add 0 l - w + f w.
Proof. revert i. induction l as [|x l IH]; intros [|i]; cbn; intros H; simplify_eq; [lia|]. rewrite (IH i H). lia. Qed.

Lemma fold_index_lt segs : segs ≠ [] → (fold_index segs < length segs)%nat.
Proof.
  intros Hne. unfold fold_index. assert (∀ l acc, (∀ i, i ∈ l → (i < length segs)%nat) → (acc < length segs)%nat →
    (List.fold_left (λ acc i, match segs !! i with Some s => if is_pending s then acc else i | None => acc end) l acc < length segs)%nat) as H.
  { induction l as [|i l IH]; intros acc Hl Hacc; [done|]. cbn. apply IH; [intros; apply Hl; by right|].
    destruct (segs !! i) as [s|]; [|done]. destruct (is_pending s); [done|]. apply Hl. by left. }
  apply H; [intros i Hi; apply elem_of_seq in Hi; lia|]. destruct segs; cbn in *; [done|lia].
Qed.

(** The strip of a row: its steps follow one another, in the order of the graph and
    two apart, from zero; it is never narrower than asked, and just as wide unless
    the step that takes up the rest is at its least width of 3. *)
Theorem strip_tiles g segs width :
  let '(steps, total) := paint_strip (g :: segs) width in
  wp_ID <$> steps = sg_ID <$> (g :: segs) ∧ (∀ s, steps !! 0%nat = Some s → wp_X s = 0) ∧
  (∀ i s s', steps !! i = Some s → steps !! S i = Some s' → wp_X s' = wp_X s + wp_Width s + strip_gap) ∧
  total = foldr Z.add 0 (wp_Width <$> steps) + strip_gap * Z.of_nat (length segs) ∧
  width ≤ total ∧ ∃ s, steps !! fold_index (g :: segs) = Some s ∧ 3 ≤ wp_Width s ∧ (3 < wp_Width s → total = width).
Proof.
  unfold paint_strip. set (all := g :: segs). pose proof (place_spec all 0 (strip_widths all width)) as Hp.
  unfold strip_widths in *. cbv zeta in *.
  set (drawable := width - strip_gap * (Z.of_nat (length all) - 1)) in *.
  set (ws := seg_width _ _ _ <$> all) in *. set (sum := foldr Z.add 0 ws) in *.
  assert (length ws = length all) as Hlen by (subst ws; by rewrite length_fmap).
  rewrite length_alter in Hp. specialize (Hp Hlen). destruct (place 0 all _) as [steps x]. destruct Hp as (H1&H2&H3&H4&H5).
  pose proof (fold_index_lt all ltac:(done)) as Hf. destruct (lookup_lt_is_Some_2 ws (fold_index all)) as [w Hw]; [by rewrite Hlen|].
  rewrite (sum_alter _ ws _ w Hw) in H3. fold sum in H3.
  assert ((wp_Width <$> steps) !! fold_index all = Some (Z.max (w + drawable - sum) 3)) as Hfold by (rewrite H2, list_lookup_alter_eq, Hw; done).
  apply list_lookup_fmap_Some in Hfold as (s&Hws&Hs).
  assert (foldr Z.add 0 (wp_Width <$> steps) = sum - w + Z.max (w + drawable - sum) 3) as Hsum by (rewrite H2; exact (sum_alter (λ w, Z.max (w + drawable - sum) 3) ws _ w Hw)).
  subst all. cbn [length] in *. unfold drawable, strip_gap in *. split_and!; [done|done|done|lia|lia|]. exists s. split_and!; [done|lia|lia].
Qed.

(** Many steps that have not run, and one that has: the strip leaves its box. *)
Example strip_overflows :
  (paint_strip ({| sg_ID := "a"; sg_Status := "ok"; sg_durMs := Some 1000 |}
                :: replicate 20 {| sg_ID := "b"; sg_Status := "pending"; sg_durMs := None |}) wallStripW).2 = 163.
Proof. vm_compute. reflexivity. Qed.

(** ** The wall *)

(** The groups in some states, and what counting some groups adds. *)
Definition in_states (states : list string) (l : list attemptGroup) : Z :=
  Z.of_nat (length (filter (λ g, groupState g ∈ states) l)).
Definition counted (c : wallCounts) (l : list attemptGroup) (c' : wallCounts) : Prop :=
  wc_InFlight c' = wc_InFlight c + in_states ["in flight"; "reconciling"] l ∧ wc_Queued c' = wc_Queued c + in_states ["queued"] l
  ∧ wc_Failed c' = wc_Failed c + in_states ["failed"; "dispatch lost"] l ∧ wc_Verdict c' = wc_Verdict c + in_states ["verdict"; "validated"] l.

Lemma counted_nil c : counted c [] c.
Proof. unfold counted, in_states. cbn. lia. Qed.
Lemma in_states_cons states g l : in_states states (g :: l) = (if bool_decide (groupState g ∈ states) then 1 else 0) + in_states states l.
Proof. unfold in_states. rewrite filter_cons. case_decide as H; [rewrite bool_decide_eq_true_2 by done|rewrite bool_decide_eq_false_2 by done]; cbn [length]; lia. Qed.
Lemma counted_cons c g l c' : counted (tally (groupState g) c) l c' → counted c (g :: l) c'.
Proof.
  unfold counted, tally. cbn. unfold failed_states, done_states. rewrite !in_states_cons. rewrite <- !Z.add_assoc. done.
Qed.

Lemma wall_scan_spec now byName groups : ∀ rows hidden counts, 0 ≤ rows ≤ wallMaxGroups →
  let '(picked, hidden', counts') := wall_scan now byName groups rows hidden counts in
  let shown_groups := filter (λ g, shown now byName g = true) groups in
  let aged := Z.of_nat (length (filter (λ g, shown now byName g ≠ true) groups)) in
  picked = take (Z.to_nat (wallMaxGroups - rows)) shown_groups ∧
  counted counts (take (S (Z.to_nat (wallMaxGroups - rows))) shown_groups) counts' ∧
  hidden ≤ hidden' ≤ hidden + aged ∧ (Z.of_nat (length shown_groups) ≤ wallMaxGroups - rows → hidden' = hidden + aged).
Proof.
  unfold wallMaxGroups. induction groups as [|g groups IH]; intros rows hidden counts Hr; cbn [wall_scan].
  - cbn. split; [symmetry; apply take_nil|]. split; [apply counted_nil|]. split; intros; lia.
  - rewrite !filter_cons. destruct (shown now byName g) eqn:Hs; cbn [negb].
    + rewrite (decide_True (P := true = true)), (decide_False (P := true ≠ true)) by (done || by intros []).
      unfold wallMaxGroups. destruct (Z.leb_spec 12 rows).
      * assert (rows = 12) as -> by lia. split; [done|]. cbn [length]. split; [apply counted_cons, counted_nil|]. split; intros; lia.
      * specialize (IH (rows + 1) hidden (tally (groupState g) counts) ltac:(lia)). unfold wallMaxGroups in IH.
        destruct (wall_scan now byName groups _ _ _) as [[l h] c]. destruct IH as (->&Hc&?&Hh). cbn [length].
        assert (Z.to_nat (12 - rows) = S (Z.to_nat (12 - (rows + 1)))) as -> by lia.
        split; [done|]. split; [apply counted_cons, Hc|]. split; [lia|intros; apply Hh; lia].
    + rewrite (decide_False (P := false = true)), (decide_True (P := false ≠ true)) by done. cbn [length].
      specialize (IH rows (hidden + 1) counts Hr). unfold wallMaxGroups in IH.
      destruct (wall_scan now byName groups _ _ _) as [[l h] c]. destruct IH as (->&Hc&?&Hh).
      split; [done|]. split; [exact Hc|]. split; [lia|]. intros Hle. rewrite (Hh Hle). lia.
Qed.

(** A group of the wall: nothing superseded, and a verdict for an hour past the
    activity of its attempt. *)
Definition live (now : Z) (byName : gmap string Attempt) (g : attemptGroup) : Prop :=
  groupState g ≠ "superseded" ∧
  (groupState g = "verdict" ∨ groupState g = "validated" →
   ∀ att, byName !! gg_LatestAttempt g = Some att → time_Sub now (attemptActivity att) ≤ 3600 * Second).

Lemma shown_live now byName g : shown now byName g = true ↔ live now byName g.
Proof.
  unfold shown, live. destruct (decide (groupState g = "superseded")) as [|Hn]; [split; [done|by intros [? _]]|].
  unfold done_states. destruct (bool_decide _) eqn:Hd; [apply bool_decide_eq_true in Hd|apply bool_decide_eq_false in Hd].
  - assert (groupState g = "verdict" ∨ groupState g = "validated") as Hv by set_solver.
    destruct (byName !! gg_LatestAttempt g) as [att|]; [|split; [by intros _; split|done]].
    unfold wallVerdictGrace. rewrite negb_true_iff, Z.ltb_ge. change Hour with (3600 * Second).
    split; [intros Hle; split; [done|]; by intros _ ? [= <-]|intros [_ Hl]; by apply Hl].
  - split; [intros _; split; [done|]; set_solver|done].
Qed.

(** The newest first, by the times as the code writes them. *)
Definition newest_first (l : list attemptGroup) : Prop :=
  StronglySorted (λ g g', String.le (gg_LastActivity g') (gg_LastActivity g)) l.

Lemma sorted_filter {A} (R : A → A → Prop) (P : A → Prop) `{∀ x, Decision (P x)} l : StronglySorted R l → StronglySorted R (filter P l).
Proof.
  induction 1 as [|x l _ IH Hx]; [constructor|]. rewrite filter_cons. case_decide; [|done]. constructor; [done|].
  rewrite Forall_forall in *. intros y [_ Hy]%list_elem_of_filter. auto.
Qed.

Lemma filter_split {A} (P : A → Prop) `{∀ x, Decision (P x)} l : filter P l ++ filter (λ x, ¬ P x) l ≡ₚ l.
Proof.
  induction l as [|x l IH]; [done|]. rewrite !filter_cons. destruct (decide (P x)) as [Hp|Hp].
  - rewrite decide_False by tauto. cbn. by rewrite IH.
  - rewrite decide_True by done. rewrite <- Permutation_middle. by rewrite IH.
Qed.

Lemma first_seen_spec l : NoDup (first_seen l) ∧ ∀ x, x ∈ first_seen l ↔ x ∈ l.
Proof.
  unfold first_seen. induction l as [|y l IH] using rev_ind; cbn; [split; [apply NoDup_nil_2|done]|]. rewrite foldl_app. cbn. destruct IH as [Hnd Hin].
  case_decide as Hy.
  - split; [done|]. intros x. rewrite elem_of_app, list_elem_of_singleton, <- Hin. naive_solver.
  - split; [apply NoDup_app; split_and!; [done|by intros x Hx ->%list_elem_of_singleton|apply NoDup_singleton]|].
    intros x. by rewrite !elem_of_app, list_elem_of_singleton, Hin.
Qed.

(** The sections hold each row once. *)
Lemma sections_perm tmplOf rows : concat ((λ sec, concat (ww_Groups <$> se_Workflows sec)) <$> sections_of tmplOf rows) ≡ₚ rows.
Proof.
  unfold sections_of. set (section := λ name, or_str _ _). set (names := first_seen (wg_WorkflowRef <$> rows)).
  destruct (first_seen_spec (wg_WorkflowRef <$> rows)) as [Hnd Hin]. fold names in Hnd, Hin.
  destruct (first_seen_spec (section <$> names)) as [Hsd Hsin].
  transitivity (concat ((λ sec, concat ((λ name, with_key wg_WorkflowRef name rows) <$> with_key section sec names)) <$> first_seen (section <$> names))).
  { rewrite <- list_fmap_compose. erewrite list_fmap_ext; [reflexivity|]. intros i sec _. cbn. by rewrite <- list_fmap_compose. }
  rewrite concat_fmap_concat. transitivity (concat ((λ name, with_key wg_WorkflowRef name rows) <$> names)).
  - rewrite (partition_perm section); [done|done|]. intros name Hn. apply Hsin. by apply list_elem_of_fmap_2.
  - apply partition_perm; [done|]. intros g Hg. apply Hin. by apply list_elem_of_fmap_2.
Qed.

Section wall_props.
Context `{SortSlice} (parse : string → option json).
Context {J : Type} `{JsonMap J} `{JsonCodec PluginNodeConfig} `{JsonCodec AgentNodeConfig}.

Lemma row_speaks templates now byName wfByName g row : wall_row parse templates now byName wfByName g = Some row →
  wallState row = groupState g ∧ wg_WorkflowRef row = workflowCRName (gg_WorkflowRef g) ∧ wg_Count row = gg_Count g
  ∧ wg_Subject row = (if decide (gg_Subject g = "") then "unattributed" else gg_Subject g).
Proof.
  unfold wall_row. destruct (match byName !! gg_LatestAttempt g with Some _ => _ | None => _ end) as [r|]; [|done]. cbn.
  destruct (match r with Some (wf, att) => wallStepsFor wf att | None => ([], 0) end) as [strip w]. intros [= <-]. done.
Qed.

(** The section of a block is the template of its workflow. *)
Lemma template_of wfs name :
  let tmplOf : gmap string string := (λ wf, wf_TemplateRef (wk_Spec wf)) <$>
    (list_to_map (reverse ((λ wf, (om_Name (wk_Meta wf), wf)) <$> wfs)) : gmap string Workflow) in
  (∀ wf, wf ∈ wfs → NoDup ((λ wf, om_Name (wk_Meta wf)) <$> wfs) → om_Name (wk_Meta wf) = name →
     tmplOf !! name = Some (wf_TemplateRef (wk_Spec wf)))
  ∧ ((∀ wf, wf ∈ wfs → om_Name (wk_Meta wf) ≠ name) → tmplOf !! name = None).
Proof.
  cbv zeta. rewrite lookup_fmap. split.
  - intros wf Hwf Hnd <-. erewrite elem_of_list_to_map_1; [reflexivity| |].
    + rewrite fmap_reverse, <- list_fmap_compose. cbn. by rewrite reverse_Permutation.
    + rewrite elem_of_reverse. apply list_elem_of_fmap. by exists wf.
  - intros Hno. rewrite not_elem_of_list_to_map_1; [done|]. rewrite fmap_reverse, <- list_fmap_compose, elem_of_reverse.
    intros (wf&Hn&Hwf)%list_elem_of_fmap. by apply (Hno wf Hwf).
Qed.

(** A row says of its group what the list of runs does. *)
Definition row_of (g : attemptGroup) (row : wallGroup) : Prop :=
  wallState row = groupState g ∧ wg_WorkflowRef row = workflowCRName (gg_WorkflowRef g) ∧ wg_Count row = gg_Count g
  ∧ wg_Subject row = (if decide (gg_Subject g = "") then "unattributed" else gg_Subject g).

(** C40. The wall splits the groups of all attempts, without a cutoff, in those
    that show, those past the budget and those that are no news: superseded, or a
    verdict of more than an hour. What shows is the newest of the live groups, by
    the times as the code writes them, twelve if there are more; each has one row,
    newest first before they are sorted into sections, in its workflow's block and
    in the section of its workflow's template, in the state the list of runs gives
    it, with its subject and number. The overflow is zero when nothing is past the
    budget, and else what is and perhaps some that are no news; the counts are by
    state, of the live groups up to the thirteenth, where the comment beside the
    loop says that they take the whole live selection ([counts_stop_at_the_cap]). *)
Theorem wall_shows_newest_live templates now attempts wfs sections overflow counts :
  wallSections parse templates now attempts wfs = Some (sections, overflow, counts) →
  ∃ picked past dead rows,
    picked ++ past ++ dead ≡ₚ groupAttempts attempts 0 ∧
    Forall (live now (by_name attempts)) (picked ++ past) ∧ Forall (λ g, ¬ live now (by_name attempts) g) dead ∧
    newest_first (picked ++ past) ∧ ((length picked ≤ 12)%nat ∧ past = [] ∨ length picked = 12%nat) ∧
    Forall2 row_of picked rows ∧
    concat ((λ sec, concat (ww_Groups <$> se_Workflows sec)) <$> sections) ≡ₚ rows ∧
    (∀ sec w row, sec ∈ sections → w ∈ se_Workflows sec → row ∈ ww_Groups w →
       wg_WorkflowRef row = ww_Name w ∧
       (∀ wf, wf ∈ wfs → NoDup ((λ wf, om_Name (wk_Meta wf)) <$> wfs) → om_Name (wk_Meta wf) = ww_Name w →
          se_Name sec = if decide (wf_TemplateRef (wk_Spec wf) = "") then "other workflows" else wf_TemplateRef (wk_Spec wf)) ∧
       ((∀ wf, wf ∈ wfs → om_Name (wk_Meta wf) ≠ ww_Name w) → se_Name sec = "other workflows")) ∧
    Z.of_nat (length past) ≤ overflow ≤ Z.of_nat (length past + length dead) ∧ (past = [] → overflow = 0) ∧
    counted {| wc_InFlight := 0; wc_Queued := 0; wc_Failed := 0; wc_Verdict := 0 |} (picked ++ take 1 past) counts.
Proof.
  unfold wallSections. set (byName := by_name attempts). set (groups := by_recency _). cbv zeta.
  pose proof (wall_scan_spec now byName groups 0 0 {| wc_InFlight := 0; wc_Queued := 0; wc_Failed := 0; wc_Verdict := 0 |} ltac:(unfold wallMaxGroups; lia)) as Hscan.
  destruct (wall_scan now byName groups 0 0 _) as [[picked hidden] counts']. cbv zeta in Hscan.
  change (Z.to_nat (wallMaxGroups - 0)) with 12%nat in Hscan. change (wallMaxGroups - 0) with 12 in Hscan.
  set (alive := filter (λ g, shown now byName g = true) groups) in *. set (aged := filter (λ g, shown now byName g ≠ true) groups) in *.
  destruct Hscan as (Hpicked&Hcount&Hh1&Hh2).
  destruct (mapM _ picked) as [rows|] eqn:Hrows; [|done]. cbn. intros [= <- <- <-]. apply mapM_Some in Hrows.
  assert (picked ++ drop 12 alive = alive) as Hsplit by (rewrite Hpicked; apply take_drop).
  assert (alive ++ aged ≡ₚ groups) as Hperm by apply filter_split.
  assert (length groups = (length picked + length (drop 12 alive) + length aged)%nat) as Hlen
    by (rewrite <- Hperm, <- Hsplit, !length_app at 1; lia).
  exists picked, (drop 12 alive), aged, rows. split_and!.
  - rewrite app_assoc, Hsplit, Hperm. apply sort_perm.
  - rewrite Hsplit. apply Forall_forall. intros g [Hg _]%list_elem_of_filter. by apply shown_live.
  - apply Forall_forall. intros g [Hg _]%list_elem_of_filter. by rewrite <- shown_live.
  - rewrite Hsplit. apply sorted_filter, sorted_descending.
  - rewrite Hpicked, length_take. destruct (decide (length alive ≤ 12)%nat); [left|right; lia].
    split; [lia|]. by apply drop_ge.
  - eapply Forall2_impl; [exact Hrows|]. intros g row Hr. exact (row_speaks _ _ _ _ _ _ Hr).
  - apply sections_perm.
  - intros sec w row (s&->&_)%list_elem_of_fmap (name&->&Hname)%list_elem_of_fmap Hrow. cbn in *.
    apply list_elem_of_filter in Hrow as [Hrow _]. apply list_elem_of_filter in Hname as [Hs _].
    destruct (template_of wfs name) as [Hin Hout]. split; [done|]. rewrite <- Hs. unfold or_str. split.
    + intros wf Hwf Hnd Hn. rewrite (Hin wf Hwf Hnd Hn). cbn. done.
    + intros Hno. by rewrite (Hout Hno).
  - rewrite Hlen. lia.
  - rewrite Hlen. lia.
  - intros Hp. rewrite Hh2, Hlen, Hp; [cbn; lia|]. rewrite <- Hsplit, Hp, app_nil_r, Hpicked, length_take. lia.
  - rewrite Hpicked, take_take_drop. exact Hcount.
Qed.
End wall_props.

(** ** A wall of fourteen *)

Fixpoint insert_by {A} (less : A → A → bool) (x : A) (l : list A) : list A :=
  match l with [] => [x] | y :: l' => if less y x then y :: insert_by less x l' else x :: l end.
Definition insertion {A} (less : A → A → bool) (l : list A) : list A := foldr (insert_by less) [] l.
Lemma insert_by_perm {A} (less : A → A → bool) x l : insert_by less x l ≡ₚ x :: l.
Proof. induction l as [|y l IH]; [done|]. cbn. destruct (less y x); [|done]. rewrite IH. apply perm_swap. Qed.
Lemma insertion_perm {A} (less : A → A → bool) l : insertion less l ≡ₚ l.
Proof. induction l as [|x l IH]; [done|]. cbn. by rewrite insert_by_perm, IH. Qed.
Lemma insert_by_sorted {A} (less : A → A → bool) x l : weak_order less →
  StronglySorted (λ x y, less y x = false) l → StronglySorted (λ x y, less y x = false) (insert_by less x l).
Proof.
  intros Ho. induction 1 as [|y l Hl IH Hy]; cbn; [by repeat constructor|]. destruct (less y x) eqn:Hyx.
  - constructor; [done|]. rewrite insert_by_perm. constructor; [by apply (wo_asym _ Ho)|done].
  - constructor; [by constructor|]. constructor; [done|]. eapply Forall_impl; [exact Hy|]. cbn. intros z Hz. exact (wo_trans _ Ho _ _ _ Hz Hyx).
Qed.
Lemma insertion_sorted {A} (less : A → A → bool) l : weak_order less → StronglySorted (λ x y, less y x = false) (insertion less l).
Proof. intros Ho. induction l as [|x l IH]; [constructor|]. cbn. by apply insert_by_sorted. Qed.
#[export] Instance insertion_sort : SortSlice :=
  {| sort_slice := @insertion; sort_perm := @insertion_perm; sort_sorted := @insertion_sorted |}.

Definition wall_attempt (n : nat) (review : option ReviewClaimStatus) (phase : string) : Attempt :=
  let name := pretty (N.of_nat n) in
  {| at_Meta := {| om_Name := name; om_Namespace := "ns"; om_Labels := ∅; om_CreationTimestamp := (62135596800 + Z.of_nat n) * Second;
                   om_ResourceVersion := 1; om_UID := "" |};
     at_Spec := {| as_Objective := {| ob_Kind := match review with Some _ => ObjectiveKindPRReview | None => "maintenance" end;
                                      ob_PrimarySubject := {| sj_Binding := ""; sj_Object := match review with Some _ => "pr" | None => name end |};
                                      ob_RelatedSubjects := []; ob_DesiredOutcome := ""; ob_TargetedState := "" |};
                   as_WorkflowRef := "ns/docs"; as_Bindings := []; as_Owner := "" |};
     at_Status := set_Phase phase {| st_ObservedGeneration := 0; st_Phase := ""; st_Runs := []; st_NodeResults := [];
                   st_Evidence := []; st_CompactedRuns := 0; st_CompactedNodeResults := 0; st_CompactedEvidence := 0; st_CompactedThrough := 0;
                   st_LastRunAt := 0; st_Message := ""; st_Conditions := []; st_Review := review; st_Progress := None |} |}.

(** Three scheduled attempts of one workflow, two on one subject: two groups, not
    one row for the workflow. *)
Definition on_subject (object : string) (n : nat) : Attempt :=
  let a := wall_attempt n None "validated" in let s := at_Spec a in let o := as_Objective s in
  {| at_Meta := at_Meta a;
     at_Spec := {| as_Objective := {| ob_Kind := ob_Kind o; ob_PrimarySubject := {| sj_Binding := ""; sj_Object := object |};
                                      ob_RelatedSubjects := []; ob_DesiredOutcome := ""; ob_TargetedState := "" |};
                   as_WorkflowRef := as_WorkflowRef s; as_Bindings := []; as_Owner := "" |};
     at_Status := at_Status a |}.
Definition scheduled_three : list Attempt := [on_subject "repo-a" 1; on_subject "repo-b" 2; on_subject "repo-a" 3].

Lemma groups_account_witness :
  Forall ref_ok (filter (since 0) scheduled_three)
  ∧ (λ g, (gg_WorkflowRef g, gg_Subject g, gg_Count g, gg_LatestAttempt g)) <$> groupAttempts scheduled_three 0
    = [("ns/docs", "repo-a", 2, "3"); ("ns/docs", "repo-b", 1, "2")]
  ∧ NoDup ((λ g, (gg_WorkflowRef g, gg_Subject g)) <$> groupAttempts scheduled_three 0).
Proof.
  assert (Forall ref_ok (filter (since 0) scheduled_three)) as Href
    by (vm_compute; repeat constructor; by exists "ns", "docs").
  split; [exact Href|]. split; [vm_compute; reflexivity|]. exact (proj1 (groups_account scheduled_three 0 Href)).
Defined.

Definition fourteen_failed : list Attempt := (λ n, wall_attempt n None "failed") <$> seq 0 14.

(** A claim that was parked, and then released for good. *)
Definition claim_of (released : bool) (reason note : string) : ReviewClaimStatus :=
  {| rv_PR := "pr"; rv_HeadSHA := "sha"; rv_Label := ""; rv_ArmedSince := None; rv_DispatchedAt := None; rv_DispatchedJob := "";
     rv_Released := released; rv_ReleaseReason := reason; rv_DeadDispatches := 0; rv_DispatchLostReleases := 0;
     rv_LastDispatchLostAt := None; rv_DismissedAt := None; rv_HoldNote := note; rv_HoldCause := note |}.

(** The claim of a closed pull request reads as queued, with the note of an older claim. *)
Example closed_claim_reads_queued :
  (λ g, (groupState g, gg_ClaimState g, gg_HoldNote g)) <$>
    groupAttempts [wall_attempt 1 (Some (claim_of false "" "ci-pending")) ""; wall_attempt 2 (Some (claim_of true "pr-closed" "")) ""] 0
  = [("queued", "released", "ci-pending")].
Proof. vm_compute. reflexivity. Qed.

#[local] Instance bare_plugin_codec : JsonCodec PluginNodeConfig := {| json_marshal := λ _, ""; json_unmarshal := λ _, None |}.
#[local] Instance bare_agent_codec : JsonCodec AgentNodeConfig := {| json_marshal := λ _, ""; json_unmarshal := λ _, None |}.

Definition wall_of (attempts : list Attempt) : option (list wallSection * Z * wallCounts) :=
  wallSections (J := string) (λ _, None) (λ _, None) ((62135596800 + 60) * Second) attempts [].

(** Fourteen failed rows: twelve show, and the counts say thirteen. *)
Example counts_stop_at_the_cap :
  (λ w, (w.1.2, wc_Failed w.2)) <$> wall_of fourteen_failed = Some (2, 13).
Proof. vm_compute. reflexivity. Qed.

Lemma wall_shows_newest_live_witness :
  ∃ sections counts picked past dead rows, wall_of fourteen_failed = Some (sections, 2, counts) ∧
    picked ++ past ++ dead ≡ₚ groupAttempts fourteen_failed 0 ∧ newest_first (picked ++ past) ∧
    length (groupAttempts fourteen_failed 0) = 14%nat ∧
    concat ((λ sec, concat (ww_Groups <$> se_Workflows sec)) <$> sections) ≡ₚ rows.
Proof.
  destruct (wall_of fourteen_failed) as [[[sections overflow] counts]|] eqn:E; [|vm_compute in E; discriminate].
  destruct (wall_shows_newest_live (J := string) (λ _, None) (λ _, None) ((62135596800 + 60) * Second) fourteen_failed [] sections overflow counts E)
    as (picked&past&dead&rows&Hp&_&_&Hnew&_&_&Hrows&_).
  assert (overflow = 2) as ->.
  { assert (option_map (λ w, w.1.2) (wall_of fourteen_failed) = Some 2) as H by (vm_compute; reflexivity). rewrite E in H. by injection H. }
  exists sections, counts, picked, past, dead, rows. split; [reflexivity|]. split; [exact Hp|]. split; [exact Hnew|].
  split; [vm_compute; reflexivity|exact Hrows].
Defined.

(** The rows of the fourteen, newest first. *)
Example newest_rows :
  (λ w, (λ row, wg_Subject row) <$> concat ((λ sec, concat (ww_Groups <$> se_Workflows sec)) <$> w.1.1)) <$> wall_of fourteen_failed
  = Some ["13"; "12"; "11"; "10"; "9"; "8"; "7"; "6"; "5"; "4"; "3"; "2"].
Proof. vm_compute. reflexivity. Qed.
